(* ===== verification/_CoqProject ===== *)
-Q . S2P
Prelude.v
RustText.v
RustPath.v
Occupancy.v
Values.v
Coordination.v
Store.v
Locks.v
Todos.v
Entries.v
EventLog.v
Process.v
Config.v
StackRows.v
StackStore.v
StackRefine.v
StackWrites.v
StackSync.v
StackEditor.v
Frame.v
Tap.v
WaitData.v
LogFile.v
LogSpan.v
LogPlaced.v
LogLines.v
LogNewest.v
LogRead.v
LogKept.v
LogVisit.v
LogWitness.v
Terminal.v
Screen.v
Emulator.v
TermScan.v
Pen.v
Drawing.v
Drawn.v
LogText.v
EraseLater.v
Holder.v
HolderSafe.v
HolderServe.v
HolderTrail.v
HolderWitness.v
Books.v
SupState.v
HolderClient.v
HolderHeard.v
Attach.v
AttachPump.v
Lifecycle.v
SupMoves.v
Waits.v
ServiceParts.v
Runtime.v
WaitsOnce.v
Served.v
Serving.v
ServiceSafe.v
WaitsRead.v
SupInv.v
SupLocal.v
SupOk.v
SupSafe.v
WaitsDue.v
ServiceLoop.v
RunRows.v
Recorder.v
