(* ===== verification/Prelude.v ===== *)
(** * muster: a verification development

    muster supervises the processes of a project: a background service starts,
    restarts and stops them by the stack a project stores, command-line clients
    and agents ask the service for states, logs and waits, and agents share
    todos, locks, notes and values through the store. This library models the
    Rust code of that program and proves what makes it correct.

    ** The program's parts

    A client sends a request to the service over a socket. The service
    (muster-service/src/runtime.rs) is one loop; it owns a supervisor per loaded
    project (muster-service/src/supervisor), a table of the live shells
    (muster-domain/src/occupancy), an event log and notices. A supervisor brings
    its workspace in line with the stored stack (muster-application), asks
    holder processes to run children, and keeps waits on their output. A holder
    (muster-holder) owns one child and its terminal: it draws the child's output
    on a screen (muster-terminal), writes it to a rotating log
    (muster-protocol/src/holder) and serves both to the supervisor and to
    attached terminals in frames. Whoever reads a log renders it as lines
    (muster-terminal). Stacks, todos, locks and settings are rows of a SQLite
    database (muster-store) whose values are the domain's (muster-domain).

    ** Files and what they model

    Shared:
    - Prelude: results and their [let?] notation, machine widths with their
      saturation, tactics, hints, list and option lemmas;
    - RustText, RustPath: [str], [char] and [Path] as far as the source uses
      them, with [ProjectRoot] and [stays_under_root].
    Domain (muster-domain/src):
    - Occupancy: occupancy/; Values: value/ and pty/size.rs; Coordination:
      coordination/; Process: process/, pty/ outcomes and
      muster-application/src/process_lifecycle.rs; Config: config/, settings.rs,
      project.rs and process/entity.rs.
    Store (muster-store/src):
    - Store: transactions and columns of sqlite_store.rs; Locks: lock_rows.rs;
      Todos and Entries: the two halves of coordination_rows.rs;
    - StackRows and StackStore: stack_rows.rs, project_rows.rs, edit_log_rows.rs
      and the path columns of settings_rows.rs; StackRefine: the abstract stacks
      they implement; StackWrites: sequences of writes; RunRows: run_rows.rs,
      pending_idle_stop_rows.rs and the raised marks of edit_log_rows.rs.
    Application (muster-application/src):
    - StackSync: workspace.rs and stack_sync.rs; StackEditor: stack_editor.rs,
      against the classes [StackPort] and [SettingsPort], the first discharged
      by StackStore.
    Terminal (muster-terminal/src):
    - Terminal: what is read in output beside the emulator: bounded_parser.rs,
      keyboard.rs and keyboard_tracker.rs, mode_scanner.rs and scanned_modes.rs,
      tab_stops.rs, and screen_gate.rs of the protocol; Screen:
      screen_snapshot.rs and the cells it paints, colour queries; Emulator:
      emulator.rs, against the class [Backend] of the emulator crate; TermScan:
      their theorems;
    - Pen: pen.rs and pen_color.rs; Drawing: line_drawing.rs, log_line.rs and
      log_renderer.rs, an instance of the class [LineRenderer] the log readers
      and taps are written against; Drawn, LogText, EraseLater: its invariant
      and theorems.
    Holder (muster-holder/src):
    - Holder: server.rs with byte_queue.rs, over the log, the emulator and the
      keyboard above; HolderSafe, HolderServe, HolderTrail: its invariants and
      theorems; HolderWitness: a holder driven through them.
    - HolderClient: the service's end of the connection, holder_client/ of
      muster-service with holder/client.rs of the protocol; HolderHeard: the two
      ends composed.
    Attached terminals (muster-workspace/src/cli):
    - Attach: detach_scanner.rs, held_terminal.rs and their data; AttachPump:
      attach_pump.rs and the session of attach.rs.
    Log and frames (muster-protocol/src/holder):
    - Frame: frame.rs, protocol.rs, client_message.rs and what they carry;
    - LogFile: log.rs, log_base.rs, generation.rs, resolved.rs; LogSpan:
      span.rs, piece.rs, span_reader.rs and raw reads; LogRead: log_reader.rs,
      kept.rs, filter_state.rs, error_line.rs and their data; LogPlaced,
      LogLines, LogNewest, LogKept, LogVisit: their theorems; LogWitness: a log
      driven through them.
    Supervisor (muster-service/src/supervisor):
    - Books: restart_book.rs, launch_book.rs, adoption_retries.rs; SupState:
      entity.rs, pane.rs, attach_book.rs, metrics_book.rs, attention.rs,
      lookup.rs; Lifecycle: lifecycle.rs, unsupervised.rs, adopter.rs,
      blocking.rs, apply_stack.rs; SupMoves, SupInv, SupLocal, SupOk, SupSafe:
      its steps, invariant and theorems;
    - Tap: ../output_tap.rs, ../fault_budget.rs and placed_renderer.rs of
      muster-terminal; WaitData and Waits: waiting.rs, log_reads.rs,
      ../wait_group.rs and their data; WaitsOnce, WaitsRead, WaitsDue: their
      theorems.
    Service (muster-service/src):
    - EventLog: event_log.rs, event_draft.rs, notices.rs; ServiceParts:
      entering_launches.rs, shell_notes.rs, stopping_entries.rs, event_waiter.rs
      and what the loop asks of a supervisor; Runtime: runtime.rs; Served,
      Serving, ServiceSafe, ServiceLoop: its steps, invariants and theorems;
    - Recorder: store_recorder.rs, against the class [RecordStore], which RunRows
      discharges.

    A component's state is a [Record] with the fields of its struct, an enum an
    [Inductive], each method a function on the state that also returns what it
    returns. A [Result] is [result]; a map a [gmap]; a width-bound integer an
    [N] or [Z] with its wrapping or saturation written out. What a handler does
    outside its state (a job for a worker, a reply, a notice) is a value it
    appends to the state's effects, and what a worker or timer later brings back
    is an event in any order: interleavings are sequences of events.

    ** What the theorems show

    - The service (ServiceSafe, ServiceLoop): over any events the shells of each
      project are counted as their newest reports say, every request is answered
      exactly once, an idle stop spares projects with a shell, a project is let
      go of only once it runs nothing, an exit stops no process, stored edits
      are raised once, and every ring and queue keeps its bound.
    - A supervisor (SupSafe): a pane holds at most one of a live run, a launch
      and an unsupervised child; a live run is left alone but for its own end or
      a request; a launch that reports late is detached; a shutdown lets go of
      everything and stops nothing.
    - Waits (WaitsOnce, WaitsRead, WaitsDue): each reply is owed or sent, never
      both; a chain of log reads ends; settling leaves nothing overdue. Tap: a
      process's output keeps its place over runs and replays.
    - The log (LogPlaced, LogLines, LogNewest, LogKept, LogVisit): a place in the
      output names one byte through rotations, failed calls and crashes; a live
      file keeps its cap and generations end on lines; the backward scan, reads
      within caps and forward scans give what a plain reading gives.
    - A holder (HolderServe): what a client can make of its messages is what the
      holder has, through full queues, resyncs, evictions and a full disk; a
      client acts on the child only as its role lets it; the loop never ends
      with the child left running. Composed with the service's reader and the
      log (HolderHeard): what the service hears is the stream, in order, each
      byte at most once, and none missing but what the log lost.
    - Attached terminals (Attach, AttachPump): what is typed is passed on whole
      and in order up to the detach key, a read-only session sends nothing, and
      the terminal is given back however a session ends.
    - The recorder (Recorder): every record lands in its turn or is told of by
      one notice, in a bounded number of tries, and a later service reads what
      the records that landed left.
    - The terminal (TermScan, LogText, EraseLater): the log keeps exactly what is
      drawn on the primary screen; a negotiated keyboard survives a repaint;
      rendering output never panics and hands out no line that could steer the
      terminal it is shown on; erases kept for later read as erased.
    - The store (Locks, Todos, Entries, StackRefine, StackWrites): locks and
      leases exclude, the claimed todo is the first claimable, tables implement
      stacks, a revision tells whether a stack changed.
    - Frames, events, sync and the editor: round trips, seamless polling, the
      synced workspace is exactly the stored stack, every change is told.

    ** Bounds and fuel

    Recursion that is not structural takes fuel, and each theorem that needs it
    proves the fuel enough: [READ_DEPTH] of chained log reads (WaitsRead), the
    number of waits for [settle_each] (WaitsDue), the free names tried
    (StackStore), the pieces of a span, bytes left of a log and entries kept for
    [read_on], [scan_back], [visit_chunks] and [enforce] (LogPlaced, LogNewest,
    LogVisit, LogKept), the bytes of a chunk for [advance_on] (TermScan), those up
    to where a log ends for [forward_logged] (HolderHeard).
    Positions and counts are bounded by [u64_max] where the
    code saturates; a theorem that needs the bound not to be reached says so.
    Instants are nanoseconds from the earliest the clock can name.

    ** Parameters

    Code outside the repository is an argument: normal form C ([nfc]), Unicode
    classes, the rowid SQLite gives ([new_rowid]), JSON bodies ([Json]), the
    escape parser ([VtParser]) and the emulator ([Backend]) muster uses, the
    width and format class of a character, matching a pattern, showing a
    duration or a path, what the system answers to file calls ([Io]), a
    child to its holder's calls ([allows]), to a supervisor's calls ([Env]) and to the loop's reads ([World], [Outside]).
    [log_positions_stable] assumes that the sidecar can be written and an open
    file inspected, everything else may fail at any call.

    ** Not modelled

    Threads and sockets around the loops (the acceptor, workers, the holder's
    pseudo terminal, record and socket files, launching a holder and watching
    one without a connection), which reach the models as events; the command
    line apart from an attach session, the client library, the MCP tools and
    herdr, which parse arguments, ask the service and print; system calls; text
    selected on a screen, which only tests read; failures of SQLite itself, but
    for those the recorder retries; a
    reader that races a rotation, beyond what any single state of the disk
    shows. *)
From stdpp Require Export base decidable list gmap sets strings sorting numbers fin_maps.

(** ** Fallible results

    Rust's [Result<T, E>]: every fallible function of the source returns one,
    and the [?] operator is the notation below. *)
Inductive result (A E : Type) : Type :=
| Ok (a : A)
| Err (e : E).
Arguments Ok {A E} a.
Arguments Err {A E} e.

Declare Scope muster_scope.
Delimit Scope muster_scope with muster.
Open Scope muster_scope.

Notation "'let?' x ':=' c 'in' k" :=
  (match c with Ok x => k | Err e => Err e end)
  (at level 10, x pattern, c at level 100, k at level 200) : muster_scope.

Definition is_ok {A E} (r : result A E) : bool :=
  match r with Ok _ => true | Err _ => false end.

(** [Option::ok_or]. *)
Definition ok_or {A E} (o : option A) (e : E) : result A E :=
  match o with Some a => Ok a | None => Err e end.

(** ** Machine integers

    Unsigned integers are [N] with their width's bound; the operations are the
    ones the source calls. *)
Definition u16_max : N := 65535.
Definition u32_max : N := 4294967295.
Definition u64_max : N := 18446744073709551615.

(** [u64::saturating_add]. *)
Definition u64_saturating_add (a b : N) : N := N.min (a + b) u64_max.

(** [saturating_sub] on an unsigned type: [N.sub] stops at zero. *)
Definition saturating_sub (a b : N) : N := (a - b)%N.

(** ** Orders

    [#[derive(PartialOrd, Ord)]] compares fields in declaration order; a
    [BTreeSet] or a [sort] walks the order it gives. *)
Class OrdCmp (A : Type) := cmp : A → A → comparison.

Class OrdLaws (A : Type) `{OrdCmp A} := {
  cmp_eq_iff : ∀ x y : A, cmp x y = Eq ↔ x = y;
  cmp_opp : ∀ x y : A, cmp y x = CompOpp (cmp x y);
  cmp_lt_trans : ∀ x y z : A, cmp x y = Lt → cmp y z = Lt → cmp x z = Lt;
}.

(** The [<=] and [<] of an [Ord] type. *)
Definition cle {A} `{OrdCmp A} (x y : A) : Prop := cmp x y ≠ Gt.
Definition clt {A} `{OrdCmp A} (x y : A) : Prop := cmp x y = Lt.

#[export] Instance comparison_eq_dec : EqDecision comparison.
Proof. solve_decision. Defined.

#[export] Instance cle_dec {A} `{OrdCmp A} : RelDecision (cle (A:=A)).
Proof. intros x y. unfold cle. apply _. Defined.

#[export] Instance clt_dec {A} `{OrdCmp A} : RelDecision (clt (A:=A)).
Proof. intros x y. unfold clt. apply _. Defined.

Section order_laws.
Context {A : Type} `{OrdLaws A}.

Lemma cmp_refl (x : A) : cmp x x = Eq.
Proof. by apply cmp_eq_iff. Qed.

Lemma clt_irrefl (x : A) : ¬ clt x x.
Proof. unfold clt. by rewrite cmp_refl. Qed.

Lemma clt_cle (x y : A) : clt x y → cle x y.
Proof. unfold clt, cle. congruence. Qed.

Lemma cle_lt_or_eq (x y : A) : cle x y ↔ clt x y ∨ x = y.
Proof.
  unfold cle, clt. rewrite <- cmp_eq_iff.
  destruct (cmp x y); naive_solver.
Qed.

Lemma not_clt_cle (x y : A) : ¬ clt x y ↔ cle y x.
Proof. unfold clt, cle. rewrite (cmp_opp x y). destruct (cmp x y); naive_solver. Qed.

#[export] Instance cle_total : Total (cle (A:=A)).
Proof. intros x y. unfold cle. rewrite (cmp_opp x y). destruct (cmp x y); naive_solver. Qed.

#[export] Instance clt_transitive : Transitive (clt (A:=A)).
Proof. intros x y z. apply cmp_lt_trans. Qed.

#[export] Instance cle_transitive : Transitive (cle (A:=A)).
Proof.
  intros x y z [Hxy| ->]%cle_lt_or_eq [Hyz| ->]%cle_lt_or_eq; apply cle_lt_or_eq; auto.
  left. by transitivity y.
Qed.

#[export] Instance cle_antisymm : AntiSymm (=) (cle (A:=A)).
Proof.
  intros x y Hxy Hyx. unfold cle in *. rewrite (cmp_opp x y) in Hyx.
  apply cmp_eq_iff. by destruct (cmp x y).
Qed.

Lemma clt_asymm (x y : A) : clt x y → ¬ clt y x.
Proof. intros Hxy Hyx. apply (clt_irrefl x). by transitivity y. Qed.

Lemma clt_trichotomy (x y : A) : clt x y ∨ x = y ∨ clt y x.
Proof.
  destruct (cmp x y) eqn:E; [right; left; by apply cmp_eq_iff|by left|].
  right; right. unfold clt. by rewrite (cmp_opp x y), E.
Qed.
End order_laws.

#[export] Instance N_cmp : OrdCmp N := N.compare.
#[export] Instance N_cmp_laws : OrdLaws N.
Proof.
  split.
  - apply N.compare_eq_iff.
  - intros. apply N.compare_antisym.
  - unfold cmp, N_cmp. intros x y z. rewrite !N.compare_lt_iff. lia.
Qed.

(** Two fields in declaration order. *)
#[export] Instance prod_cmp {A B} `{OrdCmp A, OrdCmp B} : OrdCmp (A * B) :=
  λ x y, match cmp x.1 y.1 with Eq => cmp x.2 y.2 | c => c end.

#[export] Instance prod_cmp_laws {A B} `{OrdLaws A, OrdLaws B} : OrdLaws (A * B).
Proof.
  split; unfold cmp, prod_cmp.
  - intros [a b] [a' b']; simpl. destruct (cmp a a') eqn:E; rewrite ?cmp_eq_iff in *;
      [|split; [done|intros [= -> ->]; by rewrite cmp_refl in E]..].
    subst. naive_solver.
  - intros [a b] [a' b']; simpl. rewrite (cmp_opp a a'). destruct (cmp a a'); simpl; auto.
    apply cmp_opp.
  - intros [a b] [a' b'] [a'' b'']; simpl.
    destruct (cmp a a') eqn:E1, (cmp a' a'') eqn:E2; try done; rewrite ?cmp_eq_iff in *; subst.
    + rewrite cmp_refl. apply cmp_lt_trans.
    + by rewrite E2.
    + by rewrite E1.
    + by rewrite (cmp_lt_trans a a' a'').
Qed.

(** Slices and paths compare element by element, the shorter first. *)
Fixpoint list_cmp_go {A} `{OrdCmp A} (l k : list A) : comparison :=
  match l, k with
  | [], [] => Eq
  | [], _ => Lt
  | _, [] => Gt
  | x :: l, y :: k => match cmp x y with Eq => list_cmp_go l k | c => c end
  end.
#[export] Instance list_cmp {A} `{OrdCmp A} : OrdCmp (list A) := list_cmp_go.

#[export] Instance list_cmp_laws {A} `{OrdLaws A} : OrdLaws (list A).
Proof.
  split; unfold cmp, list_cmp.
  - induction x as [|a x IH]; intros [|b y]; simpl; try done.
    destruct (cmp a b) eqn:E; rewrite ?cmp_eq_iff in *;
      [|split; [done|intros [= -> ->]; by rewrite cmp_refl in E]..].
    subst. rewrite IH. naive_solver.
  - induction x as [|a x IH]; intros [|b y]; simpl; try done.
    rewrite (cmp_opp a b). destruct (cmp a b); simpl; auto.
  - induction x as [|a x IH]; intros [|b y] [|c z]; simpl; try done.
    destruct (cmp a b) eqn:E1, (cmp b c) eqn:E2; try done; rewrite ?cmp_eq_iff in *; subst.
    + rewrite cmp_refl. apply IH.
    + by rewrite E2.
    + by rewrite E1.
    + by rewrite (cmp_lt_trans a b c).
Qed.

(** What iterating a [BTreeSet] yields: its elements in ascending order. *)
Definition btree_iter {A} `{Countable A, OrdCmp A} (s : gset A) : list A :=
  merge_sort cle (elements s).

Section btree.
Context {A : Type} `{Countable A, OrdLaws A}.

Lemma elem_of_btree_iter (s : gset A) x : x ∈ btree_iter s ↔ x ∈ s.
Proof. unfold btree_iter. by rewrite merge_sort_Permutation, elem_of_elements. Qed.

Lemma NoDup_btree_iter (s : gset A) : NoDup (btree_iter s).
Proof. unfold btree_iter. rewrite merge_sort_Permutation. apply NoDup_elements. Qed.

Lemma length_btree_iter (s : gset A) : length (btree_iter s) = size s.
Proof. unfold btree_iter. by rewrite merge_sort_Permutation. Qed.

Lemma btree_iter_sorted (s : gset A) : StronglySorted cle (btree_iter s).
Proof. unfold btree_iter. apply StronglySorted_merge_sort; apply _. Qed.
End btree.

(** ** Lists *)

Lemma filter_ext_elem {A} (P Q : A → Prop) `{!∀ x, Decision (P x), !∀ x, Decision (Q x)} (l : list A) :
  (∀ x, x ∈ l → P x ↔ Q x) → filter P l = filter Q l.
Proof.
  induction l as [|x l IH]; intros HPQ; [done|]. rewrite !filter_cons, IH by set_solver.
  assert (P x ↔ Q x) by set_solver. repeat case_decide; tauto.
Qed.

Lemma StronglySorted_filter {A} (R : relation A) (P : A → Prop) `{!∀ x, Decision (P x)} (l : list A) :
  StronglySorted R l → StronglySorted R (filter P l).
Proof.
  induction 1 as [|x l Hl IH Hx]; [constructor|]. rewrite filter_cons. case_decide; [|done].
  constructor; [done|]. rewrite Forall_forall in *. intros y [_ Hy]%list_elem_of_filter. auto.
Qed.

(** When one element passes a filter, every passing position is the same one. *)
Lemma filter_singleton_unique {A} (P : A → Prop) `{!∀ x, Decision (P x)} (l : list A) y i j n m :
  filter P l = [y] → l !! i = Some n → l !! j = Some m → P n → P m → i = j.
Proof.
  intros Hf Hi Hj Hn Hm. destruct (decide (i = j)) as [|Hne]; [done|exfalso].
  assert (∀ i j n m, i < j → l !! i = Some n → l !! j = Some m → P n → P m → False) as Hlt.
  { clear i j n m Hi Hj Hn Hm Hne. intros i j n m Hij Hi Hj Hn Hm.
    rewrite <- (take_drop j l), filter_app in Hf.
    rewrite (drop_S l m j Hj), filter_cons_True in Hf by done.
    assert (n ∈ filter P (take j l)) as Hin.
    { apply list_elem_of_filter. split; [done|]. apply list_elem_of_lookup. exists i.
      by rewrite lookup_take_lt. }
    apply (f_equal length) in Hf. rewrite length_app in Hf. simpl in Hf.
    destruct (filter P (take j l)); [set_solver|simpl in Hf; lia]. }
  destruct (decide (i < j)); [|assert (j < i) by lia]; eauto.
Qed.

Lemma filter_none {A} (P : A → Prop) `{!∀ x, Decision (P x)} (l : list A) :
  (∀ x, x ∈ l → ¬ P x) → filter P l = [].
Proof.
  induction l as [|x l IH]; intros Hn; [done|]. rewrite filter_cons, decide_False by set_solver.
  apply IH. set_solver.
Qed.

Lemma find_app {A} (p : A → bool) l k :
  List.find p (l ++ k) = match List.find p l with Some x => Some x | None => List.find p k end.
Proof. induction l as [|x l IH]; cbn; [done|]. by destruct (p x). Qed.

Lemma filter_swap {A} (P Q : A → Prop) `{!∀ x, Decision (P x), !∀ x, Decision (Q x)} (l : list A) :
  filter P (filter Q l) = filter Q (filter P l).
Proof. rewrite !list_filter_filter. apply filter_ext_elem. intros x _. tauto. Qed.

Lemma Forall2_impl_elem {A B} (P Q : A → B → Prop) l k :
  Forall2 P l k → (∀ x y, x ∈ l → P x y → Q x y) → Forall2 Q l k.
Proof.
  induction 1 as [|x y l k Hxy _ IH]; intros Himp; constructor.
  - apply Himp; [apply list_elem_of_here|done].
  - apply IH. intros a b Ha. apply Himp. by apply list_elem_of_further.
Qed.

Lemma Forall2_filter {A B} (R : A → B → Prop) (P : A → Prop) (Q : B → Prop)
    `{!∀ x, Decision (P x), !∀ x, Decision (Q x)} l k :
  Forall2 R l k → (∀ x y, x ∈ l → R x y → P x ↔ Q y) → Forall2 R (filter P l) (filter Q k).
Proof.
  induction 1 as [|x y l k Hxy _ IH]; intros HPQ; [constructor|]. rewrite !filter_cons.
  specialize (IH ltac:(intros a b Ha; apply HPQ; by apply list_elem_of_further)).
  pose proof (HPQ x y (list_elem_of_here _ _) Hxy) as Hiff.
  destruct (decide (P x)), (decide (Q y)); try tauto. by constructor.
Qed.

Lemma filter_all {A} (P : A → Prop) `{!∀ x, Decision (P x)} (l : list A) :
  (∀ x, x ∈ l → P x) → filter P l = l.
Proof.
  induction l as [|x l IH]; intros Ha; [done|]. rewrite filter_cons, decide_True by set_solver.
  f_equal. apply IH. set_solver.
Qed.

Lemma Forall_filter {A} (P Q : A → Prop) `{!∀ x, Decision (P x)} (l : list A) :
  Forall Q l → Forall Q (filter P l).
Proof. rewrite !Forall_forall. intros Hl x [_ Hx]%list_elem_of_filter. auto. Qed.

Lemma NoDup_fmap_filter {A K} (key : A → K) (P : A → Prop) `{!∀ x, Decision (P x)} (l : list A) :
  NoDup (key <$> l) → NoDup (key <$> filter P l).
Proof.
  induction l as [|x l IH]; [done|]. rewrite fmap_cons, NoDup_cons, filter_cons. intros [Hn Hnd].
  case_decide; [|auto]. rewrite fmap_cons, NoDup_cons. split; [|auto].
  intros (y & He & [_ Hy]%list_elem_of_filter)%list_elem_of_fmap. apply Hn. rewrite He.
  by apply list_elem_of_fmap_2.
Qed.

(** A list with distinct keys has one element of a key. *)
Lemma filter_unique_key {A K} (key : A → K) (P : A → Prop) `{!∀ x, Decision (P x)} (l : list A) x :
  NoDup (key <$> l) → x ∈ l → P x → (∀ y, P y → key y = key x) → filter P l = [x].
Proof.
  induction l as [|y l IH]; intros Hnd Hin Hx Hk; [set_solver|].
  rewrite fmap_cons, NoDup_cons in Hnd. destruct Hnd as [Hn Hnd]. rewrite filter_cons.
  apply elem_of_cons in Hin as [->|Hin].
  - rewrite decide_True by done. f_equal. apply filter_none. intros z Hz Hp. apply Hn.
    rewrite <- (Hk z Hp). by apply list_elem_of_fmap_2.
  - rewrite decide_False; [by apply IH|]. intros Hy. apply Hn. rewrite (Hk y Hy).
    by apply list_elem_of_fmap_2.
Qed.

Lemma NoDup_key_inj {A K} (key : A → K) (l : list A) x y :
  NoDup (key <$> l) → x ∈ l → y ∈ l → key x = key y → x = y.
Proof.
  induction l as [|z l IH]; [set_solver|]. rewrite fmap_cons, NoDup_cons. intros [Hn Hnd] Hx Hy He.
  apply elem_of_cons in Hx as [->|Hx]; apply elem_of_cons in Hy as [->|Hy]; auto.
  - exfalso. apply Hn. rewrite He. by apply list_elem_of_fmap_2.
  - exfalso. apply Hn. rewrite <- He. by apply list_elem_of_fmap_2.
Qed.

(** The first hit of a search is the head of the filter. *)
Lemma head_filter_find {A} (p : A → bool) (l : list A) :
  head (filter (λ x, p x = true) l) = List.find p l.
Proof.
  induction l as [|x l IH]; [done|]. rewrite filter_cons. simpl.
  destruct (p x) eqn:E; [by rewrite decide_True|by rewrite decide_False by congruence].
Qed.

Lemma head_fmap {A B} (f : A → B) (l : list A) : head (f <$> l) = f <$> head l.
Proof. by destruct l. Qed.

Lemma filter_fmap {A B} (f : A → B) (P : B → Prop) `{!∀ x, Decision (P x)} (l : list A) :
  filter P (f <$> l) = f <$> filter (λ x, P (f x)) l.
Proof.
  induction l as [|x l IH]; [done|]. rewrite fmap_cons, !filter_cons, IH. by case_decide.
Qed.

(** [forallb] and [existsb] as statements on the elements. *)
Lemma forallb_Forall {A} (p : A → bool) l : forallb p l = true ↔ Forall (λ x, p x = true) l.
Proof.
  induction l as [|x l IH]; simpl; [split; auto|].
  rewrite andb_true_iff, Forall_cons, IH. done.
Qed.

Lemma existsb_false {A} (p : A → bool) l : existsb p l = false ↔ Forall (λ x, p x = false) l.
Proof.
  induction l as [|x l IH]; simpl; [split; auto|].
  rewrite orb_false_iff, Forall_cons, IH. done.
Qed.

Lemma existsb_true {A} (p : A → bool) l : existsb p l = true ↔ ∃ x, x ∈ l ∧ p x = true.
Proof. rewrite existsb_exists. setoid_rewrite list_elem_of_In. done. Qed.

(** ** Shared automation *)
Create HintDb muster discriminated.

#[export] Hint Resolve NoDup_btree_iter btree_iter_sorted : muster.

(** Splits every conditional and match of the goal and of the hypotheses and
    closes what is contradictory. *)
Ltac split_cases :=
  repeat (case_match || case_decide || case_bool_decide); simplify_eq/=; try done.
