(* ===== verification/RustText.v ===== *)
(** * Rust text

    A Rust [String] is a sequence of Unicode scalar values; the model keeps it
    as the list of its code points, so [chars().count()] is the list's length.
    This file holds the operations of [str] and [char] the source calls
    ([trim], [strip_prefix], [split_once], [eq_ignore_ascii_case], the ASCII
    classes, decimal printing and parsing) with the laws the components use:
    trimming is idempotent and a printed number parses back to itself. *)
From S2P Require Import Prelude.

Notation rchar := N (only parsing).
Notation rstr := (list N) (only parsing).

(** A literal of the source. *)
Fixpoint lit (s : string) : rstr :=
  match s with
  | EmptyString => []
  | String a s => Ascii.N_of_ascii a :: lit s
  end.

(** ** Character classes *)

(** [char::is_ascii_digit], [is_ascii_lowercase], [is_ascii_uppercase] and
    [is_ascii_alphanumeric]. *)
Definition is_ascii_digit (c : rchar) : bool := (48 <=? c)%N && (c <=? 57)%N.
Definition is_ascii_lowercase (c : rchar) : bool := (97 <=? c)%N && (c <=? 122)%N.
Definition is_ascii_uppercase (c : rchar) : bool := (65 <=? c)%N && (c <=? 90)%N.
Definition is_ascii_alphanumeric (c : rchar) : bool :=
  is_ascii_digit c || is_ascii_lowercase c || is_ascii_uppercase c.

(** [char::to_ascii_lowercase]. *)
Definition to_ascii_lowercase (c : rchar) : rchar :=
  if is_ascii_uppercase c then (c + 32)%N else c.

(** [char::is_control]: the general category Cc. *)
Definition is_control (c : rchar) : bool :=
  (c <=? 31)%N || ((127 <=? c)%N && (c <=? 159)%N).

(** [char::is_whitespace]: the property White_Space. *)
Definition is_whitespace (c : rchar) : bool :=
  ((9 <=? c)%N && (c <=? 13)%N) || (c =? 32)%N || (c =? 133)%N || (c =? 160)%N ||
  (c =? 5760)%N || ((8192 <=? c)%N && (c <=? 8202)%N) || (c =? 8232)%N || (c =? 8233)%N ||
  (c =? 8239)%N || (c =? 8287)%N || (c =? 12288)%N.

(** ** String operations *)

(** Drops the longest prefix of characters satisfying [p]. *)
Fixpoint trim_start_matches (p : rchar → bool) (s : rstr) : rstr :=
  match s with
  | c :: s' => if p c then trim_start_matches p s' else s
  | [] => []
  end.

Definition trim_end_matches (p : rchar → bool) (s : rstr) : rstr :=
  reverse (trim_start_matches p (reverse s)).

(** [str::trim_matches] with a character class. *)
Definition trim_matches (p : rchar → bool) (s : rstr) : rstr :=
  trim_end_matches p (trim_start_matches p s).

(** [str::trim]. *)
Definition trim (s : rstr) : rstr := trim_matches is_whitespace s.

(** [str::eq_ignore_ascii_case]. *)
Definition eq_ignore_ascii_case (a b : rstr) : bool :=
  bool_decide (map to_ascii_lowercase a = map to_ascii_lowercase b).

(** [str::strip_prefix]. *)
Fixpoint strip_prefix (p s : rstr) : option rstr :=
  match p, s with
  | [], _ => Some s
  | a :: p, b :: s => if (a =? b)%N then strip_prefix p s else None
  | _ :: _, [] => None
  end.

Definition starts_with (p s : rstr) : bool :=
  match strip_prefix p s with Some _ => true | None => false end.

(** [str::split_once] at a character. *)
Fixpoint split_once (d : rchar) (s : rstr) : option (rstr * rstr) :=
  match s with
  | [] => None
  | c :: s => if (c =? d)%N then Some ([], s) else
      match split_once d s with
      | Some (a, b) => Some (c :: a, b)
      | None => None
      end
  end.

(** [str::contains] of a character. *)
Definition contains_char (d : rchar) (s : rstr) : bool := existsb (N.eqb d) s.

(** ** Decimal numbers *)

Definition digit (n : N) : rchar := (48 + n)%N.

(** The decimal digits of [n], most significant first; [fuel] bounds how many
    there are. *)
Fixpoint dec_digits (fuel : nat) (n : N) (acc : rstr) : rstr :=
  match fuel with
  | O => acc
  | S fuel =>
    let acc := digit (n mod 10) :: acc in
    if (n / 10 =? 0)%N then acc else dec_digits fuel (n / 10) acc
  end.

(** [Display] of an unsigned integer. A number has no more decimal than binary
    digits, so [N.size] (plus one for zero) is enough fuel. *)
Definition print_dec (n : N) : rstr := dec_digits (S (N.to_nat (N.size n))) n [].

(** One digit of [from_str]: the value so far times ten plus the digit, none
    past [bound]. *)
Definition parse_digit (bound : N) (acc : option N) (c : rchar) : option N :=
  match acc with
  | Some n =>
    if is_ascii_digit c then
      let n' := (n * 10 + (c - 48))%N in
      if (n' <=? bound)%N then Some n' else None
    else None
  | None => None
  end.

(** Reads digits onto [acc]. *)
Definition parse_digits (bound : N) (acc : option N) (s : rstr) : option N :=
  foldl (parse_digit bound) acc s.

(** [FromStr] of an unsigned integer type with maximum [bound]: an optional
    [+], then one or more digits, without overflow. *)
Definition parse_uint (bound : N) (s : rstr) : option N :=
  match s with
  | [] => None
  | [c] => if (c =? 43)%N then None else parse_digits bound (Some 0%N) [c]
  | c :: s' => if (c =? 43)%N then parse_digits bound (Some 0%N) s'
               else parse_digits bound (Some 0%N) s
  end.

(** * Laws *)

Lemma lit_app_length s : length (lit s) = String.length s.
Proof. induction s; simpl; congruence. Qed.

Lemma trim_start_matches_idemp p s :
  trim_start_matches p (trim_start_matches p s) = trim_start_matches p s.
Proof. induction s as [|c s IH]; simpl; [done|]. destruct (p c) eqn:E; simpl; by rewrite ?E. Qed.

Lemma trim_start_matches_head p s :
  match trim_start_matches p s with c :: _ => p c = false | [] => True end.
Proof. induction s as [|c s IH]; simpl; [done|]. destruct (p c) eqn:E; simpl; auto. Qed.

Lemma trim_start_matches_suffix p s : ∃ k, s = k ++ trim_start_matches p s ∧ Forall (λ c, p c = true) k.
Proof.
  induction s as [|c s (k & Hk & Hp)]; simpl; [by exists []|].
  destruct (p c) eqn:E; [exists (c :: k)|exists []]; simpl; [|done].
  split; [by f_equal|by constructor].
Qed.

Lemma trim_start_matches_id p s :
  match s with c :: _ => p c = false | [] => True end → trim_start_matches p s = s.
Proof. destruct s as [|c s]; simpl; [done|]. by intros ->. Qed.

Lemma trim_start_matches_snoc p s c :
  p c = false → trim_start_matches p (s ++ [c]) = trim_start_matches p s ++ [c].
Proof. intros E. induction s as [|d s IH]; simpl; [by rewrite E|]. by destruct (p d). Qed.

Lemma trim_start_matches_app p s t :
  trim_start_matches p s ≠ [] → trim_start_matches p (s ++ t) = trim_start_matches p s ++ t.
Proof. induction s as [|c s IH]; simpl; [done|]. by destruct (p c). Qed.

(** What [trim_matches] leaves neither starts nor ends in a trimmed
    character. *)
Definition trimmed (p : rchar → bool) (s : rstr) : Prop :=
  match s with c :: _ => p c = false | [] => True end ∧
  match reverse s with c :: _ => p c = false | [] => True end.

Lemma trim_matches_id p s : trimmed p s → trim_matches p s = s.
Proof.
  intros [H1 H2]. unfold trim_matches, trim_end_matches.
  rewrite (trim_start_matches_id _ s), (trim_start_matches_id _ (reverse s)) by done.
  apply reverse_involutive.
Qed.

Lemma trim_matches_trimmed p s : trimmed p (trim_matches p s).
Proof.
  unfold trim_matches, trim_end_matches. pose proof (trim_start_matches_head p s) as Hd.
  revert Hd. generalize (trim_start_matches p s) as t. intros t Ht. split.
  - destruct t as [|c t]; [done|]. rewrite reverse_cons, trim_start_matches_snoc by done.
    by rewrite reverse_app.
  - rewrite reverse_involutive. apply trim_start_matches_head.
Qed.

Lemma trim_matches_idemp p s : trim_matches p (trim_matches p s) = trim_matches p s.
Proof. apply trim_matches_id, trim_matches_trimmed. Qed.

Lemma trim_idemp s : trim (trim s) = trim s.
Proof. apply trim_matches_idemp. Qed.

Lemma trim_matches_infix p s : ∃ a b, s = a ++ trim_matches p s ++ b.
Proof.
  unfold trim_matches, trim_end_matches.
  destruct (trim_start_matches_suffix p s) as (a & Ha & _). exists a.
  destruct (trim_start_matches_suffix p (reverse (trim_start_matches p s))) as (b & Hb & _).
  exists (reverse b). rewrite Ha at 1. f_equal.
  rewrite <- reverse_app, <- Hb. by rewrite reverse_involutive.
Qed.

Lemma elem_of_trim_matches p s c : c ∈ trim_matches p s → c ∈ s.
Proof.
  destruct (trim_matches_infix p s) as (a & b & E). intros Hc. rewrite E. set_solver.
Qed.

Lemma length_trim_matches p s : length (trim_matches p s) ≤ length s.
Proof.
  destruct (trim_matches_infix p s) as (a & b & E). rewrite E at 2. rewrite !length_app. lia.
Qed.

Lemma trim_is_trimmed s : trimmed is_whitespace (trim s).
Proof. apply trim_matches_trimmed. Qed.

Lemma trim_id s : trimmed is_whitespace s → trim s = s.
Proof. apply trim_matches_id. Qed.

Lemma trim_nil_trim s : trim (trim s) = [] ↔ trim s = [].
Proof. by rewrite trim_idemp. Qed.

Lemma eq_ignore_ascii_case_refl s : eq_ignore_ascii_case s s = true.
Proof. by apply bool_decide_eq_true. Qed.

Lemma eq_ignore_ascii_case_sym a b : eq_ignore_ascii_case a b = eq_ignore_ascii_case b a.
Proof. apply bool_decide_ext. naive_solver. Qed.

Lemma eq_ignore_ascii_case_length a b : eq_ignore_ascii_case a b = true → length a = length b.
Proof.
  intros E%bool_decide_eq_true. apply (f_equal length) in E. by rewrite !length_map in E.
Qed.

(** A character that is no letter is in both texts or in neither. *)
Lemma eq_ignore_ascii_case_not_elem a b c :
  eq_ignore_ascii_case a b = true → (∀ d, to_ascii_lowercase d = c → d = c) → to_ascii_lowercase c = c →
  c ∉ b → c ∉ a.
Proof.
  intros E%bool_decide_eq_true Hi Hc Hb Ha. apply Hb.
  assert (c ∈ map to_ascii_lowercase b) as Hin.
  { rewrite <- E. rewrite <- Hc. by apply list_elem_of_fmap_2. }
  apply list_elem_of_fmap in Hin as (d & Hd & Hin). by rewrite (Hi d) in Hin.
Qed.

Lemma strip_prefix_app p s : strip_prefix p (p ++ s) = Some s.
Proof. induction p as [|a p IH]; simpl; [done|]. by rewrite N.eqb_refl. Qed.

Lemma strip_prefix_Some p s r : strip_prefix p s = Some r ↔ s = p ++ r.
Proof.
  split; [|intros ->; apply strip_prefix_app].
  revert s. induction p as [|a p IH]; intros [|b s]; simpl; try naive_solver.
  destruct (N.eqb_spec a b); [|done]. subst. intros. f_equal. by apply IH.
Qed.

Lemma split_once_app d a b : d ∉ a → split_once d (a ++ d :: b) = Some (a, b).
Proof.
  induction a as [|c a IH]; simpl; intros Hd; [by rewrite N.eqb_refl|].
  destruct (N.eqb_spec c d); [set_solver|]. rewrite IH by set_solver. done.
Qed.

Lemma split_once_Some d s a b : split_once d s = Some (a, b) → s = a ++ d :: b ∧ d ∉ a.
Proof.
  revert a b. induction s as [|c s IH]; simpl; intros a b; [done|].
  destruct (N.eqb_spec c d).
  - intros [= <- <-]. subst. split; [done|set_solver].
  - destruct (split_once d s) as [[a' b']|]; intros [= <- <-].
    destruct (IH a' b') as [-> ?]; [done|]. split; [done|set_solver].
Qed.

(** ** Printing and parsing numbers *)

Lemma is_ascii_digit_digit n : (n < 10)%N → is_ascii_digit (digit n) = true.
Proof. intros. unfold is_ascii_digit, digit. apply andb_true_iff. rewrite !N.leb_le. lia. Qed.

Lemma dec_digits_acc fuel n acc : dec_digits fuel n acc = dec_digits fuel n [] ++ acc.
Proof.
  revert n acc. induction fuel as [|fuel IH]; intros n acc; simpl; [done|].
  case_match; [done|]. rewrite IH, (IH _ [_]), <- app_assoc. done.
Qed.

Lemma dec_digits_all_digits fuel n :
  Forall (λ c, is_ascii_digit c = true) (dec_digits fuel n []).
Proof.
  revert n. induction fuel as [|fuel IH]; intros n; simpl; [done|].
  assert (is_ascii_digit (digit (n mod 10)) = true).
  { apply is_ascii_digit_digit. apply N.mod_lt. lia. }
  case_match; [by repeat constructor|].
  rewrite dec_digits_acc, Forall_app. split; [apply IH|by repeat constructor].
Qed.

Lemma dec_digits_nonempty fuel n : dec_digits (S fuel) n [] ≠ [].
Proof.
  simpl. case_match; [done|]. rewrite dec_digits_acc. intros [_ ?]%app_nil. done.
Qed.

Lemma size_div10 n : (n / 10 ≠ 0)%N → N.to_nat (N.size (n / 10)) < N.to_nat (N.size n).
Proof.
  intros Hn. assert (n ≠ 0)%N by (intros ->; done).
  rewrite !N.size_log2 by done.
  assert (N.log2 (n / 10) < N.log2 n)%N; [|lia].
  apply N.log2_lt_pow2; [by apply N.neq_0_lt_0|].
  assert (n < 2 ^ N.succ (N.log2 n))%N as Hlt by (apply N.log2_spec; by apply N.neq_0_lt_0).
  apply N.Div0.div_lt_upper_bound. rewrite N.pow_succ_r' in Hlt. lia.
Qed.

Lemma parse_digit_digit bound n d :
  (d < 10)%N → (n * 10 + d <= bound)%N →
  parse_digit bound (Some n) (digit d) = Some (n * 10 + d)%N.
Proof.
  intros Hd Hb. unfold parse_digit. rewrite is_ascii_digit_digit by done.
  replace (digit d - 48)%N with d by (unfold digit; lia).
  destruct (N.leb_spec (n * 10 + d) bound); [done|lia].
Qed.

Lemma parse_dec_digits bound fuel n :
  N.to_nat (N.size n) < fuel → (n <= bound)%N →
  parse_digits bound (Some 0%N) (dec_digits fuel n []) = Some n.
Proof.
  unfold parse_digits. revert n. induction fuel as [|fuel IH]; intros n Hf Hb; [lia|].
  assert (n mod 10 < 10)%N by (apply N.mod_lt; lia).
  pose proof (N.div_mod n 10 ltac:(lia)) as Hn.
  cbn [dec_digits]. destruct (N.eqb_spec (n / 10) 0) as [E|E].
  - rewrite E in Hn. cbn [foldl]. rewrite parse_digit_digit by lia. f_equal. lia.
  - rewrite dec_digits_acc, foldl_app, IH;
      [|pose proof (size_div10 n E); lia|].
    + cbn [foldl]. rewrite parse_digit_digit by lia. f_equal. lia.
    + transitivity n; [|done]. apply N.Div0.div_le_upper_bound. lia.
Qed.

Lemma print_dec_digits n : Forall (λ c, is_ascii_digit c = true) (print_dec n).
Proof. apply dec_digits_all_digits. Qed.

Lemma print_dec_nonempty n : print_dec n ≠ [].
Proof. apply dec_digits_nonempty. Qed.

Lemma digit_not_char c d : is_ascii_digit c = true → is_ascii_digit d = false → c ≠ d.
Proof. congruence. Qed.

Lemma parse_uint_digits bound s :
  s ≠ [] → Forall (λ c, is_ascii_digit c = true) s →
  parse_uint bound s = parse_digits bound (Some 0%N) s.
Proof.
  intros Hne Hd. destruct s as [|c s]; [done|].
  assert ((c =? 43)%N = false) as Hc.
  { apply N.eqb_neq. inversion_clear Hd. eapply digit_not_char; done. }
  destruct s; simpl; by rewrite Hc.
Qed.

(** A printed number reads back, within the type's width. *)
Lemma parse_print_dec bound n : (n <= bound)%N → parse_uint bound (print_dec n) = Some n.
Proof.
  intros. rewrite parse_uint_digits by auto using print_dec_nonempty, print_dec_digits.
  apply parse_dec_digits; [lia|done].
Qed.

Lemma parse_digits_None bound s : foldl (parse_digit bound) None s = None.
Proof. by induction s. Qed.

(** A parsed number is within the type's width. *)
Lemma parse_digits_bound bound s n m :
  (n <= bound)%N → parse_digits bound (Some n) s = Some m → (m <= bound)%N.
Proof.
  unfold parse_digits. revert n. induction s as [|c s IH]; intros n Hn; cbn [foldl].
  - by intros [= <-].
  - unfold parse_digit at 2. destruct (is_ascii_digit c); [|by rewrite parse_digits_None].
    cbv zeta. destruct (N.leb_spec (n * 10 + (c - 48)) bound);
      [by apply IH|by rewrite parse_digits_None].
Qed.

Lemma parse_uint_bound bound s n : parse_uint bound s = Some n → (n <= bound)%N.
Proof.
  destruct s as [|c [|d s]]; cbn [parse_uint]; [done|..];
    case_match; try done; apply parse_digits_bound; lia.
Qed.

Lemma digits_not_elem c s :
  is_ascii_digit c = false → Forall (λ d, is_ascii_digit d = true) s → c ∉ s.
Proof. intros Hc Hs Hin. rewrite Forall_forall in Hs. specialize (Hs c Hin). congruence. Qed.

Lemma is_ascii_digit_not_whitespace c : is_ascii_digit c = true → is_whitespace c = false.
Proof.
  unfold is_ascii_digit, is_whitespace. rewrite andb_true_iff, !N.leb_le. intros [??].
  repeat match goal with
  | |- context [(?a =? ?b)%N] => destruct (N.eqb_spec a b); [lia|]
  | |- context [(?a <=? ?b)%N] => destruct (N.leb_spec a b); try lia
  end; done.
Qed.

(** Text whose first and last characters are not white space is already
    trimmed. *)
Lemma trimmed_cons_snoc (p : rchar → bool) c s d :
  p c = false → p d = false → trimmed p (c :: s ++ [d]).
Proof. intros. split; [done|]. rewrite app_comm_cons, reverse_app. done. Qed.

Lemma trimmed_digits_tail a s :
  is_whitespace a = false → s ≠ [] → Forall (λ c, is_ascii_digit c = true) s →
  ∀ m, trimmed is_whitespace (a :: m ++ s).
Proof.
  intros Ha Hs Hd m. destruct (exists_last Hs) as (s' & d & ->).
  rewrite app_assoc. apply trimmed_cons_snoc; [done|].
  apply is_ascii_digit_not_whitespace. rewrite Forall_app in Hd. by destruct Hd as [_ Hd]; inversion Hd.
Qed.
