(* ===== verification/RustPath.v ===== *)
(** * Paths and project folders

    [std::path::Path] is read only through its components here: equality,
    ordering, hashing, [starts_with], [strip_prefix] and [components] are all
    defined on them, so a path is the list of its components. The file holds
    [ProjectRoot] (muster-domain/src/value/project_root.rs) and
    [stays_under_root] (muster-domain/src/config/relative_dir.rs), with the
    lexical resolution that says what "under the root" means. *)
From S2P Require Import Prelude RustText.

(** [std::path::Component]; [Prefix] only occurs on Windows. *)
Inductive Component :=
| Prefix (p : rstr)
| RootDir
| CurDir
| ParentDir
| Normal (name : rstr).

#[export] Instance Component_eq_dec : EqDecision Component.
Proof. solve_decision. Defined.

(** The derived order: by variant, then by name. *)
Definition component_rank (c : Component) : N * rstr :=
  match c with
  | Prefix p => (0, p)
  | RootDir => (1, [])
  | CurDir => (2, [])
  | ParentDir => (3, [])
  | Normal s => (4, s)
  end%N.

Definition component_unrank (r : N * rstr) : Component :=
  match r with
  | (0, p) => Prefix p
  | (1, _) => RootDir
  | (2, _) => CurDir
  | (3, _) => ParentDir
  | (_, s) => Normal s
  end%N.

Lemma component_unrank_rank c : component_unrank (component_rank c) = c.
Proof. by destruct c. Qed.

#[export] Instance Component_countable : Countable Component :=
  inj_countable' component_rank component_unrank component_unrank_rank.

#[export] Instance component_rank_inj : Inj (=) (=) component_rank.
Proof. intros x y E. rewrite <- (component_unrank_rank x), E. apply component_unrank_rank. Qed.

#[export] Instance Component_cmp : OrdCmp Component :=
  λ x y, cmp (component_rank x) (component_rank y).

(** Pulling an order back along an injection. *)
Lemma cmp_laws_inj {A B} `{OrdLaws B} (f : A → B) `{!Inj (=) (=) f} :
  @OrdLaws A (λ x y, cmp (f x) (f y)).
Proof.
  split.
  - intros x y. change (cmp (f x) (f y) = Eq ↔ x = y). rewrite cmp_eq_iff.
    split; [apply (inj f)|by intros ->].
  - intros x y. change (cmp (f y) (f x) = CompOpp (cmp (f x) (f y))). apply cmp_opp.
  - intros x y z. apply (cmp_lt_trans (f x) (f y) (f z)).
Qed.

#[export] Instance Component_cmp_laws : OrdLaws Component.
Proof. apply (cmp_laws_inj component_rank). Qed.

Notation path := (list Component) (only parsing).

(** [Path::is_absolute] on Unix. *)
Definition is_absolute (p : path) : bool :=
  match p with RootDir :: _ => true | _ => false end.

(** [Path::starts_with]: [base]'s components are a prefix of [p]'s. *)
Fixpoint path_starts_with (p base : path) : bool :=
  match base, p with
  | [], _ => true
  | b :: base, c :: p => bool_decide (b = c) && path_starts_with p base
  | _ :: _, [] => false
  end.

(** [Path::strip_prefix]. *)
Fixpoint path_strip_prefix (p base : path) : option path :=
  match base, p with
  | [], _ => Some p
  | b :: base, c :: p => if decide (b = c) then path_strip_prefix p base else None
  | _ :: _, [] => None
  end.

(** [Path::join]: an absolute argument replaces the path; a [.] is dropped
    when components are read anywhere but at the front. *)
Definition path_join (p dir : path) : path :=
  if is_absolute dir then dir
  else match p with
       | [] => dir
       | _ => p ++ filter (λ c, c ≠ CurDir) dir
       end.

(** ** ProjectRoot *)
Module ProjectRoot.

(** The validation of the newtype: the folder is absolute. *)
Definition valid (root : path) : bool := is_absolute root.

(** Whether [dir] is this folder or inside it, compared by components. *)
Definition contains (root dir : path) : bool := path_starts_with dir root.

(** [dir] relative to this root when inside it. *)
Definition relative (root dir : path) : option path := path_strip_prefix dir root.

End ProjectRoot.

(** ** Relative directories *)

(** One component of the walk of [stays_under_root]: the new depth, or none
    when the walk answers [false]. *)
Definition depth_step (depth : nat) (c : Component) : option nat :=
  match c with
  | Normal _ => Some (S depth)
  | CurDir => Some depth
  | ParentDir => match depth with S d => Some d | O => None end
  | RootDir | Prefix _ => None
  end.

(** The loop of [stays_under_root] from [depth]. *)
Fixpoint stays_from (depth : nat) (dir : path) : bool :=
  match dir with
  | [] => true
  | c :: dir => match depth_step depth c with
                | Some depth => stays_from depth dir
                | None => false
                end
  end.

(** Whether [dir], a working directory as stored, names a folder under the
    project root. *)
Definition stays_under_root (dir : path) : bool := stays_from 0 dir.

(** ** What a path means, without following links

    Resolving [.] and [..] against the components already walked; the folder
    above the filesystem root is the root itself. *)
Definition resolve_step (acc : path) (c : Component) : path :=
  match c with
  | RootDir => [RootDir]
  | Prefix p => [Prefix p]
  | CurDir => acc
  | ParentDir => match last acc with
                 | Some (Normal _) => take (length acc - 1) acc
                 | _ => acc
                 end
  | Normal s => acc ++ [Normal s]
  end.
Definition lexical (p : path) : path := foldl resolve_step [] p.

(** A root the adapter canonicalized: [/] followed by plain names. *)
Definition canonical (root : path) : Prop :=
  ∃ names : list rstr, root = RootDir :: (Normal <$> names).

(** * Laws *)

Lemma path_starts_with_spec p base : path_starts_with p base = true ↔ ∃ k, p = base ++ k.
Proof.
  revert p. induction base as [|b base IH]; intros [|c p]; simpl.
  - naive_solver.
  - naive_solver.
  - naive_solver.
  - rewrite andb_true_iff, bool_decide_eq_true, IH. naive_solver.
Qed.

Lemma path_starts_with_refl p : path_starts_with p p = true.
Proof. apply path_starts_with_spec. exists []. by rewrite app_nil_r. Qed.

Lemma path_starts_with_trans p q r :
  path_starts_with p q = true → path_starts_with q r = true → path_starts_with p r = true.
Proof.
  rewrite !path_starts_with_spec. intros [k ->] [k' ->]. exists (k' ++ k). by rewrite app_assoc.
Qed.

Lemma path_starts_with_antisym p q :
  path_starts_with p q = true → path_starts_with q p = true → p = q.
Proof.
  rewrite !path_starts_with_spec. intros [k ->] [k' E].
  assert (length k + length k' = 0) as Hl.
  { apply (f_equal length) in E. rewrite !length_app in E. lia. }
  destruct k; [|simpl in *; lia]. by rewrite app_nil_r.
Qed.

Lemma path_strip_prefix_spec p base k : path_strip_prefix p base = Some k ↔ p = base ++ k.
Proof.
  revert p. induction base as [|b base IH]; intros [|c p]; simpl; try naive_solver.
  case_decide; [subst; rewrite IH; naive_solver|naive_solver].
Qed.

Lemma contains_relative root dir :
  ProjectRoot.contains root dir = true ↔ is_Some (ProjectRoot.relative root dir).
Proof.
  unfold ProjectRoot.contains, ProjectRoot.relative, is_Some.
  rewrite path_starts_with_spec. by setoid_rewrite path_strip_prefix_spec.
Qed.

(** ** Confinement *)

Lemma foldl_resolve_canonical names :
  foldl resolve_step [RootDir] (Normal <$> names) = RootDir :: (Normal <$> names).
Proof.
  cut (∀ acc, foldl resolve_step acc (Normal <$> names) = acc ++ (Normal <$> names)); [auto|].
  induction names as [|n names IH]; intros acc; simpl; [by rewrite app_nil_r|].
  by rewrite IH, <- app_assoc.
Qed.

Lemma lexical_canonical root : canonical root → lexical root = root.
Proof. intros [names ->]. apply foldl_resolve_canonical. Qed.

(** Walking a directory that stays at depth zero or more never reaches below
    what was walked before it. *)
Lemma stays_from_resolve base (below : list rstr) dir :
  stays_from (length below) dir = true →
  ∃ below' : list rstr,
    foldl resolve_step (base ++ (Normal <$> below)) dir = base ++ (Normal <$> below').
Proof.
  revert below. induction dir as [|c dir IH]; intros below; simpl; [by exists below|].
  destruct c as [?| | | |s]; simpl; try done.
  - apply IH.
  - destruct (length below) eqn:E; [done|].
    destruct (exists_last (l:=below)) as (b' & s & ->); [by destruct below|].
    rewrite fmap_app, app_assoc. simpl. rewrite last_snoc, length_app. simpl.
    rewrite Nat.add_sub, take_app_length.
    intros Hs. apply IH. rewrite length_app in E. simpl in E.
    by replace (length b') with n by lia.
  - intros Hs. rewrite <- app_assoc. replace ((Normal <$> below) ++ [Normal s])
      with (Normal <$> (below ++ [s])) by (by rewrite fmap_app).
    apply IH. rewrite length_app. simpl. by rewrite Nat.add_1_r.
Qed.

Lemma resolve_step_skip_cur acc dir :
  foldl resolve_step acc (filter (λ c, c ≠ CurDir) dir) = foldl resolve_step acc dir.
Proof.
  revert acc. induction dir as [|c dir IH]; intros acc; [done|].
  rewrite filter_cons. destruct (decide (c = CurDir)) as [->|Hc].
  - rewrite decide_False by auto. apply IH.
  - rewrite decide_True by done. apply IH.
Qed.

(** A directory that stays under the root names a folder inside it, whatever
    [.] and [..] it holds. *)
Lemma stays_under_root_confined root dir :
  canonical root → stays_under_root dir = true →
  ProjectRoot.contains root (lexical (path_join root dir)) = true.
Proof.
  intros Hc Hs. apply path_starts_with_spec.
  assert (is_absolute dir = false) as Hd by (by destruct dir as [|[]]).
  assert (path_join root dir = root ++ filter (λ c, c ≠ CurDir) dir) as ->.
  { unfold path_join. rewrite Hd. destruct Hc as [names ->]. done. }
  unfold lexical. rewrite foldl_app, resolve_step_skip_cur.
  fold (lexical root). rewrite lexical_canonical by done.
  destruct (stays_from_resolve root [] dir) as [below' Hb]; [done|].
  rewrite app_nil_r in Hb. rewrite Hb. by eexists.
Qed.

#[export] Hint Resolve path_starts_with_refl path_starts_with_trans : muster.
