(* ===== verification/Occupancy.v ===== *)
(** * Occupancy: which live shell is in which project

    Models muster-domain/src/occupancy: the stamps that order a shell's
    reports, the shell record with the projects it holds, and the table that
    counts shells per project and says which project was entered or left.
    The abstract view of the table is the map from each shell to the set of
    projects its newest report counts it in; the counts refine it. *)
From S2P Require Import Prelude RustText RustPath.

(** ** Stamps and shells *)

(** A hook load: when it began, then the pid of a process it spawned. *)
Record LoadId := { started : N; load_pid : N }.

(** Where a report stands among its shell's reports. *)
Record ReportStamp := { load : LoadId; seq : N }.

(** One interactive shell. *)
Record ShellId := { pid : N; start : N }.

Definition stamp_key (s : ReportStamp) : (N * N) * N :=
  ((started (load s), load_pid (load s)), seq s).
Definition shell_key (s : ShellId) : N * N := (pid s, start s).

#[export] Instance stamp_key_inj : Inj (=) (=) stamp_key.
Proof. by intros [[] ?] [[] ?] [= -> -> ->]. Qed.
#[export] Instance shell_key_inj : Inj (=) (=) shell_key.
Proof. by intros [] [] [= -> ->]. Qed.

#[export] Instance LoadId_eq_dec : EqDecision LoadId.
Proof. solve_decision. Defined.
#[export] Instance ReportStamp_eq_dec : EqDecision ReportStamp.
Proof. solve_decision. Defined.
#[export] Instance ShellId_eq_dec : EqDecision ShellId.
Proof. solve_decision. Defined.
#[export] Instance ShellId_countable : Countable ShellId :=
  inj_countable' shell_key (λ k, {| pid := k.1; start := k.2 |}) ltac:(by intros []).

(** The derived orders: fields in declaration order. *)
#[export] Instance ReportStamp_cmp : OrdCmp ReportStamp :=
  λ x y, cmp (stamp_key x) (stamp_key y).
#[export] Instance ReportStamp_cmp_laws : OrdLaws ReportStamp.
Proof. apply (cmp_laws_inj stamp_key). Qed.
#[export] Instance ShellId_cmp : OrdCmp ShellId := λ x y, cmp (shell_key x) (shell_key y).
#[export] Instance ShellId_cmp_laws : OrdLaws ShellId.
Proof. apply (cmp_laws_inj shell_key). Qed.

(** Whether a report stamped [self] is newer than one stamped [earlier]. *)
Definition supersedes (self earlier : ReportStamp) : bool := bool_decide (clt earlier self).

(** ** Shell records *)
Record ShellRecord := {
  shell : ShellId;
  stamp : ReportStamp;
  folder : path;
  arrived : N;
  project : option path;
  held : list path;
}.

(** [Vec::dedup]: of each run of equal elements, one stays. *)
Fixpoint dedup {A} `{EqDecision A} (l : list A) : list A :=
  match l with
  | [] => []
  | x :: l' =>
    match l' with
    | y :: _ => if decide (x = y) then dedup l' else x :: dedup l'
    | [] => [x]
    end
  end.

(** Whether this report's project was registered while the shell was already
    inside it. *)
Definition registered_since (self previous : ShellRecord) (around : bool) : bool :=
  match project self with
  | None => false
  | Some proj =>
    (around || ProjectRoot.contains proj (folder previous)) &&
    match project previous with
    | None => true
    | Some before => bool_decide (before ≠ proj) && ProjectRoot.contains before proj
    end
  end.

(** What [retain] keeps of the held projects: those the report's project is
    strictly nested in. *)
Definition still_holds (self : ShellRecord) (root : path) : bool :=
  match project self with
  | Some proj => bool_decide (proj ≠ root) && ProjectRoot.contains root proj
  | None => false
  end.

(** This report as it follows the shell's last stored one. *)
Definition following (self : ShellRecord) (previous : option ShellRecord) (around : bool) :
    ShellRecord :=
  match previous with
  | None => self
  | Some previous =>
    let held1 := held previous ++
      (if registered_since self previous around then option_list (project previous) else []) in
    let held2 := filter (λ root, Is_true (still_holds self root)) held1 in
    {| shell := shell self; stamp := stamp self; folder := folder self;
       arrived := arrived self; project := project self;
       held := dedup (merge_sort cle held2) |}
  end.

(** This record once [root], a project registered around the shell where it
    is, names it. *)
Definition registered_around (self : ShellRecord) (root : path) : ShellRecord :=
  following
    {| shell := shell self; stamp := stamp self; folder := folder self;
       arrived := arrived self; project := Some root; held := held self |}
    (Some self) true.

(** Whether this report may enter its project and start it. *)
Definition may_enter (self : ShellRecord) (previous : option ShellRecord) (around : bool) : bool :=
  match project self with Some _ => true | None => false end &&
  negb around &&
  match previous with
  | None => true
  | Some previous =>
    bool_decide (project previous ≠ project self) &&
    negb (registered_since self previous around)
  end.

(** ** The table *)

(** What the table knows of one shell: its newest report and the projects
    that report counts it in. *)
Record Seen := { seen_stamp : ReportStamp; projects : gset path }.

Definition seen_of (record : ShellRecord) : Seen :=
  {| seen_stamp := stamp record;
     projects := list_to_set (option_list (project record) ++ held record) |}.

Record Occupancy := { shells : gmap ShellId Seen; counts : gmap path nat }.

Inductive OccupancyChange :=
| Entered (root : path)
| Left (root : path).

#[export] Instance OccupancyChange_eq_dec : EqDecision OccupancyChange.
Proof. solve_decision. Defined.

Definition new : Occupancy := {| shells := ∅; counts := ∅ |}.

(** The first loop of [recount], for one project no longer counted in. *)
Definition leave_step (st : gmap path nat * list OccupancyChange) (root : path) :
    gmap path nat * list OccupancyChange :=
  let '(counts, changes) := st in
  match counts !! root with
  | None => (counts, changes)
  | Some count =>
    let count := count - 1 in
    if count =? 0 then (delete root counts, changes ++ [Left root])
    else (<[root := count]> counts, changes)
  end.

(** The second loop of [recount], for one project newly counted in. *)
Definition enter_step (st : gmap path nat * list OccupancyChange) (root : path) :
    gmap path nat * list OccupancyChange :=
  let '(counts, changes) := st in
  let count := default 0 (counts !! root) + 1 in
  (<[root := count]> counts, if count =? 1 then changes ++ [Entered root] else changes).

(** Moves one shell from counting in [before] to counting in [after]. *)
Definition recount (counts : gmap path nat) (before after : gset path) :
    gmap path nat * list OccupancyChange :=
  foldl enter_step (foldl leave_step (counts, []) (btree_iter (before ∖ after)))
        (btree_iter (after ∖ before)).

(** The projects the table counts [sh] in. *)
Definition projects_of (shells : gmap ShellId Seen) (sh : ShellId) : gset path :=
  match shells !! sh with Some seen => projects seen | None => ∅ end.

(** Keeps [record] as what the table knows of its shell. *)
Definition put (t : Occupancy) (record : ShellRecord) : Occupancy * list OccupancyChange :=
  let seen := seen_of record in
  let before := projects_of (shells t) (shell record) in
  let '(counts, changes) := recount (counts t) before (projects seen) in
  ({| shells := <[shell record := seen]> (shells t); counts := counts |}, changes).

(** Whether [record] is newer than the last report the table took from its
    shell, or the shell is unknown. *)
Definition is_newer (t : Occupancy) (record : ShellRecord) : bool :=
  match shells t !! shell record with
  | None => true
  | Some seen => supersedes (stamp record) (seen_stamp seen)
  end.

(** Applies a report; one not newer than the shell's last is ignored. *)
Definition report (t : Occupancy) (record : ShellRecord) : Occupancy * list OccupancyChange :=
  if negb (is_newer t record) then (t, []) else put t record.

(** Takes a record as known state, as a service starting does. *)
Definition restore (t : Occupancy) (record : ShellRecord) : Occupancy :=
  if is_newer t record then (put t record).1 else t.

(** Forgets a shell. *)
Definition remove (t : Occupancy) (sh : ShellId) : Occupancy * list OccupancyChange :=
  let '(counts, changes) := recount (counts t) (projects_of (shells t) sh) ∅ in
  ({| shells := delete sh (shells t); counts := counts |}, changes).

(** How many shells are in a project. *)
Definition occupants (t : Occupancy) (p : path) : nat := default 0 (counts t !! p).

(** Every shell that counts in a project, in order. *)
Definition shells_in (t : Occupancy) (p : path) : list ShellId :=
  merge_sort cle ((map_to_list (filter (λ kv, p ∈ projects kv.2) (shells t))).*1).

(** Every shell the table knows, in order. *)
Definition known_shells (t : Occupancy) : list ShellId :=
  merge_sort cle ((map_to_list (shells t)).*1).

Definition knows (t : Occupancy) (sh : ShellId) : bool :=
  bool_decide (is_Some (shells t !! sh)).
Definition len (t : Occupancy) : nat := size (shells t).
Definition is_empty (t : Occupancy) : bool := len t =? 0.

(** * The counts refine the shells *)

(** The shells that count in [p]. *)
Definition members (m : gmap ShellId Seen) (p : path) : gset ShellId :=
  dom (filter (λ kv, p ∈ projects kv.2) m).

(** The table's invariant: a project's count is the number of shells that
    count in it, and no count is zero. *)
Definition occupancy_wf (t : Occupancy) : Prop :=
  ∀ p, counts t !! p = match size (members (shells t) p) with O => None | S n => Some (S n) end.

Section members.
Implicit Types (m : gmap ShellId Seen) (p : path) (sh : ShellId).

Lemma elem_of_members m p sh : sh ∈ members m p ↔ p ∈ projects_of m sh.
Proof.
  unfold members, projects_of. rewrite elem_of_dom. unfold is_Some.
  setoid_rewrite map_lookup_filter_Some. simpl.
  destruct (m !! sh) as [seen|]; [naive_solver|set_solver].
Qed.

Lemma projects_of_insert m sh sh' seen :
  projects_of (<[sh := seen]> m) sh' = if decide (sh = sh') then projects seen else projects_of m sh'.
Proof. unfold projects_of. rewrite lookup_insert. by case_decide. Qed.

Lemma projects_of_delete m sh sh' :
  projects_of (delete sh m) sh' = if decide (sh = sh') then ∅ else projects_of m sh'.
Proof. unfold projects_of. rewrite lookup_delete. by case_decide. Qed.

Lemma members_insert m sh seen p :
  members (<[sh := seen]> m) p =
  if decide (p ∈ projects seen) then {[sh]} ∪ members m p else members m p ∖ {[sh]}.
Proof.
  apply set_eq. intros sh'. rewrite elem_of_members, projects_of_insert.
  destruct (decide (p ∈ projects seen)), (decide (sh = sh')); subst;
    rewrite ?elem_of_union, ?elem_of_difference, ?elem_of_singleton, ?elem_of_members;
    naive_solver.
Qed.

Lemma members_delete m sh p : members (delete sh m) p = members m p ∖ {[sh]}.
Proof.
  apply set_eq. intros sh'. rewrite elem_of_members, projects_of_delete.
  rewrite elem_of_difference, elem_of_singleton, elem_of_members.
  destruct (decide (sh = sh')); subst; set_solver.
Qed.
End members.

(** ** The loops of [recount] *)

(** A count with one shell fewer. *)
Definition one_less (o : option nat) : option nat :=
  match o with
  | Some c => if c - 1 =? 0 then None else Some (c - 1)
  | None => None
  end.

(** Whether taking one shell away empties the project. *)
Definition empties (m : gmap path nat) (p : path) : bool :=
  match m !! p with Some c => c - 1 =? 0 | None => false end.

Lemma leave_step_spec (m : gmap path nat) acc x :
  leave_step (m, acc) x =
    ((leave_step (m, acc) x).1, acc ++ (Left <$> if empties m x then [x] else [])) ∧
  ∀ p, (leave_step (m, acc) x).1 !! p = if decide (p = x) then one_less (m !! p) else m !! p.
Proof.
  unfold leave_step, empties. destruct (m !! x) as [c|] eqn:E; simpl.
  - destruct (c - 1 =? 0) eqn:E0; simpl; rewrite ?app_nil_r; split; try done; intros p.
    + rewrite lookup_delete. repeat case_decide; subst; try done. by rewrite E; simpl; rewrite E0.
    + rewrite lookup_insert. repeat case_decide; subst; try done. by rewrite E; simpl; rewrite E0.
  - rewrite app_nil_r. split; [done|]. intros p. case_decide; subst; [by rewrite E|done].
Qed.

Lemma leave_loop (l : list path) (m : gmap path nat) acc :
  NoDup l →
  let r := foldl leave_step (m, acc) l in
  r.2 = acc ++ (Left <$> filter (λ p, Is_true (empties m p)) l) ∧
  ∀ p, r.1 !! p = if decide (p ∈ l) then one_less (m !! p) else m !! p.
Proof.
  revert m acc. induction l as [|x l IH]; intros m acc Hnd; cbv zeta; cbn [foldl].
  { split; [by rewrite app_nil_r|done]. }
  apply NoDup_cons in Hnd as [Hx Hnd].
  destruct (leave_step_spec m acc x) as [Hs Hm].
  rewrite Hs. revert Hm. generalize ((leave_step (m, acc) x).1). intros m' Hm'.
  destruct (IH m' (acc ++ (Left <$> if empties m x then [x] else [])) Hnd) as [IH1 IH2]. split.
  - rewrite IH1, <- app_assoc. f_equal.
    rewrite (filter_ext_elem _ (λ p, Is_true (empties m p))).
    + rewrite filter_cons. by destruct (empties m x).
    + intros p Hp. unfold empties. rewrite Hm', decide_False; [done|set_solver].
  - intros p. rewrite IH2, Hm'. repeat case_decide; set_solver.
Qed.

Lemma enter_loop (l : list path) (m : gmap path nat) acc :
  NoDup l →
  let r := foldl enter_step (m, acc) l in
  r.2 = acc ++ (Entered <$> filter (λ p, default 0 (m !! p) = 0) l) ∧
  ∀ p, r.1 !! p = if decide (p ∈ l) then Some (S (default 0 (m !! p))) else m !! p.
Proof.
  revert m acc. induction l as [|x l IH]; intros m acc Hnd; cbv zeta; cbn [foldl].
  { split; [by rewrite app_nil_r|done]. }
  apply NoDup_cons in Hnd as [Hx Hnd].
  cbn [enter_step]. set (m' := <[x := default 0 (m !! x) + 1]> m).
  specialize (IH m' (if default 0 (m !! x) + 1 =? 1 then acc ++ [Entered x] else acc) Hnd).
  destruct IH as [IH1 IH2]. unfold m' in *. split.
  - rewrite IH1. rewrite filter_cons.
    assert (filter (λ p, default 0 (<[x:=default 0 (m !! x) + 1]> m !! p) = 0) l =
            filter (λ p, default 0 (m !! p) = 0) l) as ->.
    { apply filter_ext_elem. intros p Hp. rewrite lookup_insert_ne; [done|]. set_solver. }
    case_decide as E.
    + rewrite E. simpl. by rewrite <- app_assoc.
    + destruct (default 0 (m !! x) + 1 =? 1) eqn:E1; [|done].
      apply Nat.eqb_eq in E1. lia.
  - intros p. rewrite IH2, lookup_insert. repeat case_decide; subst; try set_solver.
    f_equal. lia.
Qed.

Lemma recount_spec (m : gmap path nat) (before after : gset path) :
  (recount m before after).2 =
    (Left <$> filter (λ p, Is_true (empties m p)) (btree_iter (before ∖ after))) ++
    (Entered <$> filter (λ p, default 0 (m !! p) = 0) (btree_iter (after ∖ before))) ∧
  ∀ p, (recount m before after).1 !! p =
    if decide (p ∈ before ∖ after) then one_less (m !! p)
    else if decide (p ∈ after ∖ before) then Some (S (default 0 (m !! p))) else m !! p.
Proof.
  unfold recount.
  destruct (leave_loop (btree_iter (before ∖ after)) m [] (NoDup_btree_iter _)) as [H1 H2].
  destruct (foldl leave_step (m, []) _) as [m1 acc]. simpl in H1, H2.
  destruct (enter_loop (btree_iter (after ∖ before)) m1 acc (NoDup_btree_iter _)) as [H3 H4].
  split.
  - rewrite H3, H1. f_equal. f_equal. apply filter_ext_elem. intros p Hp%elem_of_btree_iter.
    rewrite H2, decide_False; [done|]. rewrite elem_of_btree_iter. set_solver.
  - intros p. rewrite H4, H2.
    assert (∀ X : gset path, (p ∈ btree_iter X) ↔ p ∈ X) as Hin by (intros X; apply elem_of_btree_iter).
    destruct (decide (p ∈ before ∖ after)) as [Hb|Hb], (decide (p ∈ after ∖ before)) as [Ha|Ha]; [set_solver|..];
      [rewrite decide_False by (by rewrite Hin); rewrite decide_True by (by rewrite Hin)
      |rewrite decide_True by (by rewrite Hin); rewrite decide_False by (by rewrite Hin)
      |rewrite !decide_False by (by rewrite Hin)]; done.
Qed.

(** ** Moving one shell

    [put] and [remove] both take one shell from the projects it counted in to
    [after] and leave every other shell alone. *)
Definition moved (m m' : gmap ShellId Seen) (sh : ShellId) (after : gset path) : Prop :=
  ∀ sh', projects_of m' sh' = if decide (sh = sh') then after else projects_of m sh'.

Lemma moved_insert m sh seen : moved m (<[sh := seen]> m) sh (projects seen).
Proof. intros sh'. apply projects_of_insert. Qed.

Lemma moved_delete m sh : moved m (delete sh m) sh ∅.
Proof. intros sh'. apply projects_of_delete. Qed.

Section move.
Context (m m' : gmap ShellId Seen) (sh : ShellId) (after : gset path).
Hypothesis Hmoved : moved m m' sh after.

Lemma members_moved p :
  members m' p = if decide (p ∈ after) then {[sh]} ∪ members m p else members m p ∖ {[sh]}.
Proof using Hmoved.
  apply set_eq. intros sh'. rewrite elem_of_members, Hmoved.
  destruct (decide (p ∈ after)), (decide (sh = sh')); subst;
    rewrite ?elem_of_union, ?elem_of_difference, ?elem_of_singleton, ?elem_of_members;
    naive_solver.
Qed.

Lemma size_members_moved p :
  size (members m' p) =
  if decide (p ∈ projects_of m sh ∖ after) then size (members m p) - 1
  else if decide (p ∈ after ∖ projects_of m sh) then S (size (members m p))
  else size (members m p).
Proof using Hmoved.
  rewrite members_moved.
  assert (sh ∈ members m p ↔ p ∈ projects_of m sh) as Hin by apply elem_of_members.
  destruct (decide (p ∈ after)), (decide (p ∈ projects_of m sh)).
  - rewrite !decide_False by set_solver. f_equal. set_solver.
  - rewrite decide_False, decide_True by set_solver.
    rewrite size_union, size_singleton by set_solver. done.
  - rewrite decide_True by set_solver. rewrite size_difference, size_singleton by set_solver. done.
  - rewrite !decide_False by set_solver. f_equal. set_solver.
Qed.

Lemma size_members_pos p : p ∈ projects_of m sh → 1 ≤ size (members m p).
Proof using Type.
  intros Hp. assert ({[sh]} ⊆ members m p) as Hsub%subseteq_size.
  { apply singleton_subseteq_l, elem_of_members. done. }
  by rewrite size_singleton in Hsub.
Qed.

Lemma recount_wf c :
  occupancy_wf {| shells := m; counts := c |} →
  occupancy_wf {| shells := m'; counts := (recount c (projects_of m sh) after).1 |}.
Proof using Hmoved.
  intros Hwf p. simpl. destruct (recount_spec c (projects_of m sh) after) as [_ ->].
  rewrite size_members_moved. specialize (Hwf p). simpl in Hwf. rewrite Hwf.
  pose proof (size_members_pos p). repeat case_decide.
  - destruct (size (members m p)) as [|[|n]]; simpl; try done.
  - by destruct (size (members m p)).
  - done.
Qed.

Lemma recount_changes c :
  occupancy_wf {| shells := m; counts := c |} →
  (∀ p, Left p ∈ (recount c (projects_of m sh) after).2 ↔
        size (members m p) ≠ 0 ∧ size (members m' p) = 0) ∧
  (∀ p, Entered p ∈ (recount c (projects_of m sh) after).2 ↔
        size (members m p) = 0 ∧ size (members m' p) ≠ 0).
Proof using Hmoved.
  intros Hwf. destruct (recount_spec c (projects_of m sh) after) as [-> _].
  assert (∀ p, Is_true (empties c p) ↔ size (members m p) = 1) as He.
  { intros p. unfold empties. specialize (Hwf p). simpl in Hwf. rewrite Hwf.
    destruct (size (members m p)) as [|[|n]]; naive_solver. }
  assert (∀ p, default 0 (c !! p) = size (members m p)) as Hd.
  { intros p. specialize (Hwf p). simpl in Hwf. rewrite Hwf. by destruct (size _). }
  split; intros p; rewrite elem_of_app, !list_elem_of_fmap;
    setoid_rewrite list_elem_of_filter; setoid_rewrite elem_of_btree_iter;
    rewrite size_members_moved; pose proof (size_members_pos p); split.
  - intros [(q & [= <-] & Hq & Hin)|(q & [=] & _)]. apply He in Hq. rewrite decide_True by done. lia.
  - intros [Hn H0]. left. exists p. rewrite He. repeat case_decide; split_and!; try done; lia.
  - intros [(q & [=] & _)|(q & [= <-] & Hq & Hin)]. rewrite Hd in Hq.
    rewrite decide_False, decide_True by set_solver. lia.
  - intros [Hn H0]. right. exists p. rewrite Hd. repeat case_decide; split_and!; try done; lia.
Qed.

Lemma recount_order c :
  ∃ lefts entered, (recount c (projects_of m sh) after).2 = (Left <$> lefts) ++ (Entered <$> entered) ∧
    StronglySorted cle lefts ∧ NoDup lefts ∧ StronglySorted cle entered ∧ NoDup entered.
Proof using Type.
  destruct (recount_spec c (projects_of m sh) after) as [-> _]. eexists _, _. split; [done|].
  split_and!; (apply StronglySorted_filter, btree_iter_sorted) || (apply NoDup_filter, NoDup_btree_iter).
Qed.
End move.

Lemma occupants_members t p : occupancy_wf t → occupants t p = size (members (shells t) p).
Proof. intros Hwf. unfold occupants. rewrite (Hwf p). by destruct (size _). Qed.

Lemma put_counts t r :
  put t r = ({| shells := <[shell r := seen_of r]> (shells t);
                counts := (recount (counts t) (projects_of (shells t) (shell r)) (projects (seen_of r))).1 |},
             (recount (counts t) (projects_of (shells t) (shell r)) (projects (seen_of r))).2).
Proof. unfold put. by destruct (recount _ _ _). Qed.

Lemma remove_counts t sh :
  remove t sh = ({| shells := delete sh (shells t);
                    counts := (recount (counts t) (projects_of (shells t) sh) ∅).1 |},
                 (recount (counts t) (projects_of (shells t) sh) ∅).2).
Proof. unfold remove. by destruct (recount _ _ _). Qed.

Lemma new_wf : occupancy_wf new.
Proof. intros p. unfold members. simpl. rewrite map_filter_empty. done. Qed.

Lemma put_wf t r : occupancy_wf t → occupancy_wf (put t r).1.
Proof. rewrite put_counts. simpl. destruct t. apply recount_wf, moved_insert. Qed.

Lemma remove_wf t sh : occupancy_wf t → occupancy_wf (remove t sh).1.
Proof. rewrite remove_counts. simpl. destruct t. apply recount_wf, moved_delete. Qed.

Lemma report_wf t r : occupancy_wf t → occupancy_wf (report t r).1.
Proof. unfold report. case_match; auto using put_wf. Qed.

Lemma restore_wf t r : occupancy_wf t → occupancy_wf (restore t r).
Proof. unfold restore. case_match; auto using put_wf. Qed.

#[export] Hint Resolve new_wf put_wf remove_wf report_wf restore_wf : muster.

(** ** Reading the table *)

Lemma elem_of_shells_in t p sh : sh ∈ shells_in t p ↔ p ∈ projects_of (shells t) sh.
Proof.
  unfold shells_in. rewrite merge_sort_Permutation, <- elem_of_members.
  unfold members. rewrite elem_of_dom, list_elem_of_fmap. split.
  - intros ([k v] & -> & Hin%elem_of_map_to_list). by eexists.
  - intros [v Hv]. exists (sh, v). by rewrite elem_of_map_to_list.
Qed.

Lemma length_shells_in t p : length (shells_in t p) = size (members (shells t) p).
Proof.
  unfold shells_in, members. rewrite merge_sort_Permutation, size_dom, length_fmap.
  apply length_map_to_list.
Qed.

Lemma shells_in_sorted t p : StronglySorted cle (shells_in t p).
Proof. apply StronglySorted_merge_sort; apply _. Qed.

(** The members of a set that loses its last one are that one. *)
Lemma last_member (X : gset ShellId) sh : size X ≠ 0 ∧ size (X ∖ {[sh]}) = 0 ↔ X = {[sh]}.
Proof.
  split.
  - intros [Hn Hz%size_empty_inv]. destruct (set_choose_L X) as [x Hx].
    { intros ->. by rewrite size_empty in Hn. }
    assert (x = sh) as -> by (destruct (decide (x = sh)); set_solver).
    apply set_eq. intros y. destruct (decide (y = sh)); set_solver.
  - intros ->. rewrite size_singleton. split; [done|]. apply size_empty_iff. set_solver.
Qed.

Lemma shells_in_singleton t p sh : shells_in t p = [sh] ↔ members (shells t) p = {[sh]}.
Proof.
  pose proof (length_shells_in t p) as Hlen. pose proof (elem_of_shells_in t p) as Hin.
  split; intros E; rewrite E in *.
  - apply set_eq. intros x. rewrite elem_of_members, <- Hin. set_solver.
  - rewrite size_singleton in Hlen. destruct (shells_in t p) as [|x [|y l]]; try done. f_equal.
    assert (x ∈ members (shells t) p) by (apply elem_of_members, Hin; set_solver). set_solver.
Qed.

(** ** Stale reports *)

(** The state [report] leaves is the one [restore] leaves. *)
Lemma report_restore t r : (report t r).1 = restore t r.
Proof. unfold report, restore. by destruct (is_newer t r). Qed.

(** A table is determined by its shells. *)
Lemma occupancy_wf_ext t t' : occupancy_wf t → occupancy_wf t' → shells t = shells t' → t = t'.
Proof.
  destruct t as [m c], t' as [m' c']. simpl. intros H1 H2 ->. f_equal. apply map_eq.
  intros p. specialize (H1 p). specialize (H2 p). simpl in *. congruence.
Qed.

Lemma shells_restore t r :
  shells (restore t r) = if is_newer t r then <[shell r := seen_of r]> (shells t) else shells t.
Proof. unfold restore. case_match; [|done]. by rewrite put_counts. Qed.

Lemma is_newer_restore t r r' :
  is_newer (restore t r) r' =
  if is_newer t r then
    if decide (shell r = shell r') then bool_decide (clt (stamp r) (stamp r')) else is_newer t r'
  else is_newer t r'.
Proof.
  unfold is_newer at 1. rewrite shells_restore. destruct (is_newer t r) eqn:E; [|done].
  rewrite lookup_insert. by case_decide.
Qed.

(** A shell's seen stamp below [stamp r], when it is below a smaller one. *)
Lemma is_newer_mono t r r' :
  shell r = shell r' → clt (stamp r) (stamp r') → is_newer t r = true → is_newer t r' = true.
Proof.
  unfold is_newer, supersedes. intros <- Hlt. case_match; [|done].
  rewrite !bool_decide_eq_true. intros. by transitivity (stamp r).
Qed.

Lemma restore_comm_lt t r r' :
  shell r = shell r' → clt (stamp r) (stamp r') →
  shells (restore (restore t r) r') = shells (restore (restore t r') r).
Proof.
  intros Hsh Hlt. pose proof (is_newer_mono t r r' Hsh Hlt) as Hmono.
  rewrite !shells_restore, !is_newer_restore, Hsh, !decide_True by done.
  destruct (is_newer t r).
  - rewrite Hmono by done. rewrite bool_decide_true by done.
    rewrite bool_decide_false by (by apply clt_asymm). by rewrite insert_insert_eq.
  - destruct (is_newer t r'); [|done].
    by rewrite bool_decide_false by (by apply clt_asymm).
Qed.

(** What orders a report: its shell and its stamp. *)
Definition report_key (r : ShellRecord) : ShellId * ReportStamp := (shell r, stamp r).

Lemma restore_comm t r r' :
  occupancy_wf t → report_key r ≠ report_key r' →
  restore (restore t r) r' = restore (restore t r') r.
Proof.
  intros Hwf Hk. apply occupancy_wf_ext; [auto with muster..|].
  destruct (decide (shell r = shell r')) as [Hsh|Hsh].
  - destruct (clt_trichotomy (stamp r) (stamp r')) as [|[Heq|]].
    + by apply restore_comm_lt.
    + exfalso. apply Hk. unfold report_key. by rewrite Hsh, Heq.
    + symmetry. by apply restore_comm_lt.
  - rewrite !shells_restore, !is_newer_restore, !(decide_False (P:=shell _ = shell _)) by congruence.
    destruct (is_newer t r), (is_newer t r'); try done. by apply insert_insert_ne.
Qed.

(** ** Held projects *)

Lemma dedup_elem {A} `{EqDecision A} (l : list A) x : x ∈ dedup l ↔ x ∈ l.
Proof.
  induction l as [|a [|b l] IH]; [done|done|].
  change (x ∈ (if decide (a = b) then dedup (b :: l) else a :: dedup (b :: l)) ↔ x ∈ a :: b :: l).
  case_decide; subst; rewrite ?elem_of_cons, IH; set_solver.
Qed.

Lemma dedup_sorted {A} `{EqDecision A, OrdLaws A} (l : list A) :
  StronglySorted cle l → StronglySorted clt (dedup l).
Proof.
  induction l as [|a [|b l] IH]; intros Hs; [constructor|by repeat constructor|].
  change (StronglySorted clt (if decide (a = b) then dedup (b :: l) else a :: dedup (b :: l))).
  apply StronglySorted_inv in Hs as [Hs Ha]. case_decide as Hab; [by apply IH|].
  constructor; [by apply IH|]. apply Forall_forall. intros x Hx. rewrite dedup_elem in Hx.
  apply StronglySorted_inv in Hs as [_ Hb]. rewrite Forall_forall in Ha, Hb.
  assert (clt a b) as Hlt by (destruct (proj1 (cle_lt_or_eq a b) (Ha b ltac:(set_solver))); done).
  apply elem_of_cons in Hx as [-> |Hx]; [done|].
  destruct (proj1 (cle_lt_or_eq b x) (Hb x Hx)) as [|<-]; [by transitivity b|done].
Qed.

Lemma elem_of_following_held r prev around root :
  root ∈ held (following r (Some prev) around) ↔
  still_holds r root = true ∧
  (root ∈ held prev ∨ registered_since r prev around = true ∧ project prev = Some root).
Proof.
  simpl. rewrite dedup_elem, merge_sort_Permutation, list_elem_of_filter, Is_true_true, elem_of_app.
  destruct (registered_since r prev around), (project prev) as [q|]; simpl; set_solver.
Qed.

Lemma still_holds_true r root proj :
  project r = Some proj → still_holds r root = true ↔ proj ≠ root ∧ ProjectRoot.contains root proj = true.
Proof. intros E. unfold still_holds. by rewrite E, andb_true_iff, bool_decide_eq_true. Qed.

Lemma elem_of_seen_projects r p : p ∈ projects (seen_of r) ↔ project r = Some p ∨ p ∈ held r.
Proof. simpl. destruct (project r); set_solver. Qed.

(** * Properties *)

(** One change of the table: a report, a restored record or a shell gone. *)
Inductive occ_step : Occupancy → Occupancy → Prop :=
| step_report t r : occ_step t (report t r).1
| step_restore t r : occ_step t (restore t r)
| step_remove t sh : occ_step t (remove t sh).1.

Lemma occ_reachable_wf t : rtc occ_step new t → occupancy_wf t.
Proof.
  revert t. apply rtc_ind_r; [auto with muster|]. intros t t' _ Hstep Hwf.
  destruct Hstep; auto with muster.
Qed.

(** What a change to the table says of the projects: one left has no shell, one
    that had none and was not entered still has none. *)
Lemma report_effect t r p :
  occupancy_wf t →
  (Left p ∈ (report t r).2 → occupants (report t r).1 p = 0) ∧
  (occupants t p = 0 → Entered p ∉ (report t r).2 → occupants (report t r).1 p = 0).
Proof.
  intros Hwf. unfold report. destruct (is_newer t r); cbn [negb]; cbv iota; [|split; [by intros ?%not_elem_of_nil|done]].
  rewrite (occupants_members _ p (put_wf t r Hwf)), (occupants_members t p Hwf), put_counts. cbn [fst snd].
  destruct t as [m c]. destruct (recount_changes _ _ _ _ (moved_insert m (shell r) (seen_of r)) c Hwf) as [HL HE]. cbn in *.
  rewrite (HL p), (HE p). split; [by intros [_ ?]|]. intros Hz Hn. destruct (decide (size (members (<[shell r := seen_of r]> m) p) = 0)); [done|].
  by exfalso; apply Hn.
Qed.

Lemma remove_effect t sh p :
  occupancy_wf t →
  (Left p ∈ (remove t sh).2 → occupants (remove t sh).1 p = 0) ∧
  (occupants t p = 0 → occupants (remove t sh).1 p = 0) ∧ Entered p ∉ (remove t sh).2.
Proof.
  intros Hwf. rewrite (occupants_members _ p (remove_wf t sh Hwf)), (occupants_members t p Hwf), remove_counts. cbn [fst snd].
  destruct t as [m c]. destruct (recount_changes _ _ _ _ (moved_delete m sh) c Hwf) as [HL HE]. cbn in *.
  rewrite (HL p), (HE p), members_delete. assert (members m p ∖ {[sh]} ⊆ members m p) as Hle%subseteq_size by set_solver. lia.
Qed.

(** A shell the table does not know, put back and removed, leaves the table. *)
Lemma restore_remove t r : occupancy_wf t → shells t !! shell r = None → (remove (restore t r) (shell r)).1 = t.
Proof.
  intros Hwf Hn. apply occupancy_wf_ext; [by apply remove_wf, restore_wf|done|].
  rewrite remove_counts. cbn. rewrite shells_restore. unfold is_newer. rewrite Hn. by rewrite delete_insert_id.
Qed.

(** In every table reachable from the empty one by reports, restored
    records and removals, a project's occupant count is exactly the number of
    shells the table lists in it, those shells are exactly the ones whose
    newest report counts them there, they are listed in order, and no project
    is kept with a count of zero. *)
Theorem occupancy_counts_shells (t : Occupancy) (p : path) :
  rtc occ_step new t →
  occupants t p = length (shells_in t p) ∧
  (∀ sh, sh ∈ shells_in t p ↔ p ∈ projects_of (shells t) sh) ∧
  StronglySorted cle (shells_in t p) ∧ counts t !! p ≠ Some 0.
Proof.
  intros Hwf%occ_reachable_wf. split_and!.
  - by rewrite length_shells_in, occupants_members.
  - intros. apply elem_of_shells_in.
  - apply shells_in_sorted.
  - rewrite (Hwf p). by destruct (size _).
Qed.

(** A report that is applied announces exactly the occupancy changes: a
    project is left when it had shells and has none now, entered when it had
    none and has some now, each once, every leave before every entry. *)
Theorem report_changes_exact (t : Occupancy) (r : ShellRecord) :
  occupancy_wf t → is_newer t r = true →
  let t' := (report t r).1 in let changes := (report t r).2 in
  (∀ p, Left p ∈ changes ↔ occupants t p ≠ 0 ∧ occupants t' p = 0) ∧
  (∀ p, Entered p ∈ changes ↔ occupants t p = 0 ∧ occupants t' p ≠ 0) ∧
  ∃ lefts entered, changes = (Left <$> lefts) ++ (Entered <$> entered) ∧
    NoDup lefts ∧ NoDup entered.
Proof.
  intros Hwf Hnew. cbv zeta. unfold report. rewrite Hnew. simpl negb. cbv iota.
  pose proof (λ p, occupants_members t p Hwf) as Ho.
  pose proof (λ p, occupants_members _ p (put_wf t r Hwf)) as Ho'.
  setoid_rewrite Ho. setoid_rewrite Ho'. rewrite put_counts. simpl fst. simpl snd.
  pose proof (moved_insert (shells t) (shell r) (seen_of r)) as Hm. destruct t as [m c].
  destruct (recount_changes _ _ _ _ Hm c Hwf) as [H1 H2].
  destruct (recount_order m (shell r) (projects (seen_of r)) c) as (ls & es & E & _ & ? & _ & ?).
  simpl in *. split_and!; [done|done|]. exists ls, es. done.
Qed.

(** Forgetting a shell announces the leave of exactly the projects it was
    the last shell of, and never an entry. *)
Theorem remove_changes_exact (t : Occupancy) (sh : ShellId) :
  occupancy_wf t →
  (∀ p, Left p ∈ (remove t sh).2 ↔ shells_in t p = [sh]) ∧
  (∀ p, Entered p ∉ (remove t sh).2).
Proof.
  intros Hwf. rewrite remove_counts. simpl.
  pose proof (moved_delete (shells t) sh) as Hm.
  assert (∀ p, shells_in t p = [sh] ↔ members (shells t) p = {[sh]}) as Hone
    by (intros; apply shells_in_singleton).
  destruct t as [m c]. simpl in *.
  destruct (recount_changes _ _ _ _ Hm c Hwf) as [H1 H2]. split; intros p.
  - rewrite H1, Hone, members_delete. apply last_member.
  - rewrite H2, members_delete.
    assert (members m p ∖ {[sh]} ⊆ members m p) as Hle%subseteq_size by set_solver. lia.
Qed.

(** Reports may arrive in any order: as long as no two carry the same
    shell and stamp, every order of the same reports leaves the same table,
    since a report older than its shell's newest is dropped. *)
Theorem reports_converge (t : Occupancy) (rs rs' : list ShellRecord) :
  occupancy_wf t → NoDup (report_key <$> rs) → rs ≡ₚ rs' →
  foldl (λ t r, (report t r).1) t rs = foldl (λ t r, (report t r).1) t rs'.
Proof.
  intros Hwf Hnd Hp. revert t Hwf.
  induction Hp as [|r rs rs' Hp IH|r r' rs|rs rs2 rs3 Hp1 IH1 Hp2 IH2]; intros t Hwf; simpl.
  - done.
  - apply IH; [|auto with muster]. apply NoDup_cons in Hnd as [_ ?]. done.
  - rewrite !report_restore. f_equal. apply restore_comm; [done|].
    csimpl in Hnd. apply NoDup_cons in Hnd as [Hn _]. intros E. apply Hn. rewrite E. by left.
  - rewrite IH1 by done. apply IH2; [|done]. by rewrite <- Hp1.
Qed.

(** The projects a report holds are listed once each, in order, and each
    strictly contains the project the report names; a report outside every
    project holds none. *)
Theorem following_held_nested (r prev : ShellRecord) (around : bool) :
  StronglySorted clt (held (following r (Some prev) around)) ∧
  ∀ root, root ∈ held (following r (Some prev) around) →
    ∃ proj, project r = Some proj ∧ proj ≠ root ∧ ProjectRoot.contains root proj = true.
Proof.
  split; [apply dedup_sorted, StronglySorted_merge_sort; apply _|].
  intros root [Hs _]%elem_of_following_held. unfold still_holds in Hs.
  destruct (project r) as [proj|]; [|done]. exists proj.
  apply andb_true_iff in Hs as [Hn ?]. by rewrite bool_decide_eq_true in Hn.
Qed.

(** Registering a project around a shell takes it out of none of the
    projects around that one: every project the shell counted in that
    contains the new root still counts it, the new root counts it too, and
    its next report from there does not enter the project, so nothing is
    started for it. *)
Theorem registered_around_keeps (r : ShellRecord) (root : path) :
  project r ≠ Some root →
  (∀ p, p ∈ projects (seen_of r) → ProjectRoot.contains p root = true →
        p ∈ projects (seen_of (registered_around r root))) ∧
  root ∈ projects (seen_of (registered_around r root)) ∧
  ∀ next around, project next = Some root → may_enter next (Some (registered_around r root)) around = false.
Proof.
  intros Hroot. split_and!.
  - intros p Hp Hc. rewrite elem_of_seen_projects in Hp |- *.
    destruct (decide (p = root)) as [->|Hne]; [by left|]. right.
    apply elem_of_following_held. rewrite (still_holds_true _ _ root) by done.
    split; [done|]. destruct Hp as [Hp|Hp]; [right|by left].
    split; [|done]. unfold registered_since. simpl.
    rewrite Hp. rewrite bool_decide_true by congruence. done.
  - rewrite elem_of_seen_projects. by left.
  - intros next around Hn. unfold may_enter. rewrite Hn. simpl.
    rewrite bool_decide_false by auto. by rewrite andb_false_r.
Qed.

(** ** Witnesses *)
Module Witness.

Definition root_a : path := [RootDir; Normal (lit "a")].
Definition root_ab : path := [RootDir; Normal (lit "a"); Normal (lit "b")].
Definition sh1 : ShellId := {| pid := 10; start := 5 |}.
Definition sh2 : ShellId := {| pid := 11; start := 6 |}.
Definition stamp_at (l s : N) : ReportStamp := {| load := {| started := l; load_pid := 7 |}; seq := s |}.
Definition rec (sh : ShellId) (s : N) (p : option path) : ShellRecord :=
  {| shell := sh; stamp := stamp_at 1 s; folder := root_ab; arrived := s; project := p; held := [] |}.
Definition t1 : Occupancy := (report new (rec sh1 1 (Some root_a))).1.

Lemma t1_wf : occupancy_wf t1.
Proof. unfold t1. auto with muster. Qed.

Lemma occupancy_counts_shells_witness :
  rtc occ_step new t1 ∧ occupants t1 root_a = 1 ∧ occupants t1 root_a = length (shells_in t1 root_a).
Proof.
  split; [apply rtc_once; constructor|]. split; [vm_compute; reflexivity|].
  apply (occupancy_counts_shells t1 root_a). apply rtc_once. constructor.
Defined.

Lemma report_changes_exact_witness :
  (report t1 (rec sh1 2 (Some root_ab))).2 = [Left root_a; Entered root_ab] ∧
  (Left root_a ∈ (report t1 (rec sh1 2 (Some root_ab))).2 ↔
   occupants t1 root_a ≠ 0 ∧ occupants (report t1 (rec sh1 2 (Some root_ab))).1 root_a = 0).
Proof.
  split; [vm_compute; reflexivity|].
  apply (report_changes_exact t1 (rec sh1 2 (Some root_ab))); [apply t1_wf|vm_compute; reflexivity].
Defined.

Lemma remove_changes_exact_witness :
  (remove t1 sh1).2 = [Left root_a] ∧ (Left root_a ∈ (remove t1 sh1).2 ↔ shells_in t1 root_a = [sh1]).
Proof.
  split; [vm_compute; reflexivity|]. apply (remove_changes_exact t1 sh1). apply t1_wf.
Defined.

Definition late : list ShellRecord :=
  [rec sh1 3 (Some root_ab); rec sh1 2 (Some root_a); rec sh2 1 (Some root_a)].
Definition in_order : list ShellRecord :=
  [rec sh2 1 (Some root_a); rec sh1 2 (Some root_a); rec sh1 3 (Some root_ab)].

Lemma reports_converge_witness :
  foldl (λ t r, (report t r).1) new late = foldl (λ t r, (report t r).1) new in_order.
Proof.
  apply (reports_converge new late in_order).
  - apply new_wf.
  - apply (bool_decide_unpack _). vm_compute. exact I.
  - change late with (reverse in_order). apply reverse_Permutation.
Defined.

Example following_holds_outer :
  held (following (rec sh1 2 (Some root_ab)) (Some (rec sh1 1 (Some root_a))) true) = [root_a].
Proof. vm_compute. reflexivity. Qed.

Lemma registered_around_keeps_witness :
  projects (seen_of (registered_around (rec sh1 1 (Some root_a)) root_ab)) = {[root_ab; root_a]} ∧
  root_a ∈ projects (seen_of (registered_around (rec sh1 1 (Some root_a)) root_ab)).
Proof.
  split; [vm_compute; reflexivity|].
  destruct (registered_around_keeps (rec sh1 1 (Some root_a)) root_ab) as [Hkeep _]; [discriminate|].
  apply Hkeep; [|reflexivity]. apply (bool_decide_unpack _). vm_compute. exact I.
Defined.
End Witness.
