(* ===== verification/Values.v ===== *)
(** * Domain values

    Models muster-domain/src/value and muster-domain/src/pty/size.rs: the
    validated newtypes and the text forms they are read from and written in.
    A newtype declared with [nutype] is its inner value together with the
    predicate its constructor checks. Unicode normal form C, the general
    category Format and Unicode lowercasing come from crates or tables outside
    the repository and are parameters of the definitions that use them. *)
From S2P Require Import Prelude RustText RustPath.

(** ** Durations: nanoseconds *)
Definition duration := N.
Definition from_secs (s : N) : duration := (s * 1000000000)%N.
Definition as_secs (d : duration) : N := (d / 1000000000)%N.
Definition subsec_nanos (d : duration) : N := (d mod 1000000000)%N.
Definition NANOS_PER_MILLI : N := 1000000.

(** Whether a duration is a whole number of milliseconds. *)
Definition is_whole_millis (d : duration) : bool := (subsec_nanos d mod NANOS_PER_MILLI =? 0)%N.

(** The check of [PositiveDuration]. *)
Definition is_positive (d : duration) : bool := negb (d =? 0)%N && is_whole_millis d.

Definition MAX_STOP_GRACE : duration := from_secs (60 * 60).

(** The check of [StopGrace]. *)
Definition is_grace (d : duration) : bool :=
  negb (d =? 0)%N && (d <=? MAX_STOP_GRACE)%N && is_whole_millis d.

(** ** Moments *)
Module EpochSeconds.

(** The moment [span] after this one, held at the latest representable
    second. *)
Definition after (self : N) (span : duration) : N := u64_saturating_add self (as_secs span).

(** How long from this moment until [later], zero once [later] has passed. *)
Definition until (self later : N) : duration := from_secs (saturating_sub later self).

End EpochSeconds.

Module EpochNanos.

(** The moment a system time names, given as nanoseconds since the epoch or
    none before it. *)
Definition of_time (since_epoch : option N) : N :=
  match since_epoch with
  | Some nanos => if (nanos <=? u64_max)%N then nanos else u64_max
  | None => 0%N
  end.

End EpochNanos.

(** ** Idle stop *)
Inductive IdleStop :=
| After (d : duration)
| Never.

#[export] Instance IdleStop_eq_dec : EqDecision IdleStop.
Proof. solve_decision. Defined.

Definition idle_after (i : IdleStop) : option duration :=
  match i with After d => Some d | Never => None end.

(** ** Parse errors *)
Record ValueParseError := { expected : rstr; found : rstr }.

(** Reads [raw], trimmed, with [parse], describing a refusal with [form]. *)
Definition parse_as {T} (parse : rstr → option T) (raw form : rstr) : result T ValueParseError :=
  match parse (trim raw) with
  | Some t => Ok t
  | None => Err {| expected := form; found := raw |}
  end.

(** ** Output cursors *)
Module OutputCursor.

Definition CURSOR_PREFIX : rstr := lit "o:".
Definition CURSOR_FORM : rstr := lit "an output cursor such as o:18234".

(** The cursor [bytes] further on, saturating at the largest offset. *)
Definition advanced (self bytes : N) : N := u64_saturating_add self bytes.

(** Bytes from [earlier] to this cursor, or zero when it is not earlier. *)
Definition bytes_since (self earlier : N) : N := saturating_sub self earlier.

(** [o:<offset>]. *)
Definition display (self : N) : rstr := CURSOR_PREFIX ++ print_dec self.

(** Reads a cursor written by [display]. *)
Definition from_str (raw : rstr) : result N ValueParseError :=
  match strip_prefix CURSOR_PREFIX (trim raw) with
  | Some digits =>
    if forallb is_ascii_digit digits then
      match parse_uint u64_max digits with
      | Some n => Ok n
      | None => Err {| expected := CURSOR_FORM; found := raw |}
      end
    else Err {| expected := CURSOR_FORM; found := raw |}
  | None => Err {| expected := CURSOR_FORM; found := raw |}
  end.

End OutputCursor.

(** ** Local ports and URLs *)
Module LocalPort.

Definition PORT_FORM : rstr := lit "a port from 1 to 65535".

(** The check of the newtype over [u16]. *)
Definition try_new (port : N) : option N := if (0 <? port)%N then Some port else None.

Definition from_str (raw : rstr) : result N ValueParseError :=
  match parse_uint u16_max (trim raw) ≫= try_new with
  | Some p => Ok p
  | None => Err {| expected := PORT_FORM; found := raw |}
  end.

End LocalPort.

Module LocalUrl.

Definition HTTP_SCHEME : rstr := lit "http://".
Definition LOOPBACK_HOSTS : list rstr := [lit "localhost"; lit "127.0.0.1"; lit "[::1]"].
Definition is_authority_end (c : rchar) : bool := (c =? 47)%N || (c =? 63)%N || (c =? 35)%N.
Definition IPV6_OPEN : rchar := 91%N.
Definition IPV6_CLOSE : rchar := 93%N.
Definition PORT_SEPARATOR : rchar := 58%N.
Definition USERINFO_MARK : rchar := 64%N.
Definition BACKSLASH : rchar := 92%N.

(** [split(AUTHORITY_END).next()]: the text before the first end mark. *)
Fixpoint authority_of (s : rstr) : rstr :=
  match s with
  | [] => []
  | c :: s => if is_authority_end c then [] else c :: authority_of s
  end.

(** [find(c)] with [split_at]: the text before the first [d], and from it. *)
Fixpoint break_at (d : rchar) (s : rstr) : option (rstr * rstr) :=
  match s with
  | [] => None
  | c :: s' => if (c =? d)%N then Some ([], s)
               else match break_at d s' with
                    | Some (a, b) => Some (c :: a, b)
                    | None => None
                    end
  end.

(** [split_at] just past the first [d]. *)
Definition break_after (d : rchar) (s : rstr) : option (rstr * rstr) :=
  match break_at d s with
  | Some (a, c :: b) => Some (a ++ [c], b)
  | _ => None
  end.

(** The host of an [http] URL and its [:port] suffix. *)
Definition host_and_port (url : rstr) : option (rstr * rstr) :=
  if (length HTTP_SCHEME <=? length url) &&
     eq_ignore_ascii_case (take (length HTTP_SCHEME) url) HTTP_SCHEME
  then
    let authority := authority_of (drop (length HTTP_SCHEME) url) in
    if contains_char USERINFO_MARK authority then None
    else if starts_with [IPV6_OPEN] authority then break_after IPV6_CLOSE authority
    else match break_at PORT_SEPARATOR authority with
         | Some hp => Some hp
         | None => Some (authority, [])
         end
  else None.

(** The number of a [:port] suffix, or none when it is not one. *)
Definition port_number (suffix : rstr) : option N :=
  match strip_prefix [PORT_SEPARATOR] suffix with
  | Some digits => if forallb is_ascii_digit digits then parse_uint u16_max digits else None
  | None => None
  end.

(** Whether [url] is an [http] URL whose host is loopback, with no credentials
    and at most a non-zero port. *)
Definition is_loopback_url (url : rstr) : bool :=
  if existsb (λ c, is_whitespace c || is_control c || (c =? BACKSLASH)%N) url then false
  else match host_and_port url with
       | None => false
       | Some (host, port) =>
         (bool_decide (port = []) ||
          match port_number port with Some n => (0 <? n)%N | None => false end) &&
         existsb (eq_ignore_ascii_case host) LOOPBACK_HOSTS
       end.

(** The constructor: trimmed, then checked. *)
Definition try_new (raw : rstr) : option rstr :=
  let url := trim raw in if is_loopback_url url then Some url else None.

(** The port the URL names, when it names one. *)
Definition port (url : rstr) : option N :=
  match host_and_port url with
  | Some (_, suffix) => port_number suffix ≫= LocalPort.try_new
  | None => None
  end.

End LocalUrl.

(** ** Detach keys *)
Module DetachKey.

Definition CTRL_PREFIX : rstr := lit "ctrl-".
Definition LEGACY_CONTROL_MASK : N := 31.
Definition KITTY_CTRL_MODIFIER : N := 5.
Definition DETACH_PUNCTUATION : list rchar := [92; 93]%N.
Definition RESERVED_KEYS : list rchar := lit "mjihc".

(** The key of [chord], when it names one a detach chord may use. *)
Definition chord_key (chord : rstr) : option rchar :=
  match strip_prefix CTRL_PREFIX chord with
  | Some [key] =>
    if (is_ascii_lowercase key && bool_decide (key ∉ RESERVED_KEYS)) ||
       bool_decide (key ∈ DETACH_PUNCTUATION)
    then Some key else None
  | _ => None
  end.

Definition is_detach_chord (chord : rstr) : bool :=
  match chord_key chord with Some _ => true | None => false end.

(** The constructor, over Unicode lowercasing. *)
Definition try_new (lowercase : rstr → rstr) (raw : rstr) : option rstr :=
  let chord := lowercase (trim raw) in if is_detach_chord chord then Some chord else None.

Definition key (self : rstr) : rchar := default 0%N (chord_key self).

(** The byte a terminal without keyboard enhancement sends. *)
Definition legacy_byte (self : rstr) : N := N.land (key self mod 256) LEGACY_CONTROL_MASK.

(** [CSI code ; modifiers u]. *)
Definition kitty_sequence (self : rstr) : list N :=
  [27; 91]%N ++ print_dec (key self) ++ lit ";" ++ print_dec KITTY_CTRL_MODIFIER ++ lit "u".

End DetachKey.

(** ** Environment names and values *)
Definition is_env_name (name : rstr) : bool :=
  negb (bool_decide (name = [])) && negb (contains_char 61%N name) && negb (contains_char 0%N name) &&
  negb (starts_with (lit "MUSTER_") name).
Definition is_env_value (value : rstr) : bool := negb (contains_char 0%N value).
Definition ENV_NAME_MAX_CHARS : nat := 128.
Definition ENV_VALUE_MAX_CHARS : nat := N.to_nat 8192.

(** ** Terminal text *)
Section terminal_text.
(** [general_category() == Format]. *)
Context (is_format : rchar → bool).

Definition TAB : rchar := 9%N.

(** Whether a character could steer the terminal it is printed on. *)
Definition steers_the_terminal (c : rchar) : bool :=
  (is_control c && negb (c =? TAB)%N) || is_format c.

(** A hexadecimal digit. *)
Definition hex_digit (n : N) : rchar := if (n <? 10)%N then (48 + n)%N else (87 + n)%N.

(** Lower-case hexadecimal, most significant first; a scalar value has at most
    six digits. *)
Fixpoint hex_digits (fuel : nat) (n : N) (acc : rstr) : rstr :=
  match fuel with
  | O => acc
  | S fuel =>
    let acc := hex_digit (n mod 16) :: acc in
    if (n / 16 =? 0)%N then acc else hex_digits fuel (n / 16) acc
  end.

(** [char::escape_default]. *)
Definition escape_default (c : rchar) : rstr :=
  if (c =? 9)%N then lit "\t"
  else if (c =? 13)%N then lit "\r"
  else if (c =? 10)%N then lit "\n"
  else if (c =? 39)%N || (c =? 34)%N || (c =? 92)%N then [92%N; c]
  else if (32 <=? c)%N && (c <=? 126)%N then [c]
  else lit "\u{" ++ hex_digits 6 c [] ++ lit "}".

(** [text] with every control and format character but tab escaped. *)
Definition printable (text : rstr) : rstr :=
  if negb (existsb steers_the_terminal text) then text
  else concat (map (λ c, if steers_the_terminal c then escape_default c else [c]) text).
End terminal_text.

(** ** Process names *)
Definition PROCESS_NAME_MAX_CHARS : nat := 64.
Definition ELIDED : rstr := lit "...".

(** Whether a process name can neither drive a terminal nor hide or reorder
    the text around it; tab counts as control here. *)
Definition is_terminal_safe (is_format : rchar → bool) (name : rstr) : bool :=
  negb (existsb (λ c, is_control c || steers_the_terminal is_format c) name).

Inductive NameProblem := Empty | UnsafeCharacter.

(** The constructor of [ProcessName] with the refusal the CLI shows. *)
Definition process_name_try_new (is_format : rchar → bool) (raw : rstr) : result rstr NameProblem :=
  let name := trim raw in
  if bool_decide (name = []) then Err Empty
  else if is_terminal_safe is_format name then Ok name else Err UnsafeCharacter.

Definition char_count (name : rstr) : nat := length name.

(** [raw] as a refusal shows it: cut to the cap and marked when longer. *)
Definition refused_name (raw : rstr) : rstr :=
  if PROCESS_NAME_MAX_CHARS <? length raw
  then take PROCESS_NAME_MAX_CHARS raw ++ ELIDED else raw.

Inductive UnresolvedProcess :=
| Unknown (r : rstr)
| Ambiguous (r : rstr) (names : list rstr).

Section process_ref.
Context (nfc : rstr → rstr).

(** [ProcessName::key]: the name in normal form C. *)
Definition name_key (name : rstr) : rstr := nfc name.

(** The constructor of [ProcessRef]: trimmed, in normal form C, not empty. *)
Definition process_ref_try_new (typed : rstr) : option rstr :=
  let r := nfc (trim typed) in if bool_decide (r = []) then None else Some r.

(** The one name among [names] the reference means. *)
Definition resolve (self : rstr) (names : list rstr) : result rstr UnresolvedProcess :=
  let equivalent := filter (λ name, nfc name = self) names in
  match list_find (λ name, name = self) equivalent with
  | Some (_, exact) => Ok exact
  | None =>
    match equivalent with
    | [] => Err (Unknown self)
    | [only] => Ok only
    | several => Err (Ambiguous self several)
    end
  end.
End process_ref.

(** ** Terminal sizes *)
Definition MIN_ROWS : N := 1.
Definition MAX_ROWS : N := 1000.
Definition MIN_COLS : N := 2.
Definition MAX_COLS : N := 2000.

Record PtySize := { rows : N; cols : N }.
#[export] Instance PtySize_eq_dec : EqDecision PtySize.
Proof. solve_decision. Defined.

Definition rows_ok (r : N) : bool := (MIN_ROWS <=? r)%N && (r <=? MAX_ROWS)%N.
Definition cols_ok (c : N) : bool := (MIN_COLS <=? c)%N && (c <=? MAX_COLS)%N.

Module PtySizeOps.
Definition SIZE_SEPARATOR : rchar := 120%N.
Definition SIZE_FORM : rstr := lit "ROWSxCOLS such as 24x80".

(** The size of [rows] by [cols], or the two refused. *)
Definition try_new (rows cols : N) : result PtySize (N * N) :=
  if rows_ok rows && cols_ok cols then Ok {| rows := rows; cols := cols |} else Err (rows, cols).

(** Reads [ROWSxCOLS] as two counts. *)
Definition dimensions (raw : rstr) : result (N * N) ValueParseError :=
  match split_once SIZE_SEPARATOR (trim raw) with
  | Some (r, c) =>
    match parse_uint u16_max r, parse_uint u16_max c with
    | Some r, Some c => Ok (r, c)
    | _, _ => Err {| expected := SIZE_FORM; found := raw |}
    end
  | None => Err {| expected := SIZE_FORM; found := raw |}
  end.

Definition display (s : PtySize) : rstr := print_dec (rows s) ++ [SIZE_SEPARATOR] ++ print_dec (cols s).
End PtySizeOps.

(** ** Byte sizes *)
Definition UNITS : list (rstr * N) :=
  [(lit "EiB", 2 ^ 60); (lit "PiB", 2 ^ 50); (lit "TiB", 2 ^ 40);
   (lit "GiB", 2 ^ 30); (lit "MiB", 2 ^ 20); (lit "KiB", 2 ^ 10)]%N.
Definition BYTES_UNIT : rstr := lit "B".

(** The unit a size is shown in: the largest that divides it. *)
Definition unit_of (bytes : N) : rstr * N :=
  match list_find (λ u : rstr * N, (bytes mod u.2 = 0)%N) UNITS with
  | Some (_, u) => u
  | None => (BYTES_UNIT, 1%N)
  end.

Definition byte_size_display (bytes : N) : rstr :=
  let '(unit, per) := unit_of bytes in print_dec (bytes / per) ++ unit.

Definition MIN_LOG_MAX_BYTES : N := (16 * 2 ^ 10)%N.
Definition MAX_LOG_MAX_BYTES : N := (2 ^ 30)%N.

(** The check of [LogMaxSize]. *)
Definition is_log_size (bytes : N) : bool :=
  (MIN_LOG_MAX_BYTES <=? bytes)%N && (bytes <=? MAX_LOG_MAX_BYTES)%N.

(** * Laws *)

Lemma trimmed_print prefix n :
  is_whitespace prefix = false → trimmed is_whitespace (prefix :: print_dec n).
Proof.
  intros. change (prefix :: print_dec n) with (prefix :: [] ++ print_dec n).
  apply trimmed_digits_tail; auto using print_dec_nonempty, print_dec_digits.
Qed.

(** Splitting at a character and putting the parts back. *)
Lemma break_at_Some d s a b : LocalUrl.break_at d s = Some (a, b) → s = a ++ b ∧ d ∉ a ∧ ∃ k, b = d :: k.
Proof.
  revert a b. induction s as [|c s IH]; simpl; intros a b; [done|].
  destruct (N.eqb_spec c d).
  - intros [= <- <-]. subst. split; [done|]. split; [set_solver|by eexists].
  - destruct (LocalUrl.break_at d s) as [[a' b']|]; intros [= <- <-].
    destruct (IH a' b') as (-> & ? & ?); [done|]. split; [done|]. split; [set_solver|done].
Qed.

Lemma break_at_None d s : LocalUrl.break_at d s = None → d ∉ s.
Proof.
  induction s as [|c s IH]; simpl; [set_solver|]. destruct (N.eqb_spec c d); [done|].
  destruct (LocalUrl.break_at d s) as [[]|]; [done|]. set_solver.
Qed.

Lemma break_after_Some d s a b : LocalUrl.break_after d s = Some (a, b) → s = a ++ b.
Proof.
  unfold LocalUrl.break_after. destruct (LocalUrl.break_at d s) as [[a' [|c b']]|] eqn:E; [done| |done].
  intros [= <- <-]. apply break_at_Some in E as (-> & _). by rewrite <- app_assoc.
Qed.

Lemma authority_of_spec s :
  ∃ rest, s = LocalUrl.authority_of s ++ rest ∧
    Forall (λ c, LocalUrl.is_authority_end c = false) (LocalUrl.authority_of s) ∧
    match rest with [] => True | c :: _ => LocalUrl.is_authority_end c = true end.
Proof.
  induction s as [|c s (rest & IH1 & IH2 & IH3)]; simpl; [by exists []|].
  destruct (LocalUrl.is_authority_end c) eqn:E; simpl.
  - exists (c :: s). by split_and!.
  - exists rest. split_and!; [by f_equal|by constructor|done].
Qed.

Lemma host_and_port_Some url host port :
  LocalUrl.host_and_port url = Some (host, port) →
  ∃ scheme rest, url = scheme ++ (host ++ port) ++ rest ∧
    eq_ignore_ascii_case scheme LocalUrl.HTTP_SCHEME = true ∧
    LocalUrl.USERINFO_MARK ∉ host ++ port ∧
    Forall (λ c, LocalUrl.is_authority_end c = false) (host ++ port) ∧
    match rest with [] => True | c :: _ => LocalUrl.is_authority_end c = true end.
Proof.
  unfold LocalUrl.host_and_port. case_match eqn:Es; [|done].
  apply andb_true_iff in Es as [_ Es]. cbv zeta.
  destruct (authority_of_spec (drop (length LocalUrl.HTTP_SCHEME) url)) as (rest & Hr & Hf & He).
  set (auth := LocalUrl.authority_of _) in *.
  destruct (contains_char _ auth) eqn:Eu; [done|]. intros Hhp.
  assert (auth = host ++ port) as Ha.
  { destruct (starts_with _ auth); [by eapply break_after_Some|].
    destruct (LocalUrl.break_at _ auth) as [[h p]|] eqn:Eb.
    - simplify_eq. by apply break_at_Some in Eb as (-> & _).
    - simplify_eq. by rewrite app_nil_r. }
  exists (take (length LocalUrl.HTTP_SCHEME) url), rest.
  rewrite <- Ha. split_and!; try done.
  - by rewrite <- Hr, take_drop.
  - intros Hin. unfold contains_char in Eu. rewrite existsb_false, Forall_forall in Eu.
    specialize (Eu _ Hin). by rewrite N.eqb_refl in Eu.
Qed.

Lemma hex_digit_ascii n : (n < 16)%N → (48 <= hex_digit n <= 102)%N.
Proof. unfold hex_digit. case_match eqn:E; [apply N.ltb_lt in E|apply N.ltb_ge in E]; lia. Qed.

Lemma hex_digits_ascii fuel n acc :
  Forall (λ c, 48 <= c <= 102)%N acc → Forall (λ c, 48 <= c <= 102)%N (hex_digits fuel n acc).
Proof.
  revert n acc. induction fuel as [|fuel IH]; intros n acc Ha; simpl; [done|].
  assert (Forall (λ c, 48 <= c <= 102)%N (hex_digit (n mod 16) :: acc)).
  { constructor; [|done]. apply hex_digit_ascii, N.mod_lt. lia. }
  case_match; auto.
Qed.

Ltac all_ascii := simpl; repeat (apply Forall_cons_2; [lia|]); try apply Forall_nil_2.

Lemma escape_default_ascii c : Forall (λ c, 32 <= c <= 126)%N (escape_default c).
Proof.
  unfold escape_default.
  destruct (c =? 9)%N; [all_ascii|].
  destruct (c =? 13)%N; [all_ascii|].
  destruct (c =? 10)%N; [all_ascii|].
  destruct (N.eqb_spec c 39), (N.eqb_spec c 34), (N.eqb_spec c 92); cbn [orb]; try by all_ascii.
  destruct (N.leb_spec 32 c), (N.leb_spec c 126); cbn [andb]; [by all_ascii|..].
  all: apply Forall_app; split; [all_ascii|]; apply Forall_app; split; [|all_ascii].
  all: eapply Forall_impl; [apply hex_digits_ascii; constructor|simpl; lia].
Qed.

Lemma steers_ascii (is_format : rchar → bool) c :
  (∀ c, (32 <= c <= 126)%N → is_format c = false) →
  (32 <= c <= 126)%N → steers_the_terminal is_format c = false.
Proof.
  intros Hf Hc. unfold steers_the_terminal, is_control. rewrite Hf by done.
  destruct (N.leb_spec c 31), (N.leb_spec 127 c); simpl; lia || done.
Qed.

(** Every key a chord may end in. *)
Definition detach_keys : rstr :=
  filter (λ k, k ∉ DetachKey.RESERVED_KEYS) (lit "abcdefghijklmnopqrstuvwxyz\]").

Lemma chord_key_Some chord k :
  DetachKey.chord_key chord = Some k → chord = DetachKey.CTRL_PREFIX ++ [k] ∧ k ∈ detach_keys.
Proof.
  unfold DetachKey.chord_key.
  destruct (strip_prefix _ chord) as [[|key [|]]|] eqn:E; try done.
  apply strip_prefix_Some in E. case_match eqn:Hk; [|done]. intros [= <-]. split; [done|].
  unfold detach_keys. rewrite list_elem_of_filter.
  change (lit _) with ((N.of_nat <$> seq 97 26) ++ DetachKey.DETACH_PUNCTUATION). rewrite elem_of_app.
  apply orb_true_iff in Hk as [Hk|Hk]; [|apply bool_decide_eq_true in Hk].
  - apply andb_true_iff in Hk as [Hl Hr]. apply bool_decide_eq_true in Hr. split; [done|].
    unfold is_ascii_lowercase in Hl. apply andb_true_iff in Hl as [?%N.leb_le ?%N.leb_le].
    left. apply list_elem_of_fmap. exists (N.to_nat key). rewrite elem_of_seq. lia.
  - split; [|by right]. apply (bool_decide_unpack _). clear E.
    unfold DetachKey.DETACH_PUNCTUATION in Hk. set_unfold in Hk. by destruct Hk as [->|[->|[]]].
Qed.

Lemma detach_keys_bytes :
  forallb (λ k,
    let b := N.land (k mod 256) DetachKey.LEGACY_CONTROL_MASK in
    (1 <=? b)%N && (b <=? 31)%N && bool_decide (b ∉ [3; 8; 9; 10; 13; 27]%N) &&
    forallb (λ k', negb (b =? N.land (k' mod 256) DetachKey.LEGACY_CONTROL_MASK)%N || (k =? k')%N) detach_keys)
    detach_keys = true.
Proof. vm_compute. done. Qed.

Lemma detach_try_new lowercase raw chord :
  DetachKey.try_new lowercase raw = Some chord →
  chord = DetachKey.CTRL_PREFIX ++ [DetachKey.key chord] ∧ DetachKey.key chord ∈ detach_keys.
Proof.
  unfold DetachKey.try_new, DetachKey.is_detach_chord, DetachKey.key.
  destruct (DetachKey.chord_key (lowercase (trim raw))) as [k|] eqn:E; [|done]. intros [= <-].
  rewrite E. by apply chord_key_Some in E.
Qed.

Lemma port_number_Some suffix n :
  LocalUrl.port_number suffix = Some n →
  (n <= u16_max)%N ∧ ∃ digits, suffix = LocalUrl.PORT_SEPARATOR :: digits ∧
    Forall (λ c, is_ascii_digit c = true) digits ∧ parse_uint u16_max digits = Some n.
Proof.
  unfold LocalUrl.port_number. destruct (strip_prefix _ suffix) as [digits|] eqn:E; [|done].
  apply strip_prefix_Some in E. destruct (forallb is_ascii_digit digits) eqn:Ed; [|done]. intros Hp.
  apply forallb_Forall in Ed. split; [by eapply parse_uint_bound|]. by exists digits.
Qed.

(** A URL the constructor accepts is [http://], a host that is
    [localhost], [127.0.0.1] or [[::1]] up to ASCII case, an optional port of
    decimal digits and a rest that starts with [/], [?] or [#]; its authority
    holds no [@], the whole holds no whitespace, control character or
    backslash, and when a port is written it is between 1 and 65535 and is the
    one [port] reports. *)
Theorem local_url_loopback raw url :
  LocalUrl.try_new raw = Some url →
  url = trim raw ∧
  Forall (λ c, is_whitespace c = false ∧ is_control c = false ∧ c ≠ LocalUrl.BACKSLASH) url ∧
  ∃ scheme host port rest,
    url = scheme ++ (host ++ port) ++ rest ∧
    eq_ignore_ascii_case scheme LocalUrl.HTTP_SCHEME = true ∧
    (∃ h, h ∈ LocalUrl.LOOPBACK_HOSTS ∧ eq_ignore_ascii_case host h = true) ∧
    LocalUrl.USERINFO_MARK ∉ host ++ port ∧
    match rest with [] => True | c :: _ => LocalUrl.is_authority_end c = true end ∧
    (port = [] ∧ LocalUrl.port url = None ∨
     ∃ digits n, port = LocalUrl.PORT_SEPARATOR :: digits ∧ parse_uint u16_max digits = Some n ∧
       (1 <= n <= 65535)%N ∧ LocalUrl.port url = Some n).
Proof.
  unfold LocalUrl.try_new. destruct (LocalUrl.is_loopback_url (trim raw)) eqn:E; [|done].
  intros [= <-]. split; [done|]. unfold LocalUrl.is_loopback_url in E.
  match type of E with context [existsb ?f (trim raw)] => destruct (existsb f (trim raw)) eqn:Ec end; [done|].
  split.
  { apply existsb_false in Ec. eapply Forall_impl; [exact Ec|]. intros c; cbv beta.
    rewrite !orb_false_iff, N.eqb_neq. tauto. }
  destruct (LocalUrl.host_and_port (trim raw)) as [[host port]|] eqn:Eh; [|done].
  apply andb_true_iff in E as [Ep Eloop]. apply existsb_true in Eloop as (h & Hh & Heq).
  destruct (host_and_port_Some _ _ _ Eh) as (scheme & rest & Hu & Hs & Hm & _ & Hr).
  exists scheme, host, port, rest. unfold LocalUrl.port. rewrite Eh. split_and!; try done.
  { by exists h. }
  apply orb_true_iff in Ep as [Ep|Ep].
  - apply bool_decide_eq_true in Ep as ->. by left.
  - right. destruct (LocalUrl.port_number port) as [n|] eqn:En; [|done].
    apply N.ltb_lt in Ep. destruct (port_number_Some _ _ En) as (Hn & digits & -> & _ & Hp).
    exists digits, n. unfold u16_max in Hn. split_and!; try done; try lia.
    unfold LocalPort.try_new; simpl. by rewrite (proj2 (N.ltb_lt 0 n)).
Qed.

Section printable_laws.
Context (is_format : rchar → bool).
Hypothesis ascii_not_format : ∀ c, (32 <= c <= 126)%N → is_format c = false.

Lemma printable_steers_none text :
  Forall (λ c, steers_the_terminal is_format c = false) (printable is_format text).
Proof.
  unfold printable. destruct (existsb (steers_the_terminal is_format) text) eqn:E; [|by apply existsb_false].
  cbn [negb]. clear E. induction text as [|c t IH]; [constructor|].
  cbn [map concat]. apply Forall_app. split; [|done].
  destruct (steers_the_terminal is_format c) eqn:Ec; [|by constructor].
  eapply Forall_impl; [apply escape_default_ascii|]. intros d. by apply steers_ascii.
Qed.

(** Nothing printed through [printable] can steer the terminal: no
    character of the result is a control character other than tab or a format
    character; text that could not steer it is printed as it is, and printing
    twice escapes nothing twice. Of the general categories it needs only that
    no printable ASCII character is a Format character. *)
Theorem printable_never_steers text :
  Forall (λ c, steers_the_terminal is_format c = false) (printable is_format text) ∧
  (Forall (λ c, steers_the_terminal is_format c = false) text → printable is_format text = text) ∧
  printable is_format (printable is_format text) = printable is_format text.
Proof.
  assert (∀ t, Forall (λ c, steers_the_terminal is_format c = false) t → printable is_format t = t) as Hid.
  { intros t Ht. unfold printable. by rewrite (proj2 (existsb_false _ _) Ht). }
  split; [apply printable_steers_none|]. split; [apply Hid|apply Hid, printable_steers_none].
Qed.
End printable_laws.

(** A reference resolves to a name exactly when that name is the only one
    of the list with the reference's normal form, or is itself the reference;
    it is ambiguous exactly when several names have that form and none is the
    reference, and unknown exactly when none has it. *)
Theorem process_ref_resolves nfc self names :
  match resolve nfc self names with
  | Ok name =>
      name ∈ names ∧ nfc name = self ∧
      (name = self ∨ (∀ i j n m, names !! i = Some n → names !! j = Some m →
                        nfc n = self → nfc m = self → i = j))
  | Err (Ambiguous r several) =>
      r = self ∧ several = filter (λ n, nfc n = self) names ∧ 2 ≤ length several ∧ self ∉ several
  | Err (Unknown r) => r = self ∧ ∀ n, n ∈ names → nfc n ≠ self
  end.
Proof.
  unfold resolve. set (eqv := filter _ names).
  assert (∀ n, n ∈ eqv ↔ nfc n = self ∧ n ∈ names) as Hin by (intros; unfold eqv; by rewrite list_elem_of_filter).
  destruct (list_find _ eqv) as [[i exact]|] eqn:Ef.
  - apply list_find_Some in Ef as (Hl & -> & _). apply list_elem_of_lookup_2, Hin in Hl.
    naive_solver.
  - apply list_find_None in Ef. rewrite Forall_forall in Ef.
    destruct eqv as [|only [|m l]] eqn:Ee.
    + split; [done|]. intros n Hn Heq. apply (not_elem_of_nil n), Hin. done.
    + assert (only ∈ [only]) as Hon%Hin by set_solver. destruct Hon as [Ho Hn].
      split_and!; [done..|right]. intros i j n' m' Hi Hj Hn' Hm'.
      by eapply (filter_singleton_unique (λ n, nfc n = self)).
    + split_and!; [done..|simpl; lia|]. intros Hs. by eapply Ef.
Qed.

(** A detach chord the constructor accepts is [ctrl-] and a key; the
    control byte it sends is between 1 and 31, is none of ETX, BS, TAB, LF, CR
    or ESC, and determines the key: two chords that send the same byte are the
    same chord. *)
Theorem detach_chord_distinct lowercase raw chord :
  DetachKey.try_new lowercase raw = Some chord →
  chord = DetachKey.CTRL_PREFIX ++ [DetachKey.key chord] ∧
  (1 <= DetachKey.legacy_byte chord <= 31)%N ∧
  DetachKey.legacy_byte chord ∉ [3; 8; 9; 10; 13; 27]%N ∧
  ∀ raw' chord', DetachKey.try_new lowercase raw' = Some chord' →
    DetachKey.legacy_byte chord = DetachKey.legacy_byte chord' → chord = chord'.
Proof.
  intros H1. destruct (detach_try_new _ _ _ H1) as [Hc Hin]. split; [done|].
  pose proof detach_keys_bytes as Hall. rewrite forallb_Forall, Forall_forall in Hall.
  specialize (Hall _ Hin). cbv beta zeta in Hall. fold (DetachKey.legacy_byte chord) in Hall.
  rewrite !andb_true_iff, N.leb_le, N.leb_le, bool_decide_eq_true in Hall.
  destruct Hall as [[[? ?] ?] Hd]. split_and!; [done..|].
  intros raw' chord' Hnew He. destruct (detach_try_new _ _ _ Hnew) as [Hc' Hin'].
  rewrite forallb_Forall, Forall_forall in Hd. specialize (Hd _ Hin'). cbv beta in Hd.
  fold (DetachKey.legacy_byte chord') in Hd. rewrite He, N.eqb_refl in Hd.
  apply N.eqb_eq in Hd. rewrite Hc, Hc'. by rewrite Hd.
Qed.

Lemma trimmed_lead_print a m n :
  is_whitespace a = false → trim (a :: m ++ print_dec n) = a :: m ++ print_dec n.
Proof.
  intros. apply trim_id. apply trimmed_digits_tail; auto using print_dec_nonempty, print_dec_digits.
Qed.

Lemma trim_print_sep n d m : trim (print_dec n ++ d :: print_dec m) = print_dec n ++ d :: print_dec m.
Proof.
  pose proof (print_dec_digits n) as Hd. pose proof (print_dec_nonempty n) as Hne.
  destruct (print_dec n) as [|a s]; [done|]. inversion Hd; subst.
  change ((a :: s) ++ d :: print_dec m) with (a :: s ++ [d] ++ print_dec m).
  rewrite app_assoc. apply trimmed_lead_print. by apply is_ascii_digit_not_whitespace.
Qed.

Lemma cursor_round_trip n :
  (n <= u64_max)%N → OutputCursor.from_str (OutputCursor.display n) = Ok n.
Proof.
  intros Hn. unfold OutputCursor.from_str, OutputCursor.display.
  assert (trim (OutputCursor.CURSOR_PREFIX ++ print_dec n) = OutputCursor.CURSOR_PREFIX ++ print_dec n) as ->.
  { apply (trimmed_lead_print 111%N [58%N]). done. }
  rewrite strip_prefix_app, (proj2 (forallb_Forall _ _) (print_dec_digits n)), parse_print_dec by done.
  done.
Qed.

Lemma pty_size_round_trip s :
  rows_ok (rows s) && cols_ok (cols s) = true →
  PtySizeOps.dimensions (PtySizeOps.display s) = Ok (rows s, cols s).
Proof.
  destruct s as [r c]; simpl. intros Hok. unfold PtySizeOps.dimensions, PtySizeOps.display; simpl.
  rewrite trim_print_sep, split_once_app by (eapply digits_not_elem, print_dec_digits; done).
  apply andb_true_iff in Hok as [Hr Hc]. unfold rows_ok, cols_ok, MAX_ROWS, MAX_COLS in *.
  apply andb_true_iff in Hr as [_ ?%N.leb_le]. apply andb_true_iff in Hc as [_ ?%N.leb_le].
  rewrite !parse_print_dec by (unfold u16_max; lia). done.
Qed.

(** The text forms read back: an output cursor up to the largest offset
    and a terminal size within its bounds print to text that reads as the same
    value; and whatever text reads as a cursor is, trimmed, [o:] followed by
    the decimal digits of that offset. *)
Theorem text_forms_round_trip n s raw m :
  (n <= u64_max)%N → rows_ok (rows s) && cols_ok (cols s) = true →
  OutputCursor.from_str raw = Ok m →
  OutputCursor.from_str (OutputCursor.display n) = Ok n ∧
  (∃ d, PtySizeOps.dimensions (PtySizeOps.display s) = Ok d ∧ PtySizeOps.try_new d.1 d.2 = Ok s) ∧
  (m <= u64_max)%N ∧
  ∃ digits, trim raw = OutputCursor.CURSOR_PREFIX ++ digits ∧
    Forall (λ c, is_ascii_digit c = true) digits ∧ parse_uint u64_max digits = Some m.
Proof.
  intros Hn Hs Hm. split_and!; [by apply cursor_round_trip| |..].
  { eexists. split; [by apply pty_size_round_trip|]. cbn [fst snd]. unfold PtySizeOps.try_new. rewrite Hs. by destruct s. }
  all: unfold OutputCursor.from_str in Hm;
    destruct (strip_prefix _ (trim raw)) as [digits|] eqn:E; [|done];
    destruct (forallb is_ascii_digit digits) eqn:Ed; [|done];
    destruct (parse_uint u64_max digits) eqn:Ep; [|done]; simplify_eq.
  - by eapply parse_uint_bound.
  - exists digits. apply strip_prefix_Some in E. by apply forallb_Forall in Ed.
Qed.

(** A byte size is shown exactly: the text is the decimal count of some
    unit followed by its name, the count times the unit is the size, and no
    larger unit divides it. *)
Theorem byte_size_display_exact bytes :
  ∃ count name per,
    byte_size_display bytes = print_dec count ++ name ∧ (count * per = bytes)%N ∧
    ((name, per) ∈ UNITS ∨ (name, per) = (BYTES_UNIT, 1%N)) ∧
    ∀ name' per', (name', per') ∈ UNITS → (per < per')%N → (bytes mod per' ≠ 0)%N.
Proof.
  unfold byte_size_display, unit_of.
  destruct (list_find _ UNITS) as [[i [name per]]|] eqn:E.
  - apply list_find_Some in E as (Hl & Hm & Hmin). simpl in Hm.
    exists (bytes / per)%N, name, per. split_and!; [done| | |].
    + rewrite N.mul_comm. symmetry. by apply N.Div0.div_exact.
    + left. by eapply list_elem_of_lookup_2.
    + intros name' per' [j Hj]%list_elem_of_lookup Hlt.
      apply (Hmin j (name', per')); [done|].
      clear Hmin. do 6 (destruct i as [|i]; [do 6 (destruct j as [|j]; [simplify_eq/=; lia|]); done|]). done.
  - apply list_find_None in E. exists bytes, BYTES_UNIT, 1%N. rewrite N.div_1_r. split_and!; [done|lia|by right|].
    intros name' per' Hin _. rewrite Forall_forall in E. by apply (E _ Hin).
Qed.

Module Witness.

Lemma local_url_loopback_witness :
  LocalUrl.try_new (lit " http://LocalHost:8080/app ") = Some (lit "http://LocalHost:8080/app") ∧
  LocalUrl.try_new (lit "http://localhost@evil.test/") = None ∧
  LocalUrl.try_new (lit "http://localhost.evil.test/") = None ∧
  lit "http://LocalHost:8080/app" = trim (lit " http://LocalHost:8080/app ").
Proof.
  split; [by vm_compute|]. split; [by vm_compute|]. split; [by vm_compute|].
  apply (local_url_loopback (lit " http://LocalHost:8080/app ")). by vm_compute.
Defined.

(** Zero width space and the directional overrides, among others. *)
Definition some_formats (c : rchar) : bool := (0x200b <=? c)%N && (c <=? 0x202e)%N.

Lemma printable_never_steers_witness :
  printable some_formats [104; 27; 0x202e]%N = lit "h\u{1b}\u{202e}" ∧
  printable some_formats (printable some_formats [104; 27; 0x202e]%N) = printable some_formats [104; 27; 0x202e]%N.
Proof.
  split; [by vm_compute|].
  apply (printable_never_steers some_formats).
  intros c Hc. unfold some_formats. apply andb_false_iff. left. apply N.leb_gt. lia.
Defined.

Lemma detach_chord_distinct_witness :
  DetachKey.try_new (map to_ascii_lowercase) (lit "Ctrl-\") = Some (lit "ctrl-\") ∧
  DetachKey.legacy_byte (lit "ctrl-\") = 28%N ∧ (1 <= DetachKey.legacy_byte (lit "ctrl-\") <= 31)%N.
Proof.
  split; [by vm_compute|]. split; [by vm_compute|].
  apply (detach_chord_distinct (map to_ascii_lowercase) (lit "Ctrl-\")). by vm_compute.
Defined.

Lemma text_forms_round_trip_witness :
  OutputCursor.from_str (lit " o:18234") = Ok 18234%N ∧
  OutputCursor.from_str (OutputCursor.display 18234) = Ok 18234%N.
Proof.
  split; [by vm_compute|].
  apply (text_forms_round_trip 18234 {| rows := 24; cols := 80 |} (lit " o:18234") 18234).
  - done.
  - by vm_compute.
  - by vm_compute.
Defined.

End Witness.
