(* ===== verification/Coordination.v ===== *)
(** * Coordination between agents

    Models muster-domain/src/coordination: who writes ([Author], [AgentId]),
    the todos agents share with their leases, locks, and pages of entries.
    Identifiers and texts are lists of Unicode scalar values; a random
    identity comes from a UUID generator outside the repository and is an
    argument of the definition that uses it. *)
From S2P Require Import Prelude RustText Values.

(** ** Authors *)
Definition HUMAN_LABEL : rstr := lit "human".
Definition DEFAULT_AGENT_LABEL : rstr := lit "agent".

Inductive Author :=
| Human
| Agent (name : rstr).

#[export] Instance Author_eq_dec : EqDecision Author.
Proof. solve_decision. Defined.

(** A named agent; a blank name or the human label falls back. *)
Definition agent (name : rstr) : Author :=
  let trimmed := trim name in
  if bool_decide (trimmed = []) || eq_ignore_ascii_case trimmed HUMAN_LABEL
  then Agent DEFAULT_AGENT_LABEL else Agent trimmed.

Definition is_human (a : Author) : bool := match a with Human => true | Agent _ => false end.

Inductive BlankAuthor := blank_author.

(** The author a stored or imported label names. *)
Definition from_label (label : rstr) : result Author BlankAuthor :=
  let trimmed := trim label in
  if bool_decide (trimmed = []) then Err blank_author
  else if eq_ignore_ascii_case trimmed HUMAN_LABEL then Ok Human
  else Ok (agent trimmed).

(** The flat label stored on disk. *)
Definition label (a : Author) : rstr :=
  match a with Human => HUMAN_LABEL | Agent name => name end.

(** ** Agent identities *)
Module AgentId.

Definition MUSTER_AGENT_ENV : rstr := lit "MUSTER_AGENT".
Definition HERDR_PANE_ENV : rstr := lit "HERDR_PANE_ID".
Definition HERDR_PANE_PREFIX : rstr := lit "herdr-pane-".
Definition SESSION_PREFIX : rstr := lit "session-".
Definition SESSION_HEX_DIGITS : nat := 6.
Definition CLIENT_SEPARATOR : rchar := 64%N.
Definition SLUG_FILL : rchar := 45%N.
Definition PART_MAX_CHARS : nat := 64.
Definition PART_PUNCTUATION : list rchar := [46; 95; 45; 58]%N.

Definition is_part_char (c : rchar) : bool :=
  is_ascii_alphanumeric c || bool_decide (c ∈ PART_PUNCTUATION).

(** A raw name reduced to an identity part. *)
Definition slug (raw : rstr) : option rstr :=
  let filled := map (λ c, if is_part_char c then c else SLUG_FILL) (take PART_MAX_CHARS (trim raw)) in
  let part := trim_matches (N.eqb SLUG_FILL) filled in
  if negb (bool_decide (part = [])) && negb (eq_ignore_ascii_case part HUMAN_LABEL)
  then Some part else None.

(** The random identity, from the hexadecimal text of a fresh UUID. *)
Definition session_id (hex : rstr) : rstr := SESSION_PREFIX ++ take SESSION_HEX_DIGITS hex.

(** [Option::or_else]. *)
Definition or_else {A} (o k : option A) : option A := match o with Some a => Some a | None => k end.

(** A connection's identity: the flag, the variable, the pane, then the random
    one, behind the client's name when it slugs to something. *)
Definition resolve (hex : rstr) (flag : option rstr) (env : rstr → option rstr) (client : option rstr) : rstr :=
  let herdr := (λ pane, HERDR_PANE_PREFIX ++ pane) <$> (env HERDR_PANE_ENV ≫= slug) in
  let id := default (session_id hex)
              (or_else (flag ≫= slug) (or_else (env MUSTER_AGENT_ENV ≫= slug) herdr)) in
  match client ≫= slug with
  | Some client => client ++ [CLIENT_SEPARATOR] ++ id
  | None => id
  end.

(** The author an identity writes as. *)
Definition author (self : rstr) : Author := agent self.

End AgentId.

(** ** Texts that name things *)

(** [sanitize(trim), validate(not_empty, len_char_max = max)]. *)
Definition bounded_name (max : nat) (raw : rstr) : option rstr :=
  let s := trim raw in
  if negb (bool_decide (s = [])) && (length s <=? max) then Some s else None.

Definition TODO_ID_MAX_CHARS : nat := 64.
Definition KV_KEY_MAX_CHARS : nat := 128.
Definition NOTE_KEY_MAX_CHARS : nat := 128.
Definition LOCK_NAME_MAX_CHARS : nat := 64.
Definition LOCK_NOTE_MAX_CHARS : nat := 200.
Definition TODO_TITLE_MAX_CHARS : nat := 500.
Definition TODO_DEPS_MAX : nat := 32.

Definition todo_id_try_new : rstr → option rstr := bounded_name TODO_ID_MAX_CHARS.
Definition kv_key_try_new : rstr → option rstr := bounded_name KV_KEY_MAX_CHARS.
Definition scratchpad_key_try_new : rstr → option rstr := bounded_name NOTE_KEY_MAX_CHARS.

(** [TodoTitle]: trimmed and not empty, whatever its length. *)
Definition todo_title_try_new (raw : rstr) : option rstr :=
  let s := trim raw in if bool_decide (s = []) then None else Some s.

Inductive NewTodoTitleError := Blank | TooLong.

(** A title being written, bounded. *)
Definition new_todo_title (raw : rstr) : result rstr NewTodoTitleError :=
  let? title := ok_or (todo_title_try_new raw) Blank in
  if TODO_TITLE_MAX_CHARS <? length title then Err TooLong else Ok title.

Definition deps_bounded (deps : list rstr) : bool := length deps <=? TODO_DEPS_MAX.

Definition is_lock_name (name : rstr) : bool :=
  forallb (λ c, is_ascii_lowercase c || is_ascii_digit c || bool_decide (c ∈ [46; 95; 45]%N)) name.
Definition lock_name_try_new (raw : rstr) : option rstr :=
  bounded_name LOCK_NAME_MAX_CHARS raw ≫= λ s, if is_lock_name s then Some s else None.

Definition is_one_line (note : rstr) : bool := negb (existsb is_control note).
Definition lock_note_try_new (raw : rstr) : option rstr :=
  bounded_name LOCK_NOTE_MAX_CHARS raw ≫= λ s, if is_one_line s then Some s else None.

(** ** Leases *)
Definition TODO_LEASE_DEFAULT : duration := from_secs (30 * 60).
Definition TODO_LEASE_MAX : duration := from_secs (8 * 60 * 60).
Definition is_lease (lease : duration) : bool :=
  (1 <=? as_secs lease)%N && (as_secs lease <=? as_secs TODO_LEASE_MAX)%N.

Definition LOCK_TTL_DEFAULT : duration := from_secs (5 * 60).
Definition LOCK_TTL_MAX : duration := from_secs (60 * 60).
Definition is_lock_ttl (ttl : duration) : bool :=
  (1 <=? as_secs ttl)%N && (as_secs ttl <=? as_secs LOCK_TTL_MAX)%N.

(** ** Todos *)
Inductive TodoStatus := Pending | InProgress | Done.

#[export] Instance TodoStatus_eq_dec : EqDecision TodoStatus.
Proof. solve_decision. Defined.

Record TodoClaim := { claim_owner : Author; claimed_until : N }.

#[export] Instance TodoClaim_eq_dec : EqDecision TodoClaim.
Proof. solve_decision. Defined.

Definition fresh_claim (owner : Author) (lease : duration) (now : N) : TodoClaim :=
  {| claim_owner := owner; claimed_until := EpochSeconds.after now lease |}.

Definition claim_is_live (c : TodoClaim) (now : N) : bool := (now <=? claimed_until c)%N.
Definition claim_expires_in (c : TodoClaim) (now : N) : duration := EpochSeconds.until now (claimed_until c).

Record Todo := {
  todo_id : rstr;
  todo_title : rstr;
  todo_status : TodoStatus;
  todo_deps : list rstr;
  todo_claim : option TodoClaim;
  todo_author : Author;
  todo_updated_at : N;
}.

Inductive ClaimState :=
| Unclaimed
| Held (owner : Author) (expires_in : duration)
| Stale (owner : Author).

Inductive Claim :=
| Claimed (todo : Todo)
| HeldBy (owner : Author) (expires_in : duration)
| Unavailable (todo : Todo)
| NothingClaimable
| Missing.

Record TodoChange := {
  change_title : option rstr;
  change_status : option TodoStatus;
  change_force : bool;
}.

Inductive TodoUpdate :=
| Updated (todo : Todo)
| UpdateHeldBy (owner : Author) (expires_in : duration)
| UpdateMissing.

(** Who holds the todo at [now]. *)
Definition claim_state (t : Todo) (now : N) : ClaimState :=
  match todo_claim t with
  | None => Unclaimed
  | Some c => if claim_is_live c now then Held (claim_owner c) (claim_expires_in c now)
              else Stale (claim_owner c)
  end.

(** The status agents read: a lapsed lease reads as pending. *)
Definition effective_status (t : Todo) (now : N) : TodoStatus :=
  match claim_state t now with
  | Stale _ => Pending
  | Unclaimed | Held _ _ => todo_status t
  end.

Definition is_claimable (t : Todo) (now : N) (is_done : rstr → option bool) : bool :=
  bool_decide (effective_status t now = Pending) &&
  forallb (λ dep, default true (is_done dep)) (todo_deps t).

(** The claim a change leaves, the todo's own claim filtered to [me]'s live
    one first. *)
Definition changed_claim (t : Todo) (me : Author) (change : TodoChange) (now : N)
    (taken_over : bool) (status : TodoStatus) : option TodoClaim :=
  let mine := match todo_claim t with
              | Some c => if bool_decide (claim_owner c = me) && claim_is_live c now then Some c else None
              | None => None
              end in
  match status with
  | InProgress =>
    match mine with
    | Some c => Some c
    | None =>
      if taken_over || bool_decide (change_status change = Some InProgress)
      then Some (fresh_claim me TODO_LEASE_DEFAULT now)
      else todo_claim t
    end
  | Pending | Done => None
  end.

(** The todo with [change] applied by [me] at [now], or who holds it. *)
Definition changed (t : Todo) (me : Author) (change : TodoChange) (now : N) : TodoUpdate :=
  let apply taken_over :=
    let status := default (todo_status t) (change_status change) in
    Updated {| todo_id := todo_id t;
               todo_title := default (todo_title t) (change_title change);
               todo_status := status;
               todo_deps := todo_deps t;
               todo_claim := changed_claim t me change now taken_over status;
               todo_author := me;
               todo_updated_at := now |} in
  match claim_state t now with
  | Held owner expires_in =>
    if bool_decide (owner ≠ me)
    then if negb (change_force change) then UpdateHeldBy owner expires_in else apply true
    else apply false
  | Unclaimed | Stale _ => apply false
  end.

(** The done flags by id; a later todo of the same id wins. *)
Definition done_map (todos : list Todo) : gmap rstr bool :=
  foldl (λ m t, <[todo_id t := bool_decide (todo_status t = Done)]> m) ∅ todos.

(** The todos an agent can claim at [now], oldest first. *)
Definition claimable (todos : list Todo) (now : N) : list Todo :=
  let done := done_map todos in
  filter (λ t, is_claimable t now (λ id, done !! id) = true) todos.

(** ** Locks *)
Record Lock := {
  lock_name : rstr;
  lock_owner : Author;
  lock_note : option rstr;
  lock_expires_at : N;
}.

Definition lock_is_live (l : Lock) (now : N) : bool := (now <=? lock_expires_at l)%N.
Definition lock_expires_in (l : Lock) (now : N) : duration := EpochSeconds.until now (lock_expires_at l).

Definition LOCKS_PER_SESSION_MAX : nat := 32.
Record LockHolder := { holder_author : Author; holder_session : rstr }.

#[export] Instance LockHolder_eq_dec : EqDecision LockHolder.
Proof. solve_decision. Defined.

Inductive LockAttempt :=
| Acquired (expires_in : duration)
| AttemptHeldBy (owner : Author) (note : option rstr) (expires_in : duration)
| SessionEnded.

Inductive LockRelease :=
| Released
| ReleaseHeldBy (owner : Author)
| NotHeld.

(** ** Pages of entries *)
Record EntryPage (T : Type) := { page_entries : list T; page_next : option Z }.
Arguments page_entries {T}. Arguments page_next {T}.

(** The first [limit] of [rows], read one past the limit. *)
Definition page_of {T} (rows : list (Z * T)) (limit : nat) : EntryPage T :=
  let more := limit <? length rows in
  let rows := take limit rows in
  {| page_entries := rows.*2;
     page_next := if more then fst <$> last rows else None |}.

(** * Laws *)

(** An author the constructors make: its label is trimmed, not blank and not
    the human's unless it is the human. *)
Definition author_ok (a : Author) : Prop :=
  match a with
  | Human => True
  | Agent name => trim name = name ∧ name ≠ [] ∧ eq_ignore_ascii_case name HUMAN_LABEL = false
  end.

Lemma agent_ok name : author_ok (agent name).
Proof.
  unfold agent. case_bool_decide as Hb; simpl; [by vm_compute|].
  destruct (eq_ignore_ascii_case _ _) eqn:E; simpl; [by vm_compute|]. by rewrite trim_idemp.
Qed.

Lemma agent_id name :
  trim name = name → name ≠ [] → eq_ignore_ascii_case name HUMAN_LABEL = false → agent name = Agent name.
Proof. intros Ht Hn He. unfold agent. by rewrite Ht, He, bool_decide_false by done. Qed.

Lemma from_label_label a : author_ok a → from_label (label a) = Ok a.
Proof.
  destruct a as [|name]; [by vm_compute|]. intros (Ht & Hn & He). unfold from_label; simpl.
  rewrite Ht, He, bool_decide_false by done. by rewrite agent_id.
Qed.

Lemma from_label_ok l a : from_label l = Ok a → author_ok a.
Proof.
  unfold from_label. destruct (bool_decide _); [done|].
  destruct (eq_ignore_ascii_case _ _); intros [= <-]; [done|apply agent_ok].
Qed.

Lemma label_inj a b : author_ok a → author_ok b → label a = label b → a = b.
Proof.
  intros Ha%from_label_label Hb%from_label_label Hl. rewrite Hl in Ha. congruence.
Qed.

Section agent_id_laws.
Import AgentId.

Definition in_label (c : rchar) : Prop := is_part_char c = true.

Lemma part_char_not_whitespace c : is_part_char c = true → is_whitespace c = false.
Proof.
  unfold is_part_char, is_ascii_alphanumeric, is_ascii_digit, is_ascii_lowercase, is_ascii_uppercase, PART_PUNCTUATION.
  rewrite !orb_true_iff, !andb_true_iff, !N.leb_le, bool_decide_eq_true. intros Hc.
  assert (33 <= c <= 122)%N by (set_unfold in Hc; intuition (subst; lia)).
  clear Hc. unfold is_whitespace.
  repeat match goal with
  | |- context [(?a =? ?b)%N] => destruct (N.eqb_spec a b); [lia|]
  | |- context [(?a <=? ?b)%N] => destruct (N.leb_spec a b); try lia
  end; done.
Qed.

Lemma slug_Some raw part :
  slug raw = Some part →
  part ≠ [] ∧ length part ≤ PART_MAX_CHARS ∧ Forall in_label part ∧
  eq_ignore_ascii_case part HUMAN_LABEL = false.
Proof.
  unfold slug. set (filled := map _ _). case_match eqn:E; [|done]. intros [= <-].
  apply andb_true_iff in E as [Hne Hh]. apply negb_true_iff in Hne, Hh. apply bool_decide_eq_false in Hne.
  split_and!; [done| | |done].
  - etransitivity; [apply length_trim_matches|]. unfold filled. rewrite length_map, length_take. lia.
  - apply Forall_forall. intros c Hc%elem_of_trim_matches. unfold filled in Hc.
    rewrite list_elem_of_In in Hc. apply in_map_iff in Hc as (d & <- & _).
    unfold in_label. by destruct (is_part_char d) eqn:Ed.
Qed.

Lemma trim_of_no_whitespace (s : rstr) : Forall (λ c, is_whitespace c = false) s → trim s = s.
Proof.
  intros Hs. apply trim_id. unfold trimmed. split.
  - destruct s; [done|]. by inversion Hs.
  - case_match eqn:E; [done|]. rewrite Forall_forall in Hs. apply Hs.
    assert (n ∈ @reverse N s) as Hn by (rewrite E; apply list_elem_of_here). exact (proj1 (elem_of_reverse _ _) Hn).
Qed.

Lemma in_label_lit s : forallb is_part_char (lit s) = true → Forall in_label (lit s).
Proof. by rewrite forallb_Forall. Qed.

Lemma separator_not_human a b : eq_ignore_ascii_case (a ++ [CLIENT_SEPARATOR] ++ b) HUMAN_LABEL = false.
Proof.
  apply not_true_is_false. intros E.
  apply (eq_ignore_ascii_case_not_elem _ _ CLIENT_SEPARATOR) in E; [set_solver| |done|by apply (bool_decide_unpack _)].
  unfold CLIENT_SEPARATOR, to_ascii_lowercase, is_ascii_uppercase. intros d.
  destruct (N.leb_spec 65 d), (N.leb_spec d 90); simpl; lia.
Qed.

(** The identity behind the client's name: one of the four sources. *)
Lemma resolve_id_spec hex flag env :
  6 ≤ length hex → Forall (λ c, is_ascii_alphanumeric c = true) hex →
  let id := resolve hex flag env None in
  id ≠ [] ∧ length id ≤ 75 ∧ Forall in_label id ∧ eq_ignore_ascii_case id HUMAN_LABEL = false.
Proof.
  intros Hlen Hhex. unfold resolve, or_else; cbn [mbind option_bind].
  assert (∀ o s, o ≫= slug = Some s → ∃ raw, slug raw = Some s) as Hslug
    by (intros [r|] s Hs; [by exists r|done]).
  destruct (flag ≫= slug) as [s|] eqn:E1; [|destruct (env MUSTER_AGENT_ENV ≫= slug) as [s|] eqn:E2].
  1-2: cbn [from_option]; first [apply Hslug in E1 as [raw Hs] | apply Hslug in E2 as [raw Hs]];
    apply slug_Some in Hs as (?&?&?&?); unfold PART_MAX_CHARS in *; simpl; split_and!; try done; lia.
  destruct (env HERDR_PANE_ENV ≫= slug) as [s|] eqn:E3; cbn [fmap option_fmap option_map from_option].
  - apply Hslug in E3 as [raw Hs]. apply slug_Some in Hs as (?&?&?&?). unfold PART_MAX_CHARS in *. split_and!.
    + done.
    + simpl. lia.
    + apply (Forall_app _ HERDR_PANE_PREFIX). split; [by apply in_label_lit|done].
    + done.
  - unfold session_id. split_and!; [done| | |done].
    + simpl. unfold SESSION_HEX_DIGITS. rewrite length_take. lia.
    + apply (Forall_app _ SESSION_PREFIX). split; [by apply in_label_lit|]. apply Forall_take.
      eapply Forall_impl; [exact Hhex|]. intros c Hc. unfold in_label, is_part_char. by rewrite Hc.
Qed.

Lemma resolve_client hex flag env client :
  resolve hex flag env client =
  match client ≫= slug with
  | Some c => c ++ [CLIENT_SEPARATOR] ++ resolve hex flag env None
  | None => resolve hex flag env None
  end.
Proof. done. Qed.
End agent_id_laws.

(** Whatever names a connection gives, it writes as an agent, never as the
    human: its label is at most 140 characters of letters, digits, [._-:] and
    at most the one [@] after the client, and the author stored under that
    label is read back as the same agent. *)
Theorem agent_identity_never_human hex flag env client :
  6 ≤ length hex → Forall (λ c, is_ascii_alphanumeric c = true) hex →
  let id := AgentId.resolve hex flag env client in
  AgentId.author id = Agent id ∧
  from_label (label (AgentId.author id)) = Ok (AgentId.author id) ∧
  length id ≤ 140 ∧
  Forall (λ c, AgentId.is_part_char c = true ∨ c = AgentId.CLIENT_SEPARATOR) id.
Proof.
  intros Hlen Hhex id.
  pose proof (resolve_id_spec hex flag env Hlen Hhex) as Hid. cbv zeta in Hid.
  destruct Hid as (Hne & Hl & Hf & Hh).
  assert (id ≠ [] ∧ length id ≤ 140 ∧
    Forall (λ c, AgentId.is_part_char c = true ∨ c = AgentId.CLIENT_SEPARATOR) id ∧
    eq_ignore_ascii_case id HUMAN_LABEL = false) as (Hne' & Hl' & Hf' & Hh').
  { subst id. rewrite resolve_client. destruct (client ≫= AgentId.slug) as [c|] eqn:Ec.
    - assert (∃ raw, AgentId.slug raw = Some c) as [raw (?&?&Hc&_)%slug_Some]
        by (destruct client; [by eexists|done]).
      unfold AgentId.PART_MAX_CHARS in *. split_and!.
      + by destruct c.
      + rewrite !length_app. cbn [length]. lia.
      + rewrite !Forall_app, Forall_singleton. split_and!; [|by right|].
        all: eapply Forall_impl; [first [exact Hc|exact Hf]|]; by left.
      + by apply separator_not_human.
    - split_and!; try done; [lia|]. eapply Forall_impl; [exact Hf|]. by left. }
  assert (AgentId.author id = Agent id) as Ha.
  { apply agent_id; try done. apply trim_of_no_whitespace. eapply Forall_impl; [exact Hf'|].
    intros c [Hc| ->]; [by apply part_char_not_whitespace|done]. }
  split_and!; try done. apply from_label_label, agent_ok.
Qed.

Module Witness.

Lemma agent_identity_never_human_witness :
  AgentId.resolve (lit "0123456789ab") (Some (lit " Human ")) (λ _, None) (Some (lit "claude code")) =
    lit "claude-code@session-012345" ∧
  AgentId.author (AgentId.resolve (lit "0123456789ab") (Some (lit " Human ")) (λ _, None) (Some (lit "claude code"))) =
    Agent (lit "claude-code@session-012345").
Proof.
  split; [by vm_compute|].
  apply (agent_identity_never_human (lit "0123456789ab") (Some (lit " Human ")) (λ _, None) (Some (lit "claude code"))).
  - vm_compute. lia.
  - by apply forallb_Forall.
Defined.

End Witness.
