(* ===== verification/Store.v ===== *)
(** * The store's transactions and columns

    Models the parts of muster-store/src/sqlite_store.rs the row modules
    share: a write runs in one immediate transaction that commits when the work
    succeeds and rolls back otherwise, and a moment is stored as a signed
    64-bit count of seconds. Failures of SQLite itself are outside the model:
    a statement does what its SQL says. *)
From S2P Require Import Prelude RustText.

Definition i64_max : Z := 9223372036854775807.

(** The errors the modelled operations answer with. *)
Inductive StoreFailure :=
| CorruptRow (what : rstr)
| TooManyLocks
| LockVanished (name : rstr)
| ConstraintFailed.

(** Work on a connection: a result and what the statements left. *)
Definition tx (Db A : Type) : Type := Db → result A StoreFailure * Db.

(** [SqliteStore::write]: commits on success, rolls back otherwise. *)
Definition write {Db A} (work : tx Db A) : tx Db A :=
  λ db, match work db with
        | (Ok value, db') => (Ok value, db')
        | (Err e, _) => (Err e, db)
        end.

(** A moment as a seconds column holds it. *)
Definition epoch_param (at_ : N) : Z := if (Z.of_N at_ <=? i64_max)%Z then Z.of_N at_ else i64_max.

(** The moment a seconds column holds. *)
Definition epoch_from_secs (what : rstr) (secs : Z) : result N StoreFailure :=
  if (0 <=? secs)%Z then Ok (Z.to_N secs) else Err (CorruptRow what).

(** * Laws *)

Lemma epoch_param_range n : (0 <= epoch_param n <= i64_max)%Z.
Proof. unfold epoch_param. destruct (Z.leb_spec (Z.of_N n) i64_max); unfold i64_max in *; lia. Qed.

Lemma epoch_param_mono n m : (n <= m)%N → (epoch_param n <= epoch_param m)%Z.
Proof.
  unfold epoch_param. destruct (Z.leb_spec (Z.of_N n) i64_max), (Z.leb_spec (Z.of_N m) i64_max); lia.
Qed.

Lemma epoch_param_small n : (Z.of_N n <= i64_max)%Z → epoch_param n = Z.of_N n.
Proof. intros. unfold epoch_param. by rewrite (proj2 (Z.leb_le _ _)). Qed.

Lemma epoch_from_param what n : epoch_from_secs what (epoch_param n) = Ok (Z.to_N (epoch_param n)).
Proof. unfold epoch_from_secs. pose proof (epoch_param_range n). by rewrite (proj2 (Z.leb_le 0 _)) by lia. Qed.

Lemma write_Err {Db A} (work : tx Db A) db e db' : write work db = (Err e, db') → db' = db.
Proof. unfold write. destruct (work db) as [[]]; naive_solver. Qed.

(** A moment a column holds passed exactly when its text says so, as long as
    the clock itself fits the column. *)
Lemma epoch_param_le_iff now until :
  (Z.of_N now <= i64_max)%Z → (0 <= until)%Z → (epoch_param now <= until)%Z ↔ (now <= Z.to_N until)%N.
Proof. intros. rewrite epoch_param_small by done. lia. Qed.
