(* ===== verification/Locks.v ===== *)
(** * Project locks

    Models muster-store/src/lock_rows.rs: the [locks] and [ended_sessions]
    tables and the statements run on them. [locks] is keyed by project and
    name; a row keeps its columns as stored, so reading it back can fail. The
    operations take the moment the caller read from the clock. *)
From S2P Require Import Prelude RustText Values Coordination Store.

(** ** Rows *)
Record LockRow := {
  row_owner : rstr;
  row_session : rstr;
  row_note : option rstr;
  row_expires_at : Z;
}.

#[export] Instance LockRow_eq_dec : EqDecision LockRow.
Proof. solve_decision. Defined.

Record LockDb := {
  locks : gmap (Z * rstr) LockRow;
  ended_sessions : gmap rstr Z;
}.

Definition set_locks (db : LockDb) (l : gmap (Z * rstr) LockRow) : LockDb :=
  {| locks := l; ended_sessions := ended_sessions db |}.

(** The author a stored label names; a blank one is a corrupt row. *)
Definition author_from (l : rstr) : result Author StoreFailure :=
  match from_label l with Ok a => Ok a | Err _ => Err (CorruptRow (lit "author")) end.

(** Reads a row selected with its name. *)
Definition lock_from_row (name : rstr) (row : LockRow) : result Lock StoreFailure :=
  let? name := ok_or (lock_name_try_new name) (CorruptRow (lit "lock name")) in
  let? owner := author_from (row_owner row) in
  let? note := match row_note row with
               | None => Ok None
               | Some n => let? n := ok_or (lock_note_try_new n) (CorruptRow (lit "lock note")) in Ok (Some n)
               end in
  let? expires_at := epoch_from_secs (lit "lock expiry") (row_expires_at row) in
  Ok {| lock_name := name; lock_owner := owner; lock_note := note; lock_expires_at := expires_at |}.

(** [collect(...)?.pop()] of at most one row. *)
Definition read_row (name : rstr) (row : option LockRow) : result (option Lock) StoreFailure :=
  match row with
  | None => Ok None
  | Some r => let? l := lock_from_row name r in Ok (Some l)
  end.

(** ** Statements *)

(** The lock [name] of the project, live or expired. *)
Definition find (db : LockDb) (project : Z) (name : rstr) : result (option Lock) StoreFailure :=
  read_row name (locks db !! (project, name)).

(** [owner = :me AND session = :session]. *)
Definition is_mine (me : LockHolder) (r : LockRow) : bool :=
  bool_decide (row_owner r = label (holder_author me)) && bool_decide (row_session r = holder_session me).

(** The lock while someone other than [me]'s session holds it live. *)
Definition held_by_another (db : LockDb) (project : Z) (me : LockHolder) (name : rstr) (now : N)
    : result (option Lock) StoreFailure :=
  read_row name
    (match locks db !! (project, name) with
     | Some r => if (epoch_param now <=? row_expires_at r)%Z && negb (is_mine me r) then Some r else None
     | None => None
     end).

(** The answer that [holder] holds the lock. *)
Definition held_by (holder : Lock) (now : N) : LockAttempt :=
  AttemptHeldBy (lock_owner holder) (lock_note holder) (lock_expires_in holder now).

(** Whether the session already ended. *)
Definition has_ended (db : LockDb) (session : rstr) : bool :=
  bool_decide (is_Some (ended_sessions db !! session)).

(** Whether a row is a live lock of the session at [now]. *)
Definition live_of (session : rstr) (now : N) (r : LockRow) : Prop :=
  row_session r = session ∧ (epoch_param now <= row_expires_at r)%Z.
#[export] Instance live_of_dec session now r : Decision (live_of session now r).
Proof. unfold live_of. apply _. Defined.

(** How many live locks [me]'s session holds in any project, this one
    aside. *)
Definition other_live_locks (db : LockDb) (project : Z) (me : LockHolder) (name : rstr) (now : N) : nat :=
  size (filter (λ kr : (Z * rstr) * LockRow,
                  live_of (holder_session me) now kr.2 ∧ kr.1 ≠ (project, name)) (locks db)).

(** The upsert [ACQUIRE]: the stored row, or none when the guard refused. *)
Definition acquire_upsert (db : LockDb) (project : Z) (me : LockHolder) (name : rstr)
    (note : option rstr) (until now : N) : option Z * LockDb :=
  let excluded := {| row_owner := label (holder_author me); row_session := holder_session me;
                     row_note := note; row_expires_at := epoch_param until |} in
  let stored := (Some (epoch_param until), set_locks db (<[(project, name) := excluded]> (locks db))) in
  match locks db !! (project, name) with
  | None => stored
  | Some r => if (row_expires_at r <? epoch_param now)%Z || is_mine me r then stored else (None, db)
  end.

(** Takes the lock for [me] for [ttl] at [now]. *)
Definition acquire (project : Z) (me : LockHolder) (name : rstr) (ttl : duration) (note : option rstr)
    (now : N) : tx LockDb LockAttempt :=
  λ db,
  if has_ended db (holder_session me) then (Ok SessionEnded, db)
  else match held_by_another db project me name now with
  | Err e => (Err e, db)
  | Ok (Some holder) => (Ok (held_by holder now), db)
  | Ok None =>
    if LOCKS_PER_SESSION_MAX <=? other_live_locks db project me name now then (Err TooManyLocks, db)
    else
      let until := EpochSeconds.after now ttl in
      match acquire_upsert db project me name note until now with
      | (Some _, db') => (Ok (Acquired ttl), db')
      | (None, db') =>
        match find db' project name with
        | Err e => (Err e, db')
        | Ok None => (Err (LockVanished name), db')
        | Ok (Some holder) => (Ok (held_by holder now), db')
        end
      end
  end.

(** Releases the lock when [me] holds it through the same session. *)
Definition release (project : Z) (me : LockHolder) (name : rstr) (now : N) : tx LockDb LockRelease :=
  λ db,
  if match locks db !! (project, name) with Some r => is_mine me r | None => false end
  then (Ok Released, set_locks db (delete (project, name) (locks db)))
  else match find db project name with
       | Err e => (Err e, db)
       | Ok (Some l) => (Ok (if lock_is_live l now then ReleaseHeldBy (lock_owner l) else NotHeld), db)
       | Ok None => (Ok NotHeld, db)
       end.

(** Removes the lock whoever holds it. *)
Definition break_lock (project : Z) (name : rstr) : tx LockDb (option Lock) :=
  λ db,
  (read_row name (locks db !! (project, name)), set_locks db (delete (project, name) (locks db))).

(** Seconds a session's end is remembered. *)
Definition ended_kept : Z := Z.of_N (as_secs LOCK_TTL_MAX).

(** [i64::saturating_sub]. *)
Definition i64_saturating_sub (a b : Z) : Z := Z.max (- i64_max - 1) (Z.min i64_max (a - b)).

(** Ends the session: forgets sessions ended longer ago than any lock lives,
    records this one and removes its locks, answering how many went. *)
Definition release_all_of (session : rstr) (now : N) : tx LockDb nat :=
  λ db,
  let kept := filter (λ se : rstr * Z, ¬ (se.2 < i64_saturating_sub (epoch_param now) ended_kept)%Z)
                (ended_sessions db) in
  let ended := <[session := epoch_param now]> kept in
  let gone := filter (λ kr : (Z * rstr) * LockRow, row_session kr.2 = session) (locks db) in
  (Ok (size gone),
   {| locks := filter (λ kr : (Z * rstr) * LockRow, row_session kr.2 ≠ session) (locks db);
      ended_sessions := ended |}).

(** Reads every row of a list, stopping at the first corrupt one. *)
Fixpoint read_rows (rows : list (rstr * LockRow)) : result (list Lock) StoreFailure :=
  match rows with
  | [] => Ok []
  | (name, r) :: rows =>
    let? l := lock_from_row name r in
    let? rest := read_rows rows in Ok (l :: rest)
  end.

(** Every lock of the project live at [now], by name. *)
Definition live (db : LockDb) (project : Z) (now : N) : result (list Lock) StoreFailure :=
  read_rows (merge_sort (λ a b : rstr * LockRow, cle a.1 b.1)
    (omap (λ kr : (Z * rstr) * LockRow,
             if bool_decide (kr.1.1 = project) && (epoch_param now <=? row_expires_at kr.2)%Z
             then Some (kr.1.2, kr.2) else None)
       (map_to_list (locks db)))).

(** ** Interleavings: the operations of every connection, each at the moment
    it reads from the clock, in the order their transactions commit. *)
Inductive LockOp :=
| OpAcquire (project : Z) (me : LockHolder) (name : rstr) (ttl : duration) (note : option rstr)
| OpRelease (project : Z) (me : LockHolder) (name : rstr)
| OpBreak (project : Z) (name : rstr)
| OpEnd (session : rstr).

Definition run_op (db : LockDb) (op : N * LockOp) : LockDb :=
  match op.2 with
  | OpAcquire project me name ttl note => (write (acquire project me name ttl note op.1) db).2
  | OpRelease project me name => (write (release project me name op.1) db).2
  | OpBreak project name => (write (break_lock project name) db).2
  | OpEnd session => (write (release_all_of session op.1) db).2
  end.

Definition run_ops (db : LockDb) (ops : list (N * LockOp)) : LockDb := foldl run_op db ops.

(** * Invariant *)

(** A row the operations wrote: it reads back. *)
Definition row_ok (name : rstr) (r : LockRow) : Prop :=
  lock_name_try_new name = Some name ∧
  (∃ a, author_ok a ∧ row_owner r = label a) ∧
  (∀ n, row_note r = Some n → lock_note_try_new n = Some n) ∧
  (0 <= row_expires_at r <= i64_max)%Z.

Definition locks_ok (db : LockDb) : Prop := map_Forall (λ k r, row_ok k.2 r) (locks db).

(** The arguments the callers' types allow. *)
Definition op_ok (op : LockOp) : Prop :=
  match op with
  | OpAcquire _ me name ttl note =>
      author_ok (holder_author me) ∧ lock_name_try_new name = Some name ∧ is_lock_ttl ttl = true ∧
      (∀ n, note = Some n → lock_note_try_new n = Some n)
  | OpRelease _ me name => author_ok (holder_author me) ∧ lock_name_try_new name = Some name
  | OpBreak _ name => lock_name_try_new name = Some name
  | OpEnd _ => True
  end.

(** The lock a row reads as. *)
Definition lock_of (name : rstr) (r : LockRow) (a : Author) : Lock :=
  {| lock_name := name; lock_owner := a; lock_note := row_note r;
     lock_expires_at := Z.to_N (row_expires_at r) |}.

Lemma lock_from_row_ok name r a :
  row_ok name r → author_ok a → row_owner r = label a →
  lock_from_row name r = Ok (lock_of name r a).
Proof.
  intros (Hn & _ & Hnote & He) Ha Ho. unfold lock_from_row, author_from, lock_of.
  rewrite Hn, Ho, (from_label_label a Ha). cbn [ok_or].
  unfold epoch_from_secs. rewrite (proj2 (Z.leb_le 0 _)) by lia.
  destruct (row_note r) as [n|]; [|done]. by rewrite (Hnote n eq_refl).
Qed.

Lemma read_row_Ok name r : row_ok name r → ∃ a, author_ok a ∧ row_owner r = label a ∧
  read_row name (Some r) = Ok (Some (lock_of name r a)).
Proof.
  intros Hr. pose proof Hr as (_ & (a & Ha & Ho) & _). exists a. split_and!; [done..|].
  unfold read_row. by rewrite (lock_from_row_ok _ _ a).
Qed.

Lemma is_mine_true me r :
  is_mine me r = true ↔ row_owner r = label (holder_author me) ∧ row_session r = holder_session me.
Proof. unfold is_mine. by rewrite andb_true_iff, !bool_decide_eq_true. Qed.

(** The row an acquire writes. *)
Definition acquired_row (me : LockHolder) (ttl : duration) (note : option rstr) (now : N) : LockRow :=
  {| row_owner := label (holder_author me); row_session := holder_session me; row_note := note;
     row_expires_at := epoch_param (EpochSeconds.after now ttl) |}.

(** The row that stands in the way of [me] at [now]. *)
Definition blocking (db : LockDb) (project : Z) (me : LockHolder) (name : rstr) (now : N) : option LockRow :=
  match locks db !! (project, name) with
  | Some r => if (epoch_param now <=? row_expires_at r)%Z && negb (is_mine me r) then Some r else None
  | None => None
  end.

Lemma blocking_Some db project me name now r :
  blocking db project me name now = Some r ↔
  locks db !! (project, name) = Some r ∧ (epoch_param now <= row_expires_at r)%Z ∧ is_mine me r = false.
Proof.
  unfold blocking. destruct (locks db !! (project, name)) as [r'|]; [|naive_solver].
  destruct (Z.leb_spec (epoch_param now) (row_expires_at r')), (is_mine me r') eqn:E; simpl;
    (split; [intros; simplify_eq; split_and!; done || congruence || lia|intros (? & ? & ?); simplify_eq; done || congruence || lia]).
Qed.

(** The guard of the upsert refuses exactly the blocking row. *)
Lemma acquire_upsert_spec db project me name note until now :
  acquire_upsert db project me name note until now =
  match blocking db project me name now with
  | Some _ => (None, db)
  | None => (Some (epoch_param until),
             set_locks db (<[(project, name) :=
               {| row_owner := label (holder_author me); row_session := holder_session me;
                  row_note := note; row_expires_at := epoch_param until |}]> (locks db)))
  end.
Proof.
  unfold acquire_upsert, blocking. destruct (locks db !! (project, name)) as [r|]; [|done].
  destruct (Z.ltb_spec (row_expires_at r) (epoch_param now)), (Z.leb_spec (epoch_param now) (row_expires_at r)),
    (is_mine me r); simpl; try done; lia.
Qed.

(** What an acquire comes to: the row that blocks decides, then the cap. *)
Lemma acquire_cases db project me name ttl note now :
  locks_ok db →
  acquire project me name ttl note now db =
  if has_ended db (holder_session me) then (Ok SessionEnded, db)
  else match blocking db project me name now with
  | Some r => match from_label (row_owner r) with
              | Ok a => (Ok (held_by (lock_of name r a) now), db)
              | Err _ => (Err (CorruptRow (lit "author")), db)
              end
  | None =>
    if LOCKS_PER_SESSION_MAX <=? other_live_locks db project me name now then (Err TooManyLocks, db)
    else (Ok (Acquired ttl), set_locks db (<[(project, name) := acquired_row me ttl note now]> (locks db)))
  end.
Proof.
  intros Hok. unfold acquire, held_by_another. fold (blocking db project me name now).
  destruct (has_ended _ _); [done|].
  destruct (blocking db project me name now) as [r|] eqn:Eb.
  - apply blocking_Some in Eb as (Hl & _).
    destruct (read_row_Ok name r) as (a & Ha & Ho & ->); [by apply (Hok _ _ Hl)|].
    by rewrite Ho, from_label_label.
  - cbn [read_row]. case_match; [done|]. cbv zeta. by rewrite acquire_upsert_spec, Eb.
Qed.

(** * Preservation *)

Lemma acquired_row_ok me name ttl note now :
  op_ok (OpAcquire 0 me name ttl note) → row_ok name (acquired_row me ttl note now).
Proof.
  intros (Ha & Hn & _ & Hnote). split; [done|]. split; [by eexists|].
  split; [done|apply epoch_param_range].
Qed.

Lemma write_acquire db project me name ttl note now :
  (write (acquire project me name ttl note now) db).2 = db ∨
  (blocking db project me name now = None ∧ has_ended db (holder_session me) = false ∧
   other_live_locks db project me name now < LOCKS_PER_SESSION_MAX ∧
   (write (acquire project me name ttl note now) db) =
     (Ok (Acquired ttl), set_locks db (<[(project, name) := acquired_row me ttl note now]> (locks db)))).
Proof.
  unfold write, acquire, held_by_another. fold (blocking db project me name now).
  destruct (has_ended _ _); [by left|].
  destruct (read_row name (blocking db project me name now)) as [[h|]|e] eqn:Er; [by left| |by left].
  destruct (blocking db project me name now) as [r|] eqn:Eb.
  { unfold read_row in Er. by destruct (lock_from_row name r). }
  destruct (Nat.leb_spec LOCKS_PER_SESSION_MAX (other_live_locks db project me name now)); [by left|].
  right. split_and!; [done..|]. cbv zeta. by rewrite acquire_upsert_spec, Eb.
Qed.

Lemma write_release db project me name now :
  (write (release project me name now) db).2 = db ∨
  ∃ r, locks db !! (project, name) = Some r ∧ is_mine me r = true ∧
    (write (release project me name now) db).2 = set_locks db (delete (project, name) (locks db)).
Proof.
  unfold write, release. destruct (locks db !! (project, name)) as [r|] eqn:Er; [destruct (is_mine me r) eqn:Em|].
  - right. by exists r.
  - left. by destruct (find db project name) as [[]|].
  - left. by destruct (find db project name) as [[]|].
Qed.

Lemma write_break db project name :
  (write (break_lock project name) db).2 = db ∨
  (write (break_lock project name) db).2 = set_locks db (delete (project, name) (locks db)).
Proof. unfold write, break_lock. destruct (read_row _ _); auto. Qed.

Lemma run_op_ok db op : locks_ok db → op_ok op.2 → locks_ok (run_op db op).
Proof.
  destruct op as [t [project me name ttl note|project me name|project name|session]]; intros Hdb Hop;
    unfold run_op; cbn [fst snd] in *.
  - destruct (write_acquire db project me name ttl note t) as [->|(_ & _ & _ & ->)]; [done|].
    apply map_Forall_insert_2; [|done]. by apply acquired_row_ok.
  - destruct (write_release db project me name t) as [->|(r & _ & _ & ->)]; [done|].
    by apply map_Forall_delete.
  - destruct (write_break db project name) as [->| ->]; [done|]. by apply map_Forall_delete.
  - intros k r [Hr _]%map_lookup_filter_Some. by apply Hdb.
Qed.

Lemma run_ops_ok db ops : locks_ok db → Forall (λ op, op_ok op.2) ops → locks_ok (run_ops db ops).
Proof.
  revert db. induction ops as [|op ops IH]; intros db Hdb Hops; [done|].
  inversion Hops; subst. apply IH; [|done]. by apply run_op_ok.
Qed.

(** * Properties *)

(** Acquiring on tables the store wrote answers in exactly four ways, and
    changes them only when it succeeds: an ended session takes nothing; a lock
    another holder has live is answered with that holder, its note and the
    time left; past that, a session with 32 other live locks is refused; and
    otherwise the lock is taken until [now + ttl]. The upsert's own guard then
    never refuses, so no lock vanishes between its upsert and its read. *)
Theorem acquire_answers db project me name ttl note now :
  locks_ok db → op_ok (OpAcquire project me name ttl note) →
  let answer := write (acquire project me name ttl note now) db in
  if has_ended db (holder_session me) then answer = (Ok SessionEnded, db)
  else match blocking db project me name now with
  | Some r => ∃ a, author_ok a ∧ row_owner r = label a ∧ (a, row_session r) ≠ (holder_author me, holder_session me) ∧
      answer = (Ok (AttemptHeldBy a (row_note r) (EpochSeconds.until now (Z.to_N (row_expires_at r)))), db)
  | None =>
      if LOCKS_PER_SESSION_MAX <=? other_live_locks db project me name now
      then answer = (Err TooManyLocks, db)
      else answer = (Ok (Acquired ttl), set_locks db (<[(project, name) := acquired_row me ttl note now]> (locks db)))
  end.
Proof.
  intros Hok Hop. unfold write. rewrite acquire_cases by done. cbv zeta.
  destruct (has_ended _ _); [done|].
  destruct (blocking db project me name now) as [r|] eqn:Eb.
  - apply blocking_Some in Eb as (Hl & _ & Hm).
    destruct (read_row_Ok name r) as (a & Ha & Ho & _); [by apply (Hok _ _ Hl)|].
    exists a. rewrite Ho, from_label_label by done. split_and!; [done..| |done].
    intros [= -> Hs]. apply not_true_iff_false in Hm. by apply Hm, is_mine_true.
  - by case_match.
Qed.

(** Operations that leave [h]'s hold on the lock alone: none acquires or
    releases it as [h], breaks it, or ends [h]'s session. *)
Definition leaves_hold (project : Z) (name : rstr) (h : LockHolder) (op : LockOp) : Prop :=
  match op with
  | OpAcquire p me n _ _ => (p, n, me) ≠ (project, name, h)
  | OpRelease p me n => (p, n, me) ≠ (project, name, h)
  | OpBreak p n => (p, n) ≠ (project, name)
  | OpEnd s => s ≠ holder_session h
  end.

Lemma is_mine_holder me h r :
  author_ok (holder_author me) → author_ok (holder_author h) → is_mine h r = true → is_mine me r = true → me = h.
Proof.
  rewrite !is_mine_true. intros Hme Hh [Ho1 Hs1] [Ho2 Hs2].
  assert (holder_author me = holder_author h) by (apply label_inj; [done..|congruence]).
  destruct me, h; simpl in *. congruence.
Qed.

Lemma run_op_keeps_row db project name h r op :
  author_ok (holder_author h) → op_ok op.2 → leaves_hold project name h op.2 →
  locks db !! (project, name) = Some r → is_mine h r = true → (epoch_param op.1 <= row_expires_at r)%Z →
  locks (run_op db op) !! (project, name) = Some r.
Proof.
  destruct op as [t [p me n ttl note|p me n|p n|s]]; intros Hh Hop Hlv Hr Hm Ht;
    unfold run_op; cbn [fst snd] in *.
  - destruct (write_acquire db p me n ttl note t) as [->|(Hb & _ & _ & ->)]; [done|]. simpl.
    destruct (decide ((p, n) = (project, name))) as [[= -> ->]|Hne]; [|by rewrite lookup_insert_ne].
    exfalso. destruct (is_mine me r) eqn:E.
    + apply Hlv. do 2 f_equal. by eapply is_mine_holder; [apply Hop|..].
    + rewrite (proj2 (blocking_Some db project me name t r)) in Hb; done.
  - destruct (write_release db p me n t) as [->|(r' & Hr' & Hm' & ->)]; [done|]. simpl.
    destruct (decide ((p, n) = (project, name))) as [[= -> ->]|Hne]; [|by rewrite lookup_delete_ne].
    simplify_eq. exfalso. apply Hlv. do 2 f_equal. by eapply is_mine_holder; [apply Hop|..].
  - destruct (write_break db p n) as [->| ->]; [done|]. simpl. by rewrite lookup_delete_ne.
  - apply map_lookup_filter_Some. split; [done|]. simpl. apply is_mine_true in Hm as [_ ->]. by apply not_eq_sym.
Qed.

Lemma run_ops_keep_row db project name h r ops :
  author_ok (holder_author h) → Forall (λ op, op_ok op.2) ops →
  Forall (λ op, leaves_hold project name h op.2) ops →
  Forall (λ op, (epoch_param op.1 <= row_expires_at r)%Z) ops →
  locks db !! (project, name) = Some r → is_mine h r = true →
  locks (run_ops db ops) !! (project, name) = Some r.
Proof.
  intros Hh Hops Hlv Ht. revert db. induction ops as [|op ops IH]; intros db Hr Hm; [done|].
  inversion Hops; inversion Hlv; inversion Ht; subst. apply IH; try done. by eapply run_op_keeps_row.
Qed.

(** C15: A lock excludes every other holder until it expires: once [h] took it
    at [now] for [ttl], and whatever any connections then do up to the expiry,
    as long as [h] itself neither renews nor releases it, nobody breaks it and
    [h]'s session does not end, an attempt by any other holder - another agent,
    or the same label through another connection - is answered with [h] and
    its note, or that the attempt's own session ended, and takes nothing. *)
Theorem lock_excludes_others db0 db1 project name h ttl note now ops other ttl' note' now' :
  locks_ok db0 → op_ok (OpAcquire project h name ttl note) →
  write (acquire project h name ttl note now) db0 = (Ok (Acquired ttl), db1) →
  Forall (λ op, op_ok op.2) ops → Forall (λ op, leaves_hold project name h op.2) ops →
  Forall (λ op, (op.1 <= EpochSeconds.after now ttl)%N) ops →
  (now' <= EpochSeconds.after now ttl)%N → other ≠ h → author_ok (holder_author other) →
  let db := run_ops db1 ops in
  let until := Z.to_N (epoch_param (EpochSeconds.after now ttl)) in
  write (acquire project other name ttl' note' now') db =
    (Ok (if has_ended db (holder_session other) then SessionEnded
         else AttemptHeldBy (holder_author h) note (EpochSeconds.until now' until)), db).
Proof.
  intros Hok Hop Hacq Hops Hlv Ht Hnow Hne Ho db until.
  assert (Ha : author_ok (holder_author h)) by apply Hop.
  assert (db1 = set_locks db0 (<[(project, name) := acquired_row h ttl note now]> (locks db0))) as Hdb1.
  { unfold write in Hacq. rewrite acquire_cases in Hacq by done.
    destruct (has_ended _ _); [done|]. destruct (blocking _ _ _ _ _); [by destruct (from_label _)|].
    destruct (LOCKS_PER_SESSION_MAX <=? _); [done|]. by injection Hacq. }
  assert (locks_ok db1) as Hok1.
  { subst db1. apply map_Forall_insert_2; [by eapply acquired_row_ok|done]. }
  assert (is_mine h (acquired_row h ttl note now) = true) as Hm by by apply is_mine_true.
  assert (locks db !! (project, name) = Some (acquired_row h ttl note now)) as Hrow.
  { apply run_ops_keep_row with (h := h); try done.
    - eapply Forall_impl; [exact Ht|]. intros op. apply epoch_param_mono.
    - subst db1. simpl. by rewrite lookup_insert_eq. }
  unfold write. rewrite acquire_cases by by apply run_ops_ok.
  destruct (has_ended db (holder_session other)); [done|].
  rewrite (proj2 (blocking_Some db project other name now' (acquired_row h ttl note now))).
  - cbn [acquired_row row_owner]. by rewrite from_label_label.
  - split_and!; [done|by apply epoch_param_mono|]. apply not_true_is_false. intros Hm'. apply Hne.
    by eapply is_mine_holder.
Qed.

(** The live locks of a session at [now], in every project. *)
Definition live_count (db : LockDb) (session : rstr) (now : N) : nat :=
  size (filter (λ kr : (Z * rstr) * LockRow, live_of session now kr.2) (locks db)).

Lemma live_count_sub db db' session now now' :
  (now <= now')%N →
  (∀ k r, locks db' !! k = Some r → row_session r = session → locks db !! k = Some r) →
  live_count db' session now' ≤ live_count db session now.
Proof.
  intros Hnow Hsub. apply map_subseteq_size, map_filter_strong_subseteq_ext.
  intros k r [[Hs Hl] Hr]; simpl in *. split; [|by apply Hsub].
  split; [done|]. simpl. pose proof (epoch_param_mono _ _ Hnow). lia.
Qed.

Lemma run_op_cap db op t :
  (∀ s, live_count db s t ≤ LOCKS_PER_SESSION_MAX) → (t <= op.1)%N →
  ∀ s, live_count (run_op db op) s op.1 ≤ LOCKS_PER_SESSION_MAX.
Proof.
  intros Hcap Ht s. specialize (Hcap s).
  destruct op as [t' [p me n ttl note|p me n|p n|s']]; unfold run_op; cbn [fst snd] in *.
  - destruct (write_acquire db p me n ttl note t') as [->|(_ & _ & Hother & ->)]; cbn [snd].
    { etransitivity; [by apply live_count_sub|done]. }
    destruct (decide (s = holder_session me)) as [->|Hs].
    + transitivity (S (other_live_locks db p me n t')); [|lia].
      unfold live_count, other_live_locks.
      set (others := filter _ (locks db)).
      transitivity (size (<[(p, n) := acquired_row me ttl note t']> others)).
      * apply map_subseteq_size, map_subseteq_spec. intros k r [Hr Hl]%map_lookup_filter_Some. simpl in *.
        destruct (decide (k = (p, n))) as [->|Hne]; [by rewrite lookup_insert_eq in *|].
        rewrite lookup_insert_ne in * by done. by apply map_lookup_filter_Some.
      * rewrite map_size_insert. destruct (others !! _); simpl; lia.
    + etransitivity; [|exact Hcap]. apply live_count_sub; [done|]. simpl. intros k r Hr Hrs.
      destruct (decide (k = (p, n))) as [->|Hne]; [|by rewrite lookup_insert_ne in Hr].
      rewrite lookup_insert_eq in Hr. simplify_eq.
  - etransitivity; [|exact Hcap]. apply live_count_sub; [done|].
    destruct (write_release db p me n t') as [->|(r' & _ & _ & ->)]; [done|]. simpl.
    intros k r [_ Hr]%lookup_delete_Some. done.
  - etransitivity; [|exact Hcap]. apply live_count_sub; [done|].
    destruct (write_break db p n) as [->| ->]; [done|]. simpl. intros k r [_ Hr]%lookup_delete_Some. done.
  - etransitivity; [|exact Hcap]. apply live_count_sub; [done|]. simpl.
    intros k r [Hr _]%map_lookup_filter_Some. done.
Qed.

(** Moments in the order their transactions commit, from [t] on. *)
Fixpoint clocked (t : N) (ops : list (N * LockOp)) : Prop :=
  match ops with
  | [] => True
  | op :: ops => (t <= op.1)%N ∧ clocked op.1 ops
  end.

Lemma run_ops_cap db ops t :
  (∀ s, live_count db s t ≤ LOCKS_PER_SESSION_MAX) → clocked t ops →
  ∀ s now, (t <= now)%N → Forall (λ op, (op.1 <= now)%N) ops →
  live_count (run_ops db ops) s now ≤ LOCKS_PER_SESSION_MAX.
Proof.
  revert db t. induction ops as [|op ops IH]; intros db t Hcap Hclk s now Hnow Hops.
  - etransitivity; [by apply live_count_sub|apply Hcap].
  - destruct Hclk as [Ht Hclk]. inversion Hops; subst.
    apply (IH (run_op db op) op.1); try done. by eapply run_op_cap.
Qed.

Definition empty_db : LockDb := {| locks := ∅; ended_sessions := ∅ |}.

(** Whatever the connections do, no session ever holds more than 32 live
    locks, over all projects together: after any operations from an empty
    database with a clock that does not go back, at any moment from the last
    one on. *)
Theorem session_lock_cap ops s now :
  clocked 0 ops → Forall (λ op, (op.1 <= now)%N) ops →
  live_count (run_ops empty_db ops) s now ≤ 32.
Proof.
  intros Hclk Hops. apply (run_ops_cap _ _ 0); [|done|lia|done].
  intros s'. unfold live_count. cbn [locks empty_db]. rewrite map_filter_empty, map_size_empty. lia.
Qed.

(** The session is recorded as ended no earlier than [at_] and holds nothing. *)
Definition ended_since (db : LockDb) (s : rstr) (at_ : N) : Prop :=
  (∃ e, ended_sessions db !! s = Some e ∧ (epoch_param at_ <= e)%Z) ∧
  map_Forall (λ _ r, row_session r ≠ s) (locks db).

Lemma run_op_ended db s at_ op :
  ended_since db s at_ → (at_ <= op.1)%N → (op.1 <= at_ + 3600)%N → ended_since (run_op db op) s at_.
Proof.
  intros [(e & He & Hat) Hrows] Hlo Hhi.
  destruct op as [t [p me n ttl note|p me n|p n|s']]; unfold run_op; cbn [fst snd] in *.
  - destruct (write_acquire db p me n ttl note t) as [->|(_ & Hend & _ & ->)]; [by split; [eexists|]|].
    split; [by eexists|]. apply map_Forall_insert_2; [|done]. simpl. intros <-.
    apply bool_decide_eq_false in Hend. rewrite He in Hend. by apply Hend.
  - destruct (write_release db p me n t) as [->|(r & _ & _ & ->)]; (split; [by eexists|]); [done|].
    by apply map_Forall_delete.
  - destruct (write_break db p n) as [->| ->]; (split; [by eexists|]); [done|]. by apply map_Forall_delete.
  - split; cbn.
    + destruct (decide (s' = s)) as [->|Hne].
      { exists (epoch_param t). rewrite lookup_insert_eq. split; [done|]. by apply epoch_param_mono. }
      exists e. rewrite lookup_insert_ne by done. split; [|done]. apply map_lookup_filter_Some.
      split; [done|]. simpl. unfold i64_saturating_sub. change ended_kept with 3600%Z.
      pose proof (epoch_param_range at_). pose proof (epoch_param_range t).
      assert (epoch_param t <= epoch_param at_ + 3600)%Z; [|unfold i64_max in *; lia].
      unfold epoch_param. destruct (Z.leb_spec (Z.of_N t) i64_max), (Z.leb_spec (Z.of_N at_) i64_max); lia.
    + intros k r [Hr _]%map_lookup_filter_Some. by apply (Hrows k).
Qed.

(** A session that ended takes no lock for as long as any lock taken
    before could have lived: after its end at [at_], whatever the connections
    do within the following hour, no row belongs to it and each attempt of its
    own, such as one still in flight when its connection closed, is answered
    that the session ended and changes nothing. *)
Theorem ended_session_takes_nothing db s at_ ops me project name ttl note now :
  Forall (λ op, (at_ <= op.1 <= at_ + as_secs LOCK_TTL_MAX)%N) ops →
  holder_session me = s →
  let db' := run_ops (write (release_all_of s at_) db).2 ops in
  map_Forall (λ _ r, row_session r ≠ s) (locks db') ∧
  write (acquire project me name ttl note now) db' = (Ok SessionEnded, db').
Proof.
  intros Hops Hs db'.
  assert (ended_since db' s at_) as [(e & He & _) Hrows].
  { assert (ended_since (write (release_all_of s at_) db).2 s at_) as H0.
    { split; cbn; [exists (epoch_param at_); by rewrite lookup_insert_eq|].
      intros k r [_ Hr]%map_lookup_filter_Some. done. }
    subst db'. revert H0. generalize (write (release_all_of s at_) db).2.
    induction Hops as [|op ops [Hlo Hhi] Hops IH]; intros d Hd; [done|]. apply IH. by apply run_op_ended. }
  split; [done|]. unfold write, acquire, has_ended. rewrite bool_decide_true; [done|].
  rewrite Hs, He. by eexists.
Qed.

Module Witness.

Definition alice : LockHolder := {| holder_author := Agent (lit "claude"); holder_session := lit "s1" |}.
Definition alice2 : LockHolder := {| holder_author := Agent (lit "claude"); holder_session := lit "s2" |}.
Definition migrations : rstr := lit "migrations".
Definition minute : duration := from_secs 60.
Definition taken : LockDb := (write (acquire 1 alice migrations minute None 100) empty_db).2.

Lemma empty_ok : locks_ok empty_db.
Proof. apply map_Forall_empty. Defined.

Lemma alice_op_ok : op_ok (OpAcquire 1 alice migrations minute None).
Proof. repeat split; try by vm_compute. Defined.

Lemma acquire_answers_witness :
  write (acquire 1 alice migrations minute None 100) empty_db =
    (Ok (Acquired minute), set_locks empty_db (<[(1%Z, migrations) := acquired_row alice minute None 100]> ∅)).
Proof. apply (acquire_answers empty_db 1 alice migrations minute None 100 empty_ok alice_op_ok). Defined.

Lemma lock_excludes_others_witness :
  let db := run_ops taken [(120%N, OpBreak 2 migrations)] in
  write (acquire 1 alice2 migrations minute None 130) db =
    (Ok (AttemptHeldBy (Agent (lit "claude")) None (from_secs 30)), db).
Proof.
  refine (lock_excludes_others empty_db taken 1 migrations alice minute None 100
            [(120%N, OpBreak 2 migrations)] alice2 minute None 130 empty_ok alice_op_ok _ _ _ _ _ _ _).
  - by vm_compute.
  - repeat constructor; by vm_compute.
  - repeat constructor; done.
  - repeat constructor; by vm_compute.
  - by vm_compute.
  - done.
  - repeat split; by vm_compute.
Defined.

Lemma session_lock_cap_witness :
  live_count (run_ops empty_db [(100%N, OpAcquire 1 alice migrations minute None)]) (lit "s1") 100 ≤ 32 ∧
  live_count (run_ops empty_db [(100%N, OpAcquire 1 alice migrations minute None)]) (lit "s1") 100 = 1.
Proof.
  split; [|by vm_compute]. apply (session_lock_cap _ (lit "s1") 100); repeat constructor; by vm_compute.
Defined.

Lemma ended_session_takes_nothing_witness :
  let db' := run_ops (write (release_all_of (lit "s1") 110) taken).2 [(110%N, OpBreak 2 migrations)] in
  write (acquire 1 alice migrations minute None 120) db' = (Ok SessionEnded, db').
Proof.
  apply (ended_session_takes_nothing taken (lit "s1") 110 [(110%N, OpBreak 2 migrations)] alice); [|done].
  repeat constructor; by vm_compute.
Defined.

End Witness.
