(* ===== verification/Todos.v ===== *)
(** * Shared todos in the store

    Models the todo half of muster-store/src/coordination_rows.rs: the [todos]
    table in rowid order, its CHECK constraints, and the statements that add,
    change, claim and delete a todo. The JSON text of a dependency column is
    the list of ids it encodes, and a status is its constructor, the table
    allowing no other text. A new todo's id comes from a UUID generator and is
    an argument. The operations take the moment read from the clock. *)
From S2P Require Import Prelude RustText Values Coordination Store.

(** ** Rows *)
Record TodoRow := {
  r_project : Z;
  r_id : rstr;
  r_title : rstr;
  r_status : TodoStatus;
  r_deps : list rstr;
  r_author : rstr;
  r_updated_at : Z;
  r_owner : option rstr;
  r_claimed_until : option Z;
}.

(** The rows in rowid order. *)
Notation TodoDb := (list TodoRow) (only parsing).

(** [CHECK ((owner IS NULL) = (claimed_until IS NULL))] and
    [CHECK (owner IS NULL OR status = 'in-progress')]. *)
Definition check_row (r : TodoRow) : bool :=
  bool_decide (r_owner r = None ↔ r_claimed_until r = None) &&
  bool_decide (r_owner r = None ∨ r_status r = InProgress).

Definition author_of (l : rstr) : result Author StoreFailure :=
  match from_label l with Ok a => Ok a | Err _ => Err (CorruptRow (lit "author")) end.

(** Every dependency id read back, or the row is corrupt. *)
Fixpoint deps_from (deps : list rstr) : result (list rstr) StoreFailure :=
  match deps with
  | [] => Ok []
  | d :: deps =>
    let? d := ok_or (todo_id_try_new d) (CorruptRow (lit "todo deps")) in
    let? deps := deps_from deps in Ok (d :: deps)
  end.

(** [owner.zip(claimed_until)], read back. *)
Definition claim_from (r : TodoRow) : result (option TodoClaim) StoreFailure :=
  match r_owner r, r_claimed_until r with
  | Some owner, Some until =>
    let? owner := author_of owner in
    let? until := epoch_from_secs (lit "todo lease") until in
    Ok (Some {| claim_owner := owner; claimed_until := until |})
  | _, _ => Ok None
  end.

(** Reads a row. *)
Definition todo_from_row (r : TodoRow) : result Todo StoreFailure :=
  let? claim := claim_from r in
  let? id := ok_or (todo_id_try_new (r_id r)) (CorruptRow (lit "todo id")) in
  let? title := ok_or (todo_title_try_new (r_title r)) (CorruptRow (lit "todo title")) in
  let? deps := deps_from (r_deps r) in
  let? author := author_of (r_author r) in
  let? updated := epoch_from_secs (lit "write time") (r_updated_at r) in
  Ok {| todo_id := id; todo_title := title; todo_status := r_status r; todo_deps := deps;
        todo_claim := claim; todo_author := author; todo_updated_at := updated |}.

(** Reads every row of a list in order. *)
Fixpoint collect (rows : list TodoRow) : result (list Todo) StoreFailure :=
  match rows with
  | [] => Ok []
  | r :: rows =>
    let? t := todo_from_row r in
    let? rest := collect rows in Ok (t :: rest)
  end.

(** [WHERE project_id = ? AND id = ?]. *)
Definition is_row (project : Z) (id : rstr) (r : TodoRow) : Prop := r_project r = project ∧ r_id r = id.
#[export] Instance is_row_dec project id r : Decision (is_row project id r).
Proof. unfold is_row. apply _. Defined.

(** [UPDATE ... SET f WHERE P]. *)
Definition update_where (P : TodoRow → Prop) `{!∀ r, Decision (P r)} (f : TodoRow → TodoRow) (db : TodoDb) : TodoDb :=
  map (λ r, if decide (P r) then f r else r) db.

(** A todo's claim as its two columns. *)
Definition claim_columns (t : Todo) : option rstr * option Z :=
  match todo_claim t with
  | None => (None, None)
  | Some c => (Some (label (claim_owner c)), Some (epoch_param (claimed_until c)))
  end.

Definition row_of (project : Z) (t : Todo) : TodoRow :=
  let '(owner, until) := claim_columns t in
  {| r_project := project; r_id := todo_id t; r_title := todo_title t; r_status := todo_status t;
     r_deps := todo_deps t; r_author := label (todo_author t); r_updated_at := epoch_param (todo_updated_at t);
     r_owner := owner; r_claimed_until := until |}.

(** Writes a todo; a rewrite keeps the todo's place. *)
Definition put_todo (project : Z) (t : Todo) : tx TodoDb unit :=
  λ db,
  let row := row_of project t in
  if check_row row then
    (Ok (), if decide (Exists (is_row project (todo_id t)) db)
            then update_where (is_row project (todo_id t)) (λ _, row) db
            else db ++ [row])
  else (Err ConstraintFailed, db).

(** Rewrites the mutable columns of a stored todo in place. *)
Definition rewritten (t : Todo) (r : TodoRow) : TodoRow :=
  let '(owner, until) := claim_columns t in
  {| r_project := r_project r; r_id := r_id r; r_title := todo_title t; r_status := todo_status t;
     r_deps := r_deps r; r_author := label (todo_author t); r_updated_at := epoch_param (todo_updated_at t);
     r_owner := owner; r_claimed_until := until |}.

Definition rewrite_todo (project : Z) (t : Todo) : tx TodoDb unit :=
  λ db,
  if forallb (λ r, check_row (rewritten t r)) (filter (is_row project (todo_id t)) db)
  then (Ok (), update_where (is_row project (todo_id t)) (rewritten t) db)
  else (Err ConstraintFailed, db).

(** The todo [id] of the project. *)
Definition find_todo (db : TodoDb) (project : Z) (id : rstr) : result (option Todo) StoreFailure :=
  let? todos := collect (filter (is_row project id) db) in Ok (last todos).

(** The guard of [CLAIM_BY_ID]. *)
Definition may_claim (me : Author) (now : N) (r : TodoRow) : bool :=
  match r_status r with
  | Pending => true
  | InProgress =>
    bool_decide (r_owner r = Some (label me)) ||
    match r_claimed_until r with Some until => (until <? epoch_param now)%Z | None => false end
  | Done => false
  end.

Definition claimed_row (me : Author) (until now : N) (r : TodoRow) : TodoRow :=
  {| r_project := r_project r; r_id := r_id r; r_title := r_title r; r_status := InProgress;
     r_deps := r_deps r; r_author := label me; r_updated_at := epoch_param now;
     r_owner := Some (label me); r_claimed_until := Some (epoch_param until) |}.

(** Claims the todo [id] for [me] until [until], whose row always meets the
    constraints, or says why it cannot be. *)
Definition claim_by_id (project : Z) (me : Author) (id : rstr) (until now : N) : tx TodoDb Claim :=
  λ db,
  let hit r := is_row project id r ∧ may_claim me now r = true in
  let db' := update_where hit (claimed_row me until now) db in
  match collect (claimed_row me until now <$> filter hit db) with
  | Err e => (Err e, db')
  | Ok todos =>
    match last todos with
    | Some todo => (Ok (Claimed todo), db')
    | None =>
      match find_todo db' project id with
      | Err e => (Err e, db')
      | Ok None => (Ok Missing, db')
      | Ok (Some todo) =>
        (Ok match claim_state todo now with
            | Held owner expires_in => HeldBy owner expires_in
            | Unclaimed | Stale _ => Unavailable todo
            end, db')
      end
    end
  end.

(** The rows [NEXT_CLAIMABLE] accepts: pending or lapsed, and no dependency
    that exists and is not done. *)
Definition next_hit (db : TodoDb) (project : Z) (now : N) (t : TodoRow) : bool :=
  bool_decide (r_project t = project) &&
  match r_status t with
  | Pending => true
  | InProgress => match r_claimed_until t with Some until => (until <? epoch_param now)%Z | None => false end
  | Done => false
  end &&
  negb (existsb (λ d, existsb (λ dep,
          bool_decide (r_project dep = r_project t ∧ r_id dep = d) &&
          negb (bool_decide (r_status dep = Done))) db) (r_deps t)).

(** [NEXT_CLAIMABLE ... ORDER BY t.rowid LIMIT 1]. *)
Definition next_claimable (db : TodoDb) (project : Z) (now : N) : option rstr :=
  r_id <$> List.find (next_hit db project now) db.

(** Claims the named todo, or the next claimable one. *)
Definition claim_todo (project : Z) (me : Author) (id : option rstr) (lease : duration) (now : N) : tx TodoDb Claim :=
  λ db,
  let until := EpochSeconds.after now lease in
  match id with
  | Some id => claim_by_id project me id until now db
  | None =>
    match next_claimable db project now with
    | None => (Ok NothingClaimable, db)
    | Some next =>
      match todo_id_try_new next with
      | None => (Err (CorruptRow (lit "todo id")), db)
      | Some next => claim_by_id project me next until now db
      end
    end
  end.

(** Changes the todo [id], guarded by another agent's live lease. *)
Definition update_todo (project : Z) (me : Author) (id : rstr) (change : TodoChange) (now : N) : tx TodoDb TodoUpdate :=
  λ db,
  match find_todo db project id with
  | Err e => (Err e, db)
  | Ok None => (Ok UpdateMissing, db)
  | Ok (Some todo) =>
    let update := changed todo me change now in
    match update with
    | Updated t => match rewrite_todo project t db with
                   | (Err e, db') => (Err e, db')
                   | (Ok _, db') => (Ok update, db')
                   end
    | _ => (Ok update, db)
    end
  end.

(** Adds a pending todo under a fresh id. *)
Definition new_todo (id title : rstr) (deps : list rstr) (author : Author) (now : N) : Todo :=
  {| todo_id := id; todo_title := title; todo_status := Pending; todo_deps := deps;
     todo_claim := None; todo_author := author; todo_updated_at := now |}.

Definition add_todo (project : Z) (author : Author) (id title : rstr) (deps : list rstr) (now : N) : tx TodoDb Todo :=
  λ db,
  match put_todo project (new_todo id title deps author now) db with
  | (Err e, db') => (Err e, db')
  | (Ok _, db') => (Ok (new_todo id title deps author now), db')
  end.

(** Deletes the todo, answering whether there was one. *)
Definition delete_todo (project : Z) (id : rstr) : tx TodoDb bool :=
  λ db, (Ok (bool_decide (Exists (is_row project id) db)), filter (λ r, ¬ is_row project id r) db).

(** The project's todos, oldest first. *)
Definition todos (db : TodoDb) (project : Z) : result (list Todo) StoreFailure :=
  collect (filter (λ r, r_project r = project) db).

(** Writes imported todos as they stand. *)
Fixpoint import_todos (project : Z) (ts : list Todo) : tx TodoDb unit :=
  λ db,
  match ts with
  | [] => (Ok (), db)
  | t :: ts => match put_todo project t db with
               | (Err e, db') => (Err e, db')
               | (Ok _, db') => import_todos project ts db'
               end
  end.

(** * Invariant *)

(** A claim's two columns: both or neither, and only in progress. *)
Definition claim_ok (r : TodoRow) : Prop :=
  match r_owner r, r_claimed_until r with
  | None, None => True
  | Some o, Some u => r_status r = InProgress ∧ (∃ a, author_ok a ∧ o = label a) ∧ (0 <= u <= i64_max)%Z
  | _, _ => False
  end.

(** A row the operations wrote: it reads back. *)
Record row_ok (r : TodoRow) : Prop := {
  ok_id : todo_id_try_new (r_id r) = Some (r_id r);
  ok_title : todo_title_try_new (r_title r) = Some (r_title r);
  ok_deps : Forall (λ d, todo_id_try_new d = Some d) (r_deps r);
  ok_author : ∃ a, author_ok a ∧ r_author r = label a;
  ok_updated : (0 <= r_updated_at r <= i64_max)%Z;
  ok_claim : claim_ok r;
}.

Definition row_key (r : TodoRow) : Z * rstr := (r_project r, r_id r).

Record db_ok (db : TodoDb) : Prop := {
  db_rows : Forall row_ok db;
  db_keys : NoDup (row_key <$> db);
}.

(** An in-progress todo has an owner. *)
Definition owned (r : TodoRow) : Prop := r_status r = InProgress → is_Some (r_owner r).

(** The author and the todo a good row reads as. *)
Definition author_or (l : rstr) : Author := match from_label l with Ok a => a | Err _ => Human end.

Definition claim_of (r : TodoRow) : option TodoClaim :=
  match r_owner r, r_claimed_until r with
  | Some o, Some u => Some {| claim_owner := author_or o; claimed_until := Z.to_N u |}
  | _, _ => None
  end.

Definition todo_of (r : TodoRow) : Todo :=
  {| todo_id := r_id r; todo_title := r_title r; todo_status := r_status r; todo_deps := r_deps r;
     todo_claim := claim_of r; todo_author := author_or (r_author r);
     todo_updated_at := Z.to_N (r_updated_at r) |}.

Lemma author_or_label a : author_ok a → author_or (label a) = a.
Proof. intros. unfold author_or. by rewrite from_label_label. Qed.

Lemma deps_from_ok deps : Forall (λ d, todo_id_try_new d = Some d) deps → deps_from deps = Ok deps.
Proof. induction 1 as [|d deps Hd _ IH]; [done|]. simpl. by rewrite Hd, IH. Qed.

Lemma epoch_from_secs_ok what z : (0 <= z <= i64_max)%Z → epoch_from_secs what z = Ok (Z.to_N z).
Proof. intros. unfold epoch_from_secs. by rewrite (proj2 (Z.leb_le 0 z)) by lia. Qed.

Lemma claim_from_ok r : claim_ok r → claim_from r = Ok (claim_of r).
Proof.
  unfold claim_ok, claim_from, claim_of, author_of.
  destruct (r_owner r) as [o|], (r_claimed_until r) as [u|]; try done.
  intros (_ & (a & Ha & ->) & Hu). by rewrite author_or_label, from_label_label, epoch_from_secs_ok.
Qed.

Lemma todo_from_row_ok r : row_ok r → todo_from_row r = Ok (todo_of r).
Proof.
  intros [Hid Ht Hd (a & Ha & Hau) Hu Hc]. unfold todo_from_row, todo_of.
  rewrite claim_from_ok, Hid, Ht, deps_from_ok by done. cbn [ok_or].
  unfold author_of. rewrite Hau, from_label_label, author_or_label, epoch_from_secs_ok by done. done.
Qed.

Lemma collect_ok rows : Forall row_ok rows → collect rows = Ok (todo_of <$> rows).
Proof. induction 1 as [|r rows Hr _ IH]; [done|]. simpl. by rewrite todo_from_row_ok, IH. Qed.

(** One row per key. *)
Lemma filter_is_row db project id r :
  NoDup (row_key <$> db) → r ∈ db → is_row project id r → filter (is_row project id) db = [r].
Proof.
  intros Hnd Hin [Hp Hi]. apply (filter_unique_key row_key); [done|done|done|].
  intros y [Hp' Hi']. unfold row_key. congruence.
Qed.

Lemma find_todo_Some db project id r :
  db_ok db → r ∈ db → is_row project id r → find_todo db project id = Ok (Some (todo_of r)).
Proof.
  intros [Hrows Hkeys] Hin Hr. unfold find_todo. rewrite (filter_is_row db project id r) by done.
  rewrite Forall_forall in Hrows. simpl. by rewrite todo_from_row_ok by auto.
Qed.

Lemma find_todo_cases db project id :
  db_ok db →
  (∃ r, r ∈ db ∧ is_row project id r ∧ find_todo db project id = Ok (Some (todo_of r))) ∨
  (Forall (λ r, ¬ is_row project id r) db ∧ find_todo db project id = Ok None).
Proof.
  intros Hok. destruct (decide (Exists (is_row project id) db)) as [Hex|Hex].
  - apply Exists_exists in Hex as (r & Hin & Hr). left. exists r. split_and!; [done..|].
    by apply find_todo_Some.
  - right. apply not_Exists_Forall in Hex; [|apply _]. split; [done|].
    unfold find_todo. rewrite filter_none; [done|]. by apply Forall_forall.
Qed.

(** ** The SQL predicates against the domain's *)

(** When the clock fits its column, the lapse test of the statements is the
    domain's. *)
Lemma lapsed_iff u now :
  (Z.of_N now <= i64_max)%Z → (0 <= u)%Z → (u <? epoch_param now)%Z = negb (now <=? Z.to_N u)%N.
Proof.
  intros Hn Hu. rewrite epoch_param_small by done.
  destruct (Z.ltb_spec u (Z.of_N now)), (N.leb_spec now (Z.to_N u)); simpl; lia || done.
Qed.

(** What [NEXT_CLAIMABLE] asks of the status and lease. *)
Definition reads_pending (r : TodoRow) (now : N) : bool :=
  match r_status r with
  | Pending => true
  | InProgress => match r_claimed_until r with Some until => (until <? epoch_param now)%Z | None => false end
  | Done => false
  end.

Lemma effective_status_pending r now :
  row_ok r → (Z.of_N now <= i64_max)%Z →
  bool_decide (effective_status (todo_of r) now = Pending) = reads_pending r now.
Proof.
  intros Hr Hn. pose proof (ok_claim r Hr) as Hc.
  unfold effective_status, claim_state, reads_pending, todo_of, claim_of, claim_ok in *. cbn [todo_claim todo_status].
  destruct (r_owner r) as [o|], (r_claimed_until r) as [u|]; try done.
  - destruct Hc as (Hs & _ & Hu). rewrite Hs, lapsed_iff by lia. unfold claim_is_live; cbn [claimed_until].
    by destruct (now <=? Z.to_N u)%N.
  - by destruct (r_status r).
Qed.

Lemma done_map_lookup ts d :
  NoDup (todo_id <$> ts) →
  default true (done_map ts !! d) =
  negb (existsb (λ t, bool_decide (todo_id t = d) && negb (bool_decide (todo_status t = Done))) ts).
Proof.
  unfold done_map. induction ts as [|t ts IH] using rev_ind; intros Hnd; [done|].
  rewrite fmap_app, NoDup_app in Hnd. destruct Hnd as (Hnd & Hdisj & _).
  rewrite foldl_snoc, existsb_app. simpl. rewrite orb_false_r.
  destruct (decide (todo_id t = d)) as [Heq|Hne].
  - rewrite Heq, lookup_insert_eq, (bool_decide_true (d = d)) by done. simpl.
    assert (existsb (λ t, bool_decide (todo_id t = d) && negb (bool_decide (todo_status t = Done))) ts = false) as ->.
    { apply existsb_false, Forall_forall. intros t' Ht'. rewrite bool_decide_false; [done|].
      intros He. apply (Hdisj d); [rewrite <- He; by apply list_elem_of_fmap_2|]. rewrite <- Heq. set_solver. }
    by destruct (bool_decide _).
  - rewrite lookup_insert_ne, bool_decide_false by done. simpl. rewrite orb_false_r. by apply IH.
Qed.

(** The project's rows, and the todos they read as. *)
Definition project_rows (db : TodoDb) (project : Z) : list TodoRow := filter (λ r, r_project r = project) db.

Lemma project_rows_ids db project :
  NoDup (row_key <$> db) → NoDup (todo_id <$> (todo_of <$> project_rows db project)).
Proof.
  intros Hnd. rewrite <- list_fmap_compose. unfold project_rows.
  induction db as [|r db IH]; [constructor|].
  rewrite fmap_cons, NoDup_cons in Hnd. destruct Hnd as [Hn Hnd]. rewrite filter_cons.
  case_decide as Hp; [|auto]. rewrite fmap_cons, NoDup_cons. split; [|auto].
  intros (r' & He & [Hp' Hin]%list_elem_of_filter)%list_elem_of_fmap. apply Hn, list_elem_of_fmap.
  exists r'. split; [|done]. unfold row_key. simpl in He. congruence.
Qed.

Lemma existsb_project db project d :
  existsb (λ dep, bool_decide (r_project dep = project ∧ r_id dep = d) && negb (bool_decide (r_status dep = Done))) db =
  existsb (λ t, bool_decide (todo_id t = d) && negb (bool_decide (todo_status t = Done)))
    (todo_of <$> project_rows db project).
Proof.
  unfold project_rows. induction db as [|r db IH]; [done|]. rewrite filter_cons. simpl.
  case_decide as Hp; simpl; rewrite IH.
  - f_equal. f_equal. apply bool_decide_ext. naive_solver.
  - by rewrite (bool_decide_false (r_project r = project ∧ _)) by naive_solver.
Qed.

Lemma forallb_negb_existsb {A} (p : A → bool) l : forallb (λ x, negb (p x)) l = negb (existsb p l).
Proof. induction l; simpl; [done|]. by rewrite IHl, negb_orb. Qed.

Lemma next_hit_claimable db project now r :
  db_ok db → (Z.of_N now <= i64_max)%Z → r ∈ db → r_project r = project →
  is_claimable (todo_of r) now (λ id, done_map (todo_of <$> project_rows db project) !! id) =
  next_hit db project now r.
Proof.
  intros [Hrows Hkeys] Hn Hin Hp. rewrite Forall_forall in Hrows.
  unfold is_claimable, next_hit. rewrite effective_status_pending by auto.
  fold (reads_pending r now). rewrite (bool_decide_true (r_project r = project)) by done. simpl. f_equal.
  rewrite <- forallb_negb_existsb. rewrite Hp. clear Hin.
  induction (r_deps r) as [|d deps IH]; [done|]. simpl.
  by rewrite done_map_lookup, IH, existsb_project by by apply project_rows_ids.
Qed.

Lemma next_claimable_head db project now :
  db_ok db → (Z.of_N now <= i64_max)%Z →
  head (claimable (todo_of <$> project_rows db project) now) = todo_of <$> List.find (next_hit db project now) db.
Proof.
  intros Hok Hn. unfold claimable. rewrite filter_fmap, head_fmap. f_equal.
  rewrite <- head_filter_find. f_equal.
  pose proof (λ r, next_hit_claimable db project now r Hok Hn) as Heq.
  set (dm := done_map _) in *. clearbody dm. unfold project_rows. rewrite list_filter_filter.
  apply filter_ext_elem. intros r Hin. split.
  - intros [Hc Hp]. by rewrite <- Heq.
  - intros Hh. assert (r_project r = project) as Hp.
    { unfold next_hit in Hh. rewrite !andb_true_iff, bool_decide_eq_true in Hh. tauto. }
    split; [|done]. by rewrite Heq.
Qed.

(** ** Claiming *)

(** A todo as its claimer reads it back. *)
Definition claimed_todo (t : Todo) (me : Author) (lease : duration) (now : N) : Todo :=
  {| todo_id := todo_id t; todo_title := todo_title t; todo_status := InProgress; todo_deps := todo_deps t;
     todo_claim := Some (fresh_claim me lease now); todo_author := me; todo_updated_at := now |}.

Lemma claimed_row_ok me until now r : author_ok me → row_ok r → row_ok (claimed_row me until now r).
Proof.
  intros Hme [Hid Ht Hd _ _ _]. constructor; try done; simpl; [by exists me|apply epoch_param_range|].
  unfold claim_ok; simpl. split; [done|]. split; [by exists me|apply epoch_param_range].
Qed.

Lemma after_le now span : (now <= EpochSeconds.after now span)%N ∨ (u64_max < now)%N.
Proof. unfold EpochSeconds.after, u64_saturating_add. lia. Qed.

Lemma todo_of_claimed_row me lease now r :
  author_ok me → (Z.of_N (EpochSeconds.after now lease) <= i64_max)%Z → (now <= u64_max)%N →
  todo_of (claimed_row me (EpochSeconds.after now lease) now r) = claimed_todo (todo_of r) me lease now.
Proof.
  intros Hme Ha Hu. destruct (after_le now lease) as [Hle|]; [|lia].
  unfold todo_of, claimed_todo, claim_of, fresh_claim; simpl.
  rewrite author_or_label, !epoch_param_small by lia || done. by rewrite !N2Z.id.
Qed.

Lemma update_where_ext P Q `{!∀ r, Decision (P r), !∀ r, Decision (Q r)} f db :
  (∀ r, r ∈ db → P r ↔ Q r) → update_where P f db = update_where Q f db.
Proof.
  unfold update_where. intros HPQ. apply map_ext_in. intros r Hr%list_elem_of_In.
  specialize (HPQ r Hr). repeat case_decide; tauto.
Qed.

Lemma update_where_none P `{!∀ r, Decision (P r)} f db :
  (∀ r, r ∈ db → ¬ P r) → update_where P f db = db.
Proof.
  unfold update_where. intros Hn. rewrite <- (map_id db) at 2. apply map_ext_in.
  intros r Hr%list_elem_of_In. by rewrite decide_False by auto.
Qed.

(** Claiming a todo that may be claimed. *)
Lemma claim_by_id_hit db project me id until now r :
  db_ok db → author_ok me → r ∈ db → is_row project id r → may_claim me now r = true →
  claim_by_id project me id until now db =
    (Ok (Claimed (todo_of (claimed_row me until now r))),
     update_where (is_row project id) (claimed_row me until now) db).
Proof.
  intros [Hrows Hkeys] Hme Hin Hr Hm. unfold claim_by_id.
  assert (∀ r', r' ∈ db → is_row project id r' ∧ may_claim me now r' = true ↔ is_row project id r') as Hext.
  { intros r' Hin'. split; [tauto|]. intros Hr'. split; [done|].
    assert (r' = r) as ->; [|done]. apply (NoDup_key_inj row_key db); try done.
    destruct Hr, Hr'. unfold row_key. congruence. }
  rewrite (filter_ext_elem _ (is_row project id)) by done.
  rewrite (filter_is_row db project id r) by done.
  rewrite Forall_forall in Hrows. simpl.
  rewrite todo_from_row_ok by by apply claimed_row_ok, Hrows. simpl. f_equal.
  by apply update_where_ext.
Qed.

(** Claiming one that may not changes nothing. *)
Lemma claim_by_id_miss db project me id until now :
  db_ok db → (∀ r, r ∈ db → is_row project id r → may_claim me now r = false) →
  claim_by_id project me id until now db =
  match find_todo db project id with
  | Ok (Some todo) => (Ok match claim_state todo now with
                          | Held owner expires_in => HeldBy owner expires_in
                          | Unclaimed | Stale _ => Unavailable todo
                          end, db)
  | _ => (Ok Missing, db)
  end.
Proof.
  intros Hok Hm. unfold claim_by_id.
  rewrite filter_none by (intros r Hin [Hr Hc]; rewrite Hm in Hc; done).
  rewrite update_where_none by (intros r Hin [Hr Hc]; rewrite Hm in Hc; done). simpl.
  destruct (find_todo_cases db project id Hok) as [(r & _ & _ & ->)|[_ ->]]; done.
Qed.

Lemma reads_pending_may_claim me now r : reads_pending r now = true → may_claim me now r = true.
Proof.
  unfold reads_pending, may_claim. destruct (r_status r); try done. intros ->. apply orb_true_r.
Qed.

(** C16: Claiming without naming a todo claims exactly the first one the domain
    calls claimable - reading pending, its lease lapsed or none, every
    dependency done or gone - and answers with it in progress under a fresh
    lease of the caller's; when none is claimable nothing changes. The SQL
    that picks and claims it therefore implements [claimable] on the todos the
    project's rows read as, for any clock that fits the column. *)
Theorem claim_next_is_first_claimable db project me lease now :
  db_ok db → author_ok me → (now <= u64_max)%N → (Z.of_N (EpochSeconds.after now lease) <= i64_max)%Z →
  todos db project = Ok (todo_of <$> project_rows db project) ∧
  write (claim_todo project me None lease now) db =
  match head (claimable (todo_of <$> project_rows db project) now) with
  | None => (Ok NothingClaimable, db)
  | Some t => (Ok (Claimed (claimed_todo t me lease now)),
               update_where (is_row project (todo_id t)) (claimed_row me (EpochSeconds.after now lease) now) db)
  end.
Proof.
  intros Hok Hme Hu Ha. pose proof Hok as [Hrows Hkeys]. rewrite Forall_forall in Hrows.
  assert (Z.of_N now <= i64_max)%Z as Hn by (destruct (after_le now lease); lia).
  split. { apply collect_ok, Forall_forall. intros r [_ Hr]%list_elem_of_filter. auto. }
  rewrite next_claimable_head by done. unfold write, claim_todo, next_claimable.
  destruct (List.find (next_hit db project now) db) as [r|] eqn:Ef; [|done]. simpl.
  apply List.find_some in Ef as [Hin Hh]. apply list_elem_of_In in Hin.
  rewrite (ok_id r) by auto. unfold next_hit in Hh. rewrite !andb_true_iff, bool_decide_eq_true in Hh.
  destruct Hh as [[Hp Hr] _].
  rewrite (claim_by_id_hit db project me (r_id r) _ now r); try done.
  - by rewrite todo_of_claimed_row.
  - by apply reads_pending_may_claim.
Qed.

(** ** Sequences of operations *)
Inductive TodoOp :=
| OpAdd (project : Z) (author : Author) (id title : rstr) (deps : list rstr)
| OpUpdate (project : Z) (me : Author) (id : rstr) (change : TodoChange)
| OpClaim (project : Z) (me : Author) (id : option rstr) (lease : duration)
| OpDelete (project : Z) (id : rstr).

Definition run_op (db : TodoDb) (op : N * TodoOp) : TodoDb :=
  match op.2 with
  | OpAdd project author id title deps => (write (add_todo project author id title deps op.1) db).2
  | OpUpdate project me id change => (write (update_todo project me id change op.1) db).2
  | OpClaim project me id lease => (write (claim_todo project me id lease op.1) db).2
  | OpDelete project id => (write (delete_todo project id) db).2
  end.

Definition run_ops (db : TodoDb) (ops : list (N * TodoOp)) : TodoDb := foldl run_op db ops.

(** The arguments the callers' types allow. *)
Definition op_ok (op : TodoOp) : Prop :=
  match op with
  | OpAdd _ author id title deps =>
      author_ok author ∧ todo_id_try_new id = Some id ∧ todo_title_try_new title = Some title ∧
      Forall (λ d, todo_id_try_new d = Some d) deps
  | OpUpdate _ me _ change =>
      author_ok me ∧ ∀ t, change_title change = Some t → todo_title_try_new t = Some t
  | OpClaim _ me _ _ => author_ok me
  | OpDelete _ _ => True
  end.

Lemma elem_of_update_where P `{!∀ r, Decision (P r)} f db r' :
  r' ∈ update_where P f db → ∃ r, r ∈ db ∧ (P r ∧ r' = f r ∨ ¬ P r ∧ r' = r).
Proof.
  unfold update_where. intros (r & -> & Hr)%list_elem_of_fmap. exists r. split; [done|].
  case_decide; auto.
Qed.

Lemma update_where_ok P `{!∀ r, Decision (P r)} f db :
  db_ok db → (∀ r, r ∈ db → P r → row_ok (f r)) → (∀ r, row_key (f r) = row_key r) →
  db_ok (update_where P f db).
Proof.
  intros [Hrows Hkeys] Hf Hk. rewrite Forall_forall in Hrows. constructor.
  - apply Forall_forall. intros r' (r & Hr & [[? ->]|[? ->]])%elem_of_update_where; auto.
  - assert (row_key <$> update_where P f db = row_key <$> db) as ->; [|done].
    unfold update_where. change (map ?g db) with (g <$> db). rewrite <- list_fmap_compose.
    apply list_fmap_ext. intros i r _. simpl. by case_decide.
Qed.

Lemma row_key_rewritten t r : row_key (rewritten t r) = row_key r.
Proof. unfold rewritten. by destruct (claim_columns t). Qed.

(** What a change leaves is a todo the table takes, and one with an owner when
    it is in progress and had one while it was. *)
Lemma changed_Updated r me change now t :
  row_ok r → author_ok me → (∀ s, change_title change = Some s → todo_title_try_new s = Some s) →
  changed (todo_of r) me change now = Updated t →
  todo_id t = r_id r ∧ todo_title_try_new (todo_title t) = Some (todo_title t) ∧ author_ok (todo_author t) ∧
  (∀ c, todo_claim t = Some c → todo_status t = InProgress ∧ author_ok (claim_owner c)) ∧
  (owned r → todo_status t = InProgress → is_Some (todo_claim t)).
Proof.
  intros Hr Hme Htitle Hch.
  assert (∃ over, t = {| todo_id := r_id r; todo_title := default (r_title r) (change_title change);
      todo_status := default (r_status r) (change_status change); todo_deps := r_deps r;
      todo_claim := changed_claim (todo_of r) me change now over (default (r_status r) (change_status change));
      todo_author := me; todo_updated_at := now |}) as [over ->].
  { unfold changed in Hch. simpl in Hch. repeat case_match; simplify_eq; by eexists. }
  assert (∀ c, claim_of r = Some c → author_ok (claim_owner c)) as Hown.
  { pose proof (ok_claim r Hr) as Hc. unfold claim_ok, claim_of in *. intros c Hc'.
    destruct (r_owner r), (r_claimed_until r); simplify_eq. destruct Hc as (_ & (a & Ha & ->) & _).
    simpl. by rewrite author_or_label. }
  simpl. split_and!; [done| |done| |].
  - destruct (change_title change); [by apply Htitle|by apply ok_title].
  - unfold changed_claim. intros c Hc. cbn [todo_claim todo_of] in Hc.
    destruct (default (r_status r) (change_status change)); [done| |done]. split; [done|].
    repeat case_match; simplify_eq; auto.
  - intros Ho Hs. unfold changed_claim. rewrite Hs. cbn [todo_claim todo_of].
    match goal with |- is_Some (match ?m with _ => _ end) => destruct m; [by eexists|] end.
    destruct (over || _) eqn:Ec; [by eexists|].
    apply orb_false_iff in Ec as [_ Ec%bool_decide_eq_false].
    destruct (change_status change) as [s|]; simpl in Hs; [congruence|].
    destruct (Ho Hs) as [o Hoo]. pose proof (ok_claim r Hr) as Hc. unfold claim_ok, claim_of in *.
    rewrite Hoo in *. destruct (r_claimed_until r); [by eexists|done].
Qed.

Lemma rewritten_ok r t :
  row_ok r → todo_title_try_new (todo_title t) = Some (todo_title t) → author_ok (todo_author t) →
  (∀ c, todo_claim t = Some c → todo_status t = InProgress ∧ author_ok (claim_owner c)) →
  row_ok (rewritten t r) ∧ check_row (rewritten t r) = true.
Proof.
  intros [Hid _ Hd _ _ _] Ht Ha Hc. unfold rewritten, claim_columns.
  destruct (todo_claim t) as [c|] eqn:E; (split; [constructor; simpl; try done|]);
    try (by exists (todo_author t)); try apply epoch_param_range.
  - unfold claim_ok; simpl. destruct (Hc c eq_refl) as [-> Hco]. split; [done|].
    split; [by exists (claim_owner c)|apply epoch_param_range].
  - unfold check_row; simpl. destruct (Hc c eq_refl) as [-> _]. done.
  - done.
Qed.

Lemma update_todo_cases db project me id change now :
  db_ok db → author_ok me → (∀ s, change_title change = Some s → todo_title_try_new s = Some s) →
  (∃ r, r ∈ db ∧ is_row project id r ∧
     update_todo project me id change now db =
     match changed (todo_of r) me change now with
     | Updated t => (Ok (Updated t), update_where (is_row project id) (rewritten t) db)
     | u => (Ok u, db)
     end) ∨
  (Forall (λ r, ¬ is_row project id r) db ∧ update_todo project me id change now db = (Ok UpdateMissing, db)).
Proof.
  intros Hok Hme Ht. unfold update_todo.
  destruct (find_todo_cases db project id Hok) as [(r & Hin & Hr & ->)|[Hn ->]]; [left|by right].
  exists r. split_and!; [done..|].
  destruct (changed (todo_of r) me change now) as [t| |] eqn:Ec; [|done|done].
  pose proof Hok as [Hrows Hkeys]. rewrite Forall_forall in Hrows.
  destruct (changed_Updated r me change now t) as (Hid & H1 & H2 & H3 & _); auto.
  unfold rewrite_todo. replace (todo_id t) with id by (destruct Hr; congruence).
  rewrite (filter_is_row db project id r) by done. simpl.
  destruct (rewritten_ok r t) as [_ ->]; auto.
Qed.

Lemma new_row_ok project author id title deps now :
  op_ok (OpAdd project author id title deps) → row_ok (row_of project (new_todo id title deps author now)).
Proof.
  intros (Ha & Hi & Ht & Hd). constructor; simpl; try done; [by exists author|apply epoch_param_range].
Qed.

(** Adding a todo whose id is not in use appends it. *)
Lemma add_todo_cases db project author id title deps now :
  let row := row_of project (new_todo id title deps author now) in
  add_todo project author id title deps now db =
  (Ok (new_todo id title deps author now),
   if decide (Exists (is_row project id) db) then update_where (is_row project id) (λ _, row) db else db ++ [row]).
Proof.
  unfold add_todo, put_todo. cbv zeta.
  assert (check_row (row_of project (new_todo id title deps author now)) = true) as ->; [|done].
  done.
Qed.

(** What every operation keeps: rows that read back, one per key, and an owner
    on every todo in progress. *)
Definition good (db : TodoDb) : Prop := db_ok db ∧ Forall owned db.

Lemma update_where_good P `{!∀ r, Decision (P r)} f db :
  good db → (∀ r, r ∈ db → P r → row_ok (f r) ∧ owned (f r)) → (∀ r, P r → row_key (f r) = row_key r) →
  good (update_where P f db).
Proof.
  intros [Hok Hown] Hf Hk. pose proof Hok as [Hrows Hkeys]. rewrite Forall_forall in Hrows, Hown.
  split; [constructor|].
  - apply Forall_forall. intros r' (r & Hr & [[? ->]|[? ->]])%elem_of_update_where; [by apply Hf|auto].
  - assert (row_key <$> update_where P f db = row_key <$> db) as ->; [|done].
    unfold update_where. change (map ?g db) with (g <$> db). rewrite <- list_fmap_compose.
    apply list_fmap_ext. intros i r _. simpl. case_decide; auto.
  - apply Forall_forall. intros r' (r & Hr & [[? ->]|[? ->]])%elem_of_update_where; [by apply Hf|auto].
Qed.

Lemma add_good db project author id title deps now :
  good db → op_ok (OpAdd project author id title deps) →
  good (write (add_todo project author id title deps now) db).2.
Proof.
  intros Hg Hop. unfold write. rewrite add_todo_cases. cbn [snd]. set (row := row_of _ _).
  assert (row_ok row) as Hrow by by apply new_row_ok.
  case_decide as Hex; [apply update_where_good; [done|done|by intros r [<- <-]]|].
  apply not_Exists_Forall in Hex; [|apply _]. rewrite Forall_forall in Hex.
  destruct Hg as [[Hrows Hkeys] Hown]. split; [constructor|].
  - apply Forall_app. split; [done|by apply Forall_singleton].
  - rewrite fmap_app. apply NoDup_app. split_and!; [done| |apply NoDup_singleton].
    intros k (r & -> & Hr)%list_elem_of_fmap Hk. apply (Hex r Hr).
    apply list_elem_of_singleton in Hk. unfold row_key, is_row in *. simpl in Hk. naive_solver.
  - apply Forall_app. split; [done|]. by apply Forall_singleton.
Qed.

Lemma update_good db project me id change now :
  good db → op_ok (OpUpdate project me id change) → good (write (update_todo project me id change now) db).2.
Proof.
  intros Hg [Hme Ht]. pose proof Hg as [Hok Hown]. pose proof Hok as [Hrows Hkeys].
  rewrite Forall_forall in Hrows, Hown. unfold write.
  destruct (update_todo_cases db project me id change now) as [(r & Hin & Hr & ->)|[_ ->]]; [done..| |done].
  destruct (changed (todo_of r) me change now) as [t| |] eqn:Ec; [|done|done].
  destruct (changed_Updated r me change now t) as (_ & H1 & H2 & H3 & H4); auto.
  apply update_where_good; [done| |intros; apply row_key_rewritten]. intros r' Hin' Hr'.
  assert (r' = r) as ->.
  { apply (NoDup_key_inj row_key db); try done. destruct Hr, Hr'. unfold row_key. congruence. }
  split; [apply rewritten_ok; auto|]. unfold owned, rewritten, claim_columns.
  destruct (todo_claim t) eqn:E; cbn; intros Hs; [by eexists|]. destruct (H4 (Hown r Hin) Hs). done.
Qed.

Lemma claim_by_id_good db project me id until now :
  good db → author_ok me → good (write (claim_by_id project me id until now) db).2.
Proof.
  intros Hg Hme.
  assert (∀ P `{!∀ r, Decision (P r)}, good (update_where P (claimed_row me until now) db)) as Hupd.
  { intros P HP. apply update_where_good; [done| |done]. intros r Hin _. destruct Hg as [[Hrows _] _].
    rewrite Forall_forall in Hrows. split; [by apply claimed_row_ok, Hrows|]. intros _. by eexists. }
  unfold write, claim_by_id. repeat case_match; simplify_eq; cbn; auto.
Qed.

Lemma run_op_good db op : good db → op_ok op.2 → good (run_op db op).
Proof.
  intros Hg Hop.
  destruct op as [now [p au id title deps|p me id change|p me id lease|p id]]; unfold run_op; cbn [fst snd] in *.
  - by apply add_good.
  - by apply update_good.
  - unfold write, claim_todo. destruct id as [i|]; [by apply claim_by_id_good|].
    destruct (next_claimable db p now) as [n|]; [|done].
    destruct (todo_id_try_new n); [by apply claim_by_id_good|done].
  - destruct Hg as [[Hrows Hkeys] Hown]. cbn. split; [constructor|].
    + by apply Forall_filter.
    + by apply NoDup_fmap_filter.
    + by apply Forall_filter.
Qed.

(** Whatever agents add, change, claim and delete, a todo in progress has
    an owner and a lease, no other todo has one, every row reads back, no two
    rows share an id, and the table's own constraints never refuse a write:
    after any such operations from an empty table, each todo a project lists
    is claimed exactly when it is in progress. *)
Theorem in_progress_todos_are_owned ops project :
  Forall (λ op, op_ok op.2) ops →
  ∃ ts, todos (run_ops [] ops) project = Ok ts ∧ NoDup (todo_id <$> ts) ∧
    Forall (λ t, todo_status t = InProgress ↔ is_Some (todo_claim t)) ts.
Proof.
  intros Hops.
  assert (good (run_ops [] ops)) as [Hok Hown].
  { assert (good []) as Hg by (repeat constructor). revert Hg. generalize (@nil TodoRow).
    induction Hops as [|op ops Hop _ IH]; intros db Hg; [done|]. by apply IH, run_op_good. }
  pose proof Hok as [Hrows Hkeys]. exists (todo_of <$> project_rows (run_ops [] ops) project). split_and!.
  - by apply collect_ok, Forall_filter.
  - by apply project_rows_ids.
  - apply Forall_fmap. apply Forall_forall. intros r [_ Hr]%list_elem_of_filter.
    rewrite Forall_forall in Hrows, Hown. pose proof (ok_claim r (Hrows r Hr)) as Hc. specialize (Hown r Hr).
    unfold owned, claim_ok, compose, todo_of, claim_of in *. simpl.
    destruct (r_owner r), (r_claimed_until r); try done; naive_solver.
Qed.

(** ** Leases guard *)

(** Operations of others that leave a held todo alone: none by the holder
    itself on it, no forced change, no deletion, and no new todo under its
    id. *)
Definition leaves_claim (project : Z) (id : rstr) (h : Author) (op : TodoOp) : Prop :=
  match op with
  | OpAdd p _ i _ _ => (p, i) ≠ (project, id)
  | OpUpdate p me i change => (p, i) ≠ (project, id) ∨ (me ≠ h ∧ change_force change = false)
  | OpClaim p me i _ => p ≠ project ∨ (∃ j, i = Some j ∧ j ≠ id) ∨ me ≠ h
  | OpDelete p i => (p, i) ≠ (project, id)
  end.

(** [r] is held by [h] up to [until]. *)
Definition held_row (r : TodoRow) (project : Z) (id : rstr) (h : Author) (until : N) : Prop :=
  is_row project id r ∧ r_status r = InProgress ∧ r_owner r = Some (label h) ∧
  r_claimed_until r = Some (epoch_param until).

Lemma elem_of_update_where_2 P `{!∀ r, Decision (P r)} f db r :
  r ∈ db → ¬ P r → r ∈ update_where P f db.
Proof.
  intros Hin Hn. unfold update_where. apply list_elem_of_fmap. exists r. by rewrite decide_False.
Qed.

Lemma held_may_claim r project id h until me now :
  held_row r project id h until → author_ok h → author_ok me → me ≠ h → (now <= until)%N →
  may_claim me now r = false.
Proof.
  intros (_ & Hs & Ho & Hu) Hh Hme Hne Hnow. unfold may_claim. rewrite Hs, Ho, Hu.
  rewrite bool_decide_false by (intros [= Hl]; apply Hne; symmetry; by apply label_inj).
  simpl. apply Z.ltb_ge. by apply epoch_param_mono.
Qed.

Lemma claim_by_id_keeps db project me i until' now r :
  r ∈ db → (is_row project i r → may_claim me now r = false) →
  r ∈ (write (claim_by_id project me i until' now) db).2.
Proof.
  intros Hin Hm. unfold write, claim_by_id.
  assert (r ∈ update_where (λ r, is_row project i r ∧ may_claim me now r = true) (claimed_row me until' now) db)
    by (apply elem_of_update_where_2; [done|]; intros [Hr Hc]; rewrite Hm in Hc; done).
  repeat case_match; simplify_eq; done.
Qed.

(** Another agent's change of a held todo is refused unless it forces. *)
Lemma changed_held r project id h until me change now :
  held_row r project id h until → author_ok h → me ≠ h → change_force change = false →
  (Z.of_N now <= i64_max)%Z → (now <= until)%N →
  changed (todo_of r) me change now =
    UpdateHeldBy h (EpochSeconds.until now (Z.to_N (epoch_param until))).
Proof.
  intros (_ & Hs & Ho & Hu) Hh Hne Hf Hn Hnow.
  assert (now <= Z.to_N (epoch_param until))%N as Hle.
  { pose proof (epoch_param_mono _ _ Hnow) as Hm. rewrite (epoch_param_small now) in Hm by done. lia. }
  unfold changed, claim_state, todo_of, claim_of. rewrite Ho, Hu. cbn [todo_claim].
  unfold claim_is_live; cbn [claimed_until claim_owner].
  rewrite (proj2 (N.leb_le _ _) Hle), author_or_label, bool_decide_true, Hf by auto. done.
Qed.

Lemma run_op_keeps_held db op project id h until r :
  db_ok db → op_ok op.2 → leaves_claim project id h op.2 → author_ok h →
  (Z.of_N op.1 <= i64_max)%Z → (op.1 <= until)%N →
  r ∈ db → held_row r project id h until → r ∈ run_op db op.
Proof.
  intros Hok Hop Hlv Hh Hn Hnow Hin Hheld. pose proof Hheld as ([Hp Hi] & _).
  assert (∀ p i, (p, i) ≠ (project, id) → ¬ is_row p i r) as Hother
    by (intros p i Hne [<- <-]; apply Hne; congruence).
  destruct op as [now [p au i title deps|p me i change|p me i lease|p i]]; unfold run_op; cbn [fst snd] in *.
  - unfold write. rewrite add_todo_cases. cbn [snd]. case_decide; [|set_solver].
    apply elem_of_update_where_2; auto.
  - destruct Hop as [Hme Ht]. unfold write.
    destruct (update_todo_cases db p me i change now) as [(r' & Hin' & Hr' & ->)|[_ ->]]; [done..| |done].
    destruct Hlv as [Hne|[Hne Hf]].
    { destruct (changed (todo_of r') me change now); [|done..]. apply elem_of_update_where_2; auto. }
    destruct (decide ((p, i) = (project, id))) as [[= -> ->]|Hne'].
    + assert (r' = r) as ->.
      { apply (NoDup_key_inj row_key db); [by apply Hok|done..|]. destruct Hr'. unfold row_key. congruence. }
      by rewrite (changed_held r project id h until).
    + destruct (changed (todo_of r') me change now); [|done..]. apply elem_of_update_where_2; auto.
  - assert (∀ j, ((p, j) ≠ (project, id) ∨ me ≠ h) →
      r ∈ (write (claim_by_id p me j (EpochSeconds.after now lease) now) db).2) as Hcl.
    { intros j Hj. apply claim_by_id_keeps; [done|]. intros Hr.
      destruct Hj as [Hj|Hj]; [by destruct (Hother p j)|]. by eapply held_may_claim. }
    unfold write, claim_todo. destruct i as [j|].
    { apply Hcl. destruct Hlv as [|[(j' & [= <-] & ?)|]]; [left|left|right]; congruence. }
    destruct (next_claimable db p now) as [n|]; [|done]. destruct (todo_id_try_new n) as [j|]; [|done].
    apply Hcl. destruct Hlv as [|[(j' & ? & ?)|]]; [left; congruence|done|by right].
  - cbn. apply list_elem_of_filter. auto.
Qed.

(** A lease keeps every other agent off the todo until it runs out: once
    [h] claimed it, and whatever others then add, change, claim or delete up to
    the end of the lease - forced changes and the todo's own deletion aside -
    the row stays as [h] left it, and another agent's claim of it is answered
    with [h] and the time left, its change likewise. *)
Theorem lease_excludes_others db project id h until r ops other lease' change now' :
  good db → r ∈ db → held_row r project id h until → author_ok h →
  Forall (λ op, op_ok op.2) ops → Forall (λ op, leaves_claim project id h op.2) ops →
  Forall (λ op, (op.1 <= until)%N ∧ (Z.of_N op.1 <= i64_max)%Z) ops →
  author_ok other → other ≠ h → change_force change = false →
  (∀ s, change_title change = Some s → todo_title_try_new s = Some s) →
  (now' <= until)%N → (Z.of_N now' <= i64_max)%Z →
  let db' := run_ops db ops in
  let left := EpochSeconds.until now' (Z.to_N (epoch_param until)) in
  r ∈ db' ∧
  write (claim_todo project other (Some id) lease' now') db' = (Ok (HeldBy h left), db') ∧
  write (update_todo project other id change now') db' = (Ok (UpdateHeldBy h left), db').
Proof.
  intros Hg Hin Hheld Hh Hops Hlv Ht Ho Hne Hf Htitle Hnow Hn db' left.
  assert (good db' ∧ r ∈ db') as [[Hok Hown] Hin'].
  { subst db'. clear left. revert db Hg Hin. induction ops as [|op ops IH]; intros db Hg Hin; [done|].
    inversion Hops; inversion Hlv; inversion Ht as [|? ? []]; subst. apply IH; try done.
    - by apply run_op_good.
    - eapply run_op_keeps_held; [apply Hg|..]; done. }
  pose proof Hheld as (Hr & Hs & Hown' & Hu).
  assert (∀ r', r' ∈ db' → is_row project id r' → r' = r) as Huniq.
  { intros r' Hr1 Hr2. apply (NoDup_key_inj row_key db'); [by apply Hok|done..|].
    destruct Hr, Hr2. unfold row_key. congruence. }
  split; [done|]. unfold write, claim_todo. split.
  - rewrite claim_by_id_miss; [|done|].
    + rewrite (find_todo_Some db' project id r) by done.
      unfold claim_state, todo_of, claim_of. rewrite Hown', Hu. cbn [todo_claim].
      unfold claim_is_live; cbn [claimed_until claim_owner].
      assert (now' <= Z.to_N (epoch_param until))%N as Hle.
      { pose proof (epoch_param_mono _ _ Hnow) as Hm. rewrite (epoch_param_small now') in Hm by done. lia. }
      by rewrite (proj2 (N.leb_le _ _) Hle), author_or_label.
    + intros r' Hr1 Hr2. rewrite (Huniq r') by done. by eapply held_may_claim.
  - destruct (update_todo_cases db' project other id change now') as [(r' & Hr1 & Hr2 & ->)|[Hnone _]]; [done..| |].
    + rewrite (Huniq r') by done. by rewrite (changed_held r project id h until).
    + rewrite Forall_forall in Hnone. by destruct (Hnone r).
Qed.

Module Witness.

Definition claude : Author := Agent (lit "claude").
Definition codex : Author := Agent (lit "codex").
Definition half_hour : duration := from_secs 1800.
Definition setup : list (N * TodoOp) :=
  [(1%N, OpAdd 1 claude (lit "a") (lit "build") []);
   (2%N, OpAdd 1 claude (lit "b") (lit "deploy") [lit "a"])].
Definition db2 : TodoDb := run_ops [] setup.
Definition db3 : TodoDb := run_op db2 (10%N, OpClaim 1 claude None half_hour).
Definition held_a : TodoRow := default (row_of 0 (new_todo [] [] [] Human 0)) (head db3).

Lemma setup_ok : Forall (λ op, op_ok op.2) setup.
Proof. repeat constructor; by vm_compute. Defined.

Lemma db2_good : good db2.
Proof.
  repeat apply run_op_good; [|by repeat constructor; vm_compute..].
  split; [constructor; constructor|constructor].
Defined.

Lemma db3_good : good db3.
Proof. apply run_op_good; [apply db2_good|]. repeat constructor; by vm_compute. Defined.

Lemma claim_next_is_first_claimable_witness :
  (write (claim_todo 1 codex None half_hour 10) db2).1 =
    Ok (Claimed {| todo_id := lit "a"; todo_title := lit "build"; todo_status := InProgress; todo_deps := [];
                   todo_claim := Some {| claim_owner := codex; claimed_until := 1810 |};
                   todo_author := codex; todo_updated_at := 10 |}).
Proof.
  destruct (claim_next_is_first_claimable db2 1 codex half_hour 10) as [_ ->].
  - apply db2_good.
  - repeat constructor; by vm_compute.
  - by vm_compute.
  - by vm_compute.
  - by vm_compute.
Defined.

Lemma in_progress_todos_are_owned_witness :
  ∃ ts, todos db2 1 = Ok ts ∧ NoDup (todo_id <$> ts) ∧
    Forall (λ t, todo_status t = InProgress ↔ is_Some (todo_claim t)) ts.
Proof. apply (in_progress_todos_are_owned setup 1 setup_ok). Defined.

Lemma lease_excludes_others_witness :
  write (claim_todo 1 codex (Some (lit "a")) half_hour 20) db3 = (Ok (HeldBy claude (from_secs 1790)), db3).
Proof.
  refine (proj1 (proj2 (lease_excludes_others db3 1 (lit "a") claude 1810 held_a [] codex half_hour
    {| change_title := None; change_status := Some Done; change_force := false |} 20
    db3_good _ _ _ (Forall_nil_2 _) (Forall_nil_2 _) (Forall_nil_2 _) _ _ eq_refl _ _ _))).
  - by vm_compute; left.
  - repeat split; by vm_compute.
  - repeat split; by vm_compute.
  - repeat split; by vm_compute.
  - done.
  - done.
  - by vm_compute.
  - by vm_compute.
Defined.

End Witness.
