(* ===== verification/Entries.v ===== *)
(** * Notes and shared values in the store

    Models the scratchpad and key-value half of
    muster-store/src/coordination_rows.rs: two tables of the same shape, keyed
    by project and key and listed by rowid, page by page. SQLite picks the
    rowid of a new row; it is the parameter [new_rowid], of which the listing
    relies on nothing, and the order of first writing on its being larger than
    every rowid in use, as SQLite documents. *)
From S2P Require Import Prelude RustText Values Coordination Store.

(** A row of [scratchpads] or [kv]: its text is the body or the value. *)
Record EntryRow := {
  e_rowid : Z;
  e_project : Z;
  e_key : rstr;
  e_text : rstr;
  e_author : rstr;
  e_updated_at : Z;
}.

#[export] Instance EntryRow_eq_dec : EqDecision EntryRow.
Proof. solve_decision. Defined.

(** The rows in rowid order. *)
Notation EntryDb := (list EntryRow) (only parsing).

(** [Scratchpad] and [KeyValue]. *)
Record Entry := { entry_key : rstr; entry_text : rstr; entry_author : Author; entry_updated_at : N }.

Definition entry_author_of (l : rstr) : result Author StoreFailure :=
  match from_label l with Ok a => Ok a | Err _ => Err (CorruptRow (lit "author")) end.

(** Reads a row; [key_try_new] is the table's own key check. *)
Definition entry_from_row (key_try_new : rstr → option rstr) (what : rstr) (r : EntryRow) : result Entry StoreFailure :=
  let? key := ok_or (key_try_new (e_key r)) (CorruptRow what) in
  let? author := entry_author_of (e_author r) in
  let? updated := epoch_from_secs (lit "write time") (e_updated_at r) in
  Ok {| entry_key := key; entry_text := e_text r; entry_author := author; entry_updated_at := updated |}.

Definition scratchpad_from_row : EntryRow → result Entry StoreFailure :=
  entry_from_row scratchpad_key_try_new (lit "scratchpad key").
Definition key_value_from_row : EntryRow → result Entry StoreFailure :=
  entry_from_row kv_key_try_new (lit "kv key").

(** The write-order position of a row. *)
Definition position (r : EntryRow) : result Z StoreFailure :=
  if (0 <=? e_rowid r)%Z then Ok (e_rowid r) else Err (CorruptRow (lit "entry position")).

(** A listed row with its position. *)
Definition positioned {T} (map : EntryRow → result T StoreFailure) (r : EntryRow) : result (Z * T) StoreFailure :=
  let? p := position r in
  let? t := map r in Ok (p, t).

(** Every row of a list, mapped. *)
Fixpoint collect {T} (map : EntryRow → result T StoreFailure) (rows : list EntryRow) : result (list T) StoreFailure :=
  match rows with
  | [] => Ok []
  | r :: rows =>
    let? t := map r in
    let? rest := collect map rows in Ok (t :: rest)
  end.

Definition PAGE_START : Z := 0.

(** [WHERE project_id = :project AND rowid > :after ORDER BY rowid]. *)
Definition after_position (project after : Z) (r : EntryRow) : Prop := e_project r = project ∧ (after < e_rowid r)%Z.
#[export] Instance after_position_dec project after r : Decision (after_position project after r).
Proof. unfold after_position. apply _. Defined.

(** One page after a position, read one past the limit. *)
Definition page {T} (map : EntryRow → result T StoreFailure) (db : EntryDb) (project : Z)
    (after : option Z) (limit : nat) : result (EntryPage T) StoreFailure :=
  let? rows := collect (positioned map)
                 (take (limit + 1) (filter (after_position project (default PAGE_START after)) db)) in
  Ok (page_of rows limit).

(** [WHERE project_id = ? AND key = ?]. *)
Definition is_entry (project : Z) (key : rstr) (r : EntryRow) : Prop := e_project r = project ∧ e_key r = key.
#[export] Instance is_entry_dec project key r : Decision (is_entry project key r).
Proof. unfold is_entry. apply _. Defined.

Section writes.
Context (new_rowid : list Z → Z).

(** Writes an entry; a rewrite keeps its place in write order. *)
Definition put_entry (project : Z) (e : Entry) (db : EntryDb) : EntryDb :=
  let row rowid := {| e_rowid := rowid; e_project := project; e_key := entry_key e; e_text := entry_text e;
                      e_author := label (entry_author e); e_updated_at := epoch_param (entry_updated_at e) |} in
  if decide (Exists (is_entry project (entry_key e)) db)
  then (λ r, if decide (is_entry project (entry_key e) r) then row (e_rowid r) else r) <$> db
  else db ++ [row (new_rowid (e_rowid <$> db))].

(** [set_scratchpad] and [set_value]. *)
Definition set_entry (project : Z) (author : Author) (key text : rstr) (now : N) (db : EntryDb) : EntryDb :=
  put_entry project {| entry_key := key; entry_text := text; entry_author := author; entry_updated_at := now |} db.

(** Imported entries, with the author and time they carry. *)
Definition import_entries (project : Z) (es : list Entry) (db : EntryDb) : EntryDb :=
  foldl (λ db e, put_entry project e db) db es.
End writes.

(** [delete_one]: whether a row went, and the rows left. *)
Definition delete_entry (project : Z) (key : rstr) (db : EntryDb) : bool * EntryDb :=
  (bool_decide (Exists (is_entry project key) db), filter (λ r, ¬ is_entry project key r) db).

(** The entry under a key. *)
Definition find_entry {T} (map : EntryRow → result T StoreFailure) (db : EntryDb) (project : Z) (key : rstr)
    : result (option T) StoreFailure :=
  let? ts := collect map (filter (is_entry project key) db) in Ok (last ts).

(** Every entry, in write order. *)
Definition entries {T} (map : EntryRow → result T StoreFailure) (db : EntryDb) (project : Z)
    : result (list T) StoreFailure :=
  collect map (filter (λ r, e_project r = project) db).

(** A reader that follows [next] from page to page. *)
Fixpoint walk {T} (fuel : nat) (map : EntryRow → result T StoreFailure) (db : EntryDb) (project : Z)
    (after : option Z) (limit : nat) : result (list T) StoreFailure :=
  match fuel with
  | O => Ok []
  | S fuel =>
    let? p := page map db project after limit in
    match page_next p with
    | None => Ok (page_entries p)
    | Some n => let? rest := walk fuel map db project (Some n) limit in Ok (page_entries p ++ rest)
    end
  end.

(** * Laws *)

(** Rows in rowid order, with positive rowids. *)
Definition in_order (db : EntryDb) : Prop :=
  StronglySorted (λ a b, (e_rowid a < e_rowid b)%Z) db ∧ Forall (λ r, (0 < e_rowid r)%Z) db.

Lemma collect_app {T} (map : EntryRow → result T StoreFailure) rows rows' :
  collect map (rows ++ rows') =
  (let? ts := collect map rows in let? ts' := collect map rows' in Ok (ts ++ ts')).
Proof.
  induction rows as [|r rows IH]; simpl; [by destruct (collect map rows')|].
  destruct (map r); [|done]. rewrite IH.
  destruct (collect map rows); [|done]. by destruct (collect map rows').
Qed.

Lemma collect_length {T} (map : EntryRow → result T StoreFailure) rows ts :
  collect map rows = Ok ts → length ts = length rows.
Proof.
  revert ts. induction rows as [|r rows IH]; simpl; intros ts; [by intros [= <-]|].
  destruct (map r); [|done]. destruct (collect map rows) as [l|]; [|done]. intros [= <-]. simpl.
  by rewrite (IH l).
Qed.

Lemma collect_positioned {T} (map : EntryRow → result T StoreFailure) rows ts :
  Forall (λ r, (0 < e_rowid r)%Z) rows → collect map rows = Ok ts →
  collect (positioned map) rows = Ok (zip (e_rowid <$> rows) ts).
Proof.
  intros Hr. revert ts. induction Hr as [|r rows Hpos _ IH]; simpl; intros ts; [by intros [= <-]|].
  unfold positioned at 1, position. rewrite (proj2 (Z.leb_le 0 _)) by lia.
  destruct (map r) as [t|]; [|done]. destruct (collect map rows) as [l|]; [|done]. intros [= <-].
  by rewrite (IH l).
Qed.

(** What is left after a row is what follows it. *)
Lemma filter_after_split db project after l1 r l2 :
  StronglySorted (λ a b, (e_rowid a < e_rowid b)%Z) db → (after <= e_rowid r)%Z →
  filter (after_position project after) db = l1 ++ r :: l2 →
  filter (after_position project (e_rowid r)) db = l2.
Proof.
  intros Hs Hle Hf.
  assert (filter (after_position project (e_rowid r)) db =
          filter (λ x, (e_rowid r < e_rowid x)%Z) (filter (after_position project after) db)) as ->.
  { rewrite list_filter_filter. apply filter_ext_elem. unfold after_position. intros x _. lia. }
  assert (StronglySorted (λ a b, (e_rowid a < e_rowid b)%Z) (l1 ++ r :: l2)) as Hs'
    by (rewrite <- Hf; by apply StronglySorted_filter).
  rewrite Hf, filter_app, filter_cons, decide_False by lia. apply StronglySorted_app in Hs' as (Hlt & _ & Hs2).
  inversion Hs2 as [|? ? _ Hall]; subst. rewrite Forall_forall in Hall.
  rewrite filter_none, filter_all; [done|auto|].
  intros x Hx. specialize (Hlt x r Hx). set_unfold in Hlt. specialize (Hlt (or_introl eq_refl)). lia.
Qed.

(** The listed rows of a page and where the next one starts. *)
Lemma page_exact {T} (map : EntryRow → result T StoreFailure) db project after limit ts :
  in_order db → collect map (filter (after_position project (default PAGE_START after)) db) = Ok ts →
  let rest := filter (after_position project (default PAGE_START after)) db in
  page map db project after limit =
    Ok {| page_entries := take limit ts;
          page_next := if limit <? length rest then e_rowid <$> last (take limit rest) else None |}.
Proof.
  intros [_ Hpos] Hts rest. unfold page. fold rest.
  assert (Forall (λ r, (0 < e_rowid r)%Z) rest) as Hpos' by by apply Forall_filter.
  fold rest in Hts. pose proof (collect_length _ _ _ Hts) as Hlen.
  rewrite <- (take_drop (limit + 1) rest), collect_app in Hts.
  destruct (collect map (take (limit + 1) rest)) as [ts1|] eqn:E1; [|done].
  destruct (collect map (drop (limit + 1) rest)) as [ts2|] eqn:E2; [|done]. injection Hts as <-.
  pose proof (collect_length _ _ _ E1) as Hlen1. rewrite length_take in Hlen1.
  assert (take limit (ts1 ++ ts2) = take limit ts1) as Htake.
  { pose proof (collect_length _ _ _ E2) as Hlen2. rewrite length_drop in Hlen2.
    destruct (decide (limit ≤ length ts1)); [by apply take_app_le|].
    destruct ts2; [by rewrite app_nil_r|simpl in Hlen2; lia]. }
  rewrite (collect_positioned map _ ts1) by (done || by apply Forall_take). unfold page_of. do 2 f_equal.
  - rewrite Htake, fmap_take, snd_zip by (rewrite length_fmap, length_take; lia). done.
  - rewrite length_zip, length_fmap, length_take, Hlen1.
    replace (limit <? (limit + 1) `min` length rest `min` ((limit + 1) `min` length rest)) with (limit <? length rest)
      by (destruct (Nat.ltb_spec limit (length rest)), (Nat.ltb_spec limit ((limit + 1) `min` length rest `min` ((limit + 1) `min` length rest))); lia || done).
    case_match; [|done].
    rewrite <- (fmap_last fst), fmap_take, fst_zip, <- fmap_take, take_take, fmap_last
      by (rewrite length_fmap, length_take; lia).
    do 3 f_equal. lia.
Qed.

Lemma walk_all {T} (map : EntryRow → result T StoreFailure) db project limit fuel after ts :
  in_order db → 0 < limit →
  collect map (filter (after_position project (default PAGE_START after)) db) = Ok ts →
  length ts < fuel → walk fuel map db project after limit = Ok ts.
Proof.
  intros Hord Hlim. revert after ts. induction fuel as [|fuel IH]; intros after ts Hts Hfuel; [lia|].
  cbn [walk]. rewrite (page_exact map db project after limit ts) by done. cbn [page_next page_entries].
  set (rest := filter _ db) in *. pose proof (collect_length _ _ _ Hts) as Hlen.
  destruct (Nat.ltb_spec limit (length rest)) as [Hlt|Hge].
  2: { by rewrite take_ge by lia. }
  destruct (last (take limit rest)) as [r|] eqn:El.
  2: { apply last_None in El. apply (f_equal length) in El. rewrite length_take in El. simpl in El. lia. }
  apply last_Some in El as [l1 El]. cbn [fmap option_fmap option_map].
  assert (rest = l1 ++ r :: drop limit rest) as Hrest.
  { rewrite <- (take_drop limit rest) at 1. rewrite El, <- app_assoc. done. }
  assert (filter (after_position project (e_rowid r)) db = drop limit rest) as Hnext.
  { eapply filter_after_split; [apply Hord| |exact Hrest].
    assert (r ∈ rest) as Hr by (rewrite Hrest; set_solver).
    apply list_elem_of_filter in Hr as [[_ Hr] _]. lia. }
  rewrite <- (take_drop limit rest), collect_app in Hts.
  destruct (collect map (take limit rest)) as [ts1|] eqn:E1; [|done].
  destruct (collect map (drop limit rest)) as [ts2|] eqn:E2; [|done]. injection Hts as <-.
  assert (length ts1 = limit) as Hl1 by (rewrite (collect_length _ _ _ E1), length_take; lia).
  rewrite (IH (Some (e_rowid r)) ts2).
  - by rewrite take_app_length' by done.
  - cbn [default from_option id]. by rewrite Hnext.
  - rewrite length_app in Hfuel. lia.
Qed.

(** Following a listing page by page yields every entry of the project,
    once and in the order they were first written, whatever the page size, and
    within as many pages as there are entries and one more; each page is the
    next [limit] of them. *)
Theorem pages_cover_entries {T} (map : EntryRow → result T StoreFailure) db project limit ts :
  in_order db → 0 < limit → entries map db project = Ok ts →
  walk (S (length ts)) map db project None limit = Ok ts.
Proof.
  intros Hord Hlim Hts. apply walk_all; [done|done| |lia].
  rewrite <- Hts. unfold entries. f_equal. apply filter_ext_elem. intros r Hr.
  unfold after_position; simpl. destruct Hord as [_ Hpos]. rewrite Forall_forall in Hpos.
  specialize (Hpos r Hr). simpl in Hpos. unfold PAGE_START. split; [tauto|]. intros. split; [done|lia].
Qed.

Section write_order.
Context (new_rowid : list Z → Z).
Hypothesis new_rowid_larger : ∀ ids, Forall (λ i, i < new_rowid ids)%Z ids ∧ (0 < new_rowid ids)%Z.

(** Writing keeps the order of first writing: a rewrite leaves every rowid
    where it was, a new entry comes after all others, and a listing of what
    was there before is a prefix of the listing after, up to the rewritten
    texts. It needs only that a new rowid is larger than every one in use. *)
Theorem put_entry_keeps_order project e db :
  in_order db →
  in_order (put_entry new_rowid project e db) ∧
  ((λ r, (e_rowid r, e_project r, e_key r)) <$> db) `prefix_of`
    ((λ r, (e_rowid r, e_project r, e_key r)) <$> put_entry new_rowid project e db) ∧
  (∃ r, r ∈ put_entry new_rowid project e db ∧ is_entry project (entry_key e) r ∧ e_text r = entry_text e).
Proof.
  intros [Hs Hpos]. unfold put_entry. case_decide as Hex.
  - set (f := λ r, if decide (is_entry project (entry_key e) r) then _ else r).
    assert (∀ r, e_rowid (f r) = e_rowid r) as Hf by (intros r; unfold f; by case_decide).
    split_and!; [split|..].
    + clear Hpos Hex. induction Hs as [|r db Hs IH Hall]; [constructor|]. constructor; [done|].
      apply Forall_fmap. eapply Forall_impl; [exact Hall|]. simpl. intros x. by rewrite !Hf.
    + apply Forall_fmap. eapply Forall_impl; [exact Hpos|]. simpl. intros x. by rewrite Hf.
    + apply reflexive_eq. rewrite <- list_fmap_compose. apply list_fmap_ext. intros i r _. simpl.
      unfold f. case_decide as Hr; [|done]. destruct Hr as [<- <-]. done.
    + apply Exists_exists in Hex as (r & Hr & He). exists (f r). split; [by apply list_elem_of_fmap_2|].
      unfold f. rewrite decide_True by done. done.
  - destruct (new_rowid_larger (e_rowid <$> db)) as [Hlt Hp]. split_and!; [split|..].
    + apply StronglySorted_app_2; [|done|repeat constructor]. intros x y Hx Hy.
      apply list_elem_of_singleton in Hy as ->. simpl. rewrite Forall_fmap, Forall_forall in Hlt. by apply Hlt.
    + apply Forall_app. split; [done|]. by apply Forall_singleton.
    + rewrite fmap_app. by apply prefix_app_r.
    + eexists. split; [apply elem_of_app; right; by apply list_elem_of_singleton|]. done.
Qed.
End write_order.

Module Witness.

(** SQLite's documented choice for a table without AUTOINCREMENT. *)
Definition one_past_largest (ids : list Z) : Z := (foldr Z.max 0 ids + 1)%Z.

Lemma one_past_largest_larger ids :
  Forall (λ i, i < one_past_largest ids)%Z ids ∧ (0 < one_past_largest ids)%Z.
Proof.
  unfold one_past_largest. split; [|induction ids; simpl; lia].
  apply Forall_forall. intros i Hi. induction ids as [|j ids IH]; simpl; [set_solver|].
  apply elem_of_cons in Hi as [->|Hi]; [lia|]. specialize (IH Hi). lia.
Defined.

Definition claude : Author := Agent (lit "claude").
Definition set (key : rstr) (db : EntryDb) : EntryDb := set_entry one_past_largest 1 claude key (lit "v") 7 db.
Definition three : EntryDb := set (lit "c") (set (lit "b") (set (lit "a") [])).
Definition ok_value {T} (r : result T StoreFailure) : option T := match r with Ok t => Some t | Err _ => None end.

Definition listed : list Entry :=
  (λ k, {| entry_key := k; entry_text := lit "v"; entry_author := claude; entry_updated_at := 7 |})
    <$> [lit "a"; lit "b"; lit "c"].

Lemma pages_cover_entries_witness : walk 4 key_value_from_row three 1 None 2 = Ok listed.
Proof.
  change 4 with (S (length listed)).
  apply (pages_cover_entries key_value_from_row three 1 2 listed).
  - split; repeat constructor; by vm_compute.
  - lia.
  - by vm_compute.
Defined.

Lemma put_entry_keeps_order_witness : in_order (set (lit "a") three).
Proof.
  apply (put_entry_keeps_order one_past_largest one_past_largest_larger 1
    {| entry_key := lit "a"; entry_text := lit "v"; entry_author := claude; entry_updated_at := 7 |} three).
  split; repeat constructor; by vm_compute.
Defined.

End Witness.

(** A position is not unique over time: with SQLite's choice of rowids, a
    reader whose first page of two ended on [b] and who resumes after [b] and
    [c] were deleted and [d] written is shown an empty last page, although [d]
    was written after every entry it saw. *)
Lemma resume_misses_reused_position :
  option_map page_next (Witness.ok_value (page key_value_from_row Witness.three 1 None 2)) = Some (Some 2%Z) ∧
  let db := Witness.set (lit "d") (delete_entry 1 (lit "c") (delete_entry 1 (lit "b") Witness.three).2).2 in
  page key_value_from_row db 1 (Some 2%Z) 2 = Ok {| page_entries := []; page_next := None |} ∧
  option_map (map entry_key) (Witness.ok_value (entries key_value_from_row db 1)) = Some [lit "a"; lit "d"].
Proof. by vm_compute. Qed.
