(* ===== verification/EventLog.v ===== *)
(** * The service's event log and notices

    Models muster-service/src/event_log.rs, event_draft.rs and
    notices.rs with the cursor of
    muster-protocol/src/service/event_seq.rs. The log is a bounded ring; the
    specification it refines is the whole history. Times are nanoseconds. The
    count of events is a [u64] the model does not bound: it would take 2^64
    events to wrap. The general category Format is the parameter [is_format]. *)
From S2P Require Import Prelude RustText RustPath Values.

(** ** Cursors *)
Record EventSeq := { es_epoch : N; es_seq : N }.

#[export] Instance EventSeq_eq_dec : EqDecision EventSeq.
Proof. solve_decision. Defined.

Module EventSeqText.
Definition SEQ_PREFIX : rstr := lit "e:".
Definition EPOCH_SEPARATOR : rchar := 58%N.
Definition SEQ_FORM : rstr := lit "an event cursor such as e:3141592:9921".

(** Whether this cursor names a later event than [other] of the same log. *)
Definition is_after (self other : EventSeq) : bool :=
  bool_decide (es_epoch self = es_epoch other) && (es_seq other <? es_seq self)%N.

(** [e:<epoch>:<seq>]. *)
Definition display (self : EventSeq) : rstr :=
  SEQ_PREFIX ++ print_dec (es_epoch self) ++ [EPOCH_SEPARATOR] ++ print_dec (es_seq self).

Definition from_str (raw : rstr) : result EventSeq ValueParseError :=
  match
    strip_prefix SEQ_PREFIX (trim raw) ≫= λ rest,
    split_once EPOCH_SEPARATOR rest ≫= λ es,
    parse_uint u32_max es.1 ≫= λ epoch,
    parse_uint u64_max es.2 ≫= λ seq,
    Some {| es_epoch := epoch; es_seq := seq |}
  with
  | Some s => Ok s
  | None => Err {| expected := SEQ_FORM; found := raw |}
  end.
End EventSeqText.

(** ** Events *)
Inductive EventKind :=
| Started | Ready | ReadyTimeout | Exited | Crashed | Restarting | Stopped | Blocked | Notice_ | IdleStopped.

#[export] Instance EventKind_eq_dec : EqDecision EventKind.
Proof. solve_decision. Defined.

Record EventDraft := {
  draft_project : option path;
  draft_process : option rstr;
  draft_kind : EventKind;
  draft_detail : rstr;
  draft_cursor : option N;
}.

Record StackEvent := {
  ev_seq : EventSeq;
  ev_at : N;
  ev_project : option path;
  ev_process : option rstr;
  ev_kind : EventKind;
  ev_detail : rstr;
  ev_cursor : option N;
}.

Record EventPage := {
  page_events : list StackEvent;
  page_cursor : EventSeq;
  page_gap : bool;
}.

Definition MAX_EVENTS : nat := N.to_nat 1024.
Definition EVENTS_WITHOUT_SINCE : nat := 20.

Record EventLog := {
  epoch : N;
  ring : list StackEvent;
  recorded : N;
  dropped : gmap (option path) N;
}.

Section log.
Context (is_format : rchar → bool).

(** The event a draft is once numbered, its detail made printable. *)
Definition into_event (d : EventDraft) (seq : EventSeq) (at_ : N) : StackEvent :=
  {| ev_seq := seq; ev_at := at_; ev_project := draft_project d; ev_process := draft_process d;
     ev_kind := draft_kind d; ev_detail := printable is_format (draft_detail d); ev_cursor := draft_cursor d |}.

Definition with_epoch (e : N) : EventLog :=
  {| epoch := e; ring := []; recorded := 0; dropped := ∅ |}.

(** The cursor of the [n]th event of the log. *)
Definition seq (l : EventLog) (n : N) : EventSeq := {| es_epoch := epoch l; es_seq := n |}.

(** Records a draft as having happened [at_], or as the newest event did when
    that is later, dropping the oldest once the ring is full. *)
Definition record_at (l : EventLog) (d : EventDraft) (at_ : N) : EventSeq * EventLog :=
  let at_ := match last (ring l) with Some newest => N.max at_ (ev_at newest) | None => at_ end in
  let recorded := (recorded l + 1)%N in
  let s := seq l recorded in
  let '(ring, dropped) :=
    if bool_decide (length (ring l) = MAX_EVENTS) then
      match ring l with
      | oldest :: ring => (ring, <[ev_project oldest := es_seq (ev_seq oldest)]> (dropped l))
      | [] => (ring l, dropped l)
      end
    else (ring l, dropped l) in
  (s, {| epoch := epoch l; ring := ring ++ [into_event d s at_]; recorded := recorded; dropped := dropped |}).

(** The newest event's seq. *)
Definition latest (l : EventLog) : EventSeq := seq l (recorded l).

(** About [project] or the whole service. *)
Definition concerns (project : path) (e : StackEvent) : bool :=
  match ev_project e with None => true | Some root => bool_decide (root = project) end.

Definition of_kinds (kinds : list EventKind) (e : StackEvent) : bool :=
  bool_decide (kinds = []) || bool_decide (ev_kind e ∈ kinds).

Definition relevant (project : path) (kinds : list EventKind) (e : StackEvent) : Prop :=
  concerns project e && of_kinds kinds e = true.
#[export] Instance relevant_dec project kinds e : Decision (relevant project kinds e).
Proof. unfold relevant. apply _. Defined.

(** Whether an event about the project, or the service, after [since] was
    dropped. *)
Definition missed (l : EventLog) (project : path) (since : EventSeq) : bool :=
  existsb (λ d, (es_seq since <? d)%N) (omap (λ key, dropped l !! key) [Some project; None]).

(** The held events after [since], and whether some were missed. *)
Definition page (l : EventLog) (project : path) (since : option EventSeq) (kinds : list EventKind) : EventPage :=
  let held := filter (relevant project kinds) (ring l) in
  let '(events, gap) :=
    match since with
    | Some since =>
      if negb (bool_decide (es_epoch since = epoch l)) || (recorded l <? es_seq since)%N then (held, true)
      else (filter (λ e, (es_seq since < es_seq (ev_seq e))%N) held, missed l project since)
    | None => (reverse (take EVENTS_WITHOUT_SINCE (reverse held)), false)
    end in
  {| page_events := events; page_cursor := latest l; page_gap := gap |}.
End log.

(** ** Notices *)
Inductive NoticeLevel := Info | Warning | Error.

Record Notice := {
  n_at : N;
  n_project : option path;
  n_process : option rstr;
  n_level : NoticeLevel;
  n_message : rstr;
}.

Definition MAX_NOTICES : nat := N.to_nat 256.

Definition notice_printable (is_format : rchar → bool) (n : Notice) : Notice :=
  {| n_at := n_at n; n_project := n_project n; n_process := n_process n; n_level := n_level n;
     n_message := printable is_format (n_message n) |}.

(** Records a notice, made printable, dropping the oldest once the ring is
    full; the second part is what the mirror is given, when there is one. *)
Definition push (is_format : rchar → bool) (ring : list Notice) (n : Notice) : list Notice * Notice :=
  let n := notice_printable is_format n in
  let ring := if bool_decide (length ring = MAX_NOTICES) then tail ring else ring in
  (ring ++ [n], n).

(** The held notices for the project and for the service. *)
Definition recent (ring : list Notice) (project : path) : list Notice :=
  filter (λ n, match n_project n with None => true | Some root => bool_decide (root = project) end = true) ring.

(** * The specification: the whole history *)

(** A log that never drops: the event appended next. *)
Definition spec_record (is_format : rchar → bool) (e : N) (h : list StackEvent) (d : EventDraft) (at_ : N)
    : list StackEvent :=
  h ++ [into_event is_format d {| es_epoch := e; es_seq := N.of_nat (length h) + 1 |}
          (match last h with Some newest => N.max at_ (ev_at newest) | None => at_ end)].

Definition spec_history (is_format : rchar → bool) (e : N) (ds : list (EventDraft * N)) : list StackEvent :=
  foldl (λ h d, spec_record is_format e h d.1 d.2) [] ds.

Definition log_of (is_format : rchar → bool) (e : N) (ds : list (EventDraft * N)) : EventLog :=
  foldl (λ l d, (record_at is_format l d.1 d.2).2) (with_epoch e) ds.

(** How many of the history's events the ring dropped. *)
Definition dropped_count (h : list StackEvent) : nat := length h - MAX_EVENTS.

(** The ring is the newest part of the history, and the dropped map holds the
    newest dropped seq of each project. *)
Record refines (l : EventLog) (e : N) (h : list StackEvent) : Prop := {
  ref_epoch : epoch l = e;
  ref_recorded : recorded l = N.of_nat (length h);
  ref_ring : ring l = drop (dropped_count h) h;
  ref_dropped : ∀ key, dropped l !! key =
    last (omap (λ ev, if bool_decide (ev_project ev = key) then Some (es_seq (ev_seq ev)) else None)
            (take (dropped_count h) h));
}.

(** Every event is numbered by its place, under the log's epoch. *)
Definition numbered (e : N) (h : list StackEvent) : Prop :=
  ∀ i ev, h !! i = Some ev → ev_seq ev = {| es_epoch := e; es_seq := N.of_nat i + 1 |}.

Section laws.
Context (is_format : rchar → bool).

Lemma last_drop {A} (l : list A) n : n < length l → last (drop n l) = last l.
Proof.
  intros Hn. rewrite <- (take_drop n l) at 2. rewrite last_app.
  destruct (drop n l) eqn:E; [|by rewrite last_cons; destruct (last l0)].
  apply (f_equal length) in E. rewrite length_drop in E. simpl in E. lia.
Qed.

Lemma dropped_count_snoc h ev :
  dropped_count (h ++ [ev]) = if MAX_EVENTS <=? length h then S (dropped_count h) else 0.
Proof.
  unfold dropped_count. rewrite length_app. cbn [length]. destruct (Nat.leb_spec MAX_EVENTS (length h)); lia.
Qed.

Lemma MAX_EVENTS_pos : 0 < MAX_EVENTS.
Proof. unfold MAX_EVENTS. lia. Qed.

Lemma refines_newest l e h : refines l e h → last (ring l) = last h.
Proof.
  intros [_ _ Hring _]. rewrite Hring. destruct (decide (h = [])) as [->|Hne]; [by rewrite drop_nil|].
  apply last_drop. pose proof MAX_EVENTS_pos. destruct h; [done|]. unfold dropped_count. cbn [length]. lia.
Qed.

Lemma record_refines l e h d at_ :
  refines l e h → refines (record_at is_format l d at_).2 e (spec_record is_format e h d at_).
Proof.
  intros Href. pose proof Href as [He Hrec Hring Hdrop]. pose proof MAX_EVENTS_pos as Hpos.
  assert (length (ring l) = length h - dropped_count h) as Hlen by (rewrite Hring, length_drop; done).
  unfold record_at, spec_record. rewrite (refines_newest l e h Href). unfold seq. rewrite Hrec, He.
  set (ev := into_event _ _ _ _).
  assert (N.of_nat (length h) + 1 = N.of_nat (length (h ++ [ev])))%N as Hcount
    by (rewrite length_app; cbn [length]; lia).
  case_bool_decide as Hfull.
  - assert (MAX_EVENTS ≤ length h) as Hge by (unfold dropped_count in *; lia).
    destruct (ring l) as [|oldest r] eqn:Er; [cbn [length] in Hfull; lia|].
    assert (h !! dropped_count h = Some oldest) as Hold.
    { rewrite <- (Nat.add_0_r (dropped_count h)), <- lookup_drop, <- Hring. done. }
    pose proof (lookup_lt_Some _ _ _ Hold).
    assert (dropped_count (h ++ [ev]) = S (dropped_count h)) as Hc
      by (by rewrite dropped_count_snoc, (proj2 (Nat.leb_le _ _))).
    constructor; cbn [snd epoch recorded ring dropped]; [done|done| |].
    + rewrite Hc, drop_app_le by lia. rewrite (drop_S h oldest _ Hold) in Hring. by injection Hring as ->.
    + intros key. rewrite Hc, take_app_le, (take_S_r h _ oldest Hold), omap_app, last_app by lia.
      cbn [omap list_omap]. case_bool_decide as Hk; cbn [last].
      * subst key. by rewrite lookup_insert_eq.
      * rewrite lookup_insert_ne by done. apply Hdrop.
  - assert (length h < MAX_EVENTS) as Hlt by (unfold dropped_count in *; lia).
    assert (dropped_count (h ++ [ev]) = 0) as Hc
      by (rewrite dropped_count_snoc, (proj2 (Nat.leb_gt _ _)); done).
    assert (dropped_count h = 0) as Hc' by (unfold dropped_count; lia).
    constructor; cbn [snd epoch recorded ring dropped]; [done|done| |].
    + by rewrite Hc, Hring, Hc'.
    + intros key. by rewrite Hc, Hdrop, Hc'.
Qed.

Lemma log_refines e ds : refines (log_of is_format e ds) e (spec_history is_format e ds).
Proof.
  induction ds as [|d ds IH] using rev_ind.
  - by constructor.
  - unfold log_of, spec_history in *. rewrite !foldl_snoc. by apply record_refines.
Qed.

Lemma spec_numbered e ds : numbered e (spec_history is_format e ds).
Proof.
  induction ds as [|d ds IH] using rev_ind; [by intros i ev|].
  unfold spec_history in *. rewrite foldl_snoc. set (h := foldl _ _ _) in *. intros i ev.
  unfold spec_record. rewrite lookup_app_Some. intros [?|[Hi Hev]]; [by apply IH|].
  apply list_lookup_singleton_Some in Hev as [Hi' <-]. cbn. f_equal. lia.
Qed.

(** The held events of a numbered history after a seq. *)
Lemma numbered_after e h n k :
  numbered e h → filter (λ ev, (n < es_seq (ev_seq ev))%N) (drop k h) = drop (max (N.to_nat n) k) h.
Proof.
  intros Hnum. rewrite <- (take_drop (N.to_nat n - k) (drop k h)).
  rewrite filter_app, filter_none, filter_all, drop_drop; [cbn [app]; f_equal; lia| |].
  - intros ev [i Hi]%list_elem_of_lookup. rewrite !lookup_drop in Hi. rewrite (Hnum _ _ Hi). cbn. lia.
  - intros ev [i Hi]%list_elem_of_lookup. apply lookup_take_Some in Hi as [Hi Hlt]. rewrite lookup_drop in Hi.
    rewrite (Hnum _ _ Hi). cbn. lia.
Qed.

(** The newest dropped seq of a key is past [n] exactly when some dropped event
    of the key is. *)
Lemma last_omap_seq e h k key n :
  numbered e h →
  match last (omap (λ ev, if bool_decide (ev_project ev = key) then Some (es_seq (ev_seq ev)) else None) (take k h)) with
  | Some d => (n < d)%N
  | None => False
  end ↔ ∃ ev, ev ∈ take k h ∧ ev_project ev = key ∧ (n < es_seq (ev_seq ev))%N.
Proof.
  intros Hnum. revert k. induction h as [|x h IH] using rev_ind; intros k.
  { rewrite take_nil. split; [done|intros (ev & Hev & _); set_solver]. }
  assert (numbered e h) as Hnum' by (intros i ev Hi; apply Hnum; by apply lookup_app_l_Some).
  destruct (decide (k ≤ length h)) as [Hk|Hk]; [rewrite take_app_le by done; by apply IH|].
  rewrite take_ge by (rewrite length_app; cbn [length]; lia). rewrite omap_app, last_app. cbn [omap list_omap].
  specialize (IH Hnum' (length h)). rewrite firstn_all in IH.
  case_bool_decide as Hkey; cbn [last].
  - split; [intros; exists x; split_and!; [set_solver|done|done]|].
    intros (ev & [Hev|Hev]%elem_of_app & _ & Hlt); [|apply list_elem_of_singleton in Hev; congruence].
    apply list_elem_of_lookup in Hev as [i Hi]. pose proof (lookup_lt_Some _ _ _ Hi).
    rewrite (Hnum' _ _ Hi) in Hlt. rewrite (Hnum (length h) x) by by apply list_lookup_middle. cbn in *. lia.
  - rewrite IH. split; intros (ev & Hev & Hp & Hlt); exists ev; split_and!; try done; [set_solver|].
    apply elem_of_app in Hev as [?|Hev%list_elem_of_singleton]; [done|congruence].
Qed.

Lemma missed_iff l e h project since :
  refines l e h → numbered e h →
  missed l project since = true ↔
  ∃ ev, ev ∈ take (dropped_count h) h ∧ concerns project ev = true ∧ (es_seq since < es_seq (ev_seq ev))%N.
Proof.
  intros [_ _ _ Hdrop] Hnum. unfold missed. rewrite existsb_true.
  assert (∀ key, (∃ d, dropped l !! key = Some d ∧ (es_seq since < d)%N) ↔
    ∃ ev, ev ∈ take (dropped_count h) h ∧ ev_project ev = key ∧ (es_seq since < es_seq (ev_seq ev))%N) as Hkey.
  { intros key. rewrite <- (last_omap_seq e h _ key _ Hnum), Hdrop.
    destruct (last _); [|naive_solver]. split; [by intros (d & [= <-] & ?)|by eexists]. }
  transitivity (∃ key, (key = Some project ∨ key = None) ∧ ∃ d, dropped l !! key = Some d ∧ (es_seq since < d)%N).
  { split.
    - intros (d & Hd & Hlt%N.ltb_lt). apply list_elem_of_omap in Hd as (key & Hk & Hd).
      exists key. split; [set_solver|]. by exists d.
    - intros (key & Hk & d & Hd & Hlt%N.ltb_lt). exists d. split; [|done].
      apply list_elem_of_omap. exists key. split; [set_solver|done]. }
  setoid_rewrite Hkey. unfold concerns. split.
  - intros (key & Hk & ev & Hev & Hp & Hlt). exists ev. split_and!; [done| |done].
    rewrite Hp. destruct Hk as [->| ->]; [by apply bool_decide_eq_true|done].
  - intros (ev & Hev & Hc & Hlt). exists (ev_project ev). split; [|by exists ev].
    destruct (ev_project ev); [left; f_equal; by apply bool_decide_eq_true in Hc|by right].
Qed.

(** A page after a cursor of this log: what is held, and whether it is all. *)
Lemma page_after l e h project n kinds :
  refines l e h → numbered e h → (n <= N.of_nat (length h))%N →
  let p := page l project (Some {| es_epoch := e; es_seq := n |}) kinds in
  page_cursor p = {| es_epoch := e; es_seq := N.of_nat (length h) |} ∧
  page_events p = filter (relevant project kinds) (drop (max (N.to_nat n) (dropped_count h)) h) ∧
  (page_gap p = true ↔
     ∃ ev, ev ∈ take (dropped_count h) h ∧ concerns project ev = true ∧ (n < es_seq (ev_seq ev))%N) ∧
  (page_gap p = false → page_events p = filter (relevant project kinds) (drop (N.to_nat n) h)).
Proof.
  intros Href Hnum Hn p. pose proof Href as [He Hrec Hring Hdrop].
  assert (p = {| page_events := filter (relevant project kinds) (drop (max (N.to_nat n) (dropped_count h)) h);
                 page_cursor := {| es_epoch := e; es_seq := N.of_nat (length h) |};
                 page_gap := missed l project {| es_epoch := e; es_seq := n |} |}) as ->.
  { subst p. unfold page, latest, seq. cbn [es_epoch es_seq]. rewrite He, Hrec.
    rewrite bool_decide_true by done. rewrite (proj2 (N.ltb_ge _ _) Hn). cbn [negb orb]. f_equal.
    rewrite Hring, <- (numbered_after e) by done. rewrite !list_filter_filter.
    apply filter_ext_elem. naive_solver. }
  cbn [page_events page_cursor page_gap]. pose proof (missed_iff l e h project {| es_epoch := e; es_seq := n |} Href Hnum) as Hm.
  cbn [es_seq] in Hm. split; [done|]. split; [done|]. split; [done|].
  intros Hgap. apply not_true_iff_false in Hgap. rewrite Hm in Hgap.
  destruct (decide (dropped_count h ≤ N.to_nat n)); [by replace (max (N.to_nat n) (dropped_count h)) with (N.to_nat n) by lia|].
  replace (max (N.to_nat n) (dropped_count h)) with (dropped_count h) by lia.
  rewrite <- (take_drop (dropped_count h - N.to_nat n) (drop (N.to_nat n) h)), drop_drop, filter_app.
  replace (N.to_nat n + (dropped_count h - N.to_nat n)) with (dropped_count h) by lia.
  rewrite (filter_none _ (take _ _)); [done|].
  intros ev [i Hi]%list_elem_of_lookup Hrel. apply lookup_take_Some in Hi as [Hi Hlt].
  rewrite lookup_drop in Hi. apply Hgap. exists ev. split_and!.
  - apply list_elem_of_lookup. exists (N.to_nat n + i). rewrite lookup_take_lt; [done|lia].
  - unfold relevant in Hrel. by apply andb_true_iff in Hrel as [? _].
  - rewrite (Hnum _ _ Hi). cbn. lia.
Qed.
End laws.

Section properties.
Context (is_format : rchar → bool).

Lemma spec_history_snoc e ds d :
  spec_history is_format e (ds ++ [d]) = spec_record is_format e (spec_history is_format e ds) d.1 d.2.
Proof. unfold spec_history. by rewrite foldl_snoc. Qed.

Lemma spec_history_length e ds : length (spec_history is_format e ds) = length ds.
Proof.
  induction ds as [|d ds IH] using rev_ind; [done|]. rewrite spec_history_snoc.
  unfold spec_record. by rewrite !length_app, IH.
Qed.

Lemma spec_history_times e ds :
  StronglySorted (λ a b, (ev_at a <= ev_at b)%N) (spec_history is_format e ds).
Proof.
  induction ds as [|d ds IH] using rev_ind; [constructor|].
  rewrite spec_history_snoc. unfold spec_record. set (h := spec_history is_format e ds) in *.
  apply StronglySorted_app_2; [|done|repeat constructor]. intros x y Hx ->%list_elem_of_singleton. cbn.
  destruct (last h) as [n|] eqn:El; [|apply last_None in El; rewrite El in Hx; by apply not_elem_of_nil in Hx].
  assert (ev_at x <= ev_at n)%N; [|lia]. apply last_Some in El as [h' El]. rewrite El in Hx, IH.
  apply StronglySorted_app in IH as (IH & _ & _). apply elem_of_app in Hx as [Hx|Hx%list_elem_of_singleton].
  - apply IH; [done|set_solver].
  - subst. lia.
Qed.

Lemma spec_history_prefix e ds more :
  ∃ k, spec_history is_format e (ds ++ more) = spec_history is_format e ds ++ k.
Proof.
  induction more as [|d more IH] using rev_ind; [exists []; by rewrite !app_nil_r|].
  destruct IH as [k IH]. rewrite app_assoc, spec_history_snoc, IH. unfold spec_record.
  rewrite <- app_assoc. by eexists.
Qed.

(** The ring refines the whole history: whatever is recorded, it holds
    exactly the newest 1024 events (all of them while there are fewer), in the
    order recorded, each numbered by its place in the history; and the times
    it shows never go back. *)
Theorem event_log_holds_newest e ds :
  let l := log_of is_format e ds in
  let h := spec_history is_format e ds in
  ring l = drop (length h - 1024) h ∧ length (ring l) ≤ 1024 ∧ length h = length ds ∧
  latest l = {| es_epoch := e; es_seq := N.of_nat (length ds) |} ∧
  numbered e h ∧ StronglySorted (λ a b, (ev_at a <= ev_at b)%N) h.
Proof.
  intros l h. pose proof (log_refines is_format e ds) as Href. fold l h in Href.
  pose proof (spec_history_length e ds) as Hlen. fold h in Hlen.
  pose proof Href as [He Hrec Hring _]. change MAX_EVENTS with 1024 in Hring.
  split; [exact Hring|]. split; [|split_and!].
  - rewrite Hring, length_drop. unfold dropped_count. change MAX_EVENTS with 1024. lia.
  - done.
  - unfold latest, seq. by rewrite He, Hrec, Hlen.
  - apply spec_numbered.
  - apply spec_history_times.
Qed.


(** Reading on from the cursor a page came with loses nothing and repeats
    nothing: as long as neither page reports a gap, the first page's events
    and those of a later page from its cursor are together every event about
    the project or the service recorded after the first cursor. *)
Theorem event_polling_seamless e ds more project kinds n :
  (n <= N.of_nat (length (spec_history is_format e ds)))%N →
  let p1 := page (log_of is_format e ds) project (Some {| es_epoch := e; es_seq := n |}) kinds in
  let p2 := page (log_of is_format e (ds ++ more)) project (Some (page_cursor p1)) kinds in
  page_gap p1 = false → page_gap p2 = false →
  page_events p1 ++ page_events p2 =
    filter (relevant project kinds) (drop (N.to_nat n) (spec_history is_format e (ds ++ more))).
Proof.
  intros Hn p1 p2 Hg1 Hg2. set (h := spec_history is_format e ds) in *.
  destruct (spec_history_prefix e ds more) as [k Hk]. fold h in Hk.
  destruct (page_after is_format _ e h project n kinds (log_refines is_format e ds) (spec_numbered is_format e ds) Hn)
    as (Hc & _ & _ & H1). fold p1 in Hc, H1.
  assert (N.of_nat (length h) <= N.of_nat (length (spec_history is_format e (ds ++ more))))%N as Hn2
    by (rewrite Hk, length_app; lia).
  destruct (page_after is_format _ e _ project (N.of_nat (length h)) kinds (log_refines is_format e (ds ++ more))
    (spec_numbered is_format e (ds ++ more)) Hn2) as (_ & _ & _ & H2).
  rewrite <- Hc in H2. fold p2 in H2. rewrite H1, H2 by done. rewrite Hk, Nat2N.id, drop_app_length.
  rewrite drop_app_le by lia. by rewrite filter_app.
Qed.

(** An event cursor reads back from its text. *)
Lemma event_seq_round_trip s :
  (es_epoch s <= u32_max)%N → (es_seq s <= u64_max)%N →
  EventSeqText.from_str (EventSeqText.display s) = Ok s.
Proof.
  intros He Hs. unfold EventSeqText.from_str, EventSeqText.display.
  assert (trim (EventSeqText.SEQ_PREFIX ++ print_dec (es_epoch s) ++ [EventSeqText.EPOCH_SEPARATOR] ++ print_dec (es_seq s)) =
          EventSeqText.SEQ_PREFIX ++ print_dec (es_epoch s) ++ [EventSeqText.EPOCH_SEPARATOR] ++ print_dec (es_seq s)) as ->.
  { pose proof (trimmed_lead_print 101%N ([58%N] ++ print_dec (es_epoch s) ++ [58%N]) (es_seq s) eq_refl) as Ht.
    rewrite <- !app_assoc in Ht. exact Ht. }
  rewrite strip_prefix_app. cbn [mbind option_bind].
  cbn [app]. rewrite split_once_app by (eapply digits_not_elem, print_dec_digits; done). cbn [mbind option_bind fst snd].
  rewrite !parse_print_dec by done. by destruct s.
Qed.
End properties.

(** ** Notices and enterings *)

(** The ring of notices holds the newest 256, printable. *)
Lemma notices_hold_newest is_format ns :
  let ring := foldl (λ r n, (push is_format r n).1) [] ns in
  ring = drop (length ns - MAX_NOTICES) (notice_printable is_format <$> ns).
Proof.
  assert (0 < MAX_NOTICES) as Hpos by (unfold MAX_NOTICES; lia).
  induction ns as [|n ns IH] using rev_ind; [done|]. cbv zeta in *.
  rewrite foldl_snoc, IH, fmap_app, length_app. cbn [length fmap list_fmap]. unfold push. cbn [fst].
  set (p := notice_printable is_format <$> ns).
  assert (length p = length ns) as Hlen by (unfold p; by rewrite length_fmap).
  case_bool_decide as Hfull; rewrite length_drop in Hfull.
  - replace (length ns + 1 - MAX_NOTICES) with (S (length ns - MAX_NOTICES)) by lia.
    rewrite drop_app_le by lia. f_equal.
    rewrite <- (Nat.add_1_r (length ns - MAX_NOTICES)), <- drop_drop. by destruct (drop _ p).
  - replace (length ns + 1 - MAX_NOTICES) with 0 by lia. by replace (length ns - MAX_NOTICES) with 0 by lia.
Qed.

Module Witness.

Definition home : path := [RootDir; Normal (lit "p")].
Definition draft (k : EventKind) : EventDraft :=
  {| draft_project := Some home; draft_process := None; draft_kind := k; draft_detail := lit "d"; draft_cursor := None |}.
Definition no_format (c : rchar) : bool := false.
Definition some_ds : list (EventDraft * N) := [(draft Started, 5%N); (draft Ready, 4%N)].

Lemma event_polling_seamless_witness :
  let p1 := page (log_of no_format 7 some_ds) home (Some {| es_epoch := 7; es_seq := 1 |}) [] in
  let p2 := page (log_of no_format 7 (some_ds ++ [(draft Crashed, 9%N)])) home (Some (page_cursor p1)) [] in
  (ev_at <$> page_events p1 ++ page_events p2) = [5%N; 9%N] ∧
  page_events p1 ++ page_events p2 =
    filter (relevant home []) (drop 1 (spec_history no_format 7 (some_ds ++ [(draft Crashed, 9%N)]))).
Proof.
  split; [by vm_compute|].
  apply (event_polling_seamless no_format 7 some_ds [(draft Crashed, 9%N)] home [] 1); by vm_compute.
Defined.

End Witness.
