(* ===== verification/Process.v ===== *)
(** * Process lifecycle policy

    Models muster-domain/src/process, the exit outcomes of
    muster-domain/src/pty, and the pure lifecycle policy of
    muster-application/src/process_lifecycle.rs with the exit reasons and
    state goals of muster-protocol/src/service: what a process is asked to do
    when its child exits, whether a run is ready, and what a readiness check
    is stored as. *)
From S2P Require Import Prelude RustText Values.

(** ** How a run ended *)
Inductive ExitCause :=
| Status (status : N)
| Signal (name : rstr)
| Unknown_.

Inductive ExitOutcome :=
| Succeeded
| Failed (cause : ExitCause).

#[export] Instance ExitCause_eq_dec : EqDecision ExitCause.
Proof. solve_decision. Defined.
#[export] Instance ExitOutcome_eq_dec : EqDecision ExitOutcome.
Proof. solve_decision. Defined.

Definition FAILED_UNKNOWN : ExitOutcome := Failed Unknown_.

Definition is_failure (o : ExitOutcome) : bool :=
  match o with Failed _ => true | Succeeded => false end.

(** How it ended in a few words, over Unicode uppercasing of a signal name. *)
Definition summary (to_uppercase : rstr → rstr) (o : ExitOutcome) : option rstr :=
  match o with
  | Succeeded => Some (lit "status " ++ print_dec 0)
  | Failed (Status status) => Some (lit "status " ++ print_dec status)
  | Failed (Signal signal) => Some (lit "signal " ++ to_uppercase signal)
  | Failed Unknown_ => None
  end.

(** ** Policies and states *)
Inductive RestartPolicy := Never_ | OnFailure | Always.
Inductive StopSignal := Terminate | Interrupt.
Record StopPolicy := { signal : StopSignal; grace_period : duration }.

#[export] Instance RestartPolicy_eq_dec : EqDecision RestartPolicy.
Proof. solve_decision. Defined.
#[export] Instance StopSignal_eq_dec : EqDecision StopSignal.
Proof. solve_decision. Defined.
#[export] Instance StopPolicy_eq_dec : EqDecision StopPolicy.
Proof. solve_decision. Defined.

Definition should_restart (p : RestartPolicy) (o : ExitOutcome) : bool :=
  match p with
  | Never_ => false
  | OnFailure => is_failure o
  | Always => true
  end.

Inductive ProcessState :=
| SPending | SStarting | SRunning | SPaused | SStopping | SExited | SCrashed | SRestarting | SUnsupervised | SBlocked.

#[export] Instance ProcessState_eq_dec : EqDecision ProcessState.
Proof. solve_decision. Defined.

Definition is_active (s : ProcessState) : bool :=
  match s with
  | SStarting | SRunning | SPaused | SStopping | SRestarting => true
  | _ => false
  end.

Definition may_be_running (s : ProcessState) : bool := is_active s || bool_decide (s = SUnsupervised).

Inductive StateGoal := GRunning | GPaused | GExited | GCrashed | GRestarting | GStopped.

(** Whether a process in [state] has reached the goal. *)
Definition reached (g : StateGoal) (state : ProcessState) : bool :=
  match g with
  | GRunning => bool_decide (state = SRunning)
  | GPaused => bool_decide (state = SPaused)
  | GExited => bool_decide (state = SExited)
  | GCrashed => bool_decide (state = SCrashed)
  | GRestarting => bool_decide (state = SRestarting)
  | GStopped => negb (may_be_running state)
  end.

(** ** Exit intent *)
Inductive ExitIntent :=
| FollowPolicy
| StopRetryable
| StopInFlight
| RestartRetryable
| RestartInFlight.

#[export] Instance ExitIntent_eq_dec : EqDecision ExitIntent.
Proof. solve_decision. Defined.

Definition is_stop (i : ExitIntent) : bool :=
  match i with StopRetryable | StopInFlight => true | _ => false end.
Definition is_restart (i : ExitIntent) : bool :=
  match i with RestartRetryable | RestartInFlight => true | _ => false end.

Definition request_stop (i : ExitIntent) : ExitIntent := StopRetryable.
Definition stop_delivered (i : ExitIntent) : ExitIntent := if is_stop i then StopInFlight else i.
Definition stop_delivery_failed (i : ExitIntent) : ExitIntent := if is_stop i then StopRetryable else i.
Definition request_restart (i : ExitIntent) : ExitIntent := RestartRetryable.
Definition restart_delivered (i : ExitIntent) : ExitIntent := if is_restart i then RestartInFlight else i.
Definition restart_delivery_failed (i : ExitIntent) : ExitIntent := if is_restart i then RestartRetryable else i.
Definition accepts_stop_request (i : ExitIntent) : bool := bool_decide (i ≠ StopInFlight).
Definition accepts_restart_request (i : ExitIntent) : bool := bool_decide (i ≠ RestartInFlight).

Definition force_stop_delivery_failed (i : ExitIntent) : ExitIntent :=
  match i with
  | StopInFlight => StopRetryable
  | RestartInFlight => RestartRetryable
  | FollowPolicy | StopRetryable | RestartRetryable => i
  end.

Definition awaits_force_stop (i : ExitIntent) : bool :=
  match i with StopInFlight | RestartInFlight => true | _ => false end.

(** ** What follows an exit *)
Inductive ExitDecision :=
| Retire
| Stop
| RestartNow
| RestartLater
| Settle (state : ProcessState).

Definition exit_state (o : ExitOutcome) : ProcessState :=
  match o with Succeeded => SExited | Failed _ => SCrashed end.

Definition after_exit (intent : ExitIntent) (retired_from_stack should_restart : bool) (o : ExitOutcome) : ExitDecision :=
  if retired_from_stack then Retire
  else match intent with
  | StopRetryable | StopInFlight => Stop
  | RestartRetryable | RestartInFlight => RestartNow
  | FollowPolicy => if should_restart then RestartLater else Settle (exit_state o)
  end.

Inductive ExitReason := RExited | RCrashed | RKilled | RStopped | RFailedToStart.

#[export] Instance ExitReason_eq_dec : EqDecision ExitReason.
Proof. solve_decision. Defined.

(** Why a run ended with an outcome, stopped on request when [requested]. *)
Definition reason_of (o : ExitOutcome) (requested : bool) : ExitReason :=
  if requested then RStopped
  else match o with
  | Succeeded => RExited
  | Failed (Signal _) => RKilled
  | Failed _ => RCrashed
  end.

Inductive WaitStatus := WMatched | WWaiting | WExited | WCrashed | WStopped | WNotRunning | WReadyTimeout.

Definition wait_status (r : ExitReason) : WaitStatus :=
  match r with
  | RExited => WExited
  | RCrashed | RKilled | RFailedToStart => WCrashed
  | RStopped => WStopped
  end.

(** ** Readiness *)
Inductive PatternKind := Substring | Regex_.

Record LogPattern := { pattern_text : rstr; pattern_kind : PatternKind }.

Definition PATTERN_MAX_CHARS : nat := N.to_nat 512.
Definition PATTERN_FORM : rstr := lit "a pattern of 1 to 512 characters".

(** The constructor of [PatternText]. *)
Definition pattern_try_new (raw : rstr) : option rstr :=
  let s := trim raw in
  if negb (bool_decide (s = [])) && (length s <=? PATTERN_MAX_CHARS) then Some s else None.

Inductive ReadyKind := KLog | KRegex | KPort | KHttp.

Inductive ReadyProbe :=
| PLog (pattern : LogPattern)
| PPort (port : N)
| PHttp (url : rstr).

#[export] Instance PatternKind_eq_dec : EqDecision PatternKind.
Proof. solve_decision. Defined.
#[export] Instance LogPattern_eq_dec : EqDecision LogPattern.
Proof. solve_decision. Defined.
#[export] Instance ReadyProbe_eq_dec : EqDecision ReadyProbe.
Proof. solve_decision. Defined.

Record ReadyCheck := { probe : ReadyProbe; timeout : duration }.

#[export] Instance ReadyCheck_eq_dec : EqDecision ReadyCheck.
Proof. solve_decision. Defined.

(** The kebab-case names of the kinds. *)
Definition ready_kind_text (k : ReadyKind) : rstr :=
  match k with
  | KLog => lit "log"
  | KRegex => lit "regex"
  | KPort => lit "port"
  | KHttp => lit "http"
  end.

Definition READY_KINDS : list ReadyKind := [KLog; KRegex; KPort; KHttp].

(** Reads a kind by its name, listing the names on a refusal. *)
Definition parse_ready_kind (raw : rstr) : result ReadyKind ValueParseError :=
  match List.find (λ k, bool_decide (ready_kind_text k = trim raw)) READY_KINDS with
  | Some k => Ok k
  | None => Err {| expected := lit "log, regex, port, http"; found := raw |}
  end.

Definition URL_FORM : rstr := lit "an http URL on localhost, 127.0.0.1 or [::1]".

(** The probe stored as [kind] with [target]. *)
Definition from_stored (kind target : rstr) : result ReadyProbe ValueParseError :=
  let pattern kind :=
    match pattern_try_new target with
    | Some text => Ok (PLog {| pattern_text := text; pattern_kind := kind |})
    | None => Err {| expected := PATTERN_FORM; found := target |}
    end in
  let? k := parse_ready_kind kind in
  match k with
  | KLog => pattern Substring
  | KRegex => pattern Regex_
  | KPort => let? p := LocalPort.from_str target in Ok (PPort p)
  | KHttp => match LocalUrl.try_new target with
             | Some url => Ok (PHttp url)
             | None => Err {| expected := URL_FORM; found := target |}
             end
  end.

(** The local port the probe needs its process to listen on. *)
Definition probe_port (p : ReadyProbe) : option N :=
  match p with
  | PLog _ => None
  | PPort port => Some port
  | PHttp url => LocalUrl.port url
  end.

(** The kind and target the probe is stored as. *)
Definition stored (p : ReadyProbe) : ReadyKind * rstr :=
  match p with
  | PLog pattern => (match pattern_kind pattern with Substring => KLog | Regex_ => KRegex end, pattern_text pattern)
  | PPort port => (KPort, print_dec port)
  | PHttp url => (KHttp, url)
  end.

Inductive Readiness := RdNone | RdWaiting | RdReady | RdTimedOut.

#[export] Instance Readiness_eq_dec : EqDecision Readiness.
Proof. solve_decision. Defined.

Definition on_spawn (check : option ReadyCheck) : Readiness :=
  match check with Some _ => RdWaiting | None => RdNone end.
Definition on_passed (r : Readiness) : Readiness := match r with RdWaiting => RdReady | _ => r end.
Definition on_deadline (r : Readiness) : Readiness := match r with RdWaiting => RdTimedOut | _ => r end.
Definition on_exit (r : Readiness) : Readiness := RdNone.
Definition is_waiting (r : Readiness) : bool := bool_decide (r = RdWaiting).

(** * Properties *)

(** What can happen to an exit intent between two exits. *)
Inductive IntentEvent :=
| IRequestStop | IStopDelivered | IStopFailed
| IRequestRestart | IRestartDelivered | IRestartFailed | IForceFailed.

Definition intent_step (i : ExitIntent) (e : IntentEvent) : ExitIntent :=
  match e with
  | IRequestStop => request_stop i
  | IStopDelivered => stop_delivered i
  | IStopFailed => stop_delivery_failed i
  | IRequestRestart => request_restart i
  | IRestartDelivered => restart_delivered i
  | IRestartFailed => restart_delivery_failed i
  | IForceFailed => force_stop_delivery_failed i
  end.

(** The last explicit request of a sequence of events. *)
Fixpoint last_request (acc : option bool) (es : list IntentEvent) : option bool :=
  match es with
  | [] => acc
  | IRequestStop :: es => last_request (Some true) es
  | IRequestRestart :: es => last_request (Some false) es
  | _ :: es => last_request acc es
  end.

Definition intent_means (i : ExitIntent) : option bool :=
  if is_stop i then Some true else if is_restart i then Some false else None.

Lemma intent_step_means i e :
  intent_means (intent_step i e) =
  match e with IRequestStop => Some true | IRequestRestart => Some false | _ => intent_means i end.
Proof. by destruct i, e. Qed.

Lemma intent_run_means es i : intent_means (foldl intent_step i es) = last_request (intent_means i) es.
Proof.
  revert i. induction es as [|e es IH]; intros i; [done|]. cbn [foldl]. rewrite IH, intent_step_means.
  by destruct e.
Qed.

(** C38: What follows an exit is what was asked for last: whatever signals were
    delivered, failed or escalated in between, a process last asked to stop
    stays stopped and is never restarted by its policy, one last asked to
    restart restarts at once, and only one asked neither follows its restart
    policy; a process gone from its stack is retired whatever was asked. *)
Theorem exit_follows_last_request es retired policy o :
  after_exit (foldl intent_step FollowPolicy es) retired (should_restart policy o) o =
  if retired then Retire
  else match last_request None es with
  | Some true => Stop
  | Some false => RestartNow
  | None => match policy, o with
            | Always, _ | OnFailure, Failed _ => RestartLater
            | _, Succeeded => Settle SExited
            | _, Failed _ => Settle SCrashed
            end
  end.
Proof.
  unfold after_exit. destruct retired; [done|].
  pose proof (intent_run_means es FollowPolicy) as Hm. cbn in Hm. rewrite <- Hm.
  destruct (foldl intent_step FollowPolicy es); cbn; try done. by destruct policy, o.
Qed.

(** The checks of the values a probe holds. *)
Definition probe_ok (p : ReadyProbe) : Prop :=
  match p with
  | PLog pattern => pattern_try_new (pattern_text pattern) = Some (pattern_text pattern)
  | PPort port => (1 <= port <= 65535)%N
  | PHttp url => LocalUrl.try_new url = Some url
  end.

Lemma trim_print_dec n : trim (print_dec n) = print_dec n.
Proof.
  apply trim_id. pose proof (print_dec_digits n) as Hd. pose proof (print_dec_nonempty n) as Hne.
  split; case_match eqn:E; try done.
  - inversion Hd; subst. by apply is_ascii_digit_not_whitespace.
  - apply is_ascii_digit_not_whitespace. rewrite Forall_forall in Hd. apply Hd.
    apply elem_of_reverse. rewrite E. apply list_elem_of_here.
Qed.

Lemma parse_ready_kind_text k : parse_ready_kind (ready_kind_text k) = Ok k.
Proof. by destruct k. Qed.

Lemma stored_round_trip p :
  probe_ok p → from_stored (ready_kind_text (stored p).1) (stored p).2 = Ok p.
Proof.
  intros Hp. unfold from_stored. rewrite parse_ready_kind_text. destruct p as [[text k]|port|url];
    cbn [stored fst snd pattern_text pattern_kind probe_ok ready_kind_text] in *.
  - destruct k; by rewrite Hp.
  - unfold LocalPort.from_str. rewrite trim_print_dec, parse_print_dec by (unfold u16_max; lia). cbn [mbind option_bind].
    unfold LocalPort.try_new. by rewrite (proj2 (N.ltb_lt 0 port)) by lia.
  - by rewrite Hp.
Qed.

(** A readiness check reads back as it was stored: the kind and target a
    probe is stored as are read as the same probe; and whatever is read holds
    a pattern, port or URL its own constructor accepts, so a stored check
    never probes another machine. *)
Theorem ready_probe_round_trip p kind target q :
  probe_ok p → from_stored kind target = Ok q →
  from_stored (ready_kind_text (stored p).1) (stored p).2 = Ok p ∧ probe_ok q.
Proof.
  intros Hp Hq. split; [by apply stored_round_trip|].
  unfold from_stored in Hq. destruct (parse_ready_kind kind) as [k|]; [|done].
    assert (∀ t, pattern_try_new target = Some t → pattern_try_new t = Some t) as Hpat.
    { intros t. unfold pattern_try_new. destruct (negb _ && _) eqn:E; [|done]. intros [= <-].
      by rewrite trim_idemp, E. }
    destruct k.
    1-2: destruct (pattern_try_new target) as [t|]; [|done]; injection Hq as <-; cbn; by apply Hpat.
    + unfold LocalPort.from_str in Hq. destruct (parse_uint u16_max (trim target)) as [n|] eqn:E; [|done].
      apply parse_uint_bound in E. cbn in Hq. unfold LocalPort.try_new in Hq.
      destruct (N.ltb_spec 0 n); [|done]. injection Hq as <-. cbn. unfold u16_max in E. lia.
    + destruct (LocalUrl.try_new target) as [url|] eqn:E; [|done]. injection Hq as <-. cbn.
      unfold LocalUrl.try_new in *. destruct (LocalUrl.is_loopback_url (trim target)) eqn:El; [|done].
      injection E as <-. by rewrite trim_idemp, El.
Qed.

(** The readiness of a run over the verdicts that arrive before it ends. *)
Definition verdicts (check : option ReadyCheck) (vs : list bool) : Readiness :=
  foldl (λ r (passed : bool), if passed then on_passed r else on_deadline r) (on_spawn check) vs.

(** The first verdict decides a run's readiness: a late pass never makes a
    timed out run ready, and a passed one never times out. *)
Lemma first_verdict_decides check vs :
  verdicts check vs =
  match check, vs with
  | None, _ => RdNone
  | Some _, [] => RdWaiting
  | Some _, true :: _ => RdReady
  | Some _, false :: _ => RdTimedOut
  end.
Proof.
  assert (∀ r vs, r ≠ RdWaiting →
    foldl (λ r (passed : bool), if passed then on_passed r else on_deadline r) r vs = r) as Hfix.
  { intros r vs' Hr. induction vs' as [|[] vs' IH]; [done|by destruct r..]. }
  unfold verdicts. destruct check; [|by apply Hfix].
  destruct vs as [|[] vs]; cbn; [done|by apply Hfix..].
Qed.

Module Witness.

Lemma ready_probe_round_trip_witness :
  from_stored (ready_kind_text (stored (PPort 3000)).1) (stored (PPort 3000)).2 = Ok (PPort 3000) ∧
  probe_ok (PHttp (lit "http://localhost:80/up")).
Proof.
  apply (ready_probe_round_trip (PPort 3000) (lit "http") (lit " http://localhost:80/up")).
  - cbn. lia.
  - by vm_compute.
Defined.

End Witness.
