(* ===== verification/Config.v ===== *)
(** * Process definitions, their edits, and settings

    Models muster-domain/src/config, settings.rs, project.rs and
    process/entity.rs: the stored definition of a process with the caps a
    write is held to, the changes [muster set] makes, the directory and ports
    a launch uses, user settings and which of them an agent may set, and a
    project's stack with the plan of an import. Normal form C, which decides
    when two names are the same, is the parameter [nfc]. A [BTreeMap] from
    names is a finite map walked in name order. *)
From S2P Require Import Prelude RustText RustPath Values Coordination Process.

(** ** Caps *)
Definition ENV_VARS_MAX : nat := 64.
Definition DECLARED_PORTS_MAX : nat := 16.
Definition PROCESSES_MAX : nat := 100.

Inductive OverCap :=
| CapName (found : nat)
| CapVarName (name : rstr) (found : nat)
| CapVarValue (name : rstr) (found : nat)
| CapVars (found : nat)
| CapPorts (found : nat).

Inductive ConfigError :=
| EOverCap (name : rstr) (over : OverCap)
| ERepeatedPort (port : N)
| ETooManyPorts (found : nat)
| EDuplicateProcessName (name : rstr)
| ETooManyProcesses (found : nat)
| EImportConflict (names : list rstr)
| EUnknownProcess (name : rstr) (valid : list rstr)
| EAgentEditsOff
| ECorruptRow (what : rstr)
| ETooLarge (what : rstr)
| EStorage
| EUnknownProject (root : path)
| EHoldsProject (dir : path) (project : rstr).

Definition of_name (name : rstr) : option OverCap :=
  let found := char_count name in
  if PROCESS_NAME_MAX_CHARS <? found then Some (CapName found) else None.

Definition of_var (name value : rstr) : option OverCap :=
  let name_chars := length name in
  if ENV_NAME_MAX_CHARS <? name_chars then Some (CapVarName name name_chars)
  else let found := length value in
       if ENV_VALUE_MAX_CHARS <? found then Some (CapVarValue name found) else None.

Definition of_var_count (count : nat) : option OverCap :=
  if ENV_VARS_MAX <? count then Some (CapVars count) else None.

Definition of_ports (ports : gset N) : option OverCap :=
  let found := size ports in
  if DECLARED_PORTS_MAX <? found then Some (CapPorts found) else None.

(** [Iterator::find_map]. *)
Fixpoint find_map {A B} (f : A → option B) (l : list A) : option B :=
  match l with
  | [] => None
  | x :: l => match f x with Some b => Some b | None => find_map f l end
  end.

(** [Option::or_else]. *)
Definition or_else {A} (o k : option A) : option A := match o with Some a => Some a | None => k end.

(** ** Environments *)
Notation Environment := (gmap rstr rstr) (only parsing).

(** The variables in name order. *)
Definition env_iter (vars : Environment) : list (rstr * rstr) :=
  omap (λ name, (λ value, (name, value)) <$> vars !! name) (btree_iter (dom vars : gset rstr)).

(** A later value for a name replaces an earlier one. *)
Definition env_extend (vars : Environment) (set : list (rstr * rstr)) : Environment :=
  foldl (λ m nv, <[nv.1 := nv.2]> m) vars set.

Definition env_of (set : list (rstr * rstr)) : Environment := env_extend ∅ set.

(** [set] set and then [unset] removed. *)
Definition env_changed (vars : Environment) (set : list (rstr * rstr)) (unset : list rstr) : Environment :=
  foldl (λ m name, delete name m) (env_extend vars set) unset.

Definition env_over_cap (vars : Environment) : option OverCap :=
  or_else (find_map (λ nv, of_var nv.1 nv.2) (env_iter vars)) (of_var_count (size vars)).

(** ** Declared ports *)

(** The set holding [ports], a repeated one counted once. *)
Definition ports_of (ports : list N) : result (gset N) nat :=
  let set := list_to_set ports : gset N in
  if DECLARED_PORTS_MAX <? size set then Err (size set) else Ok set.

(** The ports as listed: the first one listed twice is refused. *)
Fixpoint listed_from (seen : gset N) (ports : list N) : result (gset N) ConfigError :=
  match ports with
  | [] => if DECLARED_PORTS_MAX <? size seen then Err (ETooManyPorts (size seen)) else Ok seen
  | port :: ports => if decide (port ∈ seen) then Err (ERepeatedPort port) else listed_from ({[port]} ∪ seen) ports
  end.

Definition ports_listed (ports : list N) : result (gset N) ConfigError := listed_from ∅ ports.

(** The declared ports and the one the check probes, each once, ascending. *)
Definition launch_ports (declared : gset N) (ready : option ReadyCheck) : list N :=
  btree_iter (match ready ≫= λ check, probe_port (probe check) with
              | Some port => {[port]} ∪ declared
              | None => declared
              end).

(** ** Definitions *)
Record ProcessSpec := {
  name : rstr;
  command : rstr;
  working_dir : option path;
  description : option rstr;
  environment : Environment;
  autostart : bool;
  restart : RestartPolicy;
  stop : StopPolicy;
  ready : option ReadyCheck;
  ports : gset N;
}.

#[export] Instance ProcessSpec_eq_dec : EqDecision ProcessSpec.
Proof. solve_decision. Defined.

Inductive FieldEdit (T : Type) := Keep | SetTo (value : T) | Clear.
Arguments Keep {T}. Arguments SetTo {T} value. Arguments Clear {T}.

Definition apply_edit {T} (e : FieldEdit T) (current : option T) : option T :=
  match e with Keep => current | SetTo value => Some value | Clear => None end.

Definition is_keep {T} (e : FieldEdit T) : bool := match e with Keep => true | _ => false end.

Inductive ProcessField :=
| FCommand | FWorkingDir | FDescription | FEnvironment | FAutostart | FRestart | FStopSignal | FStopGrace | FReady | FPorts.

#[export] Instance ProcessField_eq_dec : EqDecision ProcessField.
Proof. solve_decision. Defined.

Definition ALL_FIELDS : list ProcessField :=
  [FCommand; FWorkingDir; FDescription; FEnvironment; FAutostart; FRestart; FStopSignal; FStopGrace; FReady; FPorts].

Record ProcessChange := {
  ch_command : option rstr;
  ch_working_dir : FieldEdit path;
  ch_description : FieldEdit rstr;
  ch_set_env : list (rstr * rstr);
  ch_unset_env : list rstr;
  ch_autostart : option bool;
  ch_restart : option RestartPolicy;
  ch_stop_signal : option StopSignal;
  ch_stop_grace : option duration;
  ch_ready : FieldEdit ReadyCheck;
  ch_ports : option (gset N);
}.

(** [Option::is_some]. *)
Definition is_some {A} (o : option A) : bool := match o with Some _ => true | None => false end.

(** The fields the change edits, in definition order. *)
Definition change_fields (c : ProcessChange) : list ProcessField :=
  omap (λ ef : bool * ProcessField, if ef.1 then Some ef.2 else None)
    [ (is_some (ch_command c), FCommand);
      (negb (is_keep (ch_working_dir c)), FWorkingDir);
      (negb (is_keep (ch_description c)), FDescription);
      (negb (bool_decide (ch_set_env c = [])) || negb (bool_decide (ch_unset_env c = [])), FEnvironment);
      (is_some (ch_autostart c), FAutostart);
      (is_some (ch_restart c), FRestart);
      (is_some (ch_stop_signal c), FStopSignal);
      (is_some (ch_stop_grace c), FStopGrace);
      (negb (is_keep (ch_ready c)), FReady);
      (is_some (ch_ports c), FPorts) ].

(** Whether a running process only takes the change when it next starts. *)
Definition needs_restart (c : ProcessChange) : bool :=
  is_some (ch_command c) || negb (is_keep (ch_working_dir c)) || negb (bool_decide (ch_set_env c = [])) ||
  negb (bool_decide (ch_unset_env c = [])) || is_some (ch_stop_signal c) || is_some (ch_stop_grace c) ||
  negb (is_keep (ch_ready c)).

(** The definition with the change applied. *)
Definition with_change (self : ProcessSpec) (c : ProcessChange) : result ProcessSpec ConfigError :=
  match find_map (λ nv, of_var nv.1 nv.2) (ch_set_env c) with
  | Some refused => Err (EOverCap (name self) refused)
  | None =>
    let before := size (environment self) in
    let env := env_changed (environment self) (ch_set_env c) (ch_unset_env c) in
    let after := size env in
    match (if before <? after then of_var_count after else None) with
    | Some refused => Err (EOverCap (name self) refused)
    | None =>
      Ok {| name := name self;
            command := default (command self) (ch_command c);
            working_dir := apply_edit (ch_working_dir c) (working_dir self);
            description := apply_edit (ch_description c) (description self);
            environment := env;
            autostart := default (autostart self) (ch_autostart c);
            restart := default (restart self) (ch_restart c);
            stop := {| signal := default (signal (stop self)) (ch_stop_signal c);
                       grace_period := default (grace_period (stop self)) (ch_stop_grace c) |};
            ready := apply_edit (ch_ready c) (ready self);
            ports := default (ports self) (ch_ports c) |}
    end
  end.

(** Whether [after] holds a different value in a field. *)
Definition differs (self after : ProcessSpec) (f : ProcessField) : bool :=
  match f with
  | FCommand => bool_decide (command self ≠ command after)
  | FWorkingDir => bool_decide (working_dir self ≠ working_dir after)
  | FDescription => bool_decide (description self ≠ description after)
  | FEnvironment => bool_decide (environment self ≠ environment after)
  | FAutostart => bool_decide (autostart self ≠ autostart after)
  | FRestart => bool_decide (restart self ≠ restart after)
  | FStopSignal => bool_decide (signal (stop self) ≠ signal (stop after))
  | FStopGrace => bool_decide (grace_period (stop self) ≠ grace_period (stop after))
  | FReady => bool_decide (ready self ≠ ready after)
  | FPorts => bool_decide (ports self ≠ ports after)
  end.

Definition differing_fields (self after : ProcessSpec) : list ProcessField :=
  List.filter (differs self after) ALL_FIELDS.

Record UnconfinedDir := { ud_name : rstr; ud_dir : path }.

(** The stored directory when it is empty or relative and climbs out. *)
Definition unconfined_dir (self : ProcessSpec) : option UnconfinedDir :=
  match working_dir self with
  | None => None
  | Some dir =>
    let confined := negb (bool_decide (dir = [])) && (is_absolute dir || stays_under_root dir) in
    if confined then None else Some {| ud_name := name self; ud_dir := dir |}
  end.

(** The directory the process launches in under [root]. *)
Definition launch_dir (self : ProcessSpec) (root : path) : result path UnconfinedDir :=
  match unconfined_dir self with
  | Some unconfined => Err unconfined
  | None => Ok match working_dir self with Some dir => path_join root dir | None => root end
  end.

Definition over_cap (self : ProcessSpec) : option OverCap :=
  or_else (of_name (name self)) (or_else (env_over_cap (environment self)) (of_ports (ports self))).

Definition check_caps (self : ProcessSpec) : result unit ConfigError :=
  match over_cap self with Some over => Err (EOverCap (name self) over) | None => Ok () end.

Inductive StoredProblem :=
| PUnconfinedDir (u : UnconfinedDir)
| POverCap (name : rstr) (over : OverCap).

Definition stored_problem (self : ProcessSpec) : option StoredProblem :=
  or_else (PUnconfinedDir <$> unconfined_dir self) (POverCap (name self) <$> over_cap self).

(** ** Drafts *)
Record ProcessDefaults := { def_autostart : bool; def_restart : RestartPolicy; def_stop : StopPolicy }.

Record ProcessDraft := {
  dr_name : rstr;
  dr_command : rstr;
  dr_working_dir : option path;
  dr_description : option rstr;
  dr_environment : Environment;
  dr_autostart : option bool;
  dr_restart : option RestartPolicy;
  dr_stop_signal : option StopSignal;
  dr_stop_grace : option duration;
  dr_ready : option ReadyCheck;
  dr_ports : gset N;
}.

(** The full definition, each field left out from the defaults. *)
Definition complete (d : ProcessDraft) (defaults : ProcessDefaults) : ProcessSpec :=
  {| name := dr_name d; command := dr_command d; working_dir := dr_working_dir d;
     description := dr_description d; environment := dr_environment d;
     autostart := default (def_autostart defaults) (dr_autostart d);
     restart := default (def_restart defaults) (dr_restart d);
     stop := {| signal := default (signal (def_stop defaults)) (dr_stop_signal d);
                grace_period := default (grace_period (def_stop defaults)) (dr_stop_grace d) |};
     ready := dr_ready d; ports := dr_ports d |}.

(** ** Managed processes *)
Record Process := {
  p_id : N;
  p_name : rstr;
  p_command : rstr;
  p_working_dir : option path;
  p_description : option rstr;
  p_environment : Environment;
  p_state : ProcessState;
  p_restart : RestartPolicy;
  p_stop : StopPolicy;
  p_autostart : bool;
  p_ready : option ReadyCheck;
  p_ports : gset N;
}.

(** The process a definition describes, on pane [id] and pending. *)
Definition to_process (self : ProcessSpec) (id : N) : Process :=
  {| p_id := id; p_name := name self; p_command := command self; p_working_dir := working_dir self;
     p_description := description self; p_environment := environment self; p_state := SPending;
     p_restart := restart self; p_stop := stop self; p_autostart := autostart self;
     p_ready := ready self; p_ports := ports self |}.

Definition set_state (p : Process) (s : ProcessState) : Process :=
  {| p_id := p_id p; p_name := p_name p; p_command := p_command p; p_working_dir := p_working_dir p;
     p_description := p_description p; p_environment := p_environment p; p_state := s;
     p_restart := p_restart p; p_stop := p_stop p; p_autostart := p_autostart p;
     p_ready := p_ready p; p_ports := p_ports p |}.

(** Takes a definition in place, keeping the pane and its state. *)
Definition set_spec (p : Process) (s : ProcessSpec) : Process :=
  {| p_id := p_id p; p_name := name s; p_command := command s; p_working_dir := working_dir s;
     p_description := description s; p_environment := environment s; p_state := p_state p;
     p_restart := restart s; p_stop := stop s; p_autostart := autostart s;
     p_ready := ready s; p_ports := ports s |}.

(** The definition a process runs. *)
Definition spec (p : Process) : ProcessSpec :=
  {| name := p_name p; command := p_command p; working_dir := p_working_dir p;
     description := p_description p; environment := p_environment p; autostart := p_autostart p;
     restart := p_restart p; stop := p_stop p; ready := p_ready p; ports := p_ports p |}.

Definition process_launch_ports (p : Process) : list N := launch_ports (p_ports p) (p_ready p).

(** ** Stacks *)
Record Project := { pr_root : path; pr_name : rstr; pr_idle_stop : option IdleStop }.

Definition idle_stop_or (p : Project) (setting : IdleStop) : IdleStop := default setting (pr_idle_stop p).

Record Stack := { st_project : Project; st_processes : list ProcessSpec }.

Inductive ImportMode := Strict | Merge | Replace.
#[export] Instance ImportMode_eq_dec : EqDecision ImportMode.
Proof. solve_decision. Defined.

Record ImportPlan := { plan_added : list rstr; plan_updated : list rstr; plan_removed : list rstr }.

Section stack.
Context (nfc : rstr → rstr).

Definition key (s : ProcessSpec) : rstr := name_key nfc (name s).

(** The process whose name has the same key. *)
Definition process (st : Stack) (n : rstr) : option ProcessSpec :=
  List.find (λ s, bool_decide (key s = name_key nfc n)) (st_processes st).

Definition names (st : Stack) : list rstr := name <$> st_processes st.

Definition require (st : Stack) (n : rstr) : result ProcessSpec ConfigError :=
  ok_or (process st n) (EUnknownProcess n (names st)).

Definition autostarts_any (st : Stack) : bool := existsb autostart (st_processes st).

(** Refuses two specs whose names share a key, naming the second. *)
Fixpoint unique_from (seen : gset rstr) (ps : list ProcessSpec) : result unit ConfigError :=
  match ps with
  | [] => Ok ()
  | s :: ps => if decide (key s ∈ seen) then Err (EDuplicateProcessName (name s))
               else unique_from ({[key s]} ∪ seen) ps
  end.

Definition check_unique (ps : list ProcessSpec) : result unit ConfigError := unique_from ∅ ps.

Definition check_count (count : nat) : result unit ConfigError :=
  if PROCESSES_MAX <? count then Err (ETooManyProcesses count) else Ok ().

(** Checks the caps of every spec in turn. *)
Fixpoint check_all_caps (ps : list ProcessSpec) : result unit ConfigError :=
  match ps with
  | [] => Ok ()
  | s :: ps => let? _ := check_caps s in check_all_caps ps
  end.

(** Whether the stack defines the spec's name. *)
Definition defined (st : Stack) (s : ProcessSpec) : bool := is_some (process st (name s)).

(** The names an import under [mode] removes. *)
Definition removed_names (st : Stack) (incoming : list ProcessSpec) (mode : ImportMode) : list rstr :=
  match mode with
  | Replace =>
    let kept := list_to_set (key <$> incoming) : gset rstr in
    name <$> List.filter (λ s, bool_decide (key s ∉ kept)) (st_processes st)
  | Strict | Merge => []
  end.

(** What importing [incoming] adds, updates and removes. *)
Definition plan_import (st : Stack) (incoming : list ProcessSpec) (mode : ImportMode) : result ImportPlan ConfigError :=
  let? _ := check_unique incoming in
  let existing := List.filter (defined st) incoming in
  let added := List.filter (λ s, negb (defined st s)) incoming in
  if bool_decide (mode = Strict) && negb (bool_decide (existing = [])) then Err (EImportConflict (name <$> existing))
  else
    let updated := List.filter (λ s, bool_decide (process st (name s) ≠ Some s)) existing in
    let removed := removed_names st incoming mode in
    let? _ := check_count (length (st_processes st) + length added - length removed) in
    let? _ := check_all_caps (added ++ updated) in
    Ok {| plan_added := name <$> added; plan_updated := name <$> updated; plan_removed := removed |}.
End stack.

(** ** Settings *)
Inductive McpStackEdits := Allow | ReadOnly.
#[export] Instance McpStackEdits_eq_dec : EqDecision McpStackEdits.
Proof. solve_decision. Defined.

Definition allows (m : McpStackEdits) : bool := match m with Allow => true | ReadOnly => false end.

Inductive ColorScheme := Dark | Light.

Record Settings := {
  desktop_notifications : bool;
  default_size : PtySize;
  detach_key : rstr;
  log_max_size : N;
  scrollback : N;
  color_scheme : ColorScheme;
  default_autostart : bool;
  default_restart : RestartPolicy;
  default_stop_signal : StopSignal;
  default_stop_grace : duration;
  mcp_stack_edits : McpStackEdits;
  idle_stop : IdleStop;
}.

Inductive SettingChange :=
| CDesktopNotifications (v : bool)
| CDefaultSize (v : PtySize)
| CDetachKey (v : rstr)
| CLogMaxSize (v : N)
| CScrollback (v : N)
| CColorScheme (v : ColorScheme)
| CDefaultAutostart (v : bool)
| CDefaultRestart (v : RestartPolicy)
| CDefaultStopSignal (v : StopSignal)
| CDefaultStopGrace (v : duration)
| CMcpStackEdits (v : McpStackEdits)
| CIdleStop (v : IdleStop).

Inductive SettingKey :=
| KDesktopNotifications | KDefaultSize | KDetachKey | KLogMaxSize | KScrollback | KColorScheme
| KDefaultAutostart | KDefaultRestart | KDefaultStopSignal | KDefaultStopGrace | KMcpStackEdits | KIdleStop.

#[export] Instance SettingKey_eq_dec : EqDecision SettingKey.
Proof. solve_decision. Defined.

Definition setting_key (c : SettingChange) : SettingKey :=
  match c with
  | CDesktopNotifications _ => KDesktopNotifications
  | CDefaultSize _ => KDefaultSize
  | CDetachKey _ => KDetachKey
  | CLogMaxSize _ => KLogMaxSize
  | CScrollback _ => KScrollback
  | CColorScheme _ => KColorScheme
  | CDefaultAutostart _ => KDefaultAutostart
  | CDefaultRestart _ => KDefaultRestart
  | CDefaultStopSignal _ => KDefaultStopSignal
  | CDefaultStopGrace _ => KDefaultStopGrace
  | CMcpStackEdits _ => KMcpStackEdits
  | CIdleStop _ => KIdleStop
  end.

(** Whether an agent may change the setting. *)
Definition agent_may_set (k : SettingKey) : bool :=
  match k with
  | KDefaultSize | KDefaultAutostart | KDefaultRestart | KDefaultStopSignal | KDefaultStopGrace => true
  | KDesktopNotifications | KDetachKey | KLogMaxSize | KScrollback | KColorScheme | KMcpStackEdits | KIdleStop => false
  end.

(** The settings with a change applied. *)
Definition settings_with_change (s : Settings) (c : SettingChange) : Settings :=
  {| desktop_notifications := match c with CDesktopNotifications v => v | _ => desktop_notifications s end;
     default_size := match c with CDefaultSize v => v | _ => default_size s end;
     detach_key := match c with CDetachKey v => v | _ => detach_key s end;
     log_max_size := match c with CLogMaxSize v => v | _ => log_max_size s end;
     scrollback := match c with CScrollback v => v | _ => scrollback s end;
     color_scheme := match c with CColorScheme v => v | _ => color_scheme s end;
     default_autostart := match c with CDefaultAutostart v => v | _ => default_autostart s end;
     default_restart := match c with CDefaultRestart v => v | _ => default_restart s end;
     default_stop_signal := match c with CDefaultStopSignal v => v | _ => default_stop_signal s end;
     default_stop_grace := match c with CDefaultStopGrace v => v | _ => default_stop_grace s end;
     mcp_stack_edits := match c with CMcpStackEdits v => v | _ => mcp_stack_edits s end;
     idle_stop := match c with CIdleStop v => v | _ => idle_stop s end |}.

(** What a newly added process takes for the fields it leaves out. *)
Definition process_defaults (s : Settings) : ProcessDefaults :=
  {| def_autostart := default_autostart s; def_restart := default_restart s;
     def_stop := {| signal := default_stop_signal s; grace_period := default_stop_grace s |} |}.

(** * Laws *)

Lemma spec_to_process s id : spec (to_process s id) = s.
Proof. by destruct s. Qed.

Lemma spec_set_spec p s : spec (set_spec p s) = s.
Proof. by destruct s. Qed.

Lemma spec_set_state p s : spec (set_state p s) = spec p.
Proof. done. Qed.

Lemma find_map_None {A B} (f : A → option B) l : find_map f l = None ↔ Forall (λ x, f x = None) l.
Proof.
  induction l as [|x l IH]; simpl; [split; auto|]. rewrite Forall_cons, <- IH.
  destruct (f x); naive_solver.
Qed.

Lemma or_else_None {A} (o k : option A) : or_else o k = None ↔ o = None ∧ k = None.
Proof. destruct o; naive_solver. Qed.

Lemma elem_of_env_iter vars nv : nv ∈ env_iter vars ↔ vars !! nv.1 = Some nv.2.
Proof.
  unfold env_iter. rewrite list_elem_of_omap. split.
  - intros (n & _ & (v & Hv & ->)%fmap_Some). done.
  - intros Hv. exists nv.1. rewrite elem_of_btree_iter, elem_of_dom, Hv. destruct nv. split; [by eexists|done].
Qed.

Lemma env_over_cap_None vars :
  env_over_cap vars = None ↔ map_Forall (λ n v, of_var n v = None) vars ∧ size vars ≤ ENV_VARS_MAX.
Proof.
  unfold env_over_cap, of_var_count. rewrite or_else_None, find_map_None, Forall_forall.
  assert ((if ENV_VARS_MAX <? size vars then Some (CapVars (size vars)) else None) = None ↔ size vars ≤ ENV_VARS_MAX) as ->
    by (destruct (Nat.ltb_spec ENV_VARS_MAX (size vars)); split; intros; done || lia).
  apply and_iff_compat_r. split.
  - intros Hf n v Hv. by apply (Hf (n, v)), elem_of_env_iter.
  - intros Hf [n v] Hin. apply elem_of_env_iter in Hin. by apply Hf.
Qed.

Lemma lookup_env_extend vars set n :
  env_extend vars set !! n =
  match last (omap (λ nv : rstr * rstr, if bool_decide (nv.1 = n) then Some nv.2 else None) set) with
  | Some v => Some v
  | None => vars !! n
  end.
Proof.
  unfold env_extend. induction set as [|[m v] set IH] using rev_ind; [done|].
  rewrite foldl_snoc, omap_app, last_app. cbn [omap list_omap fst snd].
  case_bool_decide as Hm; cbn [last].
  - subst. by rewrite lookup_insert_eq.
  - by rewrite lookup_insert_ne.
Qed.

Lemma lookup_env_changed vars set unset n :
  env_changed vars set unset !! n = if decide (n ∈ unset) then None else env_extend vars set !! n.
Proof.
  unfold env_changed. induction unset as [|m unset IH] using rev_ind; [done|]. rewrite foldl_snoc.
  destruct (decide (n = m)) as [->|Hne].
  - rewrite lookup_delete_eq, decide_True by set_solver. done.
  - rewrite lookup_delete_ne, IH by done. apply decide_ext. set_solver.
Qed.

Lemma env_changed_nil vars : env_changed vars [] [] = vars.
Proof. done. Qed.

Lemma elem_of_chosen {A} (l : list (bool * A)) x :
  x ∈ omap (λ ef : bool * A, if ef.1 then Some ef.2 else None) l ↔ (true, x) ∈ l.
Proof.
  rewrite list_elem_of_omap. split.
  - intros ([[] y] & Hin & He); cbn in He; simplify_eq; done.
  - intros Hin. by exists (true, x).
Qed.

(** When a change edits a field. *)
Lemma elem_of_change_fields c f :
  f ∈ change_fields c ↔
  match f with
  | FCommand => is_some (ch_command c) = true
  | FWorkingDir => is_keep (ch_working_dir c) = false
  | FDescription => is_keep (ch_description c) = false
  | FEnvironment => ch_set_env c ≠ [] ∨ ch_unset_env c ≠ []
  | FAutostart => is_some (ch_autostart c) = true
  | FRestart => is_some (ch_restart c) = true
  | FStopSignal => is_some (ch_stop_signal c) = true
  | FStopGrace => is_some (ch_stop_grace c) = true
  | FReady => is_keep (ch_ready c) = false
  | FPorts => is_some (ch_ports c) = true
  end.
Proof.
  unfold change_fields. rewrite elem_of_chosen, !elem_of_cons, elem_of_nil, !pair_equal_spec.
  assert (negb (bool_decide (ch_set_env c = [])) || negb (bool_decide (ch_unset_env c = [])) = true ↔
          ch_set_env c ≠ [] ∨ ch_unset_env c ≠ []) as Henv
    by (rewrite orb_true_iff, !negb_true_iff, !bool_decide_eq_false; done).
  assert (∀ b, true = negb b ↔ b = false) as Hneg by (intros []; naive_solver).
  rewrite !Hneg. destruct f; split; intros Hor;
    first [repeat (destruct Hor as [[Hb Hf]|Hor];
                   [try discriminate Hf; clear Hf; first [done | by symmetry | by apply Henv]|]); done
          |repeat first [left; split; [first [done | by symmetry | by symmetry; apply Henv]|reflexivity] | right]].
Qed.

Lemma differs_iff s s' f :
  differs s s' f = true ↔
  match f with
  | FCommand => command s ≠ command s'
  | FWorkingDir => working_dir s ≠ working_dir s'
  | FDescription => description s ≠ description s'
  | FEnvironment => environment s ≠ environment s'
  | FAutostart => autostart s ≠ autostart s'
  | FRestart => restart s ≠ restart s'
  | FStopSignal => signal (stop s) ≠ signal (stop s')
  | FStopGrace => grace_period (stop s) ≠ grace_period (stop s')
  | FReady => ready s ≠ ready s'
  | FPorts => ports s ≠ ports s'
  end.
Proof. destruct f; apply bool_decide_eq_true. Qed.

Lemma elem_of_differing s s' f : f ∈ differing_fields s s' ↔ differs s s' f = true.
Proof.
  unfold differing_fields. rewrite list_elem_of_In, List.filter_In. split; [tauto|]. intros Hd.
  split; [|done]. apply list_elem_of_In. unfold ALL_FIELDS. destruct f; set_solver.
Qed.

(** What an accepted change leaves, field by field. *)
Lemma with_change_Ok s c s' :
  with_change s c = Ok s' →
  Forall (λ nv, of_var nv.1 nv.2 = None) (ch_set_env c) ∧
  (size (environment s') ≤ size (environment s) ∨ size (environment s') ≤ ENV_VARS_MAX) ∧
  name s' = name s ∧ environment s' = env_changed (environment s) (ch_set_env c) (ch_unset_env c) ∧
  s' = {| name := name s; command := default (command s) (ch_command c);
          working_dir := apply_edit (ch_working_dir c) (working_dir s);
          description := apply_edit (ch_description c) (description s);
          environment := env_changed (environment s) (ch_set_env c) (ch_unset_env c);
          autostart := default (autostart s) (ch_autostart c);
          restart := default (restart s) (ch_restart c);
          stop := {| signal := default (signal (stop s)) (ch_stop_signal c);
                     grace_period := default (grace_period (stop s)) (ch_stop_grace c) |};
          ready := apply_edit (ch_ready c) (ready s); ports := default (ports s) (ch_ports c) |}.
Proof.
  unfold with_change. destruct (find_map _ (ch_set_env c)) eqn:Ef; [done|]. apply find_map_None in Ef.
  set (env := env_changed _ _ _). cbv zeta.
  destruct (Nat.ltb_spec (size (environment s)) (size env)) as [Hlt|Hge].
  - unfold of_var_count. destruct (Nat.ltb_spec ENV_VARS_MAX (size env)); [done|]. intros [= <-]. cbn.
    split; [done|]. split; [right; done|]. done.
  - intros [= <-]. cbn. split; [done|]. split; [left; done|]. done.
Qed.

Lemma of_ports_None ps : of_ports ps = None ↔ size ps ≤ DECLARED_PORTS_MAX.
Proof.
  unfold of_ports. destruct (Nat.ltb_spec DECLARED_PORTS_MAX (size ps)); split; intros; done || lia.
Qed.

Lemma map_Forall_env_changed P vars set unset :
  map_Forall P vars → Forall (λ nv : rstr * rstr, P nv.1 nv.2) set → map_Forall P (env_changed vars set unset).
Proof.
  intros Hv Hs n v. rewrite lookup_env_changed. destruct (decide (n ∈ unset)); [done|].
  rewrite lookup_env_extend. destruct (last _) as [w|] eqn:El; [|apply Hv]. intros [= <-].
  apply last_Some in El as [l El].
  assert (w ∈ omap (λ nv : rstr * rstr, if bool_decide (nv.1 = n) then Some nv.2 else None) set) as Hin
    by (rewrite El; set_solver).
  apply list_elem_of_omap in Hin as ([m u] & Hin & He). cbn in He. case_bool_decide; simplify_eq.
  rewrite Forall_forall in Hs. apply (Hs _ Hin).
Qed.

(** A change edits exactly the fields it names: applied to a definition it
    keeps the name, differs only in fields it lists, gives every named
    variable its last set value unless it is unset, and leaves the others. It
    never takes a definition past a cap: from one within every cap (and ports
    within theirs) it leaves one within every cap, and a stored environment
    past the cap never grows. *)
Theorem change_edits_named_fields s c s' :
  with_change s c = Ok s' →
  name s' = name s ∧
  (∀ f, f ∈ differing_fields s s' → f ∈ change_fields c) ∧
  (∀ n, environment s' !! n =
     if decide (n ∈ ch_unset_env c) then None
     else match last (omap (λ nv : rstr * rstr, if bool_decide (nv.1 = n) then Some nv.2 else None) (ch_set_env c)) with
          | Some v => Some v
          | None => environment s !! n
          end) ∧
  size (environment s') ≤ max (size (environment s)) ENV_VARS_MAX ∧
  (over_cap s = None → (∀ ps, ch_ports c = Some ps → size ps ≤ DECLARED_PORTS_MAX) → over_cap s' = None).
Proof.
  intros Hc. destruct (with_change_Ok s c s' Hc) as (Hset & Hsize & Hn & Henv & Hs').
  split; [done|]. split; [|split; [|split]].
  - intros f Hf%elem_of_differing%differs_iff. apply elem_of_change_fields. rewrite Hs' in Hf.
    destruct f; cbn in Hf.
    1,5-8,10: match goal with |- is_some ?o = true => destruct o; [done|by destruct Hf] end.
    3: destruct (ch_set_env c), (ch_unset_env c); [by destruct Hf|by right|by left..].
    all: match goal with |- is_keep ?e = false => destruct e; [by destruct Hf|done..] end.
  - intros n. by rewrite Henv, lookup_env_changed, lookup_env_extend.
  - lia.
  - unfold over_cap. rewrite !or_else_None, !env_over_cap_None. intros (Hname & [Hvars Hcount] & Hports) Hp.
    rewrite Hn. split_and!; [done| |lia|].
    + rewrite Henv. by apply map_Forall_env_changed.
    + rewrite of_ports_None in *. rewrite Hs'. cbn [ports]. destruct (ch_ports c) as [ps|]; [by apply Hp|done].
Qed.

(** A change that does not ask for a restart changes nothing a run was
    launched with: the command, working directory, environment, stop policy
    and readiness check are as before, and so is the directory it launches
    in. *)
Theorem change_without_restart_keeps_launch s c s' root :
  with_change s c = Ok s' → needs_restart c = false →
  command s' = command s ∧ working_dir s' = working_dir s ∧ environment s' = environment s ∧
  stop s' = stop s ∧ ready s' = ready s ∧
  (∀ dir, launch_dir s root = Ok dir → launch_dir s' root = Ok dir).
Proof.
  intros Hc Hr. destruct (with_change_Ok s c s' Hc) as (_ & _ & _ & _ & ->). unfold needs_restart in Hr.
  rewrite !orb_false_iff, !negb_false_iff, !bool_decide_eq_true in Hr.
  destruct Hr as [[[[[[Hc1 Hc2] Hc3] Hc4] Hc5] Hc6] Hc7]. cbn.
  destruct (ch_command c), (ch_working_dir c), (ch_stop_signal c), (ch_stop_grace c), (ch_ready c); try done.
  rewrite Hc3, Hc4. cbn. split_and!; try done; try by destruct (stop s).
Qed.

(** A process never launches outside its project by accident: when a
    definition has a launch directory under a root, it is the root itself, or
    the absolute folder a person stored, or a relative directory whose every
    step stays under the root, so that resolving it leads to the root or
    below; and a relative one that could climb out has none. *)
Theorem launch_dir_confined s root dir :
  canonical root → launch_dir s root = Ok dir →
  match working_dir s with
  | None => dir = root
  | Some d =>
    if is_absolute d then dir = d
    else dir = path_join root d ∧ stays_under_root d = true ∧ ProjectRoot.contains root (lexical dir) = true
  end.
Proof.
  intros Hroot. unfold launch_dir, unconfined_dir. destruct (working_dir s) as [d|]; [|by intros [= <-]].
  destruct (bool_decide (d = [])) eqn:Ee; [done|]. cbn [negb andb].
  destruct (is_absolute d) eqn:Ea; cbn [orb].
  - intros [= <-]. unfold path_join. by rewrite Ea.
  - destruct (stays_under_root d) eqn:Es; [|done]. intros [= <-]. split_and!; [done..|].
    by apply stays_under_root_confined.
Qed.

(** Listing ports: the set is what was listed, each once. *)
Lemma listed_from_Ok seen l set :
  listed_from seen l = Ok set ↔
  NoDup l ∧ (∀ p, p ∈ l → p ∉ seen) ∧ set = list_to_set l ∪ seen ∧ size set ≤ DECLARED_PORTS_MAX.
Proof.
  revert seen. induction l as [|p l IH]; intros seen; cbn [listed_from].
  - destruct (Nat.ltb_spec DECLARED_PORTS_MAX (size seen)); split; intros Hs.
    + done.
    + destruct Hs as (_ & _ & -> & Hs). rewrite list_to_set_nil, union_empty_l_L in Hs. lia.
    + simplify_eq. split_and!; [constructor|set_solver|set_solver|done].
    + destruct Hs as (_ & _ & -> & _). f_equal. set_solver.
  - case_decide as Hp.
    + split; [done|]. intros (_ & Hd & _). exfalso. apply (Hd p); [set_solver|done].
    + rewrite IH, NoDup_cons, list_to_set_cons. split.
      * intros (Hnd & Hd & -> & Hs).
        split_and!; [set_solver|done|set_solver|set_solver|].
        by replace ({[p]} ∪ list_to_set l ∪ seen) with (list_to_set l ∪ ({[p]} ∪ seen)) by set_solver.
      * intros ((Hn & Hnd) & Hd & -> & Hs). split_and!; [done| |set_solver|done]. set_solver.
Qed.

(** Listed ports are accepted exactly when no port is listed twice and
    there are at most 16, and the set is exactly what was listed; the ports a
    launch checks are the declared ones and the port its readiness check
    probes, each once and ascending, so no probed port goes unchecked. *)
Theorem listed_ports_exact l set ready :
  (ports_listed l = Ok set ↔ NoDup l ∧ set = list_to_set l ∧ length l ≤ 16) ∧
  (∀ p, p ∈ launch_ports set ready ↔ p ∈ set ∨ (∃ c, ready = Some c ∧ probe_port (probe c) = Some p)) ∧
  StronglySorted (λ a b, (a < b)%N) (launch_ports set ready).
Proof.
  split; [|split].
  - unfold ports_listed. rewrite listed_from_Ok. split.
    + intros (Hnd & _ & -> & Hs). rewrite union_empty_r_L in Hs |- *. split_and!; [done|done|].
      by rewrite size_list_to_set in Hs by done.
    + intros (Hnd & -> & Hs). split_and!; [done|set_solver|set_solver|]. by rewrite size_list_to_set.
  - intros p. unfold launch_ports. destruct ready as [c|]; cbn; [|rewrite elem_of_btree_iter; naive_solver].
    destruct (probe_port (probe c)) as [q|] eqn:E; rewrite elem_of_btree_iter; [|naive_solver].
    rewrite elem_of_union, elem_of_singleton. naive_solver.
  - unfold launch_ports. generalize (match ready ≫= λ check, probe_port (probe check) with
      | Some port => {[port]} ∪ set | None => set end). intros s.
    pose proof (btree_iter_sorted s) as Hs. pose proof (NoDup_btree_iter s) as Hnd.
    induction Hs as [|x k Hs IH Hall]; [constructor|]. apply NoDup_cons in Hnd as [Hx Hnd].
    constructor; [auto|]. rewrite Forall_forall in Hall |- *. intros y Hy. specialize (Hall y Hy).
    apply cle_lt_or_eq in Hall as [Hlt| ->]; [|done]. by apply N.compare_lt_iff.
Qed.

(** An agent cannot lift its own guardrails: a setting change an agent may
    make leaves whether agents may edit the stack, the idle stop, the log
    size, the scrollback, the detach key, the notifications and the colors as
    they are; and any change sets the one setting its key names and no other,
    so the new value is all that differs. *)
Theorem agent_settings_guarded s c :
  (agent_may_set (setting_key c) = true →
     mcp_stack_edits (settings_with_change s c) = mcp_stack_edits s ∧
     idle_stop (settings_with_change s c) = idle_stop s ∧
     log_max_size (settings_with_change s c) = log_max_size s ∧
     scrollback (settings_with_change s c) = scrollback s ∧
     detach_key (settings_with_change s c) = detach_key s ∧
     desktop_notifications (settings_with_change s c) = desktop_notifications s ∧
     color_scheme (settings_with_change s c) = color_scheme s) ∧
  (∀ c', setting_key c' = setting_key c →
     settings_with_change (settings_with_change s c) c' = settings_with_change s c') ∧
  (∀ c', setting_key c' ≠ setting_key c →
     settings_with_change (settings_with_change s c) c' = settings_with_change (settings_with_change s c') c).
Proof.
  split; [by destruct c|]. split; intros c' Hk; by destruct c, c'.
Qed.

(** ** Stacks *)
Section stack_laws.
Context (nfc : rstr → rstr).

Lemma unique_from_Ok seen ps :
  unique_from nfc seen ps = Ok () ↔ NoDup (key nfc <$> ps) ∧ ∀ s, s ∈ ps → key nfc s ∉ seen.
Proof.
  revert seen. induction ps as [|s ps IH]; intros seen; cbn [unique_from fmap list_fmap].
  { split; [split; [constructor|set_solver]|done]. }
  case_decide as Hs.
  - split; [done|]. intros [_ Hd]. exfalso. by apply (Hd s); [set_solver|].
  - rewrite IH, NoDup_cons. split.
    + intros (Hnd & Hd). split_and!; [|done|].
      * intros (s' & He & Hs')%list_elem_of_fmap. apply (Hd s' Hs'). rewrite He. set_solver.
      * intros s' [->|Hs']%elem_of_cons; [done|]. specialize (Hd s' Hs'). set_solver.
    + intros ((Hn & Hnd) & Hd). split; [done|]. intros s' Hs' [He|Hin]%elem_of_union.
      * apply Hn, list_elem_of_fmap. exists s'. split; [|done]. set_solver.
      * apply (Hd s'); [set_solver|done].
Qed.

Lemma check_count_Ok n : check_count n = Ok () ↔ n ≤ PROCESSES_MAX.
Proof. unfold check_count. destruct (Nat.ltb_spec PROCESSES_MAX n); split; intros; done || lia. Qed.

Lemma check_all_caps_Ok ps : check_all_caps ps = Ok () ↔ Forall (λ s, over_cap s = None) ps.
Proof.
  induction ps as [|s ps IH]; cbn [check_all_caps]; [split; auto|]. rewrite Forall_cons, <- IH.
  unfold check_caps. destruct (over_cap s); naive_solver.
Qed.

Lemma process_Some st n s :
  process nfc st n = Some s → s ∈ st_processes st ∧ key nfc s = name_key nfc n.
Proof.
  intros Hf%List.find_some. destruct Hf as [Hin Hk%bool_decide_eq_true]. by apply list_elem_of_In in Hin.
Qed.

Lemma process_is_some st n :
  is_some (process nfc st n) = true ↔ name_key nfc n ∈ key nfc <$> st_processes st.
Proof.
  rewrite list_elem_of_fmap. split.
  - destruct (process nfc st n) as [s|] eqn:E; [|done]. apply process_Some in E as [Hin Hk]. by exists s.
  - intros (s & Hk & Hin). unfold process. destruct (List.find _ (st_processes st)) eqn:E; [done|].
    apply List.find_none with (x := s) in E; [|by apply list_elem_of_In].
    apply bool_decide_eq_false in E. congruence.
Qed.

Lemma elem_of_List_filter {A} (p : A → bool) l x : x ∈ List.filter p l ↔ x ∈ l ∧ p x = true.
Proof. by rewrite list_elem_of_In, List.filter_In, <- list_elem_of_In. Qed.

(** An import plan that is granted is exact and safe: the imported names
    are distinct; it adds exactly the imported definitions whose key the stack
    lacks, updates exactly those it holds in another form, and removes, only
    when it replaces, exactly the stack's processes that are not imported; a
    strict import meets no defined name; every definition it writes is within
    every cap; and the stack it leaves holds at most 100 processes. *)
Theorem import_plan_exact st incoming mode plan :
  plan_import nfc st incoming mode = Ok plan →
  NoDup (key nfc <$> incoming) ∧
  (∀ n, n ∈ plan_added plan ↔
     ∃ i, i ∈ incoming ∧ name i = n ∧ key nfc i ∉ key nfc <$> st_processes st ∧ over_cap i = None) ∧
  (∀ n, n ∈ plan_updated plan ↔
     ∃ i s, i ∈ incoming ∧ name i = n ∧ process nfc st n = Some s ∧ s ≠ i ∧ over_cap i = None) ∧
  (∀ n, n ∈ plan_removed plan ↔
     mode = Replace ∧ ∃ s, s ∈ st_processes st ∧ name s = n ∧ key nfc s ∉ key nfc <$> incoming) ∧
  (mode = Strict → plan_updated plan = [] ∧ ∀ i, i ∈ incoming → key nfc i ∉ key nfc <$> st_processes st) ∧
  length (st_processes st) + length (plan_added plan) - length (plan_removed plan) ≤ 100.
Proof.
  unfold plan_import, check_unique. destruct (unique_from nfc ∅ incoming) as [[]|] eqn:Eu; [|done].
  apply unique_from_Ok in Eu as [Hnd _].
  assert (∀ i, defined nfc st i = true ↔ key nfc i ∈ key nfc <$> st_processes st) as Hdef
    by (intros i; apply process_is_some).
  cbv zeta. destruct (bool_decide (mode = Strict) && _) eqn:Estrict; [done|].
  set (updated := List.filter _ (List.filter (defined nfc st) incoming)).
  set (added := List.filter (λ s, negb (defined nfc st s)) incoming).
  destruct (check_count _) as [[]|] eqn:Ecount; [|done]. apply check_count_Ok in Ecount.
  destruct (check_all_caps (added ++ updated)) as [[]|] eqn:Ec; [|done].
  apply check_all_caps_Ok, Forall_app in Ec as [Hca Hcu]. rewrite Forall_forall in Hca, Hcu.
  intros [= <-]. cbn [plan_added plan_updated plan_removed]. split; [done|].
  split; [|split; [|split; [|split]]].
  - intros n. rewrite list_elem_of_fmap. split.
    + intros (i & -> & Hi). exists i. pose proof (Hca i Hi). apply elem_of_List_filter in Hi as [Hi Hd%negb_true_iff].
      split_and!; try done. rewrite <- Hdef. by rewrite Hd.
    + intros (i & Hi & <- & Hk & _). exists i. split; [done|]. apply elem_of_List_filter. split; [done|].
      apply negb_true_iff, not_true_iff_false. by rewrite Hdef.
  - intros n. rewrite list_elem_of_fmap. split.
    + intros (i & -> & Hi). pose proof (Hcu i Hi).
      apply elem_of_List_filter in Hi as [[Hi Hd]%elem_of_List_filter Hne%bool_decide_eq_true].
      unfold defined in Hd. destruct (process nfc st (name i)) as [s|] eqn:E; [|done].
      exists i, s. split_and!; try done. congruence.
    + intros (i & s & Hi & <- & Hp & Hne & _). exists i. split; [done|].
      apply elem_of_List_filter. split; [apply elem_of_List_filter; split; [done|]|].
      * unfold defined. by rewrite Hp.
      * apply bool_decide_eq_true. rewrite Hp. congruence.
  - intros n. unfold removed_names. destruct mode; [split; [set_solver|naive_solver]..|].
    rewrite list_elem_of_fmap. split.
    + intros (s & -> & [Hs Hk%bool_decide_eq_true]%elem_of_List_filter). split; [done|]. exists s.
      split_and!; try done. by rewrite elem_of_list_to_set in Hk.
    + intros (_ & s & Hs & <- & Hk). exists s. split; [done|]. apply elem_of_List_filter. split; [done|].
      apply bool_decide_eq_true. by rewrite elem_of_list_to_set.
  - intros ->. rewrite bool_decide_true in Estrict by done. cbn in Estrict.
    apply negb_false_iff, bool_decide_eq_true in Estrict. subst updated. rewrite Estrict. split; [done|].
    intros i Hi Hk%Hdef. assert (i ∈ List.filter (defined nfc st) incoming) as Hin by (by apply elem_of_List_filter).
    rewrite Estrict in Hin. by apply not_elem_of_nil in Hin.
  - by rewrite length_fmap.
Qed.
End stack_laws.

Module Witness.

Definition no_stop : StopPolicy := {| signal := Terminate; grace_period := from_secs 5 |}.
Definition web : ProcessSpec :=
  {| name := lit "web"; command := lit "serve"; working_dir := Some [Normal (lit "app"); ParentDir; Normal (lit "web")];
     description := None; environment := {[lit "A" := lit "1"]}; autostart := true; restart := Always;
     stop := no_stop; ready := None; ports := {[3000%N]} |}.
Definition change : ProcessChange :=
  {| ch_command := None; ch_working_dir := Keep; ch_description := SetTo (lit "the site"); ch_set_env := [];
     ch_unset_env := []; ch_autostart := Some false; ch_restart := None; ch_stop_signal := None;
     ch_stop_grace := None; ch_ready := Keep; ch_ports := None |}.
Definition env_change : ProcessChange :=
  {| ch_command := None; ch_working_dir := Keep; ch_description := Keep;
     ch_set_env := [(lit "A", lit "2"); (lit "B", lit "3")]; ch_unset_env := [lit "B"];
     ch_autostart := None; ch_restart := None; ch_stop_signal := None;
     ch_stop_grace := None; ch_ready := Keep; ch_ports := None |}.
Definition with_env : ProcessSpec :=
  match with_change web env_change with Ok s => s | Err _ => web end.
Definition with_text : ProcessSpec :=
  match with_change web change with Ok s => s | Err _ => web end.
Definition root : path := [RootDir; Normal (lit "home"); Normal (lit "p")].
Definition empty_stack : Stack :=
  {| st_project := {| pr_root := root; pr_name := lit "p"; pr_idle_stop := None |}; st_processes := [] |}.

Lemma change_edits_named_fields_witness :
  over_cap with_env = None ∧ environment with_env !! lit "A" = Some (lit "2") ∧ name with_env = name web.
Proof.
  split; [by vm_compute|]. split; [by vm_compute|].
  apply (change_edits_named_fields web env_change with_env). by vm_compute.
Defined.

Lemma change_without_restart_keeps_launch_witness :
  autostart with_text = false ∧ command with_text = command web.
Proof.
  split; [by vm_compute|].
  apply (change_without_restart_keeps_launch web change with_text root); by vm_compute.
Defined.

Lemma launch_dir_confined_witness :
  ProjectRoot.contains root (lexical (path_join root [Normal (lit "app"); ParentDir; Normal (lit "web")])) = true.
Proof.
  refine (proj2 (proj2 (launch_dir_confined web root _ _ _))).
  - exists [lit "home"; lit "p"]. done.
  - by vm_compute.
Defined.

Lemma import_plan_exact_witness :
  NoDup (key id <$> [web]) ∧ (plan_added <$> match plan_import id empty_stack [web] Strict with Ok p => Some p | Err _ => None end) = Some [lit "web"].
Proof.
  split; [|by vm_compute].
  apply (import_plan_exact id empty_stack [web] Strict
    {| plan_added := [lit "web"]; plan_updated := []; plan_removed := [] |}). by vm_compute.
Defined.

End Witness.
