(* ===== verification/StackRows.v ===== *)
(** * The rows of stored processes and projects

    Models the row half of muster-store/src/stack_rows.rs and
    muster-store/src/project_rows.rs with the column helpers of
    muster-store/src/sqlite_store.rs and settings_rows.rs: how a definition is
    written to the columns of [processes], [process_env] and [process_ports]
    and read back through the domain's constructors, and how a project's row
    is. A column of text is [rstr], of a path [path], an integer [Z]. *)
From S2P Require Import Prelude RustText RustPath Values Coordination Store Process Config.

(** ** Columns *)

(** A number as the integer SQLite stores. *)
Definition column_integer (what : rstr) (value : N) : result Z ConfigError :=
  if (Z.of_N value <=? i64_max)%Z then Ok (Z.of_N value) else Err (ETooLarge what).

(** Whole milliseconds, rounded up. *)
Definition duration_millis (what : rstr) (d : duration) : result Z ConfigError :=
  column_integer what ((d + (NANOS_PER_MILLI - 1)) / NANOS_PER_MILLI)%N.

Definition duration_from_millis (what : rstr) (millis : Z) : result duration ConfigError :=
  if (0 <=? millis)%Z then Ok (Z.to_N millis * NANOS_PER_MILLI)%N else Err (ECorruptRow what).

Definition positive_from_millis (what : rstr) (millis : Z) : result duration ConfigError :=
  let? d := duration_from_millis what millis in
  if is_positive d then Ok d else Err (ECorruptRow what).

Definition grace_from_millis (what : rstr) (millis : Z) : result duration ConfigError :=
  let? d := duration_from_millis what millis in
  if is_grace d then Ok d else Err (ECorruptRow what).

(** ** Texts of the enumerations *)
Definition restart_text (r : RestartPolicy) : rstr :=
  match r with Never_ => lit "never" | OnFailure => lit "on-failure" | Always => lit "always" end.

Definition parse_restart (s : rstr) : option RestartPolicy :=
  List.find (λ r, bool_decide (restart_text r = s)) [Never_; OnFailure; Always].

Definition signal_text (s : StopSignal) : rstr :=
  match s with Terminate => lit "terminate" | Interrupt => lit "interrupt" end.

Definition parse_signal (s : rstr) : option StopSignal :=
  List.find (λ g, bool_decide (signal_text g = s)) [Terminate; Interrupt].

Definition COMMAND_MAX_CHARS : nat := N.to_nat 8192.
Definition DESCRIPTION_MAX_CHARS : nat := 300.
Definition command_try_new : rstr → option rstr := bounded_name COMMAND_MAX_CHARS.
Definition description_try_new : rstr → option rstr := bounded_name DESCRIPTION_MAX_CHARS.

(** ** Idle stops *)
Inductive IdleStopRefusal := Mismatched | NotPositive.

Definition AFTER_KIND : rstr := lit "after".
Definition NEVER_KIND : rstr := lit "never".

Definition idle_stop_columns (i : IdleStop) : result (rstr * option Z) ConfigError :=
  match i with
  | After d => let? ms := duration_millis (lit "idle stop") d in Ok (AFTER_KIND, Some ms)
  | Never => Ok (NEVER_KIND, None)
  end.

Definition idle_stop_from_columns (kind : rstr) (millis : option Z) : result IdleStop IdleStopRefusal :=
  let after := bool_decide (kind = AFTER_KIND) in
  let never := bool_decide (kind = NEVER_KIND) in
  if negb (after || never) then Err Mismatched
  else match after, millis with
  | true, Some ms =>
    if (0 <=? ms)%Z && is_positive (Z.to_N ms * NANOS_PER_MILLI)%N
    then Ok (After (Z.to_N ms * NANOS_PER_MILLI)%N) else Err NotPositive
  | false, None => Ok Never
  | _, _ => Err Mismatched
  end.

(** ** Rows *)
Record ProjectRow := {
  pj_id : Z;
  pj_root : path;
  pj_name : rstr;
  pj_idle_kind : option rstr;
  pj_idle_ms : option Z;
  pj_registered_ns : Z;
  pj_revision : Z;
}.

(** The columns of [processes] an insert or update binds. *)
Record Columns := {
  c_key : rstr;
  c_name : rstr;
  c_command : rstr;
  c_working_dir : option path;
  c_description : option rstr;
  c_autostart : bool;
  c_restart : rstr;
  c_stop_signal : rstr;
  c_stop_grace_ms : Z;
  c_ready_kind : option rstr;
  c_ready_target : option rstr;
  c_ready_timeout_ms : option Z;
}.

Record ProcessRow := { ps_id : Z; ps_project : Z; ps_columns : Columns }.
Record EnvRow := { ev_process : Z; ev_name : rstr; ev_value : rstr }.
Record PortRow := { pt_process : Z; pt_port : Z }.

Definition STOP_GRACE : rstr := lit "stop grace".
Definition READY_TIMEOUT : rstr := lit "readiness timeout".
Definition DECLARED_PORT : rstr := lit "declared port".

Section rows.
Context (is_format : rchar → bool) (nfc : rstr → rstr).

(** What the insert and update statements bind. *)
Definition process_params (s : ProcessSpec) : result Columns ConfigError :=
  let? ready :=
    match ready s with
    | None => Ok None
    | Some check =>
      let '(kind, target) := stored (probe check) in
      let? timeout := duration_millis READY_TIMEOUT (timeout check) in
      Ok (Some (ready_kind_text kind, target, timeout))
    end in
  let? grace := duration_millis STOP_GRACE (grace_period (stop s)) in
  Ok {| c_key := key nfc s; c_name := name s; c_command := command s; c_working_dir := working_dir s;
        c_description := description s; c_autostart := autostart s; c_restart := restart_text (restart s);
        c_stop_signal := signal_text (signal (stop s)); c_stop_grace_ms := grace;
        c_ready_kind := (λ r, r.1.1) <$> ready; c_ready_target := (λ r, r.1.2) <$> ready;
        c_ready_timeout_ms := (λ r, r.2) <$> ready |}.

(** Reads a row, its variables and ports taken from what the project holds. *)
Definition process_from_row (r : ProcessRow) (environments : gmap Z Environment) (ports_ : gmap Z (gset N))
    : result ProcessSpec ConfigError :=
  let c := ps_columns r in
  let? ready :=
    match c_ready_kind c, c_ready_target c, c_ready_timeout_ms c with
    | Some kind, Some target, Some timeout_ms =>
      match from_stored kind target with
      | Err _ => Err (ECorruptRow (lit "readiness check"))
      | Ok p => let? t := positive_from_millis READY_TIMEOUT timeout_ms in Ok (Some {| probe := p; timeout := t |})
      end
    | _, _, _ => Ok None
    end in
  let? name := match process_name_try_new is_format (c_name c) with Ok n => Ok n | Err _ => Err (ECorruptRow (lit "process name")) end in
  let? command := ok_or (command_try_new (c_command c)) (ECorruptRow (lit "command")) in
  let? description :=
    match c_description c with
    | None => Ok None
    | Some d => let? d := ok_or (description_try_new d) (ECorruptRow (lit "description")) in Ok (Some d)
    end in
  let? restart := ok_or (parse_restart (c_restart c)) (ECorruptRow (lit "restart policy")) in
  let? signal := ok_or (parse_signal (c_stop_signal c)) (ECorruptRow (lit "stop signal")) in
  let? grace := grace_from_millis STOP_GRACE (c_stop_grace_ms c) in
  Ok {| Config.name := name; Config.command := command; working_dir := c_working_dir c; Config.description := description;
        environment := default ∅ (environments !! ps_id r); autostart := c_autostart c; Config.restart := restart;
        stop := {| Process.signal := signal; grace_period := grace |};
        Config.ready := ready; ports := default ∅ (ports_ !! ps_id r) |}.

(** The declared ports of the rows, by process. *)
Fixpoint ports_by_process (acc : gmap Z (gset N)) (rows : list PortRow) : result (gmap Z (gset N)) ConfigError :=
  match rows with
  | [] => Ok acc
  | r :: rows =>
    if (0 <? pt_port r)%Z && (pt_port r <=? 65535)%Z
    then ports_by_process (<[pt_process r := {[Z.to_N (pt_port r)]} ∪ default ∅ (acc !! pt_process r)]> acc) rows
    else Err (ECorruptRow DECLARED_PORT)
  end.

(** The variables of the rows, by process. *)
Fixpoint environments_by_process (acc : gmap Z Environment) (rows : list EnvRow) : result (gmap Z Environment) ConfigError :=
  match rows with
  | [] => Ok acc
  | r :: rows =>
    if negb (is_env_name (ev_name r)) then Err (ECorruptRow (lit "variable name"))
    else if negb (is_env_value (ev_value r)) then Err (ECorruptRow (lit "variable value"))
    else environments_by_process (<[ev_process r := <[ev_name r := ev_value r]> (default ∅ (acc !! ev_process r))]> acc) rows
  end.

(** The rows in order, each taking its variables and ports out of the maps. *)
Fixpoint specs_from_rows (rows : list ProcessRow) (environments : gmap Z Environment) (ports_ : gmap Z (gset N))
    : result (list ProcessSpec) ConfigError :=
  match rows with
  | [] => Ok []
  | r :: rows =>
    let? s := process_from_row r environments ports_ in
    let? rest := specs_from_rows rows (delete (ps_id r) environments) (delete (ps_id r) ports_) in
    Ok (s :: rest)
  end.

(** The rows a definition's variables and ports are written as. *)
Definition environment_rows (id : Z) (s : ProcessSpec) : list EnvRow :=
  (λ nv, {| ev_process := id; ev_name := nv.1; ev_value := nv.2 |}) <$> env_iter (environment s).

Definition port_rows (id : Z) (s : ProcessSpec) : list PortRow :=
  (λ p, {| pt_process := id; pt_port := Z.of_N p |}) <$> btree_iter (ports s).
End rows.

(** Why a project's row does not read. *)
Inductive Unreadable := FolderNotAbsolute | NameEmpty | NameUnsafe | IdleStopMismatched | IdleStopNotPositive.

(** The constructor of [ProjectName]. *)
Definition project_name_try_new (is_format : rchar → bool) (raw : rstr) : result rstr NameProblem :=
  let name := trim raw in
  if bool_decide (name = []) then Err Empty
  else if existsb (steers_the_terminal is_format) name then Err UnsafeCharacter else Ok name.

(** A project's row, or why it is refused. *)
Definition project_from_row (is_format : rchar → bool) (r : ProjectRow) : result (Z * Project) Unreadable :=
  if negb (is_absolute (pj_root r)) then Err FolderNotAbsolute
  else match project_name_try_new is_format (pj_name r) with
  | Err Empty => Err NameEmpty
  | Err UnsafeCharacter => Err NameUnsafe
  | Ok name =>
    let project idle := {| pr_root := pj_root r; pr_name := name; pr_idle_stop := idle |} in
    match pj_idle_kind r with
    | None => Ok (pj_id r, project None)
    | Some kind =>
      match idle_stop_from_columns kind (pj_idle_ms r) with
      | Ok i => Ok (pj_id r, project (Some i))
      | Err Mismatched => Err IdleStopMismatched
      | Err NotPositive => Err IdleStopNotPositive
      end
    end
  end.

(** * Laws *)

(** The definitions whose values their own constructors accept. *)
Definition check_ok (check : ReadyCheck) : Prop := probe_ok (probe check) ∧ is_positive (timeout check) = true.

Record spec_ok (is_format : rchar → bool) (s : ProcessSpec) : Prop := {
  ok_name : process_name_try_new is_format (name s) = Ok (name s);
  ok_command : command_try_new (command s) = Some (command s);
  ok_description : ∀ d, description s = Some d → description_try_new d = Some d;
  ok_environment : ∀ n v, environment s !! n = Some v → is_env_name n = true ∧ is_env_value v = true;
  ok_grace : is_grace (grace_period (stop s)) = true;
  ok_ready : ∀ check, ready s = Some check → check_ok check;
  ok_ports : ∀ p, p ∈ ports s → (1 <= p <= 65535)%N;
}.

(** ** Durations *)
Lemma whole_millis_mod d : is_whole_millis d = true → (d mod NANOS_PER_MILLI = 0)%N.
Proof.
  unfold is_whole_millis, subsec_nanos, NANOS_PER_MILLI. intros E%N.eqb_eq.
  pose proof (N.div_mod d 1000000000). pose proof (N.div_mod (d mod 1000000000) 1000000).
  set (q := (d / 1000000000)%N) in *. set (m := (d mod 1000000000)%N) in *. set (p := (m / 1000000)%N) in *.
  replace d with ((q * 1000 + p) * 1000000)%N by lia. apply N.Div0.mod_mul.
Qed.

Lemma duration_millis_round_trip what d ms :
  is_whole_millis d = true → duration_millis what d = Ok ms → duration_from_millis what ms = Ok d.
Proof.
  intros Hd%whole_millis_mod. unfold duration_millis, column_integer, duration_from_millis, NANOS_PER_MILLI in *.
  pose proof (N.div_mod d 1000000 ltac:(done)) as Hdm. rewrite Hd in Hdm.
  assert ((d + (1000000 - 1)) / 1000000 = d / 1000000)%N as ->.
  { symmetry. apply (N.div_unique _ _ _ 999999); lia. }
  destruct (_ <=? i64_max)%Z; [|done]. intros [= <-].
  rewrite (proj2 (Z.leb_le 0 _)) by lia. f_equal. lia.
Qed.

Lemma positive_round_trip what d ms :
  is_positive d = true → duration_millis what d = Ok ms → positive_from_millis what ms = Ok d.
Proof.
  intros Hp Hms. unfold positive_from_millis. rewrite (duration_millis_round_trip _ d) by (first [done | by apply andb_true_iff in Hp as [_ ?]]).
  by rewrite Hp.
Qed.

Lemma grace_round_trip what d ms :
  is_grace d = true → duration_millis what d = Ok ms → grace_from_millis what ms = Ok d.
Proof.
  intros Hp Hms. unfold grace_from_millis. rewrite (duration_millis_round_trip _ d) by (first [done | by apply andb_true_iff in Hp as [_ ?]]).
  by rewrite Hp.
Qed.

Lemma parse_restart_text r : parse_restart (restart_text r) = Some r.
Proof. by destruct r. Qed.

Lemma parse_signal_text s : parse_signal (signal_text s) = Some s.
Proof. by destruct s. Qed.

Lemma idle_stop_round_trip i kind ms :
  match i with After d => is_positive d = true | Never => True end →
  idle_stop_columns i = Ok (kind, ms) → idle_stop_from_columns kind ms = Ok i.
Proof.
  intros Hi. unfold idle_stop_columns. destruct i as [d|]; [|by intros [= <- <-]].
  destruct (duration_millis _ d) as [m|] eqn:E; [|done]. intros [= <- <-].
  pose proof (positive_round_trip _ _ _ Hi E) as Hp. unfold positive_from_millis, duration_from_millis in Hp.
  unfold idle_stop_from_columns. rewrite bool_decide_eq_true_2 by done. cbn [negb orb].
  destruct (0 <=? m)%Z; [|done]. cbn [andb] in *.
  destruct (is_positive (Z.to_N m * NANOS_PER_MILLI)%N); [|done]. by injection Hp as ->.
Qed.

(** ** Variables and ports of one process *)
Lemma env_extend_iter (e : Environment) : env_of (env_iter e) = e.
Proof.
  apply map_eq. intros n. unfold env_of. rewrite lookup_env_extend, lookup_empty.
  assert (∀ v, v ∈ omap (λ nv : rstr * rstr, if bool_decide (nv.1 = n) then Some nv.2 else None) (env_iter e) ↔
               e !! n = Some v) as Hin.
  { intros v. rewrite list_elem_of_omap. split.
    - intros ([n' v'] & Hnv%elem_of_env_iter & E). cbn [fst snd] in *. case_bool_decide; naive_solver.
    - intros Hv. exists (n, v). rewrite elem_of_env_iter. cbn [fst snd]. by rewrite bool_decide_eq_true_2. }
  destruct (last _) as [v|] eqn:El.
  - symmetry. apply Hin. apply last_Some in El as [l' ->]. apply elem_of_app. right. by apply list_elem_of_singleton.
  - destruct (e !! n) as [v|]; [|done]. apply last_None in El. rewrite El in Hin.
    pose proof (proj2 (Hin v) eq_refl) as []%elem_of_nil.
Qed.

(** The pairs the rows of [id] hold. *)
Definition pairs_of (id : Z) (rows : list EnvRow) : list (rstr * rstr) :=
  (λ r, (ev_name r, ev_value r)) <$> filter (λ r, ev_process r = id) rows.

Definition env_row_ok (r : EnvRow) : Prop := is_env_name (ev_name r) = true ∧ is_env_value (ev_value r) = true.

Lemma environments_lookup rows acc :
  Forall env_row_ok rows →
  ∃ m, environments_by_process acc rows = Ok m ∧
    ∀ id, default ∅ (m !! id) = env_extend (default ∅ (acc !! id)) (pairs_of id rows).
Proof.
  intros Hok. revert acc; induction Hok as [|r rows [Hn Hv] _ IH]; intros acc; [by exists acc|].
  cbn [environments_by_process]. rewrite Hn, Hv. cbn [negb].
  destruct (IH (<[ev_process r := <[ev_name r := ev_value r]> (default ∅ (acc !! ev_process r))]> acc)) as (m & Hm & Hl).
  exists m. split; [done|]. intros id. rewrite Hl. unfold pairs_of. rewrite filter_cons.
  destruct (decide (ev_process r = id)) as [<-|Hne].
  - by rewrite lookup_insert_eq.
  - by rewrite lookup_insert_ne.
Qed.

(** The ports the rows of [id] hold. *)
Definition ports_in (id : Z) (rows : list PortRow) : list N :=
  (λ r, Z.to_N (pt_port r)) <$> filter (λ r, pt_process r = id) rows.

Definition port_row_ok (r : PortRow) : Prop := (1 <= pt_port r <= 65535)%Z.

Lemma ports_lookup rows acc :
  Forall port_row_ok rows →
  ∃ m, ports_by_process acc rows = Ok m ∧
    ∀ id, default ∅ (m !! id) = (list_to_set (ports_in id rows) ∪ default ∅ (acc !! id) : gset N).
Proof.
  intros Hok. revert acc; induction Hok as [|r rows Hr _ IH]; intros acc.
  { exists acc. split; [done|]. intros id. cbn. by rewrite (left_id_L ∅ (∪)). }
  cbn [ports_by_process]. unfold port_row_ok in Hr.
  rewrite (proj2 (Z.ltb_lt 0 _)), (proj2 (Z.leb_le _ 65535)) by lia. cbn [andb].
  destruct (IH (<[pt_process r := {[Z.to_N (pt_port r)]} ∪ default ∅ (acc !! pt_process r)]> acc)) as (m & Hm & Hl).
  exists m. split; [done|]. intros id. rewrite Hl. unfold ports_in. rewrite filter_cons.
  destruct (decide (pt_process r = id)) as [<-|Hne].
  - rewrite lookup_insert_eq. cbn. set_solver.
  - by rewrite lookup_insert_ne.
Qed.

(** ** What a row holds *)
Section row_laws.
Context (is_format : rchar → bool) (nfc : rstr → rstr).

(** The row and its variable and port rows are what [s] was written as. *)
Record row_holds (env : list EnvRow) (pts : list PortRow) (r : ProcessRow) (s : ProcessSpec) : Prop := {
  rh_ok : spec_ok is_format s;
  rh_columns : process_params nfc s = Ok (ps_columns r);
  rh_env : filter (λ e, ev_process e = ps_id r) env = environment_rows (ps_id r) s;
  rh_ports : filter (λ p, pt_process p = ps_id r) pts = port_rows (ps_id r) s;
}.

Lemma process_params_key s c : process_params nfc s = Ok c → c_key c = key nfc s ∧ c_name c = name s.
Proof.
  unfold process_params. destruct (match ready s with None => _ | Some _ => _ end); [|done].
  destruct (duration_millis STOP_GRACE _); [|done]. by intros [= <-].
Qed.

Lemma pairs_of_rows id s : pairs_of id (environment_rows id s) = env_iter (environment s).
Proof.
  unfold pairs_of, environment_rows. rewrite filter_all.
  - rewrite <-list_fmap_compose. rewrite <-(list_fmap_id (env_iter _)) at 2. by apply list_fmap_ext; intros ? [].
  - intros r (nv & -> & _)%list_elem_of_fmap. done.
Qed.

Lemma ports_in_rows id s : list_to_set (ports_in id (port_rows id s)) = ports s.
Proof.
  unfold ports_in, port_rows. rewrite filter_all by (intros r (q & -> & _)%list_elem_of_fmap; done).
  rewrite <-list_fmap_compose. apply set_eq. intros p.
  rewrite elem_of_list_to_set, list_elem_of_fmap. cbn. split.
  - intros (q & -> & Hq%elem_of_btree_iter). by rewrite N2Z.id.
  - intros Hp. exists p. by rewrite N2Z.id, elem_of_btree_iter.
Qed.

(** A row reads as the definition it was written from. *)
Lemma process_from_row_holds r s envs pts :
  spec_ok is_format s → process_params nfc s = Ok (ps_columns r) →
  default ∅ (envs !! ps_id r) = environment s → default ∅ (pts !! ps_id r) = ports s →
  process_from_row is_format r envs pts = Ok s.
Proof.
  intros [Hn Hc Hd _ Hg Hr _] Hp He Hpt. unfold process_params in Hp.
  destruct r as [id pj cols]; cbn [ps_columns ps_id] in *.
  assert (∃ rd g, duration_millis STOP_GRACE (grace_period (stop s)) = Ok g ∧
    (match ready s with
     | None => rd = None
     | Some check => ∃ t, duration_millis READY_TIMEOUT (timeout check) = Ok t ∧
         rd = Some (ready_kind_text (stored (probe check)).1, (stored (probe check)).2, t)
     end) ∧
    cols = {| c_key := key nfc s; c_name := name s; c_command := command s; c_working_dir := working_dir s;
        c_description := description s; c_autostart := autostart s; c_restart := restart_text (restart s);
        c_stop_signal := signal_text (signal (stop s)); c_stop_grace_ms := g;
        c_ready_kind := (λ r, r.1.1) <$> rd; c_ready_target := (λ r, r.1.2) <$> rd;
        c_ready_timeout_ms := (λ r, r.2) <$> rd |}) as (rd & g & Hms & Hrd & ->).
  { destruct (ready s) as [check|].
    - destruct (stored (probe check)) as [k t]. destruct (duration_millis READY_TIMEOUT _) as [ms|]; [|done].
      destruct (duration_millis STOP_GRACE _) as [g|]; [|done]. injection Hp as <-.
      eexists (Some _), g. split; [done|]. split; [by exists ms|done].
    - destruct (duration_millis STOP_GRACE _) as [g|]; [|done]. injection Hp as <-. by exists None, g. }
  clear Hp. unfold process_from_row. cbn [ps_columns ps_id c_ready_kind c_ready_target c_ready_timeout_ms
    c_name c_command c_description c_restart c_stop_signal c_stop_grace_ms c_working_dir c_autostart].
  assert (∀ (A : Type) (k : option ReadyCheck → result A ConfigError),
    (let? ready := match (λ r : rstr * rstr * Z, r.1.1) <$> rd, (λ r : rstr * rstr * Z, r.1.2) <$> rd, (λ r : rstr * rstr * Z, r.2) <$> rd with
    | Some kind, Some target, Some timeout_ms =>
      match from_stored kind target with
      | Err _ => Err (ECorruptRow (lit "readiness check"))
      | Ok p => let? t := positive_from_millis READY_TIMEOUT timeout_ms in Ok (Some {| probe := p; timeout := t |})
      end
    | _, _, _ => Ok None
    end in k ready) = k (ready s)) as ->.
  { intros A k. destruct (ready s) as [check|]; [|by subst rd].
    destruct Hrd as (t & Ht & ->). destruct (Hr check eq_refl) as [Hpr Hto]. cbn [fmap option_fmap option_map fst snd].
    rewrite stored_round_trip by done. rewrite (positive_round_trip _ _ _ Hto Ht). by destruct check. }
  rewrite Hn, Hc. cbn [ok_or].
  assert (match description s with
    | None => Ok None
    | Some d => let? d := ok_or (description_try_new d) (ECorruptRow (lit "description")) in Ok (Some d)
    end = Ok (description s)) as ->.
  { destruct (description s) as [d|]; [|done]. by rewrite (Hd d eq_refl). }
  rewrite parse_restart_text, parse_signal_text. cbn [ok_or]. rewrite (grace_round_trip _ _ _ Hg Hms).
  rewrite He, Hpt. destruct s as [? ? ? ? ? ? ? [] ? ?]. done.
Qed.
End row_laws.
