(* ===== verification/StackStore.v ===== *)
(** * Stored stacks

    Models the statements and transactions of muster-store/src/stack_rows.rs,
    the registration half of project_rows.rs and the edit log of
    edit_log_rows.rs over the rows of [StackRows], with muster-domain's
    [StackEdit] and [ProjectName::candidates]. A table is the list of its rows
    in rowid order; the rowid of a new row is SQLite's choice, the parameter
    [new_rowid]. Statements run on a connection and hand on what they left; a
    transaction keeps it when the work succeeds and otherwise leaves the
    database as it was. *)
From S2P Require Import Prelude RustText RustPath Values Coordination Store Process Config StackRows.

(** ** Edits *)
Inductive StackEdit :=
| Added (author : Author) (spec : ProcessSpec)
| Changed (author : Author) (fields : list ProcessField) (spec : ProcessSpec)
| Removed (author : Author) (name : rstr)
| Configured (author : Author) (key : SettingKey) (value : rstr).

Definition edit_process (e : StackEdit) : option rstr :=
  match e with
  | Added _ spec | Changed _ _ spec => Some (name spec)
  | Removed _ name => Some name
  | Configured _ _ _ => None
  end.

Definition edit_author (e : StackEdit) : Author :=
  match e with Added a _ | Changed a _ _ | Removed a _ | Configured a _ _ => a end.

(** Only an agent's edits are kept. *)
Definition is_logged (e : StackEdit) : bool := negb (is_human (edit_author e)).

(** ** What an edit reads as *)
Definition field_text (f : ProcessField) : rstr :=
  match f with
  | FCommand => lit "command" | FWorkingDir => lit "working-dir" | FDescription => lit "description"
  | FEnvironment => lit "environment" | FAutostart => lit "autostart" | FRestart => lit "restart"
  | FStopSignal => lit "stop-signal" | FStopGrace => lit "stop-grace" | FReady => lit "ready" | FPorts => lit "ports"
  end.

Definition setting_key_text (k : SettingKey) : rstr :=
  match k with
  | KDesktopNotifications => lit "desktop-notifications" | KDefaultSize => lit "default-size" | KDetachKey => lit "detach-key"
  | KLogMaxSize => lit "log-max-size" | KScrollback => lit "scrollback" | KColorScheme => lit "color-scheme"
  | KDefaultAutostart => lit "default-autostart" | KDefaultRestart => lit "default-restart"
  | KDefaultStopSignal => lit "default-stop-signal" | KDefaultStopGrace => lit "default-stop-grace"
  | KMcpStackEdits => lit "mcp-stack-edits" | KIdleStop => lit "idle-stop"
  end.

Section edit_text.
Context (try_quote : rstr → option rstr) (path_display : path → rstr).

(** The name quoted for a shell, a bare word too; [try_quote] is [shlex]'s. *)
Definition shell_quoted (n : rstr) : rstr :=
  let quoted := default n (try_quote n) in
  if bool_decide (quoted = n) then lit "'" ++ quoted ++ lit "'" else quoted.

Definition working_dir_text (dir : option path) : rstr :=
  match dir with Some dir => path_display dir | None => lit "the project root" end.

Fixpoint join (sep : rstr) (parts : list rstr) : rstr :=
  match parts with [] => [] | [p] => p | p :: parts => p ++ sep ++ join sep parts end.

(** The edit for a person: who, what, and the command and working directory it
    now runs with whenever the edit set them. *)
Definition edit_display (e : StackEdit) : rstr :=
  match e with
  | Added author spec =>
      lit "agent " ++ label author ++ lit " added " ++ shell_quoted (name spec) ++ lit ", running `" ++
      command spec ++ lit "` in " ++ working_dir_text (working_dir spec)
  | Changed author fields spec =>
      lit "agent " ++ label author ++ lit " changed " ++ join (lit ", ") (field_text <$> fields) ++ lit " of " ++
      shell_quoted (name spec) ++
      (if decide (FCommand ∈ fields) then lit "; command now `" ++ command spec ++ lit "`" else []) ++
      (if decide (FWorkingDir ∈ fields) then lit "; working dir now " ++ working_dir_text (working_dir spec) else [])
  | Removed author n => lit "agent " ++ label author ++ lit " removed " ++ shell_quoted n
  | Configured author key value => lit "agent " ++ label author ++ lit " set " ++ setting_key_text key ++ lit " to " ++ value
  end.
End edit_text.

Definition EDIT_LOG_RETENTION : nat := 50.

Record EditRow := { ed_id : Z; ed_project : Z; ed_at_ms : Z; ed_process : option rstr; ed_message : rstr }.

Record StackDb := {
  projects : list ProjectRow;
  processes : list ProcessRow;
  process_env : list EnvRow;
  process_ports : list PortRow;
  revision_counter : Z;
  stack_edits : list EditRow;
}.

Definition empty_db : StackDb :=
  {| projects := []; processes := []; process_env := []; process_ports := []; revision_counter := 0; stack_edits := [] |}.

(** [SqliteStore::write]: what the work left is kept on success only. *)
Definition commit {A} (work : StackDb → result (A * StackDb) ConfigError) (db : StackDb) : result A ConfigError * StackDb :=
  match work db with Ok (value, db') => (Ok value, db') | Err e => (Err e, db) end.

Record Registration := { reg_project : Project; newly_registered : bool }.
Record AppliedChange := { ac_spec : ProcessSpec; ac_changed : bool }.

Definition ROOT_FOLDER_NAME : rstr := lit "root".
Definition FIRST_COLLISION_SUFFIX : N := 2.

(** [Path::file_name]. *)
Definition file_name (p : path) : option rstr :=
  match last p with Some (Normal n) => Some n | _ => None end.

Section store.
Context (is_format : rchar → bool) (nfc : rstr → rstr) (new_rowid : list Z → Z) (edit_text : StackEdit → rstr).

(** ** Projects *)

(** [SELECT_PROJECT WHERE root = ?1], read. *)
Definition find_project (db : StackDb) (root : path) : result (option (Z * Project)) ConfigError :=
  match last (filter (λ r, pj_root r = root) (projects db)) with
  | None => Ok None
  | Some r =>
    match project_from_row is_format r with
    | Ok project => Ok (Some project)
    | Err _ => Err (ECorruptRow (lit "project"))
    end
  end.

Definition require_project (db : StackDb) (root : path) : result (Z * Project) ConfigError :=
  let? found := find_project db root in ok_or found (EUnknownProject root).

(** The projects whose rows read. *)
Definition readable (db : StackDb) : list (Z * Project) :=
  omap (λ r, match project_from_row is_format r with Ok p => Some p | Err _ => None end) (projects db).

(** The folder's name made printable, or [ROOT_FOLDER_NAME]. *)
Definition candidate_base (root : path) : rstr :=
  match file_name root with
  | Some n => if bool_decide (trim (printable is_format n) = []) then ROOT_FOLDER_NAME else printable is_format n
  | None => ROOT_FOLDER_NAME
  end.

(** The name itself, then [name-2], [name-3], ... *)
Definition candidate (root : path) (k : nat) : rstr :=
  match k with
  | O => candidate_base root
  | S k => candidate_base root ++ lit "-" ++ print_dec (FIRST_COLLISION_SUFFIX + N.of_nat k)
  end.

(** The first candidate from the [k]-th on that is a name and free. *)
Fixpoint free_name (fuel : nat) (root : path) (taken : list rstr) (k : nat) : option rstr :=
  match fuel with
  | O => None
  | S fuel =>
    match project_name_try_new is_format (candidate root k) with
    | Ok n => if decide (n ∈ taken) then free_name fuel root taken (S k) else Some n
    | Err _ => free_name fuel root taken (S k)
    end
  end.

(** The project at [root], registered first when new. *)
Definition register (db : StackDb) (root : path) (now_ns : N) : result (Z * Registration * StackDb) ConfigError :=
  let? found := find_project db root in
  match found with
  | Some (id, project) => Ok (id, {| reg_project := project; newly_registered := false |}, db)
  | None =>
    match List.find (λ other, path_starts_with (pr_root other.2) root) (readable db) with
    | Some (_, held) => Err (EHoldsProject root (pr_name held))
    | None =>
      let taken := pj_name <$> projects db in
      let? name := ok_or (free_name (S (length taken)) root taken 0) (ECorruptRow (lit "project names")) in
      let id := new_rowid (pj_id <$> projects db) in
      let row := {| pj_id := id; pj_root := root; pj_name := name; pj_idle_kind := None; pj_idle_ms := None;
                    pj_registered_ns := epoch_param now_ns; pj_revision := 0 |} in
      Ok (id, {| reg_project := {| pr_root := root; pr_name := name; pr_idle_stop := None |}; newly_registered := true |},
          {| projects := projects db ++ [row]; processes := processes db; process_env := process_env db;
             process_ports := process_ports db; revision_counter := revision_counter db; stack_edits := stack_edits db |})
    end
  end.

(** ** Processes *)
Definition rows_of (db : StackDb) (project : Z) : list ProcessRow :=
  filter (λ r, ps_project r = project) (processes db).

(** [JOIN processes p ON p.id = e.process_id WHERE p.project_id = ?1]. *)
Definition environments_of (db : StackDb) (project : Z) : result (gmap Z Environment) ConfigError :=
  environments_by_process ∅ (filter (λ e, ev_process e ∈ ps_id <$> rows_of db project) (process_env db)).

Definition ports_of (db : StackDb) (project : Z) : result (gmap Z (gset N)) ConfigError :=
  ports_by_process ∅ (filter (λ p, pt_process p ∈ ps_id <$> rows_of db project) (process_ports db)).

(** The stack of a project, in insertion order. *)
Definition stack_of (db : StackDb) (project : Z * Project) : result Stack ConfigError :=
  let? environments := environments_of db project.1 in
  let? ports := ports_of db project.1 in
  let? specs := specs_from_rows is_format (rows_of db project.1) environments ports in
  Ok {| st_project := project.2; st_processes := specs |}.

Definition process_count (db : StackDb) (project : Z) : nat := length (rows_of db project).

Definition with_processes (db : StackDb) (ps : list ProcessRow) (env : list EnvRow) (pts : list PortRow) : StackDb :=
  {| projects := projects db; processes := ps; process_env := env; process_ports := pts;
     revision_counter := revision_counter db; stack_edits := stack_edits db |}.

(** [WHERE project_id = ?1 AND name_key = ?2]. *)
Definition is_named (project : Z) (k : rstr) (r : ProcessRow) : Prop :=
  ps_project r = project ∧ c_key (ps_columns r) = k.
#[export] Instance is_named_dec project k r : Decision (is_named project k r).
Proof. unfold is_named. apply _. Defined.

Definition insert_process (db : StackDb) (project : Z) (s : ProcessSpec) : result StackDb ConfigError :=
  let? columns := process_params nfc s in
  if decide (Exists (is_named project (c_key columns)) (processes db))
  then Err (EDuplicateProcessName (name s))
  else
    let id := new_rowid (ps_id <$> processes db) in
    Ok (with_processes db (processes db ++ [{| ps_id := id; ps_project := project; ps_columns := columns |}])
          (process_env db ++ environment_rows id s) (process_ports db ++ port_rows id s)).

(** Overwrites the definition under the same key, keeping its row. *)
Definition update_process (db : StackDb) (project : Z) (s : ProcessSpec) : result StackDb ConfigError :=
  let? columns := process_params nfc s in
  match filter (is_named project (c_key columns)) (processes db) with
  | [] => Err EStorage
  | r :: _ =>
    let id := ps_id r in
    Ok (with_processes db
          ((λ r, if decide (is_named project (c_key columns) r)
                 then {| ps_id := ps_id r; ps_project := ps_project r; ps_columns := columns |} else r) <$> processes db)
          (filter (λ e, ev_process e ≠ id) (process_env db) ++ environment_rows id s)
          (filter (λ p, pt_process p ≠ id) (process_ports db) ++ port_rows id s))
  end.

(** Deletes the process under a name's key; its variables and ports cascade. *)
Definition delete_process (db : StackDb) (project : Z) (n : rstr) : StackDb :=
  let gone := ps_id <$> filter (is_named project (name_key nfc n)) (processes db) in
  with_processes db (filter (λ r, ¬ is_named project (name_key nfc n) r) (processes db))
    (filter (λ e, ev_process e ∉ gone) (process_env db)) (filter (λ p, pt_process p ∉ gone) (process_ports db)).

(** Moves the stack to the store's next revision. *)
Definition bump_revision (db : StackDb) (project : Z) : StackDb :=
  let next := (revision_counter db + 1)%Z in
  {| projects := (λ r, if decide (pj_id r = project)
        then {| pj_id := pj_id r; pj_root := pj_root r; pj_name := pj_name r; pj_idle_kind := pj_idle_kind r;
                pj_idle_ms := pj_idle_ms r; pj_registered_ns := pj_registered_ns r; pj_revision := next |}
        else r) <$> projects db;
     processes := processes db; process_env := process_env db; process_ports := process_ports db;
     revision_counter := next; stack_edits := stack_edits db |}.

(** Keeps an agent's edit, and the newest [EDIT_LOG_RETENTION] of the project. *)
Definition record_edit (db : StackDb) (project : Z) (now : duration) (e : StackEdit) : result StackDb ConfigError :=
  if negb (is_logged e) then Ok db
  else
    let? at_ms := duration_millis (lit "edit time") now in
    let row := {| ed_id := new_rowid (ed_id <$> stack_edits db); ed_project := project; ed_at_ms := at_ms;
                  ed_process := edit_process e; ed_message := edit_text e |} in
    let edits := stack_edits db ++ [row] in
    let own := ed_id <$> filter (λ r, ed_project r = project) edits in
    let kept := drop (length own - EDIT_LOG_RETENTION) own in
    Ok {| projects := projects db; processes := processes db; process_env := process_env db;
          process_ports := process_ports db; revision_counter := revision_counter db;
          stack_edits := filter (λ r, ed_project r ≠ project ∨ ed_id r ∈ kept) edits |}.

(** ** The store's operations *)
Definition stack (db : StackDb) (root : path) : result (option Stack) ConfigError :=
  let? found := find_project db root in
  match found with
  | None => Ok None
  | Some project => let? st := stack_of db project in Ok (Some st)
  end.

Definition stack_revision (db : StackDb) (root : path) : option Z :=
  pj_revision <$> head (filter (λ r, pj_root r = root) (projects db)).

Definition add_process (root : path) (s : ProcessSpec) (author : Author) (now : duration) (db : StackDb)
    : result Registration ConfigError * StackDb :=
  commit (λ db,
    let? _ := check_caps s in
    let? (id, registration, db) := register db root now in
    let? _ := check_count (process_count db id + 1) in
    let? db := insert_process db id s in
    let db := bump_revision db id in
    let? db := record_edit db id now (Added author s) in
    Ok (registration, db)) db.

Definition change_process (root : path) (n : rstr) (change : ProcessChange) (author : Author) (now : duration) (db : StackDb)
    : result AppliedChange ConfigError * StackDb :=
  commit (λ db,
    let? project := require_project db root in
    let? st := stack_of db project in
    let? before := require nfc st n in
    let? changed := with_change before change in
    let fields := differing_fields before changed in
    if bool_decide (fields = []) then Ok ({| ac_spec := changed; ac_changed := false |}, db)
    else
      let? db := update_process db project.1 changed in
      let db := bump_revision db project.1 in
      let? db := record_edit db project.1 now (Changed author fields changed) in
      Ok ({| ac_spec := changed; ac_changed := true |}, db)) db.

Definition remove_process (root : path) (n : rstr) (author : Author) (now : duration) (db : StackDb)
    : result ProcessSpec ConfigError * StackDb :=
  commit (λ db,
    let? project := require_project db root in
    let? st := stack_of db project in
    let? removed := require nfc st n in
    let db := delete_process db project.1 n in
    let db := bump_revision db project.1 in
    let? db := record_edit db project.1 now (Removed author (name removed)) in
    Ok (removed, db)) db.

(** The spec whose name shares a key. *)
Definition named (ps : list ProcessSpec) (n : rstr) : option ProcessSpec :=
  List.find (λ s, bool_decide (key nfc s = name_key nfc n)) ps.

(** Writes the incoming definition of each name in turn. *)
Fixpoint write_named (write : StackDb → Z → ProcessSpec → result StackDb ConfigError)
    (incoming : list ProcessSpec) (db : StackDb) (project : Z) (ns : list rstr) : result StackDb ConfigError :=
  match ns with
  | [] => Ok db
  | n :: ns =>
    let? db := match named incoming n with Some s => write db project s | None => Ok db end in
    write_named write incoming db project ns
  end.

Definition import (root : path) (incoming : list ProcessSpec) (mode : ImportMode) (now : duration) (db : StackDb)
    : result (Registration * ImportPlan) ConfigError * StackDb :=
  commit (λ db,
    let? (id, registration, db) := register db root now in
    let? st := stack_of db (id, reg_project registration) in
    let? plan := plan_import nfc st incoming mode in
    let db := foldl (λ db n, delete_process db id n) db (plan_removed plan) in
    let? db := write_named update_process incoming db id (plan_updated plan) in
    let? db := write_named insert_process incoming db id (plan_added plan) in
    Ok (registration, plan, bump_revision db id)) db.

Definition store_idle_stop (db : StackDb) (project : Z) (i : option IdleStop) : result StackDb ConfigError :=
  let? columns :=
    match i with
    | None => Ok (None, None)
    | Some i => let? (kind, ms) := idle_stop_columns i in Ok (Some kind, ms)
    end in
  Ok {| projects := (λ r, if decide (pj_id r = project)
          then {| pj_id := pj_id r; pj_root := pj_root r; pj_name := pj_name r; pj_idle_kind := columns.1;
                  pj_idle_ms := columns.2; pj_registered_ns := pj_registered_ns r; pj_revision := pj_revision r |}
          else r) <$> projects db;
        processes := processes db; process_env := process_env db; process_ports := process_ports db;
        revision_counter := revision_counter db; stack_edits := stack_edits db |}.

Definition set_idle_stop (root : path) (i : option IdleStop) (db : StackDb) : result Project ConfigError * StackDb :=
  commit (λ db,
    let? project := require_project db root in
    let? db := store_idle_stop db project.1 i in
    let db := bump_revision db project.1 in
    let? project := require_project db root in
    Ok (project.2, db)) db.

(** Deletes a project; its processes, variables, ports and edits cascade. *)
Definition remove_project (root : path) (db : StackDb) : result bool ConfigError * StackDb :=
  let gone := pj_id <$> filter (λ r, pj_root r = root) (projects db) in
  let procs := ps_id <$> filter (λ r, ps_project r ∈ gone) (processes db) in
  (Ok (negb (bool_decide (gone = []))),
   {| projects := filter (λ r, pj_root r ≠ root) (projects db);
      processes := filter (λ r, ps_project r ∉ gone) (processes db);
      process_env := filter (λ e, ev_process e ∉ procs) (process_env db);
      process_ports := filter (λ p, pt_process p ∉ procs) (process_ports db);
      revision_counter := revision_counter db;
      stack_edits := filter (λ r, ed_project r ∉ gone) (stack_edits db) |}).
End store.

(** * Laws *)

(** ** Names for new projects *)
Section names.
Context (is_format : rchar → bool).
(** No printable ASCII character is of the general category Format. *)
Hypothesis ascii_not_format : ∀ c, (32 <= c <= 126)%N → is_format c = false.

Notation no_steer := (Forall (λ c, steers_the_terminal is_format c = false)).

Lemma ascii_no_steer s : Forall (λ c, 32 <= c <= 126)%N s → no_steer s.
Proof. intros Hs. eapply Forall_impl; [done|]. intros c. by apply steers_ascii. Qed.

Lemma candidate_base_ok root : no_steer (candidate_base is_format root) ∧ trim (candidate_base is_format root) ≠ [].
Proof.
  assert (no_steer ROOT_FOLDER_NAME ∧ trim ROOT_FOLDER_NAME ≠ []) as Hroot.
  { split; [|done]. apply ascii_no_steer. vm_compute. repeat (apply Forall_cons_2; [done|]). apply Forall_nil_2. }
  unfold candidate_base. destruct (file_name root) as [n|]; [|done].
  case_bool_decide as E; [done|]. split; [by apply printable_steers_none|done].
Qed.

Lemma dash_digits_ascii n : Forall (λ c, 32 <= c <= 126)%N (lit "-" ++ print_dec n).
Proof.
  apply Forall_app. split; [vm_compute; apply Forall_cons_2; [done|apply Forall_nil_2]|].
  eapply Forall_impl; [apply print_dec_digits|]. intros c [H1%N.leb_le H2%N.leb_le]%andb_true_iff. lia.
Qed.

Lemma candidate_no_steer root k : no_steer (candidate is_format root k).
Proof.
  destruct (candidate_base_ok root) as [Hb _]. destruct k as [|k]; [done|].
  apply Forall_app. split; [done|]. apply ascii_no_steer, dash_digits_ascii.
Qed.

(** A suffixed candidate only loses what its folder name starts with. *)
Lemma trim_suffixed b n :
  trim b ≠ [] → trim (b ++ lit "-" ++ print_dec n) = trim_start_matches is_whitespace b ++ lit "-" ++ print_dec n.
Proof.
  intros Hb. unfold trim, trim_matches. rewrite trim_start_matches_app.
  2: { intros E. apply Hb. unfold trim, trim_matches. by rewrite E. }
  unfold trim_end_matches. rewrite trim_start_matches_id; [apply reverse_involutive|].
  destruct (exists_last (print_dec_nonempty n)) as (ds & d & Ed). rewrite Ed, !app_assoc, reverse_snoc.
  pose proof (print_dec_digits n) as Hd. rewrite Ed in Hd. apply Forall_app in Hd as [_ Hd]. apply Forall_inv in Hd.
  by apply is_ascii_digit_not_whitespace.
Qed.

Lemma candidate_try_new root k :
  project_name_try_new is_format (candidate is_format root k) = Ok (trim (candidate is_format root k)) ∧
  project_name_try_new is_format (trim (candidate is_format root k)) = Ok (trim (candidate is_format root k)).
Proof.
  assert (trim (candidate is_format root k) ≠ []) as Hne.
  { destruct (candidate_base_ok root) as [_ Hb]. destruct k as [|k]; [done|]. cbn [candidate].
    rewrite trim_suffixed by done. intros E. by apply app_nil in E as [_ E]. }
  assert (existsb (steers_the_terminal is_format) (trim (candidate is_format root k)) = false) as Hs.
  { apply existsb_false. apply Forall_forall. intros c Hc%elem_of_trim_matches.
    pose proof (candidate_no_steer root k) as Hn. rewrite Forall_forall in Hn. by apply Hn. }
  unfold project_name_try_new. rewrite trim_idemp, Hs. by rewrite bool_decide_eq_false_2.
Qed.

Lemma print_dec_inj n m : print_dec n = print_dec m → n = m.
Proof.
  intros E. pose proof (parse_print_dec (N.max n m) n ltac:(lia)) as Hn.
  pose proof (parse_print_dec (N.max n m) m ltac:(lia)) as Hm. congruence.
Qed.

Lemma candidate_inj root j k : trim (candidate is_format root j) = trim (candidate is_format root k) → j = k.
Proof.
  destruct (candidate_base_ok root) as [_ Hb].
  assert (∀ i, trim (candidate is_format root 0) ≠ trim (candidate is_format root (S i))) as H0.
  { intros i E. apply (f_equal length) in E. cbn [candidate] in E. rewrite trim_suffixed in E by done.
    rewrite length_app in E. cbn [length app lit] in E.
    assert (length (trim (candidate_base is_format root)) ≤ length (trim_start_matches is_whitespace (candidate_base is_format root))) as Hle.
    { unfold trim, trim_matches, trim_end_matches. rewrite length_reverse.
      destruct (trim_start_matches_suffix is_whitespace (reverse (trim_start_matches is_whitespace (candidate_base is_format root)))) as (x & Ex & _).
      apply (f_equal length) in Ex. rewrite length_app, length_reverse in Ex. lia. }
    unfold lit in E. cbn in E. lia. }
  destruct j as [|j], k as [|k]; [done|by intros ?%H0|by intros E; symmetry in E; apply H0 in E|].
  cbn [candidate]. rewrite !trim_suffixed by done. intros E%app_inv_head%app_inv_head%print_dec_inj. lia.
Qed.

(** There is always a free name: of one more candidate than there are names,
    one is free. *)
Lemma free_name_None fuel root taken k :
  free_name is_format fuel root taken k = None →
  ∀ j, k ≤ j < k + fuel → trim (candidate is_format root j) ∈ taken.
Proof.
  revert k; induction fuel as [|fuel IH]; intros k Hn j Hj; [lia|]. cbn [free_name] in Hn.
  rewrite (proj1 (candidate_try_new root k)) in Hn. case_decide as Hin; [|done].
  destruct (decide (j = k)) as [->|]; [done|]. apply (IH (S k)); [done|lia].
Qed.

Lemma free_name_Some fuel root taken k n :
  free_name is_format fuel root taken k = Some n → n ∉ taken ∧ project_name_try_new is_format n = Ok n.
Proof.
  revert k; induction fuel as [|fuel IH]; intros k Hn; [done|]. cbn [free_name] in Hn.
  rewrite (proj1 (candidate_try_new root k)) in Hn. case_decide as Hin; [by eapply IH|].
  injection Hn as <-. split; [done|]. apply candidate_try_new.
Qed.

Lemma free_name_total root taken : ∃ n, free_name is_format (S (length taken)) root taken 0 = Some n.
Proof.
  destruct (free_name _ _ _ _ _) as [n|] eqn:E; [by exists n|]. exfalso.
  set (names := (λ j, trim (candidate is_format root j)) <$> seq 0 (S (length taken))).
  assert (names ⊆+ taken) as Hsub.
  { apply NoDup_submseteq.
    - unfold names. apply NoDup_fmap_2_strong; [|apply NoDup_seq]. intros i j _ _. apply candidate_inj.
    - intros x (j & -> & Hj%elem_of_seq)%list_elem_of_fmap. by apply (free_name_None _ _ _ _ E). }
  apply submseteq_length in Hsub. unfold names in Hsub. rewrite length_fmap, length_seq in Hsub. lia.
Qed.
End names.

Section laws.
Context (is_format : rchar → bool) (nfc : rstr → rstr) (new_rowid : list Z → Z) (edit_text : StackEdit → rstr).
(** SQLite gives a new row an id above every one in use. *)
Hypothesis new_rowid_above : ∀ ids, Forall (λ i, (i < new_rowid ids)%Z) ids.

Notation holds_row db := (row_holds is_format nfc (process_env db) (process_ports db)).

(** What the schema and the writes keep true of a database. *)
Record wf (db : StackDb) : Prop := {
  wf_project_ids : NoDup (pj_id <$> projects db);
  wf_roots : NoDup (pj_root <$> projects db);
  wf_names : NoDup (pj_name <$> projects db);
  wf_readable : Forall (λ r, ∃ p, project_from_row is_format r = Ok (pj_id r, p) ∧ pr_root p = pj_root r ∧ pr_name p = pj_name r)
    (projects db);
  wf_revisions : Forall (λ r, (0 <= pj_revision r <= revision_counter db)%Z) (projects db);
  wf_process_ids : NoDup (ps_id <$> processes db);
  wf_keys : NoDup ((λ r, (ps_project r, c_key (ps_columns r))) <$> processes db);
  wf_project_fk : Forall (λ r, ps_project r ∈ pj_id <$> projects db) (processes db);
  wf_env_fk : Forall (λ e, ev_process e ∈ ps_id <$> processes db) (process_env db);
  wf_port_fk : Forall (λ p, pt_process p ∈ ps_id <$> processes db) (process_ports db);
  wf_rows : Forall (λ r, ∃ s, holds_row db r s) (processes db);
  wf_counter : (0 <= revision_counter db)%Z;
}.

(** The definitions a project's rows hold, in order. *)
Definition holds (db : StackDb) (project : Z) (specs : list ProcessSpec) : Prop :=
  Forall2 (holds_row db) (rows_of db project) specs.

Lemma wf_empty : wf empty_db.
Proof. split; try apply NoDup_nil_2; try apply Forall_nil_2. cbn. lia. Qed.

Lemma new_rowid_fresh ids : new_rowid ids ∉ ids.
Proof. intros Hin. pose proof (new_rowid_above ids) as Ha. rewrite Forall_forall in Ha. specialize (Ha _ Hin). lia. Qed.

Lemma holds_exists db project : wf db → ∃ specs, holds db project specs.
Proof.
  intros Hwf. unfold holds. assert (Forall (λ r, ∃ s, holds_row db r s) (rows_of db project)) as Hf.
  { apply Forall_filter. apply (wf_rows _ Hwf). }
  induction Hf as [|r rows [s Hs] _ [specs IH]]; [by exists []|]. exists (s :: specs). by constructor.
Qed.

(** ** Reading *)
Lemma specs_from_rows_holds rows specs envs pts :
  NoDup (ps_id <$> rows) →
  Forall2 (λ r s, spec_ok is_format s ∧ process_params nfc s = Ok (ps_columns r) ∧
     default ∅ (envs !! ps_id r) = environment s ∧ default ∅ (pts !! ps_id r) = ports s) rows specs →
  specs_from_rows is_format rows envs pts = Ok specs.
Proof.
  intros Hnd Hf. revert envs pts Hnd Hf. revert specs.
  induction rows as [|r rows IH]; intros specs envs pts Hnd Hf; inversion Hf as [|? s ? specs' (H1 & H2 & H3 & H4) Hrest]; subst; [done|].
  cbn [specs_from_rows]. rewrite (process_from_row_holds is_format nfc r s) by done.
  cbn [fmap list_fmap] in Hnd. apply NoDup_cons in Hnd as [Hni Hnd].
  rewrite (IH specs'); [done|done|].
  apply Forall2_same_length_lookup in Hrest as [Hlen Hrest]. apply Forall2_same_length_lookup. split; [done|].
  intros i r' s' Hr' Hs'. destruct (Hrest i r' s' Hr' Hs') as (? & ? & ? & ?).
  assert (ps_id r ≠ ps_id r') as Hne.
  { intros E. apply Hni. rewrite E. apply list_elem_of_fmap. exists r'. split; [done|by eapply list_elem_of_lookup_2]. }
  by rewrite !lookup_delete_ne.
Qed.

Lemma holds_row_env_ok db r s e : holds_row db r s → e ∈ process_env db → ev_process e = ps_id r → env_row_ok e.
Proof.
  intros [Hok _ He _] Hin Hid.
  assert (e ∈ environment_rows (ps_id r) s) as ([n v] & -> & Hnv)%list_elem_of_fmap
    by (rewrite <-He; apply list_elem_of_filter; done).
  apply elem_of_env_iter in Hnv. by apply (ok_environment _ _ Hok).
Qed.

Lemma holds_row_port_ok db r s p : holds_row db r s → p ∈ process_ports db → pt_process p = ps_id r → port_row_ok p.
Proof.
  intros [Hok _ _ Hp] Hin Hid.
  assert (p ∈ port_rows (ps_id r) s) as (q & -> & Hq)%list_elem_of_fmap
    by (rewrite <-Hp; apply list_elem_of_filter; done).
  apply elem_of_btree_iter in Hq. apply (ok_ports _ _ Hok) in Hq. unfold port_row_ok. cbn. lia.
Qed.

(** A project's stack reads as the definitions its rows hold. *)
Lemma stack_of_holds db project p specs :
  wf db → holds db project specs → stack_of is_format db (project, p) = Ok {| st_project := p; st_processes := specs |}.
Proof.
  intros Hwf Hh. unfold stack_of, environments_of, ports_of. cbn [fst snd].
  assert (∀ r, r ∈ rows_of db project → ∃ s, holds_row db r s) as Hrows.
  { intros r [i Hi]%list_elem_of_lookup. destruct (Forall2_lookup_l _ _ _ _ _ Hh Hi) as (s & _ & Hs). by exists s. }
  destruct (environments_lookup (filter (λ e, ev_process e ∈ ps_id <$> rows_of db project) (process_env db)) ∅) as (envs & -> & Henvs).
  { apply Forall_forall. intros e [(r & Hid & Hr)%list_elem_of_fmap He]%list_elem_of_filter.
    destruct (Hrows r Hr) as [s Hs]. by eapply holds_row_env_ok. }
  destruct (ports_lookup (filter (λ p, pt_process p ∈ ps_id <$> rows_of db project) (process_ports db)) ∅) as (pts & -> & Hpts).
  { apply Forall_forall. intros e [(r & Hid & Hr)%list_elem_of_fmap He]%list_elem_of_filter.
    destruct (Hrows r Hr) as [s Hs]. by eapply holds_row_port_ok. }
  rewrite (specs_from_rows_holds _ specs); [done| |].
  { apply NoDup_fmap_filter. apply (wf_process_ids _ Hwf). }
  unfold holds in Hh. apply Forall2_same_length_lookup in Hh as [Hlen Hh]. apply Forall2_same_length_lookup.
  split; [done|]. intros i r s Hr Hs. destruct (Hh i r s Hr Hs) as [Hok Hc He Hp].
  assert (ps_id r ∈ ps_id <$> rows_of db project) as Hin
    by (apply list_elem_of_fmap; exists r; split; [done|by eapply list_elem_of_lookup_2]).
  rewrite Henvs, Hpts, !lookup_empty. cbn [default from_option].
  unfold pairs_of, ports_in. rewrite !list_filter_filter_l by (by intros e ->).
  split; [done|]. split; [done|]. split.
  - rewrite He, <-(env_extend_iter (environment s)). f_equal. rewrite <-(pairs_of_rows (ps_id r) s).
    unfold pairs_of. by rewrite <-He, list_filter_filter_l.
  - rewrite (right_id_L ∅ (∪)), Hp, <-(ports_in_rows (ps_id r) s).
    unfold ports_in. by rewrite <-Hp, list_filter_filter_l.
Qed.

(** What is held is determined by the database. *)
Lemma holds_unique db project specs specs' : wf db → holds db project specs → holds db project specs' → specs = specs'.
Proof.
  intros Hwf H1 H2. set (p := {| pr_root := []; pr_name := []; pr_idle_stop := None |}).
  pose proof (stack_of_holds db project p specs Hwf H1) as E1. rewrite (stack_of_holds db project p specs' Hwf H2) in E1.
  congruence.
Qed.

(** ** Statements *)

(** A row keeps what it holds while its variable and port rows stay. *)
Lemma holds_row_keeps db db' r s :
  filter (λ e, ev_process e = ps_id r) (process_env db') = filter (λ e, ev_process e = ps_id r) (process_env db) →
  filter (λ p, pt_process p = ps_id r) (process_ports db') = filter (λ p, pt_process p = ps_id r) (process_ports db) →
  holds_row db r s → holds_row db' r s.
Proof. intros He Hp [H1 H2 H3 H4]. split; congruence. Qed.

(** A project keeps what it holds while its rows and theirs stay. *)
Lemma holds_keeps db db' project specs :
  rows_of db' project = rows_of db project →
  (∀ r, r ∈ rows_of db project →
    filter (λ e, ev_process e = ps_id r) (process_env db') = filter (λ e, ev_process e = ps_id r) (process_env db) ∧
    filter (λ p, pt_process p = ps_id r) (process_ports db') = filter (λ p, pt_process p = ps_id r) (process_ports db)) →
  holds db project specs → holds db' project specs.
Proof.
  intros Hr Hk. unfold holds. rewrite Hr. intros Hh. eapply Forall2_impl_elem; [done|].
  intros r s Hin. destruct (Hk r Hin). by apply holds_row_keeps.
Qed.

Lemma filter_environment_rows id i s :
  filter (λ e, ev_process e = i) (environment_rows id s) = if decide (id = i) then environment_rows id s else [].
Proof.
  destruct (decide (id = i)) as [->|Hne].
  - apply filter_all. by intros e (nv & -> & _)%list_elem_of_fmap.
  - apply filter_none. by intros e (nv & -> & _)%list_elem_of_fmap.
Qed.

Lemma filter_port_rows id i s :
  filter (λ p, pt_process p = i) (port_rows id s) = if decide (id = i) then port_rows id s else [].
Proof.
  destruct (decide (id = i)) as [->|Hne].
  - apply filter_all. by intros e (nv & -> & _)%list_elem_of_fmap.
  - apply filter_none. by intros e (nv & -> & _)%list_elem_of_fmap.
Qed.

(** A process not in the table has neither variables nor ports. *)
Lemma no_env_rows db i : wf db → i ∉ ps_id <$> processes db → filter (λ e, ev_process e = i) (process_env db) = [].
Proof.
  intros Hwf Hi. apply filter_none. intros e He <-. pose proof (wf_env_fk _ Hwf) as Hfk.
  rewrite Forall_forall in Hfk. by apply Hi, Hfk.
Qed.

Lemma no_port_rows db i : wf db → i ∉ ps_id <$> processes db → filter (λ p, pt_process p = i) (process_ports db) = [].
Proof.
  intros Hwf Hi. apply filter_none. intros e He <-. pose proof (wf_port_fk _ Hwf) as Hfk.
  rewrite Forall_forall in Hfk. by apply Hi, Hfk.
Qed.

Lemma rows_of_ids db project r : r ∈ rows_of db project → ps_id r ∈ ps_id <$> processes db.
Proof. intros [_ Hr]%list_elem_of_filter. apply list_elem_of_fmap. by exists r. Qed.

(** A project's row but for its revision. *)
Definition project_view (r : ProjectRow) := (pj_id r, pj_root r, pj_name r, pj_idle_kind r, pj_idle_ms r, pj_registered_ns r).

(** What a statement does to the stacks: the one of [project] goes through
    [f], every other stays, and the projects stay but for their revisions. *)
Record effect (db db' : StackDb) (project : Z) (f : list ProcessSpec → list ProcessSpec) : Prop := {
  ef_wf : wf db';
  ef_here : ∀ specs, holds db project specs → holds db' project (f specs);
  ef_there : ∀ p specs, p ≠ project → holds db p specs → holds db' p specs;
  ef_projects : project_view <$> projects db' = project_view <$> projects db;
  ef_counter : (revision_counter db <= revision_counter db')%Z;
  ef_revisions : Forall2 (λ r r', pj_id r' = pj_id r ∧ (pj_revision r' = pj_revision r ∨ pj_id r = project ∧ (revision_counter db < pj_revision r')%Z))
    (projects db) (projects db');
}.

Lemma same_revisions (R : ProjectRow → ProjectRow → Prop) ps :
  (∀ r, R r r) → Forall2 R ps ps.
Proof. intros HR. induction ps; by constructor. Qed.

Lemma effect_id db project : wf db → effect db db project id.
Proof. split; try done. apply same_revisions. intros r. split; [done|by left]. Qed.

Lemma effect_ext db db' project f g :
  effect db db' project f → (∀ specs, holds db project specs → f specs = g specs) → effect db db' project g.
Proof. intros [H1 H2 H3 H4 H5 H6] Hfg. split; try done. intros specs Hs. rewrite <-Hfg by done. by apply H2. Qed.

Lemma effect_comp db db' db'' project f g :
  effect db db' project f → effect db' db'' project g → effect db db'' project (λ specs, g (f specs)).
Proof.
  intros [H1 H2 H3 H4 Hc Hr] [H5 H6 H7 H8 Hc' Hr']. split; [done|by eauto|by eauto|congruence|lia|].
  clear -Hr Hr' Hc. revert Hr'. generalize (projects db''). induction Hr as [|r r' ps ps' H _ IH]; intros ps'' Hr';
    inversion Hr' as [|? r'' ? ? H']; subst; constructor; [|by apply IH].
  destruct H as [E H], H' as [E' H']. split; [congruence|].
  destruct H' as [->|[? ?]]; [done|]. right. split; [congruence|lia].
Qed.

(** A statement that touches only the rows of [project]. *)
Lemma table_effect db ps env pts project f :
  wf db →
  let db' := with_processes db ps env pts in
  NoDup (ps_id <$> ps) →
  NoDup ((λ r, (ps_project r, c_key (ps_columns r))) <$> ps) →
  Forall (λ r, ps_project r ∈ pj_id <$> projects db) ps →
  Forall (λ e, ev_process e ∈ ps_id <$> ps) env →
  Forall (λ p, pt_process p ∈ ps_id <$> ps) pts →
  (∀ p, p ≠ project → rows_of db' p = rows_of db p) →
  (∀ r, r ∈ processes db → ps_project r ≠ project →
     filter (λ e, ev_process e = ps_id r) env = filter (λ e, ev_process e = ps_id r) (process_env db) ∧
     filter (λ p, pt_process p = ps_id r) pts = filter (λ p, pt_process p = ps_id r) (process_ports db)) →
  (∀ specs, holds db project specs → holds db' project (f specs)) →
  effect db db' project f.
Proof.
  intros Hwf db' Hids Hkeys Hpj Henv Hpts Hrows Hkeep Hhere.
  assert (∀ p specs, p ≠ project → holds db p specs → holds db' p specs) as Hthere.
  { intros p specs Hp. apply holds_keeps; [by apply Hrows|].
    intros r [Hr1 Hr2]%list_elem_of_filter. apply Hkeep; [done|]. by rewrite Hr1. }
  split; [|done|done|done|cbn; lia|apply same_revisions; intros r; split; [done|by left]]. pose proof Hwf as [W1 W2 W3 W4 W5 W6 W7 W8 W9 W10 W11 W12]. split; try done.
  apply Forall_forall. intros r Hr.
  assert (∃ specs, holds db' (ps_project r) specs) as [specs Hs].
  { destruct (holds_exists db (ps_project r) Hwf) as [specs Hs].
    destruct (decide (ps_project r = project)) as [E|Hne]; [|exists specs; by apply Hthere].
    exists (f specs). rewrite E in *. by apply Hhere. }
  assert (r ∈ rows_of db' (ps_project r)) as [i Hi]%list_elem_of_lookup by (by apply list_elem_of_filter).
  destruct (Forall2_lookup_l _ _ _ _ _ Hs Hi) as (s & _ & Hrs). by exists s.
Qed.

Lemma insert_process_effect db project s db' :
  wf db → project ∈ pj_id <$> projects db → spec_ok is_format s →
  insert_process nfc new_rowid db project s = Ok db' →
  effect db db' project (λ specs, specs ++ [s]).
Proof.
  intros Hwf Hpj Hok. unfold insert_process. destruct (process_params nfc s) as [c|] eqn:Ec; [|done].
  destruct (process_params_key nfc s c Ec) as [Hkey _].
  destruct (decide _) as [|Hfree]; [done|]. intros [= <-].
  set (id := new_rowid (ps_id <$> processes db)).
  assert (id ∉ ps_id <$> processes db) as Hid by apply new_rowid_fresh.
  apply not_Exists_Forall in Hfree; [|apply _]. rewrite Forall_forall in Hfree.
  assert (∀ i, i ∈ ps_id <$> processes db →
    filter (λ e, ev_process e = i) (process_env db ++ environment_rows id s) = filter (λ e, ev_process e = i) (process_env db) ∧
    filter (λ p, pt_process p = i) (process_ports db ++ port_rows id s) = filter (λ p, pt_process p = i) (process_ports db)) as Hkeep.
  { intros i Hi. rewrite !filter_app, filter_environment_rows, filter_port_rows.
    assert (id ≠ i) by (intros E; apply Hid; by rewrite E).
    rewrite !decide_False by done. by rewrite !app_nil_r. }
  apply table_effect; [done|..].
  - rewrite fmap_app. apply NoDup_app. split; [apply (wf_process_ids _ Hwf)|]. split; [|by apply NoDup_singleton].
    intros i Hi Hi'%list_elem_of_singleton. by subst.
  - rewrite fmap_app. apply NoDup_app. split; [apply (wf_keys _ Hwf)|]. split; [|by apply NoDup_singleton].
    intros x (r & -> & Hr)%list_elem_of_fmap Hx%list_elem_of_singleton. cbn in Hx.
    injection Hx as Hx1 Hx2. by apply (Hfree r Hr).
  - apply Forall_app. split; [apply (wf_project_fk _ Hwf)|]. by repeat constructor.
  - rewrite fmap_app. apply Forall_app. split; apply Forall_forall.
    + intros e He. apply elem_of_app. left. pose proof (wf_env_fk _ Hwf) as Hfk. rewrite Forall_forall in Hfk. by apply Hfk.
    + intros e (nv & -> & _)%list_elem_of_fmap. cbn. set_solver.
  - rewrite fmap_app. apply Forall_app. split; apply Forall_forall.
    + intros e He. apply elem_of_app. left. pose proof (wf_port_fk _ Hwf) as Hfk. rewrite Forall_forall in Hfk. by apply Hfk.
    + intros e (nv & -> & _)%list_elem_of_fmap. cbn. set_solver.
  - intros p Hp. unfold rows_of. cbn. rewrite filter_app, filter_cons, decide_False by done. by rewrite app_nil_r.
  - intros r Hr _. apply Hkeep. apply list_elem_of_fmap. by exists r.
  - intros specs Hs. unfold holds, rows_of. cbn. rewrite filter_app, filter_cons, decide_True, filter_nil by done.
    apply Forall2_app.
    + eapply Forall2_impl_elem; [apply Hs|]. intros r t Hr%rows_of_ids [H1 H2 H3 H4].
      destruct (Hkeep _ Hr) as [He Hp]. split; [done|done| |]; cbn; congruence.
    + apply Forall2_cons_2; [|apply Forall2_nil_2]. split; [done|done|cbn..]; rewrite filter_app.
      * by rewrite (no_env_rows db), filter_environment_rows, decide_True by done.
      * by rewrite (no_port_rows db), filter_port_rows, decide_True by done.
Qed.

(** A held row's key is its definition's. *)
Lemma holds_row_key db r s : holds_row db r s → c_key (ps_columns r) = key nfc s.
Proof. intros [_ Hc _ _]. by apply process_params_key in Hc as [? _]. Qed.

(** A name is taken exactly when the stack has its key. *)
Lemma named_in_specs db project specs k :
  holds db project specs → Exists (is_named project k) (processes db) ↔ k ∈ key nfc <$> specs.
Proof.
  intros Hh. rewrite Exists_exists, list_elem_of_fmap. split.
  - intros (r & Hr & Hp & Hk).
    assert (r ∈ rows_of db project) as [i Hi]%list_elem_of_lookup by (by apply list_elem_of_filter).
    destruct (Forall2_lookup_l _ _ _ _ _ Hh Hi) as (s & Hs & Hrs). exists s.
    split; [by rewrite <-(holds_row_key _ _ _ Hrs)|by eapply list_elem_of_lookup_2].
  - intros (s & -> & [i Hi]%list_elem_of_lookup).
    destruct (Forall2_lookup_r _ _ _ _ _ Hh Hi) as (r & Hr & Hrs). exists r.
    apply list_elem_of_lookup_2, list_elem_of_filter in Hr as [Hp Hr]. split; [done|]. split; [done|].
    by apply holds_row_key in Hrs.
Qed.

(** At most one row is named. *)
Lemma named_unique db project k r r' :
  wf db → r ∈ processes db → r' ∈ processes db → is_named project k r → is_named project k r' → r = r'.
Proof.
  intros Hwf Hr Hr' [Hp Hk] [Hp' Hk']. eapply (NoDup_key_inj _ _ _ _ (wf_keys _ Hwf)); [done|done|]. cbn. congruence.
Qed.

Lemma row_id_inj db r r' : wf db → r ∈ processes db → r' ∈ processes db → ps_id r = ps_id r' → r = r'.
Proof. intros Hwf Hr Hr' E. by eapply (NoDup_key_inj _ _ _ _ (wf_process_ids _ Hwf)). Qed.

(** The update of one row. *)
Definition updated (project : Z) (c : Columns) (r : ProcessRow) : ProcessRow :=
  if decide (is_named project (c_key c) r)
  then {| ps_id := ps_id r; ps_project := ps_project r; ps_columns := c |} else r.

Lemma updated_id project c r : ps_id (updated project c r) = ps_id r.
Proof. unfold updated. by case_decide. Qed.

Lemma updated_project project c r : ps_project (updated project c r) = ps_project r.
Proof. unfold updated. by case_decide. Qed.

Lemma updated_key project c r : c_key (ps_columns (updated project c r)) = c_key (ps_columns r).
Proof. unfold updated. case_decide as H; [|done]. cbn. by destruct H. Qed.

Lemma filter_updated project c p (ps : list ProcessRow) :
  filter (λ r, ps_project r = p) (updated project c <$> ps) = updated project c <$> filter (λ r, ps_project r = p) ps.
Proof.
  induction ps as [|r ps IH]; [done|]. cbn [fmap list_fmap]. rewrite !filter_cons, updated_project, IH.
  by case_decide.
Qed.

Lemma update_process_effect db project s db' :
  wf db → spec_ok is_format s → update_process nfc db project s = Ok db' →
  effect db db' project (fmap (λ t, if decide (key nfc t = key nfc s) then s else t)).
Proof.
  intros Hwf Hok. unfold update_process. destruct (process_params nfc s) as [c|] eqn:Ec; [|done].
  destruct (process_params_key nfc s c Ec) as [Hkey _].
  destruct (filter _ (processes db)) as [|r rs] eqn:Ef; [done|]. intros [= <-].
  assert (r ∈ filter (is_named project (c_key c)) (processes db)) as [Hnr Hr]%list_elem_of_filter
    by (rewrite Ef; apply list_elem_of_here).
  change (λ r0, if decide (is_named project (c_key c) r0) then _ else r0) with (updated project c).
  assert (∀ i, i ≠ ps_id r →
    filter (λ e, ev_process e = i) (filter (λ e, ev_process e ≠ ps_id r) (process_env db) ++ environment_rows (ps_id r) s)
      = filter (λ e, ev_process e = i) (process_env db) ∧
    filter (λ p, pt_process p = i) (filter (λ p, pt_process p ≠ ps_id r) (process_ports db) ++ port_rows (ps_id r) s)
      = filter (λ p, pt_process p = i) (process_ports db)) as Hkeep.
  { intros i Hi. rewrite !filter_app, filter_environment_rows, filter_port_rows, !decide_False, !app_nil_r by done.
    split; apply list_filter_filter_l; by intros ? ->. }
  apply table_effect; [done|..].
  - rewrite <-list_fmap_compose. erewrite list_fmap_ext; [apply (wf_process_ids _ Hwf)|]. intros ? r' _. apply updated_id.
  - rewrite <-list_fmap_compose. erewrite list_fmap_ext; [apply (wf_keys _ Hwf)|]. intros ? r' _. cbn.
    by rewrite updated_project, updated_key.
  - apply Forall_fmap. eapply Forall_impl; [apply (wf_project_fk _ Hwf)|]. intros r' Hr'. cbn. by rewrite updated_project.
  - rewrite <-list_fmap_compose. rewrite (list_fmap_ext _ ps_id) by (intros ? r' _; apply updated_id).
    apply Forall_app. split; [apply Forall_filter, (wf_env_fk _ Hwf)|].
    apply Forall_forall. intros e (nv & -> & _)%list_elem_of_fmap. cbn. apply list_elem_of_fmap. by exists r.
  - rewrite <-list_fmap_compose. rewrite (list_fmap_ext _ ps_id) by (intros ? r' _; apply updated_id).
    apply Forall_app. split; [apply Forall_filter, (wf_port_fk _ Hwf)|].
    apply Forall_forall. intros e (nv & -> & _)%list_elem_of_fmap. cbn. apply list_elem_of_fmap. by exists r.
  - intros p Hp. unfold rows_of. cbn. rewrite filter_updated. rewrite <-(list_fmap_id (filter _ _)) at 2.
    apply list_fmap_ext. intros i r' Hr'%list_elem_of_lookup_2. apply list_elem_of_filter in Hr' as [Hr' _].
    unfold updated. rewrite decide_False; [done|]. intros [? _]. congruence.
  - intros r' Hr' Hp'. apply Hkeep. intros E. apply (row_id_inj db) in E; [|done..]. destruct Hnr. congruence.
  - intros specs Hs. unfold holds, rows_of. cbn. rewrite filter_updated. apply Forall2_fmap.
    eapply Forall2_impl_elem; [apply Hs|]. intros r' t [Hp' Hr']%list_elem_of_filter Ht.
    pose proof (holds_row_key _ _ _ Ht) as Hkt. unfold updated, is_named. destruct Ht as [H1 H2 H3 H4].
    destruct (decide (key nfc t = key nfc s)) as [E|E].
    + rewrite decide_True by (split; congruence).
      assert (r' = r) as -> by (eapply named_unique; [done|done|done| |done]; split; congruence).
      split; [done|done|cbn..]; rewrite filter_app.
      * rewrite filter_environment_rows, decide_True, filter_none by (first [done | by intros e [? _]%list_elem_of_filter]). done.
      * rewrite filter_port_rows, decide_True, filter_none by (first [done | by intros e [? _]%list_elem_of_filter]). done.
    + rewrite decide_False by (intros [_ ?]; congruence).
      destruct (Hkeep (ps_id r')) as [He Hp].
      { intros E'. apply (row_id_inj db) in E'; [|done..]. subst r'. destruct Hnr. congruence. }
      split; [done|done|cbn; congruence..].
Qed.

Lemma filter_not_in_gone (P : ProcessRow → Prop) `{!∀ r, Decision (P r)} db r :
  wf db → r ∈ processes db → ¬ P r → ps_id r ∉ ps_id <$> filter P (processes db).
Proof.
  intros Hwf Hr HP (r' & E & [HP' Hr']%list_elem_of_filter)%list_elem_of_fmap.
  apply (row_id_inj db) in E; [|done..]. by subst.
Qed.

(** Deleting rows takes exactly their variable and port rows along. *)
Lemma cascade_effect (P : ProcessRow → Prop) `{!∀ r, Decision (P r)} db project f :
  wf db → (∀ r, P r → ps_project r = project) →
  (∀ specs, holds db project specs →
     Forall2 (holds_row db) (filter (λ r, ¬ P r) (rows_of db project)) (f specs)) →
  effect db
    (with_processes db (filter (λ r, ¬ P r) (processes db))
       (filter (λ e, ev_process e ∉ ps_id <$> filter P (processes db)) (process_env db))
       (filter (λ p, pt_process p ∉ ps_id <$> filter P (processes db)) (process_ports db))) project f.
Proof.
  intros Hwf HP Hf. set (gone := ps_id <$> filter P (processes db)).
  assert (∀ i, i ∉ gone →
    filter (λ e, ev_process e = i) (filter (λ e, ev_process e ∉ gone) (process_env db)) = filter (λ e, ev_process e = i) (process_env db) ∧
    filter (λ p, pt_process p = i) (filter (λ p, pt_process p ∉ gone) (process_ports db)) = filter (λ p, pt_process p = i) (process_ports db)) as Hkeep.
  { intros i Hi. split; apply list_filter_filter_l; by intros ? ->. }
  assert (∀ i, i ∈ ps_id <$> processes db → i ∉ gone → i ∈ ps_id <$> filter (λ r, ¬ P r) (processes db)) as Hstay.
  { intros i (r & -> & Hr)%list_elem_of_fmap Hi. apply list_elem_of_fmap. exists r. split; [done|].
    apply list_elem_of_filter. split; [|done]. intros HPr. apply Hi. apply list_elem_of_fmap. exists r.
    split; [done|by apply list_elem_of_filter]. }
  apply table_effect; [done|..].
  - apply NoDup_fmap_filter, (wf_process_ids _ Hwf).
  - apply NoDup_fmap_filter, (wf_keys _ Hwf).
  - apply Forall_filter, (wf_project_fk _ Hwf).
  - apply Forall_forall. intros e [Hg He]%list_elem_of_filter. apply Hstay; [|done].
    pose proof (wf_env_fk _ Hwf) as Hfk. rewrite Forall_forall in Hfk. by apply Hfk.
  - apply Forall_forall. intros e [Hg He]%list_elem_of_filter. apply Hstay; [|done].
    pose proof (wf_port_fk _ Hwf) as Hfk. rewrite Forall_forall in Hfk. by apply Hfk.
  - intros p Hp. unfold rows_of. cbn. apply list_filter_filter_l. intros r Hr HPr. apply Hp. rewrite <-Hr. by apply HP.
  - intros r Hr Hp. apply Hkeep. apply filter_not_in_gone; [done|done|]. intros HPr. by apply Hp, HP.
  - intros specs Hs. unfold holds. eapply Forall2_impl_elem.
    + unfold rows_of. cbn. rewrite filter_swap. by apply Hf.
    + intros r t Hr [H1 H2 H3 H4]. unfold rows_of in Hr. cbn in Hr.
      apply list_elem_of_filter in Hr as [_ [HnP Hr]%list_elem_of_filter].
      destruct (Hkeep (ps_id r)) as [He Hp]; [by apply filter_not_in_gone|].
      split; [done|done|cbn; congruence..].
Qed.

Lemma delete_process_effect db project n :
  wf db → effect db (delete_process nfc db project n) project (filter (λ t, key nfc t ≠ name_key nfc n)).
Proof.
  intros Hwf. apply (cascade_effect (is_named project (name_key nfc n))); [done|by intros r []|].
  intros specs Hs. apply Forall2_filter; [done|]. intros r t [Hp _]%list_elem_of_filter Ht%holds_row_key.
  unfold is_named. rewrite <-Ht. split; [|by intros ? []]. intros Hn E. by apply Hn.
Qed.

(** ** Revisions and the edit log *)
Lemma bump_view project db : project_view <$> projects (bump_revision db project) = project_view <$> projects db.
Proof. cbn. rewrite <-list_fmap_compose. apply list_fmap_ext. intros i r _. cbn. by case_decide. Qed.

Lemma view_fmap {A} (f : ProjectRow → A) (ps ps' : list ProjectRow) :
  (∀ r r', project_view r = project_view r' → f r = f r') →
  project_view <$> ps = project_view <$> ps' → f <$> ps = f <$> ps'.
Proof.
  intros Hf. revert ps'; induction ps as [|r ps IH]; intros [|r' ps']; try done. intros [= H1 H2 H3 H4 H5 H6 H7].
  rewrite !fmap_cons. f_equal; [|by apply IH]. apply Hf. unfold project_view. congruence.
Qed.

Lemma view_from_row r r' : project_view r = project_view r' → project_from_row is_format r = project_from_row is_format r'.
Proof. unfold project_view, project_from_row. by intros [= -> -> -> -> -> _]. Qed.

Lemma bump_revision_effect db project : wf db → effect db (bump_revision db project) project id.
Proof.
  intros Hwf. split; [|done|done|apply bump_view|cbn; lia|].
  2: { cbn. apply Forall2_fmap_r, same_revisions. intros r.
    cbn. case_decide; [|split; [done|by left]]. split; [done|]. right. cbn. split; [done|lia]. }
  pose proof (bump_view project db) as Hv. pose proof Hwf as [W1 W2 W3 W4 W5 W6 W7 W8 W9 W10 W11 W12].
  assert (∀ (A : Type) (f : ProjectRow → A), (∀ r r', project_view r = project_view r' → f r = f r') →
    f <$> projects (bump_revision db project) = f <$> projects db) as Hf by (intros; by apply view_fmap).
  split; try done.
  - rewrite Hf; [done|]. unfold project_view. naive_solver.
  - rewrite Hf; [done|]. unfold project_view. naive_solver.
  - rewrite Hf; [done|]. unfold project_view. naive_solver.
  - cbn. apply Forall_fmap. eapply Forall_impl; [exact W4|]. intros r (p & Hp & ? & ?). exists p. cbn.
    case_decide; [|done]. split; [|done]. transitivity (project_from_row is_format r); [by apply view_from_row|done].
  - cbn. apply Forall_fmap. eapply Forall_impl; [exact W5|]. intros r Hr. cbn in *. case_decide; cbn; lia.
  - rewrite (Hf _ pj_id); [done|]. unfold project_view. naive_solver.
  - cbn. lia.
Qed.

Lemma record_edit_effect db project now e db' :
  wf db → record_edit new_rowid edit_text db project now e = Ok db' →
  effect db db' project id ∧ projects db' = projects db ∧ revision_counter db' = revision_counter db.
Proof.
  intros Hwf. unfold record_edit. destruct (negb (is_logged e)).
  { intros [= <-]. split; [by apply effect_id|done]. }
  destruct (duration_millis _ now); [|done]. intros [= <-]. split; [|done]. split; [|done|done|done|cbn; lia|apply same_revisions; intros r; split; [done|by left]].
  by destruct Hwf.
Qed.

(** ** Finding and registering projects *)
Lemma find_project_row db r :
  wf db → r ∈ projects db →
  ∃ p, find_project is_format db (pj_root r) = Ok (Some (pj_id r, p)) ∧ pr_root p = pj_root r ∧ pr_name p = pj_name r.
Proof.
  intros Hwf Hr. pose proof (wf_readable _ Hwf) as Hrd. rewrite Forall_forall in Hrd.
  destruct (Hrd r Hr) as (p & Hp & Hroot & Hname). exists p. split; [|done]. unfold find_project.
  rewrite (filter_unique_key pj_root _ _ r) by first [apply (wf_roots _ Hwf) | done]. cbn. by rewrite Hp.
Qed.

Lemma find_project_None db root : root ∉ pj_root <$> projects db → find_project is_format db root = Ok None.
Proof.
  intros Hr. unfold find_project. rewrite filter_none; [done|]. intros r Hin <-. apply Hr, list_elem_of_fmap. by exists r.
Qed.

Lemma find_project_Some db root id p :
  wf db → find_project is_format db root = Ok (Some (id, p)) →
  ∃ r, r ∈ projects db ∧ pj_root r = root ∧ pj_id r = id ∧ pr_root p = root.
Proof.
  intros Hwf Hf. destruct (decide (root ∈ pj_root <$> projects db)) as [Hin|Hni].
  - apply list_elem_of_fmap in Hin as (r & -> & Hr). destruct (find_project_row db r Hwf Hr) as (q & Hq & Hroot & _).
    exists r. rewrite Hq in Hf. by injection Hf as <- <-.
  - by rewrite find_project_None in Hf.
Qed.

(** Looking up a project depends on the rows but for their revisions. *)
Lemma find_project_view db db' root :
  project_view <$> projects db' = project_view <$> projects db → find_project is_format db' root = find_project is_format db root.
Proof.
  intros Hv. unfold find_project.
  assert (project_view <$> filter (λ r, pj_root r = root) (projects db') = project_view <$> filter (λ r, pj_root r = root) (projects db)) as Hf.
  { revert Hv. generalize (projects db') (projects db). intros ps; induction ps as [|r ps IH]; intros [|r' ps']; try done.
    intros [= H1 H2 H3 H4 H5 H6 H7]. rewrite !filter_cons, H2. case_decide; [|by apply IH].
    rewrite !fmap_cons. f_equal; [|by apply IH]. unfold project_view. congruence. }
  apply (f_equal last) in Hf. rewrite !fmap_last in Hf.
  destruct (last (filter _ (projects db'))) as [r|], (last (filter _ (projects db))) as [r'|]; try done.
  apply (f_equal (λ o, o)) in Hf. injection Hf as H1 H2 H3 H4 H5 H6.
  rewrite (view_from_row r r'); [done|]. unfold project_view. congruence.
Qed.

Hypothesis ascii_not_format : ∀ c, (32 <= c <= 126)%N → is_format c = false.

(** The row a new project gets. *)
Definition new_project (db : StackDb) (root : path) (n : rstr) (now_ns : N) : ProjectRow :=
  {| pj_id := new_rowid (pj_id <$> projects db); pj_root := root; pj_name := n; pj_idle_kind := None; pj_idle_ms := None;
     pj_registered_ns := epoch_param now_ns; pj_revision := 0 |}.

Definition with_projects (db : StackDb) (ps : list ProjectRow) : StackDb :=
  {| projects := ps; processes := processes db; process_env := process_env db; process_ports := process_ports db;
     revision_counter := revision_counter db; stack_edits := stack_edits db |}.

Lemma new_project_reads db root n now_ns :
  is_absolute root = true → project_name_try_new is_format n = Ok n →
  project_from_row is_format (new_project db root n now_ns) =
    Ok (new_rowid (pj_id <$> projects db), {| pr_root := root; pr_name := n; pr_idle_stop := None |}).
Proof. intros Hr Hn. unfold project_from_row, new_project. cbn [pj_root pj_name pj_idle_kind pj_id]. by rewrite Hr, Hn. Qed.

(** A new project with a free root and name keeps the database well formed. *)
Lemma new_project_wf db root n now_ns :
  wf db → is_absolute root = true → project_name_try_new is_format n = Ok n →
  root ∉ pj_root <$> projects db → n ∉ pj_name <$> projects db →
  wf (with_projects db (projects db ++ [new_project db root n now_ns])).
Proof.
  intros [W1 W2 W3 W4 W5 W6 W7 W8 W9 W10 W11 W12] Hr Hn Hroot Hname. split; try done; cbn [with_projects projects processes].
  - rewrite fmap_app. apply NoDup_app. split; [done|]. split; [|by apply NoDup_singleton].
    intros i Hi ->%list_elem_of_singleton. by apply new_rowid_fresh in Hi.
  - rewrite fmap_app. apply NoDup_app. split; [done|]. split; [|by apply NoDup_singleton].
    by intros i Hi ->%list_elem_of_singleton.
  - rewrite fmap_app. apply NoDup_app. split; [done|]. split; [|by apply NoDup_singleton].
    by intros i Hi ->%list_elem_of_singleton.
  - apply Forall_app. split; [done|]. apply Forall_singleton. eexists. by rewrite new_project_reads.
  - apply Forall_app. split; [done|]. apply Forall_singleton. cbn. lia.
  - eapply Forall_impl; [exact W8|]. intros r Hin. cbn in Hin. rewrite fmap_app. set_solver.
Qed.

(** What registering leaves: the project found at the root, every other as it
    was, and the processes untouched. *)
Record registered (db : StackDb) (root : path) (id : Z) (reg : Registration) (db' : StackDb) : Prop := {
  rg_wf : wf db';
  rg_found : find_project is_format db' root = Ok (Some (id, reg_project reg));
  rg_others : ∀ root', root' ≠ root → find_project is_format db' root' = find_project is_format db root';
  rg_revisions : ∀ root', root' ≠ root → stack_revision db' root' = stack_revision db root';
  rg_holds : ∀ p specs, holds db p specs → holds db' p specs;
  rg_counter : revision_counter db' = revision_counter db;
  rg_new : newly_registered reg = true →
    find_project is_format db root = Ok None ∧ holds db' id [] ∧
    Forall (λ r, path_starts_with (pj_root r) root = false) (projects db);
  rg_old : newly_registered reg = false → db' = db;
}.

Lemma register_spec db root now_ns id reg db' :
  wf db → is_absolute root = true →
  register is_format new_rowid db root now_ns = Ok (id, reg, db') → registered db root id reg db'.
Proof.
  intros Hwf Habs. unfold register.
  destruct (find_project is_format db root) as [[[i p]|]|] eqn:Ef; [| |done].
  { intros [= <- <- <-]. by split. }
  destruct (List.find _ _) as [[]|] eqn:Eheld; [done|].
  destruct (free_name _ _ _ _ _) as [n|] eqn:En; [|done]. cbn [ok_or].
  destruct (free_name_Some is_format ascii_not_format _ _ _ _ _ En) as [Hfree Hn]. intros [= <- <- <-].
  fold (new_project db root n now_ns). fold (with_projects db (projects db ++ [new_project db root n now_ns])).
  assert (root ∉ pj_root <$> projects db) as Hroot.
  { intros (r & -> & Hr)%list_elem_of_fmap. destruct (find_project_row db r Hwf Hr) as (q & Hq & _). congruence. }
  pose proof (new_project_wf db root n now_ns Hwf Habs Hn Hroot Hfree) as Hwf'.
  split; [done|..].
  - unfold find_project. cbn. rewrite filter_app, filter_cons, decide_True, filter_nil, last_snoc by done.
    by rewrite new_project_reads.
  - intros root' Hne. unfold find_project. cbn.
    rewrite filter_app, (filter_cons _ (new_project db root n now_ns)), decide_False, filter_nil, app_nil_r by (cbn; congruence). done.
  - intros root' Hne. unfold stack_revision. cbn.
    rewrite filter_app, (filter_cons _ (new_project db root n now_ns)), decide_False, filter_nil, app_nil_r by (cbn; congruence). done.
  - done.
  - done.
  - intros _. split; [done|]. split.
    + unfold holds, rows_of. cbn. rewrite filter_none; [constructor|]. intros r Hr E.
      pose proof (wf_project_fk _ Hwf) as Hfk. rewrite Forall_forall in Hfk. specialize (Hfk r Hr). cbn in Hfk. rewrite E in Hfk.
      by apply new_rowid_fresh in Hfk.
    + apply Forall_forall. intros r Hr. destruct (path_starts_with (pj_root r) root) eqn:Es; [|done]. exfalso.
      pose proof (wf_readable _ Hwf) as Hrd. rewrite Forall_forall in Hrd. destruct (Hrd r Hr) as (p & Hp & Hpr & _).
      apply List.find_none with (x := (pj_id r, p)) in Eheld; [cbn in Eheld; congruence|].
      apply list_elem_of_In. unfold readable. apply list_elem_of_omap. exists r. by rewrite Hp.
  - done.
Qed.

(** Registering fails only for a folder that holds a project. *)
Lemma register_total db root now_ns :
  wf db → Forall (λ r, path_starts_with (pj_root r) root = false) (projects db) ∨ root ∈ pj_root <$> projects db →
  ∃ id reg db', register is_format new_rowid db root now_ns = Ok (id, reg, db').
Proof.
  intros Hwf Hcase. unfold register. destruct (decide (root ∈ pj_root <$> projects db)) as [(r & -> & Hr)%list_elem_of_fmap|Hni].
  { destruct (find_project_row db r Hwf Hr) as (p & -> & _). by eexists _, _, _. }
  rewrite find_project_None by done. destruct Hcase as [Hout|]; [|done].
  destruct (List.find _ (readable is_format db)) as [[i p]|] eqn:E.
  - apply List.find_some in E as [Hin Hs]. apply list_elem_of_In, list_elem_of_omap in Hin as (r & Hr & Hp).
    pose proof (wf_readable _ Hwf) as Hrd. rewrite Forall_forall in Hrd. destruct (Hrd r Hr) as (q & Hq & Hpr & _).
    rewrite Hq in Hp. injection Hp as <- <-. rewrite Forall_forall in Hout. specialize (Hout r Hr). cbn in Hout, Hs. congruence.
  - destruct (free_name_total is_format ascii_not_format root (pj_name <$> projects db)) as [n ->]. by eexists _, _, _.
Qed.
End laws.
