(* ===== verification/StackRefine.v ===== *)
(** * What the stack store promises

    The abstract stack of a project is the list of its definitions: this file
    says what each write of [StackStore] does to that list and proves that the
    tables implement it (the refinement half of muster-store/src/stack_rows.rs),
    with the class of promises the editor of [StackEditor] relies on. *)
From S2P Require Import Prelude RustText RustPath Values Coordination Store Process Config StackRows StackStore.

(** ** The abstract stack *)
Section abstract.
Context (nfc : rstr → rstr).

(** A definition appended, within the caps and under a free name. *)
Definition spec_add (specs : list ProcessSpec) (s : ProcessSpec) : result (list ProcessSpec) ConfigError :=
  let? _ := check_caps s in
  let? _ := check_count (length specs + 1) in
  if decide (key nfc s ∈ key nfc <$> specs) then Err (EDuplicateProcessName (name s)) else Ok (specs ++ [s]).

(** The definition under a key replaced in place. *)
Definition replace (s : ProcessSpec) (specs : list ProcessSpec) : list ProcessSpec :=
  (λ t, if decide (key nfc t = key nfc s) then s else t) <$> specs.

Definition spec_change (p : Project) (specs : list ProcessSpec) (n : rstr) (c : ProcessChange)
    : result (ProcessSpec * list ProcessSpec) ConfigError :=
  let? before := require nfc {| st_project := p; st_processes := specs |} n in
  let? after := with_change before c in
  Ok (after, replace after specs).

Definition spec_remove (p : Project) (specs : list ProcessSpec) (n : rstr)
    : result (ProcessSpec * list ProcessSpec) ConfigError :=
  let? removed := require nfc {| st_project := p; st_processes := specs |} n in
  Ok (removed, filter (λ t, key nfc t ≠ name_key nfc n) specs).

(** Each kept definition in its imported form, in place, then the new ones in
    the order they were given. *)
Definition imported (specs incoming : list ProcessSpec) (mode : ImportMode) : list ProcessSpec :=
  ((λ t, default t (named nfc incoming (name t))) <$>
     filter (λ t, mode ≠ Replace ∨ key nfc t ∈ key nfc <$> incoming) specs) ++
  filter (λ s, key nfc s ∉ key nfc <$> specs) incoming.
End abstract.

(** A definition whose durations fit their columns. *)
Definition storable (nfc : rstr → rstr) (s : ProcessSpec) : Prop := is_ok (process_params nfc s) = true.

(** A moment that fits its column. *)
Definition clock_ok (now : duration) : Prop := is_ok (duration_millis (lit "edit time") now) = true.

(** A change whose values their constructors accept. *)
Record change_ok (c : ProcessChange) : Prop := {
  cok_command : ∀ x, ch_command c = Some x → command_try_new x = Some x;
  cok_description : ∀ x, ch_description c = SetTo x → description_try_new x = Some x;
  cok_env : Forall (λ nv, is_env_name nv.1 = true ∧ is_env_value nv.2 = true) (ch_set_env c);
  cok_grace : ∀ x, ch_stop_grace c = Some x → is_grace x = true;
  cok_ready : ∀ x, ch_ready c = SetTo x → check_ok x;
  cok_ports : ∀ x, ch_ports c = Some x → ∀ p, p ∈ x → (1 <= p <= 65535)%N;
}.

Lemma with_change_ok is_format s c s' : spec_ok is_format s → change_ok c → with_change s c = Ok s' → spec_ok is_format s'.
Proof.
  intros [H1 H2 H3 H4 H5 H6 H7] [C1 C2 C3 C4 C5 C6] Hc. destruct (with_change_Ok s c s' Hc) as (_ & _ & _ & _ & ->).
  split; cbn.
  - done.
  - destruct (ch_command c) as [x|]; [by apply C1|done].
  - intros d. destruct (ch_description c) as [|x|] eqn:E; cbn; [by apply H3| |done]. intros [= <-]. by apply C2.
  - intros n v. apply (map_Forall_env_changed (λ n v, is_env_name n = true ∧ is_env_value v = true)); [|done].
    intros n' v'. apply H4.
  - destruct (ch_stop_grace c) as [x|]; [by apply C4|done].
  - intros check. destruct (ch_ready c) as [|x|] eqn:E; cbn; [by apply H6| |done]. intros [= <-]. by apply C5.
  - intros p. destruct (ch_ports c) as [x|]; [by apply C6|apply H7].
Qed.

Section refine.
Context (is_format : rchar → bool) (nfc : rstr → rstr) (new_rowid : list Z → Z) (edit_text : StackEdit → rstr).
Hypothesis new_rowid_above : ∀ ids, Forall (λ i, (i < new_rowid ids)%Z) ids.
Hypothesis ascii_not_format : ∀ c, (32 <= c <= 126)%N → is_format c = false.

Notation wf := (wf is_format nfc).
Notation holds := (holds is_format nfc).
Notation effect := (effect is_format nfc).
Notation stack := (stack is_format).
Notation find_project := (find_project is_format).

(** The stack at a root, nothing when there is none. *)
Definition specs_at (db : StackDb) (root : path) : list ProcessSpec :=
  match stack db root with Ok (Some st) => st_processes st | _ => [] end.

(** ** Reading through the tables *)
Lemma stack_found db root id p specs :
  wf db → find_project db root = Ok (Some (id, p)) → holds db id specs →
  stack db root = Ok (Some {| st_project := p; st_processes := specs |}).
Proof.
  intros Hwf Hf Hh. unfold StackStore.stack. rewrite Hf. by rewrite (stack_of_holds is_format nfc _ _ _ specs).
Qed.

Lemma stack_unfound db root : find_project db root = Ok None → stack db root = Ok None.
Proof. intros Hf. unfold StackStore.stack. by rewrite Hf. Qed.

(** A statement on one project leaves what every other root reads. *)
Lemma effect_others db db' id p f root root' :
  wf db → find_project db root = Ok (Some (id, p)) → effect db db' id f → root' ≠ root → stack db' root' = stack db root'.
Proof.
  intros Hwf Hf [Hwf' _ Hthere Hv _ _] Hne. pose proof (find_project_view is_format db db' root' Hv) as Hff.
  destruct (find_project db root') as [[[i q]|]|] eqn:E.
  - destruct (holds_exists is_format nfc db i Hwf) as [specs Hs].
    rewrite (stack_found db root' i q specs), (stack_found db' root' i q specs); [done..| |done|done|done].
    apply Hthere; [|done]. intros ->.
    apply (find_project_Some is_format nfc) in E as (r & Hr & Hroot & Hid & _); [|exact Hwf].
    apply (find_project_Some is_format nfc) in Hf as (r' & Hr' & Hroot' & Hid' & _); [|exact Hwf].
    assert (r = r') as -> by (eapply (NoDup_key_inj _ _ _ _ (wf_project_ids _ _ _ Hwf)); [done|done|congruence]). congruence.
  - by rewrite !stack_unfound.
  - unfold StackStore.stack. by rewrite Hff, E.
Qed.

Lemma effect_here db db' id p f root specs :
  find_project db root = Ok (Some (id, p)) → effect db db' id f → holds db id specs →
  stack db' root = Ok (Some {| st_project := p; st_processes := f specs |}).
Proof.
  intros Hf [Hwf' Hhere _ Hv _ _] Hs. apply stack_found with id; [done| |by apply Hhere].
  by rewrite (find_project_view is_format db db' root Hv).
Qed.

Lemma specs_found db root id p specs :
  wf db → find_project db root = Ok (Some (id, p)) → holds db id specs → specs_at db root = specs.
Proof. intros. unfold specs_at. by rewrite (stack_found db root id p specs). Qed.

(** After registering, the root's stack is the one it had, empty when new. *)
Lemma registered_holds db root id reg db' :
  wf db → registered is_format nfc db root id reg db' → holds db' id (specs_at db root).
Proof.
  intros Hwf Hreg. destruct (newly_registered reg) eqn:En.
  - destruct (rg_new _ _ _ _ _ _ _ Hreg En) as (Hf & Hh & _). unfold specs_at. by rewrite stack_unfound.
  - pose proof (rg_found _ _ _ _ _ _ _ Hreg) as Hf. rewrite (rg_old _ _ _ _ _ _ _ Hreg En) in *.
    destruct (holds_exists is_format nfc db id Hwf) as [specs Hs]. by rewrite (specs_found db root id (reg_project reg) specs).
Qed.

Lemma registered_others db root id reg db' root' :
  wf db → registered is_format nfc db root id reg db' → root' ≠ root → stack db' root' = stack db root'.
Proof.
  intros Hwf Hreg Hne. pose proof (rg_others _ _ _ _ _ _ _ Hreg root' Hne) as Hf.
  destruct (find_project db root') as [[[i q]|]|] eqn:E.
  - destruct (holds_exists is_format nfc db i Hwf) as [specs Hs].
    rewrite (stack_found db root' i q specs) by done. apply stack_found with i; [apply (rg_wf _ _ _ _ _ _ _ Hreg)|done|].
    by apply (rg_holds _ _ _ _ _ _ _ Hreg).
  - by rewrite !stack_unfound.
  - unfold StackStore.stack. by rewrite Hf, E.
Qed.

Lemma registered_id db root id reg db' :
  registered is_format nfc db root id reg db' → id ∈ pj_id <$> projects db'.
Proof.
  intros Hreg. destruct (find_project_Some is_format nfc db' root id (reg_project reg)) as (r & Hr & _ & <- & _);
    [apply (rg_wf _ _ _ _ _ _ _ Hreg)|apply (rg_found _ _ _ _ _ _ _ Hreg)|]. apply list_elem_of_fmap. by exists r.
Qed.

(** What is written before the log is left by the log. *)
Lemma logged_effect db db1 id f now e :
  clock_ok now → effect db db1 id f →
  ∃ db2, record_edit new_rowid edit_text (bump_revision db1 id) id now e = Ok db2 ∧ effect db db2 id f.
Proof.
  intros Hnow Hef. pose proof (bump_revision_effect is_format nfc db1 id (ef_wf _ _ _ _ _ _ Hef)) as Hb.
  assert (∃ db2, record_edit new_rowid edit_text (bump_revision db1 id) id now e = Ok db2) as [db2 H2].
  { unfold record_edit. destruct (negb (is_logged e)); [by eexists|]. unfold clock_ok in Hnow.
    destruct (duration_millis (lit "edit time") now); [by eexists|done]. }
  exists db2. split; [done|].
  destruct (record_edit_effect is_format nfc new_rowid edit_text _ _ _ _ _ (ef_wf _ _ _ _ _ _ Hb) H2) as [Hr _].
  exact (effect_comp is_format nfc _ _ _ _ _ _ (effect_comp is_format nfc _ _ _ _ _ _ Hef Hb) Hr).
Qed.

Lemma insert_process_result db id specs s :
  storable nfc s → holds db id specs →
  (key nfc s ∈ key nfc <$> specs → insert_process nfc new_rowid db id s = Err (EDuplicateProcessName (name s))) ∧
  (key nfc s ∉ key nfc <$> specs → ∃ db', insert_process nfc new_rowid db id s = Ok db').
Proof.
  intros Hst Hh. unfold insert_process, storable in *. destruct (process_params nfc s) as [c|] eqn:Ec; [|done].
  destruct (process_params_key nfc s c Ec) as [-> _]. rewrite <-(named_in_specs is_format nfc db id specs) by done.
  split; intros Hd; case_decide; [done|done|done|by eexists].
Qed.

Lemma add_process_refines db root s author now res db' :
  wf db → is_absolute root = true → spec_ok is_format s → storable nfc s → clock_ok now →
  Forall (λ r, path_starts_with (pj_root r) root = false) (projects db) ∨ root ∈ pj_root <$> projects db →
  add_process is_format nfc new_rowid edit_text root s author now db = (res, db') →
  wf db' ∧ (∀ root', root' ≠ root → stack db' root' = stack db root') ∧
  match spec_add nfc (specs_at db root) s with
  | Ok specs => ∃ reg, res = Ok reg ∧ stack db' root = Ok (Some {| st_project := reg_project reg; st_processes := specs |})
  | Err e => res = Err e ∧ db' = db
  end.
Proof.
  intros Hwf Habs Hok Hst Hnow Hroom. unfold add_process, commit, spec_add.
  destruct (check_caps s) as [[]|e]; [|by intros [= <- <-]].
  destruct (register_total is_format nfc new_rowid ascii_not_format db root now Hwf Hroom) as (id & reg & db1 & Er). rewrite Er.
  pose proof (register_spec is_format nfc new_rowid new_rowid_above ascii_not_format _ _ _ _ _ _ Hwf Habs Er) as Hreg.
  pose proof (rg_wf _ _ _ _ _ _ _ Hreg) as Hwf1. pose proof (registered_holds _ _ _ _ _ Hwf Hreg) as Hh.
  set (specs := specs_at db root) in *.
  assert (process_count db1 id = length specs) as -> by (by eapply Forall2_length).
  destruct (check_count (length specs + 1)) as [[]|e]; [|by intros [= <- <-]].
  destruct (insert_process_result db1 id specs s Hst Hh) as [Hdup Hins].
  case_decide as Hk; [rewrite (Hdup Hk); by intros [= <- <-]|]. destruct (Hins Hk) as [db2 E2]. rewrite E2.
  pose proof (insert_process_effect is_format nfc new_rowid new_rowid_above _ _ _ _ Hwf1 (registered_id _ _ _ _ _ Hreg) Hok E2) as Hef.
  destruct (logged_effect _ _ _ _ now (Added author s) Hnow Hef) as (db3 & -> & Hef3). intros [= <- <-].
  split; [apply (ef_wf _ _ _ _ _ _ Hef3)|]. split.
  - intros root' Hne. rewrite (effect_others db1 db3 id (reg_project reg) _ root) by first [done | apply (rg_found _ _ _ _ _ _ _ Hreg)].
    by apply (registered_others db root id reg).
  - exists reg. split; [done|]. exact (effect_here db1 db3 id _ _ root specs (rg_found _ _ _ _ _ _ _ Hreg) Hef3 Hh).
Qed.

Lemma holds_keys db id specs : wf db → holds db id specs → NoDup (key nfc <$> specs).
Proof.
  intros Hwf Hh. assert (key nfc <$> specs = (λ r, c_key (ps_columns r)) <$> rows_of db id) as ->.
  { unfold StackStore.holds in Hh. induction Hh as [|r s rows specs Hrs _ IH]; [done|]. rewrite !fmap_cons, IH.
    f_equal. symmetry. by eapply holds_row_key. }
  pose proof (NoDup_fmap_filter _ (λ r, ps_project r = id) _ (wf_keys _ _ _ Hwf)) as Hnd.
  fold (rows_of db id) in Hnd. apply (NoDup_fmap_1 (λ k, (id, k))). rewrite <-list_fmap_compose.
  erewrite list_fmap_ext; [exact Hnd|]. intros i r Hr%list_elem_of_lookup_2. apply list_elem_of_filter in Hr as [<- _]. done.
Qed.

Lemma update_process_result db id specs s :
  storable nfc s → holds db id specs → key nfc s ∈ key nfc <$> specs → ∃ db', update_process nfc db id s = Ok db'.
Proof.
  intros Hst Hh Hk. unfold update_process, storable in *. destruct (process_params nfc s) as [c|] eqn:Ec; [|done].
  destruct (process_params_key nfc s c Ec) as [Hc _].
  destruct (filter (is_named id (c_key c)) (processes db)) as [|r rs] eqn:Ef; [|by eexists].
  apply (named_in_specs is_format nfc db id specs) in Hk; [|done]. rewrite <-Hc in Hk.
  apply Exists_exists in Hk as (r & Hr & Hn). by assert (r ∈ []) as ?%not_elem_of_nil by (rewrite <-Ef; by apply list_elem_of_filter).
Qed.

Lemma require_Ok p specs n s :
  require nfc {| st_project := p; st_processes := specs |} n = Ok s → s ∈ specs ∧ key nfc s = name_key nfc n.
Proof.
  unfold require. destruct (process nfc _ n) as [t|] eqn:E; [|done]. intros [= <-]. by apply process_Some in E.
Qed.

(** Nothing differs exactly in the same definition. *)
Lemma no_differing s s' : name s' = name s → differing_fields s s' = [] → s' = s.
Proof.
  intros Hn Hd. assert (∀ f, differs s s' f ≠ true) as Hf.
  { intros f Hf. apply elem_of_differing in Hf. rewrite Hd in Hf. by apply not_elem_of_nil in Hf. }
  assert (∀ f, ¬ differs s s' f = true) as Hno by done. clear Hf.
  pose proof (Hno FCommand) as H1. pose proof (Hno FWorkingDir) as H2. pose proof (Hno FDescription) as H3.
  pose proof (Hno FEnvironment) as H4. pose proof (Hno FAutostart) as H5. pose proof (Hno FRestart) as H6.
  pose proof (Hno FStopSignal) as H7. pose proof (Hno FStopGrace) as H8. pose proof (Hno FReady) as H9. pose proof (Hno FPorts) as H10.
  rewrite differs_iff in H1, H2, H3, H4, H5, H6, H7, H8, H9, H10. apply dec_stable in H1, H2, H3, H4, H5, H6, H7, H8, H9, H10.
  destruct s as [? ? ? ? ? ? ? [] ? ?], s' as [? ? ? ? ? ? ? [] ? ?]. cbn in *. congruence.
Qed.

Lemma replace_same s specs : NoDup (key nfc <$> specs) → s ∈ specs → replace nfc s specs = specs.
Proof.
  intros Hnd Hs. unfold replace. rewrite <-(list_fmap_id specs) at 2. apply list_fmap_ext.
  intros i t Ht%list_elem_of_lookup_2. case_decide as E; [|done]. symmetry. by apply (NoDup_key_inj _ _ _ _ Hnd).
Qed.

Lemma change_process_refines db root id p n c author now res db' :
  wf db → find_project db root = Ok (Some (id, p)) → change_ok c → clock_ok now →
  (∀ s s', s ∈ specs_at db root → with_change s c = Ok s' → storable nfc s') →
  change_process is_format nfc new_rowid edit_text root n c author now db = (res, db') →
  wf db' ∧ (∀ root', root' ≠ root → stack db' root' = stack db root') ∧
  match spec_change nfc p (specs_at db root) n c with
  | Ok (s, specs) =>
    ∃ changed, res = Ok {| ac_spec := s; ac_changed := changed |} ∧ (changed = false ↔ specs = specs_at db root) ∧
      (changed = false → db' = db) ∧ stack db' root = Ok (Some {| st_project := p; st_processes := specs |})
  | Err e => res = Err e ∧ db' = db
  end.
Proof.
  intros Hwf Hf Hcok Hnow Hstor. destruct (holds_exists is_format nfc db id Hwf) as [specs Hs].
  rewrite (specs_found db root id p specs) in Hstor |- * by done.
  unfold change_process, commit, spec_change, require_project. rewrite Hf. cbn [ok_or fst].
  rewrite (stack_of_holds is_format nfc db id p specs) by done.
  destruct (require nfc _ n) as [before|] eqn:Ereq; [|by intros [= <- <-]]. apply require_Ok in Ereq as [Hin Hkey].
  destruct (with_change before c) as [after|] eqn:Ech; [|by intros [= <- <-]].
  destruct (with_change_Ok _ _ _ Ech) as (_ & _ & Hname & _). pose proof (holds_keys db id specs Hwf Hs) as Hnd.
  assert (key nfc after = key nfc before) as Hka by (unfold key; by rewrite Hname).
  case_bool_decide as Hfields.
  { pose proof (no_differing _ _ Hname Hfields) as ->. intros [= <- <-]. rewrite replace_same by done.
    split; [done|]. split; [done|]. exists false. split; [done|]. split; [done|]. split; [done|]. by apply stack_found with id. }
  assert (spec_ok is_format before) as Hbok.
  { apply list_elem_of_lookup in Hin as [i Hi]. destruct (Forall2_lookup_r _ _ _ _ _ Hs Hi) as (r & _ & Hr). apply Hr. }
  destruct (update_process_result db id specs after) as [db1 E1]; [by eapply Hstor|done| |].
  { rewrite Hka. apply list_elem_of_fmap. by exists before. }
  rewrite E1. pose proof (update_process_effect is_format nfc db id after db1 Hwf (with_change_ok _ _ _ _ Hbok Hcok Ech) E1) as Hef.
  destruct (logged_effect _ _ _ _ now (Changed author (differing_fields before after) after) Hnow Hef) as (db3 & -> & Hef3).
  intros [= <- <-]. split; [apply (ef_wf _ _ _ _ _ _ Hef3)|]. split.
  { intros root' Hne. exact (effect_others _ _ _ _ _ _ _ Hwf Hf Hef3 Hne). }
  exists true. split; [done|]. split; [|split; [done|exact (effect_here db db3 id p _ root specs Hf Hef3 Hs)]].
  split; [done|]. intros Hrep. exfalso. apply Hfields.
  assert (after ∈ specs) as Ha.
  { rewrite <-Hrep. apply list_elem_of_fmap. exists before. split; [|done]. by rewrite decide_True. }
  assert (after = before) as -> by (by apply (NoDup_key_inj _ _ _ _ Hnd)).
  destruct (differing_fields before before) as [|f fs] eqn:Ed; [done|].
  assert (f ∈ differing_fields before before) as Hd%elem_of_differing%differs_iff by (rewrite Ed; apply list_elem_of_here).
  by destruct f.
Qed.

Lemma remove_process_refines db root id p n author now res db' :
  wf db → find_project db root = Ok (Some (id, p)) → clock_ok now →
  remove_process is_format nfc new_rowid edit_text root n author now db = (res, db') →
  wf db' ∧ (∀ root', root' ≠ root → stack db' root' = stack db root') ∧
  match spec_remove nfc p (specs_at db root) n with
  | Ok (s, specs) => res = Ok s ∧ stack db' root = Ok (Some {| st_project := p; st_processes := specs |})
  | Err e => res = Err e ∧ db' = db
  end.
Proof.
  intros Hwf Hf Hnow. destruct (holds_exists is_format nfc db id Hwf) as [specs Hs].
  rewrite (specs_found db root id p specs) by done.
  unfold remove_process, commit, spec_remove, require_project. rewrite Hf. cbn [ok_or fst].
  rewrite (stack_of_holds is_format nfc db id p specs) by done.
  destruct (require nfc _ n) as [before|] eqn:Ereq; [|by intros [= <- <-]].
  pose proof (delete_process_effect is_format nfc db id n Hwf) as Hef.
  destruct (logged_effect _ _ _ _ now (Removed author (name before)) Hnow Hef) as (db3 & -> & Hef3).
  intros [= <- <-]. split; [apply (ef_wf _ _ _ _ _ _ Hef3)|]. split.
  { intros root' Hne. exact (effect_others _ _ _ _ _ _ _ Hwf Hf Hef3 Hne). }
  split; [done|]. exact (effect_here db db3 id p _ root specs Hf Hef3 Hs).
Qed.

(** ** Imports *)

(** Writes each definition in turn. *)
Fixpoint write_all (write : StackDb → Z → ProcessSpec → result StackDb ConfigError) (db : StackDb) (id : Z)
    (ss : list ProcessSpec) : result StackDb ConfigError :=
  match ss with
  | [] => Ok db
  | s :: ss => let? db := write db id s in write_all write db id ss
  end.

Lemma named_elem incoming s : NoDup (key nfc <$> incoming) → s ∈ incoming → named nfc incoming (name s) = Some s.
Proof.
  intros Hnd Hs. unfold named. destruct (List.find _ incoming) as [t|] eqn:E.
  - apply List.find_some in E as [Ht%list_elem_of_In Hk%bool_decide_eq_true].
    f_equal. by apply (NoDup_key_inj _ _ _ _ Hnd).
  - apply List.find_none with (x := s) in E; [|by apply list_elem_of_In]. by rewrite bool_decide_eq_true_2 in E.
Qed.

Lemma write_named_all write incoming db id ss :
  NoDup (key nfc <$> incoming) → (∀ s, s ∈ ss → s ∈ incoming) →
  write_named nfc write incoming db id (name <$> ss) = write_all write db id ss.
Proof.
  intros Hnd. revert db; induction ss as [|s ss IH]; intros db Hin; [done|]. cbn [fmap list_fmap write_named write_all].
  rewrite named_elem by (first [done | apply Hin, list_elem_of_here]).
  destruct (write db id s); [|done]. apply IH. intros t Ht. apply Hin. by apply list_elem_of_further.
Qed.

Lemma deletes_effect db id ns :
  wf db → effect db (foldl (λ db n, delete_process nfc db id n) db ns) id
            (filter (λ t, key nfc t ∉ name_key nfc <$> ns)).
Proof.
  intros Hwf. induction ns as [|n ns IH] using rev_ind.
  { apply (effect_ext _ _ _ _ _ _ _ (effect_id is_format nfc db id Hwf)).
    intros specs Hs. symmetry. apply filter_all. intros t _. apply not_elem_of_nil. }
  rewrite foldl_snoc.
  apply (effect_ext _ _ _ _ _ _ _ (effect_comp is_format nfc _ _ _ _ _ _ IH
           (delete_process_effect is_format nfc _ id n (ef_wf _ _ _ _ _ _ IH)))).
  intros specs Hs. cbn. rewrite list_filter_filter. apply filter_ext_elem.
  intros t _. rewrite fmap_app, elem_of_app. cbn. rewrite list_elem_of_singleton. tauto.
Qed.

Lemma key_replace s specs : key nfc <$> replace nfc s specs = key nfc <$> specs.
Proof.
  unfold replace. rewrite <-list_fmap_compose. apply list_fmap_ext. intros i t _. cbn. by case_decide.
Qed.

Lemma updates_effect ss db id specs :
  wf db → holds db id specs → Forall (λ s, spec_ok is_format s ∧ storable nfc s ∧ key nfc s ∈ key nfc <$> specs) ss →
  ∃ db', write_all (update_process nfc) db id ss = Ok db' ∧ effect db db' id (λ l, foldl (λ l s, replace nfc s l) l ss).
Proof.
  intros Hwf Hs Hss. revert db specs Hwf Hs Hss. induction ss as [|s ss IH]; intros db specs Hwf Hs Hss.
  { exists db. split; [done|]. apply (effect_id is_format nfc db id Hwf). }
  apply Forall_cons in Hss as [(Hok & Hst & Hk) Hss]. cbn [write_all].
  destruct (update_process_result db id specs s Hst Hs Hk) as [db1 E1]. rewrite E1.
  pose proof (update_process_effect is_format nfc db id s db1 Hwf Hok E1) as Hef.
  destruct (IH db1 (replace nfc s specs)) as (db2 & E2 & Hef2).
  - apply (ef_wf _ _ _ _ _ _ Hef).
  - by apply (ef_here _ _ _ _ _ _ Hef).
  - eapply Forall_impl; [exact Hss|]. intros t. cbn. by rewrite key_replace.
  - exists db2. split; [done|]. exact (effect_comp is_format nfc _ _ _ _ _ _ Hef Hef2).
Qed.

Lemma inserts_effect ss db id specs :
  wf db → id ∈ pj_id <$> projects db → holds db id specs →
  Forall (λ s, spec_ok is_format s ∧ storable nfc s) ss →
  NoDup (key nfc <$> ss) → (∀ s, s ∈ ss → key nfc s ∉ key nfc <$> specs) →
  ∃ db', write_all (insert_process nfc new_rowid) db id ss = Ok db' ∧ effect db db' id (λ l, l ++ ss).
Proof.
  intros Hwf Hid Hs Hss Hnd Hfree. revert db specs Hwf Hid Hs Hss Hnd Hfree.
  induction ss as [|s ss IH]; intros db specs Hwf Hid Hs Hss Hnd Hfree.
  { exists db. split; [done|]. apply (effect_ext _ _ _ _ _ _ _ (effect_id is_format nfc db id Hwf)).
    intros l _. by rewrite app_nil_r. }
  apply Forall_cons in Hss as [(Hok & Hst) Hss]. cbn [fmap list_fmap] in Hnd. apply NoDup_cons in Hnd as [Hni Hnd]. cbn [write_all].
  destruct (proj2 (insert_process_result db id specs s Hst Hs)) as [db1 E1]; [apply Hfree, list_elem_of_here|]. rewrite E1.
  pose proof (insert_process_effect is_format nfc new_rowid new_rowid_above db id s db1 Hwf Hid Hok E1) as Hef.
  destruct (IH db1 (specs ++ [s])) as (db2 & E2 & Hef2).
  - apply (ef_wf _ _ _ _ _ _ Hef).
  - rewrite (view_fmap pj_id (projects db1) (projects db)); [done| |apply (ef_projects _ _ _ _ _ _ Hef)].
    unfold project_view. naive_solver.
  - by apply (ef_here _ _ _ _ _ _ Hef).
  - done.
  - done.
  - intros t Ht. rewrite fmap_app. intros [Hk|Hk]%elem_of_app.
    + by apply (Hfree t); [apply list_elem_of_further|].
    + apply Hni. apply list_elem_of_singleton in Hk. rewrite <-Hk. apply list_elem_of_fmap. by exists t.
  - exists db2. split; [done|]. apply (effect_ext _ _ _ _ _ _ _ (effect_comp is_format nfc _ _ _ _ _ _ Hef Hef2)).
    intros l _. cbn. by rewrite <-app_assoc.
Qed.

(** Replacing by each of [ss] in turn replaces by the one under the key. *)
Lemma foldl_replace ss specs :
  NoDup (key nfc <$> ss) →
  foldl (λ l s, replace nfc s l) specs ss = (λ t, default t (named nfc ss (name t))) <$> specs.
Proof.
  intros Hnd. induction ss as [|s ss IH] using rev_ind.
  { cbn. symmetry. apply list_fmap_id. }
  rewrite foldl_snoc. rewrite fmap_app in Hnd. apply NoDup_app in Hnd as (Hnd & Hdis & _). rewrite IH by done.
  unfold replace. rewrite <-list_fmap_compose. apply list_fmap_ext. intros i t _. cbn.
  unfold named. rewrite find_app. fold (named nfc ss (name t)).
  destruct (named nfc ss (name t)) as [u|] eqn:E; cbn.
  - unfold named in E. apply List.find_some in E as [Hu%list_elem_of_In Hk%bool_decide_eq_true].
    rewrite decide_False; [done|]. intros Hks. apply (Hdis (key nfc u)); [apply list_elem_of_fmap; by exists u|].
    rewrite Hks. by apply list_elem_of_singleton.
  - case_decide as Hk; case_bool_decide as Hb; [done|by destruct Hb|by destruct Hk|done].
Qed.

Lemma List_filter_eq {A} (p : A → bool) (P : A → Prop) `{!∀ x, Decision (P x)} l :
  (∀ x, x ∈ l → p x = true ↔ P x) → List.filter p l = filter P l.
Proof.
  induction l as [|x l IH]; intros Hp; [done|]. rewrite filter_cons. cbn [List.filter].
  rewrite IH by (intros y Hy; apply Hp; by apply list_elem_of_further).
  pose proof (Hp x (list_elem_of_here _ _)) as Hx. destruct (p x), (decide (P x)); try done; naive_solver.
Qed.

(** The lists behind a granted plan. *)
Lemma plan_import_lists p specs incoming mode plan :
  plan_import nfc {| st_project := p; st_processes := specs |} incoming mode = Ok plan →
  NoDup (key nfc <$> incoming) ∧
  plan_added plan = name <$> filter (λ s, key nfc s ∉ key nfc <$> specs) incoming ∧
  plan_updated plan = name <$> filter (λ s, key nfc s ∈ key nfc <$> specs ∧
     process nfc {| st_project := p; st_processes := specs |} (name s) ≠ Some s) incoming ∧
  plan_removed plan = match mode with
    | Replace => name <$> filter (λ s, key nfc s ∉ key nfc <$> incoming) specs
    | _ => [] end.
Proof.
  set (st := {| st_project := p; st_processes := specs |}).
  assert (∀ s, defined nfc st s = true ↔ key nfc s ∈ key nfc <$> specs) as Hdef by (intros s; apply process_is_some).
  unfold plan_import, check_unique. destruct (unique_from nfc ∅ incoming) as [[]|] eqn:Eu; [|done].
  apply unique_from_Ok in Eu as [Hnd _]. cbv zeta. destruct (bool_decide (mode = Strict) && _); [done|].
  destruct (check_count _) as [[]|]; [|done]. destruct (check_all_caps _) as [[]|]; [|done].
  intros [= <-]. cbn [plan_added plan_updated plan_removed]. split; [done|]. split; [|split].
  - f_equal. apply List_filter_eq. intros s _. rewrite <-Hdef. destruct (defined nfc st s); naive_solver.
  - f_equal. rewrite (List_filter_eq (defined nfc st) (λ s, key nfc s ∈ key nfc <$> specs)) by (intros s _; apply Hdef).
    rewrite (List_filter_eq _ (λ s, process nfc st (name s) ≠ Some s)) by (intros s _; apply bool_decide_eq_true).
    rewrite list_filter_filter. apply filter_ext_elem. intros s _. tauto.
  - unfold removed_names. destruct mode; [done|done|]. f_equal. apply List_filter_eq. intros s _.
    rewrite bool_decide_eq_true. by rewrite elem_of_list_to_set.
Qed.

Lemma named_None incoming n : named nfc incoming n = None ↔ name_key nfc n ∉ key nfc <$> incoming.
Proof.
  unfold named. split.
  - intros E (s & Hk & Hs)%list_elem_of_fmap. apply List.find_none with (x := s) in E; [|by apply list_elem_of_In].
    by rewrite bool_decide_eq_true_2 in E.
  - intros Hn. destruct (List.find _ incoming) as [s|] eqn:E; [|done].
    apply List.find_some in E as [Hs%list_elem_of_In Hk%bool_decide_eq_true]. destruct Hn. rewrite <-Hk.
    apply list_elem_of_fmap. by exists s.
Qed.

Lemma named_Some incoming n s : named nfc incoming n = Some s → s ∈ incoming ∧ key nfc s = name_key nfc n.
Proof. intros E. apply List.find_some in E as [Hs%list_elem_of_In Hk%bool_decide_eq_true]. done. Qed.

(** Deleting, replacing and appending by the plan gives the imported stack. *)
Lemma plan_gives_imported p specs incoming mode plan :
  NoDup (key nfc <$> specs) →
  plan_import nfc {| st_project := p; st_processes := specs |} incoming mode = Ok plan →
  foldl (λ l s, replace nfc s l) (filter (λ t, key nfc t ∉ name_key nfc <$> plan_removed plan) specs)
    (filter (λ s, key nfc s ∈ key nfc <$> specs ∧
       process nfc {| st_project := p; st_processes := specs |} (name s) ≠ Some s) incoming) ++
  filter (λ s, key nfc s ∉ key nfc <$> specs) incoming = imported nfc specs incoming mode.
Proof.
  intros Hns Hplan. destruct (plan_import_lists _ _ _ _ _ Hplan) as (Hnd & _ & _ & Hrem).
  set (st := {| st_project := p; st_processes := specs |}).
  rewrite foldl_replace by (by apply NoDup_fmap_filter). unfold imported. f_equal.
  assert (filter (λ t, key nfc t ∉ name_key nfc <$> plan_removed plan) specs =
          filter (λ t, mode ≠ Replace ∨ key nfc t ∈ key nfc <$> incoming) specs) as ->.
  { apply filter_ext_elem. intros t Ht. rewrite Hrem. destruct mode; [split; [by left|intros _; apply not_elem_of_nil]..|].
    rewrite <-list_fmap_compose. split.
    - intros Hn. right. destruct (decide (key nfc t ∈ key nfc <$> incoming)); [done|]. destruct Hn.
      apply list_elem_of_fmap. exists t. split; [done|by apply list_elem_of_filter].
    - intros [|Hk]; [done|]. intros (u & E & [Hu _]%list_elem_of_filter)%list_elem_of_fmap. cbn in E. unfold key in *. congruence. }
  apply list_fmap_ext. intros i t Ht%list_elem_of_lookup_2. apply list_elem_of_filter in Ht as [_ Ht].
  destruct (named nfc incoming (name t)) as [s|] eqn:Es; cbn.
  - apply named_Some in Es as [Hs Hk].
    assert (process nfc st (name s) = Some t) as Hp.
    { destruct (process nfc st (name s)) as [u|] eqn:E.
      - apply process_Some in E as [Hu Hku]. f_equal. apply (NoDup_key_inj _ _ _ _ Hns); [done|done|]. unfold key in *. congruence.
      - assert (is_some (process nfc st (name s)) = true) as Hsome; [|by rewrite E in Hsome].
        apply process_is_some. apply list_elem_of_fmap. exists t. split; [|done]. unfold key in *. congruence. }
    destruct (decide (s = t)) as [->|Hne].
    + destruct (named nfc (filter _ incoming) (name t)) as [u|] eqn:Eu; [|done]. cbn.
      apply named_Some in Eu as [[_ Hu]%list_elem_of_filter Hku].
      apply (NoDup_key_inj _ _ _ _ Hnd); [done|done|]. unfold key in *. congruence.
    + set (U := filter _ incoming).
      assert (s ∈ U) as HsU.
      { apply list_elem_of_filter. split; [|done]. split; [|change (process nfc st (name s) ≠ Some s); rewrite Hp; congruence].
        apply list_elem_of_fmap. exists t. unfold key in *. split; [congruence|done]. }
      assert (named nfc U (name s) = Some s) as E by (apply named_elem; [by apply NoDup_fmap_filter|done]).
      unfold named in *. unfold key in Hk. rewrite Hk in E. by rewrite E.
  - destruct (named nfc (filter _ incoming) (name t)) as [u|] eqn:Eu; [|done]. cbn.
    apply named_Some in Eu as [[_ Hu]%list_elem_of_filter Hku]. apply named_None in Es. destruct Es. rewrite <-Hku.
    apply list_elem_of_fmap. by exists u.
Qed.

Lemma import_refines db root incoming mode now res db' :
  wf db → is_absolute root = true → Forall (λ s, spec_ok is_format s ∧ storable nfc s) incoming →
  Forall (λ r, path_starts_with (pj_root r) root = false) (projects db) ∨ root ∈ pj_root <$> projects db →
  import is_format nfc new_rowid root incoming mode now db = (res, db') →
  wf db' ∧ (∀ root', root' ≠ root → stack db' root' = stack db root') ∧
  ∃ p, match plan_import nfc {| st_project := p; st_processes := specs_at db root |} incoming mode with
  | Ok plan => ∃ reg, res = Ok (reg, plan) ∧ p = reg_project reg ∧
      stack db' root = Ok (Some {| st_project := p; st_processes := imported nfc (specs_at db root) incoming mode |})
  | Err e => res = Err e ∧ db' = db
  end.
Proof.
  intros Hwf Habs Hin Hroom. unfold import, commit.
  destruct (register_total is_format nfc new_rowid ascii_not_format db root now Hwf Hroom) as (id & reg & db1 & Er). rewrite Er.
  pose proof (register_spec is_format nfc new_rowid new_rowid_above ascii_not_format _ _ _ _ _ _ Hwf Habs Er) as Hreg.
  pose proof (rg_wf _ _ _ _ _ _ _ Hreg) as Hwf1. pose proof (registered_holds _ _ _ _ _ Hwf Hreg) as Hh.
  set (specs := specs_at db root) in *. rewrite (stack_of_holds is_format nfc db1 id (reg_project reg) specs) by done.
  destruct (plan_import nfc _ incoming mode) as [plan|e] eqn:Ep.
  2: { intros [= <- <-]. split; [done|]. split; [done|]. exists (reg_project reg). by rewrite Ep. }
  destruct (plan_import_lists _ _ _ _ _ Ep) as (Hnd & Hadd & Hupd & Hrem).
  pose proof (holds_keys _ _ _ Hwf1 Hh) as Hns.
  pose proof (deletes_effect db1 id (plan_removed plan) Hwf1) as Hd.
  set (db2 := foldl _ db1 (plan_removed plan)) in *.
  set (U := filter (λ s, key nfc s ∈ key nfc <$> specs ∧ _) incoming) in *.
  set (A := filter (λ s, key nfc s ∉ key nfc <$> specs) incoming) in *.
  set (L1 := filter (λ t, key nfc t ∉ name_key nfc <$> plan_removed plan) specs) in *.
  pose proof (plan_gives_imported _ _ _ _ _ Hns Ep) as Hres. fold U A L1 in Hres.
  rewrite Hupd, Hadd, write_named_all by (first [done | by intros s [_ ?]%list_elem_of_filter]).
  assert (∀ t, t ∈ specs → key nfc t ∈ key nfc <$> incoming → t ∈ L1) as HL1.
  { intros t Ht Hk. apply list_elem_of_filter. split; [|done]. rewrite Hrem. destruct mode; [apply not_elem_of_nil..|].
    rewrite <-list_fmap_compose. intros (u & E & [Hu _]%list_elem_of_filter)%list_elem_of_fmap. cbn in E. unfold key in *. congruence. }
  rewrite Forall_forall in Hin.
  destruct (updates_effect U db2 id L1) as (db3 & E3 & Hu).
  { apply (ef_wf _ _ _ _ _ _ Hd). }
  { by apply (ef_here _ _ _ _ _ _ Hd). }
  { apply Forall_forall. intros s [[Hk _] Hs]%list_elem_of_filter. destruct (Hin s Hs). split; [done|]. split; [done|].
    apply list_elem_of_fmap in Hk as (t & Ekt & Ht). rewrite Ekt. apply list_elem_of_fmap. exists t. split; [done|].
    apply HL1; [done|]. rewrite <-Ekt. apply list_elem_of_fmap. by exists s. }
  rewrite E3. pose proof (effect_comp is_format nfc _ _ _ _ _ _ Hd Hu) as Hdu.
  assert (key nfc <$> foldl (λ l s, replace nfc s l) L1 U = key nfc <$> L1) as Hkeys.
  { clear. generalize L1. induction U as [|s U IH]; intros l; [done|]. cbn. by rewrite IH, key_replace. }
  destruct (inserts_effect A db3 id (foldl (λ l s, replace nfc s l) L1 U)) as (db4 & E4 & Ha).
  { apply (ef_wf _ _ _ _ _ _ Hdu). }
  { rewrite (view_fmap pj_id (projects db3) (projects db1)); [by eapply registered_id| |apply (ef_projects _ _ _ _ _ _ Hdu)].
    unfold project_view. naive_solver. }
  { by apply (ef_here _ _ _ _ _ _ Hdu). }
  { apply Forall_forall. intros s [_ Hs]%list_elem_of_filter. by apply Hin. }
  { by apply NoDup_fmap_filter. }
  { intros s [Hk _]%list_elem_of_filter. rewrite Hkeys. intros (t & E & [_ Ht]%list_elem_of_filter)%list_elem_of_fmap.
    apply Hk. rewrite E. apply list_elem_of_fmap. by exists t. }
  rewrite write_named_all, E4 by (first [done | by intros s [_ ?]%list_elem_of_filter]). intros [= <- <-].
  pose proof (effect_comp is_format nfc _ _ _ _ _ _ Hdu Ha) as Hda.
  pose proof (effect_comp is_format nfc _ _ _ _ _ _ Hda (bump_revision_effect is_format nfc db4 id (ef_wf _ _ _ _ _ _ Hda))) as Hall.
  split; [apply (ef_wf _ _ _ _ _ _ Hall)|]. split.
  { intros root' Hne. rewrite (effect_others _ _ _ _ _ _ _ Hwf1 (rg_found _ _ _ _ _ _ _ Hreg) Hall Hne).
    by apply (registered_others db root id reg). }
  exists (reg_project reg). rewrite Ep. exists reg. split; [done|]. split; [done|]. rewrite <-Hres.
  exact (effect_here _ _ _ _ _ _ _ (rg_found _ _ _ _ _ _ _ Hreg) Hall Hh).
Qed.

(** C17: The tables implement the abstract stack. Adding a definition, with the
    folder registered on the way when it is new, appends it exactly when it is
    within every cap, fewer than 100 are stored and its name's key is free;
    changing one replaces it in its place and reports a change exactly when
    something differs; removing one takes it out and nothing else. Each refusal
    is the one the abstract stack gives and leaves the database as it was, and
    no write shows in the stack of another project. *)
Theorem stack_store_refines db root author now :
  wf db → clock_ok now →
  (∀ s res db', is_absolute root = true → spec_ok is_format s → storable nfc s →
     Forall (λ r, path_starts_with (pj_root r) root = false) (projects db) ∨ root ∈ pj_root <$> projects db →
     add_process is_format nfc new_rowid edit_text root s author now db = (res, db') →
     wf db' ∧ (∀ root', root' ≠ root → stack db' root' = stack db root') ∧
     match spec_add nfc (specs_at db root) s with
     | Ok specs => ∃ reg, res = Ok reg ∧ stack db' root = Ok (Some {| st_project := reg_project reg; st_processes := specs |})
     | Err e => res = Err e ∧ db' = db
     end) ∧
  (∀ id p, find_project db root = Ok (Some (id, p)) →
     (∀ n c res db', change_ok c → (∀ s s', s ∈ specs_at db root → with_change s c = Ok s' → storable nfc s') →
        change_process is_format nfc new_rowid edit_text root n c author now db = (res, db') →
        wf db' ∧ (∀ root', root' ≠ root → stack db' root' = stack db root') ∧
        match spec_change nfc p (specs_at db root) n c with
        | Ok (s, specs) =>
          ∃ changed, res = Ok {| ac_spec := s; ac_changed := changed |} ∧ (changed = false ↔ specs = specs_at db root) ∧
            (changed = false → db' = db) ∧ stack db' root = Ok (Some {| st_project := p; st_processes := specs |})
        | Err e => res = Err e ∧ db' = db
        end) ∧
     (∀ n res db', remove_process is_format nfc new_rowid edit_text root n author now db = (res, db') →
        wf db' ∧ (∀ root', root' ≠ root → stack db' root' = stack db root') ∧
        match spec_remove nfc p (specs_at db root) n with
        | Ok (s, specs) => res = Ok s ∧ stack db' root = Ok (Some {| st_project := p; st_processes := specs |})
        | Err e => res = Err e ∧ db' = db
        end)).
Proof.
  intros Hwf Hnow. split.
  - intros s res db' Habs Hok Hst Hroom. by apply add_process_refines.
  - intros id p Hf. split.
    + intros n c res db' Hc Hst. by apply (change_process_refines db root id p n c author now).
    + intros n res db'. by apply (remove_process_refines db root id p n author now).
Qed.

(** An import is one step from the stack before to the imported stack:
    every kept definition takes its imported form in its place, the new ones
    follow in the order given, and a replacing import drops exactly the rest.
    It is granted exactly when its plan is, whatever statements it takes, and
    a refused one leaves the database, also the registration, as it was. *)
Theorem import_is_one_step db root incoming mode now res db' :
  wf db → is_absolute root = true → Forall (λ s, spec_ok is_format s ∧ storable nfc s) incoming →
  Forall (λ r, path_starts_with (pj_root r) root = false) (projects db) ∨ root ∈ pj_root <$> projects db →
  import is_format nfc new_rowid root incoming mode now db = (res, db') →
  wf db' ∧ (∀ root', root' ≠ root → stack db' root' = stack db root') ∧
  ∃ p, match plan_import nfc {| st_project := p; st_processes := specs_at db root |} incoming mode with
  | Ok plan => ∃ reg, res = Ok (reg, plan) ∧ p = reg_project reg ∧
      stack db' root = Ok (Some {| st_project := p; st_processes := imported nfc (specs_at db root) incoming mode |})
  | Err e => res = Err e ∧ db' = db
  end.
Proof. apply import_refines. Qed.

(** ** Revisions *)

(** What a write does to the revisions: those of the other roots stay with
    their stacks, and its own root's passes every one given before, unless
    nothing was written or the project is gone. *)
Record moved (db db' : StackDb) (root : path) : Prop := {
  mv_wf : wf db';
  mv_counter : (revision_counter db <= revision_counter db')%Z;
  mv_others : ∀ root', root' ≠ root → stack db' root' = stack db root' ∧ stack_revision db' root' = stack_revision db root';
  mv_here : db' = db ∨ match stack_revision db' root with None => True | Some v => (revision_counter db < v)%Z end;
}.

Lemma moved_refl db root : wf db → moved db db root.
Proof. intros Hwf. split; [done|lia|done|by left]. Qed.

Lemma stack_revision_row db r : wf db → r ∈ projects db → stack_revision db (pj_root r) = Some (pj_revision r).
Proof.
  intros Hwf Hr. unfold stack_revision.
  by rewrite (filter_unique_key pj_root _ _ r) by first [apply (wf_roots _ _ _ Hwf) | done].
Qed.

Lemma stack_revision_None db root : stack_revision db root = None → find_project db root = Ok None.
Proof.
  unfold stack_revision, StackStore.find_project. destruct (filter _ _) as [|r rs]; [done|]. by cbn.
Qed.

(** A statement on one project leaves the revisions of the others. *)
Lemma effect_revision db db' id p f root root' :
  wf db → find_project db root = Ok (Some (id, p)) → effect db db' id f → root' ≠ root →
  stack_revision db' root' = stack_revision db root'.
Proof.
  intros Hwf Hf Hef Hne. apply (find_project_Some is_format nfc) in Hf as (r0 & Hr0 & Hroot0 & Hid0 & _); [|done].
  unfold stack_revision. pose proof (ef_projects _ _ _ _ _ _ Hef) as Hv. pose proof (ef_revisions _ _ _ _ _ _ Hef) as Hr.
  assert (∀ r, r ∈ projects db → pj_root r = root' → pj_id r ≠ id) as Hids.
  { intros r Hin Hroot E. assert (r = r0) as -> by (eapply (NoDup_key_inj _ _ _ _ (wf_project_ids _ _ _ Hwf)); [done|done|congruence]). congruence. }
  revert Hv Hids. clear -Hr. induction Hr as [|r r' ps ps' [_ H] _ IH]; intros Hv Hids; [done|].
  injection Hv as H1 H2 H3 H4 H5 H6 Hv. rewrite !filter_cons, H2. case_decide as E.
  - cbn. f_equal. destruct H as [H|[H _]]; [done|]. destruct (Hids r); [apply list_elem_of_here|done|done].
  - apply IH; [done|]. intros x Hx. apply Hids. by apply list_elem_of_further.
Qed.

Lemma bump_revision_here db id p root :
  wf db → find_project db root = Ok (Some (id, p)) →
  stack_revision (bump_revision db id) root = Some (revision_counter db + 1)%Z.
Proof.
  intros Hwf Hf. apply (find_project_Some is_format nfc) in Hf as (r & Hr & <- & <- & _); [|done].
  pose proof (ef_wf _ _ _ _ _ _ (bump_revision_effect is_format nfc db (pj_id r) Hwf)) as Hwf'.
  assert (∃ r', r' ∈ projects (bump_revision db (pj_id r)) ∧ pj_root r' = pj_root r ∧ pj_revision r' = (revision_counter db + 1)%Z)
    as (r' & Hin & <- & <-).
  { eexists. split; [apply list_elem_of_fmap; exists r; split; [reflexivity|done]|]. by rewrite decide_True. }
  by apply stack_revision_row.
Qed.

(** A write's statements, its new revision and the log. *)
Lemma finish_moved db db1 db2 db3 root id p f :
  wf db1 → find_project db1 root = Ok (Some (id, p)) → (revision_counter db <= revision_counter db1)%Z →
  (∀ root', root' ≠ root → stack db1 root' = stack db root' ∧ stack_revision db1 root' = stack_revision db root') →
  effect db1 db2 id f →
  (∃ now e, record_edit new_rowid edit_text (bump_revision db2 id) id now e = Ok db3) ∨ db3 = bump_revision db2 id →
  moved db db3 root.
Proof.
  intros Hwf1 Hf Hc Hoth Hef Hlast. pose proof (ef_wf _ _ _ _ _ _ Hef) as Hwf2.
  pose proof (bump_revision_effect is_format nfc db2 id Hwf2) as Hb.
  assert (effect (bump_revision db2 id) db3 id (λ l, l) ∧ projects db3 = projects (bump_revision db2 id)) as [Hr Hpj].
  { destruct Hlast as [(now & e & H3)| ->]; [|by split; [apply (effect_id is_format nfc); apply Hb|]].
    destruct (record_edit_effect is_format nfc new_rowid edit_text _ _ _ _ _ (ef_wf _ _ _ _ _ _ Hb) H3) as (H4 & H5 & _). done. }
  pose proof (effect_comp is_format nfc _ _ _ _ _ _ (effect_comp is_format nfc _ _ _ _ _ _ Hef Hb) Hr) as Hall.
  split.
  - apply (ef_wf _ _ _ _ _ _ Hall).
  - pose proof (ef_counter _ _ _ _ _ _ Hall). lia.
  - intros root' Hne. destruct (Hoth root' Hne) as [<- <-]. split.
    + exact (effect_others _ _ _ _ _ _ _ Hwf1 Hf Hall Hne).
    + exact (effect_revision _ _ _ _ _ _ _ Hwf1 Hf Hall Hne).
  - right. assert (stack_revision db3 root = Some (revision_counter db2 + 1)%Z) as ->.
    { unfold stack_revision. rewrite Hpj. apply (bump_revision_here db2 id p root Hwf2).
      by rewrite (find_project_view is_format db1 db2 root (ef_projects _ _ _ _ _ _ Hef)). }
    pose proof (ef_counter _ _ _ _ _ _ Hef). lia.
Qed.
End refine.

(** ** Witnesses *)
Module Witness.
Import Config.Witness.

Definition no_format (c : rchar) : bool := false.
Definition rowid (ids : list Z) : Z := (foldr Z.max 0 ids + 1)%Z.
Definition no_text (e : StackEdit) : rstr := [].
Definition at_ : duration := from_secs 1700000000.

Lemma rowid_above ids : Forall (λ i, (i < rowid ids)%Z) ids.
Proof.
  assert (∀ m, (foldr Z.max 0 ids <= m)%Z → Forall (λ i, (i < m + 1)%Z) ids) as Hm.
  { intros m. induction ids as [|i ids IH]; cbn; intros; [apply Forall_nil_2|apply Forall_cons_2; [lia|apply IH; lia]]. }
  apply Hm. lia.
Qed.

Lemma web_ok : spec_ok no_format web.
Proof.
  split; [by vm_compute|by vm_compute|done| |by vm_compute|done|].
  - intros n v. change (environment web) with ({[lit "A" := lit "1"]} : gmap rstr rstr).
    rewrite lookup_singleton_Some. intros [<- <-]. by vm_compute.
  - intros p. change (ports web) with ({[3000%N]} : gset N). rewrite elem_of_singleton. lia.
Qed.

Lemma text_ok : spec_ok no_format with_text.
Proof.
  apply (with_change_ok no_format web change with_text web_ok); [|by vm_compute].
  split; try done. intros x [= <-]. by vm_compute.
Qed.

Definition added : StackDb :=
  (add_process no_format id rowid no_text root web (Agent (lit "a")) at_ empty_db).2.

Lemma stack_store_refines_witness :
  specs_at no_format added root = [web] ∧ wf no_format id added.
Proof.
  split; [by vm_compute|].
  refine (proj1 (proj1 (stack_store_refines no_format id rowid no_text rowid_above (λ c _, eq_refl) empty_db root
    (Agent (lit "a")) at_ (wf_empty no_format id) _) web
    (add_process no_format id rowid no_text root web (Agent (lit "a")) at_ empty_db).1 added _ web_ok _ _ _)).
  - by vm_compute.
  - by vm_compute.
  - by vm_compute.
  - left. apply Forall_nil_2.
  - unfold added. by destruct (add_process _ _ _ _ _ _ _ _ _).
Defined.

Lemma import_is_one_step_witness :
  specs_at no_format (import no_format id rowid root [with_text] Replace at_ added).2 root = [with_text] ∧
  wf no_format id (import no_format id rowid root [with_text] Replace at_ empty_db).2.
Proof.
  split; [by vm_compute|].
  refine (proj1 (import_is_one_step no_format id rowid rowid_above (λ c _, eq_refl) empty_db root [with_text] Replace at_
    (import no_format id rowid root [with_text] Replace at_ empty_db).1 _ (wf_empty no_format id) _ _ _ _)).
  - by vm_compute.
  - apply Forall_cons_2; [|apply Forall_nil_2]. split; [apply text_ok|by vm_compute].
  - left. apply Forall_nil_2.
  - by destruct (import _ _ _ _ _ _ _ _).
Defined.
End Witness.
