(* ===== verification/StackWrites.v ===== *)
(** * Sequences of writes to the stacks

    Every write of the stack store as one step, and what holds over any
    sequence of them: the database stays well formed and a project's stack
    revision tells whether its stack changed, also across a project that is
    removed and registered again (muster-store/src/stack_rows.rs,
    project_rows.rs and migrations/0002_stack_revision.sql). *)
From S2P Require Import Prelude RustText RustPath Values Coordination Store Process Config StackRows StackStore StackRefine.

Inductive Write :=
| WAdd (root : path) (s : ProcessSpec) (author : Author) (now : duration)
| WChange (root : path) (n : rstr) (c : ProcessChange) (author : Author) (now : duration)
| WRemove (root : path) (n : rstr) (author : Author) (now : duration)
| WImport (root : path) (incoming : list ProcessSpec) (mode : ImportMode) (now : duration)
| WIdleStop (root : path) (i : option IdleStop)
| WForget (root : path).

Definition write_root (w : Write) : path :=
  match w with
  | WAdd root _ _ _ | WChange root _ _ _ _ | WRemove root _ _ _ | WImport root _ _ _ | WIdleStop root _ | WForget root => root
  end.

Section writes.
Context (is_format : rchar → bool) (nfc : rstr → rstr) (new_rowid : list Z → Z) (edit_text : StackEdit → rstr).
Hypothesis new_rowid_above : ∀ ids, Forall (λ i, (i < new_rowid ids)%Z) ids.
Hypothesis ascii_not_format : ∀ c, (32 <= c <= 126)%N → is_format c = false.

Notation wf := (wf is_format nfc).
Notation holds := (holds is_format nfc).
Notation effect := (effect is_format nfc).
Notation stack := (stack is_format).
Notation find_project := (find_project is_format).
Notation moved := (moved is_format nfc).

(** What a write leaves of the database. *)
Definition run_write (w : Write) (db : StackDb) : StackDb :=
  match w with
  | WAdd root s author now => (add_process is_format nfc new_rowid edit_text root s author now db).2
  | WChange root n c author now => (change_process is_format nfc new_rowid edit_text root n c author now db).2
  | WRemove root n author now => (remove_process is_format nfc new_rowid edit_text root n author now db).2
  | WImport root incoming mode now => (import is_format nfc new_rowid root incoming mode now db).2
  | WIdleStop root i => (set_idle_stop is_format root i db).2
  | WForget root => (remove_project root db).2
  end.

(** Its values are ones their constructors accept. *)
Definition write_ok (w : Write) : Prop :=
  match w with
  | WAdd root s _ _ => is_absolute root = true ∧ spec_ok is_format s
  | WChange _ _ c _ _ => change_ok c
  | WRemove _ _ _ _ => True
  | WImport root incoming _ _ => is_absolute root = true ∧ Forall (spec_ok is_format) incoming
  | WIdleStop _ i => ∀ d, i = Some (After d) → is_positive d = true
  | WForget _ => True
  end.

Lemma add_moved db root s author now : wf db → write_ok (WAdd root s author now) → moved db (run_write (WAdd root s author now) db) root.
Proof.
  intros Hwf [Habs Hok]. cbn. unfold add_process, commit.
  destruct (check_caps s) as [[]|]; [|by apply moved_refl].
  destruct (register is_format new_rowid db root now) as [[[id reg] db1]|] eqn:Er; [|by apply moved_refl].
  pose proof (register_spec is_format nfc new_rowid new_rowid_above ascii_not_format _ _ _ _ _ _ Hwf Habs Er) as Hreg.
  destruct (check_count _) as [[]|]; [|by apply moved_refl].
  destruct (insert_process nfc new_rowid db1 id s) as [db2|] eqn:E2; [|by apply moved_refl].
  destruct (record_edit _ _ _ _ _ _) as [db3|] eqn:E3; [|by apply moved_refl]. cbn.
  eapply (finish_moved is_format nfc new_rowid edit_text db db1 db2 db3 root id);
    [apply Hreg|apply Hreg|by rewrite (rg_counter _ _ _ _ _ _ _ Hreg)| | |left; by exists now, (Added author s)].
  - intros root' Hne. split; [by apply (registered_others is_format nfc db root id reg)|by apply Hreg].
  - eapply (insert_process_effect is_format nfc new_rowid new_rowid_above);
      [apply Hreg|by apply (registered_id is_format nfc db root id reg)|done|done].
Qed.

Lemma change_moved db root n c author now :
  wf db → write_ok (WChange root n c author now) → moved db (run_write (WChange root n c author now) db) root.
Proof.
  intros Hwf Hok. cbn. unfold change_process, commit, require_project.
  destruct (find_project db root) as [[[id p]|]|] eqn:Ef; [|by apply moved_refl..]. cbn [ok_or fst].
  destruct (holds_exists is_format nfc db id Hwf) as [specs Hs].
  rewrite (stack_of_holds is_format nfc db id p specs) by done.
  destruct (require nfc _ n) as [before|] eqn:Ereq; [|by apply moved_refl]. apply require_Ok in Ereq as [Hin _].
  destruct (with_change before c) as [after|] eqn:Ech; [|by apply moved_refl].
  case_bool_decide; [by apply moved_refl|].
  destruct (update_process nfc db id after) as [db2|] eqn:E2; [|by apply moved_refl].
  destruct (record_edit _ _ _ _ _ _) as [db3|] eqn:E3; [|by apply moved_refl]. cbn.
  assert (spec_ok is_format before) as Hbok.
  { apply list_elem_of_lookup in Hin as [i Hi]. destruct (Forall2_lookup_r _ _ _ _ _ Hs Hi) as (r & _ & Hr). apply Hr. }
  eapply (finish_moved is_format nfc new_rowid edit_text db db db2 db3 root id);
    [done|done|lia|done| |left; by eexists _, _].
  apply (update_process_effect is_format nfc); [done|by eapply with_change_ok|done].
Qed.

Lemma remove_moved db root n author now : wf db → moved db (run_write (WRemove root n author now) db) root.
Proof.
  intros Hwf. cbn. unfold remove_process, commit, require_project.
  destruct (find_project db root) as [[[id p]|]|] eqn:Ef; [|by apply moved_refl..]. cbn [ok_or fst].
  destruct (stack_of is_format db (id, p)) as [st|]; [|by apply moved_refl].
  destruct (require nfc st n) as [before|]; [|by apply moved_refl].
  destruct (record_edit _ _ _ _ _ _) as [db3|] eqn:E3; [|by apply moved_refl]. cbn.
  eapply (finish_moved is_format nfc new_rowid edit_text db db _ db3 root id);
    [done|done|lia|done|by apply (delete_process_effect is_format nfc)|left; by eexists _, _].
Qed.

(** Writing named definitions in turn touches one project. *)
Lemma write_named_effect write incoming ns db id db' :
  (∀ db s db', wf db → id ∈ pj_id <$> projects db → s ∈ incoming → write db id s = Ok db' → ∃ f, effect db db' id f) →
  wf db → id ∈ pj_id <$> projects db → write_named nfc write incoming db id ns = Ok db' → ∃ f, effect db db' id f.
Proof.
  intros Hw. revert db; induction ns as [|n ns IH]; intros db Hwf Hid; cbn [write_named].
  { intros [= <-]. exists (λ l, l). by apply (effect_id is_format nfc). }
  destruct (named nfc incoming n) as [s|] eqn:En; [|by apply IH]. apply named_Some in En as [Hs _].
  destruct (write db id s) as [db1|] eqn:E1; [|done]. intros Hrest.
  destruct (Hw db s db1 Hwf Hid Hs E1) as [f Hf].
  destruct (IH db1) as [g Hg]; [apply Hf| |done|].
  - rewrite (view_fmap pj_id (projects db1) (projects db)); [done| |apply Hf]. unfold project_view. naive_solver.
  - exists (λ l, g (f l)). exact (effect_comp is_format nfc _ _ _ _ _ _ Hf Hg).
Qed.

Lemma effect_ids db db' id f i : effect db db' id f → i ∈ pj_id <$> projects db → i ∈ pj_id <$> projects db'.
Proof.
  intros Hf Hi. rewrite (view_fmap pj_id (projects db') (projects db)); [done| |apply Hf]. unfold project_view. naive_solver.
Qed.

Lemma import_moved db root incoming mode now :
  wf db → write_ok (WImport root incoming mode now) → moved db (run_write (WImport root incoming mode now) db) root.
Proof.
  intros Hwf [Habs Hok]. rewrite Forall_forall in Hok. cbn. unfold import, commit.
  destruct (register is_format new_rowid db root now) as [[[id reg] db1]|] eqn:Er; [|by apply moved_refl].
  pose proof (register_spec is_format nfc new_rowid new_rowid_above ascii_not_format _ _ _ _ _ _ Hwf Habs Er) as Hreg.
  destruct (stack_of is_format db1 (id, reg_project reg)) as [st|]; [|by apply moved_refl].
  destruct (plan_import nfc st incoming mode) as [plan|]; [|by apply moved_refl].
  pose proof (deletes_effect is_format nfc db1 id (plan_removed plan) (rg_wf _ _ _ _ _ _ _ Hreg)) as Hd.
  pose proof (registered_id is_format nfc _ _ _ _ _ Hreg) as Hid1.
  set (db2 := foldl _ db1 _) in *. pose proof (effect_ids _ _ _ _ _ Hd Hid1) as Hid2.
  destruct (write_named nfc (update_process nfc) incoming db2 id _) as [db3|] eqn:E3; [|by apply moved_refl].
  destruct (write_named_effect (update_process nfc) incoming (plan_updated plan) db2 id db3) as [f Hf]; [|apply Hd|done|done|].
  { intros d s d' Hw _ Hs E. eexists. apply (update_process_effect is_format nfc); [done|by apply Hok|done]. }
  destruct (write_named nfc (insert_process nfc new_rowid) incoming db3 id _) as [db4|] eqn:E4; [|by apply moved_refl].
  destruct (write_named_effect (insert_process nfc new_rowid) incoming (plan_added plan) db3 id db4) as [g Hg];
    [|apply Hf|by eapply effect_ids|done|].
  { intros d s d' Hw Hi Hs E. eexists. apply (insert_process_effect is_format nfc new_rowid new_rowid_above); [done|done|by apply Hok|done]. }
  cbn. eapply (finish_moved is_format nfc new_rowid edit_text db db1 db4 _ root id);
    [apply Hreg|apply Hreg|by rewrite (rg_counter _ _ _ _ _ _ _ Hreg)| | |by right].
  - intros root' Hne. split; [by apply (registered_others is_format nfc db root id reg)|by apply Hreg].
  - exact (effect_comp is_format nfc _ _ _ _ _ _ (effect_comp is_format nfc _ _ _ _ _ _ Hd Hf) Hg).
Qed.

(** The row with its idle stop set. *)
Definition with_idle (id : Z) (kind : option rstr) (ms : option Z) (r : ProjectRow) : ProjectRow :=
  if decide (pj_id r = id)
  then {| pj_id := pj_id r; pj_root := pj_root r; pj_name := pj_name r; pj_idle_kind := kind; pj_idle_ms := ms;
          pj_registered_ns := pj_registered_ns r; pj_revision := pj_revision r |}
  else r.

Lemma with_idle_same id kind ms r :
  pj_id (with_idle id kind ms r) = pj_id r ∧ pj_root (with_idle id kind ms r) = pj_root r ∧
  pj_name (with_idle id kind ms r) = pj_name r ∧ pj_revision (with_idle id kind ms r) = pj_revision r.
Proof. unfold with_idle. by case_decide. Qed.

Lemma with_idle_fmap {A} (f : ProjectRow → A) id kind ms (ps : list ProjectRow) :
  (∀ r, f (with_idle id kind ms r) = f r) → f <$> (with_idle id kind ms <$> ps) = f <$> ps.
Proof. intros Hf. rewrite <-list_fmap_compose. apply list_fmap_ext. intros i r _. apply Hf. Qed.

(** The columns a project's own idle stop is stored as read back. *)
Lemma idle_columns_read i kind ms :
  (∀ d, i = Some (After d) → is_positive d = true) →
  match i with None => Ok (None, None) | Some i => let? (kind, ms) := idle_stop_columns i in Ok (Some kind, ms) end = Ok (kind, ms) →
  match kind with None => i = None | Some k => ∃ j, i = Some j ∧ idle_stop_from_columns k ms = Ok j end.
Proof.
  intros Hi. destruct i as [j|]; [|by intros [= <- <-]].
  destruct (idle_stop_columns j) as [[k m]|] eqn:E; [|done]. intros [= <- <-]. exists j. split; [done|].
  apply idle_stop_round_trip; [|done]. destruct j; [by apply Hi|done].
Qed.

Lemma with_idle_reads i kind ms id r p :
  match kind with None => i = None | Some k => ∃ j, i = Some j ∧ idle_stop_from_columns k ms = Ok j end →
  project_from_row is_format r = Ok (pj_id r, p) → pr_root p = pj_root r → pr_name p = pj_name r →
  ∃ q, project_from_row is_format (with_idle id kind ms r) = Ok (pj_id r, q) ∧ pr_root q = pj_root r ∧ pr_name q = pj_name r ∧
       (pj_id r = id → pr_idle_stop q = i).
Proof.
  intros Hk Hp Hroot Hname. unfold with_idle. case_decide; [|by exists p].
  unfold project_from_row in *. cbn [pj_root pj_name pj_idle_kind pj_idle_ms pj_id].
  destruct (negb (is_absolute (pj_root r))); [done|]. destruct (project_name_try_new is_format (pj_name r)) as [n|[|]]; [|done|done].
  assert (n = pj_name r) as ->.
  { destruct (pj_idle_kind r) as [k|]; [destruct (idle_stop_from_columns k (pj_idle_ms r)) as [|[]]|];
      try done; injection Hp as <-; done. }
  destruct kind as [k|]; [destruct Hk as (j & -> & ->)|subst i]; by eexists.
Qed.

Lemma store_idle_wf db id i db1 :
  wf db → (∀ d, i = Some (After d) → is_positive d = true) → store_idle_stop db id i = Ok db1 →
  wf db1 ∧ processes db1 = processes db ∧ process_env db1 = process_env db ∧ process_ports db1 = process_ports db ∧
  revision_counter db1 = revision_counter db ∧
  ∃ kind ms, projects db1 = with_idle id kind ms <$> projects db.
Proof.
  intros Hwf Hi. unfold store_idle_stop.
  destruct (match i with None => Ok (None, None) | Some _ => _ end) as [[kind ms]|] eqn:E; [|done]. intros [= <-].
  apply idle_columns_read in E; [|done].
  split; [|do 4 (split; [done|]); by exists kind, ms].
  fold (with_idle id kind ms). destruct Hwf as [W1 W2 W3 W4 W5 W6 W7 W8 W9 W10 W11 W12].
  split; try done; cbn [projects processes revision_counter fst snd]; fold (with_idle id kind ms).
  1-3: rewrite with_idle_fmap; [done|intros r; apply with_idle_same].
  - apply Forall_fmap. eapply Forall_impl; [exact W4|]. intros r (p & Hp & Hroot & Hname).
    destruct (with_idle_reads i kind ms id r p E Hp Hroot Hname) as (q & Hq & Hqr & Hqn & _). exists q. cbn.
    destruct (with_idle_same id kind ms r) as (-> & -> & -> & _). done.
  - apply Forall_fmap. eapply Forall_impl; [exact W5|]. intros r Hr. cbn. by destruct (with_idle_same id kind ms r) as (_ & _ & _ & ->).
  - rewrite (with_idle_fmap pj_id); [done|intros r; apply with_idle_same].
Qed.

(** Rows of other roots are untouched by a write to one project's row. *)
Lemma with_idle_others db id p root root' kind ms :
  wf db → find_project db root = Ok (Some (id, p)) → root' ≠ root →
  filter (λ r, pj_root r = root') (with_idle id kind ms <$> projects db) = filter (λ r, pj_root r = root') (projects db).
Proof.
  intros Hwf Hf Hne. rewrite filter_fmap.
  rewrite (filter_ext_elem _ (λ r, pj_root r = root')) by (intros r _; by destruct (with_idle_same id kind ms r) as (_ & -> & _)).
  rewrite <-(list_fmap_id (filter _ _)) at 2. apply list_fmap_ext. intros i r Hr%list_elem_of_lookup_2.
  apply list_elem_of_filter in Hr as [Hroot Hr]. unfold with_idle. case_decide as E; [|done]. exfalso.
  apply (find_project_Some is_format nfc) in Hf as (r0 & Hr0 & Hroot0 & Hid0 & _); [|done].
  assert (r = r0) as -> by (eapply (NoDup_key_inj _ _ _ _ (wf_project_ids _ _ _ Hwf)); [done|done|congruence]). congruence.
Qed.

Lemma idle_moved db root i : wf db → write_ok (WIdleStop root i) → moved db (run_write (WIdleStop root i) db) root.
Proof.
  intros Hwf Hok. cbn. unfold set_idle_stop, commit, require_project.
  destruct (find_project db root) as [[[id p]|]|] eqn:Ef; [|by apply moved_refl..]. cbn [ok_or fst].
  destruct (store_idle_stop db id i) as [db1|] eqn:E1; [|by apply moved_refl].
  destruct (find_project (bump_revision db1 id) root) as [[[id' p']|]|] eqn:Ef'; [|by apply moved_refl..]. cbn.
  destruct (store_idle_wf db id i db1 Hwf Hok E1) as (Hwf1 & Hps & Henv & Hpts & Hc & kind & ms & Hpj).
  assert (find_project db1 root = Ok (Some (id, p'))) as Hf1.
  { rewrite (find_project_view is_format db1 (bump_revision db1 id) root (bump_view id db1)) in Ef'. rewrite Ef'.
    apply (find_project_Some is_format nfc) in Ef as (r & Hr & Hroot & Hid & _); [|done].
    destruct (find_project_row is_format nfc db1 (with_idle id kind ms r)) as (q & Hq & _); [done| |].
    { rewrite Hpj. apply list_elem_of_fmap. by exists r. }
    destruct (with_idle_same id kind ms r) as (E1' & E2' & _). rewrite E1', E2', Hroot, Hid, Ef' in Hq. congruence. }
  eapply (finish_moved is_format nfc new_rowid edit_text db db1 db1 _ root id p');
    [done|done|by rewrite Hc| |by apply (effect_id is_format nfc)|by right].
  intros root' Hne. assert (find_project db1 root' = find_project db root') as Hff.
  { unfold StackStore.find_project. by rewrite Hpj, (with_idle_others db id p root). }
  split; [|unfold stack_revision; by rewrite Hpj, (with_idle_others db id p root)].
  unfold StackStore.stack. rewrite Hff. destruct (find_project db root') as [[q|]|]; [|done|done].
  unfold stack_of, environments_of, ports_of, rows_of. by rewrite Hps, Henv, Hpts.
Qed.

(** Forgetting a project. *)
Lemma forget_absent db root : root ∉ pj_root <$> projects db → run_write (WForget root) db = db.
Proof.
  intros Hn. cbn. assert (filter (λ r, pj_root r = root) (projects db) = []) as ->.
  { apply filter_none. intros r Hr <-. apply Hn, list_elem_of_fmap. by exists r. }
  cbn. rewrite (filter_none (λ r, ps_project r ∈ []) (processes db)) by (intros r _ Hx; by inversion Hx). cbn.
  rewrite !filter_all; [by destruct db|..]; try (intros r _ Hx; by inversion Hx).
  intros r Hr <-. apply Hn, list_elem_of_fmap. by exists r.
Qed.

Lemma forget_moved db root : wf db → moved db (run_write (WForget root) db) root.
Proof.
  intros Hwf. destruct (decide (root ∈ pj_root <$> projects db)) as [Hin|Hn]; [|by rewrite forget_absent by done; apply moved_refl].
  apply list_elem_of_fmap in Hin as (r0 & -> & Hr0). cbn.
  assert (filter (λ r, pj_root r = pj_root r0) (projects db) = [r0]) as ->
    by (by apply (filter_unique_key pj_root); first [apply (wf_roots _ _ _ Hwf) | done]).
  pose proof (cascade_effect is_format nfc (λ r, ps_project r ∈ pj_id <$> [r0]) db (pj_id r0) (λ _, []) Hwf) as Hef.
  destruct Hef as [Hwf1 _ Hthere _ _ _].
  { intros r Hr%list_elem_of_singleton. done. }
  { intros specs _. rewrite filter_none; [constructor|]. intros r [Hr _]%list_elem_of_filter Hn. apply Hn. by apply list_elem_of_singleton. }
  set (db1 := with_processes _ _ _ _) in *. set (db2 := {| projects := _ |}).
  assert (∀ r, r ∈ projects db → pj_root r ≠ pj_root r0 ↔ pj_id r ≠ pj_id r0) as Hiff.
  { intros r Hr. split; intros Hne E; apply Hne.
    - by rewrite (NoDup_key_inj _ _ _ _ (wf_project_ids _ _ _ Hwf) Hr Hr0 E).
    - by rewrite (NoDup_key_inj _ _ _ _ (wf_roots _ _ _ Hwf) Hr Hr0 E). }
  assert (wf db2) as Hwf2.
  { destruct Hwf1 as [W1 W2 W3 W4 W5 W6 W7 W8 W9 W10 W11 W12]. split; try done; cbn [db2 projects processes revision_counter].
    1-3: by apply NoDup_fmap_filter.
    1-2: by apply Forall_filter.
    apply Forall_forall. intros r Hr. pose proof Hr as [Hn Hr']%list_elem_of_filter. rewrite Forall_forall in W8.
    destruct (proj1 (list_elem_of_fmap _ _ _) (W8 r Hr)) as (q & Hq & Hqin). rewrite Hq. apply list_elem_of_fmap. exists q.
    split; [done|]. apply list_elem_of_filter. split; [|done]. apply Hiff; [done|]. intros E. apply Hn.
    apply list_elem_of_singleton. congruence. }
  assert (∀ root', root' ≠ pj_root r0 → filter (λ r, pj_root r = root') (projects db2) = filter (λ r, pj_root r = root') (projects db)) as Hpj.
  { intros root' Hne. cbn. apply list_filter_filter_l. intros r <-. done. }
  split; [done|cbn; lia| |].
  - intros root' Hne. split; [|unfold stack_revision; by rewrite Hpj].
    assert (find_project db2 root' = find_project db root') as Hff by (unfold StackStore.find_project; by rewrite Hpj).
    destruct (find_project db root') as [[[i q]|]|] eqn:E.
    + destruct (holds_exists is_format nfc db i Hwf) as [specs Hs].
      rewrite (stack_found is_format nfc db root' i q specs) by done. apply (stack_found is_format nfc) with i; [done|done|].
      apply (Hthere i specs); [|done]. apply (find_project_Some is_format nfc) in E as (r & Hr & Hroot & <- & _); [|done].
      apply Hiff; [done|]. congruence.
    + by rewrite !(stack_unfound is_format) by done.
    + unfold StackStore.stack. by rewrite Hff, E.
  - right. unfold stack_revision. cbn. rewrite list_filter_filter, filter_none; [done|]. by intros r _ [].
Qed.

(** Each write in turn. *)
Lemma run_write_moved w db : wf db → write_ok w → moved db (run_write w db) (write_root w).
Proof.
  intros Hwf Hok. destruct w; cbn [write_root].
  - by apply add_moved.
  - by apply change_moved.
  - by apply remove_moved.
  - by apply import_moved.
  - by apply idle_moved.
  - by apply forget_moved.
Qed.

Definition run_writes (ws : list Write) (db : StackDb) : StackDb := foldl (λ db w, run_write w db) db ws.

(** Since [db], the stack at [root] is the same with its revision, or its
    revision is above every one [db] had given, or the project is gone. *)
Lemma run_writes_moved ws db root :
  wf db → Forall write_ok ws →
  let db' := run_writes ws db in
  wf db' ∧ (revision_counter db <= revision_counter db')%Z ∧
  ((stack db' root = stack db root ∧ stack_revision db' root = stack_revision db root) ∨
   match stack_revision db' root with None => True | Some v => (revision_counter db < v)%Z end).
Proof.
  intros Hwf. induction ws as [|w ws IH] using rev_ind; intros Hok; [split; [done|]; split; [cbn; lia|by left]|].
  apply Forall_app in Hok as [Hok Hw]. apply Forall_inv in Hw. destruct (IH Hok) as (Hwf' & Hc & Hst). cbv zeta.
  unfold run_writes in *. rewrite foldl_snoc. set (db' := foldl _ db ws) in *. cbn beta.
  destruct (run_write_moved w db' Hwf' Hw) as [H1 H2 H3 H4]. split; [done|]. split; [lia|].
  destruct (decide (root = write_root w)) as [->|Hne].
  - destruct H4 as [->|H4]; [done|]. right.
    destruct (stack_revision (run_write w db') (write_root w)); [lia|done].
  - destruct (H3 root Hne) as [-> ->]. done.
Qed.

(** C18: Over any sequence of writes to any projects, also ones that fail,
    that import, set an idle stop, remove a project or register it again, the
    database stays well formed, and a project whose stack revision reads the
    same at two moments has the same stack at both: a reader that compares
    revisions never keeps a stale stack. *)
Theorem revision_tells_changes ws ws' db root :
  wf db → Forall write_ok ws → Forall write_ok ws' →
  let before := run_writes ws db in
  let after := run_writes ws' before in
  wf after ∧
  (stack_revision after root = stack_revision before root → stack after root = stack before root).
Proof.
  intros Hwf Hws Hws' before after. destruct (run_writes_moved ws db root Hwf Hws) as (Hwf1 & _ & _).
  destruct (run_writes_moved ws' before root Hwf1 Hws') as (Hwf2 & _ & Hst). split; [done|]. intros Hrev.
  destruct Hst as [[Hst _]|Hst]; [done|]. fold after in Hst. rewrite Hrev in Hst.
  destruct (stack_revision before root) as [v|] eqn:Ev.
  - exfalso. unfold stack_revision in Ev. destruct (filter _ _) as [|r rs] eqn:Ef; [done|]. injection Ev as <-.
    assert (r ∈ projects before) as Hr.
    { apply (list_elem_of_filter (λ r, pj_root r = root)). rewrite Ef. apply list_elem_of_here. }
    pose proof (wf_revisions _ _ _ Hwf1) as Hv. rewrite Forall_forall in Hv. specialize (Hv r Hr). cbn in Hv. fold before in Hv. lia.
  - by rewrite !(stack_unfound is_format) by (by apply stack_revision_None).
Qed.
End writes.

(** ** Witnesses *)
Module Witness.
Import Config.Witness StackRefine.Witness.

Definition first_writes : list Write := [WAdd root web (Agent (lit "a")) at_].
Definition later_writes : list Write :=
  [WForget root; WAdd root web Human at_; WChange root (lit "web") change Human at_].

Lemma revision_tells_changes_witness :
  let before := run_writes no_format id rowid no_text first_writes empty_db in
  let after := run_writes no_format id rowid no_text later_writes before in
  stack_revision before root = Some 1%Z ∧ stack_revision after root = Some 3%Z ∧ wf no_format id after.
Proof.
  cbv zeta. split; [by vm_compute|]. split; [by vm_compute|].
  refine (proj1 (revision_tells_changes no_format id rowid no_text rowid_above (λ c _, eq_refl) first_writes later_writes
    empty_db root (wf_empty no_format id) _ _)).
  - apply Forall_cons_2; [|apply Forall_nil_2]. split; [by vm_compute|apply web_ok].
  - apply Forall_cons_2; [done|]. apply Forall_cons_2; [split; [by vm_compute|apply web_ok]|].
    apply Forall_cons_2; [|apply Forall_nil_2]. split; try done. intros x [= <-]. by vm_compute.
Defined.
End Witness.
