(* ===== verification/StackSync.v ===== *)
(** * Bringing a live workspace in line with its stored stack

    Models muster-application/src/workspace.rs and stack_sync.rs: the ordered
    processes of a project and [StackSync::apply], which matches them with the
    stored definitions by name key. Pane ids are [u64] counted up by one. *)
From S2P Require Import Prelude RustText RustPath Values Process Config StackRefine.

(** ** The workspace *)
Notation Workspace := (list Process) (only parsing).

Definition ws_is_empty (ws : Workspace) : bool := bool_decide (ws = []).
Definition ws_push (ws : Workspace) (p : Process) : Workspace := ws ++ [p].

Fixpoint position_of (ws : Workspace) (pane : N) : option nat :=
  match ws with
  | [] => None
  | p :: ws => if (p_id p =? pane)%N then Some 0 else S <$> position_of ws pane
  end.

(** [Vec::remove] at the pane's index. *)
Definition ws_remove (ws : Workspace) (pane : N) : Workspace :=
  match position_of ws pane with Some i => delete i ws | None => ws end.

Definition ws_process (ws : Workspace) (pane : N) : option Process := position_of ws pane ≫= λ i, ws !! i.

Definition ws_set_state (ws : Workspace) (pane : N) (s : ProcessState) : Workspace :=
  match position_of ws pane with Some i => alter (λ p, set_state p s) i ws | None => ws end.

Definition ws_should_restart (ws : Workspace) (pane : N) (o : ExitOutcome) : bool :=
  match ws_process ws pane with Some p => should_restart (p_restart p) o | None => false end.

(** ** Syncing *)
Record StackSync := {
  ss_workspace : list Process;
  ss_added : list N;
  ss_retiring : list N;
  ss_removed : list N;
}.

Section sync.
Context (nfc : rstr → rstr).

Definition process_key (p : Process) : rstr := name_key nfc (p_name p).

(** [by_key.entry(key).or_insert(process)], in workspace order. *)
Definition by_key_of (ws : Workspace) : gmap rstr Process :=
  foldl (λ m p, if decide (is_Some (m !! process_key p)) then m else <[process_key p := p]> m) ∅ ws.

(** One past the largest pane id, zero for no pane. *)
Definition next_id_of (ws : Workspace) : N := foldr (λ p, N.max (p_id p + 1)) 0%N ws.

(** The loop over the stored definitions: what is synced, which panes were
    matched, and which were added. *)
Fixpoint sync_specs (by_key : gmap rstr Process) (next : N) (specs : list ProcessSpec)
    : list Process * list N * list N :=
  match specs with
  | [] => ([], [], [])
  | s :: specs =>
    match by_key !! key nfc s with
    | Some existing =>
      let process := set_spec existing s in
      let '(synced, matched, added) := sync_specs (delete (key nfc s) by_key) next specs in
      (process :: synced, p_id process :: matched, added)
    | None =>
      let '(synced, matched, added) := sync_specs (delete (key nfc s) by_key) (next + 1) specs in
      (to_process s next :: synced, matched, next :: added)
    end
  end.

(** [StackSync::apply]. *)
Definition apply (ws : Workspace) (specs : list ProcessSpec) (is_live : N → bool) : StackSync :=
  let '(synced, matched, added) := sync_specs (by_key_of ws) (next_id_of ws) specs in
  let unmatched := filter (λ p, p_id p ∉ matched) ws in
  let retiring := filter (λ p, is_live (p_id p) = true) unmatched in
  let removed := filter (λ p, is_live (p_id p) = false) unmatched in
  {| ss_workspace := synced ++ retiring; ss_added := added;
     ss_retiring := p_id <$> retiring; ss_removed := p_id <$> removed |}.

(** * Laws *)

(** The process of a workspace under a key. *)
Definition under_key (ws : Workspace) (k : rstr) : option Process := List.find (λ p, bool_decide (process_key p = k)) ws.

Lemma under_key_Some ws k p : under_key ws k = Some p → p ∈ ws ∧ process_key p = k.
Proof. intros E. apply List.find_some in E as [Hp%list_elem_of_In Hk%bool_decide_eq_true]. done. Qed.

Lemma under_key_None ws k : under_key ws k = None ↔ k ∉ process_key <$> ws.
Proof.
  unfold under_key. split.
  - intros E (p & -> & Hp)%list_elem_of_fmap. apply List.find_none with (x := p) in E; [|by apply list_elem_of_In].
    by rewrite bool_decide_eq_true_2 in E.
  - intros Hk. destruct (List.find _ ws) as [p|] eqn:E; [|done]. apply under_key_Some in E as [Hp <-].
    destruct Hk. apply list_elem_of_fmap. by exists p.
Qed.

Lemma by_key_lookup ws k : by_key_of ws !! k = under_key ws k.
Proof.
  unfold by_key_of, under_key. induction ws as [|p ws IH] using rev_ind; [apply lookup_empty|].
  rewrite foldl_snoc, find_app, <-IH. set (m := foldl _ ∅ ws) in *. cbn.
  destruct (decide (process_key p = k)) as [<-|Hne].
  - rewrite bool_decide_eq_true_2 by done. case_decide as Hs; [by destruct Hs as [q ->]|].
    rewrite lookup_insert_eq. destruct (m !! process_key p) eqn:E; [|done]. destruct Hs. by eexists.
  - rewrite bool_decide_eq_false_2 by done. case_decide; [by destruct (m !! k)|].
    rewrite lookup_insert_ne by done. by destruct (m !! k).
Qed.

Lemma next_id_above ws p : p ∈ ws → (p_id p < next_id_of ws)%N.
Proof.
  unfold next_id_of. induction ws as [|q ws IH]; [by intros ?%not_elem_of_nil|].
  intros [->|Hp]%elem_of_cons; cbn [foldr]; [lia|]. specialize (IH Hp). lia.
Qed.

(** The loop as its definitions see it: each takes the process under its key
    or the next pane. *)
Fixpoint synced_from (ws : Workspace) (next : N) (specs : list ProcessSpec) : list Process :=
  match specs with
  | [] => []
  | s :: specs =>
    match under_key ws (key nfc s) with
    | Some existing => set_spec existing s :: synced_from ws next specs
    | None => to_process s next :: synced_from ws (next + 1) specs
    end
  end.

Definition kept_ids (ws : Workspace) (specs : list ProcessSpec) : list N :=
  omap (λ s, p_id <$> under_key ws (key nfc s)) specs.

Definition fresh_count (ws : Workspace) (specs : list ProcessSpec) : nat :=
  length (filter (λ s, key nfc s ∉ process_key <$> ws) specs).

Lemma sync_specs_spec ws by_key next specs :
  NoDup (key nfc <$> specs) → (∀ s, s ∈ specs → by_key !! key nfc s = under_key ws (key nfc s)) →
  sync_specs by_key next specs =
    (synced_from ws next specs, kept_ids ws specs, (λ i, (next + N.of_nat i)%N) <$> seq 0 (fresh_count ws specs)).
Proof.
  revert by_key next. induction specs as [|s specs IH]; intros by_key next Hnd Hby; [done|].
  cbn [fmap list_fmap] in Hnd. apply NoDup_cons in Hnd as [Hni Hnd].
  cbn [sync_specs synced_from]. rewrite (Hby s (list_elem_of_here _ _)).
  assert (∀ t, t ∈ specs → delete (key nfc s) by_key !! key nfc t = under_key ws (key nfc t)) as Hdel.
  { intros t Ht. rewrite lookup_delete_ne; [apply Hby; by apply list_elem_of_further|].
    intros E. apply Hni. rewrite E. apply list_elem_of_fmap. by exists t. }
  unfold kept_ids, fresh_count in *. cbn [omap list_omap]. rewrite filter_cons.
  destruct (under_key ws (key nfc s)) as [p|] eqn:E; rewrite IH by done; cbn [fmap option_fmap option_map].
  - rewrite decide_False; [done|]. intros Hk%under_key_None. congruence.
  - rewrite decide_True by (by apply under_key_None). cbn [length seq fmap list_fmap]. f_equal.
    rewrite <-fmap_S_seq, <-list_fmap_compose. f_equal; [lia|]. apply list_fmap_ext. intros i x _. cbn. lia.
Qed.

Lemma spec_synced ws next specs : spec <$> synced_from ws next specs = specs.
Proof.
  revert next; induction specs as [|s specs IH]; intros next; [done|]. cbn [synced_from].
  destruct (under_key ws (key nfc s)); rewrite fmap_cons, IH; f_equal; [apply spec_set_spec|apply spec_to_process].
Qed.

Lemma key_synced ws next specs : process_key <$> synced_from ws next specs = key nfc <$> specs.
Proof.
  rewrite <-(spec_synced ws next specs) at 2. rewrite <-list_fmap_compose. by apply list_fmap_ext.
Qed.

(** A synced process is one of the workspace with its definition, or new. *)
Lemma elem_of_synced ws next specs q :
  q ∈ synced_from ws next specs →
  ∃ s, s ∈ specs ∧ spec q = s ∧
    ((∃ p, p ∈ ws ∧ process_key p = key nfc s ∧ p_id q = p_id p ∧ p_state q = p_state p) ∨
     (key nfc s ∉ process_key <$> ws ∧ p_state q = SPending ∧
      (next <= p_id q < next + N.of_nat (fresh_count ws specs))%N)).
Proof.
  revert next; induction specs as [|s specs IH]; intros next; [by intros ?%not_elem_of_nil|].
  cbn [synced_from]. unfold fresh_count in *. rewrite filter_cons.
  destruct (under_key ws (key nfc s)) as [p|] eqn:E.
  - rewrite decide_False by (intros Hk%under_key_None; congruence). apply under_key_Some in E as [Hp Hk].
    intros [->|Hq]%elem_of_cons.
    + exists s. split; [apply list_elem_of_here|]. split; [apply spec_set_spec|]. left. by exists p.
    + destruct (IH next Hq) as (t & Ht & Hrest). exists t. split; [by apply list_elem_of_further|done].
  - rewrite decide_True by (by apply under_key_None). intros [->|Hq]%elem_of_cons.
    + exists s. split; [apply list_elem_of_here|]. split; [apply spec_to_process|]. right.
      split; [by apply under_key_None|]. split; [done|]. cbn. lia.
    + destruct (IH (next + 1)%N Hq) as (t & Ht & Hs & Hrest). exists t. split; [by apply list_elem_of_further|].
      split; [done|]. destruct Hrest as [?|(? & ? & ?)]; [by left|right]. split; [done|]. split; [done|]. cbn [length]. lia.
Qed.

Lemma elem_of_kept ws specs p :
  NoDup (p_id <$> ws) → NoDup (process_key <$> ws) → p ∈ ws →
  p_id p ∈ kept_ids ws specs ↔ process_key p ∈ key nfc <$> specs.
Proof.
  intros Hids Hkeys Hp. unfold kept_ids. rewrite list_elem_of_omap, list_elem_of_fmap. split.
  - intros (s & Hs & (q & Hid & Hq)%fmap_Some). apply under_key_Some in Hid as [Hqin Hk]. exists s.
    by rewrite (NoDup_key_inj _ _ _ _ Hids Hp Hqin Hq).
  - intros (s & Hk & Hs). exists s. split; [done|]. destruct (under_key ws (key nfc s)) as [q|] eqn:E.
    + apply under_key_Some in E as [Hq Hkq]. cbn. f_equal. f_equal.
      apply (NoDup_key_inj _ _ _ _ Hkeys); [done|done|congruence].
    + apply under_key_None in E. destruct E. rewrite <-Hk. apply list_elem_of_fmap. by exists p.
Qed.

Lemma ids_synced ws next specs :
  NoDup (p_id <$> ws) → NoDup (process_key <$> ws) → NoDup (key nfc <$> specs) →
  (∀ p, p ∈ ws → (p_id p < next)%N) → NoDup (p_id <$> synced_from ws next specs).
Proof.
  intros Hids Hkeys. revert next; induction specs as [|s specs IH]; intros next Hnd Hlt; [apply NoDup_nil_2|].
  cbn [fmap list_fmap] in Hnd. apply NoDup_cons in Hnd as [Hni Hnd]. cbn [synced_from].
  destruct (under_key ws (key nfc s)) as [p|] eqn:E; rewrite fmap_cons; apply NoDup_cons.
  - split; [|by apply IH]. apply under_key_Some in E as [Hp Hk]. intros (q & Hid & Hq)%list_elem_of_fmap. cbn in Hid.
    destruct (elem_of_synced _ _ _ _ Hq) as (t & Ht & _ & [(p' & Hp' & Hk' & Hid' & _)|(_ & _ & Hge)]).
    + assert (p = p') as -> by (apply (NoDup_key_inj _ _ _ _ Hids); [done|done|congruence]).
      apply Hni. rewrite <-Hk, Hk'. apply list_elem_of_fmap. by exists t.
    + specialize (Hlt p Hp). lia.
  - split; [|apply IH; [done|]; intros p Hp; specialize (Hlt p Hp); lia].
    intros (q & Hid & Hq)%list_elem_of_fmap. cbn in Hid.
    destruct (elem_of_synced _ _ _ _ Hq) as (t & Ht & _ & [(p' & Hp' & _ & Hid' & _)|(_ & _ & Hge)]); [|lia].
    specialize (Hlt p' Hp'). lia.
Qed.

Lemma set_spec_spec q : set_spec q (spec q) = q.
Proof. by destruct q. Qed.

(** Syncing with the definitions a workspace already runs keeps it. *)
Lemma synced_again ws ws' next next' specs :
  NoDup (key nfc <$> specs) → NoDup (process_key <$> ws') →
  (∀ q, q ∈ synced_from ws next specs → q ∈ ws') →
  synced_from ws' next' specs = synced_from ws next specs.
Proof.
  intros Hnd Hkeys. revert next next'; induction specs as [|s specs IH]; intros next next' Hin; [done|].
  cbn [fmap list_fmap] in Hnd. apply NoDup_cons in Hnd as [Hni Hnd].
  cbn [synced_from] in *.
  assert (∀ q, q ∈ ws' → spec q = s → under_key ws' (key nfc s) = Some q) as Huk.
  { intros q Hq Hs. destruct (under_key ws' (key nfc s)) as [r|] eqn:E.
    - apply under_key_Some in E as [Hr Hk]. f_equal. apply (NoDup_key_inj _ _ _ _ Hkeys); [done|done|].
      rewrite Hk. by rewrite <-Hs.
    - apply under_key_None in E. destruct E. apply list_elem_of_fmap. exists q. split; [|done]. by rewrite <-Hs. }
  destruct (under_key ws (key nfc s)) as [p|].
  - rewrite (Huk (set_spec p s)); [|apply Hin, list_elem_of_here|apply spec_set_spec].
    rewrite <-(spec_set_spec p s) at 2. rewrite set_spec_spec. f_equal. apply IH; [done|].
    intros q Hq. apply Hin. by apply list_elem_of_further.
  - rewrite (Huk (to_process s next)); [|apply Hin, list_elem_of_here|apply spec_to_process].
    rewrite <-(spec_to_process s next) at 2. rewrite set_spec_spec. f_equal. apply IH; [done|].
    intros q Hq. apply Hin. by apply list_elem_of_further.
Qed.

(** Panes and names are each one process's. *)
Definition ws_ok (ws : Workspace) : Prop := NoDup (p_id <$> ws) ∧ NoDup (process_key <$> ws).

(** The processes the stack no longer names, live or not. *)
Definition unnamed (ws : Workspace) (specs : list ProcessSpec) (is_live : N → bool) (live : bool) : list Process :=
  filter (λ p, process_key p ∉ key nfc <$> specs ∧ is_live (p_id p) = live) ws.

(** The result in closed form. *)
Lemma apply_closed ws specs is_live :
  ws_ok ws → NoDup (key nfc <$> specs) →
  apply ws specs is_live =
    {| ss_workspace := synced_from ws (next_id_of ws) specs ++ unnamed ws specs is_live true;
       ss_added := (λ i, (next_id_of ws + N.of_nat i)%N) <$> seq 0 (fresh_count ws specs);
       ss_retiring := p_id <$> unnamed ws specs is_live true; ss_removed := p_id <$> unnamed ws specs is_live false |}.
Proof.
  intros [Hids Hkeys] Hnd. unfold apply. rewrite (sync_specs_spec ws) by (done || (intros; apply by_key_lookup)). cbv zeta.
  assert (∀ live, filter (λ p, is_live (p_id p) = live) (filter (λ p, p_id p ∉ kept_ids ws specs) ws) =
    unnamed ws specs is_live live) as Hg.
  { intros live. rewrite list_filter_filter. apply filter_ext_elem. intros p Hp. rewrite (elem_of_kept ws specs p) by done. tauto. }
  by rewrite !Hg.
Qed.

Lemma gone_ok (ws : list Process) (specs : list ProcessSpec) (is_live : N → bool) (live : bool) :
  (∀ p, p ∈ unnamed ws specs is_live live → p ∈ ws) ∧
  (∀ p, p ∈ unnamed ws specs is_live live → process_key p ∉ key nfc <$> specs).
Proof. split; intros p [[? ?] ?]%list_elem_of_filter; done. Qed.

Lemma synced_ws_ok ws specs is_live :
  ws_ok ws → NoDup (key nfc <$> specs) →
  ws_ok (synced_from ws (next_id_of ws) specs ++ unnamed ws specs is_live true).
Proof.
  intros [Hids Hkeys] Hnd. 
  destruct (gone_ok ws specs is_live true) as [Hgws Hgk]. split; rewrite fmap_app; apply NoDup_app.
  - split; [apply ids_synced; [done..|apply next_id_above]|]. split; [|by apply NoDup_fmap_filter].
    intros i (q & -> & Hq)%list_elem_of_fmap (p & Hid & Hp)%list_elem_of_fmap.
    destruct (elem_of_synced _ _ _ _ Hq) as (t & Ht & _ & [(p' & Hp' & Hk' & Hid' & _)|(_ & _ & Hge)]).
    + assert (p = p') as -> by (apply (NoDup_key_inj _ _ _ _ Hids); [by apply Hgws|done|congruence]).
      apply (Hgk p' Hp). rewrite Hk'. apply list_elem_of_fmap. by exists t.
    + pose proof (next_id_above ws p (Hgws p Hp)). lia.
  - rewrite key_synced. split; [done|]. split; [|by apply NoDup_fmap_filter].
    intros k Hk (p & -> & Hp)%list_elem_of_fmap. by apply (Hgk p Hp).
Qed.

(** C39: Syncing a workspace to its stored stack: the definitions come first,
    in stack order, each exactly as stored; a name that was there keeps its
    pane and state, a new one gets a pane no process had and waits in
    [Pending]. What the stack no longer names is kept behind them while it is
    live and dropped otherwise, so every pane is kept, retiring or removed.
    Panes and names stay one process's each, and syncing again to the same
    stack changes nothing. *)
Theorem stack_sync_exact ws specs is_live :
  ws_ok ws → NoDup (key nfc <$> specs) →
  let r := apply ws specs is_live in
  let n := length specs in
  ws_ok (ss_workspace r) ∧
  spec <$> take n (ss_workspace r) = specs ∧
  (∀ q, q ∈ take n (ss_workspace r) →
     (∃ p, p ∈ ws ∧ process_key p = process_key q ∧ p_id q = p_id p ∧ p_state q = p_state p) ∨
     (process_key q ∉ process_key <$> ws ∧ p_state q = SPending ∧ p_id q ∈ ss_added r ∧ ∀ p, p ∈ ws → (p_id p < p_id q)%N)) ∧
  drop n (ss_workspace r) = unnamed ws specs is_live true ∧ ss_retiring r = p_id <$> unnamed ws specs is_live true ∧ ss_removed r = p_id <$> unnamed ws specs is_live false ∧
  apply (ss_workspace r) specs is_live =
    {| ss_workspace := ss_workspace r; ss_added := []; ss_retiring := ss_retiring r; ss_removed := [] |}.
Proof.
  intros Hws Hnd r n. pose proof (synced_ws_ok ws specs is_live Hws Hnd) as Hok.
  assert (r = _) as Hr by (by apply apply_closed). 
  set (next := next_id_of ws) in *. set (synced := synced_from ws next specs) in *.
  assert (length synced = n) as Hlen by (unfold n; rewrite <-(spec_synced ws next specs); by rewrite length_fmap).
  assert (take n (ss_workspace r) = synced) as Htake by (rewrite Hr; cbn; by rewrite <-Hlen, take_app_length).
  split; [by rewrite Hr|]. split; [rewrite Htake; apply spec_synced|]. split; [|split; [|split; [by rewrite Hr|split; [by rewrite Hr|]]]].
  - intros q. rewrite Htake. intros Hq. destruct (elem_of_synced _ _ _ _ Hq) as (s & Hs & Hsq & Hcase).
    assert (process_key q = key nfc s) as Hk by (by rewrite <-Hsq). rewrite Hk.
    destruct Hcase as [?|(Hnew & Hst & Hge)]; [by left|right]. split; [done|]. split; [done|]. split.
    + rewrite Hr. cbn. apply list_elem_of_fmap. exists (N.to_nat (p_id q - next)). rewrite elem_of_seq. lia.
    + intros p Hp. pose proof (next_id_above ws p Hp). lia.
  - rewrite Hr. cbn. by rewrite <-Hlen, drop_app_length.
  - rewrite Hr at 1. cbn [ss_workspace]. rewrite apply_closed by done.
    assert (∀ live, unnamed synced specs is_live live = []) as Hs0.
    { intros live. apply filter_none. intros q Hq [Hk _]. apply Hk. rewrite <-(key_synced ws next specs).
      apply list_elem_of_fmap. by exists q. }
    assert (∀ live, unnamed (synced ++ unnamed ws specs is_live true) specs is_live live =
                    if live then unnamed ws specs is_live true else []) as Hgone.
    { intros live. unfold unnamed at 1. rewrite filter_app. fold (unnamed synced specs is_live live). rewrite Hs0. cbn [app]. destruct live.
      - apply filter_all. by intros p [? _]%list_elem_of_filter.
      - apply filter_none. intros p [[_ Hl] _]%list_elem_of_filter [_ Hl']. congruence. }
    rewrite !Hgone, (synced_again ws _ next) by (first [done | apply Hok | intros q Hq; apply elem_of_app; by left]).
    rewrite Hr. cbn [ss_workspace ss_retiring]. f_equal. unfold fresh_count. rewrite filter_none; [done|].
    intros s Hs Hk. apply Hk. rewrite fmap_app, elem_of_app. left. unfold synced. rewrite key_synced. apply list_elem_of_fmap. by exists s.
Qed.
End sync.

(** ** Witnesses *)
Module Witness.
Import Config.Witness StackRefine.Witness.

Definition api : ProcessSpec :=
  {| name := lit "api"; command := lit "run"; working_dir := None; description := None; environment := ∅;
     autostart := false; restart := Never_; stop := no_stop; ready := None; ports := ∅ |}.
Definition live_ws : list Process := [set_state (to_process web 4) SRunning; to_process api 7].

Lemma stack_sync_exact_witness :
  ss_added (apply id [to_process api 7] [web] (λ _, true)) = [8%N] ∧
  ws_ok id (ss_workspace (apply id live_ws [with_text] (λ pane, (pane =? 7)%N))).
Proof.
  split; [by vm_compute|].
  refine (proj1 (stack_sync_exact id live_ws [with_text] (λ pane, (pane =? 7)%N) _ _)).
  - split; apply (bool_decide_unpack _); by vm_compute.
  - apply (bool_decide_unpack _). by vm_compute.
Defined.
End Witness.
