(* ===== verification/StackEditor.v ===== *)
(** * Editing stored state and telling of it

    Models muster-application/src/stack_editor.rs over the ports of
    muster-domain/src/port: what the editor asks of its stack store, its
    settings store and its notifier is stated by the classes [StackPort] and
    [SettingsPort] with their promises, its theorem is proved from the promises
    alone, and the tables of [StackStore] are shown to keep those of the stack
    store. The notifier is the list of what it was told, in order. *)
From S2P Require Import Prelude RustText RustPath Values Coordination Store Process Config StackRows StackStore StackRefine StackWrites.

(** ** Ports *)

(** [StackReader] and [StackStore]. *)
Class StackPort (D : Type) := {
  st_stack : D → path → result (option Stack) ConfigError;
  st_add : path → ProcessSpec → Author → duration → D → result Registration ConfigError * D;
  st_change : path → rstr → ProcessChange → Author → duration → D → result AppliedChange ConfigError * D;
  st_remove : path → rstr → Author → duration → D → result ProcessSpec ConfigError * D;
  st_import : path → list ProcessSpec → ImportMode → duration → D → result (Registration * ImportPlan) ConfigError * D;
  st_set_idle : path → option IdleStop → D → result Project ConfigError * D;
}.

(** A write to the stack of [root] that answered [res] went by the book: the
    store is sound, other stacks stay, and a refusal changed nothing. *)
Definition written {D} `{StackPort D} (sound : D → Prop) {A} (root : path) (d : D) (out : result A ConfigError * D) : Prop :=
  sound out.2 ∧ (∀ root', root' ≠ root → st_stack out.2 root' = st_stack d root') ∧ (is_ok out.1 = false → out.2 = d).

(** What the stack store promises, for the values that pass the domain's
    constructors. *)
Class StackPromises (D : Type) `{StackPort D} := {
  sound : D → Prop;
  root_valid : path → Prop;
  spec_valid : ProcessSpec → Prop;
  change_valid : ProcessChange → Prop;
  idle_valid : option IdleStop → Prop;
  add_written : ∀ root s a now d, sound d → root_valid root → spec_valid s → written sound root d (st_add root s a now d);
  change_written : ∀ root n c a now d, sound d → change_valid c → written sound root d (st_change root n c a now d);
  change_nothing : ∀ root n c a now d ac d', sound d → change_valid c → st_change root n c a now d = (Ok ac, d') →
    ac_changed ac = false → d' = d;
  remove_written : ∀ root n a now d, sound d → written sound root d (st_remove root n a now d);
  import_written : ∀ root ss mode now d, sound d → root_valid root → Forall spec_valid ss →
    written sound root d (st_import root ss mode now d);
  idle_written : ∀ root i d, sound d → idle_valid i → written sound root d (st_set_idle root i d);
}.

Record AppliedSettings := { as_settings : Settings; as_changed : bool }.

(** [SettingsReader] and [SettingsStore], with the promise that an apply that
    says it changed nothing, or is refused, leaves the settings. *)
Class SettingsPort (S : Type) := {
  se_load : S → result Settings ConfigError;
  se_apply : SettingChange → Author → duration → S → result AppliedSettings ConfigError * S;
  apply_nothing : ∀ c a now s, (∀ applied, (se_apply c a now s).1 = Ok applied → as_changed applied = false) →
    se_load (se_apply c a now s).2 = se_load s;
}.

(** [StateChangeNotifier]. *)
Inductive Note := ProjectRegistered (root : path) | StackChanged (root : path) | SettingsChanged.

(** ** The editor *)
Section editor.
Context {D S : Type} `{StackPromises D, SettingsPort S}.

Record EditorState := { stacks : D; settings : S; notes : list Note }.

Definition wrote (st : EditorState) (d : D) (told : list Note) : EditorState :=
  {| stacks := d; settings := settings st; notes := notes st ++ told |}.

(** The registration first when it was new, then the change. *)
Definition told (root : path) (r : Registration) : list Note :=
  (if newly_registered r then [ProjectRegistered root] else []) ++ [StackChanged root].

Definition add (root : path) (draft : ProcessDraft) (author : Author) (now : duration) (st : EditorState)
    : result (Registration * ProcessSpec) ConfigError * EditorState :=
  match se_load (settings st) with
  | Err e => (Err e, st)
  | Ok loaded =>
    let spec := complete draft (process_defaults loaded) in
    match st_add root spec author now (stacks st) with
    | (Ok registration, d) => (Ok (registration, spec), wrote st d (told root registration))
    | (Err e, d) => (Err e, wrote st d [])
    end
  end.

Definition change (root : path) (n : rstr) (c : ProcessChange) (author : Author) (now : duration) (st : EditorState)
    : result AppliedChange ConfigError * EditorState :=
  match st_change root n c author now (stacks st) with
  | (Ok applied, d) => (Ok applied, wrote st d (if ac_changed applied then [StackChanged root] else []))
  | (Err e, d) => (Err e, wrote st d [])
  end.

Definition remove (root : path) (n : rstr) (author : Author) (now : duration) (st : EditorState)
    : result ProcessSpec ConfigError * EditorState :=
  match st_remove root n author now (stacks st) with
  | (Ok spec, d) => (Ok spec, wrote st d [StackChanged root])
  | (Err e, d) => (Err e, wrote st d [])
  end.

Definition import (root : path) (processes : list ProcessSpec) (mode : ImportMode) (now : duration) (st : EditorState)
    : result (Registration * ImportPlan) ConfigError * EditorState :=
  match st_import root processes mode now (stacks st) with
  | (Ok (registration, plan), d) => (Ok (registration, plan), wrote st d (told root registration))
  | (Err e, d) => (Err e, wrote st d [])
  end.

Definition set_idle_stop (root : path) (i : option IdleStop) (st : EditorState) : result Project ConfigError * EditorState :=
  match st_set_idle root i (stacks st) with
  | (Ok project, d) => (Ok project, wrote st d [StackChanged root])
  | (Err e, d) => (Err e, wrote st d [])
  end.

Definition configure (c : SettingChange) (author : Author) (now : duration) (st : EditorState)
    : result Settings ConfigError * EditorState :=
  match se_apply c author now (settings st) with
  | (Ok applied, s) =>
    (Ok (as_settings applied), {| stacks := stacks st; settings := s;
                                  notes := notes st ++ (if as_changed applied then [SettingsChanged] else []) |})
  | (Err e, s) => (Err e, {| stacks := stacks st; settings := s; notes := notes st |})
  end.

Inductive EditorOp :=
| EAdd (root : path) (draft : ProcessDraft) (author : Author) (now : duration)
| EChange (root : path) (n : rstr) (c : ProcessChange) (author : Author) (now : duration)
| ERemove (root : path) (n : rstr) (author : Author) (now : duration)
| EImport (root : path) (processes : list ProcessSpec) (mode : ImportMode) (now : duration)
| EIdleStop (root : path) (i : option IdleStop)
| EConfigure (c : SettingChange) (author : Author) (now : duration).

(** Whether an edit succeeded, and what it left. *)
Definition run_edit (op : EditorOp) (st : EditorState) : bool * EditorState :=
  match op with
  | EAdd root draft a now => let out := add root draft a now st in (is_ok out.1, out.2)
  | EChange root n c a now => let out := change root n c a now st in (is_ok out.1, out.2)
  | ERemove root n a now => let out := remove root n a now st in (is_ok out.1, out.2)
  | EImport root ss mode now => let out := import root ss mode now st in (is_ok out.1, out.2)
  | EIdleStop root i => let out := set_idle_stop root i st in (is_ok out.1, out.2)
  | EConfigure c a now => let out := configure c a now st in (is_ok out.1, out.2)
  end.

(** The edit's values pass the domain's constructors. *)
Definition edit_valid (op : EditorOp) : Prop :=
  match op with
  | EAdd root draft _ _ => root_valid root ∧ ∀ defaults, spec_valid (complete draft defaults)
  | EChange _ _ c _ _ => change_valid c
  | ERemove _ _ _ _ => True
  | EImport root ss _ _ => root_valid root ∧ Forall spec_valid ss
  | EIdleStop _ i => idle_valid i
  | EConfigure _ _ _ => True
  end.

(** What an edit told: nothing, a stack's change with the project's
    registration before it when new, or a change of the settings. *)
Definition told_ok (told : list Note) : Prop :=
  told = [] ∨ told = [SettingsChanged] ∨
  ∃ root, told = [StackChanged root] ∨ told = [ProjectRegistered root; StackChanged root].

(** What an edit left since [st]: a sound store, the notes so far and some
    more that cover everything that changed. *)
Record edited (st : EditorState) (ok : bool) (st' : EditorState) : Prop := {
  ed_sound : sound (stacks st');
  ed_notes : ∃ told, notes st' = notes st ++ told ∧ told_ok told ∧
    (ok = false → told = [] ∧ stacks st' = stacks st) ∧
    (∀ root, st_stack (stacks st') root ≠ st_stack (stacks st) root → StackChanged root ∈ told) ∧
    (se_load (settings st') ≠ se_load (settings st) → SettingsChanged ∈ told);
}.

Lemma told_ok_told root r : told_ok (told root r) ∧ StackChanged root ∈ told root r.
Proof.
  unfold told. split; [|apply elem_of_app; right; by apply list_elem_of_singleton].
  right; right. exists root. destruct (newly_registered r); [by right|by left].
Qed.

(** A stack write that succeeded and told of its root. *)
Lemma written_edited {A} st root (out : result A ConfigError * D) told ok :
  written sound root (stacks st) out → ok = is_ok out.1 →
  (ok = true → (told_ok told ∧ StackChanged root ∈ told) ∨ out.2 = stacks st ∧ told = []) → (ok = false → told = []) →
  edited st ok (wrote st out.2 told).
Proof.
  intros (Hs & Hoth & Herr) -> Hok Hno. split; [done|]. exists told. split; [done|].
  destruct out as [[a|e] d]; cbn [is_ok fst snd stacks settings wrote] in *.
  - split; [destruct (Hok eq_refl) as [[? _]|[_ ->]]; [done|by left]|]. split; [done|]. split; [|done].
    intros root' Hne. destruct (Hok eq_refl) as [[_ ?]|[-> _]]; [|done].
    destruct (decide (root' = root)) as [->|]; [done|]. by destruct Hne; apply Hoth.
  - rewrite (Hno eq_refl), Herr by done. split; [by left|]. done.
Qed.

(** Every edit tells of all it wrote. A refused edit tells
    nothing and leaves the stacks as they were; whatever stack or setting
    reads differently afterwards was told of, after it was written, a new
    project's registration before its stack's change; and a change to the
    values already stored tells nothing. Any store that keeps the promises of
    the port will do. *)
Theorem editor_tells_every_change st op ok st' :
  sound (stacks st) → edit_valid op → run_edit op st = (ok, st') → edited st ok st'.
Proof.
  intros Hsound Hval Hrun. destruct op as [root draft a now|root n c a now|root n a now|root ss mode now|root i|c a now];
    cbn [run_edit edit_valid] in *; injection Hrun as <- <-.
  - unfold add. destruct (se_load (settings st)) as [loaded|e]; cbn [fst snd is_ok].
    2: { split; [done|]. exists []. rewrite app_nil_r. split; [done|]. split; [by left|]. done. }
    destruct Hval as [Hroot Hspec]. pose proof (add_written root _ a now _ Hsound Hroot (Hspec (process_defaults loaded))) as Hw.
    destruct (st_add _ _ _ _ _) as [[r|e] d] eqn:E; cbn [fst snd is_ok].
    + apply (written_edited st root (Ok r, d)); [done|done|left; apply told_ok_told|done].
    + by apply (written_edited st root (@Err Registration _ e, d)).
  - pose proof (change_written root n c a now _ Hsound Hval) as Hw. unfold change.
    destruct (st_change _ _ _ _ _ _) as [[ac|e] d] eqn:E; cbn [fst snd is_ok].
    + apply (written_edited st root (Ok ac, d)); [done|done| |done]. intros _. destruct (ac_changed ac) eqn:Ec.
      * left. split; [right; right; exists root; by left|by apply list_elem_of_singleton].
      * right. split; [|done]. by apply (change_nothing root n c a now (stacks st) ac d).
    + by apply (written_edited st root (@Err AppliedChange _ e, d)).
  - pose proof (remove_written root n a now _ Hsound) as Hw. unfold remove.
    destruct (st_remove _ _ _ _ _) as [[s|e] d]; cbn [fst snd is_ok].
    + apply (written_edited st root (Ok s, d)); [done|done| |done]. intros _. left.
      split; [right; right; exists root; by left|by apply list_elem_of_singleton].
    + by apply (written_edited st root (@Err ProcessSpec _ e, d)).
  - destruct Hval as [Hroot Hss]. pose proof (import_written root ss mode now _ Hsound Hroot Hss) as Hw. unfold import.
    destruct (st_import _ _ _ _ _) as [[[r plan]|e] d]; cbn [fst snd is_ok].
    + apply (written_edited st root (Ok (r, plan), d)); [done|done|left; apply told_ok_told|done].
    + by apply (written_edited st root (@Err (Registration * ImportPlan) _ e, d)).
  - pose proof (idle_written root i _ Hsound Hval) as Hw. unfold set_idle_stop.
    destruct (st_set_idle _ _ _) as [[p|e] d]; cbn [fst snd is_ok].
    + apply (written_edited st root (Ok p, d)); [done|done| |done]. intros _. left.
      split; [right; right; exists root; by left|by apply list_elem_of_singleton].
    + by apply (written_edited st root (@Err Project _ e, d)).
  - pose proof (apply_nothing c a now (settings st)) as Hn. unfold configure.
    destruct (se_apply c a now (settings st)) as [[applied|e] s]; cbn [fst snd is_ok] in *; (split; [done|]).
    + exists (if as_changed applied then [SettingsChanged] else []). split; [done|].
      split; [destruct (as_changed applied); [by right; left|by left]|]. split; [done|]. split; [done|].
      intros Hne. destruct (as_changed applied) eqn:Ec; [by apply list_elem_of_singleton|]. destruct Hne. apply Hn.
      by intros ? [= <-].
    + exists []. rewrite app_nil_r. split; [done|]. split; [by left|]. split; [done|]. split; [done|].
      intros Hne. destruct Hne. by apply Hn.
Qed.
End editor.

(** ** The tables keep the promises *)
Section tables.
Context (is_format : rchar → bool) (nfc : rstr → rstr) (new_rowid : list Z → Z) (edit_text : StackEdit → rstr).
Hypothesis new_rowid_above : ∀ ids, Forall (λ i, (i < new_rowid ids)%Z) ids.
Hypothesis ascii_not_format : ∀ c, (32 <= c <= 126)%N → is_format c = false.

#[local] Instance tables_port : StackPort StackDb := {|
  st_stack := stack is_format;
  st_add := add_process is_format nfc new_rowid edit_text;
  st_change := change_process is_format nfc new_rowid edit_text;
  st_remove := remove_process is_format nfc new_rowid edit_text;
  st_import := StackStore.import is_format nfc new_rowid;
  st_set_idle := StackStore.set_idle_stop is_format;
|}.

Lemma commit_refused {A} (work : StackDb → result (A * StackDb) ConfigError) db :
  is_ok (commit work db).1 = false → (commit work db).2 = db.
Proof. unfold commit. by destruct (work db) as [[]|]. Qed.

(** A write of the tables, as the port sees it. *)
Lemma tables_written {A} w db (out : result A ConfigError * StackDb) :
  wf is_format nfc db → write_ok is_format w → out.2 = run_write is_format nfc new_rowid edit_text w db →
  (is_ok out.1 = false → out.2 = db) → written (wf is_format nfc) (write_root w) db out.
Proof.
  intros Hwf Hok Hout Herr.
  destruct (run_write_moved is_format nfc new_rowid edit_text new_rowid_above ascii_not_format w db Hwf Hok) as [H1 _ H3 _].
  rewrite <-Hout in H1, H3. split; [done|]. split; [|done]. intros root' Hne. by apply H3.
Qed.

Lemma tables_change_nothing root n c a now db ac db' :
  change_process is_format nfc new_rowid edit_text root n c a now db = (Ok ac, db') → ac_changed ac = false → db' = db.
Proof.
  unfold change_process, commit. destruct (require_project is_format db root) as [project|]; [|done].
  destruct (stack_of is_format db project) as [st|]; [|done]. destruct (require nfc st n) as [before|]; [|done].
  destruct (with_change before c) as [after|]; [|done]. case_bool_decide; [by intros [= <- <-]|].
  destruct (update_process nfc db project.1 after) as [db1|]; [|done].
  destruct (record_edit _ _ _ _ _ _) as [db2|]; [|done]. by intros [= <- <-].
Qed.

(** The SQLite store as a stack store the editor can rely on. *)
#[local] Instance tables_promises : StackPromises StackDb.
Proof.
  refine {| sound := wf is_format nfc; root_valid := λ root, is_absolute root = true; spec_valid := spec_ok is_format;
            change_valid := change_ok; idle_valid := λ i, ∀ d, i = Some (After d) → is_positive d = true |}.
  - intros root s a now db Hwf Hroot Hs.
    apply (tables_written (WAdd root s a now)); [done|done|done|apply commit_refused].
  - intros root n c a now db Hwf Hc.
    apply (tables_written (WChange root n c a now)); [done|done|done|apply commit_refused].
  - intros root n c a now db ac db' _ _. apply tables_change_nothing.
  - intros root n a now db Hwf.
    apply (tables_written (WRemove root n a now)); [done|done|done|apply commit_refused].
  - intros root ss mode now db Hwf Hroot Hss.
    apply (tables_written (WImport root ss mode now)); [done|done|done|apply commit_refused].
  - intros root i db Hwf Hi.
    apply (tables_written (WIdleStop root i)); [done|done|done|apply commit_refused].
Defined.
End tables.

(** ** Witnesses *)
Module Witness.
Import Config.Witness StackRefine.Witness.

(** Settings kept as they are: every change is refused. *)
#[local] Instance fixed_settings : SettingsPort Settings := {|
  se_load := Ok;
  se_apply c a now s := (Err EAgentEditsOff, s);
  apply_nothing c a now s _ := eq_refl;
|}.

#[local] Instance port : StackPort StackDb := tables_port no_format id rowid no_text.
#[local] Instance promises : StackPromises StackDb :=
  tables_promises no_format id rowid no_text rowid_above (λ c _, eq_refl).

Definition some_settings : Settings :=
  {| desktop_notifications := true; default_size := {| rows := 24; cols := 80 |}%N; detach_key := lit "ctrl-\";
     log_max_size := 10485760; scrollback := 1000; color_scheme := Dark; default_autostart := false;
     default_restart := Never_; default_stop_signal := Terminate; default_stop_grace := from_secs 5;
     mcp_stack_edits := Allow; idle_stop := After (from_secs 1800) |}.

Definition start : EditorState := {| stacks := empty_db; settings := some_settings; notes := [] |}.
Definition op : EditorOp := EImport root [web] Strict at_.

Lemma editor_tells_every_change_witness :
  notes (run_edit op start).2 = [ProjectRegistered root; StackChanged root] ∧
  edited start (run_edit op start).1 (run_edit op start).2.
Proof.
  split; [by vm_compute|].
  apply (editor_tells_every_change start op).
  - apply wf_empty.
  - split; [by vm_compute|]. apply Forall_cons_2; [apply web_ok|apply Forall_nil_2].
  - by destruct (run_edit op start).
Defined.
End Witness.
