(* ===== verification/Frame.v ===== *)
(** * Holder frames and messages

    Models muster-protocol/src/holder/frame.rs, frame_tag.rs, protocol.rs,
    client_message.rs and the roles and requests they carry: tagged,
    length-prefixed frames on a byte stream, and the messages a holder and its
    clients put in them. A byte is a number below 256 and a reader is the list
    of bytes it still has, closed after the last. Structured bodies are JSON
    written and read by a crate: the class [Json] states what is relied on,
    that a body reads back from what it was written as. *)
From S2P Require Import Prelude RustText Values Process.

Definition byte_ok (b : N) : Prop := (b < 256)%N.
Definition bytes_ok (bs : list N) : Prop := Forall byte_ok bs.

(** ** Big-endian integers *)

(** [to_be_bytes] of an integer of [n] bytes. *)
Fixpoint to_be_bytes (n : nat) (x : N) : list N :=
  match n with
  | O => []
  | S n => to_be_bytes n (x / 256) ++ [(x mod 256)%N]
  end.

(** [from_be_bytes]. *)
Definition from_be_bytes (bs : list N) : N := foldl (λ acc b, (acc * 256 + b)%N) 0%N bs.

(** ** Tags *)
Inductive FrameTag :=
| THello | TInput | TResize | TControl | TCollectExit | TSnapshot | TOutput | TExited | TRejected
| TWarning | TAttached | TUnlogged.

#[export] Instance FrameTag_eq_dec : EqDecision FrameTag.
Proof. solve_decision. Defined.

Definition ALL_TAGS : list FrameTag :=
  [THello; TInput; TResize; TControl; TCollectExit; TSnapshot; TOutput; TExited; TRejected; TWarning; TAttached; TUnlogged].

(** [#[repr(u8)]]. *)
Definition tag_repr (t : FrameTag) : N :=
  match t with
  | THello => 1 | TInput => 2 | TResize => 3 | TControl => 4 | TCollectExit => 5 | TSnapshot => 6
  | TOutput => 7 | TExited => 8 | TRejected => 9 | TWarning => 10 | TAttached => 11 | TUnlogged => 12
  end.

(** [FrameTag::from_repr]. *)
Definition tag_from_repr (b : N) : option FrameTag := List.find (λ t, (tag_repr t =? b)%N) ALL_TAGS.

(** ** Frames *)
Definition MAX_FRAME_BYTES : N := 16 * 1024 * 1024.
Definition HEADER_BYTES : nat := 5.

Record Frame := { tag : FrameTag; payload : list N }.

#[export] Instance Frame_eq_dec : EqDecision Frame.
Proof. solve_decision. Defined.

(** [io::ErrorKind], the kinds raised here. *)
Inductive ErrorKind := InvalidInput | InvalidData | UnexpectedEof.

(** [HolderError], the errors of speaking the protocol. *)
Inductive HolderError :=
| Io (kind : ErrorKind)
| EJson
| UnexpectedFrame (t : FrameTag)
| MalformedPayload (t : FrameTag).

Definition wire_len (f : Frame) : nat := HEADER_BYTES + length (payload f).

(** The bytes a frame is written as, or the refusal of an oversized one. *)
Definition write_frame (f : Frame) : result (list N) ErrorKind :=
  let length_ := N.of_nat (length (payload f)) in
  if (length_ <=? u32_max)%N && (length_ <=? MAX_FRAME_BYTES)%N
  then Ok (tag_repr (tag f) :: to_be_bytes 4 length_ ++ payload f)
  else Err InvalidInput.

(** Reads one frame, leaving the rest of the stream. *)
Definition read_frame (reader : list N) : result (Frame * list N) ErrorKind :=
  if length reader <? HEADER_BYTES then Err UnexpectedEof
  else
    let header := take HEADER_BYTES reader in
    let rest := drop HEADER_BYTES reader in
    match tag_from_repr (default 0%N (head header)) with
    | None => Err InvalidData
    | Some t =>
      let length_ := from_be_bytes (tail header) in
      if (MAX_FRAME_BYTES <? length_)%N then Err InvalidData
      else
        let payload := take (N.to_nat length_) rest in
        if negb (bool_decide (length payload = N.to_nat length_)) then Err UnexpectedEof
        else Ok ({| tag := t; payload := payload |}, drop (N.to_nat length_) rest)
    end.

(** [?] from an [io::Result] into a [Result<_, HolderError>]. *)
Definition from_io {A} (r : result A ErrorKind) : result A HolderError :=
  match r with Ok a => Ok a | Err k => Err (Io k) end.

(** ** Messages *)
Inductive ClientRole := Supervisor | Attach (read_only : bool).

Definition writable (r : ClientRole) : bool :=
  match r with Attach true => false | _ => true end.

Inductive HolderControl := HPause | HResume | HTerminate (signal : StopSignal) (grace : duration) | HKill.

Inductive RejectReason :=
| HelloRequired | AlreadyIntroduced | ReadOnly_ | SupervisorOnly | NotExited | ChildUnavailable | InputBacklogged.

Definition INIT_PID : N := 1.
Definition pid_try_new (pid : N) : option N := if (INIT_PID <? pid)%N then Some pid else None.

Inductive HolderMessage :=
| Snapshot (repaint : list N) (size : PtySize) (pid attached run_start log_end : N)
| Output (at_ : N) (bytes : list N)
| Unlogged (bytes : list N)
| Exited_ (outcome : ExitOutcome)
| Rejected (reason : RejectReason)
| Warning_ (text : rstr)
| Attached (count : N).

Inductive ClientMessage :=
| Hello (role : ClientRole)
| Input (bytes : list N)
| Resize (size : PtySize)
| Control (control : HolderControl)
| CollectExit.

(** ** Encoding of the parts *)
Definition SIZE_BYTES : nat := 4.
Definition PID_BYTES : nat := 4.
Definition ATTACHED_BYTES : nat := 4.
Definition OFFSET_BYTES : nat := 8.
Definition SNAPSHOT_HEADER_BYTES : nat := PID_BYTES + SIZE_BYTES + ATTACHED_BYTES + 2 * OFFSET_BYTES.

Definition encode_size (s : PtySize) : list N := to_be_bytes 2 (rows s) ++ to_be_bytes 2 (cols s).

(** A big-endian integer of exactly [n] bytes. *)
Definition decode_be (n : nat) (bs : list N) : option N :=
  if bool_decide (length bs = n) then Some (from_be_bytes bs) else None.

Definition decode_u32 (bs : list N) : option N := decode_be PID_BYTES bs.
Definition decode_offset (bs : list N) : option N := decode_be OFFSET_BYTES bs.

Definition decode_size (bs : list N) : option PtySize :=
  if bool_decide (length bs = SIZE_BYTES) then
    match PtySizeOps.try_new (from_be_bytes (take 2 bs)) (from_be_bytes (drop 2 bs)) with
    | Ok s => Some s
    | Err _ => None
    end
  else None.

(** JSON of a type: written to bytes and read back. [representable] are the
    values the Rust type has, where the model's type has more. *)
Class Json (A : Type) := {
  to_vec : A → list N;
  from_slice : list N → option A;
  representable : A → Prop;
  from_to : ∀ a, representable a → from_slice (to_vec a) = Some a;
}.

(** How an exit travels. *)
Inductive ExitCauseWire := WStatus (status : N) | WSignal (name : rstr) | WUnknown.
Inductive ExitOutcomeWire := WSucceeded | WFailed (cause : ExitCauseWire).

Definition cause_to_wire (c : ExitCause) : ExitCauseWire :=
  match c with Status s => WStatus s | Signal n => WSignal n | Unknown_ => WUnknown end.

Definition cause_from_wire (w : ExitCauseWire) : ExitCause :=
  match w with WStatus s => Status s | WSignal n => Signal n | WUnknown => Unknown_ end.

Definition outcome_to_wire (o : ExitOutcome) : ExitOutcomeWire :=
  match o with Succeeded => WSucceeded | Failed c => WFailed (cause_to_wire c) end.

Definition outcome_from_wire (w : ExitOutcomeWire) : result ExitOutcome rstr :=
  Ok match w with WSucceeded => Succeeded | WFailed c => Failed (cause_from_wire c) end.

Section messages.
Context `{Json ExitOutcomeWire, Json RejectReason, Json rstr, Json ClientRole, Json HolderControl}.

(** A holder message as its frame. *)
Definition holder_to_frame (m : HolderMessage) : Frame :=
  match m with
  | Snapshot repaint size pid attached run_start log_end =>
      {| tag := TSnapshot;
         payload := to_be_bytes 4 pid ++ encode_size size ++ to_be_bytes 4 attached ++
                    to_be_bytes 8 run_start ++ to_be_bytes 8 log_end ++ repaint |}
  | Output at_ bytes => {| tag := TOutput; payload := to_be_bytes 8 at_ ++ bytes |}
  | Unlogged bytes => {| tag := TUnlogged; payload := bytes |}
  | Exited_ outcome => {| tag := TExited; payload := to_vec (outcome_to_wire outcome) |}
  | Rejected reason => {| tag := TRejected; payload := to_vec reason |}
  | Warning_ text => {| tag := TWarning; payload := to_vec text |}
  | Attached count => {| tag := TAttached; payload := to_be_bytes 4 count |}
  end.

(** A frame as a holder message. *)
Definition holder_from_frame (f : Frame) : result HolderMessage HolderError :=
  let t := tag f in
  let payload := payload f in
  let malformed {A} (o : option A) := ok_or o (MalformedPayload t) in
  match t with
  | TSnapshot =>
    if length payload <? SNAPSHOT_HEADER_BYTES then Err (MalformedPayload t)
    else
      let repaint := drop SNAPSHOT_HEADER_BYTES payload in
      let head := take SNAPSHOT_HEADER_BYTES payload in
      let pid := take PID_BYTES head in
      let rest := drop PID_BYTES head in
      let size := take SIZE_BYTES rest in
      let rest := drop SIZE_BYTES rest in
      let attached := take ATTACHED_BYTES rest in
      let rest := drop ATTACHED_BYTES rest in
      let run_start := take OFFSET_BYTES rest in
      let log_end := drop OFFSET_BYTES rest in
      let? pid := malformed (decode_u32 pid ≫= pid_try_new) in
      let? size := malformed (decode_size size) in
      let? attached := malformed (decode_u32 attached) in
      let? run_start := malformed (decode_offset run_start) in
      let? log_end := malformed (decode_offset log_end) in
      Ok (Snapshot repaint size pid attached run_start log_end)
  | TOutput =>
    if length payload <? OFFSET_BYTES then Err (MalformedPayload t)
    else
      let? at_ := malformed (decode_offset (take OFFSET_BYTES payload)) in
      Ok (Output at_ (drop OFFSET_BYTES payload))
  | TUnlogged => Ok (Unlogged payload)
  | TExited =>
    let? w := ok_or (from_slice payload) EJson in
    match outcome_from_wire w with Ok o => Ok (Exited_ o) | Err _ => Err (MalformedPayload t) end
  | TRejected => let? r := ok_or (from_slice payload) EJson in Ok (Rejected r)
  | TWarning => let? text := ok_or (from_slice payload) EJson in Ok (Warning_ text)
  | TAttached => let? count := malformed (decode_u32 payload) in Ok (Attached count)
  | THello | TInput | TResize | TControl | TCollectExit => Err (UnexpectedFrame t)
  end.

(** A client message as its frame. *)
Definition client_to_frame (m : ClientMessage) : Frame :=
  match m with
  | Hello role => {| tag := THello; payload := to_vec role |}
  | Input bytes => {| tag := TInput; payload := bytes |}
  | Resize size => {| tag := TResize; payload := encode_size size |}
  | Control control => {| tag := TControl; payload := to_vec control |}
  | CollectExit => {| tag := TCollectExit; payload := [] |}
  end.

(** A frame as a client message. *)
Definition client_from_frame (f : Frame) : result ClientMessage HolderError :=
  let t := tag f in
  let payload := payload f in
  match t with
  | THello => let? role := ok_or (from_slice payload) EJson in Ok (Hello role)
  | TInput => Ok (Input payload)
  | TResize => let? size := ok_or (decode_size payload) (MalformedPayload t) in Ok (Resize size)
  | TControl => let? control := ok_or (from_slice payload) EJson in Ok (Control control)
  | TCollectExit => if bool_decide (payload = []) then Ok CollectExit else Err (MalformedPayload t)
  | TSnapshot | TOutput | TExited | TRejected | TWarning | TAttached | TUnlogged => Err (UnexpectedFrame t)
  end.

(** [read_from]: one frame, then the message in it. *)
Definition holder_read_from (reader : list N) : result (HolderMessage * list N) HolderError :=
  let? fr := from_io (read_frame reader) in
  let? m := holder_from_frame fr.1 in Ok (m, fr.2).

Definition client_read_from (reader : list N) : result (ClientMessage * list N) HolderError :=
  let? fr := from_io (read_frame reader) in
  let? m := client_from_frame fr.1 in Ok (m, fr.2).

(** [write_to]. *)
Definition holder_write_to (m : HolderMessage) : result (list N) HolderError := from_io (write_frame (holder_to_frame m)).
Definition client_write_to (m : ClientMessage) : result (list N) HolderError := from_io (write_frame (client_to_frame m)).
End messages.

(** ** Lemmas on frames *)
Definition u_max_of (n : nat) : N := (256 ^ N.of_nat n)%N.

Lemma length_to_be n x : length (to_be_bytes n x) = n.
Proof. revert x; induction n as [|n IH]; intros x; [done|]. simpl. rewrite length_app, IH. simpl. lia. Qed.

Lemma from_be_snoc bs b : from_be_bytes (bs ++ [b]) = (from_be_bytes bs * 256 + b)%N.
Proof. unfold from_be_bytes. by rewrite foldl_app. Qed.

Lemma from_to_be n x : (x < u_max_of n)%N → from_be_bytes (to_be_bytes n x) = x.
Proof.
  revert x; induction n as [|n IH]; intros x Hx.
  { unfold u_max_of in Hx. cbn in *. lia. }
  cbn [to_be_bytes]. rewrite from_be_snoc, IH.
  - pose proof (N.div_mod x 256). lia.
  - apply N.Div0.div_lt_upper_bound. unfold u_max_of in *. by rewrite Nat2N.inj_succ, N.pow_succ_r' in Hx.
Qed.

Lemma to_from_be bs : bytes_ok bs → to_be_bytes (length bs) (from_be_bytes bs) = bs.
Proof.
  induction bs as [|b bs IH] using rev_ind; intros Hok; [done|].
  apply Forall_app in Hok as [Hbs Hb]. apply Forall_inv in Hb. unfold byte_ok in Hb.
  rewrite length_app, Nat.add_comm. cbn [length Nat.add to_be_bytes]. rewrite from_be_snoc.
  rewrite (N.add_comm (_ * 256)), N.div_add, N.Div0.mod_add, N.div_small, N.mod_small by lia.
  by rewrite N.add_0_l, IH.
Qed.

Lemma from_be_bound bs : bytes_ok bs → (from_be_bytes bs < u_max_of (length bs))%N.
Proof.
  induction bs as [|b bs IH] using rev_ind; intros Hok; [unfold u_max_of; cbn; lia|].
  apply Forall_app in Hok as [Hbs Hb]. apply Forall_inv in Hb. unfold byte_ok in Hb.
  specialize (IH Hbs). rewrite from_be_snoc, length_app, Nat.add_comm. cbn [length Nat.add].
  unfold u_max_of in *. rewrite Nat2N.inj_succ, N.pow_succ_r'. lia.
Qed.

Lemma to_be_ok n x : bytes_ok (to_be_bytes n x).
Proof.
  revert x; induction n as [|n IH]; intros x; [constructor|]. cbn [to_be_bytes].
  apply Forall_app; split; [apply IH|]. repeat constructor. unfold byte_ok. pose proof (N.mod_lt x 256). lia.
Qed.

Lemma tag_from_repr_of t : tag_from_repr (tag_repr t) = Some t.
Proof. by destruct t. Qed.

Lemma tag_from_repr_inv b t : tag_from_repr b = Some t → tag_repr t = b.
Proof. intros E. apply List.find_some in E as [_ E]. by apply N.eqb_eq in E. Qed.

(** Reading what begins with a header: its tag byte, its length, the rest. *)
Lemma read_frame_header b l rest :
  (l < u_max_of 4)%N →
  read_frame (b :: to_be_bytes 4 l ++ rest) =
  match tag_from_repr b with
  | None => Err InvalidData
  | Some t =>
    if (MAX_FRAME_BYTES <? l)%N then Err InvalidData
    else if negb (bool_decide (length (take (N.to_nat l) rest) = N.to_nat l)) then Err UnexpectedEof
    else Ok ({| tag := t; payload := take (N.to_nat l) rest |}, drop (N.to_nat l) rest)
  end.
Proof.
  intros Hl. unfold read_frame, HEADER_BYTES.
  assert (length (b :: to_be_bytes 4 l ++ rest) <? 5 = false) as ->.
  { apply Nat.ltb_ge. cbn [length]. rewrite length_app, length_to_be. lia. }
  assert (take 5 (b :: to_be_bytes 4 l ++ rest) = b :: to_be_bytes 4 l) as ->.
  { reflexivity. }
  assert (drop 5 (b :: to_be_bytes 4 l ++ rest) = rest) as ->.
  { reflexivity. }
  cbn [head default tail]. by rewrite from_to_be.
Qed.

Lemma write_frame_inv f bs :
  write_frame f = Ok bs →
  bs = tag_repr (tag f) :: to_be_bytes 4 (N.of_nat (length (payload f))) ++ payload f ∧
  (N.of_nat (length (payload f)) <= MAX_FRAME_BYTES)%N.
Proof. unfold write_frame. destruct (_ && _) eqn:E; intros [= <-]. apply andb_true_iff in E as [_ E%N.leb_le]. done. Qed.

Lemma write_frame_ok f :
  (N.of_nat (length (payload f)) <= MAX_FRAME_BYTES)%N → ∃ bs, write_frame f = Ok bs.
Proof.
  intros Hle. unfold write_frame. rewrite (proj2 (N.leb_le _ _) Hle).
  rewrite (proj2 (N.leb_le _ u32_max)); [by eexists|]. unfold MAX_FRAME_BYTES, u32_max in *. lia.
Qed.

Lemma max_frame_u32 l : (l <= MAX_FRAME_BYTES)%N → (l < u_max_of 4)%N.
Proof. unfold MAX_FRAME_BYTES, u_max_of. cbn. lia. Qed.

(** What one side writes the other reads, and nothing past it. *)
Lemma read_write_frame f bs rest : write_frame f = Ok bs → read_frame (bs ++ rest) = Ok (f, rest).
Proof.
  intros [-> Hle]%write_frame_inv.
  rewrite <-app_comm_cons, <-app_assoc, read_frame_header by (by apply max_frame_u32).
  rewrite tag_from_repr_of, (proj2 (N.ltb_ge _ _) Hle), Nat2N.id, take_app_length, drop_app_length.
  rewrite bool_decide_eq_true_2 by done. by destruct f.
Qed.

(** A frame cut short is an end of stream, never a shorter frame. *)
Lemma read_frame_cut f bs k : write_frame f = Ok bs → k < length bs → read_frame (take k bs) = Err UnexpectedEof.
Proof.
  intros [-> Hle]%write_frame_inv Hk. cbn [length] in Hk. rewrite length_app, length_to_be in Hk.
  destruct (decide (k < 5)) as [H5|H5].
  { unfold read_frame, HEADER_BYTES. rewrite (proj2 (Nat.ltb_lt _ _)); [done|]. rewrite length_take. lia. }
  assert (∃ j, k = S (4 + j)) as [j ->] by (exists (k - 5); lia). cbn [take].
  rewrite take_app_ge, length_to_be by (rewrite length_to_be; lia).
  replace (4 + j - 4) with j by lia.
  rewrite read_frame_header by (by apply max_frame_u32).
  rewrite tag_from_repr_of, (proj2 (N.ltb_ge _ _) Hle), bool_decide_eq_false_2; [done|].
  rewrite !length_take, Nat2N.id. lia.
Qed.

(** What is read is the one frame whose bytes the stream begins with. *)
Lemma read_frame_inv r f rest :
  bytes_ok r → read_frame r = Ok (f, rest) → ∃ bs, write_frame f = Ok bs ∧ r = bs ++ rest.
Proof.
  intros Hok Hr. destruct r as [|b r]; [done|].
  apply Forall_cons in Hok as [Hb Hok].
  destruct (decide (length r < 4)) as [Hs|Hs].
  { unfold read_frame, HEADER_BYTES in Hr. rewrite (proj2 (Nat.ltb_lt _ _)) in Hr; [done|]. cbn [length]. lia. }
  rewrite <-(take_drop 4 r) in Hok, Hr |- *. apply Forall_app in Hok as [Hh Ht].
  set (h := take 4 r) in *. set (t := drop 4 r) in *.
  assert (length h = 4) as Hlen by (unfold h; rewrite length_take; lia).
  pose proof (from_be_bound h Hh) as Hbd. rewrite Hlen in Hbd.
  pose proof (to_from_be h Hh) as Hto. rewrite Hlen in Hto.
  rewrite <-Hto in Hr. rewrite read_frame_header in Hr by done.
  destruct (tag_from_repr b) as [tg|] eqn:Etag; [|done].
  destruct (MAX_FRAME_BYTES <? from_be_bytes h)%N eqn:Emax; [done|]. apply N.ltb_ge in Emax.
  destruct (bool_decide _) eqn:El; cbn [negb] in Hr; [|done]. apply bool_decide_eq_true in El.
  injection Hr as <- <-.
  set (f := {| tag := tg; payload := _ |}).
  assert (N.of_nat (length (payload f)) = from_be_bytes h) as Hpl by (cbn [payload f]; rewrite El; lia).
  destruct (write_frame_ok f) as [bs Hbs]; [lia|]. exists bs. split; [done|].
  apply write_frame_inv in Hbs as [-> _]. rewrite Hpl, Hto. cbn [tag payload f].
  rewrite (tag_from_repr_inv _ _ Etag), <-app_comm_cons, <-app_assoc, take_drop. done.
Qed.

(** ** Lemmas on messages *)
Definition size_wf (s : PtySize) : Prop := rows_ok (rows s) && cols_ok (cols s) = true.

Lemma decode_be_to_be n x : (x < u_max_of n)%N → decode_be n (to_be_bytes n x) = Some x.
Proof. intros Hx. unfold decode_be. by rewrite bool_decide_eq_true_2, from_to_be by (try apply length_to_be; done). Qed.

Lemma decode_encode_size s : size_wf s → decode_size (encode_size s) = Some s.
Proof.
  intros Hs. unfold decode_size, encode_size.
  rewrite bool_decide_eq_true_2 by (rewrite length_app, !length_to_be; done).
  rewrite take_app_le, take_ge, drop_app_ge by (rewrite length_to_be; lia).
  rewrite length_to_be, drop_0.
  pose proof Hs as [Hr Hc]%andb_true_iff. unfold rows_ok, cols_ok, MAX_ROWS, MAX_COLS in Hr, Hc.
  apply andb_true_iff in Hr as [_ Hr%N.leb_le]. apply andb_true_iff in Hc as [_ Hc%N.leb_le].
  rewrite !from_to_be.
  - unfold PtySizeOps.try_new. rewrite Hs. by destruct s.
  - unfold u_max_of. cbn. lia.
  - unfold u_max_of. cbn. lia.
Qed.

Section message_laws.
Context `{Json ExitOutcomeWire, Json RejectReason, Json rstr, Json ClientRole, Json HolderControl}.

(** The holder messages the Rust type has: machine-width numbers, a pid above
    init's, a size within the PTY bounds. *)
Definition holder_wf (m : HolderMessage) : Prop :=
  match m with
  | Snapshot _ size pid attached run_start log_end =>
    (INIT_PID < pid ∧ pid <= u32_max ∧ attached <= u32_max ∧ run_start <= u64_max ∧ log_end <= u64_max)%N ∧ size_wf size
  | Output at_ _ => (at_ <= u64_max)%N
  | Unlogged _ => True
  | Exited_ outcome => representable (outcome_to_wire outcome)
  | Rejected reason => representable reason
  | Warning_ text => representable text
  | Attached count => (count <= u32_max)%N
  end.

Definition client_wf (m : ClientMessage) : Prop :=
  match m with
  | Hello role => representable role
  | Resize size => size_wf size
  | Control control => representable control
  | Input _ | CollectExit => True
  end.

(** Its frame is no larger than a frame may be. *)
Definition fits (f : Frame) : Prop := (N.of_nat (length (payload f)) <= MAX_FRAME_BYTES)%N.

Lemma outcome_wire_round_trip o : outcome_from_wire (outcome_to_wire o) = Ok o.
Proof. by destruct o as [|[| |]]. Qed.

Lemma snapshot_round_trip repaint size pid attached run_start log_end :
  holder_wf (Snapshot repaint size pid attached run_start log_end) →
  holder_from_frame (holder_to_frame (Snapshot repaint size pid attached run_start log_end)) =
  Ok (Snapshot repaint size pid attached run_start log_end).
Proof.
  intros [(Hi & Hp & Ha & Hr & Hl) Hs].
  transitivity (
    let t := TSnapshot in
    let? pid := ok_or (decode_u32 (to_be_bytes 4 pid) ≫= pid_try_new) (MalformedPayload t) in
    let? size := ok_or (decode_size (encode_size size)) (MalformedPayload t) in
    let? attached := ok_or (decode_u32 (to_be_bytes 4 attached)) (MalformedPayload t) in
    let? run_start := ok_or (decode_offset (to_be_bytes 8 run_start)) (MalformedPayload t) in
    let? log_end := ok_or (decode_offset (to_be_bytes 8 log_end)) (MalformedPayload t) in
    Ok (Snapshot repaint size pid attached run_start log_end)); [reflexivity|].
  unfold decode_u32, decode_offset, PID_BYTES, OFFSET_BYTES.
  rewrite !decode_be_to_be by (unfold u_max_of, u32_max, u64_max in *; cbn; lia).
  rewrite decode_encode_size by done. cbn [mbind option_bind ok_or]. unfold pid_try_new.
  by rewrite (proj2 (N.ltb_lt _ _) Hi).
Qed.

Lemma holder_frame_round_trip m : holder_wf m → holder_from_frame (holder_to_frame m) = Ok m.
Proof.
  destruct m as [repaint size pid attached run_start log_end|at_ bytes|bytes|o|r|text|count].
  - apply snapshot_round_trip.
  - intros Ha. transitivity (
      let? at_ := ok_or (decode_offset (to_be_bytes 8 at_)) (MalformedPayload TOutput) in
      Ok (Output at_ bytes)); [reflexivity|].
    unfold decode_offset, OFFSET_BYTES. cbn [holder_wf] in Ha.
    rewrite decode_be_to_be by (unfold u_max_of, u64_max in *; cbn; lia). done.
  - done.
  - intros Hr. unfold holder_from_frame, holder_to_frame. cbn [tag payload].
    rewrite from_to by done. cbn [ok_or]. by rewrite outcome_wire_round_trip.
  - intros Hr. cbn. by rewrite from_to.
  - intros Hr. cbn. by rewrite from_to.
  - intros Hc. cbn [holder_wf] in Hc. unfold holder_from_frame, holder_to_frame. cbn [tag payload].
    unfold decode_u32, PID_BYTES. rewrite decode_be_to_be by (unfold u_max_of, u32_max in *; cbn; lia). done.
Qed.

Lemma client_frame_round_trip m : client_wf m → client_from_frame (client_to_frame m) = Ok m.
Proof.
  destruct m as [role|bytes|size|control|]; intros Hm; cbn [client_wf] in Hm;
    unfold client_from_frame, client_to_frame; cbn [tag payload];
    rewrite ?from_to by done; rewrite ?decode_encode_size by done; done.
Qed.

(** Reads [n] messages one after the other. *)
Fixpoint read_many {A} (read : list N → result (A * list N) HolderError) (n : nat) (r : list N)
    : result (list A * list N) HolderError :=
  match n with
  | O => Ok ([], r)
  | S n => let? (m, r) := read r in let? (ms, r) := read_many read n r in Ok (m :: ms, r)
  end.

(** The bytes of messages written one after the other. *)
Fixpoint write_many {A} (write : A → result (list N) HolderError) (ms : list A) : result (list N) HolderError :=
  match ms with
  | [] => Ok []
  | m :: ms => let? bs := write m in let? more := write_many write ms in Ok (bs ++ more)
  end.

(** A codec whose single messages round trip does so for a stream of them. *)
Lemma stream_round_trip {A} (P : A → Prop) write read :
  (∀ m rest, P m → ∃ bs, write m = Ok bs ∧ read (bs ++ rest) = Ok (m, rest)) →
  ∀ ms rest, Forall P ms →
    ∃ bs, write_many write ms = Ok bs ∧ read_many read (length ms) (bs ++ rest) = Ok (ms, rest).
Proof.
  intros Hone ms rest Hms. induction Hms as [|m ms Hm _ (bs & Hw & Hr)]; [by exists []|].
  destruct (Hone m (bs ++ rest) Hm) as (b & Hwb & Hrb).
  exists (b ++ bs). cbn [write_many read_many length]. rewrite Hwb, Hw, <-app_assoc, Hrb, Hr. done.
Qed.

Lemma holder_one m rest :
  holder_wf m ∧ fits (holder_to_frame m) →
  ∃ bs, holder_write_to m = Ok bs ∧ holder_read_from (bs ++ rest) = Ok (m, rest).
Proof.
  intros [Hm Hf]. destruct (write_frame_ok _ Hf) as [bs Hbs]. exists bs. unfold holder_write_to, holder_read_from.
  rewrite Hbs, (read_write_frame _ _ _ Hbs). split; [done|]. cbn [from_io fst snd].
  by rewrite holder_frame_round_trip.
Qed.

Lemma client_one m rest :
  client_wf m ∧ fits (client_to_frame m) →
  ∃ bs, client_write_to m = Ok bs ∧ client_read_from (bs ++ rest) = Ok (m, rest).
Proof.
  intros [Hm Hf]. destruct (write_frame_ok _ Hf) as [bs Hbs]. exists bs. unfold client_write_to, client_read_from.
  rewrite Hbs, (read_write_frame _ _ _ Hbs). split; [done|]. cbn [from_io fst snd].
  by rewrite client_frame_round_trip.
Qed.

(** C32: messages written one after the other on a stream, by a holder or by a
    client, are all accepted and read back one by one as they were, leaving
    what follows them untouched: message boundaries survive the stream, for
    every message of the protocol whose frame is at most 16 MiB. *)
Theorem message_streams_round_trip :
  (∀ ms rest, Forall (λ m, holder_wf m ∧ fits (holder_to_frame m)) ms →
     ∃ bs, write_many holder_write_to ms = Ok bs ∧
           read_many holder_read_from (length ms) (bs ++ rest) = Ok (ms, rest)) ∧
  (∀ ms rest, Forall (λ m, client_wf m ∧ fits (client_to_frame m)) ms →
     ∃ bs, write_many client_write_to ms = Ok bs ∧
           read_many client_read_from (length ms) (bs ++ rest) = Ok (ms, rest)).
Proof. split; apply stream_round_trip; [apply holder_one | apply client_one]. Qed.

(** What a decoded snapshot promises: only widths the frame carries, a pid that
    is safe to signal and a size within the PTY bounds. *)
Lemma decode_be_bound n bs x : bytes_ok bs → decode_be n bs = Some x → (x < u_max_of n)%N.
Proof. unfold decode_be. case_bool_decide as E; intros Hok [= <-]. rewrite <-E. by apply from_be_bound. Qed.

Lemma decode_size_wf bs s : decode_size bs = Some s → size_wf s.
Proof.
  unfold decode_size, PtySizeOps.try_new. case_bool_decide; [|done].
  destruct (rows_ok _ && cols_ok _) eqn:E; [|done]. by intros [= <-].
Qed.

Lemma ok_or_inv {A E} (o : option A) (e : E) a : ok_or o e = Ok a → o = Some a.
Proof. destruct o; simpl; congruence. Qed.

Lemma snapshot_frame_wf f repaint size pid attached run_start log_end :
  bytes_ok (payload f) → holder_from_frame f = Ok (Snapshot repaint size pid attached run_start log_end) →
  holder_wf (Snapshot repaint size pid attached run_start log_end).
Proof.
  intros Hok. unfold holder_from_frame. destruct f as [t p]; cbn [tag payload] in *.
  destruct t; try done.
  - destruct (length p <? _); [done|].
    repeat lazymatch goal with
      | |- match ok_or ?o _ with _ => _ end = _ → _ => destruct o eqn:?; cbn [ok_or]; [|done]
    end.
    intros [= <- -> -> -> -> ->].
    lazymatch goal with E : _ ≫= pid_try_new = Some _ |- _ => apply bind_Some in E as (q & Hq & Hpid) end.
    unfold pid_try_new in Hpid. destruct (INIT_PID <? q)%N eqn:Hi; [|done]. injection Hpid as ->.
    split; [|by eapply decode_size_wf]. apply N.ltb_lt in Hi.
    repeat match goal with E : decode_u32 _ = Some _ |- _ => apply decode_be_bound in E;
      [|by repeat first [apply Forall_take | apply Forall_drop]] end.
    repeat match goal with E : decode_offset _ = Some _ |- _ => apply decode_be_bound in E;
      [|by repeat first [apply Forall_take | apply Forall_drop]] end.
    unfold u_max_of, u32_max, u64_max, PID_BYTES, OFFSET_BYTES in *. cbn in *. lia.
  - destruct (length p <? _); [done|]. destruct (decode_offset _); done.
  - destruct (from_slice p); [|done]. cbn [ok_or]. destruct (outcome_from_wire _); done.
  - destruct (from_slice p); done.
  - destruct (from_slice p); done.
  - destruct (decode_u32 p); done.
Qed.

(** A reader takes whole frames only. What it reads is the one frame, of
    at most 16 MiB, whose bytes the stream began with; a frame cut anywhere is
    an end of stream; a tag no frame carries or a length past the cap is refused
    before any of the body is taken, and no side writes such a frame. A
    client's message is never taken for a holder's nor the reverse, and a
    snapshot or resize that is read names a pid above init's, numbers within
    their widths and a size within the PTY bounds. *)
Theorem frames_read_whole_and_checked r :
  bytes_ok r →
  (∀ f rest, read_frame r = Ok (f, rest) → fits f ∧ ∃ bs, write_frame f = Ok bs ∧ r = bs ++ rest) ∧
  (∀ f bs k, write_frame f = Ok bs → k < length bs → read_frame (take k bs) = Err UnexpectedEof) ∧
  (∀ b l rest, (l <= u32_max)%N → tag_from_repr b = None ∨ (MAX_FRAME_BYTES < l)%N →
     read_frame (b :: to_be_bytes 4 l ++ rest) = Err InvalidData) ∧
  (∀ f, ¬ fits f → write_frame f = Err InvalidInput) ∧
  (∀ m, holder_from_frame (client_to_frame m) = Err (UnexpectedFrame (tag (client_to_frame m)))) ∧
  (∀ m, client_from_frame (holder_to_frame m) = Err (UnexpectedFrame (tag (holder_to_frame m)))) ∧
  (∀ repaint size pid attached run_start log_end rest,
     holder_read_from r = Ok (Snapshot repaint size pid attached run_start log_end, rest) →
     holder_wf (Snapshot repaint size pid attached run_start log_end)) ∧
  (∀ size rest, client_read_from r = Ok (Resize size, rest) → size_wf size).
Proof.
  intros Hok. split; [|split; [apply read_frame_cut|split; [|split; [|split; [|split; [|split]]]]]].
  - intros f rest (bs & Hw & Hr)%read_frame_inv; [|done].
    split; [by apply write_frame_inv in Hw as [_ ?]|by exists bs].
  - intros b l rest Hl Hbad. rewrite read_frame_header by (unfold u_max_of, u32_max in *; cbn; lia).
    destruct Hbad as [->|Hbad]; [done|]. destruct (tag_from_repr b); [|done].
    by rewrite (proj2 (N.ltb_lt _ _) Hbad).
  - intros f Hf. unfold write_frame, fits in *. destruct (_ && _) eqn:E; [|done].
    apply andb_true_iff in E as [_ E%N.leb_le]. done.
  - by intros [].
  - by intros [].
  - intros repaint size pid attached run_start log_end rest. unfold holder_read_from.
    destruct (read_frame r) as [[f rest']|] eqn:Er; [|done]. cbn [from_io fst snd].
    destruct (holder_from_frame f) as [m|] eqn:Em; [|done]. intros [= -> ->].
    apply snapshot_frame_wf with f; [|done].
    apply read_frame_inv in Er as (bs & [-> _]%write_frame_inv & ->); [|done].
    apply Forall_app in Hok as [Hok _]. rewrite app_comm_cons in Hok. by apply Forall_app in Hok as [_ ?].
  - intros size rest. unfold client_read_from.
    destruct (read_frame r) as [[[t p] rest']|]; [|done]. unfold client_from_frame. cbn [from_io fst snd tag payload].
    destruct t; try done.
    + destruct (from_slice (A:=ClientRole) p); done.
    + destruct (decode_size p) eqn:Es; [|done]. intros [= <- _]. by eapply decode_size_wf.
    + destruct (from_slice (A:=HolderControl) p); done.
    + case_bool_decide; done.
Qed.
End message_laws.

(** ** Witnesses *)
Module Witness.
(** A small rendering of each body: a tag byte and its numbers. *)
#[local] Instance outcome_json : Json ExitOutcomeWire.
Proof.
  refine {|
  to_vec w := match w with
    | WSucceeded => [0] | WFailed (WStatus s) => [1; s] | WFailed (WSignal n) => 2 :: n | WFailed WUnknown => [3] end%N;
  from_slice bs := match bs with
    | [0] => Some WSucceeded | [1; s] => Some (WFailed (WStatus s)) | 2 :: n => Some (WFailed (WSignal n))
    | [3] => Some (WFailed WUnknown) | _ => None end%N;
  representable _ := True; from_to := _ |}.
  by intros [|[| |]] _.
Defined.

#[local] Instance reason_json : Json RejectReason.
Proof.
  refine {|
  to_vec r := [match r with HelloRequired => 0 | AlreadyIntroduced => 1 | ReadOnly_ => 2 | SupervisorOnly => 3
    | NotExited => 4 | ChildUnavailable => 5 | InputBacklogged => 6 end%N];
  from_slice bs := match bs with
    | [0] => Some HelloRequired | [1] => Some AlreadyIntroduced | [2] => Some ReadOnly_ | [3] => Some SupervisorOnly
    | [4] => Some NotExited | [5] => Some ChildUnavailable | [6] => Some InputBacklogged | _ => None end%N;
  representable _ := True; from_to := _ |}.
  by intros [] _.
Defined.

#[local] Instance text_json : Json rstr.
Proof.
  refine {|
  to_vec s := s; from_slice bs := Some bs; representable _ := True; from_to := _ |}.
  done.
Defined.

#[local] Instance role_json : Json ClientRole.
Proof.
  refine {|
  to_vec r := match r with Supervisor => [0] | Attach true => [1] | Attach false => [2] end%N;
  from_slice bs := match bs with
    | [0] => Some Supervisor | [1] => Some (Attach true) | [2] => Some (Attach false) | _ => None end%N;
  representable _ := True; from_to := _ |}.
  by intros [|[]] _.
Defined.

#[local] Instance control_json : Json HolderControl.
Proof.
  refine {|
  to_vec c := match c with HPause => [0] | HResume => [1] | HTerminate _ _ => [2] | HKill => [3] end%N;
  from_slice bs := match bs with [0] => Some HPause | [1] => Some HResume | [3] => Some HKill | _ => None end%N;
  representable c := match c with HTerminate _ _ => False | _ => True end; from_to := _ |}.
  by intros [].
Defined.

Definition ms : list HolderMessage :=
  [Snapshot [27; 91]%N {| rows := 24; cols := 80 |}%N 4242 1 0 512; Output 512 [104; 105]%N; Exited_ (Failed (Status 3))].

Lemma message_streams_round_trip_witness :
  ∃ bs, write_many holder_write_to ms = Ok bs ∧
        read_many holder_read_from (length ms) (bs ++ [7%N]) = Ok (ms, [7%N]).
Proof.
  apply (proj1 message_streams_round_trip).
  repeat apply Forall_cons_2; [..|apply Forall_nil_2];
    (split; [repeat split; vm_compute; done|vm_compute; done]).
Defined.

Lemma frames_read_whole_and_checked_witness :
  read_frame [2; 0; 0; 0; 2; 104; 105; 9]%N = Ok ({| tag := TInput; payload := [104; 105]%N |}, [9]%N) ∧
  (∃ bs, write_frame {| tag := TInput; payload := [104; 105]%N |} = Ok bs ∧ [2; 0; 0; 0; 2; 104; 105; 9]%N = bs ++ [9]%N).
Proof.
  assert (E : read_frame [2; 0; 0; 0; 2; 104; 105; 9]%N = Ok ({| tag := TInput; payload := [104; 105]%N |}, [9]%N))
    by (vm_compute; reflexivity).
  split; [exact E|].
  refine (proj2 (proj1 (frames_read_whole_and_checked [2; 0; 0; 0; 2; 104; 105; 9]%N _) _ _ E)).
  unfold bytes_ok, byte_ok. repeat apply Forall_cons_2; [..|apply Forall_nil_2]; lia.
Defined.
End Witness.
