(* ===== verification/Tap.v ===== *)
(** * The output tap of a process

    Models muster-service/src/output_tap.rs with fault_budget.rs, tap_line.rs
    and muster-terminal/src/placed_renderer.rs: the output of one process as
    lines, each with the offset it began at, kept up to a bound across runs.

    How bytes become lines (muster-terminal/src/log_renderer.rs) is behind the
    interface [LineRenderer], which Drawing.v implements; a finished line is its
    plain text. *)
From S2P Require Import Prelude RustText Values.

(** ** Rendering *)
Class LineRenderer := {
  rendering : Type;
  render_new : rendering;
  render_advance : list N → rendering → rendering;
  render_take : rendering → list rstr * rendering;
  render_peek : rendering → option rstr;
  render_width : rendering → N;
  render_finish : rendering → rendering;
  render_restart : rendering → rendering;
  render_faults : rendering → N * rendering;
}.

(** [str::len]: the bytes of a text in UTF-8. *)
Definition utf8_width (c : rchar) : N := if (c <? 128)%N then 1 else if (c <? 2048)%N then 2 else if (c <? 65536)%N then 3 else 4.
Definition utf8_len (s : rstr) : N := foldr (λ c n, utf8_width c + n)%N 0%N s.

Definition TAP_RING_BYTES : N := 256 * 1024.
Definition CHEAP_PARTIAL_CELLS : N := 1024.
Definition PARTIAL_RECHECK : duration := (100 * NANOS_PER_MILLI)%N.
Definition LINE_FEED : N := 10.
Definition END_OPEN_LINE : list N := [24; 27; 55; 13; 10]%N.
Definition RUN_START : list N := [24; 27; 55; 13; 10; 27; 99]%N.
Definition RUN_RESET_AT : N := N.of_nat (length END_OPEN_LINE).

Record TapLine := { tl_at : N; tl_text : rstr }.

(** ** Lines dropped in rendering *)
Record FaultBudget := { fb_pending : N; fb_reported : bool }.

Module Faults.

Definition new : FaultBudget := {| fb_pending := 0; fb_reported := false |}.
Definition note (dropped : N) (b : FaultBudget) : FaultBudget := {| fb_pending := fb_pending b + dropped; fb_reported := fb_reported b |}.

(** What is to be reported: once until renewed. *)
Definition take_report (b : FaultBudget) : option N * FaultBudget :=
  if (fb_pending b =? 0)%N || fb_reported b
  then (None, {| fb_pending := 0; fb_reported := fb_reported b |})
  else (Some (fb_pending b), {| fb_pending := 0; fb_reported := true |}).

Definition renew (b : FaultBudget) : FaultBudget := {| fb_pending := fb_pending b; fb_reported := false |}.
End Faults.

(** [<[u8]>::split_inclusive] at line feeds. *)
Fixpoint pieces_of (piece bytes : list N) : list (list N) :=
  match bytes with
  | [] => match piece with [] => [] | _ => [piece] end
  | b :: bytes => if (b =? LINE_FEED)%N then (piece ++ [b]) :: pieces_of [] bytes else pieces_of (piece ++ [b]) bytes
  end.
Definition split_inclusive (bytes : list N) : list (list N) := pieces_of [] bytes.

(** [windows(RUN_START.len()).rposition(...)]: the last place the marker stands. *)
Fixpoint last_run_start (i : nat) (bytes : list N) : option nat :=
  match bytes with
  | [] => None
  | _ :: rest =>
    match last_run_start (S i) rest with
    | Some j => Some j
    | None => if bool_decide (take (length RUN_START) bytes = RUN_START) then Some i else None
    end
  end.

Section tap.
Context `{LineRenderer}.

(** ** Rendering that knows its place *)
Record PlacedRenderer := { pr_renderer : rendering; pr_next : N }.

Definition placed_new (at_ : N) : PlacedRenderer := {| pr_renderer := render_new; pr_next := at_ |}.

Definition placed_advance (bytes : list N) (r : PlacedRenderer) : PlacedRenderer :=
  {| pr_renderer := render_advance bytes (pr_renderer r);
     pr_next := OutputCursor.advanced (pr_next r) (N.of_nat (length bytes)) |}.

Definition skip_to (at_ : N) (r : PlacedRenderer) : PlacedRenderer :=
  {| pr_renderer := render_restart (pr_renderer r); pr_next := N.max (pr_next r) at_ |}.

Definition placed_restart (r : PlacedRenderer) : PlacedRenderer :=
  {| pr_renderer := render_restart (pr_renderer r); pr_next := pr_next r |}.
Definition placed_finish (r : PlacedRenderer) : PlacedRenderer :=
  {| pr_renderer := render_finish (pr_renderer r); pr_next := pr_next r |}.

Definition placed_take_lines (r : PlacedRenderer) : list rstr * PlacedRenderer :=
  let '(lines, rest) := render_take (pr_renderer r) in (lines, {| pr_renderer := rest; pr_next := pr_next r |}).
Definition placed_take_faults (r : PlacedRenderer) : N * PlacedRenderer :=
  let '(n, rest) := render_faults (pr_renderer r) in (n, {| pr_renderer := rest; pr_next := pr_next r |}).

(** ** The tap *)
Record OutputTap := {
  ot_ring : list TapLine;
  ot_ring_bytes : N;
  ot_renderer : PlacedRenderer;
  ot_partial_at : N;
  ot_run_start : option N;
  ot_logged_run_start : option N;
  ot_live_faults : FaultBudget;
  ot_read_faults : FaultBudget;
  ot_placed : bool;
  ot_recheck : option N;
  ot_unlogged : option rendering;
}.

(** A tap with one field changed. *)
Definition tap_ring (f : list TapLine → list TapLine) (t : OutputTap) : OutputTap :=
  {| ot_ring := f (ot_ring t); ot_ring_bytes := ot_ring_bytes t; ot_renderer := ot_renderer t;
     ot_partial_at := ot_partial_at t; ot_run_start := ot_run_start t; ot_logged_run_start := ot_logged_run_start t;
     ot_live_faults := ot_live_faults t; ot_read_faults := ot_read_faults t; ot_placed := ot_placed t;
     ot_recheck := ot_recheck t; ot_unlogged := ot_unlogged t |}.
Definition tap_ring_bytes (f : N → N) (t : OutputTap) : OutputTap :=
  {| ot_ring := ot_ring t; ot_ring_bytes := f (ot_ring_bytes t); ot_renderer := ot_renderer t;
     ot_partial_at := ot_partial_at t; ot_run_start := ot_run_start t; ot_logged_run_start := ot_logged_run_start t;
     ot_live_faults := ot_live_faults t; ot_read_faults := ot_read_faults t; ot_placed := ot_placed t;
     ot_recheck := ot_recheck t; ot_unlogged := ot_unlogged t |}.
Definition tap_renderer (f : PlacedRenderer → PlacedRenderer) (t : OutputTap) : OutputTap :=
  {| ot_ring := ot_ring t; ot_ring_bytes := ot_ring_bytes t; ot_renderer := f (ot_renderer t);
     ot_partial_at := ot_partial_at t; ot_run_start := ot_run_start t; ot_logged_run_start := ot_logged_run_start t;
     ot_live_faults := ot_live_faults t; ot_read_faults := ot_read_faults t; ot_placed := ot_placed t;
     ot_recheck := ot_recheck t; ot_unlogged := ot_unlogged t |}.
Definition tap_partial_at (f : N → N) (t : OutputTap) : OutputTap :=
  {| ot_ring := ot_ring t; ot_ring_bytes := ot_ring_bytes t; ot_renderer := ot_renderer t;
     ot_partial_at := f (ot_partial_at t); ot_run_start := ot_run_start t;
     ot_logged_run_start := ot_logged_run_start t; ot_live_faults := ot_live_faults t;
     ot_read_faults := ot_read_faults t; ot_placed := ot_placed t; ot_recheck := ot_recheck t;
     ot_unlogged := ot_unlogged t |}.
Definition tap_run_start (f : option N → option N) (t : OutputTap) : OutputTap :=
  {| ot_ring := ot_ring t; ot_ring_bytes := ot_ring_bytes t; ot_renderer := ot_renderer t;
     ot_partial_at := ot_partial_at t; ot_run_start := f (ot_run_start t);
     ot_logged_run_start := ot_logged_run_start t; ot_live_faults := ot_live_faults t;
     ot_read_faults := ot_read_faults t; ot_placed := ot_placed t; ot_recheck := ot_recheck t;
     ot_unlogged := ot_unlogged t |}.
Definition tap_logged_run_start (f : option N → option N) (t : OutputTap) : OutputTap :=
  {| ot_ring := ot_ring t; ot_ring_bytes := ot_ring_bytes t; ot_renderer := ot_renderer t;
     ot_partial_at := ot_partial_at t; ot_run_start := ot_run_start t;
     ot_logged_run_start := f (ot_logged_run_start t); ot_live_faults := ot_live_faults t;
     ot_read_faults := ot_read_faults t; ot_placed := ot_placed t; ot_recheck := ot_recheck t;
     ot_unlogged := ot_unlogged t |}.
Definition tap_live_faults (f : FaultBudget → FaultBudget) (t : OutputTap) : OutputTap :=
  {| ot_ring := ot_ring t; ot_ring_bytes := ot_ring_bytes t; ot_renderer := ot_renderer t;
     ot_partial_at := ot_partial_at t; ot_run_start := ot_run_start t; ot_logged_run_start := ot_logged_run_start t;
     ot_live_faults := f (ot_live_faults t); ot_read_faults := ot_read_faults t; ot_placed := ot_placed t;
     ot_recheck := ot_recheck t; ot_unlogged := ot_unlogged t |}.
Definition tap_read_faults (f : FaultBudget → FaultBudget) (t : OutputTap) : OutputTap :=
  {| ot_ring := ot_ring t; ot_ring_bytes := ot_ring_bytes t; ot_renderer := ot_renderer t;
     ot_partial_at := ot_partial_at t; ot_run_start := ot_run_start t; ot_logged_run_start := ot_logged_run_start t;
     ot_live_faults := ot_live_faults t; ot_read_faults := f (ot_read_faults t); ot_placed := ot_placed t;
     ot_recheck := ot_recheck t; ot_unlogged := ot_unlogged t |}.
Definition tap_placed (f : bool → bool) (t : OutputTap) : OutputTap :=
  {| ot_ring := ot_ring t; ot_ring_bytes := ot_ring_bytes t; ot_renderer := ot_renderer t;
     ot_partial_at := ot_partial_at t; ot_run_start := ot_run_start t; ot_logged_run_start := ot_logged_run_start t;
     ot_live_faults := ot_live_faults t; ot_read_faults := ot_read_faults t; ot_placed := f (ot_placed t);
     ot_recheck := ot_recheck t; ot_unlogged := ot_unlogged t |}.
Definition tap_recheck (f : option N → option N) (t : OutputTap) : OutputTap :=
  {| ot_ring := ot_ring t; ot_ring_bytes := ot_ring_bytes t; ot_renderer := ot_renderer t;
     ot_partial_at := ot_partial_at t; ot_run_start := ot_run_start t; ot_logged_run_start := ot_logged_run_start t;
     ot_live_faults := ot_live_faults t; ot_read_faults := ot_read_faults t; ot_placed := ot_placed t;
     ot_recheck := f (ot_recheck t); ot_unlogged := ot_unlogged t |}.
Definition tap_unlogged (f : option rendering → option rendering) (t : OutputTap) : OutputTap :=
  {| ot_ring := ot_ring t; ot_ring_bytes := ot_ring_bytes t; ot_renderer := ot_renderer t;
     ot_partial_at := ot_partial_at t; ot_run_start := ot_run_start t; ot_logged_run_start := ot_logged_run_start t;
     ot_live_faults := ot_live_faults t; ot_read_faults := ot_read_faults t; ot_placed := ot_placed t;
     ot_recheck := ot_recheck t; ot_unlogged := f (ot_unlogged t) |}.

Definition tap_new (start : N) : OutputTap :=
  {| ot_ring := []; ot_ring_bytes := 0; ot_renderer := placed_new start; ot_partial_at := start; ot_run_start := None;
     ot_logged_run_start := None; ot_live_faults := Faults.new; ot_read_faults := Faults.new; ot_placed := false;
     ot_recheck := None; ot_unlogged := None |}.

Definition cursor (t : OutputTap) : N := pr_next (ot_renderer t).

(** The oldest lines go until the text kept is within the bound. *)
Fixpoint trim_ring (ring : list TapLine) (bytes : N) : list TapLine * N :=
  match ring with
  | [] => ([], bytes)
  | line :: rest => if (TAP_RING_BYTES <? bytes)%N then trim_ring rest (bytes - utf8_len (tl_text line)) else (ring, bytes)
  end.

Definition keep_line (line : TapLine) (t : OutputTap) : OutputTap :=
  let '(ring, bytes) := trim_ring (ot_ring t ++ [line]) (ot_ring_bytes t + utf8_len (tl_text line)) in
  tap_ring (λ _, ring) (tap_ring_bytes (λ _, bytes) t).

(** Keeps the lines the rendering finished, as beginning where the line being
    written began, and returns them. *)
Definition keep_finished (t : OutputTap) : list TapLine * OutputTap :=
  let '(texts, r) := placed_take_lines (ot_renderer t) in
  let lines := (λ text, {| tl_at := ot_partial_at t; tl_text := text |}) <$> texts in
  (lines, foldl (λ t line, keep_line line t) (tap_renderer (λ _, r) t) lines).

Definition forget_last_run (t : OutputTap) : OutputTap :=
  tap_unlogged (λ _, None) (tap_read_faults Faults.renew (tap_live_faults Faults.renew t)).

Definition feed_piece (acc : list TapLine * OutputTap) (piece : list N) : list TapLine * OutputTap :=
  let '(completed, t) := acc in
  let '(lines, t) := keep_finished (tap_renderer (placed_advance piece) t) in
  let t := if bool_decide (last piece = Some LINE_FEED) || negb (bool_decide (length lines = 0))
           then tap_partial_at (λ _, cursor t) t else t in
  (completed ++ lines, t).

(** Takes a chunk, at its place when the sender says so, and returns the
    lines it completed. *)
Definition feed (at_ : option N) (bytes : list N) (t : OutputTap) : list TapLine * OutputTap :=
  let t := tap_unlogged (λ _, None) t in
  let next := cursor t in
  let '(bytes, t) :=
    match at_ with
    | Some at_ =>
      if (next <? at_)%N then
        let t := (keep_finished (tap_renderer placed_finish t)).2 in
        (bytes, tap_partial_at (λ _, at_) (tap_renderer (skip_to at_) t))
      else if (at_ <? next)%N then (drop (N.to_nat (OutputCursor.bytes_since next at_)) bytes, t)
      else (bytes, t)
    | None => (bytes, t)
    end in
  foldl feed_piece ([], t) (split_inclusive bytes).

Definition seed_at (at_ : N) (bytes : list N) (t : OutputTap) : OutputTap :=
  let t := if (cursor t <=? at_)%N
           then tap_partial_at (λ _, at_) (tap_renderer (λ _, placed_new at_) (keep_finished (tap_renderer placed_finish t)).2)
           else t in
  let t := (feed (Some at_) bytes t).2 in
  tap_placed (λ _, true)
    (tap_logged_run_start (λ _, (λ i, OutputCursor.advanced at_ (N.of_nat i + RUN_RESET_AT)) <$> last_run_start 0 bytes) t).

Definition tap_begin_run (t : OutputTap) : OutputTap :=
  let t := (keep_finished (tap_renderer placed_restart t)).2 in
  let t := tap_run_start (λ _, Some (cursor t)) (tap_partial_at (λ _, cursor t) t) in
  tap_placed (λ _, true) (forget_last_run t).

Definition begin_run_at (start : N) (t : OutputTap) : OutputTap :=
  if bool_decide (ot_run_start t = Some start) then t else
  let t := if (cursor t <=? start)%N
           then tap_partial_at (λ _, start) (tap_renderer (skip_to start) (keep_finished (tap_renderer placed_finish t)).2)
           else t in
  tap_placed (λ _, true) (forget_last_run (tap_run_start (λ _, Some start) t)).

(** The line still being written. *)
Definition unfinished (t : OutputTap) : option TapLine :=
  (λ text, {| tl_at := ot_partial_at t; tl_text := text |}) <$> render_peek (pr_renderer (ot_renderer t)).

Definition unfinished_for_pattern (now : N) (t : OutputTap) : option TapLine * OutputTap :=
  if (render_width (pr_renderer (ot_renderer t)) <=? CHEAP_PARTIAL_CELLS)%N
  then (unfinished t, tap_recheck (λ _, None) t)
  else (None, tap_recheck (λ r, Some (default (now + PARTIAL_RECHECK)%N r)) t).

Definition unfinished_due (now : N) (t : OutputTap) : option TapLine * OutputTap :=
  match ot_recheck t with
  | Some due => if (now <? due)%N then (None, t) else (unfinished t, tap_recheck (λ _, None) t)
  | None => (None, t)
  end.

Definition held_from (t : OutputTap) : N := match ot_ring t with line :: _ => tl_at line | [] => ot_partial_at t end.

(** The lines that began at or after a cursor, the unfinished one last, and
    where the output held starts when the cursor is older. *)
Definition scan_from (since : N) (t : OutputTap) : list TapLine * option N :=
  (filter (λ line, (since <= tl_at line)%N) (ot_ring t) ++
   filter (λ line, (since <= tl_at line)%N) (match unfinished t with Some line => [line] | None => [] end),
   if (since <? held_from t)%N then Some (held_from t) else None).

Definition note_read_faults (dropped : N) (t : OutputTap) : OutputTap := tap_read_faults (Faults.note dropped) t.

Definition take_fault_report (t : OutputTap) : option N * OutputTap :=
  let '(n, r) := placed_take_faults (ot_renderer t) in
  let '(report, budget) := Faults.take_report (Faults.note n (ot_live_faults t)) in
  (report, tap_live_faults (λ _, budget) (tap_renderer (λ _, r) t)).

Definition take_read_fault_report (t : OutputTap) : option N * OutputTap :=
  let '(report, budget) := Faults.take_report (ot_read_faults t) in (report, tap_read_faults (λ _, budget) t).

(** Lines to test of output the log could not hold. *)
Definition feed_unlogged (bytes : list N) (t : OutputTap) : list TapLine * OutputTap :=
  let r := render_advance bytes (default render_new (ot_unlogged t)) in
  let '(lines, r) := render_take r in
  let lines := lines ++ (if (render_width r <=? CHEAP_PARTIAL_CELLS)%N then match render_peek r with Some l => [l] | None => [] end else []) in
  let '(n, r) := render_faults r in
  ((λ text, {| tl_at := cursor t; tl_text := text |}) <$> lines, note_read_faults n (tap_unlogged (λ _, Some r) t)).

(** The newest lines of the current run, oldest first. *)
Fixpoint take_while (f : TapLine → bool) (lines : list TapLine) : list TapLine :=
  match lines with [] => [] | line :: lines => if f line then line :: take_while f lines else [] end.

Definition tail_lines (count : nat) (t : OutputTap) : list rstr :=
  let start := default (default 0%N (ot_logged_run_start t)) (ot_run_start t) in
  let newest := match unfinished t with Some line => [line] | None => [] end ++
                take_while (λ line, (start <=? tl_at line)%N) (reverse (ot_ring t)) in
  reverse (tl_text <$> take count newest).
End tap.

(** * Laws *)
Section laws.
Context `{LineRenderer}.

Definition ring_text (ring : list TapLine) : N := foldr (λ line n, utf8_len (tl_text line) + n)%N 0%N ring.

Lemma ring_text_app r1 r2 : ring_text (r1 ++ r2) = (ring_text r1 + ring_text r2)%N.
Proof. unfold ring_text. induction r1 as [|l r1 IH]; cbn; [done|]. rewrite IH. lia. Qed.

(** Lines in the order they began, none past a place. *)
Definition in_order (ring : list TapLine) (upto : N) : Prop :=
  Sorted N.le (tl_at <$> ring) ∧ Forall (λ line, (tl_at line <= upto)%N) ring.

Record tap_ok (t : OutputTap) : Prop := {
  tok_bytes : ot_ring_bytes t = ring_text (ot_ring t);
  tok_bound : (ot_ring_bytes t <= TAP_RING_BYTES)%N;
  tok_order : in_order (ot_ring t) (ot_partial_at t);
  tok_partial : (ot_partial_at t <= cursor t)%N;
  tok_cursor : (cursor t <= u64_max)%N;
}.

Lemma trim_ring_spec ring bytes :
  bytes = ring_text ring →
  let '(ring', bytes') := trim_ring ring bytes in
  bytes' = ring_text ring' ∧ (bytes' <= TAP_RING_BYTES)%N ∧ ∃ dropped, ring = dropped ++ ring'.
Proof.
  revert bytes. induction ring as [|l ring IH]; intros bytes ->; cbn [trim_ring].
  { split; [done|]. split; [done|]. by exists []. }
  destruct (N.ltb_spec TAP_RING_BYTES (ring_text (l :: ring))) as [Hlt|Hge]; [|split_and!; [done|done|by exists []]].
  cbn [ring_text foldr] in *. specialize (IH (ring_text ring) eq_refl).
  replace (utf8_len (tl_text l) + foldr _ _ ring - utf8_len (tl_text l))%N with (ring_text ring) by (unfold ring_text; lia).
  destruct (trim_ring ring (ring_text ring)) as [ring' bytes']. destruct IH as (E1 & E2 & d & ->). split_and!; [done|done|by exists (l :: d)].
Qed.

Lemma in_order_suffix dropped ring upto : in_order (dropped ++ ring) upto → in_order ring upto.
Proof.
  intros [Hs Hf]. rewrite fmap_app in Hs. apply Forall_app in Hf as [_ Hf]. split; [|done].
  induction dropped as [|d dropped IH]; [done|]. apply IH. by apply Sorted_inv in Hs as [Hs _].
Qed.

Lemma in_order_snoc ring upto text : in_order ring upto → in_order (ring ++ [{| tl_at := upto; tl_text := text |}]) upto.
Proof.
  intros [Hs Hf]. split; [|apply Forall_app; split; [done|by repeat constructor]].
  rewrite fmap_app. cbn. induction ring as [|l ring IH]; [by repeat constructor|]. cbn in *.
  apply Forall_cons in Hf as [Hl Hf]. apply Sorted_inv in Hs as [Hs Hh]. constructor; [by apply IH|].
  destruct ring as [|l' ring]; cbn; constructor; [done|]. cbn in Hh. by apply HdRel_inv in Hh.
Qed.

Lemma in_order_mono ring a b : (a <= b)%N → in_order ring a → in_order ring b.
Proof. intros Hab [Hs Hf]. split; [done|]. eapply Forall_impl; [done|]. cbn. lia. Qed.

Lemma keep_line_ok text t : tap_ok t → tap_ok (keep_line {| tl_at := ot_partial_at t; tl_text := text |} t).
Proof.
  intros [Hb Hc Ho Hp Hu]. unfold keep_line. set (line := {| tl_at := ot_partial_at t; tl_text := text |}).
  assert (ot_ring_bytes t + utf8_len (tl_text line) = ring_text (ot_ring t ++ [line]))%N as E. { rewrite ring_text_app, Hb. cbn. lia. }
  pose proof (trim_ring_spec _ _ E) as Ht. destruct (trim_ring _ _) as [ring bytes]. destruct Ht as (E1 & E2 & d & Ed).
  split; cbn; try done. apply in_order_suffix with d. rewrite <-Ed. by apply in_order_snoc.
Qed.

Lemma keep_line_place text t :
  let t' := keep_line {| tl_at := ot_partial_at t; tl_text := text |} t in
  ot_renderer t' = ot_renderer t ∧ ot_partial_at t' = ot_partial_at t.
Proof. unfold keep_line. cbv zeta. by destruct (trim_ring _ _). Qed.

Lemma keep_lines_ok texts t :
  tap_ok t →
  let t' := foldl (λ t line, keep_line line t) t ((λ text, {| tl_at := ot_partial_at t; tl_text := text |}) <$> texts) in
  tap_ok t' ∧ ot_renderer t' = ot_renderer t ∧ ot_partial_at t' = ot_partial_at t.
Proof.
  cbv zeta. revert t. induction texts as [|text texts IH]; intros t Hok; [done|]. cbn [fmap list_fmap foldl].
  destruct (keep_line_place text t) as [Hr Hp]. pose proof (keep_line_ok text t Hok) as Hok'.
  set (t1 := keep_line _ t) in *. clearbody t1. rewrite <-Hp. destruct (IH t1 Hok') as (H1 & H2 & H3).
  split_and!; [done|congruence|done].
Qed.

(** A rendering that stays in its place. *)
Definition stays (f : PlacedRenderer → PlacedRenderer) : Prop := ∀ r, pr_next (f r) = pr_next r.

Lemma keep_finished_ok f t :
  stays f → tap_ok t →
  let t' := (keep_finished (tap_renderer f t)).2 in tap_ok t' ∧ cursor t' = cursor t ∧ ot_partial_at t' = ot_partial_at t.
Proof.
  intros Hf Hok. unfold keep_finished, placed_take_lines. destruct (render_take _) as [texts rest]. cbn [snd].
  set (t1 := tap_renderer (λ _, _) (tap_renderer f t)).
  assert (tap_ok t1 ∧ cursor t1 = cursor t) as [Hok1 Hc].
  { split; [|apply Hf]. destruct Hok as [Hb Hc Ho Hp Hu]. split; try done; cbn; rewrite Hf; done. }
  destruct (keep_lines_ok texts t1 Hok1) as (Hok2 & Hr & Hp). split_and!; [done| |done]. exact (eq_trans (f_equal pr_next Hr) Hc).
Qed.

Lemma finish_stays : stays placed_finish. Proof. done. Qed.
Lemma restart_stays : stays placed_restart. Proof. done. Qed.

(** A tap that goes on at a place not before its end. *)
Lemma moved_ok at_ f t :
  tap_ok t → pr_next (f (ot_renderer t)) = at_ → (cursor t <= at_ <= u64_max)%N →
  tap_ok (tap_partial_at (λ _, at_) (tap_renderer f t)).
Proof.
  intros [Hb Hc Ho Hp Hu] Hf Hat. split; cbn; try done; unfold cursor in *; cbn; try lia. eapply in_order_mono; [|done]. lia.
Qed.

Lemma advanced_bound a n : (a <= u64_max)%N → (a <= OutputCursor.advanced a n <= u64_max)%N.
Proof. unfold OutputCursor.advanced, u64_saturating_add. lia. Qed.

Lemma feed_piece_ok piece completed t :
  tap_ok t →
  let t' := (feed_piece (completed, t) piece).2 in
  tap_ok t' ∧ cursor t' = OutputCursor.advanced (cursor t) (N.of_nat (length piece)).
Proof.
  intros Hok. unfold feed_piece. set (t1 := tap_renderer (placed_advance piece) t).
  assert (tap_ok t1 ∧ cursor t1 = OutputCursor.advanced (cursor t) (N.of_nat (length piece))) as [Hok1 Hc1].
  { pose proof (advanced_bound (cursor t) (N.of_nat (length piece)) (tok_cursor _ Hok)) as Ha. destruct Hok as [Hb Hc Ho Hp Hu].
    split; [|done]. split; cbn; try done; unfold cursor in *; cbn; lia. }
  destruct (keep_finished_ok id t1) as (Hok2 & Hc2 & Hp2); [done|done|].
  replace (tap_renderer id t1) with t1 in * by done. rewrite (surjective_pairing (keep_finished t1)). cbn [snd].
  set (t2 := (keep_finished t1).2) in *. clearbody t2.
  destruct (bool_decide _ || _); [|split; [done|congruence]]. split; [|exact (eq_trans Hc2 Hc1)].
  replace (tap_partial_at (λ _, cursor t2) t2) with (tap_partial_at (λ _, cursor t2) (tap_renderer id t2)) by done.
  apply moved_ok; [done|done|]. split; [lia|apply Hok2].
Qed.

Lemma concat_pieces piece bytes : length (concat (pieces_of piece bytes)) = length piece + length bytes.
Proof.
  revert piece. induction bytes as [|b bytes IH]; intros piece; cbn [pieces_of].
  - destruct piece; [done|]. cbn. rewrite app_nil_r. lia.
  - destruct (b =? LINE_FEED)%N; cbn [concat]; rewrite ?length_app, IH, ?length_app; cbn [length]; lia.
Qed.

Lemma advanced_add a m n : (a <= u64_max)%N → OutputCursor.advanced (OutputCursor.advanced a m) n = OutputCursor.advanced a (m + n)%N.
Proof. unfold OutputCursor.advanced, u64_saturating_add. lia. Qed.

Lemma feed_pieces_ok pieces completed t :
  tap_ok t →
  let t' := (foldl feed_piece (completed, t) pieces).2 in
  tap_ok t' ∧ cursor t' = OutputCursor.advanced (cursor t) (N.of_nat (length (concat pieces))).
Proof.
  cbv zeta. revert completed t. induction pieces as [|p pieces IH]; intros completed t Hok; cbn [foldl concat].
  { split; [done|]. unfold OutputCursor.advanced, u64_saturating_add. pose proof (tok_cursor _ Hok). cbn [snd length concat]. lia. }
  destruct (feed_piece_ok p completed t Hok) as [Hok1 Hc1]. rewrite (surjective_pairing (feed_piece _ _)).
  destruct (IH (feed_piece (completed, t) p).1 _ Hok1) as [Hok2 Hc2]. split; [done|].
  rewrite Hc2, Hc1, advanced_add by apply Hok. rewrite length_app. f_equal. lia.
Qed.

Lemma unlogged_ok f t : tap_ok t → tap_ok (tap_unlogged f t).
Proof. by intros [Hb Hc Ho Hp Hu]. Qed.

(** Where a chunk leaves the tap: past all it holds, never back. *)
Lemma feed_ok at_ bytes t :
  tap_ok t → (default 0 at_ <= u64_max)%N →
  let t' := (feed at_ bytes t).2 in
  tap_ok t' ∧ cursor t' = N.max (cursor t) (N.min u64_max (default (cursor t) at_ + N.of_nat (length bytes))).
Proof.
  intros Hok Hat. unfold feed. cbv zeta. set (t0 := tap_unlogged (λ _, None) t). pose proof (unlogged_ok (λ _, None) t Hok) as Hok0. fold t0 in Hok0.
  change (cursor t) with (cursor t0) in *. clearbody t0. clear t Hok. pose proof (tok_cursor _ Hok0) as Hu.
  assert (∀ (bytes : list N) t1, tap_ok t1 → tap_ok (foldl feed_piece ([], t1) (split_inclusive bytes)).2 ∧
    cursor (foldl feed_piece ([], t1) (split_inclusive bytes)).2 = N.min u64_max (cursor t1 + N.of_nat (length bytes))) as Hfeed.
  { intros bs t1 Hok1. destruct (feed_pieces_ok (split_inclusive bs) [] t1 Hok1) as [Hok2 Hc2]. split; [done|].
    rewrite Hc2. unfold split_inclusive. rewrite concat_pieces. unfold OutputCursor.advanced, u64_saturating_add. cbn [length]. lia. }
  destruct at_ as [at_|]; cbn [default from_option id] in *.
  2: { destruct (Hfeed bytes t0 Hok0) as [H1 H2]. split; [done|]. rewrite H2. lia. }
  destruct (N.ltb_spec (cursor t0) at_) as [Hlt|Hge].
  - destruct (keep_finished_ok placed_finish t0 finish_stays Hok0) as (Hok1 & Hc1 & _).
    set (t1 := (keep_finished (tap_renderer placed_finish t0)).2) in *. clearbody t1.
    assert (pr_next (skip_to at_ (ot_renderer t1)) = at_) as Hs. { unfold cursor in *. cbn. lia. }
    destruct (Hfeed bytes (tap_partial_at (λ _, at_) (tap_renderer (skip_to at_) t1))) as [H1 H2]; [apply moved_ok; [done|done|lia]|].
    split; [done|]. rewrite H2. change (cursor (tap_partial_at _ _)) with (pr_next (skip_to at_ (ot_renderer t1))). rewrite Hs. lia.
  - destruct (N.ltb_spec at_ (cursor t0)).
    + destruct (Hfeed (drop (N.to_nat (OutputCursor.bytes_since (cursor t0) at_)) bytes) t0 Hok0) as [H1 H2]. split; [done|].
      rewrite H2, length_drop. unfold OutputCursor.bytes_since, saturating_sub. lia.
    + destruct (Hfeed bytes t0 Hok0) as [H1 H2]. split; [done|]. rewrite H2. lia.
Qed.

(** What a service does with a tap. *)
Inductive TapOp :=
| TFeed (at_ : option N) (bytes : list N)
| TSeed (at_ : N) (bytes : list N)
| TBeginRun
| TBeginRunAt (start : N)
| TFeedUnlogged (bytes : list N)
| TForPattern (now : N)
| TDue (now : N)
| TNoteReadFaults (dropped : N)
| TFaultReport
| TReadFaultReport.

Definition tap_step (t : OutputTap) (op : TapOp) : OutputTap :=
  match op with
  | TFeed at_ bytes => (feed at_ bytes t).2
  | TSeed at_ bytes => seed_at at_ bytes t
  | TBeginRun => tap_begin_run t
  | TBeginRunAt start => begin_run_at start t
  | TFeedUnlogged bytes => (feed_unlogged bytes t).2
  | TForPattern now => (unfinished_for_pattern now t).2
  | TDue now => (unfinished_due now t).2
  | TNoteReadFaults dropped => note_read_faults dropped t
  | TFaultReport => (take_fault_report t).2
  | TReadFaultReport => (take_read_fault_report t).2
  end.

(** Offsets are [u64]s. *)
Definition placed_op (op : TapOp) : Prop :=
  match op with TFeed (Some at_) _ | TSeed at_ _ | TBeginRunAt at_ => (at_ <= u64_max)%N | _ => True end.

(** A tap whose lines and place are the same. *)
Lemma same_place_ok t t' :
  ot_ring t' = ot_ring t → ot_ring_bytes t' = ot_ring_bytes t → ot_partial_at t' = ot_partial_at t → cursor t' = cursor t → tap_ok t → tap_ok t'.
Proof. intros E1 E2 E3 E4 [Hb Hc Ho Hp Hu]. split; rewrite ?E1, ?E2, ?E3, ?E4; done. Qed.

Lemma placed_at_ok at_ (f : PlacedRenderer → PlacedRenderer) t :
  tap_ok t → (∀ r, (pr_next r <= at_)%N → pr_next (f r) = at_) → (cursor t <= at_ <= u64_max)%N →
  let t' := tap_partial_at (λ _, at_) (tap_renderer f (keep_finished (tap_renderer placed_finish t)).2) in
  tap_ok t' ∧ cursor t' = at_.
Proof.
  intros Hok Hf Hat. cbv zeta. destruct (keep_finished_ok placed_finish t finish_stays Hok) as (Hok1 & Hc1 & _).
  set (t1 := (keep_finished (tap_renderer placed_finish t)).2) in *. clearbody t1. unfold cursor in *.
  assert (pr_next (f (ot_renderer t1)) = at_) as Hn by (apply Hf; lia). split; [|done]. apply moved_ok; [done|done|unfold cursor; lia].
Qed.

Lemma tap_step_ok op t : placed_op op → tap_ok t → tap_ok (tap_step t op) ∧ (cursor t <= cursor (tap_step t op))%N.
Proof.
  intros Hop Hok. destruct op as [at_ bytes|at_ bytes| |start|bytes|now|now|n| |]; cbn [tap_step].
  - destruct (feed_ok at_ bytes t Hok) as [H1 H2]; [destruct at_; [exact Hop|cbn; unfold u64_max; lia]|]. split; [done|]. rewrite H2. lia.
  - unfold seed_at. set (t1 := if (cursor t <=? at_)%N then _ else t).
    assert (tap_ok t1 ∧ (cursor t <= cursor t1)%N) as [Hok1 Hc1].
    { unfold t1. destruct (N.leb_spec (cursor t) at_); [|done].
      destruct (placed_at_ok at_ (λ _, placed_new at_) t Hok) as [H1 H2]; [done|by cbn in Hop; lia|]. split; [done|]. rewrite H2. done. }
    destruct (feed_ok (Some at_) bytes t1 Hok1 Hop) as [H1 H2]. set (t2 := (feed (Some at_) bytes t1).2) in *. clearbody t2.
    split; [by apply (same_place_ok t2)|]. change (cursor (tap_placed _ _)) with (cursor t2). rewrite H2. lia.
  - unfold tap_begin_run. destruct (keep_finished_ok placed_restart t restart_stays Hok) as (H1 & H2 & _).
    set (t1 := (keep_finished (tap_renderer placed_restart t)).2) in *. clearbody t1. split; [|change (cursor t <= cursor t1)%N; lia].
    apply (same_place_ok (tap_partial_at (λ _, cursor t1) (tap_renderer id t1))); try done.
    apply moved_ok; [done|done|]. pose proof (tok_cursor _ H1). lia.
  - unfold begin_run_at. destruct (bool_decide _); [done|]. cbv zeta. set (t1 := if (cursor t <=? start)%N then _ else t).
    assert (tap_ok t1 ∧ (cursor t <= cursor t1)%N) as [Hok1 Hc1].
    { unfold t1. destruct (N.leb_spec (cursor t) start); [|done].
      destruct (placed_at_ok start (skip_to start) t Hok) as [H1 H2]; [cbn; lia|cbn in Hop; lia|]. split; [done|]. rewrite H2. done. }
    clearbody t1. split; [by apply (same_place_ok t1)|done].
  - unfold feed_unlogged. destruct (render_take _) as [lines r]. destruct (render_faults _) as [n r']. by split; [apply (same_place_ok t)|].
  - unfold unfinished_for_pattern. destruct (_ <=? _)%N; by split; [apply (same_place_ok t)|].
  - unfold unfinished_due. destruct (ot_recheck t); [|done]. destruct (_ <? _)%N; [done|]. by split; [apply (same_place_ok t)|].
  - by split; [apply (same_place_ok t)|].
  - unfold take_fault_report, placed_take_faults. destruct (render_faults _) as [n r]. rewrite (surjective_pairing (Faults.take_report _)). cbn [snd].
    by split; [apply (same_place_ok t)|].
  - unfold take_read_fault_report. rewrite (surjective_pairing (Faults.take_report _)). cbn [snd]. by split; [apply (same_place_ok t)|].
Qed.

Lemma tap_new_ok start : (start <= u64_max)%N → tap_ok (tap_new start).
Proof. intros Hs. split; cbn; try done. Qed.

Lemma tap_run_ok ops t : Forall placed_op ops → tap_ok t → tap_ok (foldl tap_step t ops) ∧ (cursor t <= cursor (foldl tap_step t ops))%N.
Proof.
  revert t. induction ops as [|op ops IH]; intros t Hops Hok; [done|]. apply Forall_cons in Hops as [Hop Hops]. cbn [foldl].
  destruct (tap_step_ok op t Hop Hok) as [Hok1 Hc1]. destruct (IH _ Hops Hok1) as [Hok2 Hc2]. split; [done|lia].
Qed.

(** Whatever a service feeds a tap, live chunks, replays that overlap or
    leave gaps, seeded logs and new runs, in any order, the place of the next
    byte never moves back, the lines kept stand in the order they began with
    none past the line being written, and their text is at most 256 KiB, as
    counted. *)
Theorem tap_keeps_place start before after :
  (start <= u64_max)%N → Forall placed_op (before ++ after) →
  let t := foldl tap_step (tap_new start) before in
  let t' := foldl tap_step t after in
  (cursor t <= cursor t')%N ∧ Sorted N.le (tl_at <$> ot_ring t') ∧
  Forall (λ line, (tl_at line <= ot_partial_at t')%N) (ot_ring t') ∧ (ot_partial_at t' <= cursor t')%N ∧
  ot_ring_bytes t' = ring_text (ot_ring t') ∧ (ring_text (ot_ring t') <= TAP_RING_BYTES)%N.
Proof.
  intros Hs [Hb Ha]%Forall_app. cbv zeta. destruct (tap_run_ok before (tap_new start) Hb (tap_new_ok start Hs)) as [Hok _].
  destruct (tap_run_ok after _ Ha Hok) as [Hok' Hc]. destruct (tok_order _ Hok') as [Hso Hfo].
  split_and!; [done|done|done|apply Hok'|apply Hok'|]. rewrite <-(tok_bytes _ Hok'). apply (tok_bound _ Hok').
Qed.

(** A chunk that says where its first byte is leaves the tap past its
    last byte, or where it already stood: bytes seen before are not rendered
    again, so replaying a chunk, or feeding one again from an earlier place,
    renders nothing. *)
Theorem replayed_chunk_renders_nothing start ops at_ bytes :
  (start <= u64_max)%N → Forall placed_op ops → (at_ <= u64_max)%N →
  let t := foldl tap_step (tap_new start) ops in
  cursor (feed (Some at_) bytes t).2 = N.max (cursor t) (N.min u64_max (at_ + N.of_nat (length bytes))) ∧
  ((at_ + N.of_nat (length bytes) <= cursor t)%N → feed (Some at_) bytes t = ([], tap_unlogged (λ _, None) t)).
Proof.
  intros Hs Hops Hat. cbv zeta. destruct (tap_run_ok ops (tap_new start) Hops (tap_new_ok start Hs)) as [Hok _].
  set (t := foldl _ _ ops) in *. clearbody t. split; [by apply (feed_ok (Some at_) bytes t Hok)|].
  intros Hle. unfold feed. change (cursor (tap_unlogged _ t)) with (cursor t).
  destruct (N.ltb_spec (cursor t) at_) as [Hlt|_]; [lia|].
  destruct (N.ltb_spec at_ (cursor t)) as [Hlt|Hge].
  - rewrite drop_ge; [done|]. unfold OutputCursor.bytes_since, saturating_sub. lia.
  - destruct bytes as [|b bytes]; [done|]. cbn [length] in Hle. lia.
Qed.
End laws.

(** ** Witnesses *)
Module Witness.

(** Lines end at line feeds; bytes are their own characters. *)
#[local] Instance plain_lines : LineRenderer := {|
  rendering := list rstr * rstr;
  render_new := ([], []);
  render_advance := λ bytes r,
    foldl (λ r b, if (b =? LINE_FEED)%N then (r.1 ++ [r.2], []) else (r.1, r.2 ++ [b])) r bytes;
  render_take := λ r, (r.1, ([], r.2));
  render_peek := λ r, match r.2 with [] => None | text => Some text end;
  render_width := λ r, N.of_nat (length r.2);
  render_finish := λ r, match r.2 with [] => r | text => (r.1 ++ [text], []) end;
  render_restart := λ r, (r.1, []);
  render_faults := λ r, (0%N, r);
|}.

Definition two_chunks : list TapOp := [TBeginRun; TFeed (Some 0%N) [104; 105; 10; 62]%N].

Lemma tap_keeps_place_witness :
  (cursor (foldl tap_step (tap_new 0) two_chunks) <=
   cursor (foldl tap_step (foldl tap_step (tap_new 0) two_chunks) [TSeed 9 [120; 10]%N]))%N.
Proof.
  apply (tap_keeps_place 0 two_chunks [TSeed 9 [120; 10]%N]); [by vm_compute|]. by repeat constructor.
Defined.

Lemma replayed_chunk_renders_nothing_witness :
  tl_text <$> ot_ring (foldl tap_step (tap_new 0) two_chunks) = [[104; 105]%N] ∧
  (feed (Some 0%N) [104; 105; 10]%N (foldl tap_step (tap_new 0) two_chunks)).1 = [].
Proof.
  split; [by vm_compute|].
  destruct (replayed_chunk_renders_nothing 0 two_chunks 0 [104; 105; 10]%N) as [_ Hr]; [by vm_compute|by repeat constructor|by vm_compute|].
  rewrite Hr; [done|]. by vm_compute.
Defined.
End Witness.
