(* ===== verification/WaitData.v ===== *)
(** * Waits on a process

    The data of waits in muster-service and muster-protocol: what a wait asks
    (service/wait_condition.rs, wait_spec.rs), which runs it counts
    (run_pin.rs), a wait prepared, registered (waiter.rs) or held on a read of
    its process's log (supervisor/held_wait.rs, held_scan.rs, held_answer.rs),
    what a log read is asked and brings back, a run's readiness
    (supervisor/run_readiness.rs) and the answer a caller gets
    (service/wait_outcome.rs). A reply channel is the number it was made
    under. A compiled matcher is the pattern it was compiled from. *)
From S2P Require Import Prelude RustText Values Process Tap.

(** ** What is waited for *)
Inductive WaitCondition :=
| UntilLog (pattern : LogPattern)
| UntilPort (port : N)
| UntilHttp (url : rstr) (status : option N)
| UntilState (goal : StateGoal)
| UntilReady.

#[export] Instance StateGoal_eq_dec : EqDecision StateGoal.
Proof. solve_decision. Defined.
#[export] Instance WaitStatus_eq_dec : EqDecision WaitStatus.
Proof. solve_decision. Defined.
#[export] Instance WaitCondition_eq_dec : EqDecision WaitCondition.
Proof. solve_decision. Defined.

Definition default_for (has_ready_check : bool) : WaitCondition := if has_ready_check then UntilReady else UntilState GRunning.

Record WaitSpec := { ws_until : option WaitCondition; ws_since : option N; ws_timeout : duration }.

(** The port or URL a condition probes. *)
Inductive ProbeTarget := ProbePort (port : N) | ProbeHttp (url : rstr) (status : option N).

#[export] Instance ProbeTarget_eq_dec : EqDecision ProbeTarget.
Proof. solve_decision. Defined.

Definition probe_of (c : WaitCondition) : option ProbeTarget :=
  match c with
  | UntilPort port => Some (ProbePort port)
  | UntilHttp url status => Some (ProbeHttp url status)
  | _ => None
  end.

(** The pattern of a log condition. *)
Definition log_pattern_of (c : WaitCondition) : option LogPattern := match c with UntilLog p => Some p | _ => None end.

(** ** Which runs count *)
Inductive RunPin := PinFrom (generation : N) | PinAfter (generation : N).

Definition counts (p : RunPin) (generation : N) : bool :=
  match p with PinFrom from => (from <=? generation)%N | PinAfter after => (after <? generation)%N end.
Definition is_fresh (p : RunPin) : bool := match p with PinAfter _ => true | PinFrom _ => false end.

(** ** Answers *)
Record MatchedLine := { ml_at : N; ml_line : rstr }.

Record WaitOutcome := {
  wo_process : rstr;
  wo_status : WaitStatus;
  wo_until : WaitCondition;
  wo_matched : option MatchedLine;
  wo_cursor : N;
  wo_elapsed : duration;
  wo_tail : list rstr;
  wo_scanned_from : option N;
  wo_already_running : bool;
}.

Definition with_tail (tail : list rstr) (o : WaitOutcome) : WaitOutcome :=
  {| wo_process := wo_process o; wo_status := wo_status o; wo_until := wo_until o; wo_matched := wo_matched o;
     wo_cursor := wo_cursor o; wo_elapsed := wo_elapsed o; wo_tail := tail; wo_scanned_from := wo_scanned_from o;
     wo_already_running := wo_already_running o |}.

Definition FAILURE_TAIL_LINES : nat := 30.
Definition QUICK_EXIT_WINDOW : duration := (500 * NANOS_PER_MILLI)%N.
Definition LOG_TAIL_TIMEOUT : duration := from_secs 5.

(** Where an answer goes: its caller, or a slot of a batch. *)
Inductive WaitReply := Direct (reply : N) | Batch (group : N) (slot : nat).

(** ** Waits *)
Record PreparedWait := {
  pw_pane : N;
  pw_process : rstr;
  pw_until : WaitCondition;
  pw_matcher : option LogPattern;
  pw_since : option N;
  pw_timeout : duration;
  pw_asked : N;
  pw_already_running : bool;
}.

Definition on_a_running_process (p : PreparedWait) : PreparedWait :=
  {| pw_pane := pw_pane p; pw_process := pw_process p; pw_until := pw_until p; pw_matcher := pw_matcher p;
     pw_since := pw_since p; pw_timeout := pw_timeout p; pw_asked := pw_asked p; pw_already_running := true |}.

Record Waiter := {
  wt_pane : N;
  wt_process : rstr;
  wt_until : WaitCondition;
  wt_matcher : option LogPattern;
  wt_pin : RunPin;
  wt_started : N;
  wt_deadline : N;
  wt_reply : WaitReply;
  wt_scanned_from : option N;
  wt_since : option N;
  wt_already_running : bool;
}.

(** ** Reads of a log *)
Record LogTail := { lt_at : N; lt_bytes : list N }.
Record LogScan := { ls_from : N; ls_matched : option TapLine; ls_unrendered : N }.
Record LogLines := { ll_lines : list rstr; ll_unrendered : N }.

Inductive LogAsk :=
| AskScan (since until : N) (matcher : LogPattern)
| AskLines (from until : N) (count : nat).

Inductive LogAnswer := AnswerScan (s : LogScan) | AnswerLines (l : LogLines).

Definition unrendered_lines (a : LogAnswer) : N :=
  match a with AnswerScan s => ls_unrendered s | AnswerLines l => ll_unrendered l end.

Record LogReadJob := { lj_end : bool; lj_asks : list (N * LogAsk) }.
Record LogReadResult := { lr_tail : option LogTail; lr_answers : gmap N LogAnswer }.
Record PendingRead := { pd_id : N; pd_end : bool }.

Record HeldScan := { hs_until : N; hs_pin : RunPin; hs_ended : option WaitStatus; hs_found : option LogScan }.

Record HeldWait := {
  hw_prepared : PreparedWait;
  hw_after : option N;
  hw_reply : N;
  hw_deadline : N;
  hw_key : N;
  hw_scan : option HeldScan;
  hw_adopting : option N;
  hw_timed_out : option N;
  hw_read : option N;
}.

Record HeldAnswer := {
  ha_pane : N;
  ha_key : N;
  ha_outcome : WaitOutcome;
  ha_reply : WaitReply;
  ha_from : N;
  ha_until : N;
  ha_deadline : N;
  ha_read : option N;
}.

(** The scan of the log a wait asks, when it has a cursor and a pattern. *)
Definition scan_ask (p : PreparedWait) (until : N) : option LogAsk :=
  pw_since p ≫= λ since, (λ matcher, AskScan since until matcher) <$> pw_matcher p.

(** ** Readiness *)
Record RunReadiness := {
  rr_state : Readiness;
  rr_check : ReadyCheck;
  rr_since : N;
  rr_deadline : N;
  rr_matcher : option LogPattern;
}.

Definition readiness_probe (r : RunReadiness) : option ProbeTarget :=
  match probe (rr_check r) with
  | PLog _ => None
  | PPort port => Some (ProbePort port)
  | PHttp url => Some (ProbeHttp url None)
  end.

Definition settle_readiness (state : Readiness) (r : RunReadiness) : RunReadiness :=
  {| rr_state := state; rr_check := rr_check r; rr_since := rr_since r; rr_deadline := rr_deadline r; rr_matcher := None |}.

(** How a wait ends with its run. *)
Definition ended_status (until : WaitCondition) (status : WaitStatus) (next : ProcessState) : WaitStatus :=
  match until with
  | UntilState goal => if reached goal next then WMatched else status
  | _ => status
  end.

Definition matched_line (line : TapLine) : MatchedLine := {| ml_at := tl_at line; ml_line := tl_text line |}.
