(* ===== verification/LogFile.v ===== *)
(** * A process's log on disk

    Models muster-protocol/src/holder/log.rs with log_base.rs, generation.rs
    and resolved.rs: the log a holder appends its process's output to, its one
    older generation, and the sidecar that places the live file in the output
    stream across rotations and runs.

    The disk holds files by inode and the three names of one log. Each call on
    it is answered by [Io]: any may fail, and a failed write may have taken part
    of its bytes. The writer keeps, besides the disk, two records the code does
    not: the whole output stream the log ever took, and every state the disk
    was in, with the stream then, so a holder that dies anywhere and a reader
    that looks anywhere are states of that history. A file grows byte by byte. *)
From S2P Require Import Prelude RustText Values Tap.

Definition MAX_OPEN_LINE_OVERRUN : N := 64 * 1024.
Definition FIELD_SEPARATOR : rchar := 32.

(** ** Where the live file starts *)
Record Generation := { gn_inode : N; gn_len : N }.
Record LogBase := { lb_offset : N; lb_inode : N }.
Record Resolved := { rs_offset : N; rs_exact : bool }.

(** The sidecar's text, and how it is read. *)
Definition base_text (b : LogBase) : rstr := print_dec (lb_offset b) ++ [FIELD_SEPARATOR] ++ print_dec (lb_inode b) ++ [LINE_FEED].
Definition parse_base (text : rstr) : option LogBase :=
  match split_once FIELD_SEPARATOR (trim text) with
  | None => None
  | Some (offset, inode) =>
    match parse_uint u64_max offset, parse_uint u64_max inode with
    | Some offset, Some inode => Some {| lb_offset := offset; lb_inode := inode |}
    | _, _ => None
    end
  end.

Definition is_of (b : LogBase) (g : option Generation) : bool := match g with Some g => (gn_inode g =? lb_inode b)%N | None => false end.

Definition resolve (sidecar : option LogBase) (live rotated : option Generation) : Resolved :=
  let rotated_len := match rotated with Some g => gn_len g | None => 0%N end in
  match sidecar with
  | None => {| rs_offset := rotated_len; rs_exact := true |}
  | Some b =>
    if is_of b live then {| rs_offset := lb_offset b; rs_exact := true |}
    else if is_of b rotated then {| rs_offset := u64_saturating_add (lb_offset b) rotated_len; rs_exact := true |}
    else {| rs_offset := lb_offset b; rs_exact := false |}
  end.

(** ** The disk *)
Record Disk := {
  dk_files : gmap N (list N);
  dk_live : option N;
  dk_rotated : option N;
  dk_base : option rstr;
}.

Definition bytes_at (d : Disk) (name : option N) : list N := default [] (name ≫= λ i, dk_files d !! i).
Definition generation_at (d : Disk) (name : option N) : option Generation :=
  match name with
  | None => None
  | Some i => (λ f, {| gn_inode := i; gn_len := N.of_nat (length f) |}) <$> dk_files d !! i
  end.
Definition read_base (d : Disk) : option LogBase := dk_base d ≫= parse_base.
Definition resolved (d : Disk) : Resolved := resolve (read_base d) (generation_at d (dk_live d)) (generation_at d (dk_rotated d)).

Definition on_files (f : gmap N (list N) → gmap N (list N)) (d : Disk) : Disk :=
  {| dk_files := f (dk_files d); dk_live := dk_live d; dk_rotated := dk_rotated d; dk_base := dk_base d |}.
Definition grow (h : N) (more : list N) : Disk → Disk := on_files (alter (λ f, f ++ more) h).
Definition name_live (i : N) (d : Disk) : Disk :=
  {| dk_files := <[i := []]> (dk_files d); dk_live := Some i; dk_rotated := dk_rotated d; dk_base := dk_base d |}.
(** The live file takes the rotated name; the file that had it is gone. *)
Definition renamed (i : N) (d : Disk) : Disk :=
  {| dk_files := match dk_rotated d with Some r => delete r (dk_files d) | None => dk_files d end;
     dk_live := None; dk_rotated := Some i; dk_base := dk_base d |}.
Definition put_base (b : LogBase) (d : Disk) : Disk :=
  {| dk_files := dk_files d; dk_live := dk_live d; dk_rotated := dk_rotated d; dk_base := Some (base_text b) |}.

(** How the system answers the calls on it, by how many were made: a step that
    prepares or inspects, an inspection of an open file, how much a write that
    fails takes, a rename, the inode a created file is given, the sidecar. *)
Record Io := {
  io_allows : nat → bool;
  io_stats : nat → bool;
  io_takes : nat → option nat;
  io_renames : nat → bool;
  io_opens : nat → option N;
  io_records : nat → bool;
}.

Record Writer := {
  wr_disk : Disk;
  wr_calls : nat;
  wr_stream : list N;
  wr_seen : list (Disk * list N);
}.

Definition call (f : Disk → Disk) (more : list N) (w : Writer) : Writer :=
  {| wr_disk := f (wr_disk w); wr_calls := S (wr_calls w); wr_stream := wr_stream w ++ more;
     wr_seen := (wr_disk w, wr_stream w) :: wr_seen w |}.
Definition ask (w : Writer) : Writer := call id [] w.

Section log.
Context (io : Io).

Definition write_bytes (h : N) (bytes : list N) (w : Writer) : Writer := foldl (λ w b, call (grow h [b]) [b] w) w bytes.

Definition write_all (h : N) (bytes : list N) (w : Writer) : result unit unit * Writer :=
  match bytes, io_takes io (wr_calls w) with
  | [], _ => (Ok tt, w)
  | _, None => (Ok tt, write_bytes h bytes (ask w))
  | _, Some k => (Err tt, write_bytes h (take k bytes) (ask w))
  end.

Definition allowed (w : Writer) : result unit unit * Writer := (if io_allows io (wr_calls w) then Ok tt else Err tt, ask w).

(** ** The log *)
Record RotatingLog := {
  lg_inode : N;
  lg_written : N;
  lg_base : N;
  lg_cap : N;
  lg_run_start : N;
  lg_ends_line : bool;
}.

Definition lg_on_written (f : N → N) (l : RotatingLog) : RotatingLog :=
  {| lg_inode := lg_inode l; lg_written := f (lg_written l); lg_base := lg_base l; lg_cap := lg_cap l; lg_run_start := lg_run_start l;
     lg_ends_line := lg_ends_line l |}.
Definition lg_on_ends_line (f : bool → bool) (l : RotatingLog) : RotatingLog :=
  {| lg_inode := lg_inode l; lg_written := lg_written l; lg_base := lg_base l; lg_cap := lg_cap l; lg_run_start := lg_run_start l;
     lg_ends_line := f (lg_ends_line l) |}.
Definition lg_on_run_start (f : N → N) (l : RotatingLog) : RotatingLog :=
  {| lg_inode := lg_inode l; lg_written := lg_written l; lg_base := lg_base l; lg_cap := lg_cap l; lg_run_start := f (lg_run_start l);
     lg_ends_line := lg_ends_line l |}.
(** The log over a fresh live file where the last one ended. *)
Definition lg_restart (i : N) (l : RotatingLog) : RotatingLog :=
  {| lg_inode := i; lg_written := 0; lg_base := u64_saturating_add (lg_base l) (lg_written l); lg_cap := lg_cap l; lg_run_start := lg_run_start l;
     lg_ends_line := true |}.

Notation Logging := (RotatingLog * Writer)%type.

Definition and_then (m k : Logging → result unit unit * Logging) (lw : Logging) : result unit unit * Logging :=
  match m lw with (Ok _, lw) => k lw | (Err e, lw) => (Err e, lw) end.

(** Whether the file the live name names ends a line, [len] bytes long. *)
Definition ends_line (len : N) (w : Writer) : bool * Writer :=
  if (len =? 0)%N then (true, w) else
  (io_allows io (wr_calls w) &&
     match bytes_at (wr_disk w) (dk_live (wr_disk w)) !! N.to_nat (len - 1) with Some b => (b =? LINE_FEED)%N | None => false end, ask w).

(** Opens the live name for appending; a file created gets an inode not in use. *)
Definition append_to (w : Writer) : result N unit * Writer :=
  match io_opens io (wr_calls w) with
  | None => (Err tt, ask w)
  | Some i =>
    match dk_live (wr_disk w) with
    | Some live => (Ok live, ask w)
    | None => if bool_decide (dk_files (wr_disk w) !! i = None) && (i <=? u64_max)%N then (Ok i, call (name_live i) [] w) else (Err tt, ask w)
    end
  end.

Definition record_base (lw : Logging) : result unit unit * Logging :=
  let '(l, w) := lw in
  if io_records io (wr_calls w) then (Ok tt, (l, call (put_base {| lb_offset := lg_base l; lb_inode := lg_inode l |}) [] w)) else (Err tt, (l, ask w)).

Definition rotate (lw : Logging) : result unit unit * Logging :=
  let '(l, w) := lw in
  match io_renames io (wr_calls w), dk_live (wr_disk w) with
  | true, Some i =>
    let '(r, w) := append_to (call (renamed i) [] w) in
    match r with
    | Err e => (Err e, (l, w))
    | Ok i => record_base (lg_restart i l, w)
    end
  | _, _ => (Err tt, (l, ask w))
  end.

Definition write (bytes : list N) (lw : Logging) : result unit unit * Logging :=
  let '(l, w) := lw in
  match write_all (lg_inode l) bytes w with
  | (Err e, w) =>
    let l := if io_stats io (wr_calls w) then lg_on_written (λ _, N.of_nat (length (default [] (dk_files (wr_disk w) !! lg_inode l)))) l else l in
    let '(ends, w) := ends_line (lg_written l) (ask w) in
    (Err e, (lg_on_ends_line (λ _, ends) l, w))
  | (Ok _, w) =>
    let l := lg_on_written (λ n, u64_saturating_add n (N.of_nat (length bytes))) l in
    (Ok tt, (lg_on_ends_line (λ ends, match last bytes with Some b => (b =? LINE_FEED)%N | None => ends end) l, w))
  end.

(** Where the first line feed of [bytes] is. *)
Fixpoint feed_at (bytes : list N) : option nat :=
  match bytes with
  | [] => None
  | b :: bytes => if (b =? LINE_FEED)%N then Some 0 else S <$> feed_at bytes
  end.

Definition append (bytes : list N) (lw : Logging) : result unit unit * Logging :=
  let l := lw.1 in
  if (lg_written l =? 0)%N || (u64_saturating_add (lg_written l) (N.of_nat (length bytes)) <=? lg_cap l)%N then write bytes lw else
  let cut (head : nat) := and_then (write (take head bytes)) (and_then rotate (write (drop head bytes))) lw in
  if lg_ends_line l then cut 0 else
  match feed_at bytes with
  | Some feed => cut (S feed)
  | None => write bytes lw
  end.

Definition log_end (l : RotatingLog) : N := u64_saturating_add (lg_base l) (lg_written l).

Definition start_run (lw : Logging) : Logging :=
  let '(_, (l, w)) := append (take (N.to_nat RUN_RESET_AT) RUN_START) lw in
  let '(_, lw) := append (drop (N.to_nat RUN_RESET_AT) RUN_START) (lg_on_run_start (λ _, log_end l) l, w) in lw.

Definition append_held (bytes : list N) (lw : Logging) : (list N * result unit unit) * Logging :=
  let start := log_end lw.1 in
  let '(outcome, lw) := append bytes lw in
  let limit := u64_saturating_add (lg_cap lw.1) MAX_OPEN_LINE_OVERRUN in
  let '(held, (outcome, lw)) :=
    if is_ok outcome && negb (lg_ends_line lw.1) && (limit <? lg_written lw.1)%N
    then (bytes ++ END_OPEN_LINE, and_then (write END_OPEN_LINE) rotate lw)
    else (bytes, (outcome, lw)) in
  let taken := OutputCursor.bytes_since (log_end lw.1) start in
  (if (taken <? N.of_nat (length held))%N then take (N.to_nat taken) held else held, outcome, lw).

(** Opens the log: its directory made, its files found, the sidecar brought up
    to date. *)
Definition log_open (cap : N) (w : Writer) : result RotatingLog unit * Writer :=
  let '(r, w) := allowed w in
  match r with Err e => (Err e, w) | Ok _ =>
  let '(r, w) := append_to w in
  match r with Err e => (Err e, w) | Ok i =>
  let '(r, w) := allowed w in
  match r with Err e => (Err e, w) | Ok _ =>
  let d := wr_disk w in
  let sidecar := read_base d in
  let live := {| gn_inode := i; gn_len := N.of_nat (length (bytes_at d (Some i))) |} in
  let base := rs_offset (resolve sidecar (Some live) (generation_at d (dk_rotated d))) in
  let '(ends, w) := ends_line (gn_len live) w in
  let l := {| lg_inode := i; lg_written := gn_len live; lg_base := base; lg_cap := cap;
              lg_run_start := u64_saturating_add base (gn_len live); lg_ends_line := ends |} in
  let recorded := match sidecar with Some b => (lb_offset b =? base)%N && (lb_inode b =? i)%N | None => false end in
  if recorded then (Ok l, w) else
  let '(r, (l, w)) := record_base (l, w) in
  (match r with Ok _ => Ok l | Err e => Err e end, w)
  end end end.
End log.
