(* ===== verification/LogSpan.v ===== *)
(** * A process's log as one stream

    Models muster-protocol/src/holder/span.rs with piece.rs and span_reader.rs,
    and the raw reads of log_reader.rs: both generations of a log opened and
    placed in the output stream through the sidecar, bytes read by their place
    in it, and the start of the newest lines found from the end.

    A reader looks at the disk several times while a holder may be rotating it:
    [look n] is the disk as the [n]th look finds it, none when the look fails.
    An opened file is the bytes it had then; files only grow, and no more than
    those is read. A read gives what the file holds, up to the room asked for. *)
From S2P Require Import Prelude RustText Values Tap LogFile.

Definition OPEN_ATTEMPTS : nat := 3.
Definition BLOCK_BYTES : N := 64 * 1024.
Definition RAW_LINE_KEEP_BYTES : N := 64 * 1024.
Definition ESC : N := 27.

(** ** Pieces and spans *)
Record Piece := { pc_bytes : list N; pc_start : N; pc_len : N; pc_skip : N }.
Definition pc_end (p : Piece) : N := (pc_start p + pc_len p)%N.
Definition holds (p : Piece) (offset : N) : bool := (pc_start p <=? offset)%N && (offset <? pc_end p)%N.

Record Span := { sp_pieces : list Piece; sp_oldest : N; sp_end : N }.

(** The span of two generations opened, the live one starting at [base]. *)
Definition span_of (base : N) (rotated live : option (list N)) : Span :=
  let rotated := (λ f, let n := N.of_nat (length f) in let len := N.min n base in
                       {| pc_bytes := f; pc_start := (base - len)%N; pc_len := len; pc_skip := (n - len)%N |}) <$> rotated in
  let live := (λ f, {| pc_bytes := f; pc_start := base; pc_len := N.of_nat (length f); pc_skip := 0 |}) <$> live in
  let pieces := option_list rotated ++ option_list live in
  {| sp_pieces := pieces;
     sp_oldest := match head pieces with Some p => pc_start p | None => base end;
     sp_end := N.max (match last pieces with Some p => pc_end p | None => base end) base |}.

Section looking.
Context (look : nat → option Disk).

(** A generation opened by its name: its file, or none when nothing is there. *)
Definition open_generation (at_ : nat) (name : Disk → option N) : result (option (N * list N)) unit :=
  match look at_ with
  | None => Err tt
  | Some d => Ok (match name d with None => None | Some i => (λ f, (i, f)) <$> dk_files d !! i end)
  end.

(** Whether the name still names the file opened. *)
Definition still_names (at_ : nat) (name : Disk → option N) (opened : option (N * list N)) : result bool unit :=
  match look at_ with
  | None => Err tt
  | Some d => Ok (bool_decide (match name d with None => None | Some i => (λ _, i) <$> dk_files d !! i end = fst <$> opened))
  end.

Definition generation_of_file (o : N * list N) : Generation := {| gn_inode := o.1; gn_len := N.of_nat (length o.2) |}.

(** Opens both generations; again, at most [OPEN_ATTEMPTS] times, when a rotation
    moved them meanwhile. The five looks of an attempt come in order. *)
Fixpoint open_from (attempts : nat) (at_ : nat) : result Span unit :=
  let? rotated := open_generation at_ dk_rotated in
  let? live := open_generation (1 + at_) dk_live in
  let sidecar := look (2 + at_) ≫= read_base in
  let r := resolve sidecar (generation_of_file <$> live) (generation_of_file <$> rotated) in
  let? settled := (if rs_exact r then
                     let? same := still_names (3 + at_) dk_rotated rotated in
                     if (same : bool) then still_names (4 + at_) dk_live live else Ok false
                   else Ok false) in
  match attempts with
  | S attempts => if (settled : bool) then Ok (span_of (rs_offset r) (snd <$> rotated) (snd <$> live)) else open_from attempts (5 + at_)
  | O => Ok (span_of (rs_offset r) (snd <$> rotated) (snd <$> live))
  end.
Definition open_span : result Span unit := open_from (OPEN_ATTEMPTS - 1) 0.
End looking.

(** ** Bytes by their place *)
Definition read_at (sp : Span) (offset room : N) : list N :=
  match find (λ p, holds p offset) (sp_pieces sp) with
  | None => []
  | Some p => take (N.to_nat (N.min room (pc_end p - offset))) (drop (N.to_nat (offset - pc_start p + pc_skip p)) (pc_bytes p))
  end.

(** Reads on until nothing is left or [room] bytes are read. *)
Fixpoint read_on (fuel : nat) (sp : Span) (offset room : N) : list N :=
  match fuel with
  | O => []
  | S fuel =>
    match read_at sp offset room with
    | [] => []
    | got => got ++ read_on fuel sp (OutputCursor.advanced offset (N.of_nat (length got))) (room - N.of_nat (length got))
    end
  end.
(** Each read ends a piece or the room. *)
Definition read_to_end (sp : Span) (offset room : N) : list N := read_on (S (length (sp_pieces sp))) sp offset room.
Definition read_full_at : Span → N → N → list N := read_to_end.

(** ** Raw reads *)
Definition read_log_stream (look : nat → option Disk) : result (N * list N) unit :=
  let? sp := open_span look in Ok (sp_oldest sp, read_to_end sp (sp_oldest sp) (sp_end sp - sp_oldest sp)).

Definition stream_end (look : nat → option Disk) : result N unit := let? sp := open_span look in Ok (sp_end sp).

Definition read_log_range (look : nat → option Disk) (from to max : N) : result (N * list N) unit :=
  let? sp := open_span look in
  let start := N.max from (sp_oldest sp) in
  let length := OutputCursor.bytes_since (N.min (N.min to (sp_end sp)) (OutputCursor.advanced start max)) start in
  Ok (start, read_to_end sp start length).

Definition read_log_tail (look : nat → option Disk) (max : N) : result (N * list N) unit :=
  let? sp := open_span look in
  let from := N.max (sp_oldest sp) (saturating_sub (sp_end sp) max) in
  let bytes := read_to_end sp from (OutputCursor.bytes_since (sp_end sp) from) in
  if (from =? sp_oldest sp)%N then Ok (from, bytes) else
  let boundary := match feed_at bytes with Some feed => S feed | None => 0 end in
  Ok (OutputCursor.advanced from (N.of_nat boundary), drop boundary bytes).

(** Where a live file opened by a reader starts. *)
Definition live_start (d : Disk) (live : N * list N) : N :=
  rs_offset (resolve (read_base d) (Some (generation_of_file live)) (generation_at d (dk_rotated d))).

(** ** The newest lines, from the end *)
Section newest.
Context (counted_line : list N → bool) (block : N).

(** Whether the line from [start] to [end_] counts; its head is in the block
    read, or is read for itself. *)
Definition counts_at (sp : Span) (start end_ low : N) (bytes : list N) : bool :=
  let head_end := N.min end_ (start + RAW_LINE_KEEP_BYTES) in
  let head := if (head_end <=? low + N.of_nat (length bytes))%N
              then take (N.to_nat (head_end - low) - N.to_nat (start - low)) (drop (N.to_nat (start - low)) bytes)
              else read_full_at sp start (head_end - start) in
  counted_line head.

(** Looks through a block from its end; [left] of it are still to be looked at. *)
Fixpoint scan_block (sp : Span) (wanted : N) (low : N) (bytes : list N) (left : nat) (counted line_end : N) : N + (N * N) :=
  match left with
  | O => inr (counted, line_end)
  | S index =>
    if bool_decide (bytes !! index = Some LINE_FEED) then
      let line_start := (low + N.of_nat index + 1)%N in
      let counts := negb (line_start =? sp_end sp)%N && counts_at sp line_start line_end low bytes in
      let counted := if counts then (counted + 1)%N else counted in
      if counts && (wanted <=? counted)%N then inl line_start
      else scan_block sp wanted low bytes index counted (line_start - 1)
    else scan_block sp wanted low bytes index counted line_end
  end.

(** Goes back block by block; [fuel] is how many blocks are left at most. *)
Fixpoint scan_back (fuel : nat) (sp : Span) (wanted high counted line_end : N) : N :=
  match fuel with
  | O => sp_oldest sp
  | S fuel =>
    if (sp_oldest sp <? high)%N then
      let low := N.max (saturating_sub high block) (sp_oldest sp) in
      let bytes := read_full_at sp low (high - low) in
      match scan_block sp wanted low bytes (length bytes) counted line_end with
      | inl start => start
      | inr (counted, line_end) => scan_back fuel sp wanted low counted line_end
      end
    else sp_oldest sp
  end.

Definition newest_start (wanted : N) (sp : Span) : N :=
  scan_back (N.to_nat (sp_end sp - sp_oldest sp)) sp wanted (sp_end sp) 0 (sp_end sp).
End newest.
