(* ===== verification/LogPlaced.v ===== *)
(** * Where logged bytes are

    A log placed by its sidecar holds the end of the output stream, and reads
    give the bytes of the stream by their place. Over whatever holders do to a
    log, with calls that fail and holders that die at any call, it stays placed:
    a cursor names the same byte for as long as that byte is kept. *)
From S2P Require Import Prelude RustText Values Tap LogFile LogSpan.

(** ** A stream cut into pieces *)
Fixpoint chain (s : list N) (at_ : nat) (ps : list Piece) : Prop :=
  match ps with
  | [] => at_ = length s
  | p :: ps =>
    pc_start p = N.of_nat at_ ∧ pc_skip p = 0%N ∧ pc_len p = N.of_nat (length (pc_bytes p)) ∧
    take (length (pc_bytes p)) (drop at_ s) = pc_bytes p ∧ chain s (at_ + length (pc_bytes p)) ps
  end.

Lemma chain_within s at_ ps : chain s at_ ps → at_ ≤ length s.
Proof.
  revert at_. induction ps as [|p ps IH]; intros at_; cbn [chain]; [lia|]. intros (_ & _ & _ & _ & Hc). apply IH in Hc. lia.
Qed.

(** The pieces a read from [offset] has still to come to. *)
Fixpoint ahead (offset : N) (ps : list Piece) : nat :=
  match ps with [] => 0 | p :: ps => (if (offset <? pc_end p)%N then 1 else 0) + ahead offset ps end.

Lemma ahead_later offset offset' ps : (offset ≤ offset')%N → ahead offset' ps ≤ ahead offset ps.
Proof. intros Hle. induction ps as [|p ps IH]; cbn [ahead]; [done|]. destruct (N.ltb_spec offset (pc_end p)), (N.ltb_spec offset' (pc_end p)); lia. Qed.

(** The piece that holds an offset of the stream. *)
Lemma find_chain s at_ ps offset :
  chain s at_ ps → at_ ≤ offset →
  match find (λ p, holds p (N.of_nat offset)) ps with
  | None => length s ≤ offset
  | Some p => ∃ start stop, pc_start p = N.of_nat start ∧ pc_end p = N.of_nat stop ∧ pc_skip p = 0%N ∧ start ≤ offset < stop ∧ stop ≤ length s ∧
      pc_bytes p = take (stop - start) (drop start s) ∧ ahead (N.of_nat stop) ps < ahead (N.of_nat offset) ps
  end.
Proof.
  revert at_. induction ps as [|p ps IH]; intros at_; cbn [chain find ahead]; [intros -> ?; done|].
  intros (Hs & Hk & Hl & Hb & Hc) Hle. pose proof (chain_within _ _ _ Hc) as Hw. unfold holds.
  assert (pc_end p = N.of_nat (at_ + length (pc_bytes p))) as He by (unfold pc_end; lia).
  rewrite Hs, He. destruct (N.leb_spec (N.of_nat at_) (N.of_nat offset)); [|lia]. cbn [andb].
  destruct (N.ltb_spec (N.of_nat offset) (N.of_nat (at_ + length (pc_bytes p)))) as [Hlt|Hge].
  - exists at_, (at_ + length (pc_bytes p)). split_and!; try done; try lia.
    + by replace (at_ + length (pc_bytes p) - at_) with (length (pc_bytes p)) by lia.
    + rewrite N.ltb_irrefl. pose proof (ahead_later (N.of_nat offset) (N.of_nat (at_ + length (pc_bytes p))) ps). lia.
  - specialize (IH _ Hc ltac:(lia)). destruct (find _ ps) as [q|]; [|done].
    destruct IH as (start & stop & E1 & E2 & E3 & E4 & E5 & E6 & E7). exists start, stop. split_and!; try done; try lia.
    destruct (N.ltb_spec (N.of_nat stop) (N.of_nat (at_ + length (pc_bytes p)))); lia.
Qed.

Lemma read_at_none sp offset : read_at sp offset 0 = [].
Proof. unfold read_at. destruct (find _ _); [|done]. by rewrite N.min_0_l. Qed.
Lemma read_on_none fuel sp offset : read_on fuel sp offset 0 = [].
Proof. destruct fuel; [done|]. cbn [read_on]. by rewrite read_at_none. Qed.

Lemma take_drop_cut {A} (s : list A) (a b c : nat) : a ≤ b → take c (drop (b - a) (drop a s)) = take c (drop b s).
Proof. intros. rewrite drop_drop. by replace (a + (b - a)) with b by lia. Qed.

(** Reading on gives the stream from there. *)
Lemma read_on_chain s at_ fuel sp offset room :
  chain s at_ (sp_pieces sp) → (N.of_nat (length s) ≤ u64_max)%N → at_ ≤ offset → ahead (N.of_nat offset) (sp_pieces sp) < fuel →
  read_on fuel sp (N.of_nat offset) room = take (N.to_nat room) (drop offset s).
Proof.
  intros Hc Hb. revert offset room. induction fuel as [|fuel IH]; intros offset room Hle Hf; [lia|]. cbn [read_on]. unfold read_at.
  pose proof (find_chain _ _ _ _ Hc Hle) as Hp. destruct (find _ _) as [p|]; [|by rewrite drop_ge, take_nil by done].
  destruct Hp as (start & stop & Hs & He & Hk & [Ha Hlt] & Hw & -> & Hah). rewrite Hs, He, Hk.
  set (n := N.to_nat (N.min room (N.of_nat stop - N.of_nat offset))).
  assert (take n (drop (N.to_nat (N.of_nat offset - N.of_nat start + 0)) (take (stop - start) (drop start s))) = take n (drop offset s)) as ->.
  { replace (N.to_nat _) with (offset - start) by lia. rewrite skipn_firstn_comm, take_take, take_drop_cut by lia. f_equal. lia. }
  assert (length (take n (drop offset s)) = n) as Hn by (rewrite length_take, length_drop; lia).
  destruct (decide (n = 0)) as [E0|Hne].
  { rewrite E0, take_0. assert (room = 0%N) as -> by lia. by rewrite take_0. }
  destruct (take n (drop offset s)) as [|b got] eqn:Eg; [cbn in Hn; lia|]. rewrite <-Eg, Eg, Hn, <-Eg.
  destruct (decide (n = N.to_nat room)) as [->|Hnr].
  { replace (room - N.of_nat (N.to_nat room))%N with 0%N by lia. by rewrite read_on_none, app_nil_r. }
  assert (n = stop - offset) as En by lia. unfold OutputCursor.advanced, u64_saturating_add.
  replace (N.min _ _) with (N.of_nat stop) by lia. rewrite IH by lia.
  replace (drop stop s) with (drop n (drop offset s)) by (rewrite drop_drop; f_equal; lia).
  rewrite take_take_drop. f_equal. lia.
Qed.

Lemma ahead_length offset ps : ahead offset ps ≤ length ps.
Proof. induction ps as [|p ps IH]; cbn [ahead length]; [done|]. destruct (_ <? _)%N; lia. Qed.

(** A span that holds the stream from [at_] on. *)
Definition spans (s : list N) (at_ : nat) (sp : Span) : Prop :=
  sp_oldest sp = N.of_nat at_ ∧ sp_end sp = N.of_nat (length s) ∧ at_ ≤ length s ∧ (N.of_nat (length s) ≤ u64_max)%N ∧ chain s at_ (sp_pieces sp).

Lemma read_spans s at_ sp offset room :
  spans s at_ sp → (sp_oldest sp ≤ offset)%N → read_to_end sp offset room = take (N.to_nat room) (drop (N.to_nat offset) s).
Proof.
  intros (Ho & _ & _ & Hb & Hc) Hle. unfold read_to_end. rewrite <-(N2Nat.id offset) at 1. eapply read_on_chain; [done|done|lia|].
  pose proof (ahead_length (N.of_nat (N.to_nat offset)) (sp_pieces sp)). lia.
Qed.

(** ** Logs placed in the stream *)
Record disk_ok (d : Disk) : Prop := {
  ok_live : ∀ i, dk_live d = Some i → is_Some (dk_files d !! i) ∧ (i ≤ u64_max)%N;
  ok_rotated : ∀ i, dk_rotated d = Some i → is_Some (dk_files d !! i);
  ok_apart : ∀ i, dk_live d = Some i → dk_rotated d ≠ Some i;
}.

Definition live_bytes (d : Disk) : list N := bytes_at d (dk_live d).
Definition rotated_bytes (d : Disk) : list N := bytes_at d (dk_rotated d).

(** What the files hold is the end of the stream, and the sidecar says where. *)
Definition placed (d : Disk) (s : list N) : Prop :=
  disk_ok d ∧ (N.of_nat (length s) ≤ u64_max)%N ∧
  ∃ pre, s = pre ++ rotated_bytes d ++ live_bytes d ∧
    resolved d = {| rs_offset := N.of_nat (length pre + length (rotated_bytes d)); rs_exact := true |}.

Definition opened (d : Disk) (name : option N) : option (N * list N) :=
  match name with None => None | Some i => (λ f, (i, f)) <$> dk_files d !! i end.

Lemma opened_generation d name : generation_of_file <$> opened d name = generation_at d name.
Proof. destruct name as [i|]; [|done]. cbn. by destruct (dk_files d !! i). Qed.
Lemma opened_bytes d name : default [] (snd <$> opened d name) = bytes_at d name.
Proof. destruct name as [i|]; [|done]. unfold bytes_at. cbn. by destruct (dk_files d !! i). Qed.

Lemma span_of_spans pre rotated live s :
  s = pre ++ default [] rotated ++ default [] live → (N.of_nat (length s) ≤ u64_max)%N →
  spans s (length pre) (span_of (N.of_nat (length pre + length (default [] rotated))) rotated live).
Proof.
  intros -> Hb. unfold spans, span_of. rewrite !length_app in *.
  destruct rotated as [r|], live as [f|]; unfold option_list; cbn [default from_option option_rect fmap option_fmap option_map app head last sp_pieces sp_oldest sp_end chain
    pc_start pc_skip pc_len pc_bytes length id] in *; unfold pc_end; cbn [pc_start pc_len]; split_and!; try lia; try (rewrite ?length_app; cbn [length]; lia).
  - rewrite drop_app_length, take_app_length. done.
  - by rewrite (assoc_L (++)), <-length_app, drop_app_length, firstn_all.
  - by rewrite app_nil_r, drop_app_length, firstn_all.
  - by rewrite drop_app_length, firstn_all.
Qed.

(** A log that is placed, and that no one changes meanwhile, opens at once. *)
Lemma placed_open d s look :
  placed d s → (∀ n, look n = Some d) →
  ∃ pre sp, open_span look = Ok sp ∧ s = pre ++ rotated_bytes d ++ live_bytes d ∧ spans s (length pre) sp.
Proof.
  intros (_ & Hb & pre & Es & Er) Hlook. exists pre. unfold open_span, OPEN_ATTEMPTS. cbn [Nat.sub]. cbn [open_from].
  unfold open_generation, still_names. rewrite !Hlook. cbn [mbind option_bind]. fold (opened d (dk_rotated d)) (opened d (dk_live d)).
  rewrite !opened_generation. unfold resolved in Er. rewrite Er. cbn [rs_exact rs_offset].
  assert (∀ name, (match name with None => None | Some i => (λ _, i) <$> dk_files d !! i end) = fst <$> opened d name) as Hn.
  { intros [i|]; [|done]. cbn. by destruct (dk_files d !! i). }
  rewrite !Hn, !bool_decide_eq_true_2 by done. eexists. split_and!; [done|done|].
  unfold rotated_bytes in *. rewrite <-(opened_bytes d (dk_rotated d)). apply span_of_spans; [|done].
  rewrite !opened_bytes. done.
Qed.

(** A read of a disk in place: the bytes of the stream from the oldest kept. *)
Lemma placed_range d s look from to max :
  placed d s → (∀ n, look n = Some d) → (from ≤ N.of_nat (length s))%N →
  ∃ oldest, oldest ≤ length s ∧ (∃ sp, open_span look = Ok sp ∧ sp_oldest sp = N.of_nat oldest) ∧ stream_end look = Ok (N.of_nat (length s)) ∧
    let start := N.max from (N.of_nat oldest) in
    let stop := N.min (N.min to (N.of_nat (length s))) (start + max) in
    read_log_range look from to max = Ok (start, take (N.to_nat (stop - start)) (drop (N.to_nat start) s)).
Proof.
  intros Hp Hlook Hfrom. destruct (placed_open _ _ look Hp Hlook) as (pre & sp & Ho & _ & Hsp). pose proof Hsp as (Eold & Eend & Hle & Hb & _).
  exists (length pre). split; [done|]. split; [by exists sp|]. unfold stream_end, read_log_range. rewrite Ho, Eend. split; [done|]. cbv zeta. do 2 f_equal; [by rewrite Eold|].
  rewrite (read_spans _ _ _ _ _ Hsp) by (rewrite Eold; lia). rewrite Eold. unfold OutputCursor.bytes_since, saturating_sub, OutputCursor.advanced, u64_saturating_add.
  set (start := N.max from (N.of_nat (length pre))). do 3 f_equal. lia.
Qed.

(** ** The sidecar reads back *)
Lemma trim_snoc s c : is_whitespace c = true → trim_start_matches is_whitespace s ≠ [] → trim (s ++ [c]) = trim s.
Proof.
  intros Hc Hs. unfold trim, trim_matches, trim_end_matches. rewrite trim_start_matches_app by done. rewrite reverse_app. cbn [reverse rev_append app].
  rewrite (reverse_singleton c) || idtac. cbn [app trim_start_matches]. by rewrite Hc.
Qed.

Lemma parse_base_text b : (lb_offset b ≤ u64_max)%N → (lb_inode b ≤ u64_max)%N → parse_base (base_text b) = Some b.
Proof.
  intros Ho Hi. unfold parse_base, base_text. rewrite !app_assoc, trim_snoc; [|done|].
  - rewrite <-app_assoc. cbn [app]. rewrite trim_print_sep, split_once_app by (eapply digits_not_elem, print_dec_digits; done).
    rewrite !parse_print_dec by done. by destruct b.
  - pose proof (print_dec_digits (lb_offset b)) as Hd. pose proof (print_dec_nonempty (lb_offset b)) as Hne.
    destruct (print_dec (lb_offset b)) as [|c s]; [done|]. apply Forall_cons in Hd as [Hc _]. cbn. by rewrite is_ascii_digit_not_whitespace.
Qed.

(** ** The history of a log *)
Definition history (w : Writer) : list (Disk * list N) := (wr_disk w, wr_stream w) :: wr_seen w.
Definition earlier (later before : Disk * list N) : Prop := before.2 `prefix_of` later.2.
Definition sound (w : Writer) : Prop := Forall (λ ds, placed ds.1 ds.2) (history w) ∧ StronglySorted earlier (history w).

Lemma call_sound f more w : sound w → placed (f (wr_disk w)) (wr_stream w ++ more) → sound (call f more w).
Proof.
  intros [Hp Hs] Hn. split; [by constructor|]. constructor; [done|]. change (Forall (earlier (f (wr_disk w), wr_stream w ++ more)) (history w)).
  apply StronglySorted_inv in Hs as [_ Hs]. constructor; [by apply prefix_app_r|]. eapply Forall_impl; [exact Hs|]. intros ds Hds. by apply prefix_app_r.
Qed.
Lemma sound_placed w : sound w → placed (wr_disk w) (wr_stream w).
Proof. intros [Hp _]. by apply Forall_cons in Hp as [Hp _]. Qed.
Lemma ask_sound w : sound w → sound (ask w).
Proof. intros Hs. apply call_sound; [done|]. rewrite app_nil_r. by apply sound_placed. Qed.

(** A holder appending to the log: its file is the end of the stream, its own
    count and the sidecar say where, and the file is the live one, or the older
    one where a rotation could not start another. *)
Record logging (l : RotatingLog) (w : Writer) : Prop := {
  lgi_ok : disk_ok (wr_disk w);
  lgi_bound : (N.of_nat (length (wr_stream w)) ≤ u64_max)%N;
  lgi_inode : (lg_inode l ≤ u64_max)%N;
  lgi_base : read_base (wr_disk w) = Some {| lb_offset := lg_base l; lb_inode := lg_inode l |};
  lgi_file : ∃ front f, dk_files (wr_disk w) !! lg_inode l = Some f ∧ wr_stream w = front ++ f ∧
    lg_written l = N.of_nat (length f) ∧ lg_base l = N.of_nat (length front) ∧
    (dk_live (wr_disk w) = Some (lg_inode l) ∧ rotated_bytes (wr_disk w) `suffix_of` front ∨
     dk_live (wr_disk w) = None ∧ dk_rotated (wr_disk w) = Some (lg_inode l));
}.

Lemma bytes_at_Some d i f : dk_files d !! i = Some f → bytes_at d (Some i) = f.
Proof. intros E. unfold bytes_at. cbn. by rewrite E. Qed.
Lemma generation_at_Some d i f : dk_files d !! i = Some f → generation_at d (Some i) = Some {| gn_inode := i; gn_len := N.of_nat (length f) |}.
Proof. intros E. unfold generation_at. by rewrite E. Qed.

Lemma logging_placed l w : logging l w → placed (wr_disk w) (wr_stream w).
Proof.
  intros [Hok Hb Hi Hbase (front & f & Ef & Es & Ew & Eb & Hwhere)]. split_and!; [done|done|].
  unfold resolved. rewrite Hbase. rewrite Es, length_app in Hb. destruct Hwhere as [[El [pre ->]]|[El Er]].
  - exists pre. unfold live_bytes. rewrite El, (bytes_at_Some _ _ _ Ef), (generation_at_Some _ _ _ Ef). split; [by rewrite Es, app_assoc|].
    unfold resolve, is_of. cbn [gn_inode lb_inode lb_offset]. rewrite N.eqb_refl, Eb, length_app. done.
  - exists front. unfold live_bytes, rotated_bytes. rewrite El, Er, (bytes_at_Some _ _ _ Ef), (generation_at_Some _ _ _ Ef).
    split; [by rewrite Es, app_nil_r|]. unfold resolve, is_of. cbn [gn_inode gn_len lb_inode lb_offset generation_at]. rewrite N.eqb_refl, Eb.
    unfold u64_saturating_add. f_equal. lia.
Qed.

Lemma logging_same l l' w : logging l w → lg_inode l' = lg_inode l → lg_written l' = lg_written l → lg_base l' = lg_base l → logging l' w.
Proof. intros [] E1 E2 E3. split; rewrite ?E1, ?E2, ?E3; done. Qed.

Lemma ask_logging l w : logging l w → logging l (ask w).
Proof. intros []. unfold ask, call. split; cbn; rewrite ?app_nil_r; done. Qed.

Lemma bytes_at_grow d h more name :
  bytes_at (grow h more d) name = if bool_decide (name = Some h) then match dk_files d !! h with Some f => f ++ more | None => [] end else bytes_at d name.
Proof.
  destruct name as [i|]; [|done]. unfold bytes_at, grow. cbn. destruct (decide (i = h)) as [->|Hne].
  - rewrite bool_decide_eq_true_2, lookup_alter_eq by done. by destruct (dk_files d !! h).
  - rewrite bool_decide_eq_false_2, lookup_alter_ne by congruence. done.
Qed.

Lemma grow_ok d h more : disk_ok d → disk_ok (grow h more d).
Proof.
  assert (∀ i, is_Some (dk_files d !! i) → is_Some (dk_files (grow h more d) !! i)) as Hi.
  { intros i Hi. unfold grow. cbn. destruct (decide (i = h)) as [->|]; [rewrite lookup_alter_eq; by apply fmap_is_Some|by rewrite lookup_alter_ne]. }
  intros [H1 H2 H3]. split; [intros i Ei; destruct (H1 i Ei); auto|eauto|done].
Qed.

(** The file grown, the count with it. *)
Lemma grow_logging l w more :
  logging l w → (N.of_nat (length (wr_stream w ++ more)) ≤ u64_max)%N →
  logging (lg_on_written (λ n, (n + N.of_nat (length more))%N) l) (call (grow (lg_inode l) more) more w).
Proof.
  intros [Hok Hb Hi Hbase (front & f & Ef & Es & Ew & Eb & Hwhere)] Hmore. split; cbn; [by apply grow_ok|done..|].
  exists front, (f ++ more). rewrite lookup_alter_eq, Ef, Es, Ew, Eb, length_app. split_and!; [done|by rewrite app_assoc|lia|done|].
  destruct Hwhere as [[El Hsuf]|Hstuck]; [left|by right]. split; [done|]. change (bytes_at (grow (lg_inode l) more (wr_disk w)) (dk_rotated (wr_disk w)) `suffix_of` front).
  rewrite bytes_at_grow, bool_decide_eq_false_2; [done|]. by apply (ok_apart _ Hok).
Qed.

Lemma write_bytes_logging l w bytes :
  logging l w → sound w → (N.of_nat (length (wr_stream w ++ bytes)) ≤ u64_max)%N →
  let w' := write_bytes (lg_inode l) bytes w in
  logging (lg_on_written (λ n, (n + N.of_nat (length bytes))%N) l) w' ∧ sound w' ∧ wr_stream w' = wr_stream w ++ bytes.
Proof.
  unfold write_bytes. cbv zeta. revert l w. induction bytes as [|b bytes IH]; intros l w Hl Hs Hb; cbn [foldl].
  - rewrite app_nil_r. split_and!; [|done..]. eapply logging_same; [exact Hl|done| |done]. cbn. lia.
  - assert (logging (lg_on_written (λ n, (n + 1)%N) l) (call (grow (lg_inode l) [b]) [b] w)) as Hl'.
    { apply (grow_logging l w [b] Hl). rewrite !length_app in *. cbn [length] in *. lia. }
    destruct (IH _ _ Hl') as (H1 & H2 & H3).
    + apply call_sound; [done|]. apply (logging_placed _ _ Hl').
    + cbn. by rewrite <-app_assoc.
    + change (lg_inode (lg_on_written (λ n, (n + 1)%N) l)) with (lg_inode l) in *.
      split_and!; [|done|by rewrite H3; cbn; rewrite <-app_assoc]. eapply logging_same; [exact H1|done| |done]. cbn. lia.
Qed.

(** ** What holders do *)
Section holders.
Context (io : Io).
(** The sidecar can be written, and an open file inspected. *)
Context (Hrecords : ∀ n, io_records io n = true) (Hstats : ∀ n, io_stats io n = true).

(** An operation on a log that is to take [bytes]. *)
Definition took (bytes : list N) (lw : RotatingLog * Writer) (r : result unit unit) (lw' : RotatingLog * Writer) : Prop :=
  logging lw'.1 lw'.2 ∧ sound lw'.2 ∧
  ∃ more, more `prefix_of` bytes ∧ wr_stream lw'.2 = wr_stream lw.2 ++ more ∧ (r = Ok tt → more = bytes).

Definition room (lw : RotatingLog * Writer) (bytes : list N) : Prop := (N.of_nat (length (wr_stream lw.2 ++ bytes)) ≤ u64_max)%N.

(** An operation that takes [bytes] of any log there is room in. *)
Definition takes (bytes : list N) (op : RotatingLog * Writer → result unit unit * (RotatingLog * Writer)) : Prop :=
  ∀ lw, logging lw.1 lw.2 → sound lw.2 → room lw bytes → took bytes lw (op lw).1 (op lw).2.

Lemma write_takes bytes : takes bytes (write io bytes).
Proof.
  intros [l w] Hl Hs Hr. unfold write, write_all, room in *. cbn [fst snd] in *. destruct bytes as [|b bytes].
  { cbn [fst snd]. split_and!; cbn [fst snd]; [|done|by exists []; rewrite app_nil_r].
    eapply logging_same; [exact Hl|done| |done]. cbn. unfold u64_saturating_add. destruct Hl as [_ Hb _ _ (front & f & _ & Es & -> & _)].
    rewrite Es, length_app in Hb. lia. }
  set (bs := b :: bytes) in *. assert (∀ k, (N.of_nat (length (wr_stream (ask w) ++ take k bs)) ≤ u64_max)%N) as Hk.
  { intros k. cbn. rewrite app_nil_r. rewrite length_app, length_take in *. lia. }
  destruct (io_takes io (wr_calls w)) as [k|].
  - destruct (write_bytes_logging l (ask w) (take k bs) (ask_logging _ _ Hl) (ask_sound _ Hs) (Hk k)) as (H1 & H2 & H3).
    set (w1 := write_bytes (lg_inode l) (take k bs) (ask w)) in *. rewrite Hstats.
    assert (logging (lg_on_written (λ _, N.of_nat (length (default [] (dk_files (wr_disk w1) !! lg_inode l)))) l) w1) as Hl1.
    { eapply logging_same; [exact H1|done| |done]. destruct (lgi_file _ _ H1) as (front & f & Ef & _ & Ew & _). cbn in Ef, Ew |- *. by rewrite Ef, Ew. }
    set (l1 := lg_on_written (λ _, N.of_nat (length (default [] (dk_files (wr_disk w1) !! lg_inode l)))) l) in *. unfold ends_line. assert (wr_stream w1 = wr_stream w ++ take k bs) as Ew1 by (rewrite H3; cbn; by rewrite app_nil_r).
    assert (∃ more, more `prefix_of` bs ∧ wr_stream w1 = wr_stream w ++ more ∧ (@Err unit unit tt = Ok tt → more = bs)) as Hmore
      by (exists (take k bs); split_and!; [by exists (drop k bs); rewrite take_drop|done|done]).
    destruct (lg_written l1 =? 0)%N; cbn [fst snd].
    + split_and!; cbn [fst snd]; [eapply logging_same; [by apply ask_logging|done..]|by apply ask_sound|]. cbn. rewrite app_nil_r. done.
    + split_and!; cbn [fst snd]; [eapply logging_same; [by apply ask_logging, ask_logging|done..]|by apply ask_sound, ask_sound|]. cbn. rewrite !app_nil_r. done.
  - specialize (Hk (length bs)). rewrite firstn_all in Hk.
    destruct (write_bytes_logging l (ask w) bs (ask_logging _ _ Hl) (ask_sound _ Hs) Hk) as (H1 & H2 & H3). cbn [fst snd].
    split_and!; cbn [fst snd]; [|done|exists bs; split_and!; [done|rewrite H3; cbn; by rewrite app_nil_r|done]].
    eapply logging_same; [exact H1|done| |done]. cbn [lg_written lg_on_written lg_on_ends_line].
    destruct (lgi_file _ _ H1) as (front & f & _ & Es & Ew & _). pose proof (lgi_bound _ _ H1) as Hb. rewrite Es, length_app in Hb.
    cbn [lg_written lg_on_written] in Ew. unfold u64_saturating_add. lia.
Qed.

Lemma and_then_takes b1 b2 m k : takes b1 m → takes b2 k → takes (b1 ++ b2) (and_then m k).
Proof.
  intros Hm Hk lw Hl Hs Hr. unfold and_then, room in *. rewrite app_assoc, length_app in Hr.
  destruct (Hm lw Hl Hs) as (Hl1 & Hs1 & more & Hp & Es & Ho); [unfold room; lia|]. destruct (m lw) as [[[]|[]] lw1]; cbn [fst snd] in *.
  - specialize (Ho eq_refl). subst more. destruct (Hk lw1 Hl1 Hs1) as (Hl2 & Hs2 & more & Hp2 & Es2 & Ho2).
    { unfold room. rewrite Es, length_app. lia. }
    split_and!; [done..|]. exists (b1 ++ more). split_and!; [by apply prefix_app|by rewrite Es2, Es, app_assoc|by intros ->%Ho2].
  - split_and!; [done..|]. exists more. split_and!; [by apply prefix_app_r|done|done].
Qed.

(** The live file renamed: the holder's own file, now the older one. *)
Lemma renamed_logging l w i : logging l w → dk_live (wr_disk w) = Some i → logging l (call (renamed i) [] w).
Proof.
  intros [Hok Hb Hi Hbase (front & f & Ef & Es & Ew & Eb & Hwhere)] El.
  destruct Hwhere as [[El' _]|[El' _]]; rewrite El in El'; [injection El' as ->|done].
  assert (dk_files (renamed (lg_inode l) (wr_disk w)) !! lg_inode l = Some f) as Ef'.
  { cbn. destruct (dk_rotated (wr_disk w)) as [r|] eqn:Er; [|done]. rewrite lookup_delete_ne; [done|]. intros ->. by apply (ok_apart _ Hok _ El). }
  split; cbn; rewrite ?app_nil_r; [|done..|].
  - split; cbn; [done| |done]. intros ? [= <-]. by exists f.
  - exists front, f. split_and!; [done..|]. by right.
Qed.

(** A fresh live file beside it, placed by the sidecar of the older one. *)
Lemma name_live_placed l w i :
  logging l w → dk_live (wr_disk w) = None → dk_files (wr_disk w) !! i = None → (i ≤ u64_max)%N →
  placed (name_live i (wr_disk w)) (wr_stream w) ∧ logging (lg_restart i l) (call (put_base {| lb_offset := lg_base (lg_restart i l); lb_inode := i |}) [] (call (name_live i) [] w)).
Proof.
  intros [Hok Hb Hi Hbase (front & f & Ef & Es & Ew & Eb & Hwhere)] El Efresh Hiu.
  destruct Hwhere as [[El' _]|[_ Er]]; [by rewrite El in El'|]. assert (i ≠ lg_inode l) as Hne by congruence.
  assert (dk_files (name_live i (wr_disk w)) !! lg_inode l = Some f) as Ef' by (cbn; by rewrite lookup_insert_ne).
  assert (disk_ok (name_live i (wr_disk w))) as Hok'.
  { split; cbn; [intros ? [= <-]; rewrite lookup_insert_eq; split; [by eexists|done]|rewrite Er; intros ? [= <-]; by exists f|intros ? [= <-]; congruence]. }
  assert (N.of_nat (length front + length f) ≤ u64_max)%N as Hlen by (by rewrite Es, length_app in Hb).
  assert (rotated_bytes (name_live i (wr_disk w)) = f) as Erot by (unfold rotated_bytes; cbn [dk_rotated name_live]; rewrite Er; by apply bytes_at_Some).
  assert (live_bytes (name_live i (wr_disk w)) = []) as Elive by (unfold live_bytes; cbn [dk_live name_live]; apply bytes_at_Some; apply lookup_insert_eq).
  assert (lg_base (lg_restart i l) = N.of_nat (length front + length f)) as Ebase by (cbn; unfold u64_saturating_add; lia).
  split.
  - split_and!; [done..|]. exists front. rewrite Erot, Elive, app_nil_r. split; [done|]. unfold resolved.
    change (read_base (name_live i (wr_disk w))) with (read_base (wr_disk w)). rewrite Hbase. cbn [dk_live dk_rotated name_live]. rewrite Er.
    rewrite (generation_at_Some _ _ f Ef'), (generation_at_Some _ i [] (lookup_insert_eq _ _ _)).
    unfold resolve, is_of. cbn [gn_inode gn_len lb_inode lb_offset]. rewrite (proj2 (N.eqb_neq i (lg_inode l)) Hne), N.eqb_refl. f_equal.
    unfold u64_saturating_add. lia.
  - split; cbn [wr_disk wr_stream call]; rewrite ?app_nil_r; [by destruct Hok'|done|done| |].
    + unfold read_base. cbn [dk_base put_base mbind option_bind]. apply parse_base_text; [rewrite Ebase; done|done].
    + exists (front ++ f), []. cbn [dk_files put_base name_live lg_inode lg_restart lg_written]. rewrite lookup_insert_eq, app_nil_r, Ebase, length_app.
      split_and!; [done..|]. left. split; [done|]. change (rotated_bytes (name_live i (wr_disk w)) `suffix_of` front ++ f). rewrite Erot. by exists front.
Qed.

Lemma took_none lw w r : logging lw.1 w → sound w → wr_stream w = wr_stream lw.2 → took [] lw r (lw.1, w).
Proof. intros Hl Hs E. split_and!; [done..|]. exists []. split_and!; [done|by rewrite app_nil_r|done]. Qed.

Lemma rotate_takes : takes [] (rotate io).
Proof.
  intros [l w] Hl Hs _. cbn [fst snd] in *. unfold rotate.
  assert (∀ r, took [] (l, w) r (l, ask w)) as Hask.
  { intros r. apply (took_none (l, w)); [by apply ask_logging|by apply ask_sound|cbn; by rewrite app_nil_r]. }
  destruct (io_renames io (wr_calls w)); [|apply Hask]. destruct (dk_live (wr_disk w)) as [i|] eqn:El; [|apply Hask].
  pose proof (renamed_logging _ _ _ Hl El) as Hl1. assert (sound (call (renamed i) [] w)) as Hs1 by (by apply call_sound, (logging_placed _ _ Hl1)).
  assert (wr_stream (call (renamed i) [] w) = wr_stream w) as Ew by (cbn; by rewrite app_nil_r). set (w1 := call (renamed i) [] w) in *.
  assert (dk_live (wr_disk w1) = None) as El1 by done. clearbody w1. unfold append_to. rewrite El1.
  assert (∀ r, took [] (l, w) r (l, ask w1)) as Hask1.
  { intros r. apply (took_none (l, w)); [by apply ask_logging|by apply ask_sound|cbn; by rewrite app_nil_r]. }
  destruct (io_opens io (wr_calls w1)) as [j|]; [|apply Hask1].
  destruct (bool_decide (dk_files (wr_disk w1) !! j = None)) eqn:Ej; cbn [andb]; [|apply Hask1]. apply bool_decide_eq_true in Ej.
  destruct (N.leb_spec j u64_max); [|apply Hask1]. destruct (name_live_placed l w1 j Hl1 El1 Ej) as [Hp Hl2]; [done|].
  cbn [record_base]. rewrite Hrecords. cbn [fst snd].
  assert (sound (call (name_live j) [] w1)) as Hs2 by (apply call_sound; [done|by rewrite app_nil_r]).
  split_and!; cbn [fst snd].
  - exact Hl2.
  - apply call_sound; [done|]. apply (logging_placed _ _ Hl2).
  - exists []. split_and!; [done|cbn; by rewrite !app_nil_r|done].
Qed.

Lemma append_takes bytes : takes bytes (append io bytes).
Proof.
  intros lw Hl Hs Hr. unfold append. cbv zeta. destruct (_ || _); [by apply write_takes|].
  assert (∀ n, takes bytes (and_then (write io (take n bytes)) (and_then (rotate io) (write io (drop n bytes))))) as Hcut.
  { intros n. rewrite <-(take_drop n bytes) at 1. apply and_then_takes; [apply write_takes|]. apply (and_then_takes [] _); [apply rotate_takes|apply write_takes]. }
  destruct (lg_ends_line lw.1); [by apply Hcut|]. destruct (feed_at bytes); [by apply Hcut|by apply write_takes].
Qed.

Lemma log_end_stream l w : logging l w → log_end l = N.of_nat (length (wr_stream w)).
Proof.
  intros [_ Hb _ _ (front & f & _ & Es & Ew & Eb & _)]. rewrite Es, length_app in *. unfold log_end, u64_saturating_add. lia.
Qed.

Lemma start_run_took lw :
  logging lw.1 lw.2 → sound lw.2 → room lw RUN_START →
  let lw' := start_run io lw in logging lw'.1 lw'.2 ∧ sound lw'.2 ∧ wr_stream lw.2 `prefix_of` wr_stream lw'.2.
Proof.
  intros Hl Hs Hr. unfold start_run, room in *. cbv zeta. set (b1 := take _ RUN_START). set (b2 := drop _ RUN_START).
  assert (RUN_START = b1 ++ b2) as Eb by done. rewrite Eb, app_assoc, length_app in Hr.
  destruct (append_takes b1 lw Hl Hs) as (Hl1 & Hs1 & more & [rest Hp] & Es & _); [unfold room; lia|]. destruct (append io b1 lw) as [r1 [l1 w1]]. cbn [fst snd] in *.
  assert (logging (lg_on_run_start (λ _, log_end l1) l1) w1) as Hl1' by (eapply logging_same; [exact Hl1|done..]).
  destruct (append_takes b2 (lg_on_run_start (λ _, log_end l1) l1, w1) Hl1' Hs1) as (Hl2 & Hs2 & more2 & _ & Es2 & _).
  { unfold room. cbn [snd]. rewrite Hp, !length_app, Es, !length_app in *. lia. }
  destruct (append io b2 _) as [r2 [l2 w2]]. cbn [fst snd] in *. split_and!; [done..|]. rewrite Es2, Es, <-app_assoc. by apply prefix_app_r.
Qed.

(** What [append_held] hands back is what the log took. *)
Lemma append_held_took bytes lw :
  logging lw.1 lw.2 → sound lw.2 → room lw (bytes ++ END_OPEN_LINE) →
  let res := append_held io bytes lw in
  logging res.2.1 res.2.2 ∧ sound res.2.2 ∧ wr_stream res.2.2 = wr_stream lw.2 ++ res.1.1 ∧
  ∃ ending, ending `prefix_of` END_OPEN_LINE ∧ res.1.1 `prefix_of` bytes ++ ending ∧ (res.1.2 = Ok tt → res.1.1 = bytes ++ ending).
Proof.
  intros Hl Hs Hr. unfold append_held, room in *. cbv zeta. rewrite app_assoc, length_app in Hr.
  destruct (append_takes bytes lw Hl Hs) as (Hl1 & Hs1 & more & Hp & Es & Ho); [unfold room; lia|]. pose proof (log_end_stream _ _ Hl) as Estart.
  destruct (append io bytes lw) as [r1 lw1]. cbn [fst snd] in *. set (b := is_ok r1 && _ && _).
  set (q := if b then _ else _).
  assert (∃ held taken lw2 r2 ending, q = (held, (r2, lw2)) ∧ logging lw2.1 lw2.2 ∧ sound lw2.2 ∧ wr_stream lw2.2 = wr_stream lw.2 ++ taken ∧
    held = bytes ++ ending ∧ ending `prefix_of` END_OPEN_LINE ∧ taken `prefix_of` held ∧ (r2 = Ok tt → taken = held)) as
    (held & taken & lw2 & r2 & ending & -> & Hl2 & Hs2 & Es2 & Eh & He & Hpre & Hok).
  { unfold q. destruct b eqn:Eb.
    - apply andb_true_iff in Eb as [[Eb _]%andb_true_iff _]. destruct r1 as [[]|]; [|done]. specialize (Ho eq_refl). subst more.
      destruct (and_then_takes END_OPEN_LINE [] _ _ (write_takes END_OPEN_LINE) rotate_takes lw1 Hl1 Hs1) as (Hl2 & Hs2 & more & Hp2 & Es2 & Ho2).
      { unfold room. rewrite Es, app_nil_r, length_app. done. }
      rewrite app_nil_r in *. destruct (and_then _ _ lw1) as [r2 lw2]. cbn [fst snd] in *.
      exists (bytes ++ END_OPEN_LINE), (bytes ++ more), lw2, r2, END_OPEN_LINE.
      split_and!; [done..|by rewrite Es2, Es, app_assoc|done|done|by apply prefix_app|by intros ->%Ho2].
    - exists bytes, more, lw1, r1, []. rewrite app_nil_r. split_and!; [done..|apply prefix_nil|done|done]. }
  cbn [fst snd]. rewrite (log_end_stream _ _ Hl2), Estart, Es2, length_app. unfold OutputCursor.bytes_since, saturating_sub.
  replace (N.to_nat (_ - _)) with (length taken) by lia. destruct Hpre as [rest Hrest].
  assert ((if (N.of_nat (length (wr_stream lw.2) + length taken) - N.of_nat (length (wr_stream lw.2)) <? N.of_nat (length held))%N
    then take (length taken) held else held) = taken) as ->.
  { rewrite Hrest, length_app. destruct (N.ltb_spec (N.of_nat (length (wr_stream lw.2) + length taken) - N.of_nat (length (wr_stream lw.2)))
      (N.of_nat (length taken + length rest))); [by rewrite take_app_length|]. assert (length rest = 0) as ->%nil_length_inv by lia. by rewrite app_nil_r. }
  split_and!; [done..|]. exists ending. subst held. split_and!; [done|by exists rest|done].
Qed.

(** A log that is placed, opened: a file created is placed too, and the sidecar
    names the live file once the log is open. *)
Lemma append_to_placed w :
  sound w →
  let res := append_to io w in
  sound res.2 ∧ wr_stream res.2 = wr_stream w ∧ (∀ i, res.1 = Ok i → dk_live (wr_disk res.2) = Some i).
Proof.
  intros Hs. assert (sound (ask w) ∧ wr_stream (ask w) = wr_stream w) as [Ha Ea] by (split; [by apply ask_sound|cbn; by rewrite app_nil_r]).
  unfold append_to. destruct (io_opens io (wr_calls w)) as [i|]; [|by split_and!]. destruct (dk_live (wr_disk w)) as [live|] eqn:El.
  { split_and!; [done..|]. by intros ? [= <-]. }
  destruct (bool_decide _) eqn:Ef; [|by split_and!]. apply bool_decide_eq_true in Ef. destruct (N.leb_spec i u64_max); [|by split_and!].
  cbn [andb fst snd]. split_and!; [|cbn; by rewrite app_nil_r|by intros ? [= <-]]. apply call_sound; [done|]. rewrite app_nil_r.
  apply sound_placed in Hs as ([Hl Hr Hap] & Hb & pre & Es & Er).
  assert (∀ r, dk_rotated (wr_disk w) = Some r → r ≠ i) as Hne by (intros r Hri ->; destruct (Hr _ Hri); congruence).
  assert (∀ name, name ≠ Some i → bytes_at (name_live i (wr_disk w)) name = bytes_at (wr_disk w) name) as Hbytes.
  { intros [j|] Hj; [|done]. unfold bytes_at. cbn. by rewrite lookup_insert_ne by congruence. }
  assert (rotated_bytes (name_live i (wr_disk w)) = rotated_bytes (wr_disk w)) as Erot by (apply Hbytes; intros E; by apply (Hne i E)).
  split_and!; [split; cbn|done|exists pre].
  - intros ? [= <-]. rewrite lookup_insert_eq. split; [by eexists|done].
  - intros r Hri. rewrite lookup_insert_ne; [eauto|]. intros <-. by apply (Hne _ Hri).
  - intros ? [= <-] Hri. by apply (Hne _ Hri).
  - rewrite Erot. unfold live_bytes in *. rewrite El in Es. cbn [dk_live name_live].
    rewrite (bytes_at_Some _ i []) by apply lookup_insert_eq. split; [done|]. rewrite <-Er. unfold resolved. rewrite El. cbn [dk_live dk_rotated name_live].
    change (read_base (name_live i (wr_disk w))) with (read_base (wr_disk w)).
    assert (generation_at (name_live i (wr_disk w)) (dk_rotated (wr_disk w)) = generation_at (wr_disk w) (dk_rotated (wr_disk w))) as ->.
    { destruct (dk_rotated (wr_disk w)) as [r|] eqn:Eri; [|done]. cbn. rewrite lookup_insert_ne; [done|]. intros <-. by apply (Hne _ eq_refl). }
    rewrite (generation_at_Some _ i []) by apply lookup_insert_eq. unfold resolved in Er. rewrite El in Er.
    destruct (read_base (wr_disk w)) as [b|]; [|done]. unfold resolve in *. cbn [generation_at is_of] in *.
    destruct (N.eqb_spec (gn_inode {| gn_inode := i; gn_len := N.of_nat (length (@nil N)) |}) (lb_inode b)) as [E|]; [|done]. cbn in E.
    destruct (dk_rotated (wr_disk w)) as [r|] eqn:Eri; [|done]. destruct (Hr _ eq_refl) as [f Efr]. rewrite (generation_at_Some _ _ _ Efr) in Er |- *.
    cbn [is_of gn_inode] in *. destruct (N.eqb_spec r (lb_inode b)); [|done]. exfalso. apply (Hne r eq_refl). congruence.
Qed.

Lemma log_open_logging cap w :
  sound w →
  let res := log_open io cap w in sound res.2 ∧ wr_stream res.2 = wr_stream w ∧ (∀ l, res.1 = Ok l → logging l res.2).
Proof.
  intros Hs. unfold log_open, allowed. destruct (io_allows io (wr_calls w)); cbn [fst snd]; [|split_and!; [by apply ask_sound|cbn; by rewrite app_nil_r|done]].
  destruct (append_to_placed (ask w) (ask_sound _ Hs)) as (Hs1 & Es1 & Hlive). destruct (append_to io (ask w)) as [[i|[]] w1]; cbn [fst snd] in *;
    [|split_and!; [done|by rewrite Es1; cbn; rewrite app_nil_r|done]].
  assert (wr_stream w1 = wr_stream w) as E1 by (rewrite Es1; cbn; by rewrite app_nil_r). specialize (Hlive i eq_refl). clear Es1 Hs.
  assert (sound (ask w1) ∧ wr_stream (ask w1) = wr_stream w) as [Hs2 E2] by (split; [by apply ask_sound|cbn; by rewrite app_nil_r]).
  destruct (io_allows io (wr_calls w1)); cbn [fst snd]; [|by split_and!]. set (w2 := ask w1) in *.
  assert (dk_live (wr_disk w2) = Some i) as El2 by done. clearbody w2. pose proof (sound_placed _ Hs2) as (Hok & Hb & pre & Es & Er).
  destruct (ok_live _ Hok i El2) as [[f Ef] Hiu]. rewrite (bytes_at_Some _ _ _ Ef). cbn [gn_len].
  unfold resolved in Er. rewrite El2, (generation_at_Some _ _ _ Ef) in Er. rewrite Er. cbn [rs_offset].
  unfold live_bytes in Es. rewrite El2, (bytes_at_Some _ _ _ Ef) in Es.
  assert (∃ ends w3, ends_line io (N.of_nat (length f)) w2 = (ends, w3) ∧ wr_disk w3 = wr_disk w2 ∧ wr_stream w3 = wr_stream w2 ∧ sound w3) as
    (ends & w3 & -> & Ed3 & Es3 & Hs3).
  { unfold ends_line. destruct (_ =? 0)%N; eexists _, _; (split; [done|]); [by split_and!|]. split_and!; [done|cbn; by rewrite app_nil_r|by apply ask_sound]. }
  set (base := N.of_nat (length pre + length (rotated_bytes (wr_disk w2)))) in *.
  set (l := {| lg_inode := i; lg_written := N.of_nat (length f); lg_base := base; lg_cap := cap;
    lg_run_start := u64_saturating_add base (N.of_nat (length f)); lg_ends_line := ends |}).
  assert (∀ w', wr_stream w' = wr_stream w2 → disk_ok (wr_disk w') → dk_files (wr_disk w') = dk_files (wr_disk w2) → dk_live (wr_disk w') = Some i →
    dk_rotated (wr_disk w') = dk_rotated (wr_disk w2) → read_base (wr_disk w') = Some {| lb_offset := base; lb_inode := i |} → logging l w') as Hlog.
  { intros w' E Hok' Efiles Elive' Erot' Ebase. split; [done|by rewrite E|done|done|]. exists (pre ++ rotated_bytes (wr_disk w2)), f. rewrite Efiles, E, length_app.
    split_and!; [done|by rewrite Es, app_assoc|done..|]. left. split; [done|]. unfold rotated_bytes, bytes_at. rewrite Efiles, Erot'. by exists pre. }
  destruct (match read_base (wr_disk w2) with Some b => _ | None => false end) eqn:Erec.
  - cbn [fst snd]. split_and!; [done|congruence|]. intros ? [= <-]. apply Hlog; rewrite ?Ed3; try done.
    destruct (read_base (wr_disk w2)) as [[o j]|]; [|done]. cbn in Erec. apply andb_true_iff in Erec as [->%N.eqb_eq ->%N.eqb_eq]. done.
  - unfold record_base. rewrite Hrecords. cbn [fst snd].
    assert (logging l (call (put_base {| lb_offset := lg_base l; lb_inode := lg_inode l |}) [] w3)) as Hl.
    { apply Hlog; cbn [call wr_stream wr_disk put_base dk_files dk_live dk_rotated]; rewrite ?Ed3, ?Es3, ?app_nil_r; try done; [by destruct Hok|].
      apply (parse_base_text {| lb_offset := base; lb_inode := i |}); [|done]. cbn [lb_offset]. rewrite Es, !length_app in Hb. lia. }
    split_and!; [apply call_sound; [done|apply (logging_placed _ _ Hl)]|cbn; by rewrite app_nil_r, Es3|by intros ? [= <-]].
Qed.

(** Every state a log can come to: opened, logged to run by run, let go of by a
    holder that ended, and left where it stood by one that died at a call. *)
Inductive logged : Writer → option RotatingLog → Prop :=
| logged_start d s : placed d s → logged {| wr_disk := d; wr_calls := 0; wr_stream := s; wr_seen := [] |} None
| logged_open cap w : logged w None → logged (log_open io cap w).2 (match (log_open io cap w).1 with Ok l => Some l | Err _ => None end)
| logged_run l w : logged w (Some l) → room (l, w) RUN_START → logged (start_run io (l, w)).2 (Some (start_run io (l, w)).1)
| logged_append bytes l w :
    logged w (Some l) → room (l, w) (bytes ++ END_OPEN_LINE) → logged (append_held io bytes (l, w)).2.2 (Some (append_held io bytes (l, w)).2.1)
| logged_end l w : logged w (Some l) → logged w None
| logged_dies w l after d s before :
    logged w l → wr_seen w = after ++ (d, s) :: before →
    logged {| wr_disk := d; wr_calls := wr_calls w; wr_stream := s; wr_seen := before |} None.

Lemma logged_sound w l : logged w l → sound w ∧ (∀ l', l = Some l' → logging l' w).
Proof.
  induction 1 as [d s Hp|cap w _ [Hs _]|l w _ [Hs Hl] Hr|bytes l w _ [Hs Hl] Hr|l w _ [Hs Hl]|w l after d s before _ [[Hp Hs] _] E].
  - split; [|done]. split; [by constructor|by repeat constructor].
  - destruct (log_open_logging cap w Hs) as (H1 & _ & H2). split; [done|]. destruct (log_open io cap w).1; [|done]. intros ? [= <-]. by apply H2.
  - destruct (start_run_took (l, w) (Hl _ eq_refl) Hs Hr) as (H1 & H2 & _). split; [done|]. by intros ? [= <-].
  - destruct (append_held_took bytes (l, w) (Hl _ eq_refl) Hs Hr) as (H1 & H2 & _). split; [done|]. by intros ? [= <-].
  - done.
  - split; [|done]. unfold history in *. rewrite E, app_comm_cons in *. apply Forall_app in Hp as [_ Hp].
    split; [exact Hp|]. by apply StronglySorted_app_1_r in Hs.
Qed.

End holders.
