(* ===== verification/LogLines.v ===== *)
(** * How a log rotates

    A log rotates on line boundaries and keeps its live file within its cap, the
    overrun an open line is allowed and one chunk
    (muster-protocol/src/holder/log.rs). *)
From S2P Require Import Prelude RustText Values Tap LogFile LogSpan LogPlaced.

Section lines.
Context (io : Io).

(** A file that ends a line, or is empty. *)
Definition ends (f : list N) : Prop := f = [] ∨ last f = Some LINE_FEED.

(** A log whose live file is its own, whose flag is true only of a file that ends
    a line, over an older generation that ends one. *)
Record lined (l : RotatingLog) (w : Writer) : Prop := {
  ln_live : dk_live (wr_disk w) = Some (lg_inode l);
  ln_apart : dk_rotated (wr_disk w) ≠ Some (lg_inode l);
  ln_written : lg_written l = N.of_nat (length (live_bytes (wr_disk w)));
  ln_file : is_Some (dk_files (wr_disk w) !! lg_inode l);
  ln_flag : lg_ends_line l = true → ends (live_bytes (wr_disk w));
  ln_rotated : ends (rotated_bytes (wr_disk w));
}.

Lemma grow_grow d h a b : grow h b (grow h a d) = grow h (a ++ b) d.
Proof.
  destruct d as [files live rotated base]. unfold grow, on_files. cbn. f_equal. apply map_eq. intros i. destruct (decide (i = h)) as [->|].
  - rewrite !lookup_alter_eq. destruct (files !! h); [|done]. cbn. by rewrite app_assoc.
  - by rewrite !lookup_alter_ne.
Qed.
Lemma grow_none d h : grow h [] d = d.
Proof.
  destruct d as [files live rotated base]. unfold grow, on_files. cbn. f_equal. apply map_eq. intros i. destruct (decide (i = h)) as [->|].
  - rewrite lookup_alter_eq. destruct (files !! h); [|done]. cbn. by rewrite app_nil_r.
  - by rewrite lookup_alter_ne.
Qed.
Lemma write_bytes_disk h bytes w : wr_disk (write_bytes h bytes w) = grow h bytes (wr_disk w).
Proof.
  revert w. induction bytes as [|b bytes IH]; intros w; [by rewrite grow_none|].
  change (wr_disk (write_bytes h bytes (call (grow h [b]) [b] w)) = grow h (b :: bytes) (wr_disk w)). rewrite IH. cbn. by rewrite grow_grow.
Qed.
Lemma live_grow d h more f : dk_live d = Some h → dk_files d !! h = Some f → live_bytes (grow h more d) = f ++ more.
Proof. intros El Ef. unfold live_bytes. change (dk_live (grow h more d)) with (dk_live d). by rewrite bytes_at_grow, El, bool_decide_eq_true_2, Ef. Qed.
Lemma rotated_grow d h more : dk_rotated d ≠ Some h → rotated_bytes (grow h more d) = rotated_bytes d.
Proof. intros Hne. unfold rotated_bytes. change (dk_rotated (grow h more d)) with (dk_rotated d). by rewrite bytes_at_grow, bool_decide_eq_false_2. Qed.
Lemma live_named d h f : dk_live d = Some h → dk_files d !! h = Some f → live_bytes d = f.
Proof. intros El Ef. unfold live_bytes. rewrite El. by apply bytes_at_Some. Qed.

Lemma last_append (f bytes : list N) : bytes ≠ [] → last (f ++ bytes) = last bytes.
Proof. intros Hne. rewrite last_app. destruct (last bytes) eqn:E; [done|]. by apply last_None in E. Qed.

(** A write that succeeds. *)
Lemma write_lined bytes l w l' w' :
  lined l w → write io bytes (l, w) = (Ok tt, (l', w')) → (N.of_nat (length (live_bytes (wr_disk w)) + length bytes) ≤ u64_max)%N →
  lined l' w' ∧ live_bytes (wr_disk w') = live_bytes (wr_disk w) ++ bytes ∧ rotated_bytes (wr_disk w') = rotated_bytes (wr_disk w) ∧
  lg_cap l' = lg_cap l ∧ (lg_ends_line l' = true ↔ if decide (bytes = []) then lg_ends_line l = true else last bytes = Some LINE_FEED).
Proof.
  intros [El Hap Ew [f Ef] Hflag Hrot] Hw Hb. revert Hw. unfold write, write_all. destruct bytes as [|b bs].
  { intros [= <- <-]. rewrite app_nil_r. split_and!; [split; try done|done..]. cbn in Hb |- *. unfold u64_saturating_add. lia. }
  set (bytes := b :: bs) in *. assert (bytes ≠ []) as Hne by done. destruct (io_takes io (wr_calls w)); [by destruct (ends_line _ _ _)|]. intros [= <- <-].
  pose proof (write_bytes_disk (lg_inode l) bytes (ask w)) as Ed. set (w' := write_bytes _ _ _) in *. clearbody w'. cbn [ask call wr_disk id] in Ed.
  pose proof (live_grow _ _ bytes _ El Ef) as Elive. pose proof (rotated_grow _ _ bytes Hap) as Erot. rewrite (live_named _ _ _ El Ef) in *.
  assert (lg_ends_line (lg_on_ends_line (λ ends, match last bytes with Some b => (b =? LINE_FEED)%N | None => ends end)
            (lg_on_written (λ n, u64_saturating_add n (N.of_nat (length bytes))) l)) = true ↔ last bytes = Some LINE_FEED) as Hends.
  { cbn [lg_ends_line lg_on_ends_line]. destruct (last bytes) as [c|] eqn:Ec; [|by apply last_None in Ec]. rewrite N.eqb_eq. split; [by intros ->|by intros [= ->]]. }
  rewrite Ed, Elive, Erot. split_and!; [|done|done|done|by rewrite decide_False by done].
  split; rewrite ?Ed, ?Elive, ?Erot; try done.
  - cbn [lg_written lg_on_ends_line lg_on_written]. rewrite Ew, length_app. change (S (length bs)) with (length bytes).
    unfold u64_saturating_add. lia.
  - cbn. rewrite lookup_alter_eq, Ef. by eexists.
  - intros Hl%Hends. right. by rewrite last_append.
Qed.

(** A rotation that succeeds, of a file that ends a line. *)
Lemma rotate_lined l w l' w' :
  lined l w → rotate io (l, w) = (Ok tt, (l', w')) → ends (live_bytes (wr_disk w)) →
  lined l' w' ∧ live_bytes (wr_disk w') = [] ∧ rotated_bytes (wr_disk w') = live_bytes (wr_disk w) ∧ lg_cap l' = lg_cap l ∧ lg_ends_line l' = true.
Proof.
  intros [El Hap Ew [f Ef] Hflag Hrot] Hr He. revert Hr. unfold rotate. rewrite El. destruct (io_renames io (wr_calls w)); [|done].
  unfold append_to. cbn [wr_disk call dk_live renamed]. destruct (io_opens io _) as [j|]; [|done].
  destruct (bool_decide _) eqn:Ej; cbn [andb]; [|done]. apply bool_decide_eq_true in Ej. destruct (j <=? u64_max)%N; [|done].
  unfold record_base. destruct (io_records io _); [|done]. intros [= <- <-]. rewrite (live_named _ _ _ El Ef) in *.
  assert (dk_files (renamed (lg_inode l) (wr_disk w)) !! lg_inode l = Some f) as Ef'.
  { cbn. destruct (dk_rotated (wr_disk w)) as [r|]; [|done]. rewrite lookup_delete_ne by congruence. done. }
  assert (j ≠ lg_inode l) as Hne by (intros ->; cbn in Ej, Ef'; congruence).
  cbn [wr_disk call]. set (d := put_base {| lb_offset := u64_saturating_add (lg_base l) (lg_written l); lb_inode := j |} (name_live j (renamed (lg_inode l) (wr_disk w)))).
  assert (live_bytes d = []) as Elive by (apply (live_named d j []); [done|apply lookup_insert_eq]).
  assert (rotated_bytes d = f) as Erot by (apply (bytes_at_Some d (lg_inode l) f); subst d; cbn [dk_files put_base name_live]; by rewrite lookup_insert_ne).
  rewrite Elive, Erot. split_and!; try done. split; cbn [wr_disk call]; fold d; rewrite ?Elive, ?Erot; try done.
  - cbn. congruence.
  - cbn. rewrite lookup_insert_eq. by eexists.
  - intros _. by left.
Qed.

Lemma and_then_Ok m k lw lw' : and_then m k lw = (Ok tt, lw') → ∃ lw1, m lw = (Ok tt, lw1) ∧ k lw1 = (Ok tt, lw').
Proof. unfold and_then. destruct (m lw) as [[[]|] lw1]; [eauto|done]. Qed.

Lemma feed_at_Some bytes n : feed_at bytes = Some n → n < length bytes ∧ last (take (S n) bytes) = Some LINE_FEED.
Proof.
  revert n. induction bytes as [|b bytes IH]; intros n; cbn [feed_at]; [done|]. destruct (N.eqb_spec b LINE_FEED) as [->|].
  - intros [= <-]. cbn. split; [lia|by rewrite take_0].
  - destruct (feed_at bytes) as [m|]; [|done]. intros [= <-]. destruct (IH m eq_refl) as [Hm Hl]. split; [cbn; lia|].
    cbn [take]. destruct bytes as [|c bytes]; [cbn in Hm; lia|]. done.
Qed.

Notation size w := (N.of_nat (length (live_bytes (wr_disk w)))).

(** An append that succeeds: the live file ends where it should, and is short or
    has not passed its cap but for an open line. *)
Lemma append_lined bytes l w l' w' :
  lined l w → (size w + N.of_nat (length bytes) ≤ u64_max)%N → append io bytes (l, w) = (Ok tt, (l', w')) →
  lined l' w' ∧ lg_cap l' = lg_cap l ∧
  (size w' ≤ N.max (N.of_nat (length bytes)) (lg_cap l) ∨ lg_ends_line l' = false ∧ size w' = size w + N.of_nat (length bytes))%N ∧
  (rotated_bytes (wr_disk w') = rotated_bytes (wr_disk w) ∨ N.of_nat (length (rotated_bytes (wr_disk w'))) ≤ size w + N.of_nat (length bytes))%N.
Proof.
  intros Hl Hb. unfold append. cbv zeta. cbn [fst]. pose proof (ln_written _ _ Hl) as Ew.
  destruct ((lg_written l =? 0)%N || _) eqn:Efits.
  { intros Hw. destruct (write_lined _ _ _ _ _ Hl Hw ltac:(lia)) as (Hl' & Elive & Erot & Ecap & _). split_and!; [done..| |by left]. left. rewrite Elive, length_app.
    apply orb_true_iff in Efits as [?%N.eqb_eq|Hle%N.leb_le]; [lia|]. unfold u64_saturating_add in Hle. lia. }
  assert (∀ n, n ≤ length bytes → ends (live_bytes (wr_disk w) ++ take n bytes) →
    and_then (write io (take n bytes)) (and_then (rotate io) (write io (drop n bytes))) (l, w) = (Ok tt, (l', w')) →
    lined l' w' ∧ lg_cap l' = lg_cap l ∧ (size w' ≤ N.max (N.of_nat (length bytes)) (lg_cap l))%N ∧
    (N.of_nat (length (rotated_bytes (wr_disk w'))) ≤ size w + N.of_nat (length bytes))%N) as Hcut.
  { intros n Hn He Hc. apply and_then_Ok in Hc as ([l1 w1] & Hw1 & Hc). apply and_then_Ok in Hc as ([l2 w2] & Hr & Hw2).
    destruct (write_lined _ _ _ _ _ Hl Hw1 ltac:(rewrite length_take; lia)) as (Hl1 & El1 & Er1 & Ec1 & _).
    destruct (rotate_lined _ _ _ _ Hl1 Hr ltac:(by rewrite El1)) as (Hl2 & El2 & Er2 & Ec2 & _).
    destruct (write_lined _ _ _ _ _ Hl2 Hw2 ltac:(rewrite El2, length_drop; cbn [length]; lia)) as (Hl3 & El3 & Er3 & Ec3 & _).
    split_and!; [done|congruence| |].
    - rewrite El3, El2, app_nil_l, length_drop. lia.
    - rewrite Er3, Er2, El1, length_app, length_take. lia. }
  destruct (lg_ends_line l) eqn:Eends.
  { intros Hc. destruct (Hcut 0 ltac:(lia)) as (? & ? & ? & ?); [rewrite take_0, app_nil_r; by apply (ln_flag _ _ Hl)|exact Hc|]. split_and!; [done..|by left|by right]. }
  destruct (feed_at bytes) as [n|] eqn:Ef.
  - apply feed_at_Some in Ef as [Hn Hlast]. intros Hc.
    destruct (Hcut (S n) ltac:(lia)) as (? & ? & ? & ?); [right; rewrite last_append; [done|intros E; by rewrite E in Hlast]|exact Hc|].
    split_and!; [done..|by left|by right].
  - intros Hw. destruct (write_lined _ _ _ _ _ Hl Hw ltac:(lia)) as (Hl' & Elive & Erot & Ecap & Hends). split_and!; [done..| |by left].
    destruct (decide (bytes = [])) as [->|Hne].
    + right. split; [|rewrite Elive, app_nil_r; cbn [length]; lia]. destruct (lg_ends_line l'); [|done]. pose proof (proj1 Hends eq_refl). congruence.
    + right. split; [|rewrite Elive, length_app; lia]. destruct (lg_ends_line l'); [|done]. exfalso.
      pose proof (proj1 Hends eq_refl) as Hlast. clear -Ef Hlast. revert Hlast. induction bytes as [|b bytes IH]; [done|]. cbn [feed_at] in Ef.
      destruct (N.eqb_spec b LINE_FEED); [done|]. destruct (feed_at bytes); [done|]. destruct bytes as [|c bytes]; [by intros [= ->]|]. by apply IH.
Qed.


(** Once a rotation renamed the live file and could not start another, no later
    rotation of this holder's can: there is no live file to rename. *)
Theorem failed_reopen_is_final (l : RotatingLog) (w : Writer) (bytes : list N) :
  dk_live (wr_disk w) = None → lg_ends_line l = true → (0 < lg_written l)%N → (lg_cap l < u64_saturating_add (lg_written l) (N.of_nat (length bytes)))%N →
  is_ok (append io bytes (l, w)).1 = false ∧ wr_stream (append io bytes (l, w)).2.2 = wr_stream w ∧ dk_live (wr_disk (append io bytes (l, w)).2.2) = None.
Proof.
  intros El He Hw Hc. unfold append. cbn [fst]. destruct (N.eqb_spec (lg_written l) 0); [lia|]. destruct (N.leb_spec (u64_saturating_add (lg_written l) (N.of_nat (length bytes))) (lg_cap l)); [lia|].
  cbn [orb]. rewrite He. cbv zeta. rewrite take_0. set (l1 := lg_on_ends_line (λ ends, ends) (lg_on_written (λ n, u64_saturating_add n 0) l)).
  assert (write io [] (l, w) = (Ok tt, (l1, w))) as Hwrite by done.
  assert (rotate io (l1, w) = (Err tt, (l1, ask w))) as Hrot by (unfold rotate; rewrite El; by destruct (io_renames io (wr_calls w))).
  unfold and_then. rewrite Hwrite, Hrot. cbn. by rewrite app_nil_r.
Qed.
End lines.
