(* ===== verification/LogNewest.v ===== *)
(** * The newest lines of a log

    The backward scan of muster-protocol/src/holder/span.rs, block by block, is
    shown to find what a plain reading of the lines finds: where the line begins
    that is the last of the wanted newest, whatever the size of its blocks. *)
From S2P Require Import Prelude RustText Values Tap LogFile LogSpan LogPlaced.

Section newest.
Context (counted_line : list N → bool).

(** Whether the line from [start] to [stop] of the stream counts. *)
Definition line_counts (s : list N) (start stop : nat) : bool :=
  counted_line (take (N.to_nat (N.min (N.of_nat stop) (N.of_nat start + RAW_LINE_KEEP_BYTES)) - start) (drop start s)).
(** Where the line that begins at [p] ends. *)
Definition line_stop (s : list N) (p : nat) : nat := match feed_at (drop p s) with Some k => p + k | None => length s end.
Definition begins_line (s : list N) (p : nat) : bool := bool_decide (s !! pred p = Some LINE_FEED) && line_counts s p (line_stop s p).
(** Where the lines that count begin, after the first line kept, oldest first. *)
Definition line_starts (s : list N) (at_ n : nat) : list nat := filter (λ p, begins_line s p = true) (seq (S at_) n).

(** The scan byte by byte. *)
Fixpoint back (s : list N) (at_ n : nat) (wanted counted : N) (stop : nat) : nat :=
  match n with
  | O => at_
  | S n =>
    let i := at_ + n in
    if bool_decide (s !! i = Some LINE_FEED) then
      let counts := negb (S i =? length s) && line_counts s (S i) stop in
      let counted := if counts then (counted + 1)%N else counted in
      if counts && (wanted <=? counted)%N then S i else back s at_ n wanted counted i
    else back s at_ n wanted counted stop
  end.

Lemma take_slice (s : list N) (low start stop high : nat) :
  low ≤ start → start ≤ stop → stop ≤ high → high ≤ length s →
  take (stop - low - (start - low)) (drop (start - low) (take (high - low) (drop low s))) = take (stop - start) (drop start s).
Proof. intros. rewrite skipn_firstn_comm, take_take, take_drop_cut by lia. f_equal. lia. Qed.

(** A line's head is the same wherever it is read from. *)
Lemma counts_at_spans s at_ sp low high start stop :
  spans s at_ sp → at_ ≤ low → low ≤ high → low ≤ start → start ≤ stop → stop ≤ length s → high ≤ length s →
  counts_at counted_line sp (N.of_nat start) (N.of_nat stop) (N.of_nat low) (take (high - low) (drop low s)) = line_counts s start stop.
Proof.
  intros Hsp Ha Hlh Hs Hle Hstop Hhigh. unfold counts_at, line_counts. cbv zeta. f_equal.
  set (head := N.min (N.of_nat stop) (N.of_nat start + RAW_LINE_KEEP_BYTES)). assert (N.of_nat start ≤ head ≤ N.of_nat stop)%N as [Hh1 Hh2] by (subst head; split; lia). clearbody head.
  assert (head = N.of_nat (N.to_nat head)) as Eh by lia. destruct (N.leb_spec head (N.of_nat low + N.of_nat (length (take (high - low) (drop low s))))) as [Hin|].
  - rewrite length_take, length_drop in Hin. replace (N.to_nat (head - N.of_nat low)) with (N.to_nat head - low) by lia.
    replace (N.to_nat (N.of_nat start - N.of_nat low)) with (start - low) by lia. apply take_slice; lia.
  - unfold read_full_at. rewrite (read_spans _ _ _ _ _ Hsp); [|destruct Hsp as (-> & _); lia].
    replace (N.to_nat (head - N.of_nat start)) with (N.to_nat head - start) by lia. by rewrite Nat2N.id.
Qed.

(** One block is that many bytes of the scan. *)
Lemma scan_block_back s at_ sp wanted low high left counted stop :
  spans s at_ sp → at_ ≤ low → low + left ≤ high → high ≤ length s → low + left ≤ stop ≤ length s →
  match scan_block counted_line sp wanted (N.of_nat low) (take (high - low) (drop low s)) left counted (N.of_nat stop) with
  | inl start => start = N.of_nat (back s at_ (low - at_ + left) wanted counted stop)
  | inr (counted', stop') => ∃ n, stop' = N.of_nat n ∧ low ≤ n ≤ length s ∧
      back s at_ (low - at_ + left) wanted counted stop = back s at_ (low - at_) wanted counted' n
  end.
Proof.
  intros Hsp Ha. revert counted stop. induction left as [|left IH]; intros counted stop Hl Hh Hstop; cbn [scan_block].
  { exists stop. rewrite Nat.add_0_r. split_and!; [done|lia..|done]. }
  rewrite Nat.add_succ_r. cbn [back]. replace (at_ + (low - at_ + left)) with (low + left) by lia.
  rewrite lookup_take_lt, lookup_drop by lia. destruct (bool_decide (s !! (low + left) = Some LINE_FEED)); [|apply IH; lia].
  pose proof Hsp as (_ & Eend & _). rewrite Eend. replace (N.of_nat low + N.of_nat left + 1)%N with (N.of_nat (S (low + left))) by lia.
  assert ((N.of_nat (S (low + left)) =? N.of_nat (length s))%N = (S (low + left) =? length s)) as ->
    by (destruct (Nat.eqb_spec (S (low + left)) (length s)); [apply N.eqb_eq; lia|apply N.eqb_neq; lia]).
  rewrite (counts_at_spans _ at_) by (done || lia). set (c := negb _ && _). destruct (c && _); [done|].
  replace (N.of_nat (S (low + left)) - 1)%N with (N.of_nat (low + left)) by lia. apply IH; lia.
Qed.

Lemma scan_back_back s at_ sp block wanted fuel high counted stop :
  spans s at_ sp → (0 < block)%N → high - at_ ≤ fuel → at_ ≤ high → high ≤ stop ≤ length s →
  scan_back counted_line block fuel sp wanted (N.of_nat high) counted (N.of_nat stop) = N.of_nat (back s at_ (high - at_) wanted counted stop).
Proof.
  intros Hsp Hblock. revert high counted stop. induction fuel as [|fuel IH]; intros high counted stop Hf Ha Hstop; pose proof Hsp as (Eo & _); cbn [scan_back].
  { by replace (high - at_) with 0 by lia. }
  rewrite Eo. destruct (N.ltb_spec (N.of_nat at_) (N.of_nat high)); [|by replace (high - at_) with 0 by lia].
  unfold saturating_sub. set (low := N.to_nat (N.max (N.of_nat high - block) (N.of_nat at_))).
  replace (N.max (N.of_nat high - block) (N.of_nat at_)) with (N.of_nat low) by lia. assert (at_ ≤ low < high) as [Hl1 Hl2] by lia.
  unfold read_full_at. rewrite (read_spans _ _ _ _ _ Hsp) by (rewrite Eo; lia). replace (N.to_nat (N.of_nat high - N.of_nat low)) with (high - low) by lia.
  rewrite Nat2N.id, length_take, length_drop. replace (_ `min` _) with (high - low) by lia.
  pose proof (scan_block_back s at_ sp wanted low high (high - low) counted stop Hsp Hl1 ltac:(lia) ltac:(lia) ltac:(lia)) as Hb.
  replace (low - at_ + (high - low)) with (high - at_) in Hb by lia.
  destruct (scan_block _ _ _ _ _ _ _ _) as [p|[counted' stop']]; [done|]. destruct Hb as (n & -> & Hn & ->). apply IH; lia.
Qed.

(** The line that ends at or after a place. *)
Lemma line_stop_feed s i : s !! i = Some LINE_FEED → line_stop s i = i.
Proof.
  intros E. unfold line_stop. rewrite (drop_S _ _ _ E). cbn [feed_at]. rewrite N.eqb_refl. lia.
Qed.
Lemma line_stop_other s i : i < length s → s !! i ≠ Some LINE_FEED → line_stop s i = line_stop s (S i).
Proof.
  intros Hi Hne. destruct (s !! i) as [b|] eqn:E; [|by apply lookup_ge_None in E; lia]. unfold line_stop. rewrite (drop_S _ _ _ E). cbn [feed_at].
  destruct (N.eqb_spec b LINE_FEED) as [->|]; [done|]. destruct (feed_at (drop (S i) s)); cbn; lia.
Qed.

(** The scan finds the wanted one of the newest lines. *)
Lemma back_starts s at_ n wanted counted :
  at_ + n ≤ length s → (counted < wanted)%N →
  back s at_ n wanted counted (line_stop s (at_ + n)) =
    default at_ (reverse (line_starts s at_ (if at_ + n =? length s then pred n else n)) !! N.to_nat (wanted - counted - 1)).
Proof.
  revert counted. induction n as [|n IH]; intros counted Hn Hc.
  { cbn [back]. by destruct (_ =? _). }
  cbn [back]. assert (∀ c, (c < wanted)%N → back s at_ n wanted c (line_stop s (at_ + n)) = default at_ (reverse (line_starts s at_ n) !! N.to_nat (wanted - c - 1))) as IH'.
  { intros c Hcw. rewrite IH by lia. destruct (Nat.eqb_spec (at_ + n) (length s)); [lia|done]. }
  clear IH. assert (line_starts s at_ (S n) = line_starts s at_ n ++ (if begins_line s (S (at_ + n)) then [S (at_ + n)] else [])) as Esnoc.
  { unfold line_starts. rewrite seq_S, filter_app. f_equal. replace (S at_ + n) with (S (at_ + n)) by lia. rewrite filter_cons, filter_nil.
    destruct (begins_line s (S (at_ + n))); [by rewrite decide_True|by rewrite decide_False]. }
  replace (at_ + S n) with (S (at_ + n)) by lia. unfold begins_line in Esnoc. cbn [pred] in Esnoc |- *.
  destruct (bool_decide (s !! (at_ + n) = Some LINE_FEED)) eqn:Eb; cbn [andb] in Esnoc.
  - apply bool_decide_eq_true in Eb. pose proof (line_stop_feed _ _ Eb) as Es. rewrite Es in IH'.
    destruct (Nat.eqb_spec (S (at_ + n)) (length s)); cbn [negb andb]; [by apply IH'|].
    rewrite Esnoc. destruct (line_counts s (S (at_ + n)) (line_stop s (S (at_ + n)))); cbn [andb].
    + rewrite reverse_app, reverse_singleton. cbn [app]. destruct (N.leb_spec wanted (counted + 1)).
      * replace (N.to_nat (wanted - counted - 1)) with 0 by lia. done.
      * rewrite IH' by lia. replace (N.to_nat (wanted - counted - 1)) with (S (N.to_nat (wanted - (counted + 1) - 1))) by lia. done.
    + rewrite app_nil_r. by apply IH'.
  - apply bool_decide_eq_false in Eb. rewrite <-line_stop_other, IH' by (done || lia). destruct (_ =? _); [done|by rewrite Esnoc, app_nil_r].
Qed.

(** C30: where a read of the newest lines starts is where a reading of every line
    finds it, whatever the size of the blocks the scan goes back by: at the
    line that completes the count of the newest lines that count, an empty one
    after the last line feed left out, or at the oldest byte kept when there
    are fewer, the line there not being known to begin there. *)
Theorem newest_start_exact (s : list N) (at_ : nat) (sp : Span) (block wanted : N) :
  spans s at_ sp → (0 < block)%N → (0 < wanted)%N →
  newest_start counted_line block wanted sp =
    N.of_nat (default at_ (reverse (line_starts s at_ (length s - at_ - 1)) !! N.to_nat (wanted - 1))).
Proof.
  intros Hsp Hb Hw. unfold newest_start. pose proof Hsp as (Eo & Ee & Hle & _). rewrite Eo, Ee.
  rewrite (scan_back_back s at_) by (done || lia). f_equal.
  pose proof (back_starts s at_ (length s - at_) wanted 0 ltac:(lia) ltac:(lia)) as E. replace (at_ + (length s - at_)) with (length s) in E by lia.
  assert (line_stop s (length s) = length s) as Els by (unfold line_stop; by rewrite drop_all). rewrite Els, Nat.eqb_refl in E. rewrite E.
  replace (pred (length s - at_)) with (length s - at_ - 1) by lia. by rewrite N.sub_0_r.
Qed.
End newest.
