(* ===== verification/LogRead.v ===== *)
(** * Reading a log by lines

    Models muster-protocol/src/holder/log_reader.rs with kept.rs, kept_line.rs,
    filter_state.rs, error_line.rs, line_filter.rs, log_query.rs, log_slice.rs,
    line_limit.rs, byte_limit.rs, visited_piece.rs, logged_line.rs and strip.rs:
    a read renders the log as one stream from a line start at most a look-back
    before where it begins, filters the lines, and keeps the newest within its
    caps; a scan hands out each raw line with the text its rendering finished.

    How bytes become lines is behind [LineRenderer], as for the output tap; a
    compiled pattern's matching, and the Unicode classes of letters and digits
    and of capitals, are parameters. A scan opens the log again for each chunk
    it reads: [chunk n] is how the looks of its [n]th opening find the disk. *)
From S2P Require Import Prelude RustText Values Tap LogFile LogSpan WaitData.

Definition CATCH_UP_CHUNK_BYTES : N := 64 * 1024.
Definition LINE_MAX_CHARS : nat := N.to_nat 2000.
Definition ERROR_CONTEXT_LINES : N := 12.
Definition GROUP_SEPARATOR : rstr := lit "--".
Definition RENDER_LOOKBACK_BYTES : N := 256 * 1024.
Definition CUT_OPEN : rstr := lit " [... ".
Definition CUT_CLOSE : rstr := lit " chars cut]".
Definition LINE_MAX_BYTES : N := 64 * 1024.

(** ** What is asked and answered *)
Definition MAX_LOG_LINES : N := 2000.
Definition MAX_LOG_BYTES : N := 64 * 1024.
Definition is_line_limit (n : N) : bool := (0 <? n)%N && (n <=? MAX_LOG_LINES)%N.
Definition is_byte_limit (n : N) : bool := (0 <? n)%N && (n <=? MAX_LOG_BYTES)%N.

Inductive LineFilter := All | Grep (matcher : rstr) | ErrorsOnly.

Record LogQuery := { lq_since : option N; lq_lines : N; lq_filter : LineFilter; lq_max_bytes : N }.

Record LogSlice := {
  sl_from : N;
  sl_cursor : N;
  sl_lines : list rstr;
  sl_omitted_lines : N;
  sl_rotated_away_bytes : N;
  sl_unrendered_lines : N;
}.

Inductive ReadError := CursorAhead (cursor end_ : N) | ReadFailed.

(** ** Lines that report an error *)
Definition ERROR_WORDS : list rstr :=
  lit <$> ["error"; "fatal"; "panic"; "panicked"; "exception"; "traceback"; "failed"; "uncaught"; "unhandled"; "eaddrinuse"; "econnrefused"]%string.
Definition ERROR_CLASS_SUFFIXES : list rstr := lit <$> ["Error"; "Exception"]%string.
Definition ERROR_LEVEL_LETTER : rstr := lit "E".
Definition GLOG_DATE_DIGITS : nat := 4.
Definition CONTINUATION_PREFIXES : list rstr := [lit "at "; lit "File " ++ [34%N]; lit "Caused by"; lit "-->"; lit "|"].

(** [str::ends_with]. *)
Definition ends_with (p s : rstr) : bool := starts_with (rev p) (rev s).

(** [str::split] at a class of characters. *)
Fixpoint split_at (p : rchar → bool) (word s : rstr) : list rstr :=
  match s with
  | [] => [word]
  | c :: s => if p c then word :: split_at p [] s else split_at p (word ++ [c]) s
  end.

Section lines.
Context (is_alphanumeric is_uppercase : rchar → bool).

Definition is_word_character (c : rchar) : bool := is_alphanumeric c || (c =? 95)%N.

Definition is_error_class (word : rstr) : bool :=
  match word with c :: _ => is_uppercase c | [] => false end &&
  existsb (λ suffix, (utf8_len suffix <? utf8_len word)%N && ends_with suffix word) ERROR_CLASS_SUFFIXES.

Definition is_error_level (word : rstr) : bool :=
  match strip_prefix ERROR_LEVEL_LETTER word with
  | None => false
  | Some rest => bool_decide (rest = []) || ((N.of_nat GLOG_DATE_DIGITS <=? utf8_len rest)%N && forallb is_ascii_digit rest)
  end.

Definition is_error_line (line : rstr) : bool :=
  let words := filter (λ word, word ≠ []) (split_at (λ c, negb (is_word_character c)) [] line) in
  match words with word :: _ => is_error_level word | [] => false end ||
  existsb (λ word, is_error_class word || existsb (λ error, eq_ignore_ascii_case word error) ERROR_WORDS) words.

Definition is_continuation (line : rstr) : bool :=
  (match line with c :: _ => is_whitespace c | [] => false end && negb (bool_decide (trim line = []))) ||
  existsb (λ prefix, starts_with prefix line) CONTINUATION_PREFIXES.
End lines.

(** ** The newest lines kept *)
Record KeptLine := { kl_text : rstr; kl_at : N; kl_separator : bool }.

Record Kept := {
  kp_lines : list KeptLine;
  kp_separators : N;
  kp_bytes : N;
  kp_omitted : N;
  kp_line_cap : N;
  kp_byte_cap : N;
  kp_counting : bool;
  kp_uncounted : N;
}.

Definition kept_new (q : LogQuery) : Kept :=
  {| kp_lines := []; kp_separators := 0; kp_bytes := 0; kp_omitted := 0; kp_line_cap := lq_lines q; kp_byte_cap := lq_max_bytes q;
     kp_counting := true; kp_uncounted := 0 |}.

Definition count_from_now (counting : bool) (k : Kept) : Kept :=
  {| kp_lines := kp_lines k; kp_separators := kp_separators k; kp_bytes := kp_bytes k; kp_omitted := kp_omitted k; kp_line_cap := kp_line_cap k;
     kp_byte_cap := kp_byte_cap k; kp_counting := counting; kp_uncounted := kp_uncounted k |}.

Definition entry_bytes (e : KeptLine) : N := (utf8_len (kl_text e) + 1)%N.

Definition drop_oldest (k : Kept) : Kept :=
  match kp_lines k with
  | [] => k
  | e :: rest =>
    {| kp_lines := rest; kp_separators := if kl_separator e then (kp_separators k - 1)%N else kp_separators k; kp_bytes := (kp_bytes k - entry_bytes e)%N;
       kp_omitted := if (0 <? kp_uncounted k)%N then kp_omitted k else if kl_separator e then kp_omitted k else (kp_omitted k + 1)%N;
       kp_line_cap := kp_line_cap k; kp_byte_cap := kp_byte_cap k; kp_counting := kp_counting k;
       kp_uncounted := if (0 <? kp_uncounted k)%N then (kp_uncounted k - 1)%N else kp_uncounted k |}
  end.

Definition over (k : Kept) : bool :=
  negb (bool_decide (kp_lines k = [])) &&
  ((kp_line_cap k <? N.of_nat (length (kp_lines k)) - kp_separators k)%N || (kp_byte_cap k <? kp_bytes k)%N).

(** Drops until the caps hold; each round drops a line, so [fuel] the count of
    lines is enough. *)
Fixpoint enforce (fuel : nat) (k : Kept) : Kept :=
  match fuel with
  | O => k
  | S fuel =>
    if over k then
      let k := drop_oldest k in
      enforce fuel (if match kp_lines k with e :: _ => kl_separator e | [] => false end then drop_oldest k else k)
    else k
  end.
Definition enforce_caps (k : Kept) : Kept := enforce (length (kp_lines k)) k.

Definition add_entry (e : KeptLine) (k : Kept) : Kept :=
  enforce_caps
    {| kp_lines := kp_lines k ++ [e]; kp_separators := kp_separators k; kp_bytes := (kp_bytes k + entry_bytes e)%N; kp_omitted := kp_omitted k;
       kp_line_cap := kp_line_cap k; kp_byte_cap := kp_byte_cap k; kp_counting := kp_counting k;
       kp_uncounted := if kp_counting k then kp_uncounted k else (kp_uncounted k + 1)%N |}.

Definition push_line (line : rstr) (at_ : N) : Kept → Kept := add_entry {| kl_text := line; kl_at := at_; kl_separator := false |}.

Definition separate (at_ : N) (k : Kept) : Kept :=
  if bool_decide (kp_lines k = []) then k else
  add_entry {| kl_text := GROUP_SEPARATOR; kl_at := at_; kl_separator := true |}
    {| kp_lines := kp_lines k; kp_separators := (kp_separators k + 1)%N; kp_bytes := kp_bytes k; kp_omitted := kp_omitted k; kp_line_cap := kp_line_cap k;
       kp_byte_cap := kp_byte_cap k; kp_counting := kp_counting k; kp_uncounted := kp_uncounted k |}.

Definition first_at (k : Kept) : option N := kl_at <$> head (kp_lines k).

(** ** Filtering *)
Record FilterState := { fs_context : N; fs_previous_kept : bool }.
Definition filter_new : FilterState := {| fs_context := 0; fs_previous_kept := false |}.

Section filtering.
Context (is_alphanumeric is_uppercase : rchar → bool) (is_match : rstr → rstr → bool).

Definition offer (filter : LineFilter) (text : rstr) (at_ : N) (fk : FilterState * Kept) : FilterState * Kept :=
  let '(f, k) := fk in
  let '(keep, context, k) :=
    match filter with
    | All => (true, fs_context f, k)
    | Grep matcher => (is_match matcher text, fs_context f, k)
    | ErrorsOnly =>
      if is_error_line is_alphanumeric is_uppercase text then (true, ERROR_CONTEXT_LINES, if fs_previous_kept f then k else separate at_ k)
      else if (0 <? fs_context f)%N && is_continuation text then (true, (fs_context f - 1)%N, k)
      else (false, 0%N, k)
    end in
  ({| fs_context := context; fs_previous_kept := keep |}, if keep then push_line text at_ k else k).

Definition cut (text : rstr) : rstr :=
  if length text <=? LINE_MAX_CHARS then text
  else take LINE_MAX_CHARS text ++ CUT_OPEN ++ print_dec (N.of_nat (length text - LINE_MAX_CHARS)) ++ CUT_CLOSE.

Context `{LineRenderer}.

(** One raw line rendered alone. *)
Definition strip_line (raw : list N) : option rstr :=
  let r := render_advance raw render_new in
  let r := if bool_decide (last raw = Some LINE_FEED) then r else render_advance [LINE_FEED] r in
  match (render_take r).1 with [] => None | lines => Some (concat lines) end.

(** Whether a raw line counts toward the newest lines wanted. *)
Definition counted_line (filter : LineFilter) (head : list N) : bool :=
  if match filter with All => negb (existsb (N.eqb ESC) head) | _ => false end then true else
  match strip_line head with
  | None => false
  | Some text =>
    match filter with
    | All => true
    | Grep matcher => is_match matcher text
    | ErrorsOnly => is_error_line is_alphanumeric is_uppercase text
    end
  end.

(** ** Where a read begins rendering *)

(** The blocks a reader of the span hands on, from [at_], [room] bytes at most. *)
Fixpoint blocks (fuel : nat) (sp : Span) (at_ room : N) : list (list N) :=
  match fuel with
  | O => []
  | S fuel =>
    match read_at sp at_ (N.min room BLOCK_BYTES) with
    | [] => []
    | got => got :: blocks fuel sp (OutputCursor.advanced at_ (N.of_nat (length got))) (room - N.of_nat (length got))
    end
  end.
(** Each block is at least a byte. *)
Definition blocks_of (sp : Span) (at_ room : N) : list (list N) := blocks (S (N.to_nat (sp_end sp - at_))) sp at_ room.

Section look_back.
Context {A : Type} (take_piece : N → bool → list N → A → bool * A).

(** Hands each block on, cut at the line start once one is found; whether to go on
    is the first of what [take_piece] gives. *)
Fixpoint look_on (bs : list (list N)) (begin at_ : N) (on_line : bool) (a : A) : N * A :=
  match bs with
  | [] => (begin, a)
  | block :: bs =>
    let found := if on_line then None else feed_at block in
    let '(begin, on_line, piece) :=
      match found with
      | Some index => (OutputCursor.advanced at_ (N.of_nat index + 1), true, drop (S index) block)
      | None => (begin, on_line, block)
      end in
    let at_ := OutputCursor.advanced at_ (N.of_nat (length block)) in
    let '(go, a) := take_piece begin on_line piece a in
    if go then look_on bs begin at_ on_line a else (begin, a)
  end.

Definition look_back (sp : Span) (start : N) (a : A) : N * A :=
  let bound := N.max (sp_oldest sp) (saturating_sub start RENDER_LOOKBACK_BYTES) in
  let on_line := (bound =? sp_oldest sp)%N in
  let '(go, a) := if on_line then take_piece bound on_line [] a else (true, a) in
  if go then look_on (blocks_of sp bound (OutputCursor.bytes_since start bound)) bound bound on_line a else (bound, a).
End look_back.

Definition renderer_at (sp : Span) (start : N) : PlacedRenderer :=
  let draw begin (_ : bool) piece (drawn : option (N * PlacedRenderer)) :=
    let r := match drawn with
             | Some (b, r) => if (b =? begin)%N then r else placed_new begin
             | None => placed_new begin
             end in
    (true, Some (begin, (placed_take_lines (placed_advance piece r)).2)) in
  let '(begin, drawn) := look_back draw sp start None in
  let r := match drawn with Some (_, r) => r | None => placed_new begin end in
  let r := (placed_take_faults (placed_take_lines (placed_finish r)).2).2 in
  if (pr_next r <? start)%N then skip_to start r else r.

Definition line_start_before (sp : Span) (start : N) : N :=
  (look_back (λ _ on_line _ a, (negb on_line, a)) sp start tt).1.

(** ** A read *)
Record Reading := { rd_renderer : PlacedRenderer; rd_filter : FilterState; rd_kept : Kept; rd_line_at : N; rd_at : N }.

Definition offer_lines (q : LogQuery) (start : N) (lines : list rstr) (at_ : N) (fk : FilterState * Kept) : FilterState * Kept :=
  foldl (λ fk line, offer (lq_filter q) (cut line) at_ fk) (fk.1, count_from_now (start <=? at_)%N fk.2) lines.

Definition read_piece (q : LogQuery) (start : N) (s : Reading) (piece : list N) : Reading :=
  let '(lines, r) := placed_take_lines (placed_advance piece (rd_renderer s)) in
  let at_ := OutputCursor.advanced (rd_at s) (N.of_nat (length piece)) in
  let '(f, k) := offer_lines q start lines (rd_line_at s) (rd_filter s, rd_kept s) in
  let ended := bool_decide (last piece = Some LINE_FEED) in
  {| rd_renderer := r; rd_filter := f; rd_kept := k; rd_at := at_;
     rd_line_at := if ended || negb (bool_decide (lines = [])) then at_ else rd_line_at s |}.

(** A read from [start], rendering from where the renderer is. *)
Definition read_from (q : LogQuery) (sp : Span) (start rotated_away : N) (r : PlacedRenderer) : LogSlice :=
  let begin := pr_next r in
  let s := {| rd_renderer := r; rd_filter := filter_new; rd_kept := kept_new q; rd_line_at := begin; rd_at := begin |} in
  let s := foldl (read_piece q start) s (concat (split_inclusive <$> blocks_of sp begin (sp_end sp - begin))) in
  let '(lines, r) := placed_take_lines (placed_finish (rd_renderer s)) in
  let kept := (offer_lines q start lines (rd_line_at s) (rd_filter s, rd_kept s)).2 in
  let from := match first_at kept with
              | Some first => if (0 <? kp_omitted kept)%N || (first <? start)%N then first else start
              | None => start
              end in
  {| sl_from := from; sl_cursor := sp_end sp; sl_lines := kl_text <$> kp_lines kept; sl_omitted_lines := kp_omitted kept;
     sl_rotated_away_bytes := rotated_away; sl_unrendered_lines := (placed_take_faults r).1 |}.

Definition read_log (look : nat → option Disk) (q : LogQuery) : result LogSlice ReadError :=
  match open_span look with
  | Err _ => Err ReadFailed
  | Ok sp =>
    match lq_since q with
    | Some since =>
      if (sp_end sp <? since)%N then Err (CursorAhead since (sp_end sp)) else
      let away := OutputCursor.bytes_since (sp_oldest sp) since in
      let start := N.max since (sp_oldest sp) in
      if (start =? sp_end sp)%N then
        Ok {| sl_from := sp_end sp; sl_cursor := sp_end sp; sl_lines := []; sl_omitted_lines := 0; sl_rotated_away_bytes := away; sl_unrendered_lines := 0 |}
      else Ok (read_from q sp start away (renderer_at sp start))
    | None =>
      let start := newest_start (counted_line (lq_filter q)) BLOCK_BYTES (lq_lines q) sp in
      Ok (read_from q sp start 0 (placed_new (line_start_before sp start)))
    end
  end.

(** ** A scan *)
Record VisitedPiece := { vp_at : N; vp_bytes : list N; vp_line_at : N; vp_texts : list rstr }.
(** Where a line of the texts began. *)
Definition began (p : VisitedPiece) (index : nat) : N := match index with O => vp_line_at p | S _ => vp_at p end.

Section visiting.
Context {A : Type} (visit : VisitedPiece → A → bool * A).

Record Visiting := {
  vs_renderer : PlacedRenderer;
  vs_line : list N;
  vs_line_at : N;
  vs_drawn_from : N;
  vs_next : N;
  vs_began : option N;
  vs_acc : A;
}.

(** Renders the line held and hands it on; whether to go on and whether a line was
    finished. *)
Definition hand_line (ending : bool) (s : Visiting) : bool * bool * Visiting :=
  let r := placed_advance (vs_line s) (vs_renderer s) in
  let r := if ending then placed_finish r else r in
  let '(texts, r) := placed_take_lines r in
  let kept line acc := {| vs_renderer := r; vs_line := line; vs_line_at := vs_line_at s; vs_drawn_from := vs_drawn_from s; vs_next := vs_next s;
                          vs_began := vs_began s; vs_acc := acc |} in
  if bool_decide (vs_line s = []) && bool_decide (texts = []) then (true, false, kept (vs_line s) (vs_acc s)) else
  let '(go, acc) := visit {| vp_at := vs_line_at s; vp_bytes := vs_line s; vp_line_at := vs_drawn_from s; vp_texts := texts |} (vs_acc s) in
  (go, negb (bool_decide (texts = [])), kept [] acc).

Definition with_drawn (r : PlacedRenderer → PlacedRenderer) (at_ : N) (s : Visiting) : Visiting :=
  {| vs_renderer := r (vs_renderer s); vs_line := vs_line s; vs_line_at := vs_line_at s; vs_drawn_from := at_; vs_next := vs_next s;
     vs_began := vs_began s; vs_acc := vs_acc s |}.

(** One piece of a chunk, up to a line feed or the chunk's end: held, and handed on
    once its line ended or grew too long. *)
Definition visit_piece (piece : list N) (s : Visiting) : bool * Visiting :=
  let cursor := OutputCursor.advanced (vs_next s) (N.of_nat (length piece)) in
  let s := {| vs_renderer := vs_renderer s; vs_line := vs_line s ++ piece; vs_line_at := if bool_decide (vs_line s = []) then vs_next s else vs_line_at s;
              vs_drawn_from := vs_drawn_from s; vs_next := cursor; vs_began := vs_began s; vs_acc := vs_acc s |} in
  let ended := bool_decide (last piece = Some LINE_FEED) in
  if negb ended && (N.of_nat (length (vs_line s)) <? LINE_MAX_BYTES)%N then (true, s) else
  let '(go, produced, s) := hand_line false s in
  (go, if go && (ended || produced) then with_drawn id cursor s else s).

Fixpoint visit_pieces (pieces : list (list N)) (s : Visiting) : bool * Visiting :=
  match pieces with
  | [] => (true, s)
  | piece :: pieces => let '(go, s) := visit_piece piece s in if go then visit_pieces pieces s else (false, s)
  end.

(** Reads on chunk by chunk; each is at least a byte, so [fuel] the bytes left and
    one more is enough. Whether the visitor went on to the end. *)
Fixpoint visit_chunks (fuel n : nat) (chunk : nat → nat → option Disk) (until : N) (s : Visiting) : result (bool * Visiting) ReadError :=
  match fuel with
  | O => Ok (true, s)
  | S fuel =>
    if (vs_next s <? until)%N then
      match read_log_range (chunk n) (vs_next s) until CATCH_UP_CHUNK_BYTES, vs_began s with
      | Err _, None => Err ReadFailed
      | Err _, Some _ => Ok (true, s)
      | Ok (at_, bytes), _ =>
        let s := {| vs_renderer := vs_renderer s; vs_line := vs_line s; vs_line_at := vs_line_at s; vs_drawn_from := vs_drawn_from s; vs_next := vs_next s;
                    vs_began := Some (default at_ (vs_began s)); vs_acc := vs_acc s |} in
        if bool_decide (bytes = []) then Ok (true, s) else
        let '(go, s) := if (vs_next s <? at_)%N
                        then let '(go, _, s) := hand_line true s in (go, if go then with_drawn (skip_to at_) at_ s else s)
                        else (true, s) in
        if (go : bool) then
          let s := {| vs_renderer := vs_renderer s; vs_line := vs_line s; vs_line_at := vs_line_at s; vs_drawn_from := vs_drawn_from s; vs_next := at_;
                      vs_began := vs_began s; vs_acc := vs_acc s |} in
          let '(go, s) := visit_pieces (split_inclusive bytes) s in
          if (go : bool) then visit_chunks fuel (S n) chunk until s else Ok (false, s)
        else Ok (false, s)
      end
    else Ok (true, s)
  end.

Definition visit_lines (look : nat → option Disk) (chunk : nat → nat → option Disk) (from until : N) (a : A) : result (N * N * A) ReadError :=
  match open_span look with
  | Err _ => Err ReadFailed
  | Ok sp =>
    let r := renderer_at sp (N.max from (sp_oldest sp)) in
    let start := N.max (pr_next r) from in
    let s := {| vs_renderer := r; vs_line := []; vs_line_at := start; vs_drawn_from := start; vs_next := start; vs_began := None; vs_acc := a |} in
    match visit_chunks (S (N.to_nat (until - start))) 0 chunk until s with
    | Err e => Err e
    | Ok (go, s) =>
      let s := if (go : bool) then (hand_line true s).2 else s in
      Ok (default start (vs_began s), (placed_take_faults (vs_renderer s)).1, vs_acc s)
    end
  end.
End visiting.

(** The first line the pattern matches. *)
Definition find_text (matcher : rstr) (p : VisitedPiece) : option TapLine :=
  (λ it : nat * rstr, {| tl_at := began p it.1; tl_text := it.2 |}) <$> head (filter (λ it, is_match matcher it.2 = true) (imap pair (vp_texts p))).

Definition first_match (look : nat → option Disk) (chunk : nat → nat → option Disk) (from until : N) (matcher : rstr) : result LogScan ReadError :=
  match visit_lines (λ p m, match find_text matcher p with Some line => (false, Some line) | None => (true, m) end) look chunk from until None with
  | Ok (began, unrendered, matched) => Ok {| ls_from := began; ls_matched := matched; ls_unrendered := unrendered |}
  | Err e => Err e
  end.

(** The last lines, read from at most [max] bytes; the line the bound cuts is left
    out. *)
Definition last_lines (look : nat → option Disk) (chunk : nat → nat → option Disk) (from until : N) (count : nat) (max : N) : result LogLines ReadError :=
  if Nat.eqb count 0 then Ok {| ll_lines := []; ll_unrendered := 0 |} else
  let bound := N.max from (saturating_sub until max) in
  let cut := (from <? bound)%N in
  let start := if cut then (bound - 1)%N else bound in
  let keep lines text := (if Nat.eqb (length lines) count then drop 1 lines else lines) ++ [text] in
  match visit_lines (λ p (ca : bool * list rstr), if ca.1 && (vp_at p =? start)%N then (true, (false, ca.2))
                                                  else (true, (false, foldl keep ca.2 (vp_texts p)))) look chunk start until (cut, []) with
  | Ok (_, unrendered, (_, lines)) => Ok {| ll_lines := lines; ll_unrendered := unrendered |}
  | Err e => Err e
  end.
End filtering.
