(* ===== verification/LogKept.v ===== *)
(** * What a read of a log keeps

    The lines a read keeps are the longest run of the newest lines that passed
    its filter within its caps (muster-protocol/src/holder/kept.rs and
    filter_state.rs), and a read answers at the log's end
    (log_reader.rs). *)
From S2P Require Import Prelude RustText Values Tap LogFile LogSpan LogPlaced LogRead.

(** ** The longest run within the caps *)
Definition bytes_of (l : list KeptLine) : N := foldr (λ e n, entry_bytes e + n)%N 0%N l.
Definition separators_of (l : list KeptLine) : N := foldr (λ e n, (if kl_separator e then 1 else 0) + n)%N 0%N l.
Definition lines_of (l : list KeptLine) : N := (N.of_nat (length l) - separators_of l)%N.
Definition exceeds (q : LogQuery) (l : list KeptLine) : Prop := (lq_lines q < lines_of l)%N ∨ (lq_max_bytes q < bytes_of l)%N.
Definition leads (l : list KeptLine) : Prop := match l with e :: _ => kl_separator e = false | [] => True end.
Definition line_led (l : list KeptLine) : Prop := match l with e :: _ => kl_separator e = false | [] => False end.

(** No two separators next to each other. *)
Fixpoint spaced (l : list KeptLine) : Prop :=
  match l with
  | [] => True
  | e :: l => (kl_separator e = true → leads l) ∧ spaced l
  end.

(** [kept] is the longest suffix of [all] that starts with a line and fits. *)
Record longest (q : LogQuery) (all kept : list KeptLine) : Prop := {
  lo_suffix : kept `suffix_of` all;
  lo_leads : leads kept;
  lo_fits : ¬ exceeds q kept;
  lo_longest : ∀ t, t `suffix_of` all → length kept < length t → line_led t → exceeds q t;
}.

(** The books of a collection agree with its lines. *)
Record booked (q : LogQuery) (k : Kept) : Prop := {
  bk_bytes : kp_bytes k = bytes_of (kp_lines k);
  bk_separators : kp_separators k = separators_of (kp_lines k);
  bk_line_cap : kp_line_cap k = lq_lines q;
  bk_byte_cap : kp_byte_cap k = lq_max_bytes q;
}.

Lemma separators_length l : (separators_of l ≤ N.of_nat (length l))%N.
Proof. induction l as [|e l IH]; cbn [separators_of foldr length]; [done|]. fold (separators_of l). destruct (kl_separator e); lia. Qed.

Lemma bytes_of_app a b : bytes_of (a ++ b) = (bytes_of a + bytes_of b)%N.
Proof. induction a as [|e a IH]; [done|]. cbn [app bytes_of foldr]. fold (bytes_of (a ++ b)) (bytes_of a). rewrite IH. lia. Qed.
Lemma separators_of_app a b : separators_of (a ++ b) = (separators_of a + separators_of b)%N.
Proof. induction a as [|e a IH]; [done|]. cbn [app separators_of foldr]. fold (separators_of (a ++ b)) (separators_of a). rewrite IH. lia. Qed.
Lemma exceeds_app q a b : exceeds q a → exceeds q (a ++ b).
Proof.
  unfold exceeds, lines_of. rewrite bytes_of_app, separators_of_app, length_app. pose proof (separators_length a). pose proof (separators_length b).
  intros [?|?]; [left|right]; lia.
Qed.

Lemma over_exceeds q k : booked q k → over k = true ↔ exceeds q (kp_lines k).
Proof.
  intros [Eb Es El Ec]. unfold over, exceeds, lines_of. rewrite Eb, Es, El, Ec, andb_true_iff, orb_true_iff, !N.ltb_lt, negb_true_iff, bool_decide_eq_false.
  split; [by intros [_ ?]|]. intros Hx. split; [|done]. intros E. rewrite E in Hx. cbn in Hx. lia.
Qed.

Lemma drop_oldest_booked q k e rest : kp_lines k = e :: rest → booked q k → booked q (drop_oldest k) ∧ kp_lines (drop_oldest k) = rest.
Proof.
  intros E [Eb Es El Ec]. unfold drop_oldest. rewrite E in *. cbn [bytes_of separators_of foldr] in *. fold (bytes_of rest) (separators_of rest) in *.
  split; [|done]. split; cbn [kp_bytes kp_lines kp_separators kp_line_cap kp_byte_cap]; [lia| |done..]. destruct (kl_separator e); lia.
Qed.

(** Suffixes one longer than another. *)
Lemma suffix_step {B} (t rest all : list B) e : t `suffix_of` all → (e :: rest) `suffix_of` all → length rest < length t → t = e :: rest ∨ length (e :: rest) < length t.
Proof.
  intros [a Ha] [b Hb] Hl. destruct (decide (length t = length (e :: rest))) as [El|]; [left|right; cbn in *; lia].
  assert (a ++ t = b ++ e :: rest) as E by congruence. apply app_inj_2 in E as [_ ?]; done.
Qed.

Lemma spaced_suffix t all : t `suffix_of` all → spaced all → spaced t.
Proof. intros [a ->]. induction a as [|e a IH]; [done|]. cbn [app spaced]. intros [_ ?]. by apply IH. Qed.

(** Dropping until the caps hold. *)
Lemma enforce_longest q all fuel k :
  booked q k → kp_lines k `suffix_of` all → leads (kp_lines k) → spaced all → length (kp_lines k) ≤ fuel →
  (∀ t, t `suffix_of` all → length (kp_lines k) < length t → line_led t → exceeds q t) →
  booked q (enforce fuel k) ∧ longest q all (kp_lines (enforce fuel k)).
Proof.
  intros Hbk Hsuf Hlead Hsp. revert k Hbk Hsuf Hlead. induction fuel as [|fuel IH]; intros k Hbk Hsuf Hlead Hf Hlong; cbn [enforce].
  { split; [done|]. split; [done..| |done]. rewrite <-(over_exceeds _ _ Hbk). unfold over. destruct (kp_lines k); [done|cbn in Hf; lia]. }
  destruct (over k) eqn:Eo; [|split; [done|]; split; [done..| |done]; rewrite <-(over_exceeds _ _ Hbk); congruence].
  pose proof (proj1 (over_exceeds _ _ Hbk) Eo) as Hx. destruct (kp_lines k) as [|e rest] eqn:El; [unfold over in Eo; by rewrite El in Eo|].
  destruct (drop_oldest_booked q k e rest El Hbk) as [Hbk1 El1]. cbv zeta. cbn [length] in Hf.
  assert (rest `suffix_of` all) as Hsuf1 by (etransitivity; [|exact Hsuf]; by exists [e]).
  assert (∀ t, t `suffix_of` all → length rest < length t → line_led t → exceeds q t) as Hlong1.
  { intros t Ht Hlt Hled. destruct (suffix_step t rest all e Ht Hsuf Hlt) as [->|?]; [done|]. by apply Hlong. }
  rewrite El1. destruct rest as [|e1 rest1].
  { apply IH; rewrite ?El1; try done. cbn; lia. }
  destruct (kl_separator e1) eqn:Es1.
  - destruct (drop_oldest_booked q _ e1 rest1 El1 Hbk1) as [Hbk2 El2]. apply IH; rewrite ?El2; try done.
    + etransitivity; [|exact Hsuf1]. by exists [e1].
    + pose proof (spaced_suffix _ _ Hsuf1 Hsp) as [Hs _]. by apply Hs.
    + cbn in Hf; lia.
    + intros t Ht Hlt Hled. destruct (suffix_step t rest1 all e1 Ht Hsuf1 Hlt) as [->|?]; [cbn in Hled; congruence|]. by apply Hlong1.
  - apply IH; rewrite ?El1; try done. cbn in *; lia.
Qed.

Lemma spaced_snoc all e : spaced all → (kl_separator e = true → match last all with Some l => kl_separator l = false | None => True end) → spaced (all ++ [e]).
Proof.
  intros Hs He. induction all as [|x all IH]; [done|]. destruct Hs as [Hx Hs]. cbn [app spaced]. split.
  - intros Hsx. specialize (Hx Hsx). destruct all as [|y all]; [|done]. cbn in *. destruct (kl_separator e); [|done]. specialize (He eq_refl). congruence.
  - apply IH; [done|]. intros Hse. specialize (He Hse). by destruct all.
Qed.

(** Adding an entry keeps the longest run, of one more. *)
Lemma add_entry_longest q all k e :
  booked q {| kp_lines := kp_lines k; kp_separators := kp_separators k - (if kl_separator e then 1 else 0); kp_bytes := kp_bytes k; kp_omitted := kp_omitted k;
              kp_line_cap := kp_line_cap k; kp_byte_cap := kp_byte_cap k; kp_counting := kp_counting k; kp_uncounted := kp_uncounted k |} →
  (kl_separator e = true → (0 < kp_separators k)%N ∧ kp_lines k ≠ []) →
  longest q all (kp_lines k) → spaced (all ++ [e]) →
  booked q (add_entry e k) ∧ longest q (all ++ [e]) (kp_lines (add_entry e k)).
Proof.
  intros [Eb Es El Ec] He [Hsuf Hlead Hfits Hlong] Hsp. cbn [kp_bytes kp_lines kp_separators kp_line_cap kp_byte_cap] in *.
  unfold add_entry, enforce_caps. cbn [kp_lines]. apply enforce_longest; cbn [kp_lines].
  - split; cbn [kp_bytes kp_lines kp_separators kp_line_cap kp_byte_cap]; [|..|done|done].
    + rewrite bytes_of_app, Eb. cbn. lia.
    + rewrite separators_of_app. cbn. destruct (kl_separator e); [destruct (He eq_refl)|]; lia.
  - destruct Hsuf as [a ->]. exists a. by rewrite app_assoc.
  - destruct (kp_lines k); [|done]. cbn. destruct (kl_separator e); [|done]. by destruct (He eq_refl).
  - done.
  - done.
  - intros t [a Ha] Hlt Hled. destruct (decide (t = [])) as [->|Hne]; [done|]. destruct (exists_last Hne) as (t' & x & ->).
    rewrite app_assoc in Ha. apply app_inj_2 in Ha as [Ha [= <-]]; [|done]. apply exceeds_app. apply Hlong; [by exists a| |].
    + rewrite !length_app in Hlt. cbn in Hlt. lia.
    + rewrite length_app in Hlt. destruct t' as [|y t']; [rewrite length_app in Hlt; cbn in Hlt; lia|]. done.
Qed.

(** ** What is left out *)
Definition counted (all : list KeptLine) (k : Kept) : Prop :=
  kp_counting k = true ∧ kp_uncounted k = 0%N ∧ (kp_omitted k + lines_of (kp_lines k) = lines_of all)%N.

Lemma lines_of_cons e l : lines_of (e :: l) = ((if kl_separator e then 0 else 1) + lines_of l)%N.
Proof. unfold lines_of. cbn [length separators_of foldr]. fold (separators_of l). pose proof (separators_length l). destruct (kl_separator e); lia. Qed.
Lemma lines_of_snoc l e : lines_of (l ++ [e]) = (lines_of l + if kl_separator e then 0 else 1)%N.
Proof. induction l as [|x l IH]; cbn [app]; rewrite !lines_of_cons; [cbn; lia|]. rewrite IH. lia. Qed.

Lemma drop_oldest_counted all k : counted all k → counted all (drop_oldest k).
Proof.
  intros (Hc & Hu & Ho). unfold drop_oldest. destruct (kp_lines k) as [|e rest] eqn:El; [by split_and!; rewrite ?El|].
  rewrite lines_of_cons in Ho. split_and!; cbn; rewrite ?Hu; [done..|]. cbn. destruct (kl_separator e); lia.
Qed.
Lemma enforce_counted all fuel k : counted all k → counted all (enforce fuel k).
Proof.
  revert k. induction fuel as [|fuel IH]; intros k Hk; [done|]. cbn [enforce]. destruct (over k); [|done]. cbv zeta. apply IH.
  destruct (match kp_lines (drop_oldest k) with e :: _ => _ | [] => _ end); by repeat apply drop_oldest_counted.
Qed.
Lemma add_entry_counted all k e : counted all k → counted (all ++ [e]) (add_entry e k).
Proof.
  intros (Hc & Hu & Ho). apply enforce_counted. split_and!; cbn; [done|by rewrite Hc|]. rewrite !lines_of_snoc. lia.
Qed.

Section offers.
Context (is_alphanumeric is_uppercase : rchar → bool) (is_match : rstr → rstr → bool).

(** The lines a filter lets through, with the error context still open. *)
Fixpoint passing (filter : LineFilter) (context : N) (texts : list rstr) : list rstr :=
  match texts with
  | [] => []
  | text :: texts =>
    match filter with
    | All => text :: passing filter context texts
    | Grep matcher => if is_match matcher text then text :: passing filter context texts else passing filter context texts
    | ErrorsOnly =>
      if is_error_line is_alphanumeric is_uppercase text then text :: passing filter ERROR_CONTEXT_LINES texts
      else if (0 <? context)%N && is_continuation text then text :: passing filter (context - 1) texts
      else passing filter 0 texts
    end
  end.

Definition shown (all : list KeptLine) : list rstr := kl_text <$> filter (λ e, kl_separator e = false) all.
Definition ends_on_line (all : list KeptLine) : Prop := match last all with Some e => kl_separator e = false | None => True end.

(** What is kept of what was offered. *)
Record keeping (q : LogQuery) (all : list KeptLine) (k : Kept) : Prop := {
  kg_booked : booked q k;
  kg_longest : longest q all (kp_lines k);
  kg_spaced : spaced all;
  kg_ends : ends_on_line all;
}.

Lemma push_keeping q all k text at_ :
  booked q k → longest q all (kp_lines k) → spaced all →
  let all' := all ++ [{| kl_text := text; kl_at := at_; kl_separator := false |}] in keeping q all' (push_line text at_ k) ∧ shown all' = shown all ++ [text].
Proof.
  intros Hb Hl Hs all'. set (e := {| kl_text := text; kl_at := at_; kl_separator := false |}).
  assert (spaced (all ++ [e])) as Hsp by (by apply spaced_snoc).
  destruct (add_entry_longest q all k e) as [Hb' Hl']; [|done|done|done|].
  { destruct Hb as [H1 H2 H3 H4]. split; cbn [kp_bytes kp_lines kp_separators kp_line_cap kp_byte_cap e kl_separator]; [done|lia|done..]. }
  split; [split; [done..|]|].
  - unfold ends_on_line, all'. by rewrite last_snoc.
  - unfold shown, all'. by rewrite filter_app, fmap_app.
Qed.

Lemma separate_keeping q all k at_ :
  keeping q all k →
  ∃ all', booked q (separate at_ k) ∧ longest q all' (kp_lines (separate at_ k)) ∧ spaced all' ∧ shown all' = shown all ∧
    (counted all k → counted all' (separate at_ k)).
Proof.
  intros [Hb Hl Hs He]. unfold separate. destruct (bool_decide (kp_lines k = [])) eqn:E; [exists all; by split_and!|]. apply bool_decide_eq_false in E.
  set (e := {| kl_text := GROUP_SEPARATOR; kl_at := at_; kl_separator := true |}). set (k1 := Build_Kept _ _ _ _ _ _ _ _).
  assert (spaced (all ++ [e])) as Hsp by (by apply spaced_snoc).
  destruct (add_entry_longest q all k1 e) as [Hb' Hl']; [|intros _; cbn; split; [lia|done]|done|done|].
  { destruct Hb as [H1 H2 H3 H4]. split; cbn [kp_bytes kp_lines kp_separators kp_line_cap kp_byte_cap e k1 kl_separator]; [done|lia|done..]. }
  exists (all ++ [e]). split_and!; [done..| |].
  - unfold shown. rewrite filter_app, fmap_app. cbn. by rewrite app_nil_r.
  - intros Hc. apply add_entry_counted. exact Hc.
Qed.

(** One line offered. *)
Lemma offer_keeping q all text at_ f k :
  keeping q all k →
  let fk := offer is_alphanumeric is_uppercase is_match (lq_filter q) text at_ (f, k) in
  ∃ all', keeping q all' fk.2 ∧ (counted all k → counted all' fk.2) ∧
    ∀ texts, shown all' ++ passing (lq_filter q) (fs_context fk.1) texts = shown all ++ passing (lq_filter q) (fs_context f) (text :: texts).
Proof.
  intros Hk. pose proof Hk as [Hb Hl Hs He].
  assert (∀ k1 all1, booked q k1 → longest q all1 (kp_lines k1) → spaced all1 → shown all1 = shown all → (counted all k → counted all1 k1) →
    ∃ all', keeping q all' (push_line text at_ k1) ∧ (counted all k → counted all' (push_line text at_ k1)) ∧ shown all' = shown all ++ [text]) as Hpush.
  { intros k1 all1 Hb1 Hl1 Hs1 Eshown Hc1. destruct (push_keeping q all1 k1 text at_ Hb1 Hl1 Hs1) as [Hk' Hshown]. eexists. split_and!; [exact Hk'| |by rewrite Hshown, Eshown].
    intros Hc. by apply add_entry_counted, Hc1. }
  unfold offer. cbv zeta. destruct (lq_filter q) as [|matcher|]; cbn [passing].
  - destruct (Hpush k all Hb Hl Hs eq_refl id) as (all' & H1 & H2 & H3). exists all'. split_and!; [done..|]. intros texts. cbn. by rewrite H3, <-app_assoc.
  - destruct (is_match matcher text); cbn.
    + destruct (Hpush k all Hb Hl Hs eq_refl id) as (all' & H1 & H2 & H3). exists all'. split_and!; [done..|]. intros texts. by rewrite H3, <-app_assoc.
    + by exists all.
  - destruct (is_error_line is_alphanumeric is_uppercase text); cbn.
    + destruct (fs_previous_kept f).
      * destruct (Hpush k all Hb Hl Hs eq_refl id) as (all' & H1 & H2 & H3). exists all'. split_and!; [done..|]. intros texts. by rewrite H3, <-app_assoc.
      * destruct (separate_keeping q all k at_ Hk) as (all1 & Hb1 & Hl1 & Hs1 & Hsh1 & Hc1).
        destruct (Hpush _ _ Hb1 Hl1 Hs1 Hsh1 Hc1) as (all' & H1 & H2 & H3). exists all'. split_and!; [done..|]. intros texts. by rewrite H3, <-app_assoc.
    + destruct ((0 <? fs_context f)%N && is_continuation text); cbn; [|by exists all].
      destruct (Hpush k all Hb Hl Hs eq_refl id) as (all' & H1 & H2 & H3). exists all'. split_and!; [done..|]. intros texts. by rewrite H3, <-app_assoc.
Qed.

Lemma count_keeping q all c k : keeping q all k → keeping q all (count_from_now c k).
Proof. intros [[H1 H2 H3 H4] Hl Hs He]. split; [by split|done..]. Qed.

Lemma start_keeping q : keeping q [] (kept_new q) ∧ counted [] (kept_new q).
Proof.
  split; [|done]. split; [done| |done|done]. split; [done|done| |].
  - unfold exceeds, lines_of. cbn. lia.
  - intros t ->%suffix_nil_inv. cbn. lia.
Qed.

(** Lines offered one after another. *)
Lemma offers_keeping q lines at_ f k all :
  keeping q all k →
  let fk := foldl (λ fk line, offer is_alphanumeric is_uppercase is_match (lq_filter q) (cut line) at_ fk) (f, k) lines in
  ∃ all', keeping q all' fk.2 ∧ (counted all k → counted all' fk.2) ∧
    ∀ texts, shown all' ++ passing (lq_filter q) (fs_context fk.1) texts = shown all ++ passing (lq_filter q) (fs_context f) ((cut <$> lines) ++ texts).
Proof.
  revert f k all. induction lines as [|line lines IH]; intros f k all Hk; cbn [foldl]; [exists all; by split_and!|].
  destruct (offer_keeping q all (cut line) at_ f k Hk) as (all1 & Hk1 & Hc1 & E1). destruct (offer _ _ _ _ _ _ (f, k)) as [f1 k1]. cbn [fst snd] in *.
  destruct (IH f1 k1 all1 Hk1) as (all' & Hk' & Hc' & E'). exists all'. split_and!; [done|by auto|]. intros texts. by rewrite E', E1.
Qed.

Lemma offer_lines_keeping q start lines at_ f k all :
  keeping q all k →
  let fk := offer_lines is_alphanumeric is_uppercase is_match q start lines at_ (f, k) in
  ∃ all', keeping q all' fk.2 ∧ ((start ≤ at_)%N → counted all k → counted all' fk.2) ∧
    ∀ texts, shown all' ++ passing (lq_filter q) (fs_context fk.1) texts = shown all ++ passing (lq_filter q) (fs_context f) ((cut <$> lines) ++ texts).
Proof.
  intros Hk. unfold offer_lines. cbn [fst snd].
  destruct (offers_keeping q lines at_ f (count_from_now (start <=? at_)%N k) all (count_keeping _ _ _ _ Hk)) as (all' & Hk' & Hc' & E').
  exists all'. split_and!; [done| |done]. intros Hle (_ & ? & ?). apply Hc'. split_and!; [by apply N.leb_le|done..].
Qed.

Context `{LineRenderer}.

(** Every line a rendering finishes over the pieces, and at their end. *)
Fixpoint rendered (r : PlacedRenderer) (pieces : list (list N)) : list rstr :=
  match pieces with
  | [] => (placed_take_lines (placed_finish r)).1
  | piece :: pieces => let '(lines, r) := placed_take_lines (placed_advance piece r) in lines ++ rendered r pieces
  end.

Notation passes q := (passing (lq_filter q)).

Lemma read_piece_parts q start rd piece :
  let lr := placed_take_lines (placed_advance piece (rd_renderer rd)) in
  let fk := offer_lines is_alphanumeric is_uppercase is_match q start lr.1 (rd_line_at rd) (rd_filter rd, rd_kept rd) in
  let rd1 := read_piece is_alphanumeric is_uppercase is_match q start rd piece in
  rd_renderer rd1 = lr.2 ∧ rd_filter rd1 = fk.1 ∧ rd_kept rd1 = fk.2 ∧ rd_at rd1 = OutputCursor.advanced (rd_at rd) (N.of_nat (length piece)) ∧
  (rd_line_at rd1 = rd_at rd1 ∨ rd_line_at rd1 = rd_line_at rd).
Proof.
  unfold read_piece. cbv zeta. destruct (placed_take_lines _) as [lines r]. cbn [fst snd]. destruct (offer_lines _ _ _ _ _ _ _ _) as [f k]. cbn.
  split_and!; [done..|]. destruct (_ || _); auto.
Qed.

Lemma read_pieces_keeping q start pieces rd all :
  keeping q all (rd_kept rd) →
  let rd' := foldl (read_piece is_alphanumeric is_uppercase is_match q start) rd pieces in
  let final := placed_take_lines (placed_finish (rd_renderer rd')) in
  let kept := (offer_lines is_alphanumeric is_uppercase is_match q start final.1 (rd_line_at rd') (rd_filter rd', rd_kept rd')).2 in
  ∃ all', keeping q all' kept ∧ ((start ≤ rd_line_at rd)%N → (start ≤ rd_at rd)%N → (start ≤ u64_max)%N → counted all (rd_kept rd) → counted all' kept) ∧
    shown all' = shown all ++ passes q (fs_context (rd_filter rd)) (cut <$> rendered (rd_renderer rd) pieces).
Proof.
  revert rd all. induction pieces as [|piece pieces IH]; intros rd all Hk; cbn [foldl rendered].
  - destruct (offer_lines_keeping q start (placed_take_lines (placed_finish (rd_renderer rd))).1 (rd_line_at rd) (rd_filter rd) (rd_kept rd) all Hk) as (all' & Hk' & Hc' & E').
    exists all'. split_and!; [done|by auto|]. specialize (E' []). rewrite !app_nil_r in E'. done.
  - destruct (read_piece_parts q start rd piece) as (Er & Ef & Ek & Ea & Hat). cbv zeta in *.
    destruct (placed_take_lines (placed_advance piece (rd_renderer rd))) as [lines r]. cbn [fst snd] in *.
    destruct (offer_lines_keeping q start lines (rd_line_at rd) (rd_filter rd) (rd_kept rd) all Hk) as (all1 & Hk1 & Hc1 & E1). cbv zeta in *.
    set (rd1 := read_piece _ _ _ q start rd piece) in *. rewrite <-Ek in Hk1, Hc1. rewrite <-Ef in E1.
    destruct (IH rd1 all1 Hk1) as (all' & Hk' & Hc' & E'). cbv zeta in *. exists all'. split_and!; [done| |].
    + intros H1 H2 H3 Hc. unfold OutputCursor.advanced, u64_saturating_add in Ea. apply Hc'; [destruct Hat as [->| ->]; lia|lia|done|by apply Hc1].
    + by rewrite E', Er, E1, fmap_app.
Qed.

(** A read keeps the newest lines it may: of the lines its filter lets
    through, in order, with separators between error groups, the longest run
    up to the newest that starts with a line and is within the caps on lines
    and bytes; and it says how many older ones it left out. *)
Theorem read_keeps_newest (q : LogQuery) (sp : Span) (start away : N) (r : PlacedRenderer) :
  let slice := read_from is_alphanumeric is_uppercase is_match q sp start away r in
  let lines := rendered r (concat (split_inclusive <$> blocks_of sp (pr_next r) (sp_end sp - pr_next r))) in
  ∃ all kept,
    shown all = passes q 0 (cut <$> lines) ∧ longest q all kept ∧ sl_lines slice = kl_text <$> kept ∧
    ((start ≤ N.min (pr_next r) u64_max)%N → sl_omitted_lines slice = (lines_of all - lines_of kept)%N).
Proof.
  intros slice lines. unfold slice, read_from. cbv zeta. set (rd := Build_Reading _ _ _ _ _). set (pieces := concat _).
  destruct (start_keeping q) as [Hk Hc]. destruct (read_pieces_keeping q start pieces rd [] Hk) as (all & Hk' & Hc' & E'). cbv zeta in *.
  set (rd' := foldl _ rd pieces) in *. destruct (placed_take_lines (placed_finish (rd_renderer rd'))) as [last r']. cbn [fst snd] in *.
  set (kept := (offer_lines _ _ _ q start last (rd_line_at rd') (rd_filter rd', rd_kept rd')).2) in *.
  exists all, (kp_lines kept). split_and!; [exact E'|apply Hk'|done|]. intros Hle. cbn [sl_omitted_lines].
  destruct Hc' as (_ & _ & Ho); [cbn; lia|cbn; lia|lia|done|]. lia.
Qed.
End offers.
