(* ===== verification/LogVisit.v ===== *)
(** * A scan of a log hands out every byte once

    The scan of muster-protocol/src/holder/log_reader.rs, chunk by chunk, hands
    out the raw lines of the part of the log asked for, each byte once and in
    order, each piece at its place and cut at line feeds; and a read answers
    from where it was asked, at the log's end. *)
From S2P Require Import Prelude RustText Values Tap LogFile LogSpan LogPlaced WaitData LogRead.

(** One read of a span. *)
Lemma read_at_spans s at_ sp offset room :
  spans s at_ sp → (sp_oldest sp ≤ offset)%N →
  ∃ n, read_at sp offset room = take n (drop (N.to_nat offset) s) ∧ (N.of_nat n ≤ room)%N ∧
    (N.to_nat offset ≤ length s → N.to_nat offset + n ≤ length s) ∧ ((0 < room)%N → N.to_nat offset < length s → 0 < n).
Proof.
  intros (Eo & _ & _ & _ & Hc) Hle. assert (∃ o, offset = N.of_nat o) as [o ->] by (exists (N.to_nat offset); lia).
  rewrite !Nat2N.id. assert (at_ ≤ o) as Ha by lia. unfold read_at.
  pose proof (find_chain _ _ _ _ Hc Ha) as Hp. destruct (find _ _) as [p|]; [|exists 0; rewrite take_0; split_and!; lia || done].
  destruct Hp as (start & stop & Hs & He & Hk & [Hst Hlt] & Hw & -> & _). rewrite Hs, He, Hk.
  exists (N.to_nat (N.min room (N.of_nat stop - N.of_nat o))). split_and!; [|lia..]. replace (N.to_nat (N.of_nat o - N.of_nat start + 0)) with (o - start) by lia.
  rewrite skipn_firstn_comm, take_take, take_drop_cut by lia. f_equal. lia.
Qed.

Lemma blocks_spans s at_ sp fuel offset room :
  spans s at_ sp → (sp_oldest sp ≤ offset)%N → N.to_nat offset ≤ length s → length s - N.to_nat offset < fuel →
  concat (blocks fuel sp offset room) = take (N.to_nat room) (drop (N.to_nat offset) s) ∧ Forall (λ b, b ≠ []) (blocks fuel sp offset room).
Proof.
  intros Hsp. pose proof Hsp as (_ & _ & _ & Hb & _). revert offset room. induction fuel as [|fuel IH]; intros offset room Hle Hin Hf; [lia|]. cbn [blocks].
  destruct (read_at_spans s at_ sp offset (N.min room BLOCK_BYTES) Hsp Hle) as (n & Eg & Hn & Hw & Hpos). specialize (Hw Hin).
  assert (length (take n (drop (N.to_nat offset) s)) = n) as Hlen by (rewrite length_take, length_drop; lia).
  rewrite Eg. destruct (take n (drop (N.to_nat offset) s)) as [|b got] eqn:Et.
  - split; [|done]. cbn in Hlen. assert (n = 0) as -> by done. destruct (decide (N.to_nat offset < length s)) as [Hlt|].
    + assert (room = 0%N) as ->; [|done]. destruct (decide (room = 0%N)); [done|]. specialize (Hpos ltac:(unfold BLOCK_BYTES; lia) Hlt). lia.
    + by rewrite drop_ge, take_nil by lia.
  - rewrite Hlen. assert (n ≠ 0) as Hne by (intros ->; by rewrite take_0 in Et). unfold OutputCursor.advanced, u64_saturating_add.
    replace (N.min (offset + N.of_nat n) u64_max) with (offset + N.of_nat n)%N by lia.
    destruct (IH (offset + N.of_nat n)%N (room - N.of_nat n)%N) as [E Hne']; [lia..|]. split; [|by constructor]. cbn [concat]. rewrite <-Et.
    rewrite E. replace (N.to_nat (offset + N.of_nat n)) with (N.to_nat offset + n) by lia. rewrite <-drop_drop, take_take_drop. f_equal. lia.
Qed.

Lemma blocks_of_spans s at_ sp offset room :
  spans s at_ sp → (sp_oldest sp ≤ offset)%N → N.to_nat offset ≤ length s →
  concat (blocks_of sp offset room) = take (N.to_nat room) (drop (N.to_nat offset) s) ∧ Forall (λ b, b ≠ []) (blocks_of sp offset room).
Proof. intros Hsp Hle Hin. apply (blocks_spans s at_); [done..|]. destruct Hsp as (_ & -> & _). lia. Qed.

Section visiting.
Context (is_alphanumeric is_uppercase : rchar → bool) (is_match : rstr → rstr → bool) `{LineRenderer}.

Lemma take_lines_next r : pr_next (placed_take_lines r).2 = pr_next r.
Proof. unfold placed_take_lines. by destruct (render_take _). Qed.
Lemma take_faults_next r : pr_next (placed_take_faults r).2 = pr_next r.
Proof. unfold placed_take_faults. by destruct (render_faults _). Qed.

(** Where the renderer of a look-back stands. *)
Definition draw (begin : N) (_ : bool) (piece : list N) (drawn : option (N * PlacedRenderer)) : bool * option (N * PlacedRenderer) :=
  let r := match drawn with
           | Some (b, r) => if (b =? begin)%N then r else placed_new begin
           | None => placed_new begin
           end in
  (true, Some (begin, (placed_take_lines (placed_advance piece r)).2)).

Definition stands (begin at_ : N) (drawn : option (N * PlacedRenderer)) : Prop :=
  (begin ≤ at_)%N ∧ match drawn with Some (b, r) => b = begin ∧ pr_next r = at_ | None => begin = at_ end.

Lemma feed_at_within bytes n : feed_at bytes = Some n → n < length bytes.
Proof.
  revert n. induction bytes as [|b bytes IH]; intros n; cbn [feed_at]; [done|]. destruct (b =? LINE_FEED)%N; [intros [= <-]; cbn; lia|].
  destruct (feed_at bytes) as [m|]; [|done]. intros [= <-]. specialize (IH m eq_refl). cbn. lia.
Qed.

Lemma draw_stands begin on_line piece drawn at_ :
  (begin ≤ at_)%N → (at_ + N.of_nat (length piece) ≤ u64_max)%N →
  match drawn with Some (b, r) => b = begin ∧ pr_next r = at_ ∨ (b < begin)%N ∧ begin = at_ | None => begin = at_ end →
  stands begin (at_ + N.of_nat (length piece)) (draw begin on_line piece drawn).2.
Proof.
  intros Hle Hb Hd. split; [lia|]. cbn [draw snd]. split; [done|]. rewrite take_lines_next. cbn [placed_advance pr_next].
  unfold OutputCursor.advanced, u64_saturating_add. rewrite N.min_l.
  - destruct drawn as [[b r]|]; [|cbn; lia]. destruct (N.eqb_spec b begin); [destruct Hd as [[_ ->]|[? _]]; lia|]. destruct Hd as [[-> _]|[_ ->]]; [done|]. cbn. lia.
  - destruct drawn as [[b r]|]; [|cbn; lia]. destruct (N.eqb_spec b begin); [destruct Hd as [[_ ->]|[? _]]; lia|]. destruct Hd as [[-> _]|[_ ->]]; [done|]. cbn. lia.
Qed.

Lemma look_on_stands bs begin at_ on_line drawn stop :
  stands begin at_ drawn → (at_ + N.of_nat (length (concat bs)) = stop)%N → (stop ≤ u64_max)%N →
  let res := look_on draw bs begin at_ on_line drawn in stands res.1 stop res.2.
Proof.
  revert begin at_ on_line drawn. induction bs as [|block bs IH]; intros begin at_ on_line drawn [Hle Hst] Hlen Hb; cbn [look_on].
  { cbn in Hlen. by replace stop with at_ by lia. }
  cbn [concat] in Hlen. rewrite length_app in Hlen. unfold OutputCursor.advanced, u64_saturating_add.
  replace (N.min (at_ + N.of_nat (length block)) u64_max) with (at_ + N.of_nat (length block))%N by lia.
  destruct (if on_line then None else feed_at block) as [index|] eqn:Ef.
  - assert (index < length block) as Hi by (destruct on_line; [done|by apply feed_at_within]).
    replace (N.min (at_ + (N.of_nat index + 1)) u64_max) with (at_ + N.of_nat (S index))%N by lia. cbn [draw]. apply IH; [|lia|done].
    replace (at_ + N.of_nat (length block))%N with (at_ + N.of_nat (S index) + N.of_nat (length (drop (S index) block)))%N by (rewrite length_drop; lia).
    apply (draw_stands _ true); [lia|rewrite length_drop; lia|]. destruct drawn as [[b r]|]; [|lia]. destruct Hst as [-> _]. right. lia.
  - cbn [draw]. apply IH; [|lia|done]. apply (draw_stands _ on_line); [done|lia|]. destruct drawn as [[b r]|]; [by left|done].
Qed.

(** A renderer for a read stands where the read starts. *)
Lemma renderer_at_next s at_ sp start :
  spans s at_ sp → (sp_oldest sp ≤ start)%N → N.to_nat start ≤ length s → pr_next (renderer_at sp start) = start.
Proof.
  intros Hsp Hle Hin. pose proof Hsp as (_ & _ & _ & Hb & _). unfold renderer_at. cbv zeta. change (λ begin (_ : bool) piece drawn, _) with draw.
  unfold look_back. set (bound := N.max (sp_oldest sp) (saturating_sub start RENDER_LOOKBACK_BYTES)).
  assert (sp_oldest sp ≤ bound ≤ start)%N as [Hb1 Hb2] by (unfold bound, saturating_sub; lia). clearbody bound.
  destruct (blocks_of_spans s at_ sp bound (OutputCursor.bytes_since start bound) Hsp Hb1 ltac:(lia)) as [Ec _].
  assert (bound + N.of_nat (length (concat (blocks_of sp bound (OutputCursor.bytes_since start bound)))) = start)%N as Hlen.
  { rewrite Ec, length_take, length_drop. unfold OutputCursor.bytes_since, saturating_sub. lia. }
  assert (∀ drawn, stands bound bound drawn →
    let res := look_on draw (blocks_of sp bound (OutputCursor.bytes_since start bound)) bound bound (bound =? sp_oldest sp)%N drawn in
    pr_next (match res.2 with Some (_, r) => r | None => placed_new res.1 end) = start) as Hon.
  { intros drawn Hst. pose proof (look_on_stands _ _ _ (bound =? sp_oldest sp)%N _ _ Hst Hlen ltac:(lia)) as [_ Hres]. cbv zeta in *.
    destruct (look_on _ _ _ _ _ drawn) as [begin [[b r]|]]; cbn [fst snd] in *; [by destruct Hres|done]. }
  assert (∀ r, pr_next r = start → pr_next (let r := (placed_take_faults (placed_take_lines (placed_finish r)).2).2 in
    if (pr_next r <? start)%N then skip_to start r else r) = start) as Hfin.
  { intros r Hr. cbv zeta. rewrite take_faults_next, take_lines_next. cbn. rewrite Hr, N.ltb_irrefl. by rewrite take_faults_next, take_lines_next. }
  destruct (bound =? sp_oldest sp)%N eqn:Eline.
  - cbn [draw]. set (drawn := Some _). assert (stands bound bound drawn) as Hst.
    { replace bound with (bound + N.of_nat (length (@nil N)))%N at 2 by (cbn; lia). apply (draw_stands bound true [] None); [lia|cbn; lia|done]. }
    specialize (Hon drawn Hst). cbv zeta in Hon. destruct (look_on _ _ _ _ _ drawn) as [begin d]. by apply Hfin.
  - specialize (Hon None ltac:(split; [lia|done])). cbv zeta in Hon. destruct (look_on _ _ _ _ _ None) as [begin d]. by apply Hfin.
Qed.

(** ** Pieces in their places *)
Definition collect (p : VisitedPiece) (acc : list VisitedPiece) : bool * list VisitedPiece := (true, acc ++ [p]).

Definition holding (ps : list VisitedPiece) : list VisitedPiece := filter (λ p, vp_bytes p ≠ []) ps.
Definition handed (ps : list VisitedPiece) : list N := concat (vp_bytes <$> ps).

(** Pieces one after the other from a place. *)
Fixpoint tiles (at_ : nat) (ps : list VisitedPiece) : Prop :=
  match ps with [] => True | p :: ps => vp_at p = N.of_nat at_ ∧ tiles (at_ + length (vp_bytes p)) ps end.

(** A line feed stands only at the end. *)
Definition one_line (bytes : list N) : Prop := ∀ i, bytes !! i = Some LINE_FEED → S i = length bytes.
Definition no_feed (bytes : list N) : Prop := LINE_FEED ∉ bytes.

Lemma no_feed_one_line bytes : no_feed bytes → one_line bytes.
Proof. intros Hn i Hi. exfalso. apply Hn. by eapply list_elem_of_lookup_2. Qed.
Lemma one_line_app a b : no_feed a → one_line b → one_line (a ++ b).
Proof.
  intros Ha Hb i Hi. apply lookup_app_Some in Hi as [Hi|[Hle Hi]]; [exfalso; apply Ha; by eapply list_elem_of_lookup_2|].
  specialize (Hb _ Hi). rewrite length_app. lia.
Qed.

Lemma split_pieces piece bytes :
  no_feed piece → concat (pieces_of piece bytes) = piece ++ bytes ∧ Forall (λ p, p ≠ [] ∧ one_line p) (pieces_of piece bytes).
Proof.
  revert piece. induction bytes as [|b bytes IH]; intros piece Hp; cbn [pieces_of].
  { destruct piece as [|c piece]; [done|]. cbn [concat]. rewrite !app_nil_r. split; [done|]. constructor; [|done]. split; [done|by apply no_feed_one_line]. }
  destruct (N.eqb_spec b LINE_FEED) as [->|Hne].
  - destruct (IH [] ltac:(by apply not_elem_of_nil)) as [E Hf]. cbn [concat]. rewrite E, <-app_assoc. split; [done|]. constructor; [|done].
    split; [by destruct piece|]. apply one_line_app; [done|]. intros [|i] Hi; [done|]. by destruct i.
  - destruct (IH (piece ++ [b])) as [E Hf]; [|by rewrite E, <-app_assoc]. intros [?|Hb]%elem_of_app; [by apply Hp|]. apply list_elem_of_singleton in Hb. congruence.
Qed.

Lemma tiles_snoc at_ ps p : tiles at_ ps → vp_at p = N.of_nat (at_ + length (handed ps)) → tiles at_ (ps ++ [p]).
Proof.
  revert at_. induction ps as [|q ps IH]; intros at_; cbn [tiles app handed fmap list_fmap concat].
  - intros _ E. split; [|done]. rewrite E. cbn. f_equal. lia.
  - intros [Eq Ht] E. split; [done|]. apply IH; [done|]. rewrite E. rewrite length_app. f_equal. unfold handed. lia.
Qed.
Lemma handed_holding ps : handed (holding ps) = handed ps.
Proof.
  induction ps as [|p ps IH]; [done|]. unfold holding. rewrite filter_cons. destruct (decide (vp_bytes p ≠ [])) as [|Hn]; unfold handed in *; cbn [fmap list_fmap concat].
  - by rewrite <-IH.
  - fold (holding ps). rewrite IH. destruct (vp_bytes p); [done|]. by destruct Hn.
Qed.

(** A scan of the stream from [start]: what was handed on and is held is what was
    read. *)
Record visited (s : list N) (start n : nat) (v : Visiting (A := list VisitedPiece)) : Prop := {
  vi_next : vs_next v = N.of_nat n;
  vi_within : start ≤ n ≤ length s;
  vi_bytes : handed (vs_acc v) ++ vs_line v = take (n - start) (drop start s);
  vi_at : vs_line v ≠ [] → vs_line_at v = N.of_nat (start + length (handed (vs_acc v)));
  vi_tiles : tiles start (holding (vs_acc v));
  vi_lines : Forall (λ p, one_line (vp_bytes p)) (vs_acc v);
  vi_line : no_feed (vs_line v);
}.

(** Handing the line held on, once the last piece is part of it. *)
Lemma hand_line_visited s start n v ending :
  visited s start n v ∨ (vs_next v = N.of_nat n ∧ start ≤ n ≤ length s ∧ handed (vs_acc v) ++ vs_line v = take (n - start) (drop start s) ∧
    vs_line_at v = N.of_nat (start + length (handed (vs_acc v))) ∧ tiles start (holding (vs_acc v)) ∧
    Forall (λ p, one_line (vp_bytes p)) (vs_acc v) ∧ one_line (vs_line v)) →
  let res := hand_line collect ending v in res.1.1 = true ∧ visited s start n res.2 ∧ vs_line res.2 = [] ∧ vs_began res.2 = vs_began v.
Proof.
  intros Hv. assert (vs_next v = N.of_nat n ∧ start ≤ n ≤ length s ∧ handed (vs_acc v) ++ vs_line v = take (n - start) (drop start s) ∧
    (vs_line v ≠ [] → vs_line_at v = N.of_nat (start + length (handed (vs_acc v)))) ∧ tiles start (holding (vs_acc v)) ∧
    Forall (λ p, one_line (vp_bytes p)) (vs_acc v) ∧ one_line (vs_line v)) as (H1 & H2 & H3 & H4 & H5 & H6 & H7).
  { destruct Hv as [[]|(? & ? & ? & ? & ? & ? & ?)]; split_and!; try done; try lia; by apply no_feed_one_line. }
  clear Hv. unfold hand_line. cbv zeta. destruct (placed_take_lines _) as [texts r].
  destruct (bool_decide (vs_line v = [])) eqn:El; [apply bool_decide_eq_true in El|apply bool_decide_eq_false in El]; cbn [andb].
  - destruct (bool_decide (texts = [])); cbn [collect fst snd].
    + split_and!; [done| |done|done]. split; cbn [vs_next vs_line vs_acc vs_line_at]; try done. rewrite El. apply not_elem_of_nil.
    + split_and!; [done| |done|done]. rewrite El, app_nil_r in *.
      assert (handed (vs_acc v ++ [{| vp_at := vs_line_at v; vp_bytes := []; vp_line_at := vs_drawn_from v; vp_texts := texts |}]) = handed (vs_acc v)) as Eh
        by (unfold handed; rewrite fmap_app, concat_app; cbn; by rewrite app_nil_r).
      split; cbn [vs_next vs_line vs_acc vs_line_at]; rewrite ?Eh, ?app_nil_r; try done; [|by apply Forall_app; split; [done|constructor; [|done]]; intros i Hi|apply not_elem_of_nil].
      unfold holding. rewrite filter_app, filter_cons, filter_nil, decide_False by (by intros []). by rewrite app_nil_r.
  - cbn [collect fst snd]. split_and!; [done| |done|done]. set (p := Build_VisitedPiece _ _ _ _).
    assert (handed (vs_acc v ++ [p]) = handed (vs_acc v) ++ vs_line v) as Eh by (unfold handed; rewrite fmap_app, concat_app; cbn; by rewrite app_nil_r).
    split; cbn [vs_next vs_line vs_acc vs_line_at]; rewrite ?Eh, ?app_nil_r; try done; [| |apply not_elem_of_nil].
    + unfold holding. rewrite filter_app. assert (filter (λ p, vp_bytes p ≠ []) [p] = [p]) as -> by (rewrite filter_cons, decide_True by done; done).
      apply tiles_snoc; [done|]. fold (holding (vs_acc v)). rewrite handed_holding. by apply H4.
    + apply Forall_app. split; [done|]. by constructor.
Qed.

Lemma take_more (s : list N) (start n k : nat) (done : list N) :
  done = take (n - start) (drop start s) → start ≤ n → done ++ take k (drop n s) = take (n + k - start) (drop start s).
Proof.
  intros -> Hle. replace (drop n s) with (drop (n - start) (drop start s)) by (rewrite drop_drop; f_equal; lia). rewrite take_take_drop. f_equal. lia.
Qed.

Lemma visit_piece_visited s start n v piece :
  (N.of_nat (length s) ≤ u64_max)%N → visited s start n v → piece ≠ [] → one_line piece → piece = take (length piece) (drop n s) →
  let res := visit_piece collect piece v in res.1 = true ∧ visited s start (n + length piece) res.2 ∧ vs_began res.2 = vs_began v.
Proof.
  intros Hb [H1 H2 H3 H4 H5 H6 H7] Hne Hone Hp. assert (n + length piece ≤ length s) as Hin.
  { apply (f_equal length) in Hp. rewrite length_take, length_drop in Hp. lia. }
  unfold visit_piece. cbv zeta. unfold OutputCursor.advanced, u64_saturating_add. rewrite H1.
  replace (N.min (N.of_nat n + N.of_nat (length piece)) u64_max) with (N.of_nat (n + length piece)) by lia. set (v1 := Build_Visiting _ _ _ _ _ _ _).
  assert (handed (vs_acc v1) ++ vs_line v1 = take (n + length piece - start) (drop start s)) as E1.
  { unfold v1. cbn [vs_acc vs_line]. rewrite app_assoc. rewrite Hp at 1. apply take_more; [done|lia]. }
  assert (length (handed (vs_acc v) ++ vs_line v) = n - start) as Hlen by (rewrite H3, length_take, length_drop; lia). rewrite length_app in Hlen.
  assert (vs_line_at v1 = N.of_nat (start + length (handed (vs_acc v1)))) as Eat.
  { unfold v1. cbn [vs_line_at vs_acc]. destruct (bool_decide (vs_line v = [])) eqn:El; [apply bool_decide_eq_true in El|apply bool_decide_eq_false in El; by apply H4].
    rewrite El in Hlen. cbn in Hlen. f_equal. lia. }
  destruct (bool_decide (last piece = Some LINE_FEED)) eqn:Eend; cbn [negb andb].
  - destruct (hand_line_visited s start (n + length piece) v1 false) as (Hgo & Hv & Hl & Hbe).
    { right. split_and!; try done; try lia. by apply one_line_app. }
    destruct (hand_line collect false v1) as [[go produced] v2]. cbn [fst snd] in *. subst go. cbn [andb orb]. split_and!; [done| |exact Hbe].
    destruct Hv. by split.
  - assert (no_feed piece) as Hnf.
    { apply bool_decide_eq_false in Eend. intros Hin'. apply list_elem_of_lookup in Hin' as [i Hi]. apply Eend. rewrite last_lookup, <-(Hone _ Hi). done. }
    destruct (N.of_nat (length (vs_line v1)) <? LINE_MAX_BYTES)%N.
    + split_and!; [done| |done]. split; try done; [lia|]. unfold v1. cbn [vs_line]. intros [?|?]%elem_of_app; [by apply H7|by apply Hnf].
    + destruct (hand_line_visited s start (n + length piece) v1 false) as (Hgo & Hv & Hl & Hbe).
      { right. split_and!; try done; try lia. by apply one_line_app. }
      destruct (hand_line collect false v1) as [[go produced] v2]. cbn [fst snd] in *. subst go. split_and!; [done| |by destruct produced].
      destruct produced; [|exact Hv]. destruct Hv. by split.
Qed.

Lemma visit_pieces_visited s start n v pieces :
  (N.of_nat (length s) ≤ u64_max)%N → visited s start n v → Forall (λ p, p ≠ [] ∧ one_line p) pieces →
  concat pieces = take (length (concat pieces)) (drop n s) →
  let res := visit_pieces collect pieces v in res.1 = true ∧ visited s start (n + length (concat pieces)) res.2 ∧ vs_began res.2 = vs_began v.
Proof.
  intros Hb. revert n v. induction pieces as [|piece pieces IH]; intros n v Hv Hf Hp; cbn [visit_pieces concat].
  { cbn [length]. by rewrite Nat.add_0_r. }
  apply Forall_cons in Hf as [[Hne Hone] Hf]. cbn [concat] in Hp. rewrite length_app in *.
  assert (piece = take (length piece) (drop n s) ∧ concat pieces = take (length (concat pieces)) (drop (n + length piece) s)) as [Hp1 Hp2].
  { rewrite <-take_take_drop, drop_drop in Hp. apply app_inj_1 in Hp; [done|]. apply (f_equal length) in Hp as Hl.
    rewrite !length_app, !length_take, !length_drop in *. lia. }
  destruct (visit_piece_visited s start n v piece Hb Hv Hne Hone Hp1) as (Hgo & Hv1 & Hbe). destruct (visit_piece collect piece v) as [go v1]. cbn [fst snd] in *. subst go.
  destruct (IH _ v1 Hv1 Hf Hp2) as (Hgo & Hv2 & Hbe2). cbv zeta in *. split_and!; [done|by rewrite Nat.add_assoc|congruence].
Qed.

(** Chunk by chunk to the end asked for. *)
Lemma visit_chunks_visited s at_ d start until fuel k n v :
  placed d s → (∀ look, (∀ m, look m = Some d) → ∃ sp, open_span look = Ok sp ∧ spans s at_ sp) → at_ ≤ start →
  visited s start n v → n ≤ until → until ≤ length s → until - n < fuel → (vs_began v = None ∨ vs_began v = Some (N.of_nat start)) →
  (vs_began v = None → n = start) →
  ∃ v', visit_chunks collect fuel k (λ _ _, Some d) (N.of_nat until) v = Ok (true, v') ∧ visited s start until v' ∧ default (N.of_nat start) (vs_began v') = N.of_nat start.
Proof.
  intros Hpl Hopen Hat. pose proof Hpl as (_ & Hb & _). revert k n v. induction fuel as [|fuel IH]; intros k n v Hv Hn Hu Hf Hbe Hbn; [lia|]. cbn [visit_chunks].
  pose proof Hv as [H1 H2 _ _ _ _ _]. rewrite H1. destruct (N.ltb_spec (N.of_nat n) (N.of_nat until)) as [Hlt|Hge].
  2:{ assert (n = until) as -> by lia. exists v. split_and!; [done..|]. by destruct Hbe as [->| ->]. }
  destruct (Hopen (λ _, Some d) ltac:(done)) as (sp & Ho & Hsp). pose proof Hsp as (Eo & Ee & _). unfold read_log_range. rewrite Ho.
  replace (N.max (N.of_nat n) (sp_oldest sp)) with (N.of_nat n) by lia. rewrite (read_spans _ _ _ _ _ Hsp) by lia. rewrite Nat2N.id, Ee.
  unfold OutputCursor.bytes_since, saturating_sub, OutputCursor.advanced, u64_saturating_add.
  set (m := N.to_nat (N.min (N.min (N.of_nat until) (N.of_nat (length s))) (N.min (N.of_nat n + CATCH_UP_CHUNK_BYTES) u64_max) - N.of_nat n)).
  assert (0 < m ∧ n + m ≤ until) as [Hm1 Hm2] by (unfold m, CATCH_UP_CHUNK_BYTES; lia). clearbody m. set (bytes := take m (drop n s)).
  assert (length bytes = m) as Hlen by (unfold bytes; rewrite length_take, length_drop; lia).
  assert (bytes ≠ []) as Hne by (intros E; rewrite E in Hlen; cbn in Hlen; lia). rewrite bool_decide_eq_false_2 by done. cbn [vs_next].
  rewrite N.ltb_irrefl. destruct (split_pieces [] bytes ltac:(apply not_elem_of_nil)) as [Ec Hfp]. cbn [app] in Ec. fold (split_inclusive bytes) in Ec, Hfp.
  set (v1 := Build_Visiting _ _ _ _ _ _ _). assert (visited s start n v1) as Hv1 by (destruct Hv; by split).
  assert (vs_began v1 = Some (N.of_nat start)) as Hbe1 by (unfold v1; cbn [vs_began]; destruct Hbe as [E| ->]; [rewrite E, Hbn by done|]; done).
  destruct (visit_pieces_visited s start n v1 (split_inclusive bytes) Hb Hv1 Hfp) as (Hgo & Hv2 & Hbe2); [by rewrite Ec, Hlen|].
  cbv zeta in *. rewrite Ec, Hlen in Hv2. destruct (visit_pieces collect (split_inclusive bytes) v1) as [go v2]. cbn [fst snd] in *. subst go.
  apply (IH (S k) (n + m) v2); [done|lia..| |]; rewrite Hbe2, Hbe1; [by right|done].
Qed.

(** C29: a scan of a log from one place to another hands out every byte between
    them once and in order: it begins where it was asked to, or at the oldest
    byte kept, the pieces handed on that hold bytes stand one after the other
    from there, and together are the output up to where it was to end, and no
    piece goes past a line feed. *)
Theorem scan_hands_every_byte (d : Disk) (s : list N) (from until : nat) :
  placed d s → from ≤ until → until ≤ length s → length s - length (rotated_bytes d ++ live_bytes d) ≤ until →
  let start := max from (length s - length (rotated_bytes d ++ live_bytes d)) in
  ∃ unrendered pieces,
    visit_lines collect (λ _, Some d) (λ _ _, Some d) (N.of_nat from) (N.of_nat until) [] = Ok (N.of_nat start, unrendered, pieces) ∧
    tiles start (holding pieces) ∧ handed pieces = take (until - start) (drop start s) ∧ Forall (λ p, one_line (vp_bytes p)) pieces.
Proof.
  intros Hpl Hfu Hu Hold start. destruct (placed_open d s (λ _, Some d) Hpl ltac:(done)) as (pre & sp & Ho & Es & Hsp).
  assert (length s - length (rotated_bytes d ++ live_bytes d) = length pre) as Epre by (rewrite Es, length_app; lia). rewrite Epre in *.
  pose proof Hsp as (Eo & Ee & Hle & Hb & _). unfold visit_lines. rewrite Ho, Eo.
  assert (∀ look, (∀ m, look m = Some d) → ∃ sp, open_span look = Ok sp ∧ spans s (length pre) sp) as Hopen.
  { intros look Hl. destruct (placed_open d s look Hpl Hl) as (pre' & sp' & Ho' & Es' & Hsp'). exists sp'. split; [done|].
    assert (length pre' = length pre) as <-; [|done]. rewrite Es in Es'. apply (f_equal length) in Es'. rewrite !length_app in Es'. lia. }
  replace (N.max (N.of_nat from) (N.of_nat (length pre))) with (N.of_nat start) by (unfold start; lia).
  rewrite (renderer_at_next s (length pre)) by (done || unfold start; lia). replace (N.max (N.of_nat start) (N.of_nat from)) with (N.of_nat start) by (unfold start; lia).
  set (v := Build_Visiting _ _ _ _ _ _ _). assert (visited s start start v) as Hv.
  { split; cbn [v vs_next vs_line vs_acc vs_line_at]; try done; [unfold start; lia|by rewrite Nat.sub_diag, take_0|apply not_elem_of_nil]. }
  destruct (visit_chunks_visited s (length pre) d start until (S (N.to_nat (N.of_nat until - N.of_nat start))) 0 start v) as (v' & Ev & Hv' & Hbe); try done;
    [unfold start; lia..|by left|].
  rewrite Ev. destruct (hand_line_visited s start until v' true (or_introl Hv')) as (_ & Hv2 & El & Hbe2). cbv zeta in *.
  set (v2 := (hand_line collect true v').2) in *. eexists _, (vs_acc v2). rewrite Hbe2, Hbe. destruct Hv2 as [_ _ H3 _ H5 H6 _]. rewrite El, app_nil_r in H3. by split_and!.
Qed.

End visiting.
