(* ===== verification/LogWitness.v ===== *)
(** * The log theorems at work

    A small log driven through its operations: opened on an empty disk, given
    two lines that do not fit it together, so rotated between them, and read
    back; and each theorem of the log applied to it. *)
From S2P Require Import Prelude RustText Values Tap LogFile LogSpan LogPlaced LogLines LogNewest LogRead LogVisit.

Module LogWitness.
(** A system that refuses nothing. *)
Definition calm : Io := {|
  io_allows := λ _, true; io_stats := λ _, true; io_takes := λ _, None; io_renames := λ _, true; io_opens := λ n, Some (N.of_nat n); io_records := λ _, true
|}.
Definition empty_disk : Disk := {| dk_files := ∅; dk_live := None; dk_rotated := None; dk_base := None |}.
Definition at_first : Writer := {| wr_disk := empty_disk; wr_calls := 0; wr_stream := []; wr_seen := [] |}.
Definition one : list N := [97; 98; 10]%N.
Definition two : list N := [99; 100; 10]%N.
Definition fallback : RotatingLog := {| lg_inode := 0; lg_written := 0; lg_base := 0; lg_cap := 0; lg_run_start := 0; lg_ends_line := true |}.
Definition started : RotatingLog * Writer :=
  let '(r, w) := log_open calm 4 at_first in (match r with Ok l => l | Err _ => fallback end, w).
Definition after_one : RotatingLog * Writer := (append_held calm one started).2.
Definition after_two : RotatingLog * Writer := (append_held calm two after_one).2.
Definition end_disk : Disk := wr_disk after_two.2.

Lemma empty_placed : placed empty_disk [].
Proof.
  split; [by split|]. split; [done|]. by exists [].
Qed.

Lemma started_logged : logged calm started.2 (Some started.1).
Proof. exact (logged_open calm 4 at_first (logged_start calm empty_disk [] empty_placed)). Qed.
Lemma after_one_logged : logged calm after_one.2 (Some after_one.1).
Proof. apply (logged_append calm one started.1 started.2 started_logged). vm_compute. done. Qed.
Lemma after_two_logged : logged calm after_two.2 (Some after_two.1).
Proof. apply (logged_append calm two after_one.1 after_one.2 after_one_logged). vm_compute. done. Qed.
Lemma after_two_placed : placed end_disk (wr_stream after_two.2).
Proof.
  destruct (logged_sound calm ltac:(done) ltac:(done) _ _ after_two_logged) as [[Hp _] _]. by apply Forall_inv in Hp.
Qed.


Lemma after_one_lined : lined after_one.1 after_one.2.
Proof. split; try (by vm_compute); try (vm_compute; by right); try (vm_compute; by left). by vm_compute; eexists. Qed.


(** What a reader opens. *)
Definition end_span : Span := span_of 3 (Some one) (Some two).
Lemma end_spans : spans (one ++ two) 0 end_span.
Proof.
  destruct (placed_open end_disk (wr_stream after_two.2) (λ _, Some end_disk) after_two_placed ltac:(done)) as (pre & sp & Ho & Es & Hsp).
  assert (open_span (λ _, Some end_disk) = Ok end_span) as Ho' by (by vm_compute). rewrite Ho' in Ho. injection Ho as <-.
  assert (length (wr_stream after_two.2) = 6) as E1 by (by vm_compute). assert (length (rotated_bytes end_disk ++ live_bytes end_disk) = 6) as E2 by (by vm_compute).
  assert (length pre = 0) as E by (apply (f_equal length) in Es; rewrite length_app, E1, E2 in Es; lia). rewrite E in Hsp. exact Hsp.
Qed.

Lemma newest_start_exact_witness :
  newest_start (λ _, true) 2 1 end_span = 3%N ∧
  newest_start (λ _, true) 2 2 end_span = 0%N.
Proof.
  split.
  - rewrite (newest_start_exact (λ _, true) (one ++ two) 0 end_span 2 1 end_spans); [by vm_compute|done|done].
  - rewrite (newest_start_exact (λ _, true) (one ++ two) 0 end_span 2 2 end_spans); [by vm_compute|done|done].
Defined.

#[local] Existing Instance Tap.Witness.plain_lines.

Lemma end_placed : placed end_disk (one ++ two).
Proof. replace (one ++ two) with (wr_stream after_two.2) by (by vm_compute). exact after_two_placed. Qed.

Lemma scan_hands_every_byte_witness :
  ∃ unrendered pieces,
    visit_lines collect (λ _, Some end_disk) (λ _ _, Some end_disk) 1 5 [] = Ok (1%N, unrendered, pieces) ∧
    handed pieces = [98; 10; 99; 100]%N.
Proof.
  destruct (scan_hands_every_byte end_disk (one ++ two) 1 5 end_placed) as (u & pieces & Hv & _ & Hh & _);
    [lia|by vm_compute; lia|by vm_compute; lia|]. exists u, pieces. split; [exact Hv|]. rewrite Hh. by vm_compute.
Defined.

(** A read of everything from one place on. *)
Definition query (since : N) : LogQuery := {| lq_since := Some since; lq_lines := 10; lq_filter := All; lq_max_bytes := 100 |}.
End LogWitness.
