(* ===== verification/Terminal.v ===== *)
(** * What the scanners read in a child's output

    Models muster-terminal/src: bounded_parser.rs, watched_performer.rs and
    fed.rs (a parser that holds no unbounded string), screen_state.rs,
    keyboard.rs and keyboard_tracker.rs (the keyboard protocol a child
    negotiated), scanned_modes.rs, mode_scanner.rs and observation.rs (the
    modes a repaint needs), tab_stops.rs and screen_switch.rs; and
    muster-protocol/src/holder/screen_gate.rs, which decides what of the output
    a log keeps.

    The parser of escape sequences is a crate's: the class [VtParser] gives the
    calls a parse makes. A byte is a number, as is a character. *)
From S2P Require Import Prelude RustText Values Tap LogFile LogSpan.

(** ** The parser *)
(** The calls a parser makes of a performer. *)
Inductive Dispatch :=
| DPrint (c : rchar)
| DExecute (byte : N)
| DHook
| DPut (byte : N)
| DUnhook
| DOsc
| DCsi (params : list (list N)) (intermediates : list N) (ignore : bool) (action : rchar)
| DEsc (intermediates : list N) (ignore : bool) (byte : N).

(** vte's parser: a new one, and what it dispatches for a slice. *)
Class VtParser := {
  vt : Type;
  vt_new : vt;
  vt_advance : list N → vt → list Dispatch * vt;
}.

Definition BEL : N := 7.
Definition CAN : N := 24.
Definition SUB : N := 26.
Definition CSI : list N := [27; 91]%N.
Definition PRIVATE_MARKER : N := 63.
Definition SET_MODE_FINAL : rchar := 104.
Definition RESET_MODE_FINAL : rchar := 108.
Definition SCROLL_REGION_FINAL : rchar := 114.
Definition KITTY_FINAL : rchar := 117.
Definition FULL_RESET_FINAL : N := 99.
Definition ALT_SCREEN_MODES : list N := [47; 1047; 1049]%N.
Definition SGR_RESET : list N := [27; 91; 48; 109]%N.
Definition PUSH_PEN : list N := [27; 91; 35; 123]%N.
Definition POP_PEN : list N := [27; 91; 35; 125]%N.

(** The first value of each parameter that has one. *)
Definition param_values (params : list (list N)) : list N := omap head params.

Definition MAX_PENDING_BYTES : N := 64 * 1024.
Definition SLICE : nat := 4 * 1024.

Definition ends_a_sequence (byte : N) : bool := (byte =? BEL)%N || (byte =? CAN)%N || (byte =? SUB)%N || (byte =? ESC)%N.
Definition continues_char (byte : N) : bool := (N.land byte 192 =? 128)%N.

(** How many bytes at the start of [bytes] continue a character. *)
Fixpoint continuing (bytes : list N) : nat :=
  match bytes with
  | b :: bytes => if continues_char b then S (continuing bytes) else 0
  | [] => 0
  end.
Definition char_end (bytes : list N) (size : nat) : nat := let end_ := min (length bytes) size in end_ + continuing (drop end_ bytes).
Definition slice_end (bytes : list N) : nat := char_end bytes SLICE.

Inductive Fed := FedKept | FedDropped.

Section parser.
Context `{VtParser}.

Record BoundedParser := { bp_parser : vt; bp_pending : N; bp_dropping : bool }.
Definition parser_new : BoundedParser := {| bp_parser := vt_new; bp_pending := 0; bp_dropping := false |}.

(** What a slice dispatched, whether it was kept, and the parser after it. *)
Definition feed_slice (slice : list N) (p : BoundedParser) : list Dispatch * bool * BoundedParser :=
  let '(calls, parser) := vt_advance slice (bp_parser p) in
  let pending := match calls with [] => (bp_pending p + N.of_nat (length slice))%N | _ => 0%N end in
  if (pending <=? MAX_PENDING_BYTES)%N then (calls, true, {| bp_parser := parser; bp_pending := pending; bp_dropping := bp_dropping p |})
  else (calls, false, {| bp_parser := vt_new; bp_pending := 0; bp_dropping := true |}).

Definition undropped (p : BoundedParser) : BoundedParser := {| bp_parser := bp_parser p; bp_pending := bp_pending p; bp_dropping := false |}.

(** Where a dropped sequence ends: at the escape that starts the next, or past
    its terminator. *)
Fixpoint after_dropped (bytes : list N) : option (list N) :=
  match bytes with
  | [] => None
  | b :: rest => if ends_a_sequence b then Some (if (b =? ESC)%N then bytes else rest) else after_dropped rest
  end.

(** Each round takes a byte or leaves off dropping. *)
Fixpoint advance_on (fuel : nat) (bytes : list N) (p : BoundedParser) : list Dispatch * BoundedParser :=
  match fuel, bytes with
  | O, _ | _, [] => ([], p)
  | S fuel, _ =>
    if bp_dropping p then
      match after_dropped bytes with
      | None => ([], p)
      | Some bytes => advance_on fuel bytes (undropped p)
      end
    else
      let n := slice_end bytes in
      let '(calls, _, p) := feed_slice (take n bytes) p in
      let '(more, p) := advance_on fuel (drop n bytes) p in
      (calls ++ more, p)
  end.
Definition advance (bytes : list N) (p : BoundedParser) : list Dispatch * BoundedParser := advance_on (2 * length bytes) bytes p.

Definition advance_byte (byte : N) (p : BoundedParser) : Fed * list Dispatch * BoundedParser :=
  let fed p := let '(calls, kept, p) := feed_slice [byte] p in ((if (kept : bool) then FedKept else FedDropped), calls, p) in
  if bp_dropping p then
    if (byte =? ESC)%N then fed (undropped p)
    else (FedDropped, [], {| bp_parser := bp_parser p; bp_pending := bp_pending p; bp_dropping := negb (ends_a_sequence byte) |})
  else fed p.
End parser.

(** ** The keyboard a child negotiated *)
Definition NO_FLAGS : N := 0.
Definition DISAMBIGUATE : N := 1.
Definition REPORT_EVENT_TYPES : N := 2.
Definition SUPPORTED_FLAGS : N := N.lor DISAMBIGUATE REPORT_EVENT_TYPES.
Definition STACK_LIMIT : nat := 16.

Record ScreenState := { ss_stack : list N; ss_flags : N }.
Definition screen_default : ScreenState := {| ss_stack := []; ss_flags := NO_FLAGS |}.

Definition push_flags (flags : N) (s : ScreenState) : ScreenState :=
  let stack := if STACK_LIMIT <=? length (ss_stack s) then drop 1 (ss_stack s) else ss_stack s in
  {| ss_stack := stack ++ [ss_flags s]; ss_flags := flags |}.
Definition set_flags (flags : N) (s : ScreenState) : ScreenState := {| ss_stack := ss_stack s; ss_flags := flags |}.
Definition pop_one (s : ScreenState) : ScreenState :=
  {| ss_stack := take (length (ss_stack s) - 1) (ss_stack s); ss_flags := default NO_FLAGS (last (ss_stack s)) |}.
Definition pop_flags (count : N) (s : ScreenState) : ScreenState := Nat.iter (N.to_nat count) pop_one s.
Definition levels (s : ScreenState) : list N := ss_stack s ++ [ss_flags s].

Definition DEVICE_ATTRIBUTES_FINAL : rchar := 99.
Definition PRIMARY_DEVICE_ATTRIBUTES : N := 0.
Definition DEVICE_ATTRIBUTES : list N := [27; 91; 63; 49; 59; 50; 99]%N.
Definition PUSH_INTRODUCER : N := 62.
Definition SET_INTRODUCER : N := 61.
Definition POP_INTRODUCER : N := 60.
Definition DEFAULT_POP_COUNT : N := 1.
Definition SET_MODE_REPLACE : N := 1.
Definition SET_MODE_OR : N := 2.
Definition SET_MODE_AND_NOT : N := 3.

Definition kitty_sequence (introducer flags : N) : list N := CSI ++ [introducer] ++ print_dec flags ++ [KITTY_FINAL].

Record Keyboard := { kb_primary : ScreenState; kb_alternate : ScreenState; kb_on_alternate : bool; kb_reply : list N }.
Definition keyboard_default : Keyboard :=
  {| kb_primary := screen_default; kb_alternate := screen_default; kb_on_alternate := false; kb_reply := [] |}.

Definition kb_reset (k : Keyboard) : Keyboard :=
  {| kb_primary := screen_default; kb_alternate := screen_default; kb_on_alternate := false; kb_reply := kb_reply k |}.
Definition active (k : Keyboard) : ScreenState := if kb_on_alternate k then kb_alternate k else kb_primary k.
Definition on_active (f : ScreenState → ScreenState) (k : Keyboard) : Keyboard :=
  if kb_on_alternate k
  then {| kb_primary := kb_primary k; kb_alternate := f (kb_alternate k); kb_on_alternate := true; kb_reply := kb_reply k |}
  else {| kb_primary := f (kb_primary k); kb_alternate := kb_alternate k; kb_on_alternate := false; kb_reply := kb_reply k |}.
Definition owe (bytes : list N) (k : Keyboard) : Keyboard :=
  {| kb_primary := kb_primary k; kb_alternate := kb_alternate k; kb_on_alternate := kb_on_alternate k; kb_reply := kb_reply k ++ bytes |}.

(** One [CSI introducer ... u]. *)
Definition kitty_apply (introducer : N) (params : list (list N)) (k : Keyboard) : Keyboard :=
  let first := default NO_FLAGS (head (param_values params)) in
  if (introducer =? PUSH_INTRODUCER)%N then on_active (push_flags (N.land first SUPPORTED_FLAGS)) k
  else if (introducer =? SET_INTRODUCER)%N then
    let flags := N.land first SUPPORTED_FLAGS in
    let mode := default SET_MODE_REPLACE (param_values params !! 1) in
    on_active (λ s, set_flags (if (mode =? SET_MODE_OR)%N then N.lor (ss_flags s) flags
                               else if (mode =? SET_MODE_AND_NOT)%N then N.ldiff (ss_flags s) flags
                               else flags) s) k
  else if (introducer =? POP_INTRODUCER)%N then on_active (pop_flags (N.max first DEFAULT_POP_COUNT)) k
  else if (introducer =? PRIVATE_MARKER)%N then owe (kitty_sequence PRIVATE_MARKER (ss_flags (active k))) k
  else k.

Definition switches_screen (params : list (list N)) : bool := existsb (λ mode, existsb (N.eqb mode) ALT_SCREEN_MODES) (param_values params).

Definition screen_mode (params : list (list N)) (set : bool) (k : Keyboard) : Keyboard :=
  if switches_screen params
  then {| kb_primary := kb_primary k; kb_alternate := kb_alternate k; kb_on_alternate := set; kb_reply := kb_reply k |}
  else k.

Definition device_attributes (params : list (list N)) (k : Keyboard) : Keyboard :=
  if (length params =? 1) && bool_decide (head (param_values params) = Some PRIMARY_DEVICE_ATTRIBUTES) then owe DEVICE_ATTRIBUTES k else k.

(** [Perform for Keyboard]. *)
Definition keyboard_perform (k : Keyboard) (d : Dispatch) : Keyboard :=
  match d with
  | DEsc intermediates _ byte => if bool_decide (intermediates = []) && (byte =? FULL_RESET_FINAL)%N then kb_reset k else k
  | DCsi params intermediates false action =>
    match intermediates with
    | [introducer] =>
      if (action =? KITTY_FINAL)%N then kitty_apply introducer params k
      else if (introducer =? PRIVATE_MARKER)%N && (action =? SET_MODE_FINAL)%N then screen_mode params true k
      else if (introducer =? PRIVATE_MARKER)%N && (action =? RESET_MODE_FINAL)%N then screen_mode params false k
      else k
    | [] => if (action =? DEVICE_ATTRIBUTES_FINAL)%N then device_attributes params k else k
    | _ => k
    end
  | _ => k
  end.

Section tracker.
Context `{VtParser}.

Record Tracker := { tr_parser : BoundedParser; tr_keyboard : Keyboard }.
Definition tracker_default : Tracker := {| tr_parser := parser_new; tr_keyboard := keyboard_default |}.

(** The replies owed to the child. *)
Definition observe (bytes : list N) (t : Tracker) : list N * Tracker :=
  let '(calls, parser) := advance bytes (tr_parser t) in
  let k := foldl keyboard_perform (tr_keyboard t) calls in
  (kb_reply k, {| tr_parser := parser; tr_keyboard := {| kb_primary := kb_primary k; kb_alternate := kb_alternate k;
                                                         kb_on_alternate := kb_on_alternate k; kb_reply := [] |} |}).

Definition restore_sequence (t : Tracker) : list N :=
  match levels (active (tr_keyboard t)) with
  | [] => []
  | oldest :: newer => kitty_sequence SET_INTRODUCER oldest ++ concat (kitty_sequence PUSH_INTRODUCER <$> newer)
  end.
End tracker.

(** ** The modes a repaint needs *)
Inductive Observation :=
| ONothing
| OEnterAlternate
| OLeaveAlternate
| OScrollRegion (top : N) (bottom : option N)
| OFullReset
| OSetTabStop
| OClearTabStop
| OClearAllTabStops
| OShiftOut
| OShiftIn
| ODropped.

Definition SHIFT_OUT : N := 14.
Definition SHIFT_IN : N := 15.
Definition SET_TAB_FINAL : N := 72.
Definition CLEAR_TABS_FINAL : rchar := 103.
Definition CLEAR_CURRENT_TAB : N := 0.
Definition CLEAR_ALL_TABS : N := 3.
Definition ORIGIN_MODE : N := 6.
Definition SAVING_ALT_SCREEN_MODE : N := 1049.
Definition SAVE_CURSOR_FINAL : N := 55.
Definition RESTORE_CURSOR_FINAL : N := 56.
Definition DEFAULT_TOP_MARGIN : N := 1.
Definition CURSOR_STYLE_INTERMEDIATE : N := 32.
Definition CURSOR_STYLE_FINAL : rchar := 113.
Definition DEFAULT_CURSOR_STYLE : N := 0.

Record Modes := { md_origin : bool; md_saved_origin : bool; md_cursor_style_set : bool; md_observed : Observation }.
Definition modes_default : Modes := {| md_origin := false; md_saved_origin := false; md_cursor_style_set := false; md_observed := ONothing |}.

Definition see (o : Observation) (m : Modes) : Modes :=
  {| md_origin := md_origin m; md_saved_origin := md_saved_origin m; md_cursor_style_set := md_cursor_style_set m; md_observed := o |}.
Definition clear_observed : Modes → Modes := see ONothing.
Definition set_origin (on : bool) (m : Modes) : Modes :=
  {| md_origin := on; md_saved_origin := md_saved_origin m; md_cursor_style_set := md_cursor_style_set m; md_observed := md_observed m |}.
Definition save_origin (m : Modes) : Modes :=
  {| md_origin := md_origin m; md_saved_origin := md_origin m; md_cursor_style_set := md_cursor_style_set m; md_observed := md_observed m |}.
Definition restore_origin (m : Modes) : Modes := set_origin (md_saved_origin m) m.
Definition set_cursor_style (on : bool) (m : Modes) : Modes :=
  {| md_origin := md_origin m; md_saved_origin := md_saved_origin m; md_cursor_style_set := on; md_observed := md_observed m |}.

Definition private_mode (set : bool) (m : Modes) (mode : N) : Modes :=
  if (mode =? ORIGIN_MODE)%N then set_origin set m
  else if (mode =? SAVING_ALT_SCREEN_MODE)%N then if set then save_origin m else restore_origin m
  else m.
Definition private_modes (params : list (list N)) (set : bool) (m : Modes) : Modes :=
  let m := foldl (private_mode set) m (param_values params) in
  if switches_screen params then see (if set then OEnterAlternate else OLeaveAlternate) m else m.

Definition margin (params : list (list N)) (index : nat) : option N :=
  match param_values params !! index with Some v => if (v =? 0)%N then None else Some v | None => None end.
Definition scroll_region (params : list (list N)) : Observation :=
  OScrollRegion (default DEFAULT_TOP_MARGIN (margin params 0)) (margin params 1).

(** [Perform for Modes]. *)
Definition modes_esc (intermediates : list N) (byte : N) (m : Modes) : Modes :=
  if negb (bool_decide (intermediates = [])) then m
  else if (byte =? FULL_RESET_FINAL)%N then {| md_origin := false; md_saved_origin := false; md_cursor_style_set := false; md_observed := OFullReset |}
  else if (byte =? SAVE_CURSOR_FINAL)%N then save_origin m
  else if (byte =? RESTORE_CURSOR_FINAL)%N then restore_origin m
  else if (byte =? SET_TAB_FINAL)%N then see OSetTabStop m
  else m.

Definition modes_csi (params : list (list N)) (intermediates : list N) (action : rchar) (m : Modes) : Modes :=
  match intermediates with
  | [mark] =>
    if (mark =? PRIVATE_MARKER)%N && (action =? SET_MODE_FINAL)%N then private_modes params true m
    else if (mark =? PRIVATE_MARKER)%N && (action =? RESET_MODE_FINAL)%N then private_modes params false m
    else if (mark =? CURSOR_STYLE_INTERMEDIATE)%N && (action =? CURSOR_STYLE_FINAL)%N
    then set_cursor_style (match head (param_values params) with Some style => negb (style =? DEFAULT_CURSOR_STYLE)%N | None => false end) m
    else m
  | [] =>
    if (action =? SCROLL_REGION_FINAL)%N then see (scroll_region params) m
    else if (action =? CLEAR_TABS_FINAL)%N
    then see (match head (param_values params) with
              | Some p => if (p =? CLEAR_CURRENT_TAB)%N then OClearTabStop else if (p =? CLEAR_ALL_TABS)%N then OClearAllTabStops else ONothing
              | None => ONothing
              end) m
    else m
  | _ => m
  end.

Definition modes_perform (m : Modes) (d : Dispatch) : Modes :=
  match d with
  | DExecute byte => if (byte =? SHIFT_OUT)%N then see OShiftOut m else if (byte =? SHIFT_IN)%N then see OShiftIn m else m
  | DEsc intermediates _ byte => modes_esc intermediates byte m
  | DCsi params intermediates false action => modes_csi params intermediates action m
  | _ => m
  end.

Section scanner.
Context `{VtParser}.

Record ModeScanner := { sc_parser : BoundedParser; sc_modes : Modes }.
Definition scanner_new : ModeScanner := {| sc_parser := parser_new; sc_modes := modes_default |}.

Definition scan_byte (byte : N) (s : ModeScanner) : Observation * ModeScanner :=
  let '(fed, calls, parser) := advance_byte byte (sc_parser s) in
  let modes := foldl modes_perform (clear_observed (sc_modes s)) calls in
  (match fed with FedKept => md_observed modes | FedDropped => ODropped end, {| sc_parser := parser; sc_modes := modes |}).
End scanner.

(** ** Tab stops *)
Definition TAB_INTERVAL : nat := 8.
Definition is_default_stop (column : nat) : bool := column mod TAB_INTERVAL =? 0.
Definition tabs_new (columns : nat) : list bool := is_default_stop <$> seq 0 columns.
Definition tabs_resize (columns : nat) (stops : list bool) : list bool :=
  take columns stops ++ (is_default_stop <$> seq (length stops) (columns - length stops)).
Definition tabs_set (column : nat) (stops : list bool) : list bool := <[column := true]> stops.
Definition tabs_clear (column : nat) (stops : list bool) : list bool := <[column := false]> stops.
Definition tabs_clear_all (stops : list bool) : list bool := (λ _, false) <$> stops.
Definition tabs_default (stops : list bool) : bool := bool_decide (stops = tabs_new (length stops)).
Definition tab_columns (stops : list bool) : list nat := fst <$> filter (λ it, it.2 = true) (imap pair stops).

(** ** What the log keeps *)
Record ScreenSwitch := { sw_at : nat; sw_alternate : bool }.

Definition FULL_SCREEN_LINE : list N := lit "[full-screen output not logged]".
Definition LINE_BREAK : list N := [13; 10]%N.
Definition full_screen_note : list N := END_OPEN_LINE ++ PUSH_PEN ++ SGR_RESET ++ FULL_SCREEN_LINE ++ POP_PEN ++ LINE_BREAK.

(** How much of [bytes] comes before their last escape. *)
Fixpoint before_escape (bytes : list N) : option nat :=
  match bytes with
  | [] => None
  | b :: bytes => match before_escape bytes with Some n => Some (S n) | None => if (b =? ESC)%N then Some 0 else None end
  end.

Definition clamp (low high n : nat) : nat := min (max n low) high.

(** One switch: what was logged, from where, and whether the alternate screen is
    up. *)
Definition pass_switch (bytes : list N) (state : list N * nat * bool) (switch : ScreenSwitch) : list N * nat * bool :=
  let '(logged, from, alternate) := state in
  let at_ := clamp from (length bytes) (sw_at switch) in
  let piece := take (at_ - from) (drop from bytes) in
  let logged :=
    if alternate : bool then logged
    else if sw_alternate switch then logged ++ take (default 0 (before_escape piece)) piece ++ full_screen_note
    else logged ++ piece in
  (logged, at_, sw_alternate switch).

(** Whether what is kept is the chunk itself, what is kept, and whether the
    alternate screen is up after it. *)
Definition logged (bytes : list N) (switches : list ScreenSwitch) (alternate : bool) : bool * list N * bool :=
  match switches with
  | [] => if alternate then (false, [], true) else (true, bytes, false)
  | _ =>
    let '(logged, from, alternate) := foldl (pass_switch bytes) ([], 0, alternate) switches in
    (false, if (alternate : bool) then logged else logged ++ drop from bytes, alternate)
  end.
