(* ===== verification/Screen.v ===== *)
(** * A screen and the sequences that paint it

    Models muster-terminal/src: cell_color.rs, cell_flags.rs, cell_style.rs,
    cursor_state.rs, snapshot_cell.rs and screen_snapshot.rs (a copy of one
    screen and the escape sequences that paint it onto a freshly reset
    terminal), with the parts of emulator.rs that read a screen of the crate
    into that copy and answer its colour queries, event_proxy.rs among them.

    A cell, a cursor and a mode of the crate are records of what the source
    reads of them. What the code appends to a [String] is the text appended. *)
From S2P Require Import Prelude RustText Values Config Tap LogFile LogSpan Terminal.

(** [String::into_bytes]: UTF-8. *)
Definition utf8_char (c : rchar) : list N :=
  if (c <? 128)%N then [c]
  else if (c <? 2048)%N then [192 + c / 64; 128 + c mod 64]%N
  else if (c <? 65536)%N then [224 + c / 4096; 128 + c / 64 mod 64; 128 + c mod 64]%N
  else [240 + c / 262144; 128 + c / 4096 mod 64; 128 + c / 64 mod 64; 128 + c mod 64]%N.
Definition into_bytes (s : rstr) : list N := concat (utf8_char <$> s).

(** ** What the crate keeps *)
Inductive StandardCharset := Ascii_ | SpecialCharacterAndLineDrawing.
Inductive VtColor := VtNamed (index : N) | VtSpec (r g b : N) | VtIndexed (index : N).
Record VtFlags := {
  vf_bold : bool; vf_dim : bool; vf_italic : bool; vf_underlined : bool; vf_inverse : bool; vf_hidden : bool; vf_strikeout : bool;
  vf_spacer : bool;
}.
Record VtCell := { vc_c : rchar; vc_zerowidth : list rchar; vc_fg : VtColor; vc_bg : VtColor; vc_flags : VtFlags }.
Record VtCursor := { vu_line : Z; vu_column : N; vu_needs_wrap : bool; vu_template : VtCell; vu_charsets : StandardCharset * StandardCharset }.
Record VtGrid := { vg_lines : list (list VtCell); vg_cursor : VtCursor; vg_saved : VtCursor }.

(** ** The copy *)
Inductive CellColor := CDefault | CIndexed (index : N) | CRgb (r g b : N).
Record CellFlags := { fl_bold : bool; fl_dim : bool; fl_italic : bool; fl_underline : bool; fl_inverse : bool; fl_hidden : bool; fl_strikeout : bool }.
Definition flags_default : CellFlags :=
  {| fl_bold := false; fl_dim := false; fl_italic := false; fl_underline := false; fl_inverse := false; fl_hidden := false; fl_strikeout := false |}.
Record CellStyle := { st_fg : CellColor; st_bg : CellColor; st_flags : CellFlags }.
Definition style_default : CellStyle := {| st_fg := CDefault; st_bg := CDefault; st_flags := flags_default |}.
#[export] Instance CellColor_eq_dec : EqDecision CellColor.
Proof. solve_decision. Defined.
#[export] Instance CellFlags_eq_dec : EqDecision CellFlags.
Proof. solve_decision. Defined.
#[export] Instance CellStyle_eq_dec : EqDecision CellStyle.
Proof. solve_decision. Defined.

Record CursorState := { cu_position : N * N; cu_wrap_pending : bool; cu_pen : CellStyle; cu_charsets : StandardCharset * StandardCharset }.
Record SnapshotCell := { sn_ch : rchar; sn_zerowidth : list rchar; sn_style : CellStyle; sn_spacer : bool }.
Definition is_blank_default (c : SnapshotCell) : bool :=
  negb (sn_spacer c) && (sn_ch c =? 32)%N && bool_decide (sn_zerowidth c = []) && bool_decide (sn_style c = style_default).
Record ScreenSnapshot := { sp_rows : list (list SnapshotCell); sp_cursor : CursorState; sp_saved : CursorState }.

Definition LAST_ANSI_NAMED : N := 15.
Definition to_color (color : VtColor) : CellColor :=
  match color with
  | VtSpec r g b => CRgb r g b
  | VtIndexed index => CIndexed index
  | VtNamed index => if (index <=? LAST_ANSI_NAMED)%N then CIndexed index else CDefault
  end.
Definition cell_style (fg bg : VtColor) (f : VtFlags) : CellStyle :=
  {| st_fg := to_color fg; st_bg := to_color bg;
     st_flags := {| fl_bold := vf_bold f; fl_dim := vf_dim f; fl_italic := vf_italic f; fl_underline := vf_underlined f; fl_inverse := vf_inverse f;
                       fl_hidden := vf_hidden f; fl_strikeout := vf_strikeout f |} |}.

(** [u16::try_from], 0 for what does not fit. *)
Definition u16_or_0 (z : Z) : N := if (0 <=? z)%Z && (z <=? Z.of_N u16_max)%Z then Z.to_N z else 0%N.
Definition cursor_state (c : VtCursor) : CursorState :=
  {| cu_position := (u16_or_0 (vu_line c), u16_or_0 (Z.of_N (vu_column c))); cu_wrap_pending := vu_needs_wrap c;
     cu_pen := cell_style (vc_fg (vu_template c)) (vc_bg (vu_template c)) (vc_flags (vu_template c)); cu_charsets := vu_charsets c |}.
Definition snapshot_cell (c : VtCell) : SnapshotCell :=
  {| sn_ch := vc_c c; sn_zerowidth := vc_zerowidth c; sn_style := cell_style (vc_fg c) (vc_bg c) (vc_flags c); sn_spacer := vf_spacer (vc_flags c) |}.
Definition capture (g : VtGrid) : ScreenSnapshot :=
  {| sp_rows := map (map snapshot_cell) (vg_lines g); sp_cursor := cursor_state (vg_cursor g); sp_saved := cursor_state (vg_saved g) |}.

(** ** Painting it *)
Definition SAVE_CURSOR : rstr := [27; 55]%N.
Definition DESIGNATE_G0 : rstr := [27; 40]%N.
Definition DESIGNATE_G1 : rstr := [27; 41]%N.
Definition CHARSET_ASCII : rchar := 66.
Definition CHARSET_LINE_DRAWING : rchar := 48.
Definition SGR_FINAL : rchar := 109.
Definition SGR_BOLD : rstr := lit "1".
Definition SGR_DIM : rstr := lit "2".
Definition SGR_ITALIC : rstr := lit "3".
Definition SGR_UNDERLINE : rstr := lit "4".
Definition SGR_INVERSE : rstr := lit "7".
Definition SGR_HIDDEN : rstr := lit "8".
Definition SGR_STRIKEOUT : rstr := lit "9".
Definition SGR_RESET_PARAM : N := 0.
Definition SGR_COLOR_INDEXED : N := 5.
Definition SGR_COLOR_RGB : N := 2.
Definition SGR_FOREGROUND : N := 38.
Definition SGR_BACKGROUND : N := 48.
Definition CUP_FINAL : rchar := 72.

(** [[str]::join]. *)
Fixpoint join (separator : rstr) (parts : list rstr) : rstr :=
  match parts with
  | [] => []
  | [part] => part
  | part :: parts => part ++ separator ++ join separator parts
  end.

Definition cursor_position (row col : N) : rstr := CSI ++ print_dec row ++ lit ";" ++ print_dec col ++ [CUP_FINAL].

Definition color_params (prefix : N) (color : CellColor) : list rstr :=
  match color with
  | CDefault => []
  | CIndexed index => [print_dec prefix; print_dec SGR_COLOR_INDEXED; print_dec index]
  | CRgb r g b => [print_dec prefix; print_dec SGR_COLOR_RGB; print_dec r; print_dec g; print_dec b]
  end.
Definition attribute_params (f : CellFlags) : list rstr :=
  snd <$> filter (λ it : bool * rstr, it.1 = true)
    [(fl_bold f, SGR_BOLD); (fl_dim f, SGR_DIM); (fl_italic f, SGR_ITALIC); (fl_underline f, SGR_UNDERLINE); (fl_inverse f, SGR_INVERSE);
     (fl_hidden f, SGR_HIDDEN); (fl_strikeout f, SGR_STRIKEOUT)].
Definition sgr_sequence (style : CellStyle) : rstr :=
  CSI ++ join (lit ";") (print_dec SGR_RESET_PARAM :: attribute_params (st_flags style) ++ color_params SGR_FOREGROUND (st_fg style) ++
                         color_params SGR_BACKGROUND (st_bg style)) ++ [SGR_FINAL].

Definition charset_final (c : StandardCharset) : rchar := match c with Ascii_ => CHARSET_ASCII | SpecialCharacterAndLineDrawing => CHARSET_LINE_DRAWING end.
Definition push_charsets (charsets : StandardCharset * StandardCharset) : rstr :=
  DESIGNATE_G0 ++ [charset_final charsets.1] ++ DESIGNATE_G1 ++ [charset_final charsets.2].
Definition push_pen (c : CursorState) : rstr := push_charsets (cu_charsets c) ++ sgr_sequence (cu_pen c).

(** [saturating_sub(1)] of a [u16]. *)
Definition last_index (n : N) : N := (n - 1)%N.
Definition save_cursor (s : ScreenSnapshot) (rows cols : N) : rstr :=
  let '(row, col) := cu_position (sp_saved s) in
  cursor_position (N.min row (last_index rows) + 1) (N.min col (last_index cols) + 1) ++ push_pen (sp_saved s) ++ SAVE_CURSOR ++
  push_charsets (Ascii_, Ascii_) ++ SGR_RESET.

Definition last_printed (s : ScreenSnapshot) (row last : N) : option (N * SnapshotCell) :=
  match sp_rows s !! N.to_nat row with
  | None => None
  | Some cells =>
    match cells !! N.to_nat last with
    | None => None
    | Some cell =>
      if negb (sn_spacer cell) then Some (last, cell)
      else if (last =? 0)%N then None
      else pair (last - 1)%N <$> cells !! N.to_nat (last - 1)
    end
  end.

Definition place_cursor (s : ScreenSnapshot) (rows cols origin_top : N) : rstr :=
  let '(row, col) := cu_position (sp_cursor s) in
  let row := N.min row (last_index rows) in
  let addressed := (row - origin_top + 1)%N in
  let last := last_index cols in
  let plain := cursor_position addressed (N.min col last + 1) in
  if cu_wrap_pending (sp_cursor s) && (last <=? col)%N then
    match last_printed s row last with
    | Some (column, cell) => cursor_position addressed (column + 1) ++ sgr_sequence (sn_style cell) ++ [sn_ch cell] ++ sn_zerowidth cell ++ SGR_RESET
    | None => plain
    end
  else plain.

Definition restore_pen (s : ScreenSnapshot) : rstr := push_pen (sp_cursor s).

(** How many cells come up to the last that is not an unstyled blank. *)
Fixpoint used_cells (cells : list SnapshotCell) : nat :=
  match cells with
  | [] => 0
  | c :: cells => match used_cells cells with O => if is_blank_default c then 0 else 1 | n => S n end
  end.

(** The glyphs of a row, a change of style before each that needs one. *)
Fixpoint paint_glyphs (pen : option CellStyle) (cells : list SnapshotCell) : rstr :=
  match cells with
  | [] => []
  | c :: cells =>
    if sn_spacer c then paint_glyphs pen cells else
    (if bool_decide (pen = Some (sn_style c)) then [] else sgr_sequence (sn_style c)) ++ [sn_ch c] ++ sn_zerowidth c ++
    paint_glyphs (Some (sn_style c)) cells
  end.
Definition paint_row (cols row : N) (cells : list SnapshotCell) : rstr :=
  let cells := take (N.to_nat cols) cells in
  cursor_position row 1 ++ paint_glyphs None (take (used_cells cells) cells) ++ SGR_RESET.
Definition paint_cells (s : ScreenSnapshot) (rows cols : N) : rstr :=
  concat (imap (λ i cells, paint_row cols (N.of_nat i + 1) cells) (take (N.to_nat rows) (sp_rows s))).

(** ** Colour queries *)
Record Rgb := { rgb_r : N; rgb_g : N; rgb_b : N }.
Definition rgb (r g b : N) : Rgb := {| rgb_r := r; rgb_g := g; rgb_b := b |}.
Definition ANSI_PALETTE : list Rgb :=
  [rgb 0 0 0; rgb 128 0 0; rgb 0 128 0; rgb 128 128 0; rgb 0 0 128; rgb 128 0 128; rgb 0 128 128; rgb 192 192 192;
   rgb 128 128 128; rgb 255 0 0; rgb 0 255 0; rgb 255 255 0; rgb 0 0 255; rgb 255 0 255; rgb 0 255 255; rgb 255 255 255].
Definition DARK_BACKGROUND : Rgb := rgb 18 18 18.
Definition DARK_FOREGROUND : Rgb := rgb 208 208 208.
Definition LIGHT_BACKGROUND : Rgb := rgb 250 250 250.
Definition LIGHT_FOREGROUND : Rgb := rgb 16 16 16.
(** The crate's [NamedColor::Background]. *)
Definition NAMED_BACKGROUND : N := 257.

Definition scheme_colors (scheme : ColorScheme) : Rgb * Rgb :=
  match scheme with Dark => (DARK_BACKGROUND, DARK_FOREGROUND) | Light => (LIGHT_BACKGROUND, LIGHT_FOREGROUND) end.
Definition cube_component (value : N) : N := if (value =? 0)%N then 0%N else ((value * 40 + 55) mod 256)%N.
Definition cube_color (offset : N) : Rgb := rgb (cube_component (offset / 36)) (cube_component (offset / 6 mod 6)) (cube_component (offset mod 6)).
Definition resolve_color (index : N) (scheme : ColorScheme) : Rgb :=
  let '(background, foreground) := scheme_colors scheme in
  if (index <=? 15)%N then default foreground (ANSI_PALETTE !! N.to_nat index)
  else if (index <=? 231)%N then cube_color (index - 16)
  else if (index <=? 255)%N then let level := (((index - 232) * 10 + 8) mod 256)%N in rgb level level level
  else if (index =? NAMED_BACKGROUND)%N then background
  else foreground.

(** What the crate tells its listener: text to write back, and a colour asked
    for, with how its answer is worded. *)
Inductive Event := PtyWrite (text : rstr) | ColorRequest (index : N) (format : Rgb → rstr) | OtherEvent.

(** What a listener writes back to the child. *)
Definition send_event (scheme : ColorScheme) (e : Event) : list N :=
  match e with
  | PtyWrite text => into_bytes text
  | ColorRequest index format => into_bytes (format (resolve_color index scheme))
  | OtherEvent => []
  end.
