(* ===== verification/Emulator.v ===== *)
(** * The emulator as it is fed and repainted

    Models muster-terminal/src/emulator.rs but for its reading of selections:
    feeding a chunk to the crate's screen beside the scanners of Terminal.v, the
    blank screen a panic of the crate leaves, and the sequence that rebuilds the
    screen, from the painting of Screen.v. [Backend] is the crate: its screen,
    the parser that feeds it, and what the source asks of either. *)
From S2P Require Import Prelude RustText Values Config Tap LogFile LogSpan Terminal Screen.

(** The modes the source asks a screen for. *)
Record TermMode := {
  tm_alt_screen : bool; tm_bracketed_paste : bool; tm_app_cursor : bool; tm_mouse_motion : bool; tm_mouse_drag : bool;
  tm_mouse_report_click : bool; tm_sgr_mouse : bool; tm_utf8_mouse : bool; tm_line_wrap : bool; tm_focus_in_out : bool;
  tm_show_cursor : bool; tm_insert : bool; tm_origin : bool;
}.
Inductive CursorShape := Block | Underline | Beam | HollowBlock | Hidden.

(** The screen of a crate: cells and cursor behind a parser of its own. Feeding it
    gives the screen, what it tells its listener, and whether it panicked. *)
Class Backend := {
  term : Type;
  processor : Type;
  processor_new : processor;
  term_new : N → N → N → term;
  term_advance : list N → processor * term → (processor * term) * list Event * bool;
  term_mode : term → TermMode;
  term_lines : term → N;
  term_columns : term → N;
  term_grid : term → VtGrid;
  term_cursor_style : term → CursorShape * bool;
  term_resize : N → N → term → term;
}.

Definition RESET_TERMINAL : rstr := [27; 99]%N.
Definition ENTER_ALT_SCREEN : rstr := CSI ++ lit "?1049h".
Definition ENABLE_BRACKETED_PASTE : rstr := CSI ++ lit "?2004h".
Definition ENABLE_APP_CURSOR : rstr := CSI ++ lit "?1h".
Definition ENABLE_MOUSE_PRESS_RELEASE : rstr := CSI ++ lit "?1000h".
Definition ENABLE_MOUSE_BUTTON_MOTION : rstr := CSI ++ lit "?1002h".
Definition ENABLE_MOUSE_ANY_MOTION : rstr := CSI ++ lit "?1003h".
Definition ENABLE_MOUSE_UTF8 : rstr := CSI ++ lit "?1005h".
Definition ENABLE_MOUSE_SGR : rstr := CSI ++ lit "?1006h".
Definition HIDE_CURSOR : rstr := CSI ++ lit "?25l".
Definition DISABLE_AUTOWRAP : rstr := CSI ++ lit "?7l".
Definition ENABLE_FOCUS_REPORTING : rstr := CSI ++ lit "?1004h".
Definition ENABLE_ORIGIN_MODE : rstr := CSI ++ lit "?6h".
Definition ENABLE_INSERT_MODE : rstr := CSI ++ lit "4h".
Definition SHIFT_OUT : rstr := [14]%N.
Definition CLEAR_ALL_TAB_STOPS : rstr := CSI ++ lit "3g".
Definition SET_TAB_STOP : rstr := [27; 72]%N.
Definition CURSOR_STYLE_FINAL : rstr := lit " q".
Definition CURSOR_BLINKING_BLOCK : N := 1.
Definition CURSOR_BLINKING_UNDERLINE : N := 3.
Definition CURSOR_BLINKING_BEAM : N := 5.

Inductive MouseProtocolMode := MNone | MPressRelease | MButtonMotion | MAnyMotion.
Inductive MouseProtocolEncoding := EDefault | EUtf8 | ESgr.
Definition mouse_protocol_mode (m : TermMode) : MouseProtocolMode :=
  if tm_mouse_motion m then MAnyMotion else if tm_mouse_drag m then MButtonMotion else if tm_mouse_report_click m then MPressRelease else MNone.
Definition mouse_protocol_encoding (m : TermMode) : MouseProtocolEncoding :=
  if tm_sgr_mouse m then ESgr else if tm_utf8_mouse m then EUtf8 else EDefault.

Definition push_tab_stops (tabs : list bool) : rstr :=
  if tabs_default tabs then [] else
  CLEAR_ALL_TAB_STOPS ++ concat ((λ column, cursor_position 1 (N.min (N.of_nat column + 1) u16_max) ++ SET_TAB_STOP) <$> tab_columns tabs).

Definition push_cursor_style (chosen : bool) (style : CursorShape * bool) : rstr :=
  if negb chosen then [] else
  let code n := CSI ++ print_dec (if style.2 then n else n + 1)%N ++ CURSOR_STYLE_FINAL in
  match style.1 with
  | Block => code CURSOR_BLINKING_BLOCK
  | Underline => code CURSOR_BLINKING_UNDERLINE
  | Beam => code CURSOR_BLINKING_BEAM
  | HollowBlock | Hidden => []
  end.

(** A sequence a mode asks for. *)
Definition when_ (on : bool) (sequence : rstr) : rstr := if on then sequence else [].
Definition push_mode_sequences (chosen : bool) (style : CursorShape * bool) (m : TermMode) : rstr :=
  push_cursor_style chosen style ++
  when_ (negb (tm_line_wrap m)) DISABLE_AUTOWRAP ++
  when_ (tm_focus_in_out m) ENABLE_FOCUS_REPORTING ++
  when_ (negb (tm_show_cursor m)) HIDE_CURSOR ++
  when_ (tm_bracketed_paste m) ENABLE_BRACKETED_PASTE ++
  when_ (tm_app_cursor m) ENABLE_APP_CURSOR ++
  when_ (tm_insert m) ENABLE_INSERT_MODE ++
  match mouse_protocol_mode m with
  | MNone => []
  | MPressRelease => ENABLE_MOUSE_PRESS_RELEASE
  | MButtonMotion => ENABLE_MOUSE_BUTTON_MOTION
  | MAnyMotion => ENABLE_MOUSE_ANY_MOTION
  end ++
  match mouse_protocol_encoding m with
  | EDefault => []
  | EUtf8 => ENABLE_MOUSE_UTF8
  | ESgr => ENABLE_MOUSE_SGR
  end.

Section emulator.
Context `{VtParser, Backend}.

Record Emulator := {
  em_term : term;
  em_processor : processor;
  em_writes : list N;
  em_scanner : ModeScanner;
  em_primary : option term;
  em_scroll_region : option (N * N);
  em_history : N;
  em_scheme : ColorScheme;
  em_tabs : list bool;
  em_shift_out : bool;
  em_scanned_alternate : bool;
  em_switches : list ScreenSwitch;
  em_scanned : nat;
}.

Definition emulator_new (rows cols history : N) (scheme : ColorScheme) : Emulator :=
  {| em_term := term_new rows cols history; em_processor := processor_new; em_writes := []; em_scanner := scanner_new; em_primary := None;
     em_scroll_region := None; em_history := history; em_scheme := scheme; em_tabs := tabs_new (N.to_nat cols); em_shift_out := false;
     em_scanned_alternate := false; em_switches := []; em_scanned := 0 |}.

Definition em_screen (t : term) (p : processor) (writes : list N) (primary : option term) (e : Emulator) : Emulator :=
  {| em_term := t; em_processor := p; em_writes := writes; em_scanner := em_scanner e; em_primary := primary;
     em_scroll_region := em_scroll_region e; em_history := em_history e; em_scheme := em_scheme e; em_tabs := em_tabs e; em_shift_out := em_shift_out e;
     em_scanned_alternate := em_scanned_alternate e; em_switches := em_switches e; em_scanned := em_scanned e |}.
Definition em_modes (region : option (N * N)) (tabs : list bool) (shift_out : bool) (e : Emulator) : Emulator :=
  {| em_term := em_term e; em_processor := em_processor e; em_writes := em_writes e; em_scanner := em_scanner e; em_primary := em_primary e;
     em_scroll_region := region; em_history := em_history e; em_scheme := em_scheme e; em_tabs := tabs; em_shift_out := shift_out;
     em_scanned_alternate := em_scanned_alternate e; em_switches := em_switches e; em_scanned := em_scanned e |}.
Definition em_scan (scanner : ModeScanner) (alternate : bool) (switches : list ScreenSwitch) (scanned : nat) (e : Emulator) : Emulator :=
  {| em_term := em_term e; em_processor := em_processor e; em_writes := em_writes e; em_scanner := scanner; em_primary := em_primary e;
     em_scroll_region := em_scroll_region e; em_history := em_history e; em_scheme := em_scheme e; em_tabs := em_tabs e; em_shift_out := em_shift_out e;
     em_scanned_alternate := alternate; em_switches := switches; em_scanned := scanned |}.

Definition note_screen (index : nat) (alternate : bool) (e : Emulator) : Emulator :=
  if Bool.eqb alternate (em_scanned_alternate e) then e
  else em_scan (em_scanner e) alternate (em_switches e ++ [{| sw_at := index + 1; sw_alternate := alternate |}]) (em_scanned e) e.

(** Feeds the backend; whether it panicked. *)
Definition draw_bytes (bytes : list N) (e : Emulator) : bool * Emulator :=
  let '(p, t, events, panicked) := term_advance bytes (em_processor e, em_term e) in
  (panicked, em_screen t p (em_writes e ++ concat (send_event (em_scheme e) <$> events)) (em_primary e) e).

Definition alternate_screen (e : Emulator) : bool := tm_alt_screen (term_mode (em_term e)).
(** [TerminalEmulator::size], whose counts are cast to [u16]. *)
Definition em_size (e : Emulator) : N * N := ((term_lines (em_term e)) mod (u16_max + 1), (term_columns (em_term e)) mod (u16_max + 1))%N.

(** The primary screen behind the alternate one. *)
Definition repaint_primary (rows cols : N) (e : Emulator) : rstr :=
  if negb (alternate_screen e) then [] else
  match em_primary e with
  | Some primary => let screen := capture (term_grid primary) in paint_cells screen rows cols ++ place_cursor screen rows cols 0 ++ restore_pen screen
  | None => []
  end ++ ENTER_ALT_SCREEN ++ push_charsets (Ascii_, Ascii_).

(** The row origin mode addresses from. *)
Definition origin_top (e : Emulator) : N :=
  if tm_origin (term_mode (em_term e)) then match em_scroll_region e with Some (top, _) => u16_or_0 (Z.of_N (top - 1)) | None => 0%N end else 0%N.

Definition repaint_text (e : Emulator) : rstr :=
  let '(rows, cols) := em_size e in
  let mode := term_mode (em_term e) in
  let screen := capture (term_grid (em_term e)) in
  RESET_TERMINAL ++ repaint_primary rows cols e ++ push_tab_stops (em_tabs e) ++
  match em_scroll_region e with
  | Some (top, bottom) => CSI ++ print_dec top ++ lit ";" ++ print_dec bottom ++ [SCROLL_REGION_FINAL]
  | None => []
  end ++
  paint_cells screen rows cols ++ save_cursor screen rows cols ++ when_ (tm_origin mode) ENABLE_ORIGIN_MODE ++
  place_cursor screen rows cols (origin_top e) ++
  push_mode_sequences (md_cursor_style_set (sc_modes (em_scanner e))) (term_cursor_style (em_term e)) mode ++
  when_ (em_shift_out e) SHIFT_OUT ++ restore_pen screen.
Definition repaint (e : Emulator) : list N := into_bytes (repaint_text e).

(** A copy of the primary screen, rebuilt from its repaint by a parser of its own
    that answers nobody; [None] when the crate panics on it. *)
Definition copy_primary (e : Emulator) : option term :=
  let '(_, copy, _, panicked) := term_advance (repaint e) (processor_new, term_new (term_lines (em_term e)) (term_columns (em_term e)) (em_history e)) in
  if (panicked : bool) then None else Some copy.
Definition keep_primary (e : Emulator) : bool * Emulator :=
  if alternate_screen e then (false, e) else
  match copy_primary e with
  | None => (true, e)
  | Some copy => (false, em_screen (em_term e) (em_processor e) (em_writes e) (Some copy) e)
  end.

Definition slice_of (bytes : list N) (start stop : nat) : list N := take (stop - start) (drop start bytes).

(** The column tab stops act on. *)
Definition cursor_column (e : Emulator) : nat := N.to_nat (vu_column (vg_cursor (term_grid (em_term e)))).

(** [TerminalEmulator::process]: whether the backend panicked, and what it left. *)
Fixpoint process_from (bytes rest : list N) (index start : nat) (e : Emulator) : bool * Emulator :=
  match rest with
  | [] =>
    let '(panicked, e) := draw_bytes (drop start bytes) e in
    if (panicked : bool) then (true, e) else
    (false, if alternate_screen e then e else em_screen (em_term e) (em_processor e) (em_writes e) None e)
  | byte :: rest =>
    let '(observation, scanner) := scan_byte byte (em_scanner e) in
    let e := em_scan scanner (em_scanned_alternate e) (em_switches e) (index + 1) e in
    let go := process_from bytes rest (S index) in
    let tab f :=
      let '(panicked, e) := draw_bytes (slice_of bytes start (S index)) e in
      if (panicked : bool) then (true, e) else
      go (S index) (em_modes (em_scroll_region e) (f (cursor_column e) (em_tabs e)) (em_shift_out e) e) in
    match observation with
    | ONothing => go start e
    | OLeaveAlternate => go start (note_screen index false e)
    | OEnterAlternate =>
      let '(panicked, e) := draw_bytes (slice_of bytes start index) (note_screen index true e) in
      if (panicked : bool) then (true, e) else
      let '(panicked, e) := keep_primary e in
      if (panicked : bool) then (true, e) else go index e
    | OScrollRegion top bottom =>
      let bottom := default (term_lines (em_term e)) bottom in
      go start (if (top <? bottom)%N then em_modes (Some (top, bottom)) (em_tabs e) (em_shift_out e) e else e)
    | OFullReset => go start (em_modes None (tabs_new (N.to_nat (term_columns (em_term e)))) false (note_screen index false e))
    | OShiftOut => go start (em_modes (em_scroll_region e) (em_tabs e) true e)
    | OShiftIn => go start (em_modes (em_scroll_region e) (em_tabs e) false e)
    | ODropped =>
      let '(panicked, e) := draw_bytes (slice_of bytes start index) e in
      if (panicked : bool) then (true, e) else
      go (S index) (em_screen (em_term e) processor_new (em_writes e) (em_primary e) e)
    | OSetTabStop => tab tabs_set
    | OClearTabStop => tab tabs_clear
    | OClearAllTabStops => tab (λ _, tabs_clear_all)
    end
  end.
Definition process (bytes : list N) (e : Emulator) : bool * Emulator :=
  process_from bytes bytes 0 0 (em_scan (em_scanner e) (em_scanned_alternate e) (em_switches e) 0 e).

(** Scans [rest], from [index] on, for its screen switches alone. *)
Fixpoint scan_switches (rest : list N) (index : nat) (e : Emulator) : Emulator :=
  match rest with
  | [] => e
  | byte :: rest =>
    let '(observation, scanner) := scan_byte byte (em_scanner e) in
    let e := em_scan scanner (em_scanned_alternate e) (em_switches e) (em_scanned e) e in
    scan_switches rest (S index)
      (match observation with
       | OEnterAlternate => note_screen index true e
       | OLeaveAlternate | OFullReset => note_screen index false e
       | _ => e
       end)
  end.

Definition process_or_reset (bytes : list N) (e : Emulator) : bool * Emulator :=
  let '(panicked, e) := process bytes e in
  if (panicked : bool) then
    let blank := emulator_new (term_lines (em_term e)) (term_columns (em_term e)) (em_history e) (em_scheme e) in
    let fresh := em_scan (em_scanner e) (em_scanned_alternate e) (em_switches e) (em_scanned blank)
                   (em_screen (em_term blank) (em_processor blank) (em_writes e) None blank) in
    let fresh := scan_switches (drop (em_scanned e) bytes) (em_scanned e) fresh in
    (true, if em_scanned_alternate fresh then (draw_bytes ENTER_ALT_SCREEN fresh).2 else fresh)
  else (false, e).

Definition take_screen_switches (e : Emulator) : list ScreenSwitch * Emulator :=
  (em_switches e, em_scan (em_scanner e) (em_scanned_alternate e) [] (em_scanned e) e).
Definition take_pty_writes (e : Emulator) : list N * Emulator :=
  (em_writes e, em_screen (em_term e) (em_processor e) [] (em_primary e) e).
Definition em_set_size (rows cols : N) (e : Emulator) : Emulator :=
  em_modes None (tabs_resize (N.to_nat cols) (em_tabs e)) (em_shift_out e)
    (em_screen (term_resize rows cols (em_term e)) (em_processor e) (em_writes e) (term_resize rows cols <$> em_primary e) e).
End emulator.
