(* ===== verification/TermScan.v ===== *)
(** * What the scanners promise

    The parser holds no unbounded string; the keyboard a child negotiated is
    bounded and rebuilt by its restore sequence; the screen switches found in a
    chunk come from its bytes alone, whatever the backend does; and the log keeps
    nothing of what was drawn on the alternate screen
    (muster-terminal/src, muster-protocol/src/holder/screen_gate.rs). *)
From S2P Require Import Prelude RustText Values Tap LogFile LogSpan Terminal Screen Emulator.

Section parser_laws.
Context `{VtParser}.

Lemma feed_slice_bounded slice p : (bp_pending (feed_slice slice p).2 ≤ MAX_PENDING_BYTES)%N.
Proof. unfold feed_slice. destruct (vt_advance slice (bp_parser p)) as [calls q]. cbv zeta. destruct (N.leb_spec (match calls with [] => (bp_pending p + N.of_nat (length slice))%N | _ => 0%N end) MAX_PENDING_BYTES); cbn; lia. Qed.

Lemma advance_byte_bounded byte p : (bp_pending p ≤ MAX_PENDING_BYTES)%N → (bp_pending (advance_byte byte p).2 ≤ MAX_PENDING_BYTES)%N.
Proof.
  intros Hp. unfold advance_byte. cbv zeta. destruct (bp_dropping p); [destruct (byte =? ESC)%N; [|done]|];
    [pose proof (feed_slice_bounded [byte] (undropped p)) as Hb|pose proof (feed_slice_bounded [byte] p) as Hb]; by destruct (feed_slice [byte] _) as [[? ?] ?].
Qed.

Lemma advance_on_bounded fuel bytes p : (bp_pending p ≤ MAX_PENDING_BYTES)%N → (bp_pending (advance_on fuel bytes p).2 ≤ MAX_PENDING_BYTES)%N.
Proof.
  revert bytes p. induction fuel as [|fuel IH]; intros bytes p Hp; [done|]. destruct bytes as [|b bytes]; [done|]. cbn [advance_on].
  destruct (bp_dropping p). { destruct (after_dropped (b :: bytes)); [by apply IH|done]. }
  pose proof (feed_slice_bounded (take (slice_end (b :: bytes)) (b :: bytes)) p) as Hb. destruct (feed_slice _ p) as [[calls kept] q]. cbn [snd] in Hb.
  specialize (IH (drop (slice_end (b :: bytes)) (b :: bytes)) q Hb). by destruct (advance_on fuel _ q).
Qed.

Lemma slice_end_pos b bytes : 1 ≤ slice_end (b :: bytes).
Proof. unfold slice_end, char_end. cbv zeta. assert (1 ≤ min (length (b :: bytes)) SLICE) by (unfold SLICE; cbn [length]; lia). lia. Qed.

Lemma after_dropped_length bytes rest : after_dropped bytes = Some rest → length rest ≤ length bytes.
Proof. induction bytes as [|b bytes IH]; cbn [after_dropped]; [done|]. destruct (ends_a_sequence b); [|intros E; specialize (IH E); cbn; lia]. destruct (b =? ESC)%N; intros [= <-]; cbn; lia. Qed.

(** More rounds change nothing: there are enough. *)
Lemma advance_on_enough fuel fuel' bytes p :
  2 * length bytes + (if bp_dropping p then 1 else 0) ≤ fuel → fuel ≤ fuel' → advance_on fuel bytes p = advance_on fuel' bytes p.
Proof.
  revert fuel' bytes p. induction fuel as [|fuel IH]; intros fuel' bytes p Hf Hle.
  { destruct bytes; [|cbn in Hf; lia]. by destruct fuel'. }
  destruct fuel' as [|fuel']; [lia|]. destruct bytes as [|b bytes]; [done|]. cbn [advance_on]. destruct (bp_dropping p) eqn:Ed.
  - destruct (after_dropped (b :: bytes)) as [rest|] eqn:Ea; [|done]. apply after_dropped_length in Ea. apply IH; [|lia]. cbn [undropped bp_dropping length] in *. lia.
  - pose proof (slice_end_pos b bytes) as Hpos. destruct (feed_slice _ p) as [[calls kept] q]. erewrite IH; [done| |lia].
    rewrite length_drop. cbn [length] in *. destruct (bp_dropping q); lia.
Qed.
End parser_laws.

(** ** Screen switches *)
Section switches.
Context `{VtParser, Backend}.

(** What the scanner knows: its own state, the screen it last saw up, and the
    switches noted. *)
Notation Scanned := (ModeScanner * bool * list ScreenSwitch)%type.
Definition scanned_of (e : Emulator) : Scanned := (em_scanner e, em_scanned_alternate e, em_switches e).

Definition scan_step (index : nat) (byte : N) (s : Scanned) : Scanned :=
  let '(scanner, alternate, switches) := s in
  let '(observation, scanner) := scan_byte byte scanner in
  let note up := if Bool.eqb up alternate then (scanner, alternate, switches) else (scanner, up, switches ++ [{| sw_at := index + 1; sw_alternate := up |}]) in
  match observation with
  | OEnterAlternate => note true
  | OLeaveAlternate | OFullReset => note false
  | _ => (scanner, alternate, switches)
  end.
Fixpoint scan_all (bytes : list N) (index : nat) (s : Scanned) : Scanned :=
  match bytes with [] => s | byte :: bytes => scan_all bytes (S index) (scan_step index byte s) end.

Lemma scan_all_app a b index s : scan_all (a ++ b) index s = scan_all b (index + length a) (scan_all a index s).
Proof. revert index s. induction a as [|x a IH]; intros index s; cbn [scan_all app length]; [by rewrite Nat.add_0_r|]. rewrite IH. f_equal. lia. Qed.

Lemma note_screen_scanned index up e :
  scanned_of (note_screen index up e) =
  if Bool.eqb up (em_scanned_alternate e) then scanned_of e else (em_scanner e, up, em_switches e ++ [{| sw_at := index + 1; sw_alternate := up |}]).
Proof. unfold note_screen. by destruct (Bool.eqb _ _). Qed.
Lemma note_screen_count index up e : em_scanned (note_screen index up e) = em_scanned e.
Proof. unfold note_screen. by destruct (Bool.eqb _ _). Qed.

Lemma scan_switches_scanned rest index e : scanned_of (scan_switches rest index e) = scan_all rest index (scanned_of e).
Proof.
  revert index e. induction rest as [|b rest IH]; intros index e; [done|]. cbn [scan_switches scan_all]. unfold scan_step, scanned_of at 2.
  destruct (scan_byte b (em_scanner e)) as [o sc]. rewrite IH. f_equal. destruct o; try done; by rewrite note_screen_scanned.
Qed.

Lemma draw_scanned bytes e : scanned_of (draw_bytes bytes e).2 = scanned_of e ∧ em_scanned (draw_bytes bytes e).2 = em_scanned e.
Proof. unfold draw_bytes. by destruct (term_advance bytes _) as [[[p t] ws] panicked]. Qed.
Lemma keep_scanned e : scanned_of (keep_primary e).2 = scanned_of e ∧ em_scanned (keep_primary e).2 = em_scanned e.
Proof. unfold keep_primary. destruct (alternate_screen _); [done|]. by destruct (copy_primary _). Qed.

(** Fed to its end, the chunk is scanned; where the backend panics, so far. *)
Definition scanned_to (rest : list N) (index : nat) (s : Scanned) (r : bool * Emulator) : Prop :=
  ∃ k, k ≤ length rest ∧ (r.1 = false → k = length rest) ∧ em_scanned r.2 = index + k ∧ scanned_of r.2 = scan_all (take k rest) index s.

Lemma scanned_to_step b rest index s r : scanned_to rest (S index) (scan_step index b s) r → scanned_to (b :: rest) index s r.
Proof. intros (k & Hk & Hf & Hc & Hs). exists (S k). cbn [length take scan_all]. split_and!; [lia|intros Hr; by rewrite Hf|lia|done]. Qed.
Lemma scanned_to_here rest index s e : em_scanned e = index → scanned_of e = s → scanned_to rest index s (true, e).
Proof. intros Hc Hs. exists 0. cbn [fst snd]. rewrite take_0. cbn [scan_all]. split_and!; [lia|done|lia|done]. Qed.

(** What an observation makes of the switches noted. *)
Definition noted (index : nat) (o : Observation) (e : Emulator) : Emulator :=
  match o with
  | OEnterAlternate => note_screen index true e
  | OLeaveAlternate | OFullReset => note_screen index false e
  | _ => e
  end.

Lemma noted_scanned index b e :
  let '(o, scanner) := scan_byte b (em_scanner e) in
  let e0 := em_scan scanner (em_scanned_alternate e) (em_switches e) (index + 1) e in
  scan_step index b (scanned_of e) = scanned_of (noted index o e0) ∧ em_scanned (noted index o e0) = S index.
Proof.
  unfold scan_step, scanned_of at 1. destruct (scan_byte b (em_scanner e)) as [o sc]. cbv zeta. split.
  - destruct o; try done; cbn [noted]; by rewrite note_screen_scanned.
  - destruct o; cbn [noted]; rewrite ?note_screen_count; cbn; lia.
Qed.

Lemma process_from_scanned bytes rest index start e :
  em_scanned e = index → scanned_to rest index (scanned_of e) (process_from bytes rest index start e).
Proof.
  revert index start e. induction rest as [|b rest IH]; intros index start e He.
  { cbn [process_from]. destruct (draw_scanned (drop start bytes) e) as [Hs Hc]. destruct (draw_bytes _ e) as [p e1]. cbn [snd] in *.
    exists 0. cbn [length take scan_all]. destruct p; [split_and!; cbn [fst snd]; [lia|done|lia|done]|].
    destruct (alternate_screen _); cbn [fst snd]; (split_and!; [lia|done|cbn; lia|done]). }
  apply scanned_to_step. cbn [process_from]. pose proof (noted_scanned index b e) as Hn. destruct (scan_byte b (em_scanner e)) as [o sc].
  cbv zeta in Hn |- *. set (e0 := em_scan sc (em_scanned_alternate e) (em_switches e) (index + 1) e) in *. destruct Hn as [-> Hcn].
  assert (∀ st e', em_scanned e' = S index → scanned_of e' = scanned_of (noted index o e0) →
    scanned_to rest (S index) (scanned_of (noted index o e0)) (process_from bytes rest (S index) st e')) as Hgo by (intros st e' Hc <-; by apply IH).
  assert (∀ piece k, (∀ e1, em_scanned e1 = S index → scanned_of e1 = scanned_of (noted index o e0) → scanned_to rest (S index) (scanned_of (noted index o e0)) (k e1)) →
    scanned_to rest (S index) (scanned_of (noted index o e0)) (let '(panicked, e1) := draw_bytes piece (noted index o e0) in if (panicked : bool) then (true, e1) else k e1)) as Hdraw.
  { intros piece k Hk. destruct (draw_scanned piece (noted index o e0)) as [Hs2 Hc2]. destruct (draw_bytes piece _) as [[] e2]; cbn [snd] in *.
    - apply scanned_to_here; congruence.
    - apply Hk; congruence. }
  destruct o; cbn [noted] in *; try (by apply Hgo).
  - apply (Hdraw _ (λ e2, let '(panicked, e) := keep_primary e2 in if (panicked : bool) then (true, e) else process_from bytes rest (S index) index e)).
    intros e2 Hc2 Hs2. destruct (keep_scanned e2) as [Hs3 Hc3]. destruct (keep_primary e2) as [[] e3]; cbn [snd] in *; [apply scanned_to_here; congruence|].
    apply Hgo; congruence.
  - destruct (top <? _)%N; by apply Hgo.
  - apply (Hdraw _ (λ e1, process_from bytes rest (S index) (S index) (em_modes _ _ _ e1))). intros e1 Hc1 Hs1. by apply Hgo.
  - apply (Hdraw _ (λ e1, process_from bytes rest (S index) (S index) (em_modes _ _ _ e1))). intros e1 Hc1 Hs1. by apply Hgo.
  - apply (Hdraw _ (λ e1, process_from bytes rest (S index) (S index) (em_modes _ _ _ e1))). intros e1 Hc1 Hs1. by apply Hgo.
  - apply (Hdraw _ (λ e1, process_from bytes rest (S index) (S index) (em_screen _ _ _ _ e1))). intros e1 Hc1 Hs1. by apply Hgo.
Qed.

(** The screen switches a chunk makes, and the state of the scanner after it,
    come from its bytes alone, whether or not the backend panicked on it and
    wherever it did. *)
Lemma process_or_reset_scanned bytes e : scanned_of (process_or_reset bytes e).2 = scan_all bytes 0 (scanned_of e).
Proof.
  unfold process_or_reset, process.
  destruct (process_from_scanned bytes bytes 0 0 (em_scan (em_scanner e) (em_scanned_alternate e) (em_switches e) 0 e) eq_refl) as (k & Hk & Hf & Hc & Hs).
  destruct (process_from bytes bytes 0 0 _) as [panicked e1]. cbn [fst snd] in *. destruct panicked; cbn [snd].
  - set (fresh := em_scan _ _ _ _ _). pose proof (scan_switches_scanned (drop (em_scanned e1) bytes) (em_scanned e1) fresh) as Hr.
    change (scanned_of fresh) with (scanned_of e1) in Hr. rewrite Hs, Hc in Hr. change (0 + k) with k in *. rewrite Hc.
    assert (scanned_of (scan_switches (drop k bytes) k fresh) = scan_all bytes 0 (scanned_of e)) as E.
    { rewrite Hr. rewrite <-(take_drop k bytes) at 3. rewrite scan_all_app. f_equal. rewrite length_take. lia. }
    destruct (em_scanned_alternate (scan_switches (drop k bytes) k fresh)); [|exact E]. destruct (draw_scanned ENTER_ALT_SCREEN (scan_switches (drop k bytes) k fresh)) as [-> _]. exact E.
  - rewrite Hs, (Hf eq_refl), firstn_all. done.
Qed.
(** ** What the log keeps of a chunk *)

(** A chunk read byte by byte: what is drawn on the primary screen is kept, but for
    the sequence that brings the alternate screen up, from its escape on, in whose
    place stands the note; [buffer] is what was drawn since the last switch. *)
Fixpoint keep (bytes : list N) (index : nat) (s : Scanned) (buffer : list N) : list N :=
  match bytes with
  | [] => if s.1.2 then [] else buffer
  | b :: bytes =>
    let s' := scan_step index b s in
    match s.1.2, s'.1.2 with
    | false, false => keep bytes (S index) s' (buffer ++ [b])
    | false, true => take (default 0 (before_escape (buffer ++ [b]))) (buffer ++ [b]) ++ full_screen_note ++ keep bytes (S index) s' []
    | true, _ => keep bytes (S index) s' []
    end
  end.

(** A byte read leaves the screen, or switches it and is noted. *)
Lemma scan_step_cases index b s :
  scan_step index b s = ((scan_step index b s).1.1, s.1.2, s.2) ∨
  scan_step index b s = ((scan_step index b s).1.1, negb s.1.2, s.2 ++ [{| sw_at := index + 1; sw_alternate := negb s.1.2 |}]).
Proof. destruct s as [[sc up] sws]. unfold scan_step. destruct (scan_byte b sc) as [o sc']. destruct o; cbn; auto; destruct up; cbn; auto. Qed.

Definition passed (bytes : list N) (gate : bool) (s : Scanned) : list N * nat * bool := foldl (pass_switch bytes) ([], 0, gate) s.2.
Definition kept_of (bytes : list N) (r : list N * nat * bool) : list N := if r.2 then r.1.1 else r.1.1 ++ drop r.1.2 bytes.

Lemma slice_snoc (bytes : list N) from index b : from ≤ index → bytes !! index = Some b → take (index + 1 - from) (drop from bytes) = take (index - from) (drop from bytes) ++ [b].
Proof. intros Hle Hb. replace (index + 1 - from) with (S (index - from)) by lia. apply take_S_r. rewrite lookup_drop. by replace (from + (index - from)) with index by lia. Qed.

Lemma passed_keeps bytes gate rest index s L from :
  rest = drop index bytes → index ≤ length bytes → from ≤ index → passed bytes gate s = (L, from, s.1.2) →
  let s' := scan_all rest index s in
  (passed bytes gate s').2 = s'.1.2 ∧
  kept_of bytes (passed bytes gate s') = L ++ keep rest index s (if s.1.2 then [] else take (index - from) (drop from bytes)).
Proof.
  revert index s L from. induction rest as [|b rest IH]; intros index s L from Hrest Hin Hle Hp; cbn [scan_all keep].
  { rewrite Hp. split; [done|]. unfold kept_of. cbn [fst snd]. destruct s.1.2; [by rewrite app_nil_r|]. f_equal.
    rewrite take_ge; [done|]. rewrite length_drop. apply (f_equal length) in Hrest. rewrite length_drop in Hrest. cbn in Hrest. lia. }
  assert (bytes !! index = Some b) as Hb by (apply (f_equal (λ l, l !! 0)) in Hrest; by rewrite lookup_drop, Nat.add_0_r in Hrest).
  assert (rest = drop (S index) bytes) as Hrest' by (by rewrite (drop_S _ _ _ Hb) in Hrest; injection Hrest).
  assert (S index ≤ length bytes) as Hin' by (by apply lookup_lt_Some in Hb). set (s1 := scan_step index b s) in *.
  destruct (scan_step_cases index b s) as [E|E]; fold s1 in E; cbv zeta.
  - assert (s1.1.2 = s.1.2 ∧ s1.2 = s.2) as [E1 E2] by (by rewrite E). rewrite E1.
    destruct (IH (S index) s1 L from Hrest' Hin' ltac:(lia) ltac:(unfold passed; by rewrite E2, E1)) as [H1 H2]. cbv zeta in H1, H2. split; [done|].
    rewrite H2, E1. f_equal. destruct (s.1.2); [done|]. f_equal. replace (S index - from) with (index + 1 - from) by lia. by apply slice_snoc.
  - assert (s1.1.2 = negb s.1.2 ∧ s1.2 = s.2 ++ [{| sw_at := index + 1; sw_alternate := negb s.1.2 |}]) as [E1 E2] by (by rewrite E).
    assert (passed bytes gate s1 = pass_switch bytes (L, from, s.1.2) {| sw_at := index + 1; sw_alternate := negb s.1.2 |}) as Hp1
      by (unfold passed in *; by rewrite E2, foldl_app, Hp).
    unfold pass_switch, clamp in Hp1. cbn [sw_at sw_alternate] in Hp1. replace (min (max (index + 1) from) (length bytes)) with (index + 1) in Hp1 by lia.
    rewrite (slice_snoc _ _ _ b) in Hp1 by done. rewrite E1. destruct (s.1.2) eqn:Es; cbn [negb] in *.
    + destruct (IH (S index) s1 L (index + 1) Hrest' Hin' ltac:(lia) ltac:(by rewrite Hp1, E1)) as [H1 H2]. cbv zeta in H1, H2. split; [done|].
      rewrite H2, E1. by replace (S index - (index + 1)) with 0 by lia.
    + set (L1 := L ++ _) in Hp1. destruct (IH (S index) s1 L1 (index + 1) Hrest' Hin' ltac:(lia) ltac:(by rewrite Hp1, E1)) as [H1 H2]. cbv zeta in H1, H2. split; [done|].
      rewrite H2, E1. unfold L1. by rewrite <-!app_assoc.
Qed.

(** C22: what of a chunk of output reaches the log is what reading it byte by byte
    keeps: everything drawn on the primary screen but the sequences that bring
    the alternate screen up, one note in the place of each, and nothing drawn on
    the alternate screen; whatever the backend does with the chunk, a panic
    included; and the gate is left knowing which screen is up, so this holds of
    chunk after chunk. *)
Theorem log_keeps_primary (bytes : list N) (e0 : Emulator) :
  let e := (take_screen_switches e0).2 in
  let '(switches, e') := take_screen_switches (process_or_reset bytes e).2 in
  let '(_, kept, up) := logged bytes switches (em_scanned_alternate e) in
  kept = keep bytes 0 (scanned_of e) [] ∧ up = em_scanned_alternate e'.
Proof.
  cbv zeta. set (e := (take_screen_switches e0).2). pose proof (process_or_reset_scanned bytes e) as Hs.
  destruct (passed_keeps bytes (em_scanned_alternate e) bytes 0 (scanned_of e) [] 0) as [H1 H2]; [by rewrite drop_0|lia|done|done|].
  cbv zeta in H1, H2. rewrite <-Hs in H1, H2. unfold take_screen_switches. cbn [fst snd]. set (e1 := (process_or_reset bytes e).2) in *.
  unfold passed, kept_of in H1, H2. cbn [scanned_of fst snd] in H1, H2. unfold logged. rewrite drop_0, Nat.sub_diag, take_0 in H2.
  assert ((if em_scanned_alternate e then @nil N else []) = []) as E by (by destruct (em_scanned_alternate e)). rewrite E in H2. cbn [em_scan em_scanned_alternate].
  destruct (em_switches e1) as [|sw sws] eqn:Esw.
  - cbn [foldl fst snd] in H1, H2. rewrite drop_0 in H2. destruct (em_scanned_alternate e); by split.
  - destruct (foldl (pass_switch bytes) _ _) as [[L from] up]. cbn [fst snd] in H1, H2. by split.
Qed.
End switches.

(** ** The keyboard *)
(** A screen's levels are flags that are honoured, and few. *)
Definition screen_ok (s : ScreenState) : Prop := Forall (λ f, (f ≤ SUPPORTED_FLAGS)%N) (levels s) ∧ length (ss_stack s) ≤ STACK_LIMIT.
Definition keyboard_ok (k : Keyboard) : Prop := screen_ok (kb_primary k) ∧ screen_ok (kb_alternate k).

Lemma masked_ok first : (N.land first SUPPORTED_FLAGS ≤ SUPPORTED_FLAGS)%N.
Proof. change SUPPORTED_FLAGS with (N.ones 2). rewrite N.land_ones. pose proof (N.mod_lt first (2 ^ 2) ltac:(done)). change (N.ones 2) with 3%N. change (2 ^ 2)%N with 4%N in *. lia. Qed.

Lemma supported_cases f : (f ≤ SUPPORTED_FLAGS)%N → f = 0%N ∨ f = 1%N ∨ f = 2%N ∨ f = 3%N.
Proof. change SUPPORTED_FLAGS with 3%N. lia. Qed.
Lemma lor_ok a b : (a ≤ SUPPORTED_FLAGS)%N → (b ≤ SUPPORTED_FLAGS)%N → (N.lor a b ≤ SUPPORTED_FLAGS)%N.
Proof. intros [-> | [-> | [-> | ->]]]%supported_cases [-> | [-> | [-> | ->]]]%supported_cases; by vm_compute. Qed.
Lemma ldiff_ok a b : (a ≤ SUPPORTED_FLAGS)%N → (b ≤ SUPPORTED_FLAGS)%N → (N.ldiff a b ≤ SUPPORTED_FLAGS)%N.
Proof. intros [-> | [-> | [-> | ->]]]%supported_cases [-> | [-> | [-> | ->]]]%supported_cases; by vm_compute. Qed.

Lemma push_ok flags s : (flags ≤ SUPPORTED_FLAGS)%N → screen_ok s → screen_ok (push_flags flags s).
Proof.
  intros Hf [Hl Hn]. unfold levels in Hl. apply Forall_app in Hl as [Hs Ha]. unfold push_flags, screen_ok, levels. cbn [ss_stack ss_flags].
  destruct (Nat.leb_spec STACK_LIMIT (length (ss_stack s))); (split; [repeat (apply Forall_app; split); eauto using Forall_drop|]); rewrite length_app, ?length_drop; cbn [length]; unfold STACK_LIMIT in *; lia.
Qed.
Lemma set_ok flags s : (flags ≤ SUPPORTED_FLAGS)%N → screen_ok s → screen_ok (set_flags flags s).
Proof. intros Hf [Hl Hn]. unfold levels in Hl. apply Forall_app in Hl as [Hs _]. split; [|done]. apply Forall_app. split; [done|by constructor]. Qed.
Lemma pop_one_ok s : screen_ok s → screen_ok (pop_one s).
Proof.
  intros [Hl Hn]. unfold levels in Hl. apply Forall_app in Hl as [Hs _]. unfold screen_ok, levels. cbn [pop_one ss_stack ss_flags]. rewrite length_take. split; [|lia].
  apply Forall_app. split; [by apply Forall_take|]. constructor; [|done]. destruct (last (ss_stack s)) as [f|] eqn:E; cbn; [|unfold NO_FLAGS; lia].
  rewrite Forall_forall in Hs. apply Hs. by apply last_Some_elem_of in E.
Qed.
Lemma pop_ok count s : screen_ok s → screen_ok (pop_flags count s).
Proof. intros Hs. unfold pop_flags. induction (N.to_nat count); cbn; auto using pop_one_ok. Qed.

Lemma on_active_ok f k : (∀ s, screen_ok s → screen_ok (f s)) → keyboard_ok k → keyboard_ok (on_active f k).
Proof. intros Hf [H1 H2]. unfold on_active. destruct (kb_on_alternate k); split; cbn; auto. Qed.

Lemma kitty_apply_ok introducer params k : keyboard_ok k → keyboard_ok (kitty_apply introducer params k).
Proof.
  intros Hk. unfold kitty_apply. cbv zeta. set (first := default NO_FLAGS _). pose proof (masked_ok first) as Hm.
  destruct (introducer =? PUSH_INTRODUCER)%N; [apply on_active_ok; auto using push_ok|].
  destruct (introducer =? SET_INTRODUCER)%N.
  { apply on_active_ok; [|done]. intros s Hs. apply set_ok; [|done]. assert (ss_flags s ≤ SUPPORTED_FLAGS)%N as Ha.
    { destruct Hs as [Hl _]. unfold levels in Hl. apply Forall_app in Hl as [_ Hl]. by apply Forall_inv in Hl. }
    destruct (_ =? SET_MODE_OR)%N; [by apply lor_ok|]. by destruct (_ =? SET_MODE_AND_NOT)%N; [apply ldiff_ok|]. }
  destruct (introducer =? POP_INTRODUCER)%N; [apply on_active_ok; auto using pop_ok|]. by destruct (introducer =? PRIVATE_MARKER)%N.
Qed.

Lemma screen_default_ok : screen_ok screen_default.
Proof. split; [|cbn; lia]. constructor; [|done]. by vm_compute. Qed.

Lemma keyboard_perform_ok k d : keyboard_ok k → keyboard_ok (keyboard_perform k d).
Proof.
  intros Hk. destruct d as [| | | | | |params inter [] action|inter ignore byte]; try done; cbn [keyboard_perform].
  - destruct inter as [|i []]; [| |done].
    + destruct (_ =? _)%N; [|done]. unfold device_attributes. by destruct (_ && _).
    + destruct (action =? KITTY_FINAL)%N; [by apply kitty_apply_ok|]. unfold screen_mode.
      destruct (_ && _); [by destruct (switches_screen params)|]. destruct (_ && _); [by destruct (switches_screen params)|done].
  - destruct (_ && _); [|done]. split; apply screen_default_ok.
Qed.

Section keyboard.
Context `{VtParser}.
(** The parser reads a keyboard sequence between sequences as one call. *)
Context (idle : vt → Prop) (Hnew : idle vt_new).
Context (Hkitty : ∀ p introducer flags rest,
  idle p → introducer = SET_INTRODUCER ∨ introducer = PUSH_INTRODUCER → (flags ≤ SUPPORTED_FLAGS)%N →
  ∃ p', idle p' ∧
    vt_advance (kitty_sequence introducer flags ++ rest) p =
      (DCsi [[flags]] [introducer] false KITTY_FINAL :: (vt_advance rest p').1, (vt_advance rest p').2)).

Definition observed (chunks : list (list N)) : Tracker := foldl (λ t bytes, (observe bytes t).2) tracker_default chunks.

Lemma observe_ok bytes t : keyboard_ok (tr_keyboard t) → keyboard_ok (tr_keyboard (observe bytes t).2).
Proof.
  intros Hk. unfold observe. destruct (advance bytes (tr_parser t)) as [calls p]. cbn [snd tr_keyboard].
  assert (keyboard_ok (foldl keyboard_perform (tr_keyboard t) calls)) as Hk'; [|exact Hk']. revert Hk. generalize (tr_keyboard t). induction calls as [|d calls IH]; intros k Hk; [done|].
  apply IH. by apply keyboard_perform_ok.
Qed.
Lemma observed_ok chunks : keyboard_ok (tr_keyboard (observed chunks)).
Proof.
  unfold observed. assert (keyboard_ok (tr_keyboard tracker_default)) as Hk by (split; apply screen_default_ok). revert Hk. generalize tracker_default.
  induction chunks as [|c chunks IH]; intros t Hk; [done|]. by apply IH, observe_ok.
Qed.

Lemma kitty_length introducer flags : (flags ≤ SUPPORTED_FLAGS)%N → length (kitty_sequence introducer flags) = 5.
Proof. by intros [-> | [-> | [-> | ->]]]%supported_cases. Qed.

Notation pushes ls := (concat (kitty_sequence PUSH_INTRODUCER <$> ls)).
Lemma pushes_length ls : Forall (λ f, (f ≤ SUPPORTED_FLAGS)%N) ls → length (pushes ls) = 5 * length ls.
Proof. induction 1 as [|f ls Hf _ IH]; [done|]. rewrite fmap_cons. cbn [concat length]. rewrite length_app, IH, kitty_length by done. lia. Qed.

Lemma pushes_dispatched ls p : idle p → Forall (λ f, (f ≤ SUPPORTED_FLAGS)%N) ls →
  ∃ p', (vt_advance (pushes ls) p).1 = ((λ f, DCsi [[f]] [PUSH_INTRODUCER] false KITTY_FINAL) <$> ls) ++ (vt_advance [] p').1.
Proof.
  intros Hp Hls. revert p Hp. induction Hls as [|f ls Hf _ IH]; intros p Hp; [by exists p|]. rewrite !fmap_cons. cbn [concat].
  destruct (Hkitty p PUSH_INTRODUCER f (pushes ls) Hp (or_intror eq_refl) Hf) as (p1 & Hp1 & ->). cbn [fst]. destruct (IH p1 Hp1) as (p' & ->). by exists p'.
Qed.

(** A chunk of one slice that dispatches anything. *)
Lemma advance_whole bytes calls q :
  slice_end bytes = length bytes → vt_advance bytes vt_new = (calls, q) → calls ≠ [] → bytes ≠ [] → ∃ p, advance bytes parser_new = (calls, p).
Proof.
  intros Es Ev Hc Hb. destruct bytes as [|b bytes]; [done|]. unfold advance. cbn [length Nat.mul Nat.add]. cbn [advance_on parser_new bp_dropping].
  rewrite Es, firstn_all, drop_all. unfold feed_slice. cbn [parser_new bp_parser]. rewrite Ev. destruct calls as [|c calls]; [done|]. cbv zeta. change (0 <=? MAX_PENDING_BYTES)%N with true. cbn [bp_dropping parser_new].
  set (f := _ + _). exists {| bp_parser := q; bp_pending := 0; bp_dropping := false |}. by destruct f; cbn [advance_on]; rewrite app_nil_r.
Qed.

(** One push after another rebuilds the stack, from its oldest level. *)
Lemma pushes_perform ls k stack top :
  kb_on_alternate k = false → kb_primary k = {| ss_stack := stack; ss_flags := top |} → Forall (λ f, (f ≤ SUPPORTED_FLAGS)%N) ls →
  length stack + length ls ≤ STACK_LIMIT →
  let k' := foldl keyboard_perform k ((λ f, DCsi [[f]] [PUSH_INTRODUCER] false KITTY_FINAL) <$> ls) in
  kb_on_alternate k' = false ∧ levels (kb_primary k') = stack ++ [top] ++ ls ∧ length (ss_stack (kb_primary k')) = length stack + length ls ∧ kb_reply k' = kb_reply k.
Proof.
  intros Ha Hp Hls. revert k stack top Ha Hp. induction Hls as [|f ls Hf _ IH]; intros k stack top Ha Hp Hn.
  { cbv zeta. cbn. rewrite Hp. unfold levels. cbn. split_and!; [done..|lia|done]. }
  rewrite fmap_cons. cbn [foldl length] in *. set (k1 := keyboard_perform k _).
  assert (k1 = on_active (push_flags f) k) as E1.
  { change k1 with (on_active (push_flags (N.land f SUPPORTED_FLAGS)) k). assert (N.land f SUPPORTED_FLAGS = f) as ->; [|done]. by apply supported_cases in Hf as [-> | [-> | [-> | ->]]]. }
  unfold on_active in E1. rewrite Ha, Hp in E1. unfold push_flags in E1. cbn [ss_stack ss_flags] in E1.
  destruct (Nat.leb_spec STACK_LIMIT (length stack)); [lia|].
  destruct (IH k1 (stack ++ [top]) f) as (H1 & H2 & H3 & H4); [by rewrite E1|by rewrite E1|rewrite length_app; cbn; lia|].
  cbv zeta in *. split_and!; [done|by rewrite H2, <-!app_assoc|rewrite H3, length_app; cbn; lia|by rewrite H4, E1].
Qed.

(** C26: the keyboard protocol a child negotiated survives a repaint: whatever it
    wrote, its screens hold flags that are honoured and no more than the limit of
    levels, and the restore sequence fed to a fresh receiver leaves there the
    active screen's flags and saved levels, and nothing to reply, given that the
    parser reads each sequence as one call. *)
Theorem keyboard_restored (chunks : list (list N)) :
  (∀ p, (vt_advance [] p).1 = []) →
  let t := observed chunks in
  let '(reply, fresh) := observe (restore_sequence t) tracker_default in
  keyboard_ok (tr_keyboard t) ∧ active (tr_keyboard fresh) = active (tr_keyboard t) ∧ reply = [].
Proof.
  intros Hnil t. pose proof (observed_ok chunks) as Hok. fold t in Hok. set (s := active (tr_keyboard t)).
  assert (screen_ok s) as [Hl Hn] by (destruct Hok; unfold s, active; by destruct (kb_on_alternate _)).
  unfold restore_sequence. fold s. destruct (levels s) as [|oldest newer] eqn:El; [unfold levels in El; by apply app_nil in El as [_ ?]|].
  apply Forall_cons in Hl as [Ho Hns]. assert (length newer = length (ss_stack s)) as Elen by (apply (f_equal length) in El; unfold levels in El; rewrite length_app in El; cbn in El; lia).
  set (bytes := kitty_sequence SET_INTRODUCER oldest ++ pushes newer).
  assert (length bytes = 5 + 5 * length newer) as Eb by (unfold bytes; by rewrite length_app, kitty_length, pushes_length).
  assert (slice_end bytes = length bytes) as Es.
  { unfold slice_end, char_end. cbv zeta. replace (min (length bytes) SLICE) with (length bytes) by (unfold SLICE, STACK_LIMIT in *; lia). rewrite drop_all. cbn. lia. }
  destruct (Hkitty vt_new SET_INTRODUCER oldest (pushes newer) Hnew (or_introl eq_refl) Ho) as (p1 & Hp1 & Ev). fold bytes in Ev.
  destruct (pushes_dispatched newer p1 Hp1 Hns) as (p2 & Ec). rewrite Hnil, app_nil_r in Ec. rewrite Ec in Ev.
  destruct (advance_whole bytes _ _ Es Ev ltac:(done) ltac:(intros E; rewrite E in Eb; cbn in Eb; lia)) as [p Eadv].
  unfold observe. cbn [tr_parser tracker_default]. rewrite Eadv. cbn [foldl tr_keyboard tracker_default]. split; [done|].
  set (k1 := keyboard_perform keyboard_default (DCsi [[oldest]] [SET_INTRODUCER] false KITTY_FINAL)).
  assert (k1 = on_active (set_flags oldest) keyboard_default) as E1 by (by apply supported_cases in Ho as [-> | [-> | [-> | ->]]]).
  destruct (pushes_perform newer k1 [] oldest) as (H1 & H2 & H3 & H4); [by rewrite E1|by rewrite E1|done|cbn; lia|]. cbv zeta in *.
  set (k' := foldl keyboard_perform k1 _) in *. split; [|by rewrite H4, E1]. unfold active at 1. cbn [kb_on_alternate kb_primary]. rewrite H1.
  cbn [app] in H2. rewrite <-El in H2. unfold levels in H2. apply app_inj_tail in H2 as [Ha Hb]. destruct (kb_primary k') as [a b], s as [a' b']. cbn in *. congruence.
Qed.
End keyboard.

(** ** Witnesses *)
Module TermWitness.
(** A parser of control sequences without parameters lists: it keeps the bytes of
    the sequence in progress. *)
Definition small_step (p : list N) (b : N) : list Dispatch * list N :=
  match p with
  | [] => if (b =? ESC)%N then ([], [b]) else ([DPrint b], [])
  | [_] => if (b =? 91)%N then ([], p ++ [b]) else ([DEsc [] false b], [])
  | _ =>
    if (64 <=? b)%N then ([DCsi [[default 0%N (parse_uint u16_max (filter (λ c, is_ascii_digit c = true) p))]]
                                (filter (λ c, (60 <= c)%N ∧ (c < 64)%N) (drop 2 p)) false b], [])
    else ([], p ++ [b])
  end.
Fixpoint small_parse (bytes : list N) (p : list N) : list Dispatch * list N :=
  match bytes with
  | [] => ([], p)
  | b :: bytes => let '(calls, p) := small_step p b in let '(more, p) := small_parse bytes p in (calls ++ more, p)
  end.
#[local] Instance small_vt : VtParser := {| vt := list N; vt_new := []; vt_advance := small_parse |}.

Lemma small_kitty p introducer flags rest :
  p = [] → introducer = SET_INTRODUCER ∨ introducer = PUSH_INTRODUCER → (flags ≤ SUPPORTED_FLAGS)%N →
  ∃ p', p' = [] ∧
    small_parse (kitty_sequence introducer flags ++ rest) p =
      (DCsi [[flags]] [introducer] false KITTY_FINAL :: (small_parse rest p').1, (small_parse rest p').2).
Proof.
  intros -> [-> | ->] [-> | [-> | [-> | ->]]]%supported_cases; exists []; (split; [done|]).
  all: lazy -[small_parse]; cbn [small_parse]; lazy -[small_parse]; by destruct (small_parse rest []).
Qed.

Definition pushed_twice : list (list N) := [kitty_sequence PUSH_INTRODUCER 1; kitty_sequence PUSH_INTRODUCER 7].
Lemma keyboard_restored_witness :
  levels (active (tr_keyboard (observed pushed_twice))) = [0; 1; 3]%N ∧
  active (tr_keyboard (observe (restore_sequence (observed pushed_twice)) tracker_default).2) = active (tr_keyboard (observed pushed_twice)).
Proof.
  split; [by vm_compute|].
  pose proof (keyboard_restored (λ p, p = []) eq_refl small_kitty pushed_twice (λ _, eq_refl)) as H. cbv zeta in H.
  destruct (observe (restore_sequence (observed pushed_twice)) tracker_default) as [reply fresh]. exact (proj1 (proj2 H)).
Defined.
End TermWitness.
