(* ===== verification/Pen.v ===== *)
(** * The pen a log line is drawn in

    Models muster-terminal/src: pen.rs, pen_color.rs and param_separator.rs, the
    colours and attributes SGR sequences leave, kept as the state they leave, and
    the parameters written back out. A parameter is the group of its value and
    its sub-parameters. *)
From S2P Require Import Prelude RustText Values Tap LogFile LogSpan Terminal.

Definition PALETTE_MODE : N := 5.
Definition RGB_MODE : N := 2.
Definition PARAM_SEPARATOR : rchar := 59.

Inductive PenColor := PNamed (code : N) | PIndexed (index : N) | PRgb (red green blue : N).
#[export] Instance PenColor_eq_dec : EqDecision PenColor.
Proof. solve_decision. Defined.

(** The SGR parameters that pick a colour, an extended one under [extended]. *)
Definition color_text (extended : N) (c : PenColor) : rstr :=
  let sep := [PARAM_SEPARATOR] in
  match c with
  | PNamed code => print_dec code
  | PIndexed index => print_dec extended ++ sep ++ print_dec PALETTE_MODE ++ sep ++ print_dec index
  | PRgb red green blue =>
    print_dec extended ++ sep ++ print_dec RGB_MODE ++ sep ++ print_dec red ++ sep ++ print_dec green ++ sep ++ print_dec blue
  end.

(** [u8::try_from]. *)
Definition byte_of (value : N) : option N := if (value <=? 255)%N then Some value else None.
Definition extended (mode : N) (arguments : list N) : option PenColor :=
  match arguments with
  | red :: green :: blue :: _ =>
    if (mode =? PALETTE_MODE)%N then PIndexed <$> byte_of red
    else if (mode =? RGB_MODE)%N then r ← byte_of red; g ← byte_of green; b ← byte_of blue; Some (PRgb r g b)
    else None
  | index :: _ => if (mode =? PALETTE_MODE)%N then PIndexed <$> byte_of index else None
  | [] => None
  end.

Definition RESET : N := 0.
Definition UNDERLINE : N := 4.
Definition DOUBLE_UNDERLINE : N := 21.
Definition NO_UNDERLINE : N := 24.
Definition SINGLE_UNDERLINE_STYLE : N := 1.
Definition DOUBLE_UNDERLINE_STYLE : N := 2.
Definition MAX_UNDERLINE_STYLE : N := 5.
Definition SUBPARAM_SEPARATOR : rchar := 58.
Definition ATTRIBUTES : list N := [1; 2; 3; 5; 6; 7; 8; 9; 53]%N.
Definition AFTER_UNDERLINE : N := 5.
Definition ATTRIBUTE_RESETS : list (N * list N) :=
  [(22, [1; 2]); (23, [3]); (25, [5; 6]); (27, [7]); (28, [8]); (29, [9]); (55, [53])]%N.
Definition FOREGROUND : N := 38.
Definition DEFAULT_FOREGROUND : N := 39.
Definition BACKGROUND : N := 48.
Definition DEFAULT_BACKGROUND : N := 49.
Definition UNDERLINE_COLOR : N := 58.
Definition DEFAULT_UNDERLINE_COLOR : N := 59.
Definition NAMED_FOREGROUNDS : list (N * N) := [(30, 37); (90, 97)]%N.
Definition NAMED_BACKGROUNDS : list (N * N) := [(40, 47); (100, 107)]%N.
Definition RGB_ARGS : nat := 3.

(** [pn_attributes] has one bit per entry of [ATTRIBUTES]. *)
Record Pen := {
  pn_attributes : N;
  pn_underline : N;
  pn_foreground : option PenColor;
  pn_background : option PenColor;
  pn_underline_color : option PenColor;
}.
#[export] Instance Pen_eq_dec : EqDecision Pen.
Proof. solve_decision. Defined.

Definition pen_default : Pen := {| pn_attributes := 0; pn_underline := 0; pn_foreground := None; pn_background := None; pn_underline_color := None |}.
Definition is_plain (p : Pen) : bool := bool_decide (p = pen_default).

Definition pen_attributes (f : N → N) (p : Pen) : Pen :=
  {| pn_attributes := f (pn_attributes p); pn_underline := pn_underline p; pn_foreground := pn_foreground p;
     pn_background := pn_background p; pn_underline_color := pn_underline_color p |}.
Definition pen_underline (style : N) (p : Pen) : Pen :=
  {| pn_attributes := pn_attributes p; pn_underline := style; pn_foreground := pn_foreground p;
     pn_background := pn_background p; pn_underline_color := pn_underline_color p |}.

(** The colour an SGR code sets. *)
Definition slot (code : N) (color : option PenColor) (p : Pen) : Pen :=
  if (code =? FOREGROUND)%N
  then {| pn_attributes := pn_attributes p; pn_underline := pn_underline p; pn_foreground := color;
          pn_background := pn_background p; pn_underline_color := pn_underline_color p |}
  else if (code =? BACKGROUND)%N
  then {| pn_attributes := pn_attributes p; pn_underline := pn_underline p; pn_foreground := pn_foreground p;
          pn_background := color; pn_underline_color := pn_underline_color p |}
  else {| pn_attributes := pn_attributes p; pn_underline := pn_underline p; pn_foreground := pn_foreground p;
          pn_background := pn_background p; pn_underline_color := color |}.

Definition in_ranges (ranges : list (N * N)) (code : N) : bool := existsb (λ r, (r.1 <=? code)%N && (code <=? r.2)%N) ranges.

(** Where [code] stands in the attributes. *)
Fixpoint position_of (code : N) (codes : list N) : option N :=
  match codes with
  | [] => None
  | c :: codes => if (c =? code)%N then Some 0%N else N.succ <$> position_of code codes
  end.

Definition attribute_off (off : list N) (attributes : N) : N :=
  foldl (λ a it, if existsb (N.eqb it.2) off then N.clearbit a (N.of_nat it.1) else a) attributes (imap pair ATTRIBUTES).

Definition apply_simple (code : N) (p : Pen) : Pen :=
  let named := PNamed <$> byte_of code in
  if in_ranges NAMED_FOREGROUNDS code then slot FOREGROUND named p
  else if in_ranges NAMED_BACKGROUNDS code then slot BACKGROUND named p
  else match position_of code ATTRIBUTES with
  | Some bit => pen_attributes (λ a, N.setbit a bit) p
  | None =>
    match find (λ it, (it.1 =? code)%N) ATTRIBUTE_RESETS with
    | Some (_, off) => pen_attributes (attribute_off off) p
    | None => p
    end
  end.

(** The arguments a colour takes from the parameters after it, and how many
    parameters were read. *)
Fixpoint arguments (wanted : nat) (groups : list (list N)) : option (list N) * nat :=
  match wanted, groups with
  | O, _ => (Some [], 0)
  | S _, [] => (None, 0)
  | S wanted, group :: groups =>
    match group with
    | [] => (None, 1)
    | a :: _ => let '(args, n) := arguments wanted groups in (cons a <$> args, S n)
    end
  end.
Definition extended_from (groups : list (list N)) : option PenColor * nat :=
  match groups with
  | [] => (None, 0)
  | [] :: _ => (None, 1)
  | (mode :: _) :: groups =>
    let '(args, n) := arguments (if (mode =? RGB_MODE)%N then RGB_ARGS else 1) groups in
    (args ≫= extended mode, S n)
  end.
Definition extended_inline (subparams : list N) : option PenColor :=
  match subparams with
  | [] => None
  | mode :: args =>
    extended mode (if (mode =? RGB_MODE)%N && (RGB_ARGS <? length args) then drop (length args - RGB_ARGS) args else args)
  end.

(** [Pen::apply]; [skip] is how many of the parameters ahead a colour took. *)
Fixpoint apply_groups (skip : nat) (groups : list (list N)) (p : Pen) : Pen :=
  match groups with
  | [] => p
  | group :: rest =>
    match skip, group with
    | S skip, _ => apply_groups skip rest p
    | O, [] => apply_groups 0 rest p
    | O, code :: subparams =>
      if (code =? RESET)%N then apply_groups 0 rest pen_default
      else if (code =? UNDERLINE)%N
      then apply_groups 0 rest (pen_underline (match subparams with [] => SINGLE_UNDERLINE_STYLE | style :: _ => N.min style MAX_UNDERLINE_STYLE end) p)
      else if (code =? DOUBLE_UNDERLINE)%N then apply_groups 0 rest (pen_underline DOUBLE_UNDERLINE_STYLE p)
      else if (code =? NO_UNDERLINE)%N then apply_groups 0 rest (pen_underline 0 p)
      else if (code =? FOREGROUND)%N || (code =? BACKGROUND)%N || (code =? UNDERLINE_COLOR)%N then
        let '(color, taken) := match subparams with [] => extended_from rest | _ => (extended_inline subparams, 0) end in
        apply_groups taken rest (match color with Some c => slot code (Some c) p | None => p end)
      else if (code =? DEFAULT_FOREGROUND)%N then apply_groups 0 rest (slot FOREGROUND None p)
      else if (code =? DEFAULT_BACKGROUND)%N then apply_groups 0 rest (slot BACKGROUND None p)
      else if (code =? DEFAULT_UNDERLINE_COLOR)%N then apply_groups 0 rest (slot UNDERLINE_COLOR None p)
      else apply_groups 0 rest (apply_simple code p)
    end
  end.
Definition pen_apply (params : list (list N)) (p : Pen) : Pen := match params with [] => pen_default | _ => apply_groups 0 params p end.

(** ** Written back out *)
(** Each parameter the pen writes, in order; [Separator] puts one between each. *)
Definition underline_text (style : N) : rstr :=
  if (style =? SINGLE_UNDERLINE_STYLE)%N then print_dec UNDERLINE else print_dec UNDERLINE ++ [SUBPARAM_SEPARATOR] ++ print_dec style.
Definition attribute_texts (p : Pen) (it : nat * N) : list rstr :=
  (if (it.2 =? AFTER_UNDERLINE)%N && negb (pn_underline p =? 0)%N then [underline_text (pn_underline p)] else []) ++
  (if N.testbit (pn_attributes p) (N.of_nat it.1) then [print_dec it.2] else []).
Definition color_texts (p : Pen) : list rstr :=
  omap (λ it : N * option PenColor, color_text it.1 <$> it.2)
    [(FOREGROUND, pn_foreground p); (BACKGROUND, pn_background p); (UNDERLINE_COLOR, pn_underline_color p)].
Definition pen_params (p : Pen) : rstr :=
  let texts := concat (attribute_texts p <$> imap pair ATTRIBUTES) ++ color_texts p in
  concat (imap (λ i text, (if i =? 0 then [] else [PARAM_SEPARATOR]) ++ text) texts).
