(* ===== verification/Drawing.v ===== *)
(** * What a process's output leaves on each line

    Models muster-terminal/src: line_cell.rs, erasure.rs, saved_cursor.rs,
    log_line.rs, coloring.rs, line_drawing.rs and log_renderer.rs, the rendering
    behind every log reader, readiness and wait.

    Indexing out of range panics, and so does a clamp whose bounds cross or a
    stamp past [u32]: [Drawn] is what a step leaves or the drawing as it stood
    when the step panicked, and [contained] is what the renderer makes of either.
    [char_width] is the columns a character takes, from a crate of Unicode
    tables, as [is_format] is. A column is a [nat]. *)
From S2P Require Import Prelude RustText Values Tap LogFile LogSpan Terminal Screen Pen.

(** ** A line as it is read *)
Definition BLANK : rchar := 32.

Record LineCell := { lc_character : rchar; lc_pen : Pen; lc_width : nat; lc_stamp : N }.
#[export] Instance LineCell_eq_dec : EqDecision LineCell.
Proof. solve_decision. Defined.
Definition blank (stamp : N) : LineCell := {| lc_character := BLANK; lc_pen := pen_default; lc_width := 1; lc_stamp := stamp |}.
Definition continuation (pen : Pen) (stamp : N) : LineCell := {| lc_character := BLANK; lc_pen := pen; lc_width := 0; lc_stamp := stamp |}.
Definition restamped (stamp : N) (c : LineCell) : LineCell :=
  {| lc_character := lc_character c; lc_pen := lc_pen c; lc_width := lc_width c; lc_stamp := stamp |}.
Definition continues (c : LineCell) : bool := lc_width c =? 0.

Record LogLine := { ll_cells : list LineCell; ll_marks : gmap nat rstr; ll_continues : bool }.

(** Whether the cell at [index] shows anything. *)
Definition shows (marks : gmap nat rstr) (index : nat) (c : LineCell) : bool :=
  negb (continues c) && (negb (is_whitespace (lc_character c)) || match marks !! index with Some _ => true | None => false end).
(** [rposition] over the cells from [index] on: the last that shows, with its width. *)
Fixpoint last_shown (marks : gmap nat rstr) (index : nat) (cells : list LineCell) : option (nat * nat) :=
  match cells with
  | [] => None
  | c :: cells =>
    match last_shown marks (S index) cells with
    | Some it => Some it
    | None => if shows marks index c then Some (index, lc_width c) else None
    end
  end.
Definition shown_end (l : LogLine) : nat :=
  match last_shown (ll_marks l) 0 (ll_cells l) with Some (last, width) => min (last + width) (length (ll_cells l)) | None => 0 end.
Definition is_blank (l : LogLine) : bool := shown_end l =? 0.

Definition glyphs (l : LogLine) : list (nat * LineCell) :=
  filter (λ it, continues it.2 = false) (imap pair (take (shown_end l) (ll_cells l))).
Definition push_glyph (l : LogLine) (it : nat * LineCell) : rstr := lc_character it.2 :: default [] (ll_marks l !! it.1).
Definition plain (l : LogLine) : rstr := concat (push_glyph l <$> glyphs l).

(** The text so far and the pen in effect. *)
Definition color_glyph (l : LogLine) (state : rstr * Pen) (it : nat * LineCell) : rstr * Pen :=
  let '(text, current) := state in
  let pen := lc_pen it.2 in
  let change :=
    if bool_decide (pen = current) then []
    else (if is_plain current then [] else SGR_RESET) ++ (if is_plain pen then [] else CSI ++ pen_params pen ++ [SGR_FINAL]) in
  (text ++ change ++ push_glyph l it, pen).
Definition colored (l : LogLine) : rstr :=
  let '(text, current) := foldl (color_glyph l) ([], pen_default) (glyphs l) in
  text ++ (if is_plain current then [] else SGR_RESET).

Inductive Coloring := Plain_ | Colored.
Definition line_text (c : Coloring) (l : LogLine) : rstr := match c with Plain_ => plain l | Colored => colored l end.

(** The columns of a line from [from] up to [stop]. *)
Definition slice (l : LogLine) (from stop : nat) : LogLine :=
  let stop := min stop (length (ll_cells l)) in
  let from := min from stop in
  {| ll_cells := take (stop - from) (drop from (ll_cells l));
     ll_marks := list_to_map ((λ it, (it.1 - from, it.2)) <$> filter (λ it : nat * rstr, from <= it.1 ∧ it.1 < stop) (map_to_list (ll_marks l)));
     ll_continues := 0 <? from |}.

(** ** The line being drawn *)
Definition CARRIAGE_RETURN : N := 13.
Definition BACKSPACE : N := 8.
Definition TAB : N := 9.
Definition TAB_STOP : nat := 8.
Definition ERASE_IN_LINE : rchar := 75.
Definition ERASE_IN_DISPLAY : rchar := 74.
Definition ERASE_TO_END : N := 0.
Definition ERASE_TO_CURSOR : N := 1.
Definition ERASE_LINE : N := 2.
Definition CURSOR_TO_COLUMN : rchar := 71.
Definition COLUMN_ABSOLUTE : rchar := 96.
Definition CURSOR_FORWARD : rchar := 67.
Definition CURSOR_BACK : rchar := 68.
Definition CURSOR_UP : rchar := 65.
Definition CURSOR_DOWN : rchar := 66.
Definition CURSOR_NEXT_LINE : rchar := 69.
Definition CURSOR_PREVIOUS_LINE : rchar := 70.
Definition CURSOR_POSITION : rchar := 72.
Definition POSITION_ABSOLUTE : rchar := 102.
Definition LINE_ABSOLUTE : rchar := 100.
Definition SAVE_CURSOR : rchar := 115.
Definition RESTORE_CURSOR : rchar := 117.
Definition SAVE_CURSOR_ESCAPE : N := 55.
Definition RESTORE_CURSOR_ESCAPE : N := 56.
Definition PEN_STACK_INTERMEDIATE : N := 35.
Definition PUSH_PEN_FINAL : rchar := 123.
Definition POP_PEN_FINAL : rchar := 125.
Definition FIRST : nat := 1.
Definition MAX_COLUMN : nat := N.to_nat 1024.
Definition MAX_LINE_CELLS : nat := N.to_nat (64 * 1024).
Definition MAX_RISE : nat := 256.
Definition MAX_MARK_BYTES : N := 32.
Definition MAX_GLYPH_WIDTH : nat := TAB_STOP.
Definition MAX_PUSHED_PENS : nat := 10.

Record Erasure := { er_stamp : N; er_extent : nat }.
Record SavedCursor := { sv_column : nat; sv_pen : Pen; sv_risen : nat }.

Record LineDrawing := {
  ld_cells : list LineCell;
  ld_marks : gmap nat rstr;
  ld_cursor : nat;
  ld_pen : Pen;
  ld_stamp : N;
  ld_erasures : list Erasure;
  ld_saved : option SavedCursor;
  ld_pushed : list Pen;
  ld_detached : bool;
  ld_steered : bool;
  ld_rewritten : bool;
  ld_risen : nat;
  ld_shown : nat;
  ld_shown_changed : bool;
  ld_finished : list LogLine;
}.
Definition drawing_default : LineDrawing :=
  {| ld_cells := []; ld_marks := ∅; ld_cursor := 0; ld_pen := pen_default; ld_stamp := 0; ld_erasures := []; ld_saved := None;
     ld_pushed := []; ld_detached := false; ld_steered := false; ld_rewritten := false; ld_risen := 0; ld_shown := 0;
     ld_shown_changed := false; ld_finished := [] |}.

(** A drawing with one thing changed. *)
Definition put_cells (cells : list LineCell) (d : LineDrawing) : LineDrawing :=
  {| ld_cells := cells; ld_marks := ld_marks d; ld_cursor := ld_cursor d; ld_pen := ld_pen d; ld_stamp := ld_stamp d;
     ld_erasures := ld_erasures d; ld_saved := ld_saved d; ld_pushed := ld_pushed d; ld_detached := ld_detached d;
     ld_steered := ld_steered d; ld_rewritten := ld_rewritten d; ld_risen := ld_risen d; ld_shown := ld_shown d;
     ld_shown_changed := ld_shown_changed d; ld_finished := ld_finished d |}.
Definition put_marks (marks : gmap nat rstr) (d : LineDrawing) : LineDrawing :=
  {| ld_cells := ld_cells d; ld_marks := marks; ld_cursor := ld_cursor d; ld_pen := ld_pen d; ld_stamp := ld_stamp d;
     ld_erasures := ld_erasures d; ld_saved := ld_saved d; ld_pushed := ld_pushed d; ld_detached := ld_detached d;
     ld_steered := ld_steered d; ld_rewritten := ld_rewritten d; ld_risen := ld_risen d; ld_shown := ld_shown d;
     ld_shown_changed := ld_shown_changed d; ld_finished := ld_finished d |}.
Definition put_cursor (cursor : nat) (d : LineDrawing) : LineDrawing :=
  {| ld_cells := ld_cells d; ld_marks := ld_marks d; ld_cursor := cursor; ld_pen := ld_pen d; ld_stamp := ld_stamp d;
     ld_erasures := ld_erasures d; ld_saved := ld_saved d; ld_pushed := ld_pushed d; ld_detached := ld_detached d;
     ld_steered := ld_steered d; ld_rewritten := ld_rewritten d; ld_risen := ld_risen d; ld_shown := ld_shown d;
     ld_shown_changed := ld_shown_changed d; ld_finished := ld_finished d |}.
Definition put_pen (pen : Pen) (d : LineDrawing) : LineDrawing :=
  {| ld_cells := ld_cells d; ld_marks := ld_marks d; ld_cursor := ld_cursor d; ld_pen := pen; ld_stamp := ld_stamp d;
     ld_erasures := ld_erasures d; ld_saved := ld_saved d; ld_pushed := ld_pushed d; ld_detached := ld_detached d;
     ld_steered := ld_steered d; ld_rewritten := ld_rewritten d; ld_risen := ld_risen d; ld_shown := ld_shown d;
     ld_shown_changed := ld_shown_changed d; ld_finished := ld_finished d |}.
Definition put_erasures (stamp : N) (erasures : list Erasure) (d : LineDrawing) : LineDrawing :=
  {| ld_cells := ld_cells d; ld_marks := ld_marks d; ld_cursor := ld_cursor d; ld_pen := ld_pen d; ld_stamp := stamp;
     ld_erasures := erasures; ld_saved := ld_saved d; ld_pushed := ld_pushed d; ld_detached := ld_detached d; ld_steered := ld_steered d;
     ld_rewritten := ld_rewritten d; ld_risen := ld_risen d; ld_shown := ld_shown d; ld_shown_changed := ld_shown_changed d;
     ld_finished := ld_finished d |}.
Definition put_saved (saved : option SavedCursor) (detached : bool) (d : LineDrawing) : LineDrawing :=
  {| ld_cells := ld_cells d; ld_marks := ld_marks d; ld_cursor := ld_cursor d; ld_pen := ld_pen d; ld_stamp := ld_stamp d;
     ld_erasures := ld_erasures d; ld_saved := saved; ld_pushed := ld_pushed d; ld_detached := detached; ld_steered := ld_steered d;
     ld_rewritten := ld_rewritten d; ld_risen := ld_risen d; ld_shown := ld_shown d; ld_shown_changed := ld_shown_changed d;
     ld_finished := ld_finished d |}.
Definition put_pushed (pushed : list Pen) (d : LineDrawing) : LineDrawing :=
  {| ld_cells := ld_cells d; ld_marks := ld_marks d; ld_cursor := ld_cursor d; ld_pen := ld_pen d; ld_stamp := ld_stamp d;
     ld_erasures := ld_erasures d; ld_saved := ld_saved d; ld_pushed := pushed; ld_detached := ld_detached d; ld_steered := ld_steered d;
     ld_rewritten := ld_rewritten d; ld_risen := ld_risen d; ld_shown := ld_shown d; ld_shown_changed := ld_shown_changed d;
     ld_finished := ld_finished d |}.
Definition put_steered (steered : bool) (d : LineDrawing) : LineDrawing :=
  {| ld_cells := ld_cells d; ld_marks := ld_marks d; ld_cursor := ld_cursor d; ld_pen := ld_pen d; ld_stamp := ld_stamp d;
     ld_erasures := ld_erasures d; ld_saved := ld_saved d; ld_pushed := ld_pushed d; ld_detached := ld_detached d; ld_steered := steered;
     ld_rewritten := ld_rewritten d; ld_risen := ld_risen d; ld_shown := ld_shown d; ld_shown_changed := ld_shown_changed d;
     ld_finished := ld_finished d |}.
Definition put_rewritten (rewritten : bool) (d : LineDrawing) : LineDrawing :=
  {| ld_cells := ld_cells d; ld_marks := ld_marks d; ld_cursor := ld_cursor d; ld_pen := ld_pen d; ld_stamp := ld_stamp d;
     ld_erasures := ld_erasures d; ld_saved := ld_saved d; ld_pushed := ld_pushed d; ld_detached := ld_detached d;
     ld_steered := ld_steered d; ld_rewritten := rewritten; ld_risen := ld_risen d; ld_shown := ld_shown d;
     ld_shown_changed := ld_shown_changed d; ld_finished := ld_finished d |}.
Definition put_risen (risen : nat) (d : LineDrawing) : LineDrawing :=
  {| ld_cells := ld_cells d; ld_marks := ld_marks d; ld_cursor := ld_cursor d; ld_pen := ld_pen d; ld_stamp := ld_stamp d;
     ld_erasures := ld_erasures d; ld_saved := ld_saved d; ld_pushed := ld_pushed d; ld_detached := ld_detached d;
     ld_steered := ld_steered d; ld_rewritten := ld_rewritten d; ld_risen := risen; ld_shown := ld_shown d;
     ld_shown_changed := ld_shown_changed d; ld_finished := ld_finished d |}.
Definition put_shown (shown : nat) (changed : bool) (d : LineDrawing) : LineDrawing :=
  {| ld_cells := ld_cells d; ld_marks := ld_marks d; ld_cursor := ld_cursor d; ld_pen := ld_pen d; ld_stamp := ld_stamp d;
     ld_erasures := ld_erasures d; ld_saved := ld_saved d; ld_pushed := ld_pushed d; ld_detached := ld_detached d;
     ld_steered := ld_steered d; ld_rewritten := ld_rewritten d; ld_risen := ld_risen d; ld_shown := shown; ld_shown_changed := changed;
     ld_finished := ld_finished d |}.
Definition put_finished (finished : list LogLine) (d : LineDrawing) : LineDrawing :=
  {| ld_cells := ld_cells d; ld_marks := ld_marks d; ld_cursor := ld_cursor d; ld_pen := ld_pen d; ld_stamp := ld_stamp d;
     ld_erasures := ld_erasures d; ld_saved := ld_saved d; ld_pushed := ld_pushed d; ld_detached := ld_detached d;
     ld_steered := ld_steered d; ld_rewritten := ld_rewritten d; ld_risen := ld_risen d; ld_shown := ld_shown d;
     ld_shown_changed := ld_shown_changed d; ld_finished := finished |}.

(** What a step leaves, or the drawing when it panicked. *)
Inductive Drawn (A : Type) := Done (a : A) | Panicked (d : LineDrawing).
Arguments Done {A}.
Arguments Panicked {A}.
Definition drawn_bind {A B} (m : Drawn A) (f : A → Drawn B) : Drawn B := match m with Done a => f a | Panicked d => Panicked d end.
Notation "'let!' x := m 'in' k" := (drawn_bind m (λ x, k)) (at level 200, x name, m at level 100, k at level 200).

(** Steps in turn. *)
Fixpoint each {A} (f : A → LineDrawing → Drawn LineDrawing) (items : list A) (d : LineDrawing) : Drawn LineDrawing :=
  match items with [] => Done d | a :: items => let! d := f a d in each f items d end.

(** [self.cells[index]], read and written. *)
Definition cell_at (index : nat) (d : LineDrawing) : Drawn LineCell :=
  match ld_cells d !! index with Some c => Done c | None => Panicked d end.
Definition set_cell (index : nat) (c : LineCell) (d : LineDrawing) : Drawn LineDrawing :=
  if index <? length (ld_cells d) then Done (put_cells (<[index := c]> (ld_cells d)) d) else Panicked d.

Definition on_line (d : LineDrawing) : bool := negb (ld_detached d).

Definition touch (column : nat) (d : LineDrawing) : LineDrawing :=
  if column <? ld_shown d then put_shown (ld_shown d) true d else d.

Definition pad_to (stop : nat) (d : LineDrawing) : LineDrawing :=
  put_cells (ld_cells d ++ replicate (stop - length (ld_cells d)) (blank (ld_stamp d))) d.

(** The search for a glyph's first column, from [column] back by [steps]. *)
Fixpoint lead_from (cells : list LineCell) (steps column : nat) : option nat :=
  match cells !! column with
  | None => None
  | Some c =>
    if negb (continues c) then Some column
    else match steps, column with S steps, S column => lead_from cells steps column | _, _ => None end
  end.
Definition lead_of (column : nat) (d : LineDrawing) : option nat := lead_from (ld_cells d) MAX_GLYPH_WIDTH column.

Definition break_glyph (column : nat) (d : LineDrawing) : Drawn LineDrawing :=
  if length (ld_cells d) <=? column then Done d else
  match lead_of column d with
  | None => set_cell column (blank (ld_stamp d)) d
  | Some lead =>
    let d := put_marks (delete lead (ld_marks d)) d in
    let! c := cell_at lead d in
    if lc_width c <=? 1 then Done d else
    let stop := min (lead + lc_width c) (length (ld_cells d)) in
    let! d := each (λ index d, set_cell index (blank (ld_stamp d)) d) (seq lead (stop - lead)) d in
    Done (touch lead d)
  end.

(** Whether an erasure newer than the cell covers it; the stamps rise, so the
    first newer one is where [partition_point] stops. *)
Fixpoint newer_erasure (stamp : N) (erasures : list Erasure) : option Erasure :=
  match erasures with
  | [] => None
  | e :: erasures => if (er_stamp e <=? stamp)%N then newer_erasure stamp erasures else Some e
  end.
Definition covered (erasures : list Erasure) (index : nat) (c : LineCell) : bool :=
  match newer_erasure (lc_stamp c) erasures with Some e => index <? er_extent e | None => false end.
Definition is_erased (index : nat) (d : LineDrawing) : Drawn bool :=
  let! c := cell_at index d in Done (covered (ld_erasures d) index c).

(** ** Handing lines out *)
(** A glyph that lost any of its columns reads as blank; [skip] columns ahead
    belong to one that did not. *)
Fixpoint mend (skip : nat) (cells : list LineCell) : list LineCell :=
  match cells with
  | [] => []
  | c :: rest =>
    match skip with
    | S skip => c :: mend skip rest
    | O =>
      let whole := negb (continues c) && (lc_width c - 1 <=? length rest) && forallb continues (take (lc_width c - 1) rest) in
      if whole then c :: mend (lc_width c - 1) rest else blank 0 :: mend 0 rest
    end
  end.
Definition read_cells (d : LineDrawing) : list LineCell :=
  match ld_erasures d with
  | [] => ld_cells d
  | erasures => imap (λ index c, if covered erasures index c then blank 0 else c) (ld_cells d)
  end.
Definition snapshot (d : LineDrawing) : LogLine :=
  let cells := mend 0 (read_cells d) in
  {| ll_cells := cells; ll_marks := filter (λ it, cells !! it.1 = ld_cells d !! it.1) (ld_marks d); ll_continues := false |}.

Definition clear_line (d : LineDrawing) : LineDrawing :=
  put_shown 0 false (put_rewritten false (put_steered false (put_cursor 0 (put_erasures 0 [] (put_marks ∅ (put_cells [] d)))))).

(** What is left to show of a line that ends. *)
Definition left_to_show (fed : bool) (line : LogLine) (d : LineDrawing) : option LogLine :=
  if ld_shown d =? 0 then
    let redraw := ld_steered d || (0 <? ld_risen d) in
    if negb (is_blank line) || (fed && negb redraw) then Some line else None
  else if ld_shown_changed d then if negb (is_blank line) then Some line else None
  else let rest := slice line (ld_shown d) (length (ll_cells line)) in if negb (is_blank rest) then Some rest else None.
Definition close_line (fed : bool) (d : LineDrawing) : LineDrawing :=
  clear_line (put_finished (ld_finished d ++ option_list (left_to_show fed (snapshot d) d)) d).
Definition cut : LineDrawing → LineDrawing := close_line false.

Definition end_line (d : LineDrawing) : LineDrawing :=
  let d := close_line true d in
  put_saved None false (put_risen (if ld_detached d then 0 else ld_risen d - 1) d).

Definition take_lines (d : LineDrawing) : list LogLine * LineDrawing := (ld_finished d, put_finished [] d).
Definition is_settled (d : LineDrawing) : bool := negb (ld_rewritten d).
Definition take_partial (d : LineDrawing) : option LogLine * LineDrawing :=
  let line := snapshot d in
  let stop := shown_end line in
  if stop <=? ld_shown d then (None, d) else (Some (slice line (ld_shown d) stop), put_shown stop (ld_shown_changed d) d).
Definition peek (d : LineDrawing) : option LogLine := let line := snapshot d in if is_blank line then None else Some line.
Definition finish : LineDrawing → LineDrawing := close_line false.
Definition drop_line (d : LineDrawing) : LineDrawing := put_finished (ld_finished d) drawing_default.
Definition width (d : LineDrawing) : nat := length (ld_cells d).

(** ** Drawing *)
Definition draw (character : rchar) (width : nat) (d : LineDrawing) : Drawn LineDrawing :=
  let d := if MAX_LINE_CELLS <? ld_cursor d + width then cut d else d in
  let start := ld_cursor d in
  let d := put_rewritten (ld_rewritten d || (start <? length (ld_cells d))) d in
  let stop := start + width in
  let d := pad_to stop d in
  let! d := each break_glyph (seq start width) d in
  let! d := set_cell start {| lc_character := character; lc_pen := ld_pen d; lc_width := min width 255; lc_stamp := ld_stamp d |} d in
  let! d := each (λ column d, set_cell column (continuation (ld_pen d) (ld_stamp d)) d) (seq (start + 1) (width - 1)) d in
  Done (put_cursor stop (touch start d)).

Definition mark (m : rchar) (d : LineDrawing) : Drawn LineDrawing :=
  match ld_cursor d with
  | O => Done d
  | S column =>
    match lead_of column d with
    | None => Done d
    | Some lead =>
      let! erased := is_erased lead d in
      if (erased : bool) then Done d else
      let marks := default [] (ld_marks d !! lead) in
      let marks := if (utf8_len marks + utf8_width m <=? MAX_MARK_BYTES)%N then marks ++ [m] else marks in
      Done (touch lead (put_marks (<[lead := marks]> (ld_marks d)) d))
    end
  end.

Section drawing.
Context (char_width : rchar → option nat) (is_format : rchar → bool).

Definition print_char (c : rchar) (d : LineDrawing) : Drawn LineDrawing :=
  match char_width c with
  | Some O => mark c d
  | Some width => draw c width d
  | None => Done d
  end.

Definition tab (d : LineDrawing) : Drawn LineDrawing :=
  let stop := (ld_cursor d / TAB_STOP + 1) * TAB_STOP in
  if length (ld_cells d) <=? ld_cursor d then draw TAB (stop - ld_cursor d) d else Done (put_cursor (min stop MAX_LINE_CELLS) d).

(** [extent] moved past the glyph covering the column before it; the clamp panics
    when the line is shorter than [extent]. *)
Definition glyph_end (extent : nat) (d : LineDrawing) : Drawn nat :=
  match extent with
  | O => Done 0
  | S last =>
    match lead_of last d with
    | None => Done extent
    | Some lead =>
      let! c := cell_at lead d in
      if length (ld_cells d) <? extent then Panicked d else Done (clamp extent (length (ld_cells d)) (lead + lc_width c))
    end
  end.

(** One cell of [apply_erasures]: blanked where it is erased. *)
Definition apply_erasure (index : nat) (d : LineDrawing) : Drawn LineDrawing :=
  let! erased := is_erased index d in
  if (erased : bool) then let! d := set_cell index (blank 0) d in Done (put_marks (delete index (ld_marks d)) d) else Done d.
Definition apply_erasures (d : LineDrawing) : Drawn LineDrawing :=
  let! d := each apply_erasure (seq 0 (length (ld_cells d))) d in
  Done (put_erasures 0 [] (put_cells (restamped 0 <$> ld_cells d) d)).

(** The erasures a new one reaches past are dropped, from the newest. *)
Fixpoint pop_covered (extent : nat) (erasures : list Erasure) : list Erasure :=
  match erasures with
  | [] => []
  | e :: erasures => match pop_covered extent erasures with [] => if er_extent e <=? extent then [] else [e] | kept => e :: kept end
  end.

Definition erase_to_cursor (d : LineDrawing) : Drawn LineDrawing :=
  let! extent := glyph_end (min (ld_cursor d + 1) (length (ld_cells d))) d in
  if extent =? 0 then Done d else
  let d := put_rewritten true d in
  let! d := if (ld_stamp d =? u32_max)%N then apply_erasures d else Done d in
  if (ld_stamp d =? u32_max)%N then Panicked d else
  let stamp := (ld_stamp d + 1)%N in
  Done (touch 0 (put_erasures stamp (pop_covered extent (ld_erasures d) ++ [{| er_stamp := stamp; er_extent := extent |}]) d)).

(** What a line does on an erase to the cursor is the step [to_cursor], so the
    code can be set beside one that erases at once. *)
Section erasing.
Context (to_cursor : LineDrawing → Drawn LineDrawing).

Definition erase (mode : N) (d : LineDrawing) : Drawn LineDrawing :=
  if (mode =? ERASE_TO_END)%N then
    let at_ := min (ld_cursor d) (length (ld_cells d)) in
    if at_ <? length (ld_cells d) then
      let! d := break_glyph at_ (put_rewritten true d) in
      Done (touch at_ (put_marks (filter (λ it, it.1 < at_) (ld_marks d)) (put_cells (take at_ (ld_cells d)) d)))
    else Done d
  else if (mode =? ERASE_TO_CURSOR)%N then to_cursor d
  else if (mode =? ERASE_LINE)%N then
    let d := put_rewritten (ld_rewritten d || negb (length (ld_cells d) =? 0)) d in
    Done (touch 0 (put_erasures (ld_stamp d) [] (put_marks ∅ (put_cells [] d))))
  else Done d.

Definition save (d : LineDrawing) : LineDrawing :=
  put_saved (Some {| sv_column := ld_cursor d; sv_pen := ld_pen d; sv_risen := ld_risen d |}) (ld_detached d) d.
Definition restore (d : LineDrawing) : LineDrawing :=
  put_saved None false
    (match ld_saved d with
     | Some s => put_rewritten true (put_risen (sv_risen s) (put_pen (sv_pen s) (put_cursor (sv_column s) d)))
     | None => d
     end).
Definition full_reset (d : LineDrawing) : LineDrawing :=
  put_risen 0 (put_saved None false (put_pushed [] (put_pen pen_default (clear_line d)))).
Definition push_pen_of (d : LineDrawing) : LineDrawing :=
  let pushed := if length (ld_pushed d) =? MAX_PUSHED_PENS then drop 1 (ld_pushed d) else ld_pushed d in
  put_pushed (pushed ++ [ld_pen d]) d.
Definition pop_pen (d : LineDrawing) : LineDrawing :=
  match last (ld_pushed d) with
  | Some pen => put_pen pen (put_pushed (take (length (ld_pushed d) - 1) (ld_pushed d)) d)
  | None => d
  end.
Definition move_to_column (column : N) (d : LineDrawing) : LineDrawing := put_cursor (min (max (N.to_nat column) FIRST) MAX_COLUMN - FIRST) d.
Definition forward (count : nat) (d : LineDrawing) : LineDrawing :=
  if ld_cursor d <? MAX_COLUMN then put_cursor (min (ld_cursor d + count) MAX_COLUMN) d else d.

Definition is_one_of (actions : list rchar) (action : rchar) : bool := existsb (N.eqb action) actions.
Definition steer (params : list (list N)) (action : rchar) (d : LineDrawing) : Drawn LineDrawing :=
  let first := head (param_values params) in
  let count := max (default FIRST (N.to_nat <$> first)) FIRST in
  if (action =? SAVE_CURSOR)%N && (bool_decide (params = []) || bool_decide (first = Some 0%N)) then Done (save d)
  else if (action =? RESTORE_CURSOR)%N then Done (restore d)
  else if negb (on_line d) then Done d
  else if is_one_of [ERASE_IN_LINE; ERASE_IN_DISPLAY] action then erase (default ERASE_TO_END first) d
  else if is_one_of [CURSOR_TO_COLUMN; COLUMN_ABSOLUTE] action then Done (move_to_column (default 1%N first) d)
  else if (action =? CURSOR_FORWARD)%N then Done (forward count d)
  else if (action =? CURSOR_BACK)%N then Done (put_cursor (ld_cursor d - count) d)
  else if is_one_of [CURSOR_UP; CURSOR_PREVIOUS_LINE] action then
    let d := put_risen (min (ld_risen d + count) MAX_RISE) d in
    Done (put_rewritten true (if (action =? CURSOR_PREVIOUS_LINE)%N then put_cursor 0 d else d))
  else if is_one_of [CURSOR_DOWN; CURSOR_NEXT_LINE] action then
    let d := put_risen (ld_risen d - count) d in
    Done (put_rewritten true (if (action =? CURSOR_NEXT_LINE)%N then put_cursor 0 d else d))
  else if is_one_of [CURSOR_POSITION; POSITION_ABSOLUTE; LINE_ABSOLUTE] action && bool_decide (is_Some (ld_saved d)) then Done (put_saved (ld_saved d) true d)
  else if is_one_of [CURSOR_POSITION; POSITION_ABSOLUTE] action then Done (move_to_column (default 1%N (param_values params !! 1)) d)
  else Done d.

(** [Perform for LineDrawing]. *)
Definition print (c : rchar) (d : LineDrawing) : Drawn LineDrawing :=
  if negb (on_line d) then Done d
  else if (c <? 128)%N then if is_control c then Done d else draw c 1 d
  else if is_control c then Done d
  else if steers_the_terminal is_format c then each print_char (escape_default c) d
  else print_char c d.

Definition execute (byte : N) (d : LineDrawing) : Drawn LineDrawing :=
  if (byte =? LINE_FEED)%N then Done (end_line d)
  else if negb (on_line d) then Done d
  else if (byte =? CARRIAGE_RETURN)%N then Done (put_cursor 0 (put_rewritten (ld_rewritten d || negb (length (ld_cells d) =? 0)) d))
  else if (byte =? BACKSPACE)%N then Done (put_cursor (ld_cursor d - 1) d)
  else if (byte =? TAB)%N then tab d
  else Done d.

Definition csi_dispatch (params : list (list N)) (intermediates : list N) (ignore : bool) (action : rchar) (d : LineDrawing) : Drawn LineDrawing :=
  let bare := negb ignore && bool_decide (intermediates = []) in
  let stack := negb ignore && bool_decide (intermediates = [PEN_STACK_INTERMEDIATE]) in
  if bare && (action =? SGR_FINAL)%N then Done (put_pen (pen_apply params (ld_pen d)) d)
  else if stack && (action =? PUSH_PEN_FINAL)%N then Done (push_pen_of d)
  else if stack && (action =? POP_PEN_FINAL)%N then Done (pop_pen d)
  else
    let d := put_steered true d in
    if bare then steer params action d else Done d.

Definition esc_dispatch (intermediates : list N) (ignore : bool) (byte : N) (d : LineDrawing) : Drawn LineDrawing :=
  let d := put_steered true d in
  if ignore || negb (bool_decide (intermediates = [])) then Done d
  else if (byte =? SAVE_CURSOR_ESCAPE)%N then Done (save d)
  else if (byte =? RESTORE_CURSOR_ESCAPE)%N then Done (restore d)
  else if (byte =? FULL_RESET_FINAL)%N then Done (full_reset d)
  else Done d.

Definition perform (call : Dispatch) (d : LineDrawing) : Drawn LineDrawing :=
  match call with
  | DPrint c => print c d
  | DExecute byte => execute byte d
  | DCsi params intermediates ignore action => csi_dispatch params intermediates ignore action d
  | DEsc intermediates ignore byte => esc_dispatch intermediates ignore byte d
  | DOsc | DHook => Done (put_steered true d)
  | DPut _ | DUnhook => Done d
  end.
End erasing.

(** ** The renderer *)
Context `{VtParser}.

Record LogRenderer := { lr_parser : BoundedParser; lr_drawing : LineDrawing; lr_broken : bool; lr_faults : N }.
Definition renderer_new : LogRenderer := {| lr_parser := parser_new; lr_drawing := drawing_default; lr_broken := false; lr_faults := 0 |}.

Definition recover (r : LogRenderer) : LogRenderer :=
  {| lr_parser := parser_new; lr_drawing := drop_line (lr_drawing r); lr_broken := lr_broken r; lr_faults := lr_faults r |}.

(** Runs [step] on the parser and the drawing; a panic drops the line being drawn
    and is counted. *)
Definition contained {A} (step : BoundedParser → LineDrawing → Drawn (A * BoundedParser * LineDrawing)) (r : LogRenderer) : option A * LogRenderer :=
  let r := if lr_broken r then recover {| lr_parser := lr_parser r; lr_drawing := lr_drawing r; lr_broken := false; lr_faults := lr_faults r |} else r in
  match step (lr_parser r) (lr_drawing r) with
  | Done (a, p, d) => (Some a, {| lr_parser := p; lr_drawing := d; lr_broken := false; lr_faults := lr_faults r |})
  | Panicked d => (None, recover {| lr_parser := lr_parser r; lr_drawing := d; lr_broken := false; lr_faults := lr_faults r + 1 |})
  end.

Definition advance_line (line : list N) (p : BoundedParser) (d : LineDrawing) : Drawn (unit * BoundedParser * LineDrawing) :=
  let '(calls, p) := advance line p in
  let! d := each (perform erase_to_cursor) calls d in Done (tt, p, d).
Definition renderer_advance (bytes : list N) (r : LogRenderer) : LogRenderer :=
  foldl (λ r line, (contained (advance_line line) r).2) r (split_inclusive bytes).

Definition renderer_take_lines (r : LogRenderer) : list LogLine * LogRenderer :=
  let '(lines, d) := take_lines (lr_drawing r) in
  (lines, {| lr_parser := lr_parser r; lr_drawing := d; lr_broken := lr_broken r; lr_faults := lr_faults r |}).
Definition renderer_take_partial (r : LogRenderer) : option LogLine * LogRenderer :=
  let '(line, r) := contained (λ p d, let '(line, d) := take_partial d in Done (line, p, d)) r in (mjoin line, r).
Definition peek_partial (r : LogRenderer) : option LogLine := if lr_broken r then None else peek (lr_drawing r).
Definition renderer_finish (r : LogRenderer) : LogRenderer := (contained (λ p d, Done (tt, p, finish d)) r).2.
Definition renderer_restart (r : LogRenderer) : LogRenderer := recover (renderer_finish r).
Definition renderer_take_faults (r : LogRenderer) : N * LogRenderer :=
  (lr_faults r, {| lr_parser := lr_parser r; lr_drawing := lr_drawing r; lr_broken := lr_broken r; lr_faults := 0 |}).

(** The rendering the readers and the tap are written against. *)
#[export] Instance log_renderer : LineRenderer := {|
  rendering := LogRenderer;
  render_new := renderer_new;
  render_advance := renderer_advance;
  render_take := λ r, let '(lines, r) := renderer_take_lines r in (plain <$> lines, r);
  render_peek := λ r, plain <$> peek_partial r;
  render_width := λ r, N.of_nat (width (lr_drawing r));
  render_finish := renderer_finish;
  render_restart := renderer_restart;
  render_faults := renderer_take_faults;
|}.
End drawing.
