(* ===== verification/Drawn.v ===== *)
(** * A line is drawn without a panic

    What a line being drawn always is (Drawing.v): its cells are whole glyphs,
    its erasures are in order and split none of them, its marks sit on glyphs;
    so no step panics, the renderer drops no line, a line is bounded, and nothing
    that could steer a terminal lands on one. *)
From S2P Require Import Prelude RustText Values Tap LogFile LogSpan Terminal Screen Pen Drawing.

Lemma glyph_fits : MAX_GLYPH_WIDTH ≤ MAX_LINE_CELLS.
Proof. unfold MAX_GLYPH_WIDTH, TAB_STOP, MAX_LINE_CELLS. lia. Qed.
#[local] Opaque MAX_LINE_CELLS MAX_COLUMN MAX_RISE.
#[local] Arguments MAX_LINE_CELLS : simpl never.
#[local] Arguments MAX_COLUMN : simpl never.

(** ** Cells as glyphs *)
(** A glyph's later columns follow it, drawn when it was; a later column has its
    glyph. *)
Definition glyph_ok (cells : list LineCell) (i : nat) (c : LineCell) : Prop :=
  lc_width c ≤ MAX_GLYPH_WIDTH ∧
  (∀ j, i < j < i + lc_width c → ∃ k, cells !! j = Some k ∧ lc_width k = 0 ∧ lc_stamp k = lc_stamp c) ∧
  (lc_width c = 0 → ∃ l k, cells !! l = Some k ∧ l < i < l + lc_width k).
Definition tiled (cells : list LineCell) : Prop := ∀ i c, cells !! i = Some c → glyph_ok cells i c.

(** No glyph is split at [x]. *)
Definition bound (cells : list LineCell) (x : nat) : Prop := ∀ l c, cells !! l = Some c → ¬ (l < x < l + lc_width c).

Lemma tiled_nil : tiled [].
Proof. intros i c Hc. by rewrite lookup_nil in Hc. Qed.

Lemma bound_0 cells : bound cells 0.
Proof. intros l c _. lia. Qed.

Lemma continues_false c : continues c = false ↔ 0 < lc_width c.
Proof. unfold continues. destruct (Nat.eqb_spec (lc_width c) 0); split; (done || lia). Qed.

Lemma tiled_end cells i c : tiled cells → cells !! i = Some c → 0 < lc_width c → i + lc_width c ≤ length cells.
Proof.
  intros Ht Hc Hw. destruct (Ht i c Hc) as (_ & Hf & _). destruct (decide (lc_width c = 1)) as [->|]; [apply lookup_lt_Some in Hc; lia|].
  destruct (Hf (i + lc_width c - 1) ltac:(lia)) as (k & Hk & _). apply lookup_lt_Some in Hk. lia.
Qed.

(** Where a glyph starts and ends no glyph is split. *)
Lemma bound_start cells i c : tiled cells → cells !! i = Some c → 0 < lc_width c → bound cells i.
Proof. intros Ht Hc Hw l k Hk Hl. destruct (Ht l k Hk) as (_ & Hf & _). destruct (Hf i Hl) as (k' & Hk' & Hz & _). rewrite Hc in Hk'. injection Hk' as <-. lia. Qed.
Lemma bound_end cells i c : tiled cells → cells !! i = Some c → 0 < lc_width c → bound cells (i + lc_width c).
Proof.
  intros Ht Hc Hw l k Hk Hl. destruct (Nat.lt_trichotomy l i) as [Hlt|[-> | Hgt]].
  - destruct (Ht l k Hk) as (_ & Hf & _). destruct (Hf i ltac:(lia)) as (k' & Hk' & Hz & _). rewrite Hc in Hk'. injection Hk' as <-. lia.
  - rewrite Hc in Hk. injection Hk as <-. lia.
  - destruct (Ht i c Hc) as (_ & Hf & _). destruct (Hf l ltac:(lia)) as (k' & Hk' & Hz & _). rewrite Hk in Hk'. injection Hk' as <-. lia.
Qed.

(** The glyph a column belongs to. *)
Definition owns (cells : list LineCell) (i l : nat) (c : LineCell) : Prop := cells !! l = Some c ∧ l ≤ i < l + lc_width c.

Lemma owned cells i : tiled cells → i < length cells → ∃ l c, owns cells i l c.
Proof.
  intros Ht Hi. destruct (lookup_lt_is_Some_2 cells i Hi) as [c Hc]. destruct (decide (lc_width c = 0)) as [Hz|Hz].
  - destruct (Ht i c Hc) as (_ & _ & Hl). destruct (Hl Hz) as (l & k & Hk & Hin). exists l, k. split; [done|lia].
  - exists i, c. split; [done|lia].
Qed.
Lemma owns_unique cells i l c l' c' : tiled cells → owns cells i l c → owns cells i l' c' → l = l' ∧ c = c'.
Proof.
  intros Ht [Hc Hi] [Hc' Hi']. destruct (Nat.lt_trichotomy l l') as [Hlt|[<- | Hgt]]; [| split; congruence|].
  - destruct (Ht l c Hc) as (_ & Hf & _). destruct (Hf l' ltac:(lia)) as (k & Hk & Hz & _). rewrite Hc' in Hk. injection Hk as <-. lia.
  - destruct (Ht l' c' Hc') as (_ & Hf & _). destruct (Hf l ltac:(lia)) as (k & Hk & Hz & _). rewrite Hc in Hk. injection Hk as <-. lia.
Qed.

Lemma lead_from_owner cells steps i l c : tiled cells → owns cells i l c → i - l ≤ steps → lead_from cells steps i = Some l.
Proof.
  intros Ht. revert i. induction steps as [|steps IH]; intros i Ho Hs; destruct Ho as [Hc Hi].
  - replace i with l in * by lia. cbn. rewrite Hc. by rewrite (proj2 (continues_false c)) by lia.
  - destruct (decide (i = l)) as [->|Hne]. { cbn. rewrite Hc. by rewrite (proj2 (continues_false c)) by lia. }
    destruct (Ht l c Hc) as (_ & Hf & _). destruct (Hf i ltac:(lia)) as (k & Hk & Hz & _). cbn. rewrite Hk.
    unfold continues. rewrite Hz. cbn. destruct i as [|i]; [lia|]. apply IH; [split; [done|lia]|lia].
Qed.
Lemma lead_of_owner d i l c : tiled (ld_cells d) → owns (ld_cells d) i l c → lead_of i d = Some l.
Proof. intros Ht Ho. apply (lead_from_owner _ _ _ _ c); [done..|]. destruct Ho as [Hc Hi]. destruct (Ht l c Hc) as [Hw _]. lia. Qed.
Lemma lead_from_out cells steps i : length cells ≤ i → lead_from cells steps i = None.
Proof. intros Hi. destruct steps; cbn; by rewrite (lookup_ge_None_2 _ _ Hi). Qed.

(** ** Runs of cells written *)
Definition fill (a n : nat) (c : LineCell) (cells : list LineCell) : list LineCell := take a cells ++ replicate n c ++ drop (a + n) cells.

Lemma fill_length a n c cells : a + n ≤ length cells → length (fill a n c cells) = length cells.
Proof. intros Hl. unfold fill. rewrite !length_app, length_take, length_replicate, length_drop. lia. Qed.
Lemma fill_in a n c cells i : a + n ≤ length cells → a ≤ i < a + n → fill a n c cells !! i = Some c.
Proof.
  intros Hl Hi. unfold fill. rewrite lookup_app_r by (rewrite length_take; lia). rewrite length_take, lookup_app_l by (rewrite length_replicate; lia).
  apply lookup_replicate_2. lia.
Qed.
Lemma fill_out a n c cells i : a + n ≤ length cells → ¬ (a ≤ i < a + n) → fill a n c cells !! i = cells !! i.
Proof.
  intros Hl Hi. unfold fill. destruct (decide (i < a)).
  - rewrite lookup_app_l by (rewrite length_take; lia). by apply lookup_take_lt.
  - rewrite lookup_app_r by (rewrite length_take; lia). rewrite lookup_app_r by (rewrite length_replicate, length_take; lia).
    rewrite lookup_drop, length_take, length_replicate. f_equal. lia.
Qed.
Lemma fill_0 a c cells : fill a 0 c cells = cells.
Proof. unfold fill. cbn. by rewrite Nat.add_0_r, take_drop. Qed.
Lemma fill_cons a n c cells : a + S n ≤ length cells → fill (S a) n c (<[a := c]> cells) = fill a (S n) c cells.
Proof.
  intros Hl. apply list_eq. intros i. assert (length (<[a := c]> cells) = length cells) as El by apply length_insert.
  destruct (decide (a ≤ i < a + S n)) as [Hi|Hi].
  - rewrite (fill_in a) by done. destruct (decide (i = a)) as [->|].
    + rewrite fill_out by lia. apply list_lookup_insert_eq. lia.
    + apply fill_in; lia.
  - rewrite (fill_out a) by done. rewrite fill_out by lia. apply list_lookup_insert_ne. lia.
Qed.

Lemma set_cell_done i c d : i < length (ld_cells d) → set_cell i c d = Done (put_cells (<[i := c]> (ld_cells d)) d).
Proof. intros Hi. unfold set_cell. by rewrite (proj2 (Nat.ltb_lt _ _)). Qed.

(** Cells set in turn to what the pen and the stamp give. *)
Lemma each_fill (v : LineDrawing → LineCell) a n d :
  (∀ cells d, v (put_cells cells d) = v d) → a + n ≤ length (ld_cells d) →
  each (λ i d, set_cell i (v d) d) (seq a n) d = Done (put_cells (fill a n (v d) (ld_cells d)) d).
Proof.
  intros Hv. revert a d. induction n as [|n IH]; intros a d Hl; cbn [seq each]. { rewrite fill_0. by destruct d. }
  rewrite set_cell_done by lia. cbn [drawn_bind]. rewrite IH by (cbn [put_cells ld_cells]; rewrite length_insert; lia).
  rewrite Hv. cbn [put_cells ld_cells]. rewrite fill_cons by lia. done.
Qed.

Lemma touch_eq column d : touch column d = put_shown (ld_shown d) (ld_shown_changed d || (column <? ld_shown d)) d.
Proof. unfold touch. destruct (column <? ld_shown d); [by rewrite orb_true_r|]. rewrite orb_false_r. by destruct d. Qed.

(** ** The line being drawn *)
(** Newer erasures reach less far. *)
Definition falls (a b : Erasure) : Prop := (er_stamp a < er_stamp b)%N ∧ er_extent b < er_extent a.

Record sound (d : LineDrawing) : Prop := {
  so_tiled : tiled (ld_cells d);
  so_len : length (ld_cells d) ≤ MAX_LINE_CELLS;
  so_stamp : (ld_stamp d ≤ u32_max)%N;
  so_cells : ∀ i c, ld_cells d !! i = Some c → (lc_stamp c ≤ ld_stamp d)%N;
  so_sorted : StronglySorted falls (ld_erasures d);
  so_newest : ∀ e, e ∈ ld_erasures d → (er_stamp e ≤ ld_stamp d)%N;
  so_split : ∀ e l c, e ∈ ld_erasures d → ld_cells d !! l = Some c → (lc_stamp c < er_stamp e)%N → ¬ (l < er_extent e < l + lc_width c);
  so_marks : ∀ i m, ld_marks d !! i = Some m → ∃ c, ld_cells d !! i = Some c ∧ 0 < lc_width c;
  so_shown : ld_shown_changed d = true ∨ bound (ld_cells d) (ld_shown d);
}.

(** What only the cells, marks and erasures decide. *)
Lemma sound_same d d' :
  sound d → ld_cells d' = ld_cells d → ld_marks d' = ld_marks d → ld_stamp d' = ld_stamp d → ld_erasures d' = ld_erasures d →
  ld_shown d' = ld_shown d → (ld_shown_changed d = true → ld_shown_changed d' = true) → sound d'.
Proof.
  intros [S1 S2 S3 S4 S5 S6 S7 S8 S9] Ec Em Es Ee Eh Hc.
  split; rewrite ?Ec, ?Em, ?Es, ?Ee, ?Eh; try done. destruct S9; [left; auto|by right].
Qed.
(** An emptied line. *)
Lemma sound_empty d :
  ld_cells d = [] → ld_marks d = ∅ → (ld_stamp d ≤ u32_max)%N → ld_erasures d = [] → sound d.
Proof.
  intros Ec Em Es Ee. split; rewrite ?Ec, ?Em, ?Ee; [apply tiled_nil|cbn; lia|done|by intros ? ? ?|constructor|by intros ? ?%elem_of_nil|by intros ? ? ? ?%elem_of_nil|by intros ? ?|].
  right. by intros l c Hl.
Qed.
Lemma sound_default : sound drawing_default.
Proof. by apply sound_empty. Qed.

(** *** Breaking a glyph *)
Definition broken (l : nat) (c : LineCell) (d : LineDrawing) : LineDrawing :=
  let d := put_marks (delete l (ld_marks d)) d in
  if lc_width c <=? 1 then d else touch l (put_cells (fill l (lc_width c) (blank (ld_stamp d)) (ld_cells d)) d).

Lemma break_glyph_done column d l c : tiled (ld_cells d) → owns (ld_cells d) column l c → break_glyph column d = Done (broken l c d).
Proof.
  intros Ht Ho. pose proof (lead_of_owner _ _ _ _ Ht Ho) as El. destruct Ho as [Hc Hi]. pose proof (tiled_end _ _ _ Ht Hc ltac:(lia)) as He.
  unfold break_glyph, broken. destruct (Nat.leb_spec (length (ld_cells d)) column); [lia|]. rewrite El. unfold cell_at. cbn [put_marks ld_cells].
  rewrite Hc. cbn [drawn_bind]. destruct (lc_width c <=? 1); [done|]. rewrite Nat.min_l by done.
  rewrite (each_fill (λ d, blank (ld_stamp d))) by (done || (cbn [put_marks ld_cells]; lia)). cbn [drawn_bind put_marks ld_cells ld_stamp]. by replace (l + lc_width c - l) with (lc_width c) by lia.
Qed.

Lemma broken_cells l c d i :
  l + lc_width c ≤ length (ld_cells d) →
  ld_cells (broken l c d) !! i = if decide (1 < lc_width c ∧ l ≤ i < l + lc_width c) then Some (blank (ld_stamp d)) else ld_cells d !! i.
Proof.
  intros He. unfold broken. destruct (Nat.leb_spec (lc_width c) 1). { cbn. rewrite decide_False by lia. done. }
  rewrite touch_eq. cbn [put_shown put_cells put_marks ld_cells ld_stamp]. destruct (decide _); [apply fill_in|apply fill_out]; lia.
Qed.
Lemma broken_fields l c d :
  ld_marks (broken l c d) = delete l (ld_marks d) ∧ ld_stamp (broken l c d) = ld_stamp d ∧ ld_erasures (broken l c d) = ld_erasures d ∧
  ld_shown (broken l c d) = ld_shown d ∧ ld_pen (broken l c d) = ld_pen d.
Proof. unfold broken. destruct (lc_width c <=? 1); rewrite ?touch_eq; done. Qed.
Lemma broken_changed l c d :
  ld_shown_changed (broken l c d) = ld_shown_changed d || (1 <? lc_width c) && (l <? ld_shown d).
Proof. unfold broken. destruct (Nat.leb_spec (lc_width c) 1), (Nat.ltb_spec 1 (lc_width c)); try lia; rewrite ?touch_eq; cbn; by rewrite ?orb_false_r. Qed.
Lemma broken_length l c d : l + lc_width c ≤ length (ld_cells d) → length (ld_cells (broken l c d)) = length (ld_cells d).
Proof. intros He. unfold broken. destruct (lc_width c <=? 1); [done|]. rewrite touch_eq. cbn. by apply fill_length. Qed.

(** A glyph blanked leaves whole glyphs. *)
Lemma broken_tiled l c d : tiled (ld_cells d) → ld_cells d !! l = Some c → 0 < lc_width c → tiled (ld_cells (broken l c d)).
Proof.
  intros Ht Hc Hw i k Hk. pose proof (tiled_end _ _ _ Ht Hc Hw) as He. rewrite broken_cells in Hk by done.
  destruct (decide (1 < lc_width c ∧ l ≤ i < l + lc_width c)) as [Hin|Hout].
  { injection Hk as <-. split_and!; cbn; [unfold MAX_GLYPH_WIDTH, TAB_STOP; lia|intros j Hj; lia|done]. }
  destruct (Ht i k Hk) as (H1 & H2 & H3). split_and!; [done| |].
  - intros j Hj. destruct (H2 j Hj) as (k' & Hk' & Hz & Hs). exists k'. split; [|done]. rewrite broken_cells by done. rewrite decide_False; [done|].
    intros [Hw1 Hin]. assert (owns (ld_cells d) j l c) as Ho by (split; [done|lia]). assert (owns (ld_cells d) j i k) as Ho' by (split; [done|lia]).
    destruct (owns_unique _ _ _ _ _ _ Ht Ho Ho') as [-> _]. apply Hout. lia.
  - intros Hz. destruct (H3 Hz) as (m & k' & Hk' & Hin). exists m, k'. split; [|done]. rewrite broken_cells by done. rewrite decide_False; [done|].
    intros [Hw1 Hm]. assert (owns (ld_cells d) m l c) as Ho by (split; [done|lia]). assert (owns (ld_cells d) m m k') as Ho' by (split; [done|lia]).
    destruct (owns_unique _ _ _ _ _ _ Ht Ho Ho') as [-> ->]. apply Hout. lia.
Qed.
Lemma broken_bound l c d x : l + lc_width c ≤ length (ld_cells d) → bound (ld_cells d) x → bound (ld_cells (broken l c d)) x.
Proof. intros He Hb m k Hk. rewrite broken_cells in Hk by done. destruct (decide _); [injection Hk as <-; cbn; lia|by apply Hb]. Qed.

Lemma broken_sound l c d : sound d → ld_cells d !! l = Some c → 0 < lc_width c → sound (broken l c d).
Proof.
  intros Hs Hc Hw. pose proof (tiled_end _ _ _ (so_tiled _ Hs) Hc Hw) as He. destruct (broken_fields l c d) as (Em & Es & Ee & Eh & _).
  destruct Hs as [S1 S2 S3 S4 S5 S6 S7 S8 S9].
  split; rewrite ?Es, ?Ee, ?Eh; [by apply broken_tiled|by rewrite broken_length|done| |done|done| | |].
  - intros i k Hk. rewrite broken_cells in Hk by done. destruct (decide _); [by injection Hk as <-|eauto].
  - intros e m k Hin Hk Hlt. rewrite broken_cells in Hk by done. destruct (decide _); [injection Hk as <-; cbn; lia|eauto].
  - intros i m. rewrite Em. intros [Hne Hm]%lookup_delete_Some. destruct (S8 i m Hm) as (k & Hk & Hkw). rewrite broken_cells by done.
    destruct (decide (1 < lc_width c ∧ l ≤ i < l + lc_width c)); [eexists; split; [done|cbn; lia]|eauto].
  - rewrite broken_changed. destruct S9 as [-> | Hb]; [by left|]. right. by apply broken_bound.
Qed.

(** *** Drawing a glyph *)
(** A drawing whose cells, marks and change to what was shown are others. *)
Definition redrawn (cells : list LineCell) (marks : gmap nat rstr) (changed : bool) (d : LineDrawing) : LineDrawing :=
  put_shown (ld_shown d) changed (put_marks marks (put_cells cells d)).
Lemma redrawn_self d : d = redrawn (ld_cells d) (ld_marks d) (ld_shown_changed d) d.
Proof. by destruct d. Qed.
Lemma broken_redrawn l c d : broken l c d = redrawn (ld_cells (broken l c d)) (ld_marks (broken l c d)) (ld_shown_changed (broken l c d)) d.
Proof. unfold broken. destruct (lc_width c <=? 1); rewrite ?touch_eq; by destruct d. Qed.

(** Every cell of a range is a glyph of its own, without marks. *)
Definition singles (a b : nat) (d : LineDrawing) : Prop :=
  ∀ i, a ≤ i < b → (∃ k, ld_cells d !! i = Some k ∧ lc_width k = 1) ∧ ld_marks d !! i = None.

Lemma broken_single column l c d : tiled (ld_cells d) → owns (ld_cells d) column l c →
  (∀ m, ld_marks d !! column = Some m → ∃ k, ld_cells d !! column = Some k ∧ 0 < lc_width k) → singles column (S column) (broken l c d).
Proof.
  intros Ht Ho Hm i Hi. replace i with column in * by lia. pose proof Ho as [Hc Hin]. pose proof (tiled_end _ _ _ Ht Hc ltac:(lia)) as He. split.
  - rewrite broken_cells by done. destruct (decide _) as [_|Hn]; [by eexists|]. exists c. assert (lc_width c = 1) by lia. split; [|done]. by replace column with l by lia.
  - destruct (broken_fields l c d) as (-> & _). destruct (decide (column = l)) as [->|Hne]; [apply lookup_delete_eq|]. rewrite lookup_delete_ne by done.
    destruct (ld_marks d !! column) as [m|] eqn:Em; [|done]. destruct (Hm m eq_refl) as (k & Hk & Hw).
    destruct (owns_unique _ column l c column k Ht Ho) as [? _]; [split; [done|lia]|]. lia.
Qed.
Lemma broken_keeps_singles a b l c d : l + lc_width c ≤ length (ld_cells d) → singles a b d → singles a b (broken l c d).
Proof.
  intros He Hs i Hi. destruct (Hs i Hi) as [(k & Hk & Hw) Hm]. destruct (broken_fields l c d) as (-> & _). split.
  - rewrite broken_cells by done. destruct (decide _); [by eexists|eauto].
  - apply lookup_delete_None. by right.
Qed.

Record breaks (start n : nat) (d d' : LineDrawing) : Prop := {
  bk_sound : sound d';
  bk_redrawn : d' = redrawn (ld_cells d') (ld_marks d') (ld_shown_changed d') d;
  bk_length : length (ld_cells d') = length (ld_cells d);
  bk_singles : singles start (start + n) d';
  bk_more : ld_shown_changed d = true → ld_shown_changed d' = true;
  bk_changed : ld_shown_changed d' = true → ld_shown_changed d = true ∨ start < ld_shown d;
}.

(** A glyph shown in part only is broken where it was shown, or had changed. *)
Lemma broken_changed_from start column l c d :
  sound d → owns (ld_cells d) column l c → start ≤ column → ld_shown_changed (broken l c d) = true → ld_shown_changed d = true ∨ start < ld_shown d.
Proof.
  intros Hs [Hc Hin] Hle. rewrite broken_changed. destruct (ld_shown_changed d) eqn:Eh; [by left|]. rewrite orb_false_l. intros [Hw Hl]%andb_true_iff. right.
  apply Nat.ltb_lt in Hw, Hl. destruct (so_shown _ Hs) as [E|Hb]; [congruence|]. specialize (Hb l c Hc). lia.
Qed.

Lemma breaks_done start n d : sound d → start + n ≤ length (ld_cells d) → ∃ d', each break_glyph (seq start n) d = Done d' ∧ breaks start n d d'.
Proof.
  intros Hs. revert start d Hs. assert (∀ n from start d, start ≤ from → sound d → from + n ≤ length (ld_cells d) → singles start from d →
    ∃ d', each break_glyph (seq from n) d = Done d' ∧ sound d' ∧ d' = redrawn (ld_cells d') (ld_marks d') (ld_shown_changed d') d ∧
      length (ld_cells d') = length (ld_cells d) ∧ singles start (from + n) d' ∧ (ld_shown_changed d = true → ld_shown_changed d' = true) ∧
      (ld_shown_changed d' = true → ld_shown_changed d = true ∨ start < ld_shown d)) as Hgen.
  { clear. intros n. induction n as [|n IH]; intros from start d Hle Hs Hl Hsi.
    { exists d. cbn. rewrite Nat.add_0_r. split_and!; auto. apply redrawn_self. }
    destruct (owned (ld_cells d) from (so_tiled _ Hs) ltac:(lia)) as (l & c & Ho). cbn [seq each].
    rewrite (break_glyph_done _ _ _ _ (so_tiled _ Hs) Ho). cbn [drawn_bind]. pose proof Ho as [Hc Hin]. pose proof (tiled_end _ _ _ (so_tiled _ Hs) Hc ltac:(lia)) as He.
    destruct (IH (S from) start (broken l c d)) as (d' & Ed & H1 & H2 & H3 & H4 & H5 & H6); [lia|apply broken_sound; [done..|lia]|by rewrite broken_length; [lia|]| |].
    { intros i Hi. destruct (decide (i = from)) as [->|]; [|by apply (broken_keeps_singles start from); [done..|lia]].
      apply (broken_single from); [apply Hs|done| |lia]. intros m Hm. by apply (so_marks _ Hs) in Hm. }
    destruct (broken_fields l c d) as (_ & _ & _ & Eh & _).
    exists d'. split_and!; [done..| |by rewrite H3, broken_length|by replace (from + S n) with (S from + n) by lia| |].
    - rewrite H2, broken_redrawn at 1. by destruct d.
    - intros E. apply H5. by rewrite broken_changed, E.
    - intros E. destruct (H6 E) as [E'|E']; [by apply (broken_changed_from start from l c)|rewrite Eh in E'; by right]. }
  intros start d Hs Hl. destruct (Hgen n start start d) as (d' & Ed & H); [lia|done..|intros i ?; lia|]. exists d'. split; [done|]. destruct H as (?&?&?&?&?&?). by split.
Qed.

(** The glyph put at [start]. *)
Definition placed (start w : nat) (lead : LineCell) (rest : LineCell) (cells : list LineCell) : list LineCell :=
  fill (S start) (w - 1) rest (<[start := lead]> cells).
Lemma placed_length start w lead rest cells : 0 < w → start + w ≤ length cells → length (placed start w lead rest cells) = length cells.
Proof. intros Hw Hl. unfold placed. rewrite fill_length; rewrite length_insert; lia. Qed.
Lemma placed_cells start w lead rest cells i :
  0 < w → start + w ≤ length cells →
  placed start w lead rest cells !! i = if decide (i = start) then Some lead else if decide (start < i < start + w) then Some rest else cells !! i.
Proof.
  intros Hw Hl. unfold placed. assert (length (<[start := lead]> cells) = length cells) as El by apply length_insert. destruct (decide (i = start)) as [->|Hne].
  - rewrite fill_out by lia. apply list_lookup_insert_eq. lia.
  - destruct (decide _); [apply fill_in; lia|]. rewrite fill_out by lia. apply list_lookup_insert_ne. lia.
Qed.
Lemma placed_tiled start w lead rest cells :
  0 < w ≤ MAX_GLYPH_WIDTH → start + w ≤ length cells → tiled cells → (∀ i, start ≤ i < start + w → ∃ k, cells !! i = Some k ∧ lc_width k = 1) →
  lc_width lead = w → lc_width rest = 0 → lc_stamp rest = lc_stamp lead → tiled (placed start w lead rest cells).
Proof.
  intros Hw Hl Ht Hs Ew Ez Es i c Hc. unfold glyph_ok. rewrite placed_cells in Hc by lia. destruct (decide (i = start)) as [->|Hne].
  { injection Hc as <-. rewrite Ew. split_and!; [lia| |lia]. intros j Hj. exists rest. rewrite placed_cells by lia. by rewrite decide_False, decide_True by lia. }
  destruct (decide _) as [Hin|Hout].
  { injection Hc as <-. rewrite Ez. split_and!; [lia|lia|]. intros _. exists start, lead. rewrite placed_cells by lia. rewrite decide_True by done. split; [done|lia]. }
  assert (¬ (start ≤ i < start + w)) as Hni by lia. destruct (Ht i c Hc) as (H1 & H2 & H3). split_and!; [done| |].
  - intros j Hj. destruct (H2 j Hj) as (k & Hk & Hz & Hst). exists k. split; [|done]. rewrite placed_cells by lia.
    assert (¬ (start ≤ j < start + w)) by (intros Hin; destruct (Hs j Hin) as (k' & Hk' & Hw'); rewrite Hk in Hk'; injection Hk' as <-; lia).
    by rewrite !decide_False by lia.
  - intros Hz. destruct (H3 Hz) as (l & k & Hk & Hin). exists l, k. split; [|done]. rewrite placed_cells by lia.
    assert (¬ (start ≤ l < start + w)) by (intros Hin'; destruct (Hs l Hin') as (k' & Hk' & Hw'); rewrite Hk in Hk'; injection Hk' as <-; lia).
    by rewrite !decide_False by lia.
Qed.
(** What a new glyph straddles was of single columns. *)
Lemma placed_bound start w lead rest cells x :
  0 < w → start + w ≤ length cells → lc_width lead = w → lc_width rest = 0 → bound cells x → ¬ (start < x < start + w) → bound (placed start w lead rest cells) x.
Proof.
  intros Hw Hl Ew Ez Hb Hx l c Hc. rewrite placed_cells in Hc by done. destruct (decide (l = start)) as [->|]; [injection Hc as <-; lia|].
  destruct (decide _); [injection Hc as <-; lia|by apply Hb].
Qed.

Lemma pad_lookup stop d i c : ld_cells (pad_to stop d) !! i = Some c → ld_cells d !! i = Some c ∨ (length (ld_cells d) ≤ i ∧ c = blank (ld_stamp d)).
Proof. cbn. intros [Hc|[Hi Hc]]%lookup_app_Some; [by left|]. apply lookup_replicate in Hc as [-> _]. by right. Qed.
Lemma pad_length stop d : length (ld_cells (pad_to stop d)) = max stop (length (ld_cells d)).
Proof. cbn. rewrite length_app, length_replicate. lia. Qed.
Lemma pad_old stop d i c : ld_cells d !! i = Some c → ld_cells (pad_to stop d) !! i = Some c.
Proof. intros Hc. cbn. by apply lookup_app_l_Some. Qed.

Lemma pad_sound stop d : sound d → stop ≤ MAX_LINE_CELLS → sound (pad_to stop d).
Proof.
  intros [S1 S2 S3 S4 S5 S6 S7 S8 S9] Hm. split; cbn [pad_to put_cells ld_stamp ld_erasures ld_marks ld_shown ld_shown_changed]; try done.
  - intros i c [Hc|[_ ->]]%(pad_lookup stop d).
    + destruct (S1 i c Hc) as (H1 & H2 & H3). split_and!; [done| |].
      * intros j Hj. destruct (H2 j Hj) as (k & Hk & ?). exists k. split; [by apply pad_old|done].
      * intros Hz. destruct (H3 Hz) as (l & k & Hk & ?). exists l, k. split; [by apply pad_old|done].
    + split_and!; cbn; [unfold MAX_GLYPH_WIDTH, TAB_STOP; lia|lia|done].
  - rewrite (pad_length stop d). lia.
  - intros i c [Hc|[_ ->]]%(pad_lookup stop d); [eauto|cbn; lia].
  - intros e l c He [Hc|[_ ->]]%(pad_lookup stop d); [eauto|cbn; lia].
  - intros i m Hm'. destruct (S8 i m Hm') as (c & Hc & Hw). exists c. split; [by apply pad_old|done].
  - destruct S9 as [?|Hb]; [by left|]. right. intros l c [Hc|[_ ->]]%(pad_lookup stop d); [by apply Hb|cbn; lia].
Qed.

Lemma clear_sound d : sound (clear_line d).
Proof. by apply sound_empty. Qed.
Lemma close_sound fed d : sound (close_line fed d).
Proof. apply clear_sound. Qed.

(** The line a glyph of [w] columns is drawn on, cut when it is full and padded. *)
Definition readied (w : nat) (d : LineDrawing) : LineDrawing :=
  let d := if MAX_LINE_CELLS <? ld_cursor d + w then cut d else d in
  pad_to (ld_cursor d + w) (put_rewritten (ld_rewritten d || (ld_cursor d <? length (ld_cells d))) d).
Definition glyph_of (c : rchar) (w : nat) (d : LineDrawing) : LineCell := {| lc_character := c; lc_pen := ld_pen d; lc_width := min w 255; lc_stamp := ld_stamp d |}.

Lemma readied_fits w d : w ≤ MAX_GLYPH_WIDTH → ld_cursor (readied w d) + w ≤ MAX_LINE_CELLS.
Proof.
  intros Hw. unfold readied. destruct (Nat.ltb_spec MAX_LINE_CELLS (ld_cursor d + w)); cbn; [|lia].
  pose proof glyph_fits. lia.
Qed.
Lemma readied_sound w d : sound d → w ≤ MAX_GLYPH_WIDTH → sound (readied w d).
Proof.
  intros Hs Hw. pose proof (readied_fits w d Hw) as Hf. unfold readied in *. apply pad_sound; [|exact Hf].
  assert (sound (if MAX_LINE_CELLS <? ld_cursor d + w then cut d else d)) as Hs' by (destruct (_ <? _); [apply close_sound|exact Hs]).
  by eapply sound_same; [exact Hs'|..].
Qed.
Lemma readied_length w d : ld_cursor (readied w d) + w ≤ length (ld_cells (readied w d)).
Proof. unfold readied. rewrite pad_length. cbn. lia. Qed.

(** A glyph drawn, once what it covers is broken up. *)
Lemma placed_sound start c w d d1 :
  0 < w ≤ MAX_GLYPH_WIDTH → start + w ≤ length (ld_cells d) → breaks start w d d1 →
  sound (touch start (put_cells (placed start w (glyph_of c w d1) (continuation (ld_pen d1) (ld_stamp d1)) (ld_cells d1)) d1)).
Proof.
  intros Hw Hl [Hs _ El Hsi _ _]. assert (lc_width (glyph_of c w d1) = w) as Ew by (cbn; unfold MAX_GLYPH_WIDTH, TAB_STOP in Hw; lia).
  assert (start + w ≤ length (ld_cells d1)) as Hl1 by lia. destruct Hs as [S1 S2 S3 S4 S5 S6 S7 S8 S9]. rewrite touch_eq.
  split; cbn [put_shown put_cells ld_cells ld_stamp ld_erasures ld_marks ld_shown ld_shown_changed]; try done.
  - apply placed_tiled; try done. intros i Hi. by apply Hsi.
  - rewrite placed_length by lia. done.
  - intros i k. rewrite placed_cells by lia. destruct (decide _); [intros [= <-]; cbn; lia|]. destruct (decide _); [intros [= <-]; cbn; lia|eauto].
  - intros e l k He. rewrite placed_cells by lia. destruct (decide _); [intros [= <-]; cbn; specialize (S6 e He); lia|].
    destruct (decide _); [intros [= <-]; cbn; specialize (S6 e He); lia|eauto].
  - intros i m Hm. destruct (S8 i m Hm) as (k & Hk & Hkw). exists k. rewrite placed_cells by lia.
    assert (¬ (start ≤ i < start + w)) by (intros Hin; destruct (Hsi i Hin) as [_ E]; congruence). by rewrite !decide_False by lia.
  - destruct (ld_shown_changed d1) eqn:Eh; [by left|]. destruct (Nat.ltb_spec start (ld_shown d1)); [by left|]. right.
    destruct S9 as [?|Hb]; [done|]. apply placed_bound; auto; [lia|]. lia.
Qed.

Lemma draw_done c w d : sound d → 0 < w ≤ MAX_GLYPH_WIDTH →
  let d0 := readied w d in let start := ld_cursor d0 in
  ∃ d1, each break_glyph (seq start w) d0 = Done d1 ∧ breaks start w d0 d1 ∧
    draw c w d = Done (put_cursor (start + w) (touch start (put_cells (placed start w (glyph_of c w d1) (continuation (ld_pen d1) (ld_stamp d1)) (ld_cells d1)) d1))).
Proof.
  intros Hs Hw d0 start. pose proof (readied_sound w d Hs ltac:(lia)) as Hs0. pose proof (readied_length w d) as Hl.
  fold d0 in Hs0, Hl. fold start in Hl. destruct (breaks_done start w d0 Hs0 Hl) as (d1 & Ed & Hb). exists d1. split_and!; [done..|].
  pose proof (bk_length _ _ _ _ Hb) as El. unfold draw. cbv zeta.
  change (pad_to _ _) with d0. change (ld_cursor (if MAX_LINE_CELLS <? ld_cursor d + w then cut d else d)) with start.
  rewrite Ed. cbn [drawn_bind]. rewrite set_cell_done by lia. cbn [drawn_bind].
  rewrite (each_fill (λ d, continuation (ld_pen d) (ld_stamp d))); [|done|cbn [put_cells ld_cells]; rewrite length_insert; lia].
  cbn [drawn_bind put_cells ld_cells ld_pen ld_stamp]. unfold placed. by rewrite (Nat.add_1_r start).
Qed.
Lemma draw_sound c w d : sound d → 0 < w ≤ MAX_GLYPH_WIDTH → ∃ d', draw c w d = Done d' ∧ sound d'.
Proof.
  intros Hs Hw. destruct (draw_done c w d Hs Hw) as (d1 & _ & Hb & E). eexists. split; [exact E|].
  pose proof (placed_sound _ c w _ d1 Hw (readied_length w d) Hb) as Hp. by eapply sound_same; [exact Hp|..].
Qed.

(** *** Erasures *)
Lemma newer_in stamp E e : newer_erasure stamp E = Some e → e ∈ E ∧ (stamp < er_stamp e)%N.
Proof.
  induction E as [|x E IH]; cbn; [done|]. destruct (N.leb_spec (er_stamp x) stamp).
  - intros [? ?]%IH. split; [by apply list_elem_of_further|done].
  - intros [= <-]. split; [apply list_elem_of_here|done].
Qed.
(** An erasure newer than a cell and reaching past it covers it. *)
Lemma covered_spec E i c : StronglySorted falls E → covered E i c = true ↔ ∃ e, e ∈ E ∧ (lc_stamp c < er_stamp e)%N ∧ i < er_extent e.
Proof.
  intros Hs. unfold covered. split.
  - destruct (newer_erasure (lc_stamp c) E) as [e|] eqn:En; [|done]. intros Hi%Nat.ltb_lt. apply newer_in in En as [? ?]. eauto.
  - induction Hs as [|x E Hs IH Hx]; intros (e & He & Hlt & Hi); [by apply elem_of_nil in He|]. cbn. destruct (N.leb_spec (er_stamp x) (lc_stamp c)).
    + apply IH. apply elem_of_cons in He as [-> | He]; [lia|]. eauto.
    + apply Nat.ltb_lt. apply elem_of_cons in He as [-> | He]; [done|]. rewrite Forall_forall in Hx. destruct (Hx e He). lia.
Qed.
Lemma covered_old d i c : sound d → lc_stamp c = ld_stamp d → covered (ld_erasures d) i c = false.
Proof. intros Hs Ec. apply not_true_iff_false. rewrite covered_spec by apply Hs. intros (e & He & Hlt & _). pose proof (so_newest _ Hs e He). lia. Qed.

(** A glyph is erased whole. *)
Lemma covered_owner d i l c k : sound d → owns (ld_cells d) i l c → ld_cells d !! i = Some k → covered (ld_erasures d) i k = covered (ld_erasures d) l c.
Proof.
  intros Hs [Hc Hi] Hk. assert (lc_stamp k = lc_stamp c) as Es.
  { destruct (decide (i = l)) as [->|]; [congruence|]. destruct (so_tiled _ Hs l c Hc) as (_ & Hf & _). destruct (Hf i ltac:(lia)) as (k' & Hk' & _ & E). congruence. }
  apply eq_true_iff_eq. rewrite !covered_spec by apply Hs. rewrite Es. split; intros (e & He & Hlt & Hx); exists e; split_and!; try done; [lia|].
  pose proof (so_split _ Hs e l c He Hc Hlt). lia.
Qed.

Lemma read_lookup d i : read_cells d !! i = (λ c, if covered (ld_erasures d) i c then blank 0 else c) <$> ld_cells d !! i.
Proof. unfold read_cells. destruct (ld_erasures d) as [|e E] eqn:Ee; [by destruct (ld_cells d !! i)|]. by rewrite list_lookup_imap. Qed.
Lemma read_length d : length (read_cells d) = length (ld_cells d).
Proof. unfold read_cells. destruct (ld_erasures d); [done|]. apply length_imap. Qed.

Lemma read_glyph d i c : read_cells d !! i = Some c → 0 < lc_width c → c = blank 0 ∨ ld_cells d !! i = Some c.
Proof. rewrite read_lookup. destruct (ld_cells d !! i) as [k|]; cbn; [|done]. destruct (covered _ i k); intros [= <-]; auto. Qed.
Lemma read_tiled d : sound d → tiled (read_cells d).
Proof.
  intros Hs i c Hc. rewrite read_lookup in Hc. destruct (ld_cells d !! i) as [k|] eqn:Ek; cbn in Hc; [|done]. destruct (covered _ i k) eqn:Eo; injection Hc as <-.
  { split_and!; cbn; [unfold MAX_GLYPH_WIDTH, TAB_STOP; lia|lia|done]. }
  destruct (so_tiled _ Hs i k Ek) as (H1 & H2 & H3). split_and!; [done| |].
  - intros j Hj. destruct (H2 j Hj) as (q & Hq & ?). exists q. split; [|done]. rewrite read_lookup, Hq. cbn.
    rewrite (covered_owner d j i k q Hs) by (done || (split; [done|lia])). by rewrite Eo.
  - intros Hz. destruct (H3 Hz) as (l & q & Hq & Hin). exists l, q. split; [|done]. rewrite read_lookup, Hq. cbn.
    rewrite <-(covered_owner d i l q k Hs) by (done || (split; [done|lia])). by rewrite Eo.
Qed.
Lemma read_bound d x : bound (ld_cells d) x → bound (read_cells d) x.
Proof. intros Hb l c Hc. rewrite read_lookup in Hc. destruct (ld_cells d !! l) as [k|] eqn:Ek; cbn in Hc; [|done]. destruct (covered _ l k); injection Hc as <-; [cbn; lia|by apply Hb]. Qed.

Lemma restamped_tiled s cells : tiled cells → tiled (restamped s <$> cells).
Proof.
  intros Ht i c. rewrite list_lookup_fmap. destruct (cells !! i) as [k|] eqn:Ek; cbn; [|done]. intros [= <-]. destruct (Ht i k Ek) as (H1 & H2 & H3). split_and!; cbn; [done| |].
  - intros j Hj. destruct (H2 j Hj) as (q & Hq & Hz & _). exists (restamped s q). rewrite list_lookup_fmap, Hq. done.
  - intros Hz. destruct (H3 Hz) as (l & q & Hq & Hin). exists l, (restamped s q). rewrite list_lookup_fmap, Hq. done.
Qed.
Lemma restamped_bound s cells x : bound cells x → bound (restamped s <$> cells) x.
Proof. intros Hb l c. rewrite list_lookup_fmap. destruct (cells !! l) as [k|] eqn:Ek; cbn; [|done]. intros [= <-]. exact (Hb l k Ek). Qed.

(** A whole line is handed out as it reads. *)
Lemma mend_tiled cells i skip : tiled cells → i + skip ≤ length cells → bound cells (i + skip) → mend skip (drop i cells) = drop i cells.
Proof.
  intros Ht. remember (length cells - i) as n eqn:En. revert i skip En. induction n as [|n IH]; intros i skip En Hl Hb.
  { by rewrite drop_ge by lia. }
  destruct (lookup_lt_is_Some_2 cells i ltac:(lia)) as [c Hc]. rewrite (drop_S _ _ _ Hc). cbn [mend]. destruct skip as [|skip].
  2: { f_equal. apply IH; [lia..|]. by replace (S i + skip) with (i + S skip) by lia. }
  rewrite Nat.add_0_r in Hb. assert (0 < lc_width c) as Hw.
  { destruct (decide (lc_width c = 0)) as [Hz|]; [|lia]. destruct (Ht i c Hc) as (_ & _ & H3). destruct (H3 Hz) as (l & k & Hk & Hin). by destruct (Hb l k Hk). }
  pose proof (tiled_end _ _ _ Ht Hc Hw) as He. rewrite (proj2 (continues_false c) Hw). cbn [negb andb].
  assert (forallb continues (take (lc_width c - 1) (drop (S i) cells)) = true) as ->.
  { apply forallb_forall. intros k (j & Hk)%list_elem_of_In%list_elem_of_lookup. apply lookup_take_Some in Hk as [Hk Hj]. rewrite lookup_drop in Hk.
    destruct (Ht i c Hc) as (_ & H2 & _). destruct (H2 (S i + j) ltac:(lia)) as (q & Hq & Hz & _). rewrite Hk in Hq. injection Hq as <-. unfold continues. by rewrite Hz. }
  rewrite (proj2 (Nat.leb_le _ _)) by (rewrite length_drop; lia). cbn [andb]. f_equal. apply IH; [lia..|].
  replace (S i + (lc_width c - 1)) with (i + lc_width c) by lia. by apply bound_end.
Qed.
Lemma snapshot_cells d : sound d → ll_cells (snapshot d) = read_cells d.
Proof. intros Hs. cbn. rewrite <-(drop_0 (read_cells d)) at 1. rewrite mend_tiled; [apply drop_0|by apply read_tiled|lia|apply bound_0]. Qed.

(** *** Applying and recording them *)
Lemma is_erased_done i c d : ld_cells d !! i = Some c → is_erased i d = Done (covered (ld_erasures d) i c).
Proof. intros Hc. unfold is_erased, cell_at. by rewrite Hc. Qed.

Lemma each_apply a n d : a + n ≤ length (ld_cells d) →
  ∃ d', each apply_erasure (seq a n) d = Done d' ∧ d' = redrawn (ld_cells d') (ld_marks d') (ld_shown_changed d) d ∧
    (∀ i, ld_cells d' !! i = (λ c, if bool_decide (a ≤ i < a + n) && covered (ld_erasures d) i c then blank 0 else c) <$> ld_cells d !! i) ∧
    (∀ i c, ld_cells d !! i = Some c → ld_marks d' !! i = if bool_decide (a ≤ i < a + n) && covered (ld_erasures d) i c then None else ld_marks d !! i) ∧
    (∀ i, length (ld_cells d) ≤ i → ld_marks d' !! i = ld_marks d !! i).
Proof.
  revert a d. induction n as [|n IH]; intros a d Hl; cbn [seq each].
  { exists d. split_and!; [done|apply redrawn_self| | |done].
    - intros i. rewrite bool_decide_eq_false_2 by lia. by destruct (ld_cells d !! i).
    - intros i c _. by rewrite bool_decide_eq_false_2 by lia. }
  destruct (lookup_lt_is_Some_2 (ld_cells d) a ltac:(lia)) as [c Hc].
  set (d1 := if covered (ld_erasures d) a c then put_marks (delete a (ld_marks d)) (put_cells (<[a := blank 0]> (ld_cells d)) d) else d).
  assert (apply_erasure a d = Done d1) as E1.
  { unfold apply_erasure, d1. rewrite (is_erased_done a c) by done. cbn [drawn_bind]. destruct (covered _ a c); [|done]. rewrite set_cell_done by lia. done. }
  assert (length (ld_cells d1) = length (ld_cells d)) as El by (unfold d1; destruct (covered _ a c); [cbn; apply length_insert|done]).
  assert (ld_erasures d1 = ld_erasures d) as Ee by (unfold d1; by destruct (covered _ a c)).
  assert (ld_shown_changed d1 = ld_shown_changed d) as Eh by (unfold d1; by destruct (covered _ a c)).
  destruct (IH (S a) d1 ltac:(lia)) as (d' & Ed & H1 & H2 & H3 & H4). exists d'. rewrite E1. cbn [drawn_bind]. rewrite Ee in *. rewrite El in H4.
  assert (∀ i, i ≠ a → ld_cells d1 !! i = ld_cells d !! i ∧ ld_marks d1 !! i = ld_marks d !! i) as Hne.
  { intros i Hi. unfold d1. destruct (covered _ a c); [|done]. cbn. by rewrite list_lookup_insert_ne, lookup_delete_ne by done. }
  split_and!; [done| | | |].
  - rewrite H1, Eh at 1. unfold d1. destruct (covered _ a c); by destruct d.
  - intros i. rewrite H2. destruct (decide (i = a)) as [->|Hi].
    + rewrite (bool_decide_eq_false_2 (S a ≤ a < S a + n)) by lia. rewrite (bool_decide_eq_true_2 (a ≤ a < a + S n)) by lia. rewrite Hc. unfold d1.
      cbn [fmap option_fmap option_map andb]. destruct (covered _ a c); cbn; [rewrite list_lookup_insert_eq by lia; done|by rewrite Hc].
    + destruct (Hne i Hi) as [-> _]. rewrite (bool_decide_ext (S a ≤ i < S a + n) (a ≤ i < a + S n)) by lia. done.
  - intros i k Hk. destruct (decide (i = a)) as [->|Hi].
    + rewrite Hc in Hk. injection Hk as <-. rewrite (bool_decide_eq_true_2 (a ≤ a < a + S n)) by lia. cbn [andb].
      destruct (lookup_lt_is_Some_2 (ld_cells d1) a ltac:(lia)) as [k1 Hk1]. rewrite (H3 a k1 Hk1). rewrite (bool_decide_eq_false_2 (S a ≤ a < S a + n)) by lia. cbn [andb].
      unfold d1. destruct (covered _ a c); [cbn; apply lookup_delete_eq|done].
    + destruct (Hne i Hi) as [E2 E3]. rewrite <-E2 in Hk. rewrite (H3 i k Hk), E3. by rewrite (bool_decide_ext (S a ≤ i < S a + n) (a ≤ i < a + S n)) by lia.
  - intros i Hi. rewrite H4 by done. apply Hne. lia.
Qed.

(** Whether a mark is on a glyph that reads as drawn. *)
Definition unerased (d : LineDrawing) (i : nat) : bool := match ld_cells d !! i with Some c => negb (covered (ld_erasures d) i c) | None => true end.

Lemma apply_erasures_done d : sound d →
  ∃ d', apply_erasures d = Done d' ∧ sound d' ∧ d' = put_erasures 0 [] (redrawn (ld_cells d') (ld_marks d') (ld_shown_changed d) d) ∧
    ld_cells d' = restamped 0 <$> read_cells d ∧ ∀ i, ld_marks d' !! i = if unerased d i then ld_marks d !! i else None.
Proof.
  intros Hs. destruct (each_apply 0 (length (ld_cells d)) d ltac:(lia)) as (d1 & E1 & H1 & H2 & H3 & H4). unfold apply_erasures. rewrite E1. cbn [drawn_bind].
  assert (ld_cells d1 = read_cells d) as Ec.
  { apply list_eq. intros i. rewrite H2, read_lookup. destruct (ld_cells d !! i) as [c|] eqn:Ei; [|done]. cbn. apply lookup_lt_Some in Ei. by rewrite bool_decide_eq_true_2 by lia. }
  assert (∀ i, ld_marks d1 !! i = if unerased d i then ld_marks d !! i else None) as Em.
  { intros i. unfold unerased. destruct (ld_cells d !! i) as [c|] eqn:Ei.
    - rewrite (H3 i c Ei). apply lookup_lt_Some in Ei. rewrite bool_decide_eq_true_2 by lia. cbn. by destruct (covered _ i c).
    - apply H4. by apply lookup_ge_None. }
  eexists. split; [done|]. rewrite Ec. split; [|split; [|split; [done|exact Em]]].
  2: { rewrite H1. by destruct d. }
  split; cbn [put_erasures put_cells ld_cells ld_stamp ld_erasures ld_marks ld_shown ld_shown_changed].
  - apply restamped_tiled, read_tiled, Hs.
  - rewrite length_fmap, read_length. apply Hs.
  - lia.
  - intros i c. rewrite list_lookup_fmap. destruct (read_cells d !! i); cbn; [|done]. intros [= <-]. done.
  - constructor.
  - by intros e ?%elem_of_nil.
  - by intros e l c ?%elem_of_nil.
  - intros i m. rewrite Em. unfold unerased. destruct (ld_cells d !! i) as [c|] eqn:Ei.
    + destruct (covered _ i c) eqn:Eo; [done|]. intros Hm. destruct (so_marks _ Hs i m Hm) as (k & Hk & Hw). rewrite list_lookup_fmap, read_lookup, Ei. cbn. rewrite Eo.
      eexists. split; [done|]. rewrite Ei in Hk. injection Hk as <-. done.
    + intros Hm. destruct (so_marks _ Hs i m Hm) as (k & Hk & Hw). congruence.
  - rewrite H1. cbn. destruct (so_shown _ Hs) as [->|Hb]; [by left|]. right. by apply restamped_bound, read_bound.
Qed.

Lemma pop_covered_in x E e : StronglySorted falls E → e ∈ pop_covered x E ↔ e ∈ E ∧ x < er_extent e.
Proof.
  intros HE. revert e. induction HE as [|y E Hs IH Hy]; intros e; [split; [by intros ?%elem_of_nil|by intros [?%elem_of_nil _]]|]. rewrite Forall_forall in Hy. cbn [pop_covered].
  destruct (pop_covered x E) as [|z kept] eqn:Ep.
  - assert (∀ e, e ∈ E → er_extent e ≤ x) as Hall by (intros e' He'; destruct (decide (x < er_extent e')); [|lia]; exfalso; apply (elem_of_nil e'); apply IH; eauto).
    destruct (Nat.leb_spec (er_extent y) x).
    + split; [by intros ?%elem_of_nil|]. intros [[-> | He]%elem_of_cons Hx]; [lia|]. specialize (Hall e He). lia.
    + split; [intros ->%list_elem_of_singleton; split; [apply list_elem_of_here|done]|]. intros [[-> | He]%elem_of_cons Hx]; [apply list_elem_of_here|]. specialize (Hall e He). lia.
  - assert (x < er_extent y) as Hxy. { assert (z ∈ E ∧ x < er_extent z) as [Hz Hxz] by (apply IH; apply list_elem_of_here). destruct (Hy z Hz). lia. }
    rewrite !elem_of_cons. specialize (IH e). rewrite elem_of_cons in IH. rewrite IH. split; [intros [-> | [? ?]]; auto|intros [[-> | ?] ?]; auto].
Qed.
Lemma pop_covered_sorted x E : StronglySorted falls E → StronglySorted falls (pop_covered x E).
Proof.
  induction 1 as [|y E Hs IH Hy]; cbn [pop_covered]; [constructor|]. destruct (pop_covered x E) as [|z kept] eqn:Ep; [destruct (_ <=? _); repeat constructor|].
  constructor; [done|]. rewrite Forall_forall in *. intros e He. apply Hy. rewrite <-Ep in He. by apply pop_covered_in in He as [? _].
Qed.
Lemma sorted_snoc E x : StronglySorted falls E → (∀ e, e ∈ E → falls e x) → StronglySorted falls (E ++ [x]).
Proof.
  induction 1 as [|y E Hs IH Hy]; cbn; intros Hx; [repeat constructor|]. constructor; [apply IH; intros e He; apply Hx; by apply list_elem_of_further|].
  apply Forall_app. split; [done|]. constructor; [apply Hx, list_elem_of_here|done].
Qed.

(** An erase to [x] recorded. *)
Definition recorded (x : nat) (d : LineDrawing) : LineDrawing :=
  put_erasures (ld_stamp d + 1) (pop_covered x (ld_erasures d) ++ [{| er_stamp := ld_stamp d + 1; er_extent := x |}]) d.

Lemma recorded_covered x d i c : sound d → (lc_stamp c ≤ ld_stamp d)%N → StronglySorted falls (ld_erasures (recorded x d)) →
  covered (ld_erasures (recorded x d)) i c = covered (ld_erasures d) i c || (i <? x).
Proof.
  intros Hs Hc Hr. apply eq_true_iff_eq. rewrite orb_true_iff, Nat.ltb_lt, !covered_spec by (done || apply Hs). cbn [recorded put_erasures ld_erasures]. split.
  - intros (e & [He | ->%list_elem_of_singleton]%elem_of_app & Hlt & Hi); [|by right]. left. apply pop_covered_in in He as [He _]; [|apply Hs]. eauto.
  - intros [(e & He & Hlt & Hi)|Hi].
    + destruct (decide (x < er_extent e)).
      * exists e. split; [|done]. apply elem_of_app. left. apply pop_covered_in; [apply Hs|done].
      * eexists. split; [apply elem_of_app; right; by apply list_elem_of_singleton|]. cbn. split; lia.
    + eexists. split; [apply elem_of_app; right; by apply list_elem_of_singleton|]. cbn. split; [lia|done].
Qed.
Lemma recorded_sound x d : sound d → bound (ld_cells d) x → (ld_stamp d < u32_max)%N → sound (recorded x d).
Proof.
  intros Hs Hb Hu. destruct Hs as [S1 S2 S3 S4 S5 S6 S7 S8 S9]. split; cbn [recorded put_erasures ld_cells ld_stamp ld_erasures ld_marks ld_shown ld_shown_changed]; try done.
  - lia.
  - intros i c Hc. specialize (S4 i c Hc). lia.
  - apply sorted_snoc; [by apply pop_covered_sorted|]. intros e He. apply pop_covered_in in He as [He Hx]; [|done]. specialize (S6 e He). split; cbn; lia.
  - intros e [He | ->%list_elem_of_singleton]%elem_of_app; [|done]. apply pop_covered_in in He as [He _]; [|done]. specialize (S6 e He). lia.
  - intros e l c [He | ->%list_elem_of_singleton]%elem_of_app Hc Hlt; [|by apply Hb]. apply pop_covered_in in He as [He _]; eauto.
Qed.

Lemma glyph_end_done extent d : tiled (ld_cells d) → extent ≤ length (ld_cells d) →
  ∃ x, glyph_end extent d = Done x ∧ extent ≤ x ≤ length (ld_cells d) ∧ bound (ld_cells d) x ∧ (extent = 0 → x = 0) ∧
    (∀ l c, 0 < extent → owns (ld_cells d) (extent - 1) l c → x = l + lc_width c).
Proof.
  intros Ht Hl. destruct extent as [|last]. { exists 0. split_and!; [done|lia..|apply bound_0|done|lia]. }
  destruct (owned (ld_cells d) last Ht ltac:(lia)) as (l & c & Ho). pose proof Ho as [Hc Hin]. pose proof (tiled_end _ _ _ Ht Hc ltac:(lia)) as He.
  exists (l + lc_width c). unfold glyph_end. rewrite (lead_of_owner _ _ _ _ Ht Ho). unfold cell_at. rewrite Hc. cbn [drawn_bind].
  destruct (Nat.ltb_spec (length (ld_cells d)) (S last)); [lia|]. split_and!; [unfold clamp; f_equal; lia|lia..|apply bound_end; [done..|lia]|lia|].
  intros l' c' _ Ho'. cbn in Ho'. rewrite Nat.sub_0_r in Ho'. by destruct (owns_unique _ _ _ _ _ _ Ht Ho Ho') as [-> ->].
Qed.

Lemma erase_to_cursor_sound d : sound d → ∃ d', erase_to_cursor d = Done d' ∧ sound d'.
Proof.
  intros Hs. unfold erase_to_cursor. destruct (glyph_end_done (min (ld_cursor d + 1) (length (ld_cells d))) d (so_tiled _ Hs) ltac:(lia)) as (x & -> & Hx & Hb & _). cbn [drawn_bind].
  destruct (x =? 0); [eauto|]. assert (sound (put_rewritten true d)) as Hr by (by eapply sound_same; [exact Hs|..]).
  assert (∃ d1, (if (ld_stamp (put_rewritten true d) =? u32_max)%N then apply_erasures (put_rewritten true d) else Done (put_rewritten true d)) = Done d1 ∧
    sound d1 ∧ (ld_stamp d1 < u32_max)%N ∧ bound (ld_cells d1) x) as (d1 & -> & H1 & H2 & H3).
  { destruct (N.eqb_spec (ld_stamp (put_rewritten true d)) u32_max) as [_|Hn].
    - destruct (apply_erasures_done _ Hr) as (d1 & E & H1 & H2 & H3 & _). exists d1. split_and!; [done..|by rewrite H2|]. rewrite H3. by apply restamped_bound, read_bound.
    - eexists. split_and!; [done..| |done]. pose proof (so_stamp _ Hs). cbn in *. lia. }
  cbn [drawn_bind]. destruct (N.eqb_spec (ld_stamp d1) u32_max); [lia|]. eexists. split; [done|]. change (put_erasures _ _ d1) with (recorded x d1).
  eapply sound_same; [by apply (recorded_sound x d1)|rewrite touch_eq; try done..]. cbn. by intros ->.
Qed.

(** ** No step panics *)
(** Changes to anything but the cells leave the line as it was. *)
Ltac keeps_sound Hs := eapply sound_same; [exact Hs|try done..].

Lemma mark_sound m d : sound d → ∃ d', mark m d = Done d' ∧ sound d'.
Proof.
  intros Hs. unfold mark. destruct (ld_cursor d) as [|column]; [eauto|].
  destruct (decide (column < length (ld_cells d))) as [Hi|Hi]; [|unfold lead_of; rewrite lead_from_out by lia; eauto].
  destruct (owned _ column (so_tiled _ Hs) Hi) as (l & c & Ho). pose proof Ho as [Hc Hin]. rewrite (lead_of_owner _ _ _ _ (so_tiled _ Hs) Ho), (is_erased_done l c) by done.
  cbn [drawn_bind]. destruct (covered _ l c); [eauto|]. eexists. split; [done|]. rewrite touch_eq. destruct Hs as [S1 S2 S3 S4 S5 S6 S7 S8 S9].
  split; cbn [put_shown put_marks ld_cells ld_stamp ld_erasures ld_marks ld_shown ld_shown_changed]; try done.
  - intros i t [[<- _]|[_ Ht]]%lookup_insert_Some; [exists c; split; [done|lia]|eauto].
  - destruct S9 as [-> | ?]; [by left|by right].
Qed.

Lemma tab_sound d : sound d → ∃ d', tab d = Done d' ∧ sound d'.
Proof.
  intros Hs. unfold tab. cbv zeta. destruct (_ <=? _).
  - apply draw_sound; [done|]. pose proof (Nat.div_mod_eq (ld_cursor d) TAB_STOP). pose proof (Nat.mod_upper_bound (ld_cursor d) TAB_STOP ltac:(done)).
    unfold MAX_GLYPH_WIDTH. unfold TAB_STOP in *. lia.
  - eexists. split; [done|]. keeps_sound Hs.
Qed.

Section steps.
Context (char_width : rchar → option nat) (is_format : rchar → bool).
(** The crate's widths are of a few columns. *)
Context (Hwidth : ∀ c w, char_width c = Some w → w ≤ MAX_GLYPH_WIDTH).
Context (to_cursor : LineDrawing → Drawn LineDrawing) (Hcursor : ∀ d, sound d → ∃ d', to_cursor d = Done d' ∧ sound d').

Lemma print_char_sound c d : sound d → ∃ d', print_char char_width c d = Done d' ∧ sound d'.
Proof.
  intros Hs. unfold print_char. destruct (char_width c) as [[|w]|] eqn:Ew; [by apply mark_sound| |eauto]. apply draw_sound; [done|]. specialize (Hwidth c _ Ew). lia.
Qed.

Lemma each_sound {A} (f : A → LineDrawing → Drawn LineDrawing) items d :
  (∀ a d, sound d → ∃ d', f a d = Done d' ∧ sound d') → sound d → ∃ d', each f items d = Done d' ∧ sound d'.
Proof.
  intros Hf. revert d. induction items as [|a items IH]; intros d Hs; cbn; [eauto|]. destruct (Hf a d Hs) as (d1 & -> & H1). cbn. by apply IH.
Qed.

(** The end of a line gone. *)
Lemma truncated_sound at_ d : sound d → bound (ld_cells d) at_ → ∀ marks, (∀ i, at_ ≤ i → marks !! i = None) → (∀ i m, marks !! i = Some m → ld_marks d !! i = Some m) →
  sound (touch at_ (put_marks marks (put_cells (take at_ (ld_cells d)) d))).
Proof.
  intros [S1 S2 S3 S4 S5 S6 S7 S8 S9] Hb marks Hm1 Hm2. rewrite touch_eq.
  split; cbn [put_shown put_marks put_cells ld_cells ld_stamp ld_erasures ld_marks ld_shown ld_shown_changed]; try done.
  - intros i c [Hc Hi]%lookup_take_Some. destruct (S1 i c Hc) as (H1 & H2 & H3). split_and!; [done| |].
    + intros j Hj. destruct (H2 j Hj) as (k & Hk & Hz). exists k. split; [|done]. apply lookup_take_Some. split; [done|]. specialize (Hb i c Hc). lia.
    + intros Hz. destruct (H3 Hz) as (l & k & Hk & Hin). exists l, k. split; [|done]. apply lookup_take_Some. split; [done|lia].
  - rewrite length_take. lia.
  - intros i c [Hc _]%lookup_take_Some. eauto.
  - intros e l c He [Hc _]%lookup_take_Some. eauto.
  - intros i m Hm. destruct (S8 i m (Hm2 i m Hm)) as (c & Hc & Hw). exists c. split; [|done]. apply lookup_take_Some. split; [done|].
    destruct (decide (at_ ≤ i)) as [Hge|]; [rewrite Hm1 in Hm by done; done|lia].
  - destruct S9 as [-> | Hs]; [by left|]. right. intros l c [Hc _]%lookup_take_Some. by apply Hs.
Qed.

Lemma broken_bound_at column l c d : tiled (ld_cells d) → owns (ld_cells d) column l c → bound (ld_cells (broken l c d)) column.
Proof.
  intros Ht Ho m k Hk Hin. pose proof Ho as [Hc Hcin]. pose proof (tiled_end _ _ _ Ht Hc ltac:(lia)) as He. rewrite broken_cells in Hk by done.
  destruct (decide _) as [|Hn]; [injection Hk as <-; cbn in Hin; lia|]. destruct (owns_unique _ column l c m k Ht Ho) as [<- <-]; [split; [done|lia]|]. lia.
Qed.

Lemma erase_sound mode d : sound d → ∃ d', erase to_cursor mode d = Done d' ∧ sound d'.
Proof.
  intros Hs. unfold erase. destruct (mode =? ERASE_TO_END)%N; [|destruct (mode =? ERASE_TO_CURSOR)%N; [by apply Hcursor|destruct (mode =? ERASE_LINE)%N; [|eauto]]].
  - cbv zeta. set (at_ := min (ld_cursor d) (length (ld_cells d))). destruct (Nat.ltb_spec at_ (length (ld_cells d))); [|eauto].
    assert (sound (put_rewritten true d)) as Hr by keeps_sound Hs. destruct (owned (ld_cells d) at_ (so_tiled _ Hs) ltac:(lia)) as (l & c & Ho).
    rewrite (break_glyph_done at_ (put_rewritten true d) l c) by (done || apply Hs). cbn [drawn_bind]. eexists. split; [done|]. pose proof Ho as [Hc Hin].
    apply truncated_sound; [apply broken_sound; [done..|lia]|by apply broken_bound_at; [apply Hs|]| |].
    + intros i Hi. apply map_lookup_filter_None. right. intros m _. cbn. lia.
    + by intros i m [? _]%map_lookup_filter_Some.
  - eexists. split; [done|]. apply sound_empty; rewrite touch_eq; try done. apply Hs.
Qed.

Lemma steer_sound params action d : sound d → ∃ d', steer to_cursor params action d = Done d' ∧ sound d'.
Proof.
  intros Hs. unfold steer. cbv zeta. repeat match goal with |- ∃ d', (if ?b then _ else _) = _ ∧ _ => destruct b end.
  all: try (by apply erase_sound). all: eexists; (split; [done|]); unfold save, restore, move_to_column, forward; repeat case_match; by keeps_sound Hs.
Qed.

Lemma print_sound c d : sound d → ∃ d', print char_width is_format c d = Done d' ∧ sound d'.
Proof.
  intros Hs. unfold print. repeat match goal with |- ∃ d', (if ?b then _ else _) = _ ∧ _ => destruct b end; eauto using print_char_sound.
  - apply draw_sound; [done|]. unfold MAX_GLYPH_WIDTH, TAB_STOP. lia.
  - apply each_sound; [|done]. intros. by apply print_char_sound.
Qed.

Lemma end_line_sound d : sound (end_line d).
Proof. by apply sound_empty. Qed.

Lemma perform_sound call d : sound d → ∃ d', perform char_width is_format to_cursor call d = Done d' ∧ sound d'.
Proof.
  intros Hs. destruct call as [c|byte| |byte| | |params intermediates ignore action|intermediates ignore byte]; cbn [perform]; [by apply print_sound| | | | | | |].
  2-5: eexists; (split; [done|]); by keeps_sound Hs.
  - unfold execute. repeat match goal with |- ∃ d', (if ?b then _ else _) = _ ∧ _ => destruct b end.
    { eexists. split; [done|]. apply end_line_sound. }
    all: try (by apply tab_sound). all: eexists; (split; [done|]); by keeps_sound Hs.
  - unfold csi_dispatch. cbv zeta. repeat match goal with |- ∃ d', (if ?b then _ else _) = _ ∧ _ => destruct b end.
    4: { apply steer_sound. keeps_sound Hs. }
    all: eexists; (split; [done|]); unfold push_pen_of, pop_pen; repeat case_match; by keeps_sound Hs.
  - unfold esc_dispatch. cbv zeta. repeat match goal with |- ∃ d', (if ?b then _ else _) = _ ∧ _ => destruct b end.
    4: { eexists. split; [done|]. by apply sound_empty. }
    all: eexists; (split; [done|]); unfold save, restore; repeat case_match; by keeps_sound Hs.
Qed.
End steps.

(** ** Lines handed out before they end *)
Lemma last_shown_in marks k cells i w : last_shown marks k cells = Some (i, w) → ∃ c, k ≤ i ∧ cells !! (i - k) = Some c ∧ w = lc_width c ∧ shows marks i c = true.
Proof.
  revert k. induction cells as [|c cells IH]; intros k; cbn; [done|]. destruct (last_shown marks (S k) cells) as [[i' w']|] eqn:El.
  - intros [= -> ->]. destruct (IH _ El) as (c' & Hk & Hc & Hrest). exists c'. split_and!; [lia| |apply Hrest..]. by replace (i - k) with (S (i - S k)) by lia.
  - destruct (shows marks k c) eqn:Es; [|done]. intros [= <- <-]. exists c. rewrite Nat.sub_diag. by split_and!.
Qed.

(** What is shown of a line ends with a glyph drawn on it. *)
Lemma shown_end_bound d : sound d → bound (ld_cells d) (shown_end (snapshot d)).
Proof.
  intros Hs. unfold shown_end. destruct (last_shown _ 0 _) as [[i w]|] eqn:El; [|apply bound_0]. apply last_shown_in in El as (c & _ & Hc & -> & Hsh).
  rewrite Nat.sub_0_r, (snapshot_cells d Hs) in Hc. rewrite (snapshot_cells d Hs), read_length.
  unfold shows in Hsh. apply andb_true_iff in Hsh as [Hw Hsh]. apply negb_true_iff, continues_false in Hw.
  assert (ld_cells d !! i = Some c) as Hraw.
  { pose proof Hc as Hr. rewrite read_lookup in Hr. destruct (ld_cells d !! i) as [k|] eqn:Ek; [|done]. cbn in Hr. destruct (covered _ i k); [|done]. injection Hr as <-. cbn in Hsh.
    destruct (filter _ (ld_marks d) !! i) as [m|] eqn:Em; [|done]. apply map_lookup_filter_Some in Em as [_ Em]. cbn [fst] in Em.
    change (mend 0 (read_cells d)) with (ll_cells (snapshot d)) in Em. rewrite (snapshot_cells d Hs) in Em. congruence. }
  pose proof (tiled_end _ _ _ (so_tiled _ Hs) Hraw Hw). rewrite Nat.min_l by done. by apply bound_end; [apply Hs|..].
Qed.
Lemma take_partial_sound d : sound d → sound (take_partial d).2.
Proof.
  intros Hs. pose proof (shown_end_bound d Hs) as Hb. unfold take_partial. cbv zeta. destruct (_ <=? _); [done|]. destruct Hs as [S1 S2 S3 S4 S5 S6 S7 S8 S9].
  split; cbn [snd put_shown ld_cells ld_stamp ld_erasures ld_marks ld_shown ld_shown_changed]; try done. by right.
Qed.
