(* ===== verification/LogText.v ===== *)
(** * What a rendered log can hold

    No step of a rendering panics, so no line is ever dropped; a line being drawn
    is bounded; and nothing that could steer the terminal it is shown on, but the
    colours put around it, is on a line handed out
    (muster-terminal/src/log_renderer.rs, line_drawing.rs, log_line.rs). *)
From S2P Require Import Prelude RustText Values Tap LogFile LogSpan Terminal Screen Emulator TermScan Pen Drawing Drawn.

#[local] Opaque MAX_LINE_CELLS MAX_COLUMN MAX_RISE.

(** ** What lands on a line *)
Section lands.
Context (P : rchar → Prop) (Hblank : P BLANK) (Htab : P TAB).

Definition cells_hold (cells : list LineCell) : Prop := Forall (λ c, P (lc_character c)) cells.
Definition marks_hold (marks : gmap nat rstr) : Prop := map_Forall (λ _ m, Forall P m) marks.
Definition line_holds (l : LogLine) : Prop := cells_hold (ll_cells l) ∧ marks_hold (ll_marks l).
Definition holds (d : LineDrawing) : Prop := cells_hold (ld_cells d) ∧ marks_hold (ld_marks d) ∧ Forall line_holds (ld_finished d).
Definition keeps (f : LineDrawing → Drawn LineDrawing) : Prop := ∀ d d', holds d → f d = Done d' → holds d'.

Lemma holds_same d d' : holds d → ld_cells d' = ld_cells d → ld_marks d' = ld_marks d → ld_finished d' = ld_finished d → holds d'.
Proof. intros (H1 & H2 & H3) E1 E2 E3. unfold holds. by rewrite E1, E2, E3. Qed.
Lemma holds_empty d : ld_cells d = [] → ld_marks d = ∅ → Forall line_holds (ld_finished d) → holds d.
Proof. intros E1 E2 H. unfold holds. rewrite E1, E2. split_and!; [constructor|by intros ? ? ?|done]. Qed.
Lemma touch_holds i d : holds d → holds (touch i d).
Proof. intros H. rewrite touch_eq. by apply (holds_same d). Qed.

Lemma bind_keeps {A} (m : Drawn A) (f : A → Drawn LineDrawing) d' : drawn_bind m f = Done d' → ∃ a, m = Done a ∧ f a = Done d'.
Proof. destruct m as [a|]; cbn; [eauto|done]. Qed.
Lemma each_keeps {A} (f : A → LineDrawing → Drawn LineDrawing) items : (∀ a, a ∈ items → keeps (f a)) → keeps (each f items).
Proof.
  induction items as [|a items IH]; intros Hf d d' Hd; cbn; [by intros [= <-]|]. intros (d1 & E1 & E)%bind_keeps.
  apply (IH (λ b Hb, Hf b (list_elem_of_further _ _ _ Hb)) d1); [|done]. by apply (Hf a (list_elem_of_here _ _) d).
Qed.

Lemma set_cell_keeps i (v : LineDrawing → LineCell) : (∀ d, P (lc_character (v d))) → keeps (λ d, set_cell i (v d) d).
Proof. intros Hv d d' (H1 & H2 & H3). unfold set_cell. destruct (_ <? _); [|done]. intros [= <-]. split_and!; [|done..]. cbn. by apply Forall_insert. Qed.
Lemma delete_holds i d : holds d → holds (put_marks (delete i (ld_marks d)) d).
Proof. intros (H1 & H2 & H3). split_and!; [done| |done]. cbn. by apply map_Forall_delete. Qed.

Lemma break_keeps column : keeps (break_glyph column).
Proof.
  intros d d' Hd. unfold break_glyph. destruct (_ <=? _); [by intros [= <-]|]. destruct (lead_of column d) as [lead|].
  2: { by apply (set_cell_keeps column (λ d, blank (ld_stamp d)) (λ _, Hblank)). }
  cbv zeta. intros (c & _ & E)%bind_keeps. destruct (lc_width c <=? 1); [injection E as <-; by apply delete_holds|].
  apply bind_keeps in E as (d1 & E & [= <-]). apply touch_holds. eapply each_keeps; [|by apply (delete_holds lead)|exact E].
  intros i _. by apply (set_cell_keeps i (λ d, blank (ld_stamp d))).
Qed.

(** *** Lines handed out *)
Lemma mend_holds skip cells : cells_hold cells → cells_hold (mend skip cells).
Proof.
  intros Hc. revert skip. induction Hc as [|c cells Hx Hc IH]; intros skip; cbn [mend]; [constructor|]. destruct skip; [|constructor; [done|apply IH]].
  cbv zeta. destruct (_ && _ && _); (constructor; [done|apply IH]).
Qed.
Lemma read_holds d : cells_hold (ld_cells d) → cells_hold (read_cells d).
Proof.
  intros Hc. apply Forall_lookup. intros i c. rewrite read_lookup. destruct (ld_cells d !! i) as [k|] eqn:Ek; cbn; [|done].
  intros [= <-]. destruct (covered _ i k); [done|]. by apply (Forall_lookup_1 _ _ i k) in Hc.
Qed.
Lemma snapshot_holds d : holds d → line_holds (snapshot d).
Proof. intros (H1 & H2 & _). split; [by apply mend_holds, read_holds|]. cbn. intros i m [Hm _]%map_lookup_filter_Some. by apply (H2 i). Qed.
Lemma slice_holds l from stop : line_holds l → line_holds (slice l from stop).
Proof.
  intros [H1 H2]. split; cbn; [by apply Forall_take, Forall_drop|]. intros i m Hm. apply elem_of_list_to_map_2 in Hm.
  apply list_elem_of_fmap in Hm as ([j t] & [= -> ->] & [_ Hj%elem_of_map_to_list]%list_elem_of_filter). by apply (H2 j).
Qed.
Lemma close_holds fed d : holds d → holds (close_line fed d).
Proof.
  intros Hd. pose proof (snapshot_holds d Hd) as Hs. apply holds_empty; [done..|]. unfold close_line. cbn [clear_line put_finished put_shown put_rewritten put_steered put_cursor put_erasures put_marks put_cells ld_finished].
  apply Forall_app. split; [apply Hd|]. unfold left_to_show. cbv zeta. repeat case_match; cbn [option_list]; repeat constructor; by apply slice_holds || apply Hs.
Qed.

Lemma draw_keeps c w : P c → keeps (draw c w).
Proof.
  intros Hc d d' Hd. unfold draw. cbv zeta. set (d0 := if _ <? _ then cut d else d). assert (holds d0) as H0 by (unfold d0; destruct (_ <? _); [by apply close_holds|done]).
  set (d1 := pad_to _ _). assert (holds d1) as H1.
  { destruct H0 as (A & B & C). split_and!; [|exact B|exact C]. cbn. apply Forall_app. split; [exact A|]. by apply Forall_replicate. }
  intros (d2 & E2 & E)%bind_keeps. pose proof (each_keeps break_glyph _ (λ i _, break_keeps i) d1 d2 H1 E2) as H2. apply bind_keeps in E as (d3 & E3 & E).
  assert (holds d3) as H3 by (by apply (set_cell_keeps (ld_cursor d0) (λ d, {| lc_character := c; lc_pen := ld_pen d; lc_width := min w 255; lc_stamp := ld_stamp d |}) (λ _, Hc) d2)).
  apply bind_keeps in E as (d4 & E4 & [= <-]). apply (holds_same (touch (ld_cursor d0) d4)); [|done..]. apply touch_holds.
  refine (each_keeps (λ column d, set_cell column (continuation (ld_pen d) (ld_stamp d)) d) _ _ d3 d4 H3 E4).
  intros i _. by apply (set_cell_keeps i (λ d, continuation (ld_pen d) (ld_stamp d))).
Qed.
Lemma mark_keeps m : P m → keeps (mark m).
Proof.
  intros Hm d d' Hd. unfold mark. destruct (ld_cursor d); [by intros [= <-]|]. destruct (lead_of _ d) as [lead|]; [|by intros [= <-]].
  intros (erased & _ & E)%bind_keeps. destruct erased; injection E as <-; [done|]. apply touch_holds. destruct Hd as (H1 & H2 & H3). split_and!; [done| |done].
  cbn. apply map_Forall_insert_2; [|done]. assert (Forall P (default [] (ld_marks d !! lead))) by (destruct (ld_marks d !! lead) as [t|] eqn:Et; [by apply (H2 lead)|constructor]).
  destruct (_ <=? _)%N; [apply Forall_app; split; [done|by constructor]|done].
Qed.

Ltac leaves := repeat match goal with |- (if ?b then _ else _) = _ → _ => destruct b end.

Lemma apply_erasures_keeps : keeps apply_erasures.
Proof.
  assert (∀ i, keeps (apply_erasure i)) as Hi.
  { intros i a a' Ha (erased & _ & E)%bind_keeps. destruct erased; [|by injection E as <-]. apply bind_keeps in E as (b & E & [= <-]).
    apply delete_holds. by apply (set_cell_keeps i (λ _, blank 0) (λ _, Hblank) a). }
  intros d d' Hd (d1 & E1 & [= <-])%bind_keeps. destruct (each_keeps apply_erasure _ (λ i _, Hi i) d d1 Hd E1) as (H1 & H2 & H3).
  split_and!; [|done..]. cbn. apply Forall_fmap. exact H1.
Qed.
Lemma erase_to_cursor_keeps : keeps erase_to_cursor.
Proof.
  intros d d' Hd (x & _ & E)%bind_keeps. destruct (x =? 0); [by injection E as <-|]. cbv zeta in E. apply bind_keeps in E as (d1 & E1 & E).
  assert (holds d1) as H1. { assert (holds (put_rewritten true d)) as Hr by (by apply (holds_same d)). destruct (_ =? _)%N; [by apply (apply_erasures_keeps _ _ Hr)|by injection E1 as <-]. }
  destruct (ld_stamp d1 =? u32_max)%N; [done|]. injection E as <-. apply touch_holds. by apply (holds_same d1).
Qed.

Section steps.
Context (char_width : rchar → option nat) (is_format : rchar → bool).
Context (Hplain : ∀ c, steers_the_terminal is_format c = false → P c) (Hascii : ∀ c, (32 <= c <= 126)%N → P c).

Lemma print_char_keeps c : P c → keeps (print_char char_width c).
Proof. intros Hc d d' Hd. unfold print_char. destruct (char_width c) as [[|w]|]; [by apply mark_keeps|by apply draw_keeps|by intros [= <-]]. Qed.

Lemma erase_keeps mode : keeps (erase erase_to_cursor mode).
Proof.
  intros d d' Hd. unfold erase. cbv zeta. leaves; [|by intros [= <-]|by apply erase_to_cursor_keeps| |by intros [= <-]].
  - intros (d1 & E1 & [= <-])%bind_keeps. assert (holds (put_rewritten true d)) as Hr by (by apply (holds_same d)).
    destruct (break_keeps _ _ _ Hr E1) as (H1 & H2 & H3). apply touch_holds.
    split_and!; [by apply Forall_take| |done]. cbn. intros i m [Hm _]%map_lookup_filter_Some. by apply (H2 i).
  - intros [= <-]. apply touch_holds. apply holds_empty; [done..|]. apply Hd.
Qed.
Lemma steer_keeps params action : keeps (steer erase_to_cursor params action).
Proof.
  intros d d' Hd. unfold steer. cbv zeta. leaves. all: try (by apply erase_keeps).
  all: intros [= <-]; unfold save, restore, move_to_column, forward; repeat case_match; by apply (holds_same d).
Qed.
Lemma print_keeps c : keeps (print char_width is_format c).
Proof.
  intros d d' Hd. unfold print. destruct (on_line d); [|by intros [= <-]]. cbn [negb]. destruct (c <? 128)%N eqn:Ea.
  - destruct (is_control c) eqn:Ec; [by intros [= <-]|]. apply draw_keeps; [|done]. apply Hascii. apply N.ltb_lt in Ea. unfold is_control in Ec.
    destruct (N.leb_spec c 31); [done|]. destruct (N.leb_spec 127 c), (N.leb_spec c 159); cbn in Ec; lia || done.
  - destruct (is_control c); [by intros [= <-]|]. destruct (steers_the_terminal is_format c) eqn:Es; [|by apply print_char_keeps; [apply Hplain|]].
    apply each_keeps; [|done]. intros k Hk. apply print_char_keeps, Hascii. pose proof (escape_default_ascii c) as He. rewrite Forall_forall in He. by apply He.
Qed.
Lemma end_line_holds d : holds d → holds (end_line d).
Proof. intros Hd. apply (holds_same (close_line true d)); [by apply close_holds|done..]. Qed.

Lemma perform_keeps call : keeps (perform char_width is_format erase_to_cursor call).
Proof.
  intros d d' Hd. destruct call as [c|byte| |byte| | |params intermediates ignore action|intermediates ignore byte]; cbn [perform]; [by apply print_keeps| | | | | | |].
  2-5: intros [= <-]; by apply (holds_same d).
  - unfold execute. leaves; [intros [= <-]; by apply end_line_holds|..]; try (intros [= <-]; by apply (holds_same d)).
    unfold tab. cbv zeta. leaves; [by apply draw_keeps|intros [= <-]; by apply (holds_same d)].
  - unfold csi_dispatch. cbv zeta. leaves. 4: { apply steer_keeps. by apply (holds_same d). }
    all: intros [= <-]; unfold push_pen_of, pop_pen; repeat case_match; by apply (holds_same d).
  - unfold esc_dispatch. cbv zeta. leaves. 4: { intros [= <-]. apply holds_empty; [done..|]. apply Hd. }
    all: intros [= <-]; unfold save, restore; repeat case_match; by apply (holds_same d).
Qed.
End steps.

(** *** Its text *)
Lemma glyph_holds l it : line_holds l → it ∈ glyphs l → Forall P (push_glyph l it).
Proof.
  intros [H1 H2] Hin. unfold glyphs in Hin. apply list_elem_of_filter in Hin as [_ Hin]. apply elem_of_lookup_imap in Hin as (i & c & -> & Hc%lookup_take_Some).
  constructor; [by apply (Forall_lookup_1 _ _ i c) in H1; [|apply Hc]|]. cbn [fst]. destruct (ll_marks l !! i) as [m|] eqn:Em; [by apply (H2 i)|constructor].
Qed.
Lemma plain_holds l : line_holds l → Forall P (plain l).
Proof. intros Hl. unfold plain. apply Forall_concat, Forall_fmap, Forall_forall. intros it Hin. by apply glyph_holds. Qed.
End lands.

(** ** Colours *)
(** A text without its SGR sequences: from each escape to the next final. *)
Fixpoint uncolored (inside : bool) (s : rstr) : rstr :=
  match s with
  | [] => []
  | c :: s => if inside then uncolored (negb (c =? SGR_FINAL)%N) s else if (c =? ESC)%N then uncolored true s else c :: uncolored false s
  end.
(** What follows a text reads the same. *)
Definition ended (text : rstr) : Prop := ∀ rest, uncolored false (text ++ rest) = uncolored false text ++ uncolored false rest.

Lemma ended_app a b : ended a → ended b → ended (a ++ b).
Proof. intros Ha Hb rest. by rewrite <-app_assoc, !Ha, Hb, app_assoc. Qed.
Lemma plain_ended text : Forall (λ c, c ≠ ESC) text → ended text ∧ uncolored false text = text.
Proof.
  intros Ht. assert (∀ rest, uncolored false (text ++ rest) = text ++ uncolored false rest) as E.
  { intros rest. induction Ht as [|c text Hc Ht IH]; [done|]. cbn. by rewrite (proj2 (N.eqb_neq c ESC)), IH by done. }
  assert (uncolored false text = text) as E0 by (specialize (E []); by rewrite !app_nil_r in E). split; [|done]. intros rest. by rewrite E, E0.
Qed.
Lemma sequence_ended params : Forall (λ c, c ≠ SGR_FINAL) params → ended (CSI ++ params ++ [SGR_FINAL]) ∧ uncolored false (CSI ++ params ++ [SGR_FINAL]) = [].
Proof.
  intros Hp. assert (∀ rest, uncolored true (params ++ SGR_FINAL :: rest) = uncolored false rest) as E.
  { intros rest. induction Hp as [|c params Hc Hp IH]; [done|]. cbn [app uncolored]. by rewrite (proj2 (N.eqb_neq c SGR_FINAL)) by done. }
  assert (∀ rest, uncolored false ((CSI ++ params ++ [SGR_FINAL]) ++ rest) = uncolored false rest) as E'.
  { intros rest. rewrite <-!app_assoc. exact (E rest). }
  assert (uncolored false (CSI ++ params ++ [SGR_FINAL]) = []) as E0 by (pose proof (E' []) as En; by rewrite app_nil_r in En).
  split; [|done]. intros rest. by rewrite E', E0.
Qed.

(** A parameter is of digits and separators. *)
Definition of_params (c : rchar) : Prop := is_ascii_digit c = true ∨ c = PARAM_SEPARATOR ∨ c = SUBPARAM_SEPARATOR.
Lemma of_params_final c : of_params c → c ≠ SGR_FINAL.
Proof. intros [H|[-> | ->]] E; [by subst|done|done]. Qed.
Lemma digits_of_params n : Forall of_params (print_dec n).
Proof. eapply Forall_impl; [apply print_dec_digits|]. intros c Hc. by left. Qed.
Lemma color_of_params e c : Forall of_params (color_text e c).
Proof. assert (Forall of_params [PARAM_SEPARATOR]) as Hsep by (constructor; [right; by left|done]). destruct c; unfold color_text; repeat (apply Forall_app; split); auto using digits_of_params. Qed.
Lemma pen_of_params p : Forall of_params (pen_params p).
Proof.
  unfold pen_params. cbv zeta. set (texts := _ ++ _). assert (Forall (Forall of_params) texts) as Ht.
  { unfold texts. apply Forall_app. split.
    - apply Forall_concat, Forall_fmap, Forall_forall. intros it _. unfold compose, attribute_texts. apply Forall_app.
      split; (destruct (_ : bool); [constructor; [|done]|done]); [|apply digits_of_params]. unfold underline_text.
      destruct (_ =? _)%N; repeat (apply Forall_app; split); try apply digits_of_params. constructor; [right; by right|done].
    - unfold color_texts. apply Forall_forall. intros t. intros ([e o] & _ & Ho)%list_elem_of_omap. cbn in Ho. destruct o as [c|]; [|done]. injection Ho as <-. apply color_of_params. }
  apply Forall_concat, Forall_lookup. intros i t. rewrite list_lookup_imap. destruct (texts !! i) as [u|] eqn:Eu; cbn; [|done]. intros [= <-].
  apply Forall_app. split; [destruct (i =? 0); [done|constructor; [right; by left|done]]|]. by apply (Forall_lookup_1 _ _ i u) in Ht.
Qed.

Lemma reset_ended : ended SGR_RESET ∧ uncolored false SGR_RESET = [].
Proof. apply (sequence_ended [48%N]). by constructor. Qed.
Lemma pen_ended p : ended (CSI ++ pen_params p ++ [SGR_FINAL]) ∧ uncolored false (CSI ++ pen_params p ++ [SGR_FINAL]) = [].
Proof. apply sequence_ended. eapply Forall_impl; [apply pen_of_params|]. apply of_params_final. Qed.

(** Nothing but colours is added to a line's text. *)
Lemma colored_plain l : (∀ it, it ∈ glyphs l → Forall (λ c, c ≠ ESC) (push_glyph l it)) → uncolored false (colored l) = plain l.
Proof.
  unfold colored, plain. intros Hg. assert (∀ gs text current, (∀ it, it ∈ gs → Forall (λ c, c ≠ ESC) (push_glyph l it)) → ended text →
    ended (foldl (color_glyph l) (text, current) gs).1 ∧
    uncolored false (foldl (color_glyph l) (text, current) gs).1 = uncolored false text ++ concat (push_glyph l <$> gs)) as Hgen.
  { clear Hg. induction gs as [|it gs IH]; intros text current Hg He; cbn [foldl fmap list_fmap concat]; [by rewrite app_nil_r|]. unfold color_glyph at 2 4. cbv zeta.
    set (change := if bool_decide _ then _ else _). assert (ended change ∧ uncolored false change = []) as [Hc Ec].
    { unfold change. destruct (bool_decide _); [done|]. destruct (is_plain current), (is_plain (lc_pen it.2)); cbn [app]; [done|apply pen_ended| |].
      - rewrite app_nil_r. apply reset_ended.
      - destruct reset_ended as [H1 E1], (pen_ended (lc_pen it.2)) as [H2 E2]. split; [by apply ended_app|]. by rewrite H1, E1, E2. }
    destruct (plain_ended (push_glyph l it) (Hg it (list_elem_of_here _ _))) as [Hp Ep].
    destruct (IH (text ++ change ++ push_glyph l it) (lc_pen it.2)) as [H1 H2]; [intros k Hk; apply Hg; by apply list_elem_of_further|by repeat apply ended_app|].
    split; [done|]. rewrite H2, He, Hc, Ec, Ep. cbn [app]. by rewrite <-app_assoc. }
  destruct (Hgen (glyphs l) [] pen_default Hg) as [H1 H2]; [done|]. destruct (foldl _ _ _) as [text current]. cbn [fst] in *.
  rewrite H1, H2. destruct (is_plain current); [by rewrite app_nil_r|]. destruct reset_ended as [_ ->]. by rewrite app_nil_r.
Qed.

(** ** The renderer *)
Section renderer.
Context `{VtParser} (char_width : rchar → option nat) (is_format : rchar → bool).
Context (Hwidth : ∀ c w, char_width c = Some w → w ≤ MAX_GLYPH_WIDTH) (Hformat : ∀ c, (c < 128)%N → is_format c = false).

(** A renderer at any point of a stream read in any pieces. *)
Inductive rendered : LogRenderer → Prop :=
| rendered_new : rendered renderer_new
| rendered_advance bytes r : rendered r → rendered (renderer_advance char_width is_format bytes r)
| rendered_take r : rendered r → rendered (renderer_take_lines r).2
| rendered_partial r : rendered r → rendered (renderer_take_partial r).2
| rendered_finish r : rendered r → rendered (renderer_finish r)
| rendered_restart r : rendered r → rendered (renderer_restart r)
| rendered_faults r : rendered r → rendered (renderer_take_faults r).2.

Definition harmless (c : rchar) : Prop := steers_the_terminal is_format c = false.

Lemma ascii_harmless c : (32 <= c <= 126)%N → harmless c.
Proof. intros Hc. apply steers_ascii; [|done]. intros k Hk. apply Hformat. lia. Qed.
Lemma tab_harmless : harmless TAB.
Proof. unfold harmless, steers_the_terminal. by rewrite (Hformat TAB). Qed.
Lemma harmless_escape c : harmless c → c ≠ ESC.
Proof. by intros Hc ->. Qed.

Definition intact (r : LogRenderer) : Prop :=
  sound (lr_drawing r) ∧ holds harmless (lr_drawing r) ∧ lr_broken r = false ∧ lr_faults r = 0%N.

Lemma intact_contained {A} (step : BoundedParser → LineDrawing → Drawn (A * BoundedParser * LineDrawing)) r :
  intact r → (∀ p d, sound d → holds harmless d → ∃ a p' d', step p d = Done (a, p', d') ∧ sound d' ∧ holds harmless d') → intact (contained step r).2.
Proof.
  intros (H1 & H2 & H3 & H4) Hstep. unfold contained. rewrite H3. destruct (Hstep (lr_parser r) (lr_drawing r) H1 H2) as (a & p & d & -> & ? & ?). by split_and!.
Qed.

Lemma rendered_intact r : rendered r → intact r.
Proof.
  assert (harmless BLANK) as Hb by (apply ascii_harmless; unfold BLANK; lia).
  induction 1 as [|bytes r _ IH|r _ IH|r _ IH|r _ IH|r _ IH|r _ IH].
  - split_and!; [apply sound_default|by apply holds_empty|done..].
  - unfold renderer_advance. revert r IH. induction (split_inclusive bytes) as [|line lines IHl]; intros r Hr; cbn [foldl]; [done|]. apply IHl. apply intact_contained; [done|].
    intros p d Hs Hd. unfold advance_line. destruct (advance line p) as [calls p'].
    destruct (each_sound (perform char_width is_format erase_to_cursor) calls d) as (d' & E & Hs'); [|done|].
    { intros call a Ha. apply perform_sound; auto using erase_to_cursor_sound. }
    rewrite E. cbn [drawn_bind]. exists tt, p', d'. split_and!; [done..|]. refine (each_keeps harmless _ _ _ d d' Hd E).
    intros call _. apply perform_keeps; auto using tab_harmless, ascii_harmless.
  - destruct IH as (H1 & (H2 & H2' & _) & H3 & H4). split_and!; [by eapply sound_same; [exact H1|..]|by split_and!; [..|constructor]|done..].
  - unfold renderer_take_partial. match goal with |- intact (let '(_, _) := contained ?s r in _).2 => pose proof (intact_contained s r IH) as Hc; destruct (contained s r) as [line r'] end.
    apply Hc. intros p d Hs Hd. pose proof (take_partial_sound d Hs) as Hp. assert (holds harmless (take_partial d).2) as Hd' by (unfold take_partial; cbv zeta; destruct (_ <=? _); [done|by apply (holds_same _ d)]).
    destruct (take_partial d) as [l d']. by exists l, p, d'.
  - unfold renderer_finish. apply intact_contained; [done|]. intros p d Hs Hd. exists tt, p, (finish d). split_and!; [done|apply close_sound|by apply close_holds].
  - assert (intact (renderer_finish r)) as (H1 & H2 & H3 & H4).
    { apply intact_contained; [done|]. intros p d Hs Hd. exists tt, p, (finish d). split_and!; [done|apply close_sound|by apply close_holds]. }
    split_and!; [by apply sound_empty|apply holds_empty; [done..|apply H2]|done..].
  - by destruct IH as (H1 & H2 & H3 & H4).
Qed.

End renderer.

Module TextWitness.
(** That parser, telling control characters from the rest. *)
#[local] Instance control_vt : VtParser := {|
  vt := list N; vt_new := [];
  vt_advance := λ bytes p,
    let '(calls, p) := TermScan.TermWitness.small_parse bytes p in
    ((λ call, match call with DPrint b => if (b <? 32)%N then DExecute b else call | _ => call end) <$> calls, p);
|}.
Definition widths (c : rchar) : option nat := if (c =? 769)%N then Some 0 else Some 1.
Definition formats (c : rchar) : bool := (c =? 8238)%N.
(** A coloured word drawn over, with a format character and an escape in it. *)
Definition output : list N := lit "plain" ++ [27; 91; 51; 49; 109; 8238; 7; 27; 55; 120; 10; 121]%N.
Definition at_work : LogRenderer := renderer_advance widths formats output renderer_new.

End TextWitness.
