(* ===== verification/EraseLater.v ===== *)
(** * An erase recorded is an erase

    The code does not write an erase to the cursor into the cells it covers: it
    records how far it reached, and the cells are read against the record when a
    line is handed out (muster-terminal/src/line_drawing.rs). Beside it stands
    the line that blanks the cells at once, [erase_at_once]; [eager] is what of a
    drawing that line would be, and every step of the code commutes with it. *)
From S2P Require Import Prelude RustText Values Tap LogFile LogSpan Terminal Screen Emulator TermScan Pen Drawing Drawn.

#[local] Opaque MAX_LINE_CELLS MAX_COLUMN MAX_RISE.

Definition erase_at_once (d : LineDrawing) : Drawn LineDrawing :=
  let! extent := glyph_end (min (ld_cursor d + 1) (length (ld_cells d))) d in
  if extent =? 0 then Done d else
  Done (touch 0 (put_marks (filter (λ it, extent <= it.1) (ld_marks d)) (put_cells (fill 0 extent (blank (ld_stamp d)) (ld_cells d)) (put_rewritten true d)))).

(** A line but for when its cells were drawn. *)
Definition unstamped (l : LogLine) : LogLine := {| ll_cells := restamped 0 <$> ll_cells l; ll_marks := ll_marks l; ll_continues := ll_continues l |}.

Definition eager (d : LineDrawing) : LineDrawing :=
  put_finished (unstamped <$> ld_finished d)
    (put_erasures 0 [] (put_marks (filter (λ it, unerased d it.1 = true) (ld_marks d)) (put_cells (restamped 0 <$> read_cells d) d))).

(** ** Reading what is eager *)
Lemma eager_cell d i c : ld_cells d !! i = Some c → ld_cells (eager d) !! i = Some (if covered (ld_erasures d) i c then blank 0 else restamped 0 c).
Proof. intros Hc. cbn. rewrite list_lookup_fmap, read_lookup, Hc. cbn. by destruct (covered _ i c). Qed.
Lemma eager_none d i : ld_cells d !! i = None → ld_cells (eager d) !! i = None.
Proof. intros Hc. cbn. by rewrite list_lookup_fmap, read_lookup, Hc. Qed.
Lemma eager_length d : length (ld_cells (eager d)) = length (ld_cells d).
Proof. cbn. by rewrite length_fmap, read_length. Qed.
Lemma eager_mark d i : ld_marks (eager d) !! i = if unerased d i then ld_marks d !! i else None.
Proof.
  cbn. destruct (ld_marks d !! i) as [m|] eqn:Em.
  - destruct (unerased d i) eqn:Eu; [by apply map_lookup_filter_Some|]. apply map_lookup_filter_None. right. intros m' _. cbn. congruence.
  - assert (filter (λ it : nat * rstr, unerased d it.1 = true) (ld_marks d) !! i = None) as -> by (apply map_lookup_filter_None; by left). by destruct (unerased d i).
Qed.

Lemma eager_eq d e :
  (∀ i, ld_cells e !! i = (λ c, if covered (ld_erasures d) i c then blank 0 else restamped 0 c) <$> ld_cells d !! i) →
  (∀ i, ld_marks e !! i = if unerased d i then ld_marks d !! i else None) →
  e = put_finished (ld_finished e) (put_erasures 0 [] (put_marks (ld_marks e) (put_cells (ld_cells e) d))) →
  ld_finished e = unstamped <$> ld_finished d → e = eager d.
Proof.
  intros Hc Hm He Hf. assert (ld_cells e = ld_cells (eager d)) as Ec.
  { apply list_eq. intros i. rewrite Hc. destruct (ld_cells d !! i) as [c|] eqn:Ei; [by rewrite (eager_cell d i c)|by rewrite eager_none]. }
  assert (ld_marks e = ld_marks (eager d)) as Em by (apply map_eq; intros i; by rewrite Hm, eager_mark).
  rewrite He, Ec, Em, Hf. done.
Qed.

Lemma eager_sound d : sound d → sound (eager d).
Proof.
  intros Hs. split; cbn [eager put_finished put_erasures put_marks put_cells ld_cells ld_stamp ld_erasures ld_shown ld_shown_changed].
  - apply restamped_tiled, read_tiled, Hs.
  - rewrite length_fmap, read_length. apply Hs.
  - lia.
  - intros i c. rewrite list_lookup_fmap. destruct (read_cells d !! i); cbn; [|done]. by intros [= <-].
  - constructor.
  - by intros e ?%elem_of_nil.
  - by intros e l c ?%elem_of_nil.
  - intros i m Hm. change (ld_marks (eager d) !! i = Some m) in Hm. rewrite eager_mark in Hm. destruct (unerased d i) eqn:Eu; [|done].
    destruct (so_marks _ Hs i m Hm) as (c & Hc & Hw). change (∃ c, ld_cells (eager d) !! i = Some c ∧ 0 < lc_width c). rewrite (eager_cell d i c Hc).
    destruct (covered _ i c); eexists; (split; [done|]); [cbn; lia|done].
  - destruct (so_shown _ Hs) as [-> | Hb]; [by left|]. right. by apply restamped_bound, read_bound.
Qed.

(** *** The glyphs of it *)
Lemma eager_owner_erased d i l c : sound d → owns (ld_cells d) i l c → covered (ld_erasures d) l c = true → owns (ld_cells (eager d)) i i (blank 0).
Proof.
  intros Hs Ho Hcov. assert (∃ k, ld_cells d !! i = Some k) as [k Hk].
  { pose proof Ho as [Hc Hi]. apply lookup_lt_is_Some_2. pose proof (tiled_end _ _ _ (so_tiled _ Hs) Hc ltac:(lia)). lia. }
  split; [|cbn; lia]. rewrite (eager_cell d i k Hk). by rewrite (covered_owner d i l c k), Hcov.
Qed.
Lemma eager_owner d i l c : owns (ld_cells d) i l c → covered (ld_erasures d) l c = false → owns (ld_cells (eager d)) i l (restamped 0 c).
Proof. intros [Hc Hi] Hcov. split; [|done]. by rewrite (eager_cell d l c Hc), Hcov. Qed.

Lemma unerased_owner d i l c : sound d → owns (ld_cells d) i l c → unerased d i = negb (covered (ld_erasures d) l c).
Proof.
  intros Hs Ho. pose proof Ho as [Hc Hi]. assert (∃ k, ld_cells d !! i = Some k) as [k Hk].
  { apply lookup_lt_is_Some_2. pose proof (tiled_end _ _ _ (so_tiled _ Hs) Hc ltac:(lia)). lia. }
  unfold unerased. rewrite Hk. by rewrite (covered_owner d i l c k).
Qed.
(** A glyph has its marks on its first column. *)
Lemma marks_on_lead d i l c : sound d → owns (ld_cells d) i l c → i ≠ l → ld_marks d !! i = None.
Proof.
  intros Hs Ho Hne. destruct (ld_marks d !! i) as [m|] eqn:Em; [|done]. destruct (so_marks _ Hs i m Em) as (k & Hk & Hw).
  destruct (owns_unique _ i l c i k (so_tiled _ Hs) Ho) as [? _]; [split; [done|lia]|]. congruence.
Qed.

Lemma blank_covered d i : sound d → covered (ld_erasures d) i (blank (ld_stamp d)) = false.
Proof. intros Hs. by apply covered_old. Qed.

(** ** Steps that commute *)
Lemma eager_broken d column l c changed :
  sound d → owns (ld_cells d) column l c →
  ∃ changed', break_glyph column (put_shown (ld_shown d) changed (eager d)) = Done (put_shown (ld_shown d) changed' (eager (broken l c d))).
Proof.
  intros Hs Ho. set (E := put_shown (ld_shown d) changed (eager d)). pose proof Ho as [Hc Hi]. pose proof (tiled_end _ _ _ (so_tiled _ Hs) Hc ltac:(lia)) as He.
  set (D := broken l c d). assert (sound D) as HD by (apply broken_sound; [done..|lia]). destruct (broken_fields l c d) as (Em & Es & Ee & Eh & _). fold D in Em, Es, Ee, Eh.
  assert (∃ l' c', owns (ld_cells E) column l' c' ∧ l' + lc_width c' ≤ length (ld_cells E) ∧
    (∀ i, ld_cells (broken l' c' E) !! i = (λ c, if covered (ld_erasures D) i c then blank 0 else restamped 0 c) <$> ld_cells D !! i) ∧
    (∀ i, ld_marks (broken l' c' E) !! i = if unerased D i then ld_marks D !! i else None)) as (l' & c' & Ho' & He' & HC & HM).
  { assert (∀ i, ¬ (l ≤ i < l + lc_width c) → ld_cells D !! i = ld_cells d !! i ∧ ld_marks D !! i = ld_marks d !! i ∧ unerased D i = unerased d i) as Hout.
    { intros i Hn. assert (ld_cells D !! i = ld_cells d !! i) as E1 by (unfold D; rewrite broken_cells by done; by rewrite decide_False by lia).
      split_and!; [done|rewrite Em; apply lookup_delete_ne; lia|unfold unerased; by rewrite E1, Ee]. }
    assert (∀ i, l ≤ i < l + lc_width c → ld_marks D !! i = None) as Hgone.
    { intros i Hin. rewrite Em. destruct (decide (i = l)) as [->|]; [apply lookup_delete_eq|]. rewrite lookup_delete_ne by done. apply (marks_on_lead d i l c); [done|by split|done]. }
    assert (∀ i, (λ c, if covered (ld_erasures d) i c then blank 0 else restamped 0 c) <$> ld_cells d !! i = ld_cells (eager d) !! i) as Hcell.
    { intros i. destruct (ld_cells d !! i) as [k|] eqn:Ek; [by rewrite (eager_cell d i k)|by rewrite eager_none]. }
    destruct (covered (ld_erasures d) l c) eqn:Eo.
    - exists column, (blank 0). pose proof (eager_owner_erased d column l c Hs Ho Eo) as Hw. split_and!; [exact Hw|cbn; rewrite length_fmap, read_length; lia| |].
      + intros i. change (ld_cells (broken column (blank 0) E)) with (ld_cells (eager d)). destruct (decide (l ≤ i < l + lc_width c)) as [Hin|Hn]; [|destruct (Hout i Hn) as (-> & _); rewrite Ee; symmetry; apply Hcell].
        assert (owns (ld_cells d) i l c) as Hoi by (by split). destruct (eager_owner_erased d i l c Hs Hoi Eo) as [-> _].
        unfold D. rewrite broken_cells by done. destruct (decide (1 < lc_width c ∧ l ≤ i < l + lc_width c)) as [_|Hn].
        * cbn. fold D. rewrite Ee, blank_covered by done. done.
        * replace i with l by lia. rewrite Hc. cbn. fold D. by rewrite Ee, Eo.
      + intros i. destruct (broken_fields column (blank 0) E) as (-> & _). change (ld_marks E) with (ld_marks (eager d)).
        destruct (decide (l ≤ i < l + lc_width c)) as [Hin|Hn].
        * rewrite (Hgone i Hin). destruct (decide (i = column)) as [->|]; [rewrite lookup_delete_eq; by destruct (unerased D column)|].
          rewrite lookup_delete_ne by done. rewrite eager_mark, (unerased_owner d i l c), Eo by (done || by split). by destruct (unerased D i).
        * rewrite lookup_delete_ne by lia. destruct (Hout i Hn) as (_ & -> & ->). apply eager_mark.
    - exists l, (restamped 0 c). pose proof (eager_owner d column l c Ho Eo) as Hw. split_and!; [exact Hw|cbn; rewrite length_fmap, read_length; lia| |].
      + intros i. rewrite broken_cells by (cbn; rewrite length_fmap, read_length; lia). cbn [lc_width restamped]. unfold D. rewrite broken_cells by done. fold D. rewrite Ee.
        change (ld_cells E) with (ld_cells (eager d)). destruct (decide (1 < lc_width c ∧ l ≤ i < l + lc_width c)); [|symmetry; apply Hcell]. cbn. by rewrite blank_covered.
      + intros i. destruct (broken_fields l (restamped 0 c) E) as (-> & _). change (ld_marks E) with (ld_marks (eager d)). destruct (decide (l ≤ i < l + lc_width c)) as [Hin|Hn].
        * rewrite (Hgone i Hin). destruct (decide (i = l)) as [->|]; [rewrite lookup_delete_eq; by destruct (unerased D l)|].
          rewrite lookup_delete_ne by done. rewrite eager_mark, (marks_on_lead d i l c) by (done || by split). by destruct (unerased d i), (unerased D i).
        * rewrite lookup_delete_ne by lia. destruct (Hout i Hn) as (_ & -> & ->). apply eager_mark. }
  exists (ld_shown_changed (broken l' c' E)). rewrite (break_glyph_done column E l' c'); [|apply (so_tiled _ (eager_sound d Hs))|done]. f_equal.
  assert (put_shown (ld_shown d) (ld_shown_changed D) (broken l' c' E) = eager D) as <-.
  { apply eager_eq; [exact HC|exact HM| |].
    - cbn [put_shown ld_cells ld_marks ld_finished]. rewrite (broken_redrawn l' c' E). unfold D. rewrite (broken_redrawn l c d). by destruct d.
    - rewrite (broken_redrawn l' c' E). unfold D. rewrite (broken_redrawn l c d). done. }
  rewrite (broken_redrawn l' c' E) at 1. rewrite (broken_redrawn l' c' E). by destruct d.
Qed.

Lemma eager_breaks start n d changed d1 :
  sound d → start + n ≤ length (ld_cells d) → each break_glyph (seq start n) d = Done d1 →
  ∃ changed', each break_glyph (seq start n) (put_shown (ld_shown d) changed (eager d)) = Done (put_shown (ld_shown d) changed' (eager d1)).
Proof.
  revert start d changed. induction n as [|n IH]; intros start d changed Hs Hl; cbn [seq each]; [intros [= <-]; eauto|].
  destruct (owned (ld_cells d) start (so_tiled _ Hs) ltac:(lia)) as (l & c & Ho). rewrite (break_glyph_done start d l c (so_tiled _ Hs) Ho). cbn [drawn_bind]. intros E1.
  destruct (eager_broken d start l c changed Hs Ho) as (ch & ->). cbn [drawn_bind]. pose proof Ho as [Hc Hi]. pose proof (tiled_end _ _ _ (so_tiled _ Hs) Hc ltac:(lia)) as He.
  destruct (broken_fields l c d) as (_ & _ & _ & Eh & _). rewrite <-Eh. apply IH; [apply broken_sound; [done..|lia]|rewrite broken_length by done; lia|done].
Qed.

(** Whether what was shown changed is told by where the drawing began. *)
Lemma breaks_flag start n d d' : breaks start n d d' → ld_shown_changed d' || (start <? ld_shown d) = ld_shown_changed d || (start <? ld_shown d).
Proof.
  intros Hb. pose proof (bk_more _ _ _ _ Hb) as H1. pose proof (bk_changed _ _ _ _ Hb) as H2. destruct (Nat.ltb_spec start (ld_shown d)); [by rewrite !orb_true_r|].
  rewrite !orb_false_r. destruct (ld_shown_changed d), (ld_shown_changed d'); try done; [by rewrite H1|]. destruct (H2 eq_refl); [done|lia].
Qed.

(** *** Lines handed out *)
Definition plain_blank (c : LineCell) : bool := (lc_character c =? BLANK)%N && bool_decide (lc_pen c = pen_default) && (lc_width c =? 1).
(** No mark is on an unstyled blank. *)
Definition unblanked (d : LineDrawing) : Prop := ∀ i m c, ld_marks d !! i = Some m → ld_cells d !! i = Some c → plain_blank c = false.

Lemma unstamped_shows marks k cells : last_shown marks k (restamped 0 <$> cells) = last_shown marks k cells.
Proof. revert k. induction cells as [|c cells IH]; intros k; [done|]. cbn [fmap list_fmap last_shown]. by rewrite IH. Qed.
Lemma unstamped_end l : shown_end (unstamped l) = shown_end l.
Proof. unfold shown_end. cbn. by rewrite unstamped_shows, length_fmap. Qed.
Lemma unstamped_blank l : is_blank (unstamped l) = is_blank l.
Proof. unfold is_blank. by rewrite unstamped_end. Qed.
Lemma unstamped_slice l from stop : slice (unstamped l) from stop = unstamped (slice l from stop).
Proof. unfold slice, unstamped. cbn. by rewrite length_fmap, <-fmap_drop, <-fmap_take. Qed.

(** Nothing shown of a line tells when its cells were drawn. *)
Definition drawn_alike (a b : nat * LineCell) : Prop := a.1 = b.1 ∧ lc_character a.2 = lc_character b.2 ∧ lc_pen a.2 = lc_pen b.2.
Lemma unstamped_glyphs l : Forall2 drawn_alike (glyphs (unstamped l)) (glyphs l).
Proof.
  unfold glyphs. rewrite unstamped_end. cbn [unstamped ll_cells]. rewrite <-fmap_take. generalize (take (shown_end l) (ll_cells l)) as cells. intros cells.
  assert (∀ (f : nat → LineCell → nat * LineCell) (Hf : ∀ i c, f i c = (fst (f i c), c)),
    Forall2 drawn_alike (filter (λ it, continues it.2 = false) (imap f (restamped 0 <$> cells))) (filter (λ it, continues it.2 = false) (imap (λ i c, (fst (f i (restamped 0 c)), c)) cells))) as H.
  { induction cells as [|c cells IH]; intros f Hf; [constructor|]. cbn [fmap list_fmap imap]. rewrite !filter_cons, Hf. cbn [snd fst]. change (continues (restamped 0 c)) with (continues c).
    assert (Forall2 drawn_alike (filter (λ it, continues it.2 = false) (imap (f ∘ S) (restamped 0 <$> cells)))
      (filter (λ it, continues it.2 = false) (imap (λ i c, (fst ((f ∘ S) i (restamped 0 c)), c)) cells))) as H by (apply IH; intros i k; apply Hf).
    case_decide; [|exact H]. constructor; [done|exact H]. }
  exact (H pair (λ _ _, eq_refl)).
Qed.
Lemma unstamped_push l a b : drawn_alike a b → push_glyph (unstamped l) a = push_glyph l b.
Proof. intros (E1 & E2 & _). unfold push_glyph. by rewrite E1, E2. Qed.
Lemma unstamped_text coloring l : line_text coloring (unstamped l) = line_text coloring l.
Proof.
  pose proof (unstamped_glyphs l) as Hg. destruct coloring; cbn [line_text]; [unfold plain|unfold colored].
  - f_equal. induction Hg as [|a b ? ? Hab _ IH]; [done|]. cbn. by rewrite IH, (unstamped_push l a b).
  - assert (∀ s, foldl (color_glyph (unstamped l)) s (glyphs (unstamped l)) = foldl (color_glyph l) s (glyphs l)) as ->; [|done].
    induction Hg as [|a b ? ? Hab _ IH]; intros s; [done|]. cbn [foldl]. rewrite IH. f_equal. destruct s as [text current]. unfold color_glyph. cbv zeta.
    rewrite (unstamped_push l a b) by done. by destruct Hab as (_ & _ & ->).
Qed.

Lemma eager_snapshot d : sound d → unblanked d → snapshot (eager d) = unstamped (snapshot d).
Proof.
  intros Hs Hu. pose proof (eager_sound d Hs) as He. unfold unstamped. rewrite (snapshot_cells d Hs).
  assert (ll_cells (snapshot (eager d)) = restamped 0 <$> read_cells d) as Ec by (by rewrite (snapshot_cells _ He)).
  assert (ll_marks (snapshot (eager d)) = ll_marks (snapshot d)) as Em; [|change (ll_continues (snapshot d)) with false; rewrite <-Ec, <-Em; done].
  apply map_eq. intros i. change (filter (λ it, ll_cells (snapshot (eager d)) !! it.1 = ld_cells (eager d) !! it.1) (ld_marks (eager d)) !! i =
    filter (λ it, ll_cells (snapshot d) !! it.1 = ld_cells d !! it.1) (ld_marks d) !! i). rewrite (snapshot_cells d Hs), Ec. apply option_eq. intros m. rewrite !map_lookup_filter_Some. cbn [fst].
  rewrite eager_mark. unfold unerased. split.
  - intros [Hm _]. destruct (ld_cells d !! i) as [c|] eqn:Ei; [|split; [done|by rewrite read_lookup, Ei]]. destruct (covered _ i c) eqn:Eo; [done|].
    split; [done|]. rewrite read_lookup, Ei. cbn. by rewrite Eo.
  - intros [Hm Hr]. rewrite read_lookup in Hr. destruct (ld_cells d !! i) as [c|] eqn:Ei; [|done]. cbn in Hr. destruct (covered _ i c) eqn:Eo; [|done].
    injection Hr as <-. by specialize (Hu i m _ Hm Ei).
Qed.

Lemma option_list_fmap {A B} (f : A → B) (o : option A) : option_list (f <$> o) = f <$> option_list o.
Proof. by destruct o. Qed.
Lemma eager_left fed l d : left_to_show fed (unstamped l) (eager d) = unstamped <$> left_to_show fed l d.
Proof.
  unfold left_to_show. cbv zeta. rewrite unstamped_blank, unstamped_slice, unstamped_blank.
  replace (length (ll_cells (unstamped l))) with (length (ll_cells l)) by (cbn; by rewrite length_fmap).
  cbn [eager put_finished put_erasures put_marks put_cells ld_shown ld_steered ld_risen ld_shown_changed]. by repeat case_match.
Qed.
Lemma eager_clear d : eager (clear_line d) = clear_line (eager d).
Proof. unfold eager, clear_line, read_cells. cbn [put_finished put_erasures put_marks put_cells ld_finished put_shown put_rewritten put_steered put_cursor ld_cells ld_marks ld_erasures]. by rewrite map_filter_empty. Qed.
Lemma eager_close fed d : sound d → unblanked d → close_line fed (eager d) = eager (close_line fed d).
Proof.
  intros Hs Hu. unfold close_line. rewrite (eager_snapshot d Hs Hu), eager_left, option_list_fmap, eager_clear. f_equal.
  unfold eager. cbn [put_finished put_erasures put_marks put_cells ld_finished]. by rewrite <-fmap_app.
Qed.

(** *** Drawing *)
Lemma eager_pad stop d : sound d → pad_to stop (eager d) = eager (pad_to stop d).
Proof.
  intros Hs. apply eager_eq; [| |done..].
  - intros i. change (ld_cells (pad_to stop (eager d))) with (ld_cells (eager d) ++ replicate (stop - length (ld_cells (eager d))) (blank 0)). rewrite eager_length.
    change (ld_cells (pad_to stop d)) with (ld_cells d ++ replicate (stop - length (ld_cells d)) (blank (ld_stamp d))). destruct (decide (i < length (ld_cells d))) as [Hi|Hi].
    + rewrite !lookup_app_l by (rewrite ?eager_length; done). destruct (lookup_lt_is_Some_2 _ _ Hi) as [c Hc]. by rewrite (eager_cell d i c Hc), Hc.
    + rewrite !lookup_app_r by (rewrite ?eager_length; lia). rewrite eager_length. destruct (decide (i - length (ld_cells d) < stop - length (ld_cells d))).
      * rewrite !lookup_replicate_2 by done. cbn. by rewrite blank_covered.
      * by rewrite !lookup_ge_None_2 by (rewrite length_replicate; lia).
  - intros i. change (ld_marks (pad_to stop (eager d))) with (ld_marks (eager d)). rewrite eager_mark. change (ld_marks (pad_to stop d)) with (ld_marks d).
    destruct (ld_cells d !! i) as [c|] eqn:Ei.
    + unfold unerased. by rewrite (pad_old stop d i c Ei), Ei.
    + destruct (ld_marks d !! i) as [m|] eqn:Em; [destruct (so_marks _ Hs i m Em) as (c & Hc & _); congruence|]. by destruct (unerased d i), (unerased (pad_to stop d) i).
Qed.
Lemma eager_readied w d : sound d → unblanked d → readied w (eager d) = eager (readied w d).
Proof.
  intros Hs Hu. unfold readied. cbv zeta. change (ld_cursor (eager d)) with (ld_cursor d).
  set (d0 := if MAX_LINE_CELLS <? ld_cursor d + w then cut d else d).
  assert ((if MAX_LINE_CELLS <? ld_cursor d + w then cut (eager d) else eager d) = eager d0) as -> by (unfold d0; destruct (_ <? _); [by apply eager_close|done]).
  assert (sound d0) as H0 by (unfold d0; destruct (_ <? _); [apply close_sound|done]). rewrite eager_length. change (ld_cursor (eager d0)) with (ld_cursor d0).
  change (ld_rewritten (eager d0)) with (ld_rewritten d0). set (d1 := put_rewritten _ d0). change (put_rewritten _ (eager d0)) with (eager d1). apply eager_pad. by eapply sound_same.
Qed.

Lemma eager_placed start w c d : sound d → 0 < w → start + w ≤ length (ld_cells d) → singles start (start + w) d →
  put_cells (placed start w (glyph_of c w (eager d)) (continuation (ld_pen (eager d)) (ld_stamp (eager d))) (ld_cells (eager d))) (eager d) =
  eager (put_cells (placed start w (glyph_of c w d) (continuation (ld_pen d) (ld_stamp d)) (ld_cells d)) d).
Proof.
  intros Hs Hw Hl Hsi. set (d' := put_cells _ d). apply eager_eq; [| |done..].
  - intros i. cbn [put_cells ld_cells]. rewrite placed_cells by (rewrite ?eager_length; done). unfold d'. cbn [put_cells ld_cells ld_erasures]. rewrite placed_cells by done.
    destruct (decide (i = start)); [cbn; by rewrite covered_old|]. destruct (decide _); [cbn; by rewrite covered_old|].
    destruct (ld_cells d !! i) as [k|] eqn:Ek; [by rewrite (eager_cell d i k)|by rewrite eager_none].
  - intros i. cbn [put_cells ld_marks]. change (ld_marks d') with (ld_marks d). rewrite eager_mark. destruct (decide (start ≤ i < start + w)) as [Hin|Hn].
    + destruct (Hsi i Hin) as [_ ->]. by destruct (unerased d i), (unerased d' i).
    + unfold unerased, d'. cbn [put_cells ld_cells ld_erasures]. rewrite placed_cells by done. by rewrite !decide_False by lia.
Qed.

Lemma Done_inj {A} (a b : A) : Done a = Done b → a = b.
Proof. by intros [= ->]. Qed.
Lemma eager_draw c w d : sound d → unblanked d → 0 < w ≤ MAX_GLYPH_WIDTH → ∀ d', draw c w d = Done d' → draw c w (eager d) = Done (eager d').
Proof.
  intros Hs Hu Hw d' Ed. destruct (draw_done c w d Hs Hw) as (d1 & E1 & Hb & E). rewrite E in Ed. apply Done_inj in Ed. subst d'.
  destruct (draw_done c w (eager d) (eager_sound d Hs) Hw) as (e1 & F1 & Hbe & F). cbv zeta in *. rewrite F. f_equal. clear E F.
  rewrite (eager_readied w d Hs Hu) in *. pose proof (readied_sound w d Hs ltac:(lia)) as H0. pose proof (readied_length w d) as Hl.
  set (d0 := readied w d) in *. change (ld_cursor (eager d0)) with (ld_cursor d0) in *. set (start := ld_cursor d0) in *.
  destruct (eager_breaks start w d0 (ld_shown_changed d0) d1 H0 Hl E1) as (ch & F2). change (put_shown (ld_shown d0) (ld_shown_changed d0) (eager d0)) with (eager (put_shown (ld_shown d0) (ld_shown_changed d0) d0)) in F2.
  replace (put_shown (ld_shown d0) (ld_shown_changed d0) d0) with d0 in F2 by (by destruct d0). rewrite F1 in F2. apply Done_inj in F2. subst e1.
  pose proof (breaks_flag _ _ _ _ Hb) as G1. pose proof (breaks_flag _ _ _ _ Hbe) as G2. change (ld_shown (eager d0)) with (ld_shown d0) in G2. change (ld_shown_changed (eager d0)) with (ld_shown_changed d0) in G2.
  cbn [put_shown ld_shown_changed] in G2. assert (ld_shown d1 = ld_shown d0) as Esh by (by rewrite (bk_redrawn _ _ _ _ Hb)).
  pose proof (eager_placed start w c d1 (bk_sound _ _ _ _ Hb) ltac:(lia) ltac:(rewrite (bk_length _ _ _ _ Hb); done) (bk_singles _ _ _ _ Hb)) as Ep.
  clearbody start d0. rewrite !touch_eq. cbn [put_cells put_shown ld_shown ld_shown_changed ld_cells ld_pen ld_stamp]. rewrite G2, Esh, G1.
  set (flag := _ || _). set (D := put_cells _ d1) in *. change (eager (put_cursor (start + w) (put_shown (ld_shown d0) flag D))) with (put_cursor (start + w) (put_shown (ld_shown d0) flag (eager D))).
  rewrite <-Ep. done.
Qed.

(** *** Marks *)
(** A mark that has something to sit on. *)
Definition marks_glyph (d : LineDrawing) : bool :=
  match ld_cursor d with
  | O => true
  | S column => match lead_of column d ≫= (λ l, ld_cells d !! l) with Some c => negb (plain_blank c) | None => true end
  end.
Lemma eager_marked d lead marks : unerased d lead = true →
  put_marks (<[lead := marks]> (ld_marks (eager d))) (eager d) = eager (put_marks (<[lead := marks]> (ld_marks d)) d).
Proof.
  intros Hu. set (d' := put_marks _ d). apply eager_eq; [| |done..].
  - intros i. cbn [put_marks ld_cells]. unfold d'. cbn [put_marks ld_cells ld_erasures]. destruct (ld_cells d !! i) as [k|] eqn:Ek; [by rewrite (eager_cell d i k)|by rewrite eager_none].
  - intros i. cbn [put_marks ld_marks]. change (unerased d' i) with (unerased d i). unfold d'. cbn [put_marks ld_marks]. destruct (decide (i = lead)) as [->|].
    + by rewrite !lookup_insert_eq, Hu.
    + rewrite !lookup_insert_ne by done. apply eager_mark.
Qed.
Lemma eager_of_mark m d : sound d → marks_glyph (eager d) = true → ∀ d', mark m d = Done d' → mark m (eager d) = Done (eager d').
Proof.
  intros Hs Hg d'. unfold mark. change (ld_cursor (eager d)) with (ld_cursor d). unfold marks_glyph in Hg. change (ld_cursor (eager d)) with (ld_cursor d) in Hg.
  destruct (ld_cursor d) as [|column]; [by intros [= <-]|]. destruct (decide (column < length (ld_cells d))) as [Hi|Hi].
  2: { unfold lead_of. rewrite !lead_from_out by (rewrite ?eager_length; lia). by intros [= <-]. }
  destruct (owned _ column (so_tiled _ Hs) Hi) as (l & c & Ho). pose proof Ho as [Hc Hin]. pose proof (so_tiled _ (eager_sound d Hs)) as Ht.
  destruct (covered (ld_erasures d) l c) eqn:Eo.
  { rewrite (lead_of_owner _ _ _ _ Ht (eager_owner_erased d column l c Hs Ho Eo)) in Hg. destruct (eager_owner_erased d column l c Hs Ho Eo) as [Hb _]. cbn [mbind option_bind] in Hg. by rewrite Hb in Hg. }
  rewrite (lead_of_owner _ _ _ _ (so_tiled _ Hs) Ho), (lead_of_owner _ _ _ _ Ht (eager_owner d column l c Ho Eo)).
  rewrite (is_erased_done l c d Hc). destruct (eager_owner d column l c Ho Eo) as [He _]. rewrite (is_erased_done l _ (eager d) He). cbn [drawn_bind eager put_finished put_erasures ld_erasures covered newer_erasure]. rewrite Eo.
  intros [= <-]. f_equal. change (put_finished _ _) with (eager d). assert (unerased d l = true) as Hu by (unfold unerased; by rewrite Hc, Eo). rewrite eager_mark, Hu.
  rewrite !touch_eq. rewrite eager_marked by done. done.
Qed.

(** *** Erases *)
(** How far an erase reaches, by the glyphs as drawn and as they read. *)
Lemma ends_alike d m x : sound d → m ≤ length (ld_cells d) → glyph_end m d = Done x →
  ∃ y, glyph_end m (eager d) = Done y ∧ m ≤ y ≤ x ∧ x ≤ length (ld_cells d) ∧ (m = 0 → x = 0) ∧
    ∀ i, y ≤ i < x → ld_cells (eager d) !! i = Some (blank 0) ∧ ld_marks (eager d) !! i = None.
Proof.
  intros Hs Hm Ex. pose proof (so_tiled _ Hs) as Ht. pose proof (so_tiled _ (eager_sound d Hs)) as Hte.
  destruct (glyph_end_done m d Ht Hm) as (x' & Ex' & Hx & _ & H0 & Hox). rewrite Ex in Ex'. apply Done_inj in Ex'. subst x'.
  destruct (glyph_end_done m (eager d) Hte ltac:(by rewrite eager_length)) as (y & Ey & Hy & _ & Hy0 & Hoy). rewrite eager_length in Hy. exists y. split; [done|].
  destruct (decide (m = 0)) as [Em|Hne]. { rewrite H0, Hy0 by done. split_and!; lia. }
  destruct (owned (ld_cells d) (m - 1) Ht ltac:(lia)) as (l & c & Ho). pose proof (Hox l c ltac:(lia) Ho) as ->. destruct (covered (ld_erasures d) l c) eqn:Eo.
  - pose proof (Hoy _ _ ltac:(lia) (eager_owner_erased d _ l c Hs Ho Eo)) as Ey'. cbn in Ey'. split_and!; [lia..|]. intros i Hi. pose proof Ho as [Hc Hin].
    assert (owns (ld_cells d) i l c) as Hoi by (split; [done|lia]). destruct (eager_owner_erased d i l c Hs Hoi Eo) as [-> _]. split; [done|].
    by rewrite eager_mark, (unerased_owner d i l c), Eo.
  - pose proof (Hoy _ _ ltac:(lia) (eager_owner d _ l c Ho Eo)) as Ey'. cbn in Ey'. split_and!; lia.
Qed.

Lemma eager_applied d d1 : sound d → apply_erasures d = Done d1 → eager d1 = eager d.
Proof.
  intros Hs E. destruct (apply_erasures_done d Hs) as (d1' & E1 & H1 & H2 & H3 & H4). rewrite E in E1. apply Done_inj in E1. subst d1'.
  assert (ld_erasures d1 = []) as Ee by (by rewrite H2). apply eager_eq.
  - intros i. change (ld_cells (eager d1)) with (restamped 0 <$> read_cells d1). unfold read_cells at 1. rewrite Ee, H3, !list_lookup_fmap, read_lookup.
    destruct (ld_cells d !! i) as [c|]; [|done]. cbn. by destruct (covered _ i c).
  - intros i. rewrite eager_mark, H4. unfold unerased at 1. rewrite Ee. cbn. by destruct (ld_cells d1 !! i).
  - rewrite H2. unfold eager. cbn [put_finished put_erasures put_marks put_cells ld_finished]. done.
  - rewrite H2. done.
Qed.

Lemma eager_recorded d x y : sound d → StronglySorted falls (ld_erasures (recorded x d)) → y ≤ x ≤ length (ld_cells d) →
  (∀ i, y ≤ i < x → ld_cells (eager d) !! i = Some (blank 0) ∧ ld_marks (eager d) !! i = None) →
  put_marks (filter (λ it, y <= it.1) (ld_marks (eager d))) (put_cells (fill 0 y (blank 0) (ld_cells (eager d))) (eager d)) = eager (recorded x d).
Proof.
  intros Hs Hr Hy Hb. assert (∀ i c, ld_cells d !! i = Some c → covered (ld_erasures (recorded x d)) i c = covered (ld_erasures d) i c || (i <? x)) as Hcov.
  { intros i c Hc. apply recorded_covered; [done| |done]. by apply (so_cells _ Hs) in Hc. }
  apply eager_eq; [| |done..].
  - intros i. cbn [put_marks put_cells ld_cells]. change (ld_cells (recorded x d)) with (ld_cells d). destruct (ld_cells d !! i) as [c|] eqn:Ei.
    + cbn [fmap option_fmap option_map]. rewrite (Hcov i c Ei). destruct (decide (i < y)).
      * rewrite fill_in by (rewrite ?eager_length; lia). destruct (Nat.ltb_spec i x); [|lia]. by rewrite orb_true_r.
      * rewrite fill_out by (rewrite ?eager_length; lia). destruct (Nat.ltb_spec i x).
        -- destruct (Hb i ltac:(lia)) as [-> _]. by rewrite orb_true_r.
        -- by rewrite (eager_cell d i c Ei), orb_false_r.
    + apply lookup_ge_None in Ei. rewrite lookup_ge_None_2; [done|]. rewrite fill_length; rewrite eager_length; lia.
  - intros i. cbn [put_marks ld_marks]. change (ld_marks (recorded x d)) with (ld_marks d). destruct (ld_marks d !! i) as [m|] eqn:Em.
    + destruct (so_marks _ Hs i m Em) as (c & Hc & _). unfold unerased at 1. change (ld_cells (recorded x d)) with (ld_cells d). rewrite Hc, (Hcov i c Hc).
      pose proof (eager_mark d i) as Hm. unfold unerased in Hm. rewrite Hc, Em in Hm. destruct (Nat.ltb_spec i x).
      * rewrite orb_true_r. cbn. apply map_lookup_filter_None. destruct (decide (y ≤ i)); [left; by apply Hb|]. right. intros ? _. cbn. lia.
      * rewrite orb_false_r. destruct (covered _ i c); cbn in Hm |- *; [apply map_lookup_filter_None; by left|]. apply map_lookup_filter_Some. split; [done|]. cbn. lia.
    + assert (ld_marks (eager d) !! i = None) as En by (rewrite eager_mark, Em; by destruct (unerased d i)).
      assert (filter (λ it : nat * rstr, y <= it.1) (ld_marks (eager d)) !! i = None) as -> by (apply map_lookup_filter_None; by left). by destruct (unerased _ i).
Qed.

Lemma eager_to_cursor d d' : sound d → erase_to_cursor d = Done d' → erase_at_once (eager d) = Done (eager d').
Proof.
  intros Hs. unfold erase_to_cursor, erase_at_once. rewrite eager_length. change (ld_cursor (eager d)) with (ld_cursor d). set (m := min (ld_cursor d + 1) (length (ld_cells d))).
  destruct (glyph_end m d) as [x|] eqn:Ex; [|done]. destruct (ends_alike d m x Hs ltac:(lia) Ex) as (y & -> & Hy & Hx & H0 & Hb). cbn [drawn_bind].
  destruct (glyph_end_done m d (so_tiled _ Hs) ltac:(lia)) as (x' & Ex' & _ & Hbx & _). rewrite Ex in Ex'. apply Done_inj in Ex'. subst x'.
  destruct (Nat.eqb_spec x 0) as [->|Hx0]. { intros [= <-]. by replace y with 0 by lia. }
  destruct (Nat.eqb_spec y 0); [assert (m = 0) by lia; rewrite H0 in Hx0; done|]. cbv zeta. set (r := put_rewritten true d). assert (sound r) as Hr by (by eapply sound_same).
  destruct (if (ld_stamp r =? u32_max)%N then apply_erasures r else Done r) as [d1|] eqn:E1; [|done]. cbn [drawn_bind].
  assert (sound d1 ∧ eager d1 = eager r ∧ bound (ld_cells d1) x ∧ length (ld_cells d1) = length (ld_cells d)) as (H1 & H2 & H3 & H4).
  { destruct (ld_stamp r =? u32_max)%N; [|apply Done_inj in E1; by subst d1]. pose proof (eager_applied r d1 Hr E1) as Ea.
    destruct (apply_erasures_done r Hr) as (d1' & E1' & G1 & _ & G3 & _). rewrite E1 in E1'. apply Done_inj in E1'. subst d1'. split_and!; [done..| |by rewrite G3, length_fmap, read_length].
    rewrite G3. by apply restamped_bound, read_bound. }
  destruct (N.eqb_spec (ld_stamp d1) u32_max) as [|Hne]; [done|]. intros E. apply Done_inj in E. subst d'. f_equal. change (put_erasures _ _ d1) with (recorded x d1).
  pose proof (so_stamp _ H1) as Hst. pose proof (so_sorted _ (recorded_sound x d1 H1 H3 ltac:(lia))) as Hso.
  pose proof (eager_recorded d1 x y H1 Hso ltac:(lia)) as Er. rewrite H2 in Er. specialize (Er Hb).
  rewrite !touch_eq. change (eager (put_shown ?s ?c ?d)) with (put_shown s c (eager d)). rewrite <-Er.
  assert (ld_shown (recorded x d1) = ld_shown d) as -> by (change (ld_shown (eager d1) = ld_shown d); by rewrite H2).
  assert (ld_shown_changed (recorded x d1) = ld_shown_changed d) as -> by (change (ld_shown_changed (eager d1) = ld_shown_changed d); by rewrite H2). done.
Qed.

Lemma flag_at column l c d : sound d → owns (ld_cells d) column l c →
  ld_shown_changed (broken l c d) || (column <? ld_shown d) = ld_shown_changed d || (column <? ld_shown d).
Proof.
  intros Hs Ho. pose proof (broken_changed_from column column l c d Hs Ho (le_n _)) as H2. destruct (Nat.ltb_spec column (ld_shown d)); [by rewrite !orb_true_r|].
  rewrite !orb_false_r. rewrite broken_changed in *. destruct (ld_shown_changed d); [done|]. cbn [orb] in *. destruct ((1 <? lc_width c) && (l <? ld_shown d)); [|done]. destruct (H2 eq_refl); [done|lia].
Qed.
Lemma eager_truncated at_ d :
  put_marks (filter (λ it, it.1 < at_) (ld_marks (eager d))) (put_cells (take at_ (ld_cells (eager d))) (eager d)) =
  eager (put_marks (filter (λ it, it.1 < at_) (ld_marks d)) (put_cells (take at_ (ld_cells d)) d)).
Proof.
  apply eager_eq; [| |done..].
  - intros i. cbn [put_marks put_cells ld_cells ld_erasures]. destruct (decide (i < at_)); [|by rewrite !lookup_take_ge by lia]. rewrite !lookup_take_lt by done.
    destruct (ld_cells d !! i) as [c|] eqn:Ei; [by rewrite (eager_cell d i c)|by rewrite eager_none].
  - intros i. cbn [put_marks ld_marks]. destruct (decide (i < at_)) as [Hi|Hi].
    + assert (unerased (put_marks (filter (λ it, it.1 < at_) (ld_marks d)) (put_cells (take at_ (ld_cells d)) d)) i = unerased d i) as ->.
      { unfold unerased. cbn [put_marks put_cells ld_cells ld_erasures]. by rewrite lookup_take_lt. }
      assert (∀ M : gmap nat rstr, filter (λ it, it.1 < at_) M !! i = M !! i) as Hf.
      { intros M. apply option_eq. intros m. rewrite map_lookup_filter_Some. cbn. tauto. }
      rewrite !Hf. apply eager_mark.
    + assert (∀ M : gmap nat rstr, filter (λ it, it.1 < at_) M !! i = None) as Hf by (intros M; apply map_lookup_filter_None; right; intros ? _; cbn; lia). rewrite !Hf. by destruct (unerased _ i).
Qed.

Lemma eager_erase mode d : sound d → ∀ d', erase erase_to_cursor mode d = Done d' → erase erase_at_once mode (eager d) = Done (eager d').
Proof.
  intros Hs d'. unfold erase. destruct (mode =? ERASE_TO_END)%N; [|destruct (mode =? ERASE_TO_CURSOR)%N; [by apply eager_to_cursor|destruct (mode =? ERASE_LINE)%N; [|by intros [= <-]]]].
  - cbv zeta. rewrite eager_length. change (ld_cursor (eager d)) with (ld_cursor d). set (at_ := min (ld_cursor d) (length (ld_cells d))).
    destruct (Nat.ltb_spec at_ (length (ld_cells d))) as [Hat|]; [|by intros [= <-]]. set (r := put_rewritten true d). change (put_rewritten true (eager d)) with (eager r).
    assert (sound r) as Hr by (by eapply sound_same). destruct (owned (ld_cells r) at_ (so_tiled _ Hr) Hat) as (l & c & Ho). rewrite (break_glyph_done at_ r l c (so_tiled _ Hr) Ho). cbn [drawn_bind].
    intros E. apply Done_inj in E. subst d'. destruct (eager_broken r at_ l c (ld_shown_changed r) Hr Ho) as (ch & Ech).
    change (put_shown (ld_shown r) (ld_shown_changed r) (eager r)) with (eager r) in Ech.
    pose proof (eager_sound r Hr) as Her. destruct (owned (ld_cells (eager r)) at_ (so_tiled _ Her) ltac:(by rewrite eager_length)) as (l' & c' & Ho').
    pose proof (flag_at at_ l' c' (eager r) Her Ho') as Hfe. pose proof (flag_at at_ l c r Hr Ho) as Hf. rewrite Ech. cbn [drawn_bind]. f_equal.
    rewrite (break_glyph_done at_ (eager r) l' c' (so_tiled _ Her) Ho') in Ech. apply Done_inj in Ech. rewrite Ech in Hfe. cbn [put_shown ld_shown_changed] in Hfe.
    change (ld_shown (eager r)) with (ld_shown r) in Hfe. change (ld_shown_changed (eager r)) with (ld_shown_changed r) in Hfe.
    pose proof (eager_truncated at_ (broken l c r)) as Et. set (D := broken l c r) in *. assert (ld_shown D = ld_shown r) as Esh by (unfold D; by rewrite broken_redrawn).
    rewrite !touch_eq. cbn [put_marks put_cells put_shown ld_shown ld_shown_changed ld_marks ld_cells]. rewrite Hfe, Esh, Hf.
    change (eager (put_shown ?s ?c ?d)) with (put_shown s c (eager d)). rewrite <-Et. done.
  - cbv zeta. intros E. apply Done_inj in E. subst d'. f_equal. rewrite eager_length, !touch_eq. unfold eager, read_cells.
    cbn [put_finished put_erasures put_marks put_cells put_rewritten put_shown ld_cells ld_marks ld_erasures ld_finished ld_shown ld_shown_changed ld_stamp ld_rewritten].
    rewrite map_filter_empty. done.
Qed.

(** ** Blanks stay without marks *)
Lemma unblanked_same d d' : unblanked d → ld_cells d' = ld_cells d → ld_marks d' = ld_marks d → unblanked d'.
Proof. intros Hu Ec Em i m c. rewrite Ec, Em. apply Hu. Qed.
Lemma unblanked_empty d : ld_marks d = ∅ → unblanked d.
Proof. intros Em i m c. by rewrite Em. Qed.
Lemma unblanked_broken l c d : sound d → ld_cells d !! l = Some c → 0 < lc_width c → unblanked d → unblanked (broken l c d).
Proof.
  intros Hs Hc Hw Hu i m k Hm Hk. pose proof (tiled_end _ _ _ (so_tiled _ Hs) Hc Hw) as He. destruct (broken_fields l c d) as (Em & _). rewrite Em in Hm. apply lookup_delete_Some in Hm as [Hne Hm].
  rewrite broken_cells in Hk by done. destruct (decide _) as [Hin|]; [|by apply (Hu i m)].
  rewrite (marks_on_lead d i l c Hs) in Hm; [done|by split; [|lia]|done].
Qed.
Lemma unblanked_breaks start n d d' : sound d → unblanked d → start + n ≤ length (ld_cells d) → each break_glyph (seq start n) d = Done d' → unblanked d'.
Proof.
  revert start d. induction n as [|n IH]; intros start d Hs Hu Hl; cbn [seq each]; [by intros [= <-]|].
  destruct (owned (ld_cells d) start (so_tiled _ Hs) ltac:(lia)) as (l & c & Ho). rewrite (break_glyph_done start d l c (so_tiled _ Hs) Ho). cbn [drawn_bind]. pose proof Ho as [Hc Hi].
  pose proof (tiled_end _ _ _ (so_tiled _ Hs) Hc ltac:(lia)). apply IH; [apply broken_sound; [done..|lia]|apply unblanked_broken; [done..|lia|done]|rewrite broken_length by done; lia].
Qed.
Lemma unblanked_draw c w d d' : sound d → unblanked d → 0 < w ≤ MAX_GLYPH_WIDTH → draw c w d = Done d' → unblanked d'.
Proof.
  intros Hs Hu Hw Ed. destruct (draw_done c w d Hs Hw) as (d1 & E1 & Hb & E). cbv zeta in *. rewrite E in Ed. apply Done_inj in Ed. subst d'. clear E.
  assert (unblanked (readied w d)) as H0.
  { unfold readied. cbv zeta. set (d0 := if _ <? _ then cut d else d). assert (unblanked d0 ∧ sound d0) as [H0 S0] by (unfold d0; destruct (_ <? _); [split; [by apply unblanked_empty|apply close_sound]|done]).
    intros i m k Hm Hk. apply (pad_lookup _ (put_rewritten _ d0)) in Hk as [Hk|[Hi ->]]; [by apply (H0 i m)|]. destruct (so_marks _ S0 i m Hm) as (q & Hq & _). apply lookup_lt_Some in Hq. cbn in Hi. lia. }
  pose proof (readied_length w d) as Hl. pose proof (unblanked_breaks _ _ _ _ (readied_sound w d Hs ltac:(lia)) H0 Hl E1) as H1. rewrite touch_eq. intros i m k Hm Hk. cbn [put_cursor put_shown put_cells ld_marks ld_cells] in Hm, Hk.
  rewrite placed_cells in Hk by (rewrite ?(bk_length _ _ _ _ Hb); lia).
  assert (¬ (ld_cursor (readied w d) ≤ i < ld_cursor (readied w d) + w)) by (intros Hin; destruct (bk_singles _ _ _ _ Hb i Hin) as [_ En]; congruence).
  rewrite !decide_False in Hk by lia. by apply (H1 i m).
Qed.
Lemma unblanked_mark m d d' : sound d → unblanked d → marks_glyph (eager d) = true → mark m d = Done d' → unblanked d'.
Proof.
  intros Hs Hu Hg. unfold mark. unfold marks_glyph in Hg. change (ld_cursor (eager d)) with (ld_cursor d) in Hg. destruct (ld_cursor d) as [|column]; [by intros [= <-]|].
  destruct (decide (column < length (ld_cells d))) as [Hi|Hi]; [|unfold lead_of; rewrite lead_from_out by lia; by intros [= <-]].
  destruct (owned _ column (so_tiled _ Hs) Hi) as (l & c & Ho). pose proof Ho as [Hc Hin]. rewrite (lead_of_owner _ _ _ _ (so_tiled _ Hs) Ho), (is_erased_done l c d Hc). cbn [drawn_bind].
  destruct (covered (ld_erasures d) l c) eqn:Eo; [by intros [= <-]|]. rewrite (lead_of_owner _ _ _ _ (so_tiled _ (eager_sound d Hs)) (eager_owner d column l c Ho Eo)) in Hg.
  destruct (eager_owner d column l c Ho Eo) as [He _]. cbn [mbind option_bind] in Hg. rewrite He in Hg. apply negb_true_iff in Hg. intros E. apply Done_inj in E. subst d'. rewrite touch_eq.
  intros i t k Ht Hk. cbn [put_shown put_marks ld_marks ld_cells] in Ht, Hk. apply lookup_insert_Some in Ht as [[<- _]|[_ Ht]]; [|by apply (Hu i t)]. rewrite Hc in Hk. injection Hk as <-. exact Hg.
Qed.
Lemma unblanked_erase mode d d' : sound d → unblanked d → erase erase_to_cursor mode d = Done d' → unblanked d'.
Proof.
  intros Hs Hu. unfold erase. destruct (mode =? ERASE_TO_END)%N; [|destruct (mode =? ERASE_TO_CURSOR)%N; [|destruct (mode =? ERASE_LINE)%N; [|by intros [= <-]]]].
  - cbv zeta. set (at_ := min _ _). destruct (Nat.ltb_spec at_ (length (ld_cells d))) as [Hat|]; [|by intros [= <-]]. set (r := put_rewritten true d). assert (sound r) as Hr by (by eapply sound_same).
    destruct (owned (ld_cells r) at_ (so_tiled _ Hr) Hat) as (l & c & Ho). rewrite (break_glyph_done at_ r l c (so_tiled _ Hr) Ho). cbn [drawn_bind]. pose proof Ho as [Hc Hi].
    assert (unblanked (broken l c r)) as Hb by (apply unblanked_broken; [done..|lia|done]). intros E. apply Done_inj in E. subst d'. rewrite touch_eq. intros i m k Hm Hk. cbn [put_shown put_marks put_cells ld_marks ld_cells] in Hm, Hk.
    apply map_lookup_filter_Some in Hm as [Hm _]. apply lookup_take_Some in Hk as [Hk _]. by apply (Hb i m).
  - unfold erase_to_cursor. destruct (glyph_end _ d) as [x|]; [|done]. cbn [drawn_bind]. destruct (x =? 0); [by intros [= <-]|]. cbv zeta. set (r := put_rewritten true d).
    assert (sound r) as Hr by (by eapply sound_same). destruct (if (ld_stamp r =? u32_max)%N then apply_erasures r else Done r) as [d1|] eqn:E1; [|done]. cbn [drawn_bind].
    assert (unblanked d1) as H1.
    { destruct (ld_stamp r =? u32_max)%N; [|apply Done_inj in E1; by subst d1]. destruct (apply_erasures_done r Hr) as (d1' & E1' & _ & _ & G3 & G4). rewrite E1 in E1'. apply Done_inj in E1'. subst d1'.
      intros i m k Hm. rewrite G4 in Hm. rewrite G3, list_lookup_fmap, read_lookup. unfold unerased in Hm. destruct (ld_cells r !! i) as [q|] eqn:Eq; [|done]. cbn.
      destruct (covered _ i q); [done|]. intros [= <-]. exact (Hu i m q Hm Eq). }
    destruct (ld_stamp d1 =? u32_max)%N; [done|]. intros E. apply Done_inj in E. subst d'. rewrite touch_eq. by apply (unblanked_same d1).
  - cbv zeta. intros E. apply Done_inj in E. subst d'. rewrite touch_eq. by apply unblanked_empty.
Qed.

(** ** Any use of a line *)
Section uses.
Context (char_width : rchar → option nat) (is_format : rchar → bool).
Context (Hwidth : ∀ c w, char_width c = Some w → w ≤ MAX_GLYPH_WIDTH) (Hascii : ∀ c, (32 <= c <= 126)%N → char_width c = Some 1).

(** What is done with a line being drawn. *)
Inductive Use := UCall (call : Dispatch) | UTakeLines | UTakePartial | UPeek | UFinish | UDropLine.

(** The lines a use hands out. *)
Definition use (to_cursor : LineDrawing → Drawn LineDrawing) (u : Use) (d : LineDrawing) : Drawn (list LogLine * LineDrawing) :=
  match u with
  | UCall call => let! d := perform char_width is_format to_cursor call d in Done ([], d)
  | UTakeLines => Done (take_lines d)
  | UTakePartial => let '(line, d) := take_partial d in Done (option_list line, d)
  | UPeek => Done (option_list (peek d), d)
  | UFinish => Done ([], finish d)
  | UDropLine => Done ([], drop_line d)
  end.
Fixpoint uses (to_cursor : LineDrawing → Drawn LineDrawing) (us : list Use) (d : LineDrawing) : Drawn (list LogLine * LineDrawing) :=
  match us with
  | [] => Done ([], d)
  | u :: us => let! first := use to_cursor u d in let! rest := uses to_cursor us first.2 in Done (first.1 ++ rest.1, rest.2)
  end.

(** Every combining mark drawn has a glyph to sit on, not an unstyled blank. *)
Definition well_marked (u : Use) (d : LineDrawing) : bool :=
  match u with UCall (DPrint c) => match char_width c with Some O => marks_glyph d | _ => true end | _ => true end.
Fixpoint all_well_marked (us : list Use) (d : LineDrawing) : bool :=
  match us with
  | [] => true
  | u :: us => well_marked u d && match use erase_at_once u d with Done first => all_well_marked us first.2 | Panicked _ => true end
  end.

Definition commutes (f g : LineDrawing → Drawn LineDrawing) (d : LineDrawing) : Prop :=
  ∃ d', f d = Done d' ∧ sound d' ∧ unblanked d' ∧ g (eager d) = Done (eager d').

Lemma draw_commutes c w d : sound d → unblanked d → 0 < w ≤ MAX_GLYPH_WIDTH → commutes (draw c w) (draw c w) d.
Proof.
  intros Hs Hu Hw. destruct (draw_sound c w d Hs Hw) as (d' & E & Hs'). exists d'. split_and!; [done..|by apply (unblanked_draw c w d)|by apply eager_draw].
Qed.
Lemma mark_commutes m d : sound d → unblanked d → marks_glyph (eager d) = true → commutes (mark m) (mark m) d.
Proof. intros Hs Hu Hg. destruct (mark_sound m d Hs) as (d' & E & Hs'). exists d'. split_and!; [done..|by apply (unblanked_mark m d)|by apply eager_of_mark]. Qed.
Lemma erase_commutes mode d : sound d → unblanked d → commutes (erase erase_to_cursor mode) (erase erase_at_once mode) d.
Proof.
  intros Hs Hu. destruct (erase_sound erase_to_cursor erase_to_cursor_sound mode d Hs) as (d' & E & Hs'). exists d'. split_and!; [done..|by apply (unblanked_erase mode d)|by apply eager_erase].
Qed.
Lemma print_char_commutes c d : sound d → unblanked d → (char_width c = Some 0 → marks_glyph (eager d) = true) → commutes (print_char char_width c) (print_char char_width c) d.
Proof.
  intros Hs Hu Hg. unfold commutes, print_char. destruct (char_width c) as [[|w]|] eqn:Ew; [by apply mark_commutes; auto| |by exists d].
  apply draw_commutes; [done..|]. specialize (Hwidth c _ Ew). lia.
Qed.
Lemma escaped_commutes chars d : Forall (λ c, 32 <= c <= 126)%N chars → sound d → unblanked d → commutes (each (print_char char_width) chars) (each (print_char char_width) chars) d.
Proof.
  intros Hc. revert d. induction Hc as [|c chars Hx Hc IH]; intros d Hs Hu; [by exists d|]. unfold commutes. cbn [each].
  destruct (print_char_commutes c d Hs Hu) as (d1 & -> & H1 & H2 & ->); [by rewrite (Hascii c Hx)|]. cbn [drawn_bind]. by apply IH.
Qed.
Lemma print_commutes c d : sound d → unblanked d → (char_width c = Some 0 → marks_glyph (eager d) = true) →
  commutes (print char_width is_format c) (print char_width is_format c) d.
Proof.
  intros Hs Hu Hg. unfold commutes, print. change (on_line (eager d)) with (on_line d). destruct (negb (on_line d)); [by exists d|]. destruct (c <? 128)%N.
  - destruct (is_control c); [by exists d|]. apply draw_commutes; [done..|]. unfold MAX_GLYPH_WIDTH, TAB_STOP. lia.
  - destruct (is_control c); [by exists d|]. destruct (steers_the_terminal is_format c); [apply escaped_commutes; [apply escape_default_ascii|done..]|by apply print_char_commutes].
Qed.

Lemma steer_commutes params action d : sound d → unblanked d → commutes (steer erase_to_cursor params action) (steer erase_at_once params action) d.
Proof.
  intros Hs Hu. unfold commutes, steer. cbv zeta. change (on_line (eager d)) with (on_line d). change (ld_cursor (eager d)) with (ld_cursor d).
  change (ld_risen (eager d)) with (ld_risen d). change (ld_saved (eager d)) with (ld_saved d).
  repeat match goal with |- ∃ d', (if ?b then _ else _) = _ ∧ _ => destruct b end. all: try (by apply erase_commutes). all: try (by exists d).
  all: eexists; (split; [done|]); unfold save, restore, move_to_column, forward; change (ld_saved (eager d)) with (ld_saved d); change (ld_cursor (eager d)) with (ld_cursor d);
    repeat case_match; (split_and!; [by eapply sound_same|by apply (unblanked_same d)|done]).
Qed.
Lemma tab_commutes d : sound d → unblanked d → commutes tab tab d.
Proof.
  intros Hs Hu. unfold commutes, tab. cbv zeta. rewrite eager_length. change (ld_cursor (eager d)) with (ld_cursor d). destruct (_ <=? _).
  - apply draw_commutes; [done..|]. pose proof (Nat.div_mod_eq (ld_cursor d) TAB_STOP). pose proof (Nat.mod_upper_bound (ld_cursor d) TAB_STOP ltac:(done)). unfold MAX_GLYPH_WIDTH. unfold TAB_STOP in *. lia.
  - eexists. split; [done|]. split_and!; [by eapply sound_same|by apply (unblanked_same d)|done].
Qed.
Definition below (d : LineDrawing) : LineDrawing := put_saved None false (put_risen (if ld_detached d then 0 else ld_risen d - 1) d).
Lemma end_line_below d : end_line d = below (close_line true d).
Proof. reflexivity. Qed.
Lemma eager_below d : below (eager d) = eager (below d).
Proof. reflexivity. Qed.
Lemma eager_end_line d : sound d → unblanked d → end_line (eager d) = eager (end_line d).
Proof. intros Hs Hu. by rewrite !end_line_below, (eager_close true d Hs Hu), eager_below. Qed.

Lemma perform_commutes call d : sound d → unblanked d → well_marked (UCall call) (eager d) = true →
  commutes (perform char_width is_format erase_to_cursor call) (perform char_width is_format erase_at_once call) d.
Proof.
  intros Hs Hu Hg. destruct call as [c|byte| |byte| | |params intermediates ignore action|intermediates ignore byte]; unfold commutes; cbn [perform].
  { apply print_commutes; [done..|]. intros Ew. cbn in Hg. by rewrite Ew in Hg. }
  2-5: eexists; (split; [done|]); (split_and!; [by eapply sound_same|by apply (unblanked_same d)|done]).
  - unfold execute. change (on_line (eager d)) with (on_line d). repeat match goal with |- ∃ d', (if ?b then _ else _) = _ ∧ _ => destruct b end.
    { eexists. split; [done|]. split_and!; [apply end_line_sound|by apply unblanked_empty|by rewrite eager_end_line]. }
    all: try (by apply tab_commutes). all: rewrite ?eager_length; eexists; (split; [done|]); (split_and!; [by eapply sound_same|by apply (unblanked_same d)|done]).
  - unfold csi_dispatch. cbv zeta. repeat match goal with |- ∃ d', (if ?b then _ else _) = _ ∧ _ => destruct b end.
    4: { change (put_steered true (eager d)) with (eager (put_steered true d)). apply steer_commutes; [by eapply sound_same|by apply (unblanked_same d)]. }
    all: eexists; (split; [done|]); unfold push_pen_of, pop_pen; change (ld_pushed (eager d)) with (ld_pushed d); repeat case_match;
      (split_and!; [by eapply sound_same|by apply (unblanked_same d)|done]).
  - unfold esc_dispatch. cbv zeta. change (put_steered true (eager d)) with (eager (put_steered true d)).
    repeat match goal with |- ∃ d', (if ?b then _ else _) = _ ∧ _ => destruct b end.
    4: { eexists. split; [done|]. split_and!; [by apply sound_empty|by apply unblanked_empty|]. unfold full_reset. by rewrite <-eager_clear. }
    all: eexists; (split; [done|]); unfold save, restore; change (ld_saved (eager ?d)) with (ld_saved d); repeat case_match;
      (split_and!; [by eapply sound_same|by apply (unblanked_same d)|done]).
Qed.

Lemma use_commutes u d : sound d → unblanked d → well_marked u (eager d) = true →
  ∃ out d', use erase_to_cursor u d = Done (out, d') ∧ sound d' ∧ unblanked d' ∧ use erase_at_once u (eager d) = Done (unstamped <$> out, eager d').
Proof.
  intros Hs Hu Hg. destruct u as [call| | | | |]; cbn [use].
  - destruct (perform_commutes call d Hs Hu Hg) as (d' & -> & H1 & H2 & ->). by exists [], d'.
  - eexists _, _. split; [done|]. split_and!; [by eapply sound_same|by apply (unblanked_same d)|done].
  - unfold take_partial. rewrite (eager_snapshot d Hs Hu). cbv zeta. rewrite unstamped_end, unstamped_slice. change (ld_shown (eager d)) with (ld_shown d).
    pose proof (take_partial_sound d Hs) as Hp. unfold take_partial in Hp. cbv zeta in Hp. destruct (_ <=? _); [by exists [], d|].
    eexists _, _. split; [done|]. split_and!; [exact Hp|by apply (unblanked_same d)|done].
  - unfold peek. rewrite (eager_snapshot d Hs Hu). cbv zeta. rewrite unstamped_blank. eexists _, _. split; [done|]. split_and!; [done..|]. by destruct (is_blank _).
  - eexists _, _. split; [done|]. split_and!; [apply close_sound|by apply unblanked_empty|]. unfold finish. by rewrite eager_close.
  - eexists _, _. split; [done|]. split_and!; [by apply sound_empty|by apply unblanked_empty|]. done.
Qed.

Lemma uses_commute us d : sound d → unblanked d → all_well_marked us (eager d) = true →
  ∃ out d', uses erase_to_cursor us d = Done (out, d') ∧ uses erase_at_once us (eager d) = Done (unstamped <$> out, eager d').
Proof.
  revert d. induction us as [|u us IH]; intros d Hs Hu Hg; [by exists [], d|]. cbn [all_well_marked] in Hg. apply andb_true_iff in Hg as [Hg1 Hg2]. cbn [uses].
  destruct (use_commutes u d Hs Hu Hg1) as (out & d1 & -> & H1 & H2 & E). rewrite E in Hg2 |- *. cbn [drawn_bind fst snd] in *. destruct (IH d1 H1 H2 Hg2) as (out2 & d2 & -> & ->). cbn [drawn_bind fst snd].
  exists (out ++ out2), d2. by rewrite fmap_app.
Qed.

(** C10: recording an erase to the cursor instead of writing it changes nothing a
    reader sees: whatever is drawn on a line and however its lines are taken, as
    finished, in part or peeked at, every text handed out, plain or coloured, is
    that of the line whose cells are blanked at once, and neither panics, given
    that a combining mark sits on a glyph and not on an unstyled blank, that
    characters are no wider than a tab stop and that those of escaped text take
    one column. *)
Theorem erasures_read_as_erased (us : list Use) :
  all_well_marked us drawing_default = true →
  ∃ out d out' e, uses erase_to_cursor us drawing_default = Done (out, d) ∧ uses erase_at_once us drawing_default = Done (out', e) ∧
    ∀ coloring, line_text coloring <$> out = line_text coloring <$> out'.
Proof.
  intros Hg. assert (eager drawing_default = drawing_default) as E by done. rewrite <-E in Hg.
  destruct (uses_commute us drawing_default sound_default (unblanked_empty drawing_default eq_refl) Hg) as (out & d & E1 & E2). rewrite E in E2.
  exists out, d, (unstamped <$> out), (eager d). split_and!; [done..|]. intros coloring. rewrite <-list_fmap_compose. apply list_fmap_ext. intros i l _. cbn. by rewrite unstamped_text.
Qed.
End uses.

(** ** Without the marks *)
(** An unstyled blank that carries a mark, drawn before any erase of its line,
    keeps the mark when the line is erased up to it, so the line is handed out
    although nothing is left on it: the record alone does not tell such a cell
    from an erased one. *)
Lemma erased_mark_survives :
  let char_width c := if (c =? 769)%N then Some 0 else Some 1 in
  let erased := [UCall (DPrint 32); UCall (DPrint 769); UCall (DCsi [[1%N]] [] false ERASE_IN_LINE); UCall (DExecute LINE_FEED); UTakeLines] in
  ∃ d e, uses char_width (λ _, false) erase_to_cursor erased drawing_default = Done (d, e) ∧ plain <$> d = [[32; 769]%N].
Proof. eexists _, _. split; [vm_compute; reflexivity|]. by vm_compute. Qed.
Lemma erased_mark_gone :
  let char_width c := if (c =? 769)%N then Some 0 else Some 1 in
  let erased := [UCall (DPrint 32); UCall (DPrint 769); UCall (DCsi [[1%N]] [] false ERASE_IN_LINE); UCall (DExecute LINE_FEED); UTakeLines] in
  ∃ e, uses char_width (λ _, false) erase_at_once erased drawing_default = Done ([], e).
Proof. eexists. vm_compute. reflexivity. Qed.

Module EraseWitness.
(** Characters of one column, and one of two. *)
Definition widths (c : rchar) : option nat := if (c =? 769)%N then Some 0 else if (c <? 4352)%N then Some 1 else Some 2.
Definition erased : list Use :=
  [UCall (DPrint 97); UCall (DPrint 769); UCall (DPrint 4352); UCall (DPrint 98); UCall (DCsi [[3%N]] [] false CURSOR_BACK); UTakePartial;
   UCall (DCsi [[1%N]] [] false ERASE_IN_LINE); UCall (DPrint 99); UPeek; UCall (DExecute LINE_FEED); UTakeLines].
Lemma erasures_read_as_erased_witness :
  all_well_marked widths (λ _, false) erased drawing_default = true ∧
  ∃ out d out' e, uses widths (λ _, false) erase_to_cursor erased drawing_default = Done (out, d) ∧
    uses widths (λ _, false) erase_at_once erased drawing_default = Done (out', e) ∧
    ∀ coloring, line_text coloring <$> out = line_text coloring <$> out'.
Proof.
  assert (all_well_marked widths (λ _, false) erased drawing_default = true) as Hg by (by vm_compute). split; [exact Hg|]. revert Hg. apply erasures_read_as_erased.
  - intros c w. unfold widths. destruct (c =? 769)%N, (c <? 4352)%N; intros [= <-]; unfold MAX_GLYPH_WIDTH, TAB_STOP; lia.
  - intros c Hc. unfold widths. destruct (N.eqb_spec c 769); [lia|]. by destruct (N.ltb_spec c 4352); [|lia].
Defined.
End EraseWitness.
