(* ===== verification/Holder.v ===== *)
(** * The holder of a child

    Models muster-holder/src/server.rs with byte_queue.rs, connected_client.rs,
    client_id.rs, holder_event.rs, flow.rs, reset_warning.rs and child_guard.rs:
    the loop that owns a child's terminal, screen and log and serves them to a
    supervisor and to attached terminals.

    The log is LogFile.v's, over a disk whose calls may fail; the screen and the
    keyboard are Terminal.v's. A queued frame is the message it encodes, weighed
    as its frame in Frame.v; its encoding cannot fail. The threads around the
    loop are events in any order: a client connecting, sending a message or
    going away, its writer taking a frame off its queue and then freeing the
    frame's room, the child's input writer doing the same, the child's output
    and exit, and timers. What the loop does outside is an [Act], the newest
    first; whether the child takes a call is an answer of the environment, by
    how many were made. [hs_next] is the acceptor's count of connections. *)
From S2P Require Import Prelude RustText Values Config Process Frame Tap LogFile LogSpan Terminal Screen Emulator.

Definition CLIENT_OUTBOX_BYTES : N := 1024 * 1024.
Definition CHILD_INPUT_BYTES : N := 1024 * 1024.
Definition SCREEN_RESET_WARNING : rstr := lit "the terminal emulator failed on the process's output; its screen was reset".

(** ** Byte queues *)
(** [bq_taken] is the room of what the consumer took and did not free yet, and
    [bq_out] all it ever took, which the code does not keep. *)
Record ByteQueue (T : Type) := {
  bq_items : list (T * N);
  bq_queued : N;
  bq_cap : N;
  bq_taken : list N;
  bq_out : list T;
}.
Arguments bq_items {T}.
Arguments bq_queued {T}.
Arguments bq_cap {T}.
Arguments bq_taken {T}.
Arguments bq_out {T}.

Definition queue_new {T} (cap : N) : ByteQueue T := {| bq_items := []; bq_queued := 0; bq_cap := cap; bq_taken := []; bq_out := [] |}.

(** The queue holds a receiver itself, so sending never fails. *)
Definition force_push {T} (item : T) (bytes : N) (q : ByteQueue T) : ByteQueue T :=
  {| bq_items := bq_items q ++ [(item, bytes)]; bq_queued := (bq_queued q + bytes)%N; bq_cap := bq_cap q; bq_taken := bq_taken q; bq_out := bq_out q |}.

Definition try_push {T} (item : T) (bytes : N) (q : ByteQueue T) : bool * ByteQueue T :=
  if negb (bq_queued q =? 0)%N && (bq_cap q <? u64_saturating_add (bq_queued q) bytes)%N then (false, q) else (true, force_push item bytes q).

Definition weight {T} (items : list (T * N)) : N := foldr (λ it n, it.2 + n)%N 0%N items.

Definition clear {T} (q : ByteQueue T) : list T * ByteQueue T :=
  (fst <$> bq_items q,
   {| bq_items := []; bq_queued := (bq_queued q - weight (bq_items q))%N; bq_cap := bq_cap q; bq_taken := bq_taken q; bq_out := bq_out q |}).

(** The consumer's two steps: an item received, then its room freed. *)
Definition consume {T} (q : ByteQueue T) : ByteQueue T :=
  match bq_items q with
  | [] => q
  | (item, bytes) :: items =>
    {| bq_items := items; bq_queued := bq_queued q; bq_cap := bq_cap q; bq_taken := bq_taken q ++ [bytes]; bq_out := bq_out q ++ [item] |}
  end.
Definition release {T} (q : ByteQueue T) : ByteQueue T :=
  match bq_taken q with
  | [] => q
  | bytes :: taken =>
    {| bq_items := bq_items q; bq_queued := (bq_queued q - bytes)%N; bq_cap := bq_cap q; bq_taken := taken; bq_out := bq_out q |}
  end.

(** ** Clients, events and acts *)
#[export] Instance ClientRole_eq_dec : EqDecision ClientRole.
Proof. solve_decision. Defined.

Record Client := { cl_role : option ClientRole; cl_outbox : ByteQueue HolderMessage }.

Inductive ResetWarning := Unneeded | Pending_ | Sent.
#[export] Instance ResetWarning_eq_dec : EqDecision ResetWarning.
Proof. solve_decision. Defined.

Inductive HolderEvent :=
| Chunk (bytes : list N)
| ChildExited (outcome : ExitOutcome)
| GraceElapsed
| SupervisorDeadline
| Connected (cloned : bool)
| Message (client : N) (message : ClientMessage)
| Disconnected (client : N)
| FrameTaken (client : N)
| FrameFreed (client : N)
| InputTaken
| InputFreed.

Inductive Flow := Continue_ | Finish.
#[export] Instance Flow_eq_dec : EqDecision Flow.
Proof. solve_decision. Defined.

(** A call on the child, with whether it took it; a timer armed; a connection
    shut. *)
Inductive Act :=
| APause (ok : bool)
| AResume (ok : bool)
| ATerminate (signal : StopSignal) (grace : duration) (ok : bool)
| AKill
| AResize (size : PtySize) (ok : bool)
| ATimer (after : duration)
| AShut (client : N).

Section server.
Context `{VtParser, Backend}.
Context `{Json ExitOutcomeWire, Json RejectReason, Json rstr}.
Context (io : LogFile.Io) (allows : nat → bool).

Record HolderServer := {
  hs_exited : bool;
  hs_pid : N;
  hs_input : ByteQueue (list N);
  hs_emulator : Emulator;
  hs_keyboard : Tracker;
  hs_log : RotatingLog;
  hs_disk : Writer;
  hs_gate : bool;
  hs_run_start : N;
  hs_clients : gmap N Client;
  hs_resizes : list (N * PtySize);
  hs_size : PtySize;
  hs_exit : option ExitOutcome;
  hs_supervised : bool;
  hs_reported : N;
  hs_warning : ResetWarning;
  hs_acts : list Act;
  hs_next : N;
}.

Definition on_clients (f : gmap N Client → gmap N Client) (h : HolderServer) : HolderServer :=
  {| hs_exited := hs_exited h; hs_pid := hs_pid h; hs_input := hs_input h; hs_emulator := hs_emulator h; hs_keyboard := hs_keyboard h;
     hs_log := hs_log h; hs_disk := hs_disk h; hs_gate := hs_gate h; hs_run_start := hs_run_start h; hs_clients := f (hs_clients h);
     hs_resizes := hs_resizes h; hs_size := hs_size h; hs_exit := hs_exit h; hs_supervised := hs_supervised h; hs_reported := hs_reported h;
     hs_warning := hs_warning h; hs_acts := hs_acts h; hs_next := hs_next h |}.
Definition with_child (exited : bool) (exit : option ExitOutcome) (h : HolderServer) : HolderServer :=
  {| hs_exited := exited; hs_pid := hs_pid h; hs_input := hs_input h; hs_emulator := hs_emulator h; hs_keyboard := hs_keyboard h;
     hs_log := hs_log h; hs_disk := hs_disk h; hs_gate := hs_gate h; hs_run_start := hs_run_start h; hs_clients := hs_clients h;
     hs_resizes := hs_resizes h; hs_size := hs_size h; hs_exit := exit; hs_supervised := hs_supervised h; hs_reported := hs_reported h;
     hs_warning := hs_warning h; hs_acts := hs_acts h; hs_next := hs_next h |}.
Definition on_input (f : ByteQueue (list N) → ByteQueue (list N)) (h : HolderServer) : HolderServer :=
  {| hs_exited := hs_exited h; hs_pid := hs_pid h; hs_input := f (hs_input h); hs_emulator := hs_emulator h; hs_keyboard := hs_keyboard h;
     hs_log := hs_log h; hs_disk := hs_disk h; hs_gate := hs_gate h; hs_run_start := hs_run_start h; hs_clients := hs_clients h;
     hs_resizes := hs_resizes h; hs_size := hs_size h; hs_exit := hs_exit h; hs_supervised := hs_supervised h; hs_reported := hs_reported h;
     hs_warning := hs_warning h; hs_acts := hs_acts h; hs_next := hs_next h |}.
Definition with_screen (e : Emulator) (k : Tracker) (gate : bool) (h : HolderServer) : HolderServer :=
  {| hs_exited := hs_exited h; hs_pid := hs_pid h; hs_input := hs_input h; hs_emulator := e; hs_keyboard := k;
     hs_log := hs_log h; hs_disk := hs_disk h; hs_gate := gate; hs_run_start := hs_run_start h; hs_clients := hs_clients h;
     hs_resizes := hs_resizes h; hs_size := hs_size h; hs_exit := hs_exit h; hs_supervised := hs_supervised h; hs_reported := hs_reported h;
     hs_warning := hs_warning h; hs_acts := hs_acts h; hs_next := hs_next h |}.
Definition with_log (l : RotatingLog) (w : Writer) (h : HolderServer) : HolderServer :=
  {| hs_exited := hs_exited h; hs_pid := hs_pid h; hs_input := hs_input h; hs_emulator := hs_emulator h; hs_keyboard := hs_keyboard h;
     hs_log := l; hs_disk := w; hs_gate := hs_gate h; hs_run_start := hs_run_start h; hs_clients := hs_clients h;
     hs_resizes := hs_resizes h; hs_size := hs_size h; hs_exit := hs_exit h; hs_supervised := hs_supervised h; hs_reported := hs_reported h;
     hs_warning := hs_warning h; hs_acts := hs_acts h; hs_next := hs_next h |}.
Definition with_sizes (resizes : list (N * PtySize)) (size : PtySize) (e : Emulator) (h : HolderServer) : HolderServer :=
  {| hs_exited := hs_exited h; hs_pid := hs_pid h; hs_input := hs_input h; hs_emulator := e; hs_keyboard := hs_keyboard h;
     hs_log := hs_log h; hs_disk := hs_disk h; hs_gate := hs_gate h; hs_run_start := hs_run_start h; hs_clients := hs_clients h;
     hs_resizes := resizes; hs_size := size; hs_exit := hs_exit h; hs_supervised := hs_supervised h; hs_reported := hs_reported h;
     hs_warning := hs_warning h; hs_acts := hs_acts h; hs_next := hs_next h |}.
Definition with_report (supervised : bool) (reported : N) (warning : ResetWarning) (h : HolderServer) : HolderServer :=
  {| hs_exited := hs_exited h; hs_pid := hs_pid h; hs_input := hs_input h; hs_emulator := hs_emulator h; hs_keyboard := hs_keyboard h;
     hs_log := hs_log h; hs_disk := hs_disk h; hs_gate := hs_gate h; hs_run_start := hs_run_start h; hs_clients := hs_clients h;
     hs_resizes := hs_resizes h; hs_size := hs_size h; hs_exit := hs_exit h; hs_supervised := supervised; hs_reported := reported;
     hs_warning := warning; hs_acts := hs_acts h; hs_next := hs_next h |}.
Definition act (a : Act) (h : HolderServer) : HolderServer :=
  {| hs_exited := hs_exited h; hs_pid := hs_pid h; hs_input := hs_input h; hs_emulator := hs_emulator h; hs_keyboard := hs_keyboard h;
     hs_log := hs_log h; hs_disk := hs_disk h; hs_gate := hs_gate h; hs_run_start := hs_run_start h; hs_clients := hs_clients h;
     hs_resizes := hs_resizes h; hs_size := hs_size h; hs_exit := hs_exit h; hs_supervised := hs_supervised h; hs_reported := hs_reported h;
     hs_warning := hs_warning h; hs_acts := a :: hs_acts h; hs_next := hs_next h |}.

Definition on_outbox (client : N) (f : ByteQueue HolderMessage → ByteQueue HolderMessage) : HolderServer → HolderServer :=
  on_clients (alter (λ c, {| cl_role := cl_role c; cl_outbox := f (cl_outbox c) |}) client).

(** ** Messages out *)
Definition is_role (wanted : ClientRole → bool) (c : Client) : bool := match cl_role c with Some role => wanted role | None => false end.
Definition is_supervisor (role : ClientRole) : bool := bool_decide (role = Supervisor).
Definition is_attach (role : ClientRole) : bool := match role with Attach _ => true | Supervisor => false end.

(** The clients whose role satisfies [wanted]. *)
Definition chosen (wanted : ClientRole → bool) (h : HolderServer) : list N :=
  fst <$> filter (λ it : N * Client, is_role wanted it.2 = true) (map_to_list (hs_clients h)).

Definition writable_attached (h : HolderServer) : N :=
  N.min (N.of_nat (length (chosen (λ role, match role with Attach false => true | _ => false end) h))) u32_max.

Definition snapshot (h : HolderServer) : HolderMessage :=
  Snapshot (repaint (hs_emulator h) ++ restore_sequence (hs_keyboard h)) (hs_size h) (hs_pid h) (writable_attached h) (hs_run_start h)
    (log_end (hs_log h)).

Definition message_weight (m : HolderMessage) : N := N.of_nat (wire_len (holder_to_frame m)).
Definition is_warning (m : HolderMessage) : bool := match m with Warning_ _ => true | _ => false end.

(** Replaces what is queued for a client with the live screen, the warnings it did
    not take yet, a warning still owed and the exit. *)
Definition resync (client : N) (h : HolderServer) : HolderServer :=
  match hs_clients h !! client with
  | None => h
  | Some entry =>
    let owes := is_role is_supervisor entry && bool_decide (hs_warning h = Pending_) in
    let owed := if owes then [Warning_ SCREEN_RESET_WARNING] else [] in
    let '(queued, cleared) := clear (cl_outbox entry) in
    let messages := snapshot h :: filter (λ m, is_warning m = true) queued ++ owed ++ match hs_exit h with Some outcome => [Exited_ outcome] | None => [] end in
    on_outbox client (λ _, foldl (λ q m, force_push m (message_weight m) q) cleared messages)
      (if owes then with_report (hs_supervised h) (hs_reported h) Sent h else h)
  end.

Definition resync_where (wanted : ClientRole → bool) (h : HolderServer) : HolderServer := foldl (λ h c, resync c h) h (chosen wanted h).
Definition resync_attached : HolderServer → HolderServer := resync_where is_attach.
Definition resync_all : HolderServer → HolderServer := resync_where (λ _, true).

(** [send] to a client that has said hello: one that is stalled is resynced. *)
Definition tell (m : HolderMessage) (client : N) (h : HolderServer) : HolderServer :=
  match hs_clients h !! client with
  | None => h
  | Some entry =>
    let '(pushed, outbox) := try_push m (message_weight m) (cl_outbox entry) in
    if (pushed : bool) then on_outbox client (λ _, outbox) h else resync client h
  end.

Definition report_attached (h : HolderServer) : HolderServer :=
  let attached := writable_attached h in
  if (attached =? hs_reported h)%N then h else
  let h := with_report (hs_supervised h) attached (hs_warning h) h in
  foldl (λ h c, tell (Attached attached) c h) h (chosen is_supervisor h).

(** Resizes the child's terminal; whether its size changed, or the child refused. *)
Definition apply_size (size : PtySize) (h : HolderServer) : result bool unit * HolderServer :=
  if bool_decide (size = hs_size h) then (Ok false, h) else
  let ok := allows (length (hs_acts h)) in
  let h := act (AResize size ok) h in
  if ok then (Ok true, with_sizes (hs_resizes h) size (em_set_size (rows size) (cols size) (hs_emulator h)) h) else (Err tt, h).

Definition drop_client (client : N) (h : HolderServer) : HolderServer :=
  let h := match hs_clients h !! client with Some _ => act (AShut client) (on_clients (delete client) h) | None => h end in
  let h := report_attached h in
  let was_latest := match last (hs_resizes h) with Some (id, _) => (id =? client)%N | None => false end in
  let h := with_sizes (filter (λ it, it.1 ≠ client) (hs_resizes h)) (hs_size h) (hs_emulator h) h in
  match was_latest, last (hs_resizes h) with
  | true, Some (_, size) =>
    match apply_size size h with
    | (Ok true, h) => resync_attached h
    | (_, h) => h
    end
  | _, _ => h
  end.

Definition on_stalled (client : N) (h : HolderServer) : HolderServer :=
  match hs_clients h !! client ≫= cl_role with
  | Some _ => resync client h
  | None => drop_client client h
  end.

Definition send (client : N) (m : HolderMessage) (h : HolderServer) : HolderServer :=
  match hs_clients h !! client with
  | None => h
  | Some entry =>
    let '(pushed, outbox) := try_push m (message_weight m) (cl_outbox entry) in
    if (pushed : bool) then on_outbox client (λ _, outbox) h else on_stalled client h
  end.

(** Queues a message for every client whose role takes it, then handles those it
    did not fit. *)
Definition pushes_to (takes : ClientRole → bool) (m : HolderMessage) (c : Client) : Client :=
  if is_role takes c then {| cl_role := cl_role c; cl_outbox := (try_push m (message_weight m) (cl_outbox c)).2 |} else c.
Definition refuses (takes : ClientRole → bool) (m : HolderMessage) (c : Client) : bool :=
  is_role takes c && negb (try_push m (message_weight m) (cl_outbox c)).1.
Definition broadcast_to (takes : ClientRole → bool) (m : HolderMessage) (h : HolderServer) : HolderServer :=
  let stalled := fst <$> filter (λ it : N * Client, refuses takes m it.2 = true) (map_to_list (hs_clients h)) in
  foldl (λ h c, on_stalled c h) (on_clients (fmap (pushes_to takes m)) h) stalled.
Definition broadcast : HolderMessage → HolderServer → HolderServer := broadcast_to (λ _, true).

Definition reject (client : N) (reason : RejectReason) (h : HolderServer) : HolderServer := send client (Rejected reason) h.

(** ** The child's side *)
Definition on_exit (outcome : ExitOutcome) (h : HolderServer) : HolderServer :=
  let h := with_child true (Some outcome) h in
  let h := foldl (λ h c, send c (snapshot h) h) h (chosen is_supervisor h) in
  broadcast (Exited_ outcome) h.

(** Whether the log took the chunk itself: [whole] when the gate passed it on, as
    much of it as it is long. A copy the log made to end an open line, of which it
    could write no more than the chunk, has the chunk's bytes. *)
Definition is_exactly (whole : bool) (held bytes : list N) : bool := whole && (length held =? length bytes).

Definition on_output (bytes : list N) (h : HolderServer) : HolderServer :=
  let '(reset, emulator) := process_or_reset bytes (hs_emulator h) in
  let '(writes, emulator) := take_pty_writes emulator in
  let '(replies, keyboard) := observe bytes (hs_keyboard h) in
  let replies := writes ++ replies in
  let h := match replies with [] => h | _ => on_input (λ q, (try_push replies (N.of_nat (length replies)) q).2) h end in
  let '(switches, emulator) := take_screen_switches emulator in
  let '(whole, logged, gate) := logged bytes switches (hs_gate h) in
  let h := with_screen emulator keyboard gate h in
  let at_ := log_end (hs_log h) in
  let '(held, outcome, (l, w)) := append_held io logged (hs_log h, hs_disk h) in
  let h := with_log l w h in
  let unlogged := if is_ok outcome then [] else drop (length held) logged in
  if (reset : bool) then
    resync_all (if bool_decide (hs_warning h = Unneeded) then with_report (hs_supervised h) (hs_reported h) Pending_ h else h)
  else
  let h :=
    if is_exactly whole held bytes then broadcast (Output at_ bytes) h
    else
      let h := match held with [] => h | _ => broadcast_to is_supervisor (Output at_ held) h end in
      broadcast_to is_attach (Output at_ bytes) h in
  match unlogged with [] => h | _ => broadcast_to is_supervisor (Unlogged unlogged) h end.

Definition control (c : HolderControl) (h : HolderServer) : bool * HolderServer :=
  let ok := allows (length (hs_acts h)) in
  match c with
  | HPause => (ok, act (APause ok) h)
  | HResume => (ok, act (AResume ok) h)
  | HTerminate signal grace => (ok, if ok then act (ATimer grace) (act (ATerminate signal grace ok) h) else act (ATerminate signal grace ok) h)
  | HKill => (ok, act AKill h)
  end.

(** ** Clients *)
(** The acceptor numbers the connections in the order the loop hears of them. *)
Definition next_client (h : HolderServer) : HolderServer :=
  {| hs_exited := hs_exited h; hs_pid := hs_pid h; hs_input := hs_input h; hs_emulator := hs_emulator h; hs_keyboard := hs_keyboard h;
     hs_log := hs_log h; hs_disk := hs_disk h; hs_gate := hs_gate h; hs_run_start := hs_run_start h; hs_clients := hs_clients h;
     hs_resizes := hs_resizes h; hs_size := hs_size h; hs_exit := hs_exit h; hs_supervised := hs_supervised h; hs_reported := hs_reported h;
     hs_warning := hs_warning h; hs_acts := hs_acts h; hs_next := (hs_next h + 1)%N |}.

Definition on_connected (client : N) (cloned : bool) (h : HolderServer) : HolderServer :=
  if cloned then on_clients <[client := {| cl_role := None; cl_outbox := queue_new CLIENT_OUTBOX_BYTES |}]> h else act (AShut client) h.

Definition on_hello (client : N) (role : ClientRole) (h : HolderServer) : HolderServer :=
  let h := if is_supervisor role then
             let h := with_report true (hs_reported h) (hs_warning h) h in
             foldl (λ h c, drop_client c h) h (chosen is_supervisor h)
           else h in
  match hs_clients h !! client with
  | None => h
  | Some entry =>
    let h := on_clients <[client := {| cl_role := Some role; cl_outbox := cl_outbox entry |}]> h in
    let h := if is_supervisor role then with_report (hs_supervised h) (writable_attached h) (hs_warning h) h else h in
    report_attached (resync client h)
  end.

Definition on_message (client : N) (message : ClientMessage) (h : HolderServer) : Flow * HolderServer :=
  let continue_ h := (Continue_, h) in
  match cl_role <$> hs_clients h !! client with
  | None => continue_ h
  | Some None =>
    match message with
    | Hello role => continue_ (on_hello client role h)
    | _ => continue_ (reject client HelloRequired h)
    end
  | Some (Some role) =>
    match message with
    | Hello _ => continue_ (reject client AlreadyIntroduced h)
    | Input bytes =>
      if negb (writable role) then continue_ (reject client ReadOnly_ h) else
      let '(pushed, input) := try_push bytes (N.of_nat (length bytes)) (hs_input h) in
      if (pushed : bool) then continue_ (on_input (λ _, input) h) else continue_ (reject client InputBacklogged h)
    | Resize size =>
      if negb (writable role) then continue_ (reject client ReadOnly_ h) else
      let h := with_sizes (filter (λ it, it.1 ≠ client) (hs_resizes h) ++ [(client, size)]) (hs_size h) (hs_emulator h) h in
      match apply_size size h with
      | (Ok true, h) => continue_ (resync_attached h)
      | (Ok false, h) => continue_ h
      | (Err _, h) => continue_ (reject client ChildUnavailable h)
      end
    | Control c =>
      if negb (is_supervisor role) then continue_ (reject client SupervisorOnly h) else
      let '(ok, h) := control c h in
      continue_ (if (ok : bool) then h else reject client ChildUnavailable h)
    | CollectExit =>
      if negb (is_supervisor role) then continue_ (reject client SupervisorOnly h) else
      match hs_exit h with
      | Some _ => (Finish, h)
      | None => continue_ (reject client NotExited h)
      end
    end
  end.

(** ** The loop *)
Definition kill_running (h : HolderServer) : HolderServer := if hs_exited h then h else act AKill h.

(** One event; [Finish] ends the loop. *)
Definition on_event (ev : HolderEvent) (h : HolderServer) : Flow * HolderServer :=
  match ev with
  | Chunk bytes => (Continue_, on_output bytes h)
  | ChildExited outcome => (Continue_, on_exit outcome h)
  | GraceElapsed => (Continue_, kill_running h)
  | SupervisorDeadline => if hs_supervised h then (Continue_, h) else (Finish, kill_running h)
  | Connected cloned => (Continue_, on_connected (hs_next h) cloned (next_client h))
  | Message client message => on_message client message h
  | Disconnected client => (Continue_, drop_client client h)
  | FrameTaken client => (Continue_, on_outbox client consume h)
  | FrameFreed client => (Continue_, on_outbox client release h)
  | InputTaken => (Continue_, on_input consume h)
  | InputFreed => (Continue_, on_input release h)
  end.

Fixpoint serve (events : list HolderEvent) (h : HolderServer) : Flow * HolderServer :=
  match events with
  | [] => (Continue_, h)
  | ev :: events => match on_event ev h with (Finish, h) => (Finish, h) | (Continue_, h) => serve events h end
  end.

(** The server over a child just spawned, its log opened. *)
Definition server_new (pid : N) (size : PtySize) (scrollback : N) (scheme : ColorScheme) (l : RotatingLog) (w : Writer) : HolderServer :=
  {| hs_exited := false; hs_pid := pid; hs_input := queue_new CHILD_INPUT_BYTES;
     hs_emulator := emulator_new (rows size) (cols size) scrollback scheme; hs_keyboard := tracker_default; hs_log := l; hs_disk := w; hs_gate := false;
     hs_run_start := lg_run_start l; hs_clients := ∅; hs_resizes := []; hs_size := size; hs_exit := None; hs_supervised := false;
     hs_reported := 0; hs_warning := Unneeded; hs_acts := []; hs_next := 0 |}.

Definition run_holder (cap : N) (pid : N) (size : PtySize) (scrollback : N) (scheme : ColorScheme) (events : list HolderEvent) (w : Writer) : option (Flow * HolderServer) :=
  match log_open io cap w with
  | (Err _, _) => None
  | (Ok l, w) =>
    let '(l, w) := start_run io (l, w) in
    Some (serve events (server_new pid size scrollback scheme l w))
  end.
End server.
