(* ===== verification/HolderSafe.v ===== *)
(** * What a holder's clients see

    Every client that said hello can rebuild what it needs from the messages it
    was sent: the exit, the size its screen was laid out for, and for the
    supervisor the writable terminals attached and the log, byte for byte, from
    its last snapshot on. Proved over every sequence of events the holder of
    Holder.v takes. *)
From S2P Require Import Prelude RustText Values Config Process Frame Tap LogFile LogSpan LogPlaced Terminal Screen Emulator Holder.

(** ** What a client makes of its messages *)
Record View := { vw_size : PtySize; vw_attached : N; vw_exit : option ExitOutcome; vw_from : N; vw_bytes : list N; vw_gap : bool }.

(** A snapshot starts over; output is placed after what came before it, or leaves
    a gap. *)
Definition view_step (v : option View) (m : HolderMessage) : option View :=
  match m, v with
  | Snapshot _ size _ attached _ end_, _ => Some {| vw_size := size; vw_attached := attached; vw_exit := None; vw_from := end_; vw_bytes := []; vw_gap := false |}
  | Output at_ bytes, Some v =>
    Some {| vw_size := vw_size v; vw_attached := vw_attached v; vw_exit := vw_exit v; vw_from := vw_from v; vw_bytes := vw_bytes v ++ bytes;
            vw_gap := vw_gap v || negb (at_ =? vw_from v + N.of_nat (length (vw_bytes v)))%N |}
  | Exited_ outcome, Some v =>
    Some {| vw_size := vw_size v; vw_attached := vw_attached v; vw_exit := Some outcome; vw_from := vw_from v; vw_bytes := vw_bytes v; vw_gap := vw_gap v |}
  | Attached n, Some v =>
    Some {| vw_size := vw_size v; vw_attached := n; vw_exit := vw_exit v; vw_from := vw_from v; vw_bytes := vw_bytes v; vw_gap := vw_gap v |}
  | _, v => v
  end.

(** All a client was ever sent: what its writer took, and what is queued. *)
Definition sent (q : ByteQueue HolderMessage) : list HolderMessage := bq_out q ++ (fst <$> bq_items q).
Definition view_of (q : ByteQueue HolderMessage) : option View := foldl view_step None (sent q).

Lemma view_force_push m bytes q : view_of (force_push m bytes q) = view_step (view_of q) m.
Proof. unfold view_of, sent, force_push. cbn [bq_out bq_items]. rewrite fmap_app, app_assoc, foldl_app. reflexivity. Qed.
Lemma sent_consume q : sent (consume q) = sent q.
Proof. unfold consume, sent. destruct (bq_items q) as [|[m n] items] eqn:E; [by rewrite E|]. cbn [bq_out bq_items]. rewrite fmap_cons, <-app_assoc. reflexivity. Qed.
Lemma sent_release q : sent (release q) = sent q.
Proof. unfold release. by destruct (bq_taken q). Qed.
Lemma try_push_cases {T} (m : T) bytes q : try_push m bytes q = (true, force_push m bytes q) ∨ try_push m bytes q = (false, q).
Proof. unfold try_push. destruct (_ && _); auto. Qed.

Lemma view_warnings v ms : Forall (λ m, is_warning m = true) ms → foldl view_step (Some v) ms = Some v.
Proof. induction 1 as [|m ms Hm _ IH]; [done|]. destruct m; try done. Qed.

Section server.
Context `{VtParser, Backend}.
Context `{Json ExitOutcomeWire, Json RejectReason, Json rstr}.
Context (io : LogFile.Io) (allows : nat → bool).

Notation stream h := (wr_stream (hs_disk h)).

(** ** The clients a choice takes *)
Lemma chosen_elem p h c : c ∈ chosen p h ↔ ∃ entry, hs_clients h !! c = Some entry ∧ is_role p entry = true.
Proof.
  unfold chosen. rewrite list_elem_of_fmap. split.
  - intros ([c' entry] & -> & [Hr Hin]%list_elem_of_filter). apply elem_of_map_to_list in Hin. by exists entry.
  - intros (entry & Hc & Hr). exists (c, entry). split; [done|]. apply list_elem_of_filter. split; [done|]. by apply elem_of_map_to_list.
Qed.
Lemma chosen_NoDup p h : NoDup (chosen p h).
Proof.
  unfold chosen. pose proof (NoDup_fst_map_to_list (hs_clients h)) as Hn. revert Hn. generalize (map_to_list (hs_clients h)).
  intros l. induction l as [|[c entry] l IH]; intros Hn; [constructor|]. rewrite fmap_cons in Hn. apply NoDup_cons in Hn as [Hc Hn]. rewrite filter_cons.
  destruct (decide _); [|by apply IH]. rewrite fmap_cons. apply NoDup_cons. split; [|by apply IH]. intros Hin. apply Hc.
  apply list_elem_of_fmap in Hin as (x & -> & [_ Hx]%list_elem_of_filter). apply list_elem_of_fmap. by exists x.
Qed.

(** ** Steps that tell one client something *)
Definition roles_eq (h h' : HolderServer) : Prop := ∀ c, cl_role <$> hs_clients h' !! c = cl_role <$> hs_clients h !! c.

(** What messages leave of a holder: all but its clients' queues, and whether a
    warning is owed. *)
Record kept (h h' : HolderServer) : Prop := {
  kp_roles : roles_eq h h';
  kp_log : hs_log h' = hs_log h;
  kp_disk : hs_disk h' = hs_disk h;
  kp_input : hs_input h' = hs_input h;
  kp_size : hs_size h' = hs_size h;
  kp_resizes : hs_resizes h' = hs_resizes h;
  kp_exit : hs_exit h' = hs_exit h;
  kp_exited : hs_exited h' = hs_exited h;
  kp_supervised : hs_supervised h' = hs_supervised h;
  kp_reported : hs_reported h' = hs_reported h;
  kp_acts : hs_acts h' = hs_acts h;
  kp_next : hs_next h' = hs_next h;
}.
#[export] Instance kept_pre : PreOrder kept.
Proof.
  split; [by split|]. intros a b c [] []. split; [|congruence..]. intros k. by transitivity (cl_role <$> hs_clients b !! k).
Qed.

Lemma roles_chosen p h h' : roles_eq h h' → ∀ c, c ∈ chosen p h' ↔ c ∈ chosen p h.
Proof.
  intros Hr c. rewrite !chosen_elem. specialize (Hr c). unfold is_role. split; intros (entry & Hc & Hp); rewrite Hc in Hr; cbn in Hr.
  - destruct (hs_clients h !! c) as [e|]; [|done]. exists e. split; [done|]. injection Hr as <-. done.
  - destruct (hs_clients h' !! c) as [e|]; [|done]. exists e. split; [done|]. injection Hr as ->. done.
Qed.
Lemma roles_attached h h' : roles_eq h h' → writable_attached h' = writable_attached h.
Proof.
  intros Hr. unfold writable_attached. do 2 f_equal. apply Permutation_length, NoDup_Permutation; [apply chosen_NoDup..|]. by apply roles_chosen.
Qed.

Lemma on_outbox_roles c f h : roles_eq h (on_outbox c f h).
Proof. intros k. cbn. destruct (decide (k = c)) as [->|]; [rewrite lookup_alter_eq|by rewrite lookup_alter_ne]. by destruct (hs_clients h !! c). Qed.
Lemma on_outbox_kept c f h : kept h (on_outbox c f h).
Proof. split; [apply on_outbox_roles|done..]. Qed.
Lemma resync_kept c h : kept h (resync c h).
Proof.
  unfold resync. destruct (hs_clients h !! c) as [entry|]; [|done]. cbv zeta. destruct (is_role is_supervisor entry && _); cbn [clear].
  - split; [|done..]. intros k. apply (on_outbox_roles c _ (with_report _ _ _ h)).
  - apply on_outbox_kept.
Qed.
Lemma tell_kept m c h : kept h (tell m c h).
Proof. unfold tell. destruct (hs_clients h !! c) as [entry|]; [|done]. destruct (try_push m _ _) as [[] q]; [apply on_outbox_kept|apply resync_kept]. Qed.
Lemma foldl_kept (f : HolderServer → N → HolderServer) cs h : (∀ h c, kept h (f h c)) → kept h (foldl f h cs).
Proof. intros Hf. revert h. induction cs as [|c cs IH]; intros h; [done|]. cbn [foldl]. by transitivity (f h c). Qed.

(** ** What each client was told *)
Record Facts := { fa_size : PtySize; fa_exit : option ExitOutcome; fa_attached : N; fa_stream : list N }.
Definition facts (h : HolderServer) : Facts := {| fa_size := hs_size h; fa_exit := hs_exit h; fa_attached := hs_reported h; fa_stream := stream h |}.

(** The log as the supervisor has it: from its snapshot on, whole. *)
Definition follows (s : list N) (v : View) : Prop :=
  vw_gap v = false ∧ (vw_from v + N.of_nat (length (vw_bytes v)) = N.of_nat (length s))%N ∧ vw_bytes v = drop (N.to_nat (vw_from v)) s.

Definition told (f : Facts) (c : Client) : Prop :=
  match cl_role c with
  | None => True
  | Some role =>
    ∃ v, view_of (cl_outbox c) = Some v ∧ vw_exit v = fa_exit f ∧
      match role with
      | Attach _ => vw_size v = fa_size f
      | Supervisor => vw_attached v = fa_attached f ∧ follows (fa_stream f) v
      end
  end.

Definition end_known (h : HolderServer) : Prop := log_end (hs_log h) = N.of_nat (length (stream h)).
Definition counted (h : HolderServer) : Prop := hs_reported h = writable_attached h.

Lemma kept_facts h h' : kept h h' → facts h' = facts h.
Proof. intros [_ _ Ed _ Es _ Ee _ _ Er _ _]. unfold facts. by rewrite Ed, Es, Ee, Er. Qed.
Lemma kept_known h h' : kept h h' → end_known h → end_known h'.
Proof. intros [_ El Ed _ _ _ _ _ _ _ _ _]. unfold end_known. by rewrite El, Ed. Qed.
Lemma kept_counted h h' : kept h h' → counted h → counted h'.
Proof. intros Hk Hc. unfold counted. by rewrite (kp_reported _ _ Hk), (roles_attached _ _ (kp_roles _ _ Hk)). Qed.

(** A client resynced knows it all. *)
Lemma resync_told c h entry :
  end_known h → (is_role is_supervisor entry = true → counted h) → hs_clients (resync c h) !! c = Some entry → told (facts h) entry.
Proof.
  intros He Hc. unfold resync. destruct (hs_clients h !! c) as [e|] eqn:Ee; [|by rewrite Ee]. cbv zeta. cbn [clear].
  set (owes := is_role is_supervisor e && _). set (owed := if owes then _ else _). set (queued := filter _ _).
  set (cleared := {| bq_items := [] |}). set (exit := match hs_exit h with Some _ => _ | None => _ end).
  assert (hs_clients (if owes then with_report (hs_supervised h) (hs_reported h) Sent h else h) !! c = Some e) as Ee' by (by destruct owes).
  intros Hl. cbn [on_outbox on_clients hs_clients] in Hl. rewrite lookup_alter_eq, Ee' in Hl. injection Hl as <-. unfold told, is_role in *. cbn [cl_role cl_outbox] in *.
  destruct (cl_role e) as [role|]; [|done].
  assert (∀ ms q, view_of (foldl (λ q m, force_push m (message_weight m) q) q ms) = foldl view_step (view_of q) ms) as Hf.
  { intros ms. induction ms as [|m ms IH]; intros q; [done|]. cbn [foldl]. by rewrite IH, view_force_push. }
  rewrite Hf, view_force_push. unfold snapshot. cbn [view_step]. rewrite !foldl_app.
  rewrite view_warnings by (apply Forall_forall; intros m Hm; by apply list_elem_of_filter in Hm as [? _]).
  rewrite view_warnings by (unfold owed; destruct owes; by repeat constructor).
  assert (∀ v, vw_exit v = None → foldl view_step (Some v) exit =
    Some {| vw_size := vw_size v; vw_attached := vw_attached v; vw_exit := hs_exit h; vw_from := vw_from v; vw_bytes := vw_bytes v; vw_gap := vw_gap v |}) as Hx.
  { intros v Hv. unfold exit. destruct (hs_exit h); [done|]. destruct v; cbn in *; by subst. }
  rewrite Hx by done. eexists. split; [done|]. split; [done|]. cbn [vw_size vw_attached vw_exit vw_from vw_bytes vw_gap fa_size facts fa_attached fa_stream].
  destruct role; [|done]. split; [by rewrite Hc|]. unfold follows. cbn [vw_gap vw_from vw_bytes length]. rewrite He. split_and!; [done|lia|]. by rewrite Nat2N.id, drop_all.
Qed.
Lemma resync_other c k h : k ≠ c → hs_clients (resync c h) !! k = hs_clients h !! k.
Proof.
  intros Hk. unfold resync. destruct (hs_clients h !! c) as [e|]; [|done]. cbv zeta. cbn [clear]. destruct (is_role is_supervisor e && _); cbn; by rewrite lookup_alter_ne.
Qed.

Notation all_told f h := (map_Forall (λ _, told f) (hs_clients h)).

(** Clients resynced, one after the other: they know it all, the rest is left. *)
Lemma resyncs_told cs h :
  end_known h → counted h →
  (∀ k entry, hs_clients h !! k = Some entry → k ∉ cs → told (facts h) entry) →
  let h' := foldl (λ h c, resync c h) h cs in kept h h' ∧ all_told (facts h) h'.
Proof.
  revert h. induction cs as [|c cs IH]; intros h He Hc Ht; cbn [foldl].
  { split; [done|]. intros k entry Hk. apply (Ht k); [done|]. apply not_elem_of_nil. }
  pose proof (resync_kept c h) as Hk. destruct (IH (resync c h)) as [Hk' Ht']; [by eapply kept_known|by eapply kept_counted| |].
  { intros k entry Hl Hnin. rewrite (kept_facts _ _ Hk). destruct (decide (k = c)) as [->|Hne]; [by apply (resync_told c h)|].
    rewrite resync_other in Hl by done. apply (Ht k); [done|]. by apply not_elem_of_cons. }
  cbv zeta in *. rewrite (kept_facts _ _ Hk) in Ht'. split; [by transitivity (resync c h)|done].
Qed.

(** A client handed a message. *)
Definition handed (m : HolderMessage) (c : Client) : Client := {| cl_role := cl_role c; cl_outbox := force_push m (message_weight m) (cl_outbox c) |}.

Lemma tell_at m c h : tell m c h = on_outbox c (force_push m (message_weight m)) h ∨ tell m c h = resync c h ∨ tell m c h = h ∧ hs_clients h !! c = None.
Proof.
  unfold tell. destruct (hs_clients h !! c) as [entry|] eqn:E; [|by auto]. destruct (try_push_cases m (message_weight m) (cl_outbox entry)) as [-> | ->]; [left|by auto].
  unfold on_outbox, on_clients. f_equal. apply alter_ext. intros x Hx. congruence.
Qed.
Lemma tell_told m c h entry :
  end_known h → counted h → (∀ e, hs_clients h !! c = Some e → told (facts h) (handed m e)) →
  hs_clients (tell m c h) !! c = Some entry → told (facts h) entry.
Proof.
  intros He Hc Hm. destruct (tell_at m c h) as [-> |[-> |[-> E]]]; [|by apply resync_told|by rewrite E].
  cbn. rewrite lookup_alter_eq. destruct (hs_clients h !! c) as [e|]; [|done]. intros [= <-]. by apply Hm.
Qed.
Lemma tell_other m c k h : k ≠ c → hs_clients (tell m c h) !! k = hs_clients h !! k.
Proof. intros Hk. destruct (tell_at m c h) as [-> |[-> |[-> _]]]; [|by apply resync_other|done]. cbn. by rewrite lookup_alter_ne. Qed.

Lemma tells_told m cs h :
  NoDup cs → end_known h → counted h →
  (∀ k entry, hs_clients h !! k = Some entry → if decide (k ∈ cs) then told (facts h) (handed m entry) else told (facts h) entry) →
  let h' := foldl (λ h c, tell m c h) h cs in kept h h' ∧ all_told (facts h) h'.
Proof.
  intros Hnd. revert h. induction Hnd as [|c cs Hc Hnd IH]; intros h He Hco Ht; cbn [foldl].
  { split; [done|]. intros k entry Hk. specialize (Ht k entry Hk). rewrite decide_False in Ht by apply not_elem_of_nil. done. }
  pose proof (tell_kept m c h) as Hk. destruct (IH (tell m c h)) as [Hk' Ht']; [by eapply kept_known|by eapply kept_counted| |].
  { intros k entry Hl. rewrite (kept_facts _ _ Hk). destruct (decide (k = c)) as [->|Hne].
    - rewrite decide_False by done. apply (tell_told m c h); [done..| |done]. intros e E. specialize (Ht c e E). rewrite decide_True in Ht by apply list_elem_of_here. done.
    - rewrite tell_other in Hl by done. specialize (Ht k entry Hl). destruct (decide (k ∈ cs)).
      + by rewrite decide_True in Ht by (by apply list_elem_of_further).
      + by rewrite decide_False in Ht by (by apply not_elem_of_cons). }
  cbv zeta in *. rewrite (kept_facts _ _ Hk) in Ht'. split; [by transitivity (tell m c h)|done].
Qed.

(** A message that changes nothing in a view. *)
Lemma told_silent f c m : (∀ v, view_step (Some v) m = Some v) → told f c → told f (handed m c).
Proof.
  unfold told. cbn [handed cl_role cl_outbox]. destruct (cl_role c) as [role|]; [|done]. intros Hm (v & Hv & Hrest). exists v. by rewrite view_force_push, Hv, Hm.
Qed.

(** ** The count of terminals attached *)
Definition with_attached (n : N) (f : Facts) : Facts := {| fa_size := fa_size f; fa_exit := fa_exit f; fa_attached := n; fa_stream := fa_stream f |}.
Lemma told_attach_any f n c : is_role is_supervisor c = false → told f c → told (with_attached n f) c.
Proof. unfold told, is_role. destruct (cl_role c) as [[|ro]|]; done. Qed.
Lemma told_attached f n c : is_role is_supervisor c = true → told f c → told (with_attached n f) (handed (Attached n) c).
Proof.
  unfold told, is_role. cbn [handed cl_role cl_outbox]. destruct (cl_role c) as [[|ro]|]; try done. intros _ (v & Hv & Hx & _ & Hf).
  rewrite view_force_push, Hv. eexists. by split_and!.
Qed.

(** Everything but what is told. *)
Definition steady (h h' : HolderServer) : Prop :=
  roles_eq h h' ∧ hs_log h' = hs_log h ∧ hs_disk h' = hs_disk h ∧ hs_input h' = hs_input h ∧ hs_size h' = hs_size h ∧ hs_resizes h' = hs_resizes h ∧
  hs_exit h' = hs_exit h ∧ hs_exited h' = hs_exited h ∧ hs_supervised h' = hs_supervised h ∧ hs_acts h' = hs_acts h ∧ hs_next h' = hs_next h.
Lemma kept_steady h h' : kept h h' → steady h h'.
Proof. intros []. by repeat split. Qed.

Lemma report_attached_told h :
  end_known h → all_told (facts h) h →
  let h' := report_attached h in steady h h' ∧ end_known h' ∧ counted h' ∧ all_told (facts h') h'.
Proof.
  intros He Ht. unfold report_attached. cbv zeta. destruct (N.eqb_spec (writable_attached h) (hs_reported h)) as [E|Hne].
  { split_and!; [by repeat split|done|by unfold counted|done]. }
  set (n := writable_attached h) in *. set (h1 := with_report (hs_supervised h) n (hs_warning h) h).
  assert (facts h1 = with_attached n (facts h)) as Ef by done.
  destruct (tells_told (Attached n) (chosen is_supervisor h1) h1) as [Hk Ht1]; [apply chosen_NoDup|done|done| |].
  { intros k entry Hl. rewrite Ef. specialize (Ht k entry Hl). cbv beta in Ht. destruct (decide (k ∈ chosen is_supervisor h1)) as [Hin|Hnin].
    - apply told_attached; [|done]. apply chosen_elem in Hin as (e & He' & Hr). rewrite Hl in He'. by injection He' as <-.
    - apply told_attach_any; [|done]. destruct (is_role is_supervisor entry) eqn:Er; [|done]. destruct Hnin. apply chosen_elem. by exists entry. }
  cbv zeta in *. rewrite <-(kept_facts _ _ Hk) in Ht1. split_and!; [|by eapply kept_known|by eapply kept_counted|done].
  destruct Hk. by repeat split.
Qed.

(** ** A holder whose clients know it all *)
Record good (h : HolderServer) : Prop := {
  gd_end : end_known h;
  gd_count : counted h;
  gd_told : all_told (facts h) h;
}.

Lemma report_attached_good h : end_known h → all_told (facts h) h → good (report_attached h).
Proof. intros He Ht. destruct (report_attached_told h He Ht) as (_ & H1' & H2' & H3'). by split. Qed.
Lemma resyncs_good cs h :
  end_known h → counted h → (∀ k entry, hs_clients h !! k = Some entry → k ∉ cs → told (facts h) entry) → good (foldl (λ h c, resync c h) h cs).
Proof.
  intros He Hc Ht. destruct (resyncs_told cs h He Hc Ht) as [Hk Ht']. cbv zeta in *. rewrite <-(kept_facts _ _ Hk) in Ht'.
  split; [by eapply kept_known|by eapply kept_counted|done].
Qed.

(** The size of the terminal is the attached terminals' alone to know. *)
Definition with_size (size : PtySize) (f : Facts) : Facts := {| fa_size := size; fa_exit := fa_exit f; fa_attached := fa_attached f; fa_stream := fa_stream f |}.
Lemma told_any_size f size c : is_role is_attach c = false → told f c → told (with_size size f) c.
Proof. unfold told, is_role. destruct (cl_role c) as [[|ro]|]; done. Qed.
Lemma resized_good resizes size e h : good h → good (resync_attached (with_sizes resizes size e h)).
Proof.
  intros [He Hc Ht]. apply resyncs_good; [done|done|]. intros k entry Hl Hnin. specialize (Ht k entry Hl). apply (told_any_size (facts h) size); [|done].
  destruct (is_role is_attach entry) eqn:Er; [|done]. destruct Hnin. apply chosen_elem. by exists entry.
Qed.
Lemma unsized_good resizes e h : good h → good (with_sizes resizes (hs_size h) e h).
Proof. by intros []. Qed.
Lemma act_good a h : good h → good (act a h).
Proof. by intros []. Qed.

(** A size asked for: taken and told, or nothing changes. *)
Lemma apply_size_good size h : good h →
  match apply_size allows size h with
  | (Ok true, h') => good (resync_attached h')
  | (_, h') => good h'
  end.
Proof.
  intros Hg. unfold apply_size. destruct (bool_decide _); [done|]. cbv zeta. destruct (allows _); [|by apply act_good].
  apply resized_good. by apply act_good.
Qed.

Lemma deleted_told c f h : all_told f h → all_told f (on_clients (delete c) h).
Proof. intros Ht. by apply map_Forall_delete. Qed.

Lemma drop_client_good c h : end_known h → all_told (facts h) h → good (drop_client allows c h).
Proof.
  intros He Ht. unfold drop_client. cbv zeta.
  set (h1 := match hs_clients h !! c with Some _ => _ | None => _ end).
  assert (end_known h1 ∧ all_told (facts h1) h1) as [He1 Ht1] by (unfold h1; destruct (hs_clients h !! c); [split; [done|by apply deleted_told]|done]).
  pose proof (report_attached_good h1 He1 Ht1) as Hg. set (h2 := report_attached h1) in *. set (h3 := with_sizes _ _ _ h2).
  assert (good h3) as Hg3 by (by apply unsized_good). destruct (match last (hs_resizes h2) with Some _ => _ | None => _ end); [|done].
  destruct (last (hs_resizes h3)) as [[k size]|]; [|done]. pose proof (apply_size_good size h3 Hg3) as Ha.
  destruct (apply_size allows size h3) as [[[]|] h4]; done.
Qed.

Lemma on_stalled_good c h : good h → good (on_stalled allows c h).
Proof.
  intros [He Hc Ht]. unfold on_stalled. destruct (hs_clients h !! c ≫= cl_role); [|by apply drop_client_good].
  apply (resyncs_good [c] h He Hc). intros k entry Hl _. by apply (Ht k).
Qed.

(** A message no view heeds, sent to one client. *)
Lemma send_good c m h : (∀ v, view_step (Some v) m = Some v) → good h → good (send allows c m h).
Proof.
  intros Hm Hg. unfold send. destruct (hs_clients h !! c) as [entry|] eqn:El; [|done]. destruct (try_push_cases m (message_weight m) (cl_outbox entry)) as [-> | ->]; [|by apply on_stalled_good].
  destruct Hg as [He Hc Ht]. pose proof (on_outbox_kept c (λ _, force_push m (message_weight m) (cl_outbox entry)) h) as Hk.
  split; [by eapply kept_known|by eapply kept_counted|]. rewrite (kept_facts _ _ Hk). intros k e Hl. cbn in Hl. destruct (decide (k = c)) as [->|].
  - rewrite lookup_alter_eq, El in Hl. injection Hl as <-. apply (told_silent (facts h) entry m Hm). by apply (Ht c).
  - rewrite lookup_alter_ne in Hl by done. by apply (Ht k).
Qed.
Lemma reject_good c reason h : good h → good (reject allows c reason h).
Proof. by apply send_good. Qed.

(** ** A message to many *)
Lemma pushes_to_handed takes m c : is_role takes c = true → refuses takes m c = false → pushes_to takes m c = handed m c.
Proof.
  intros Hr. unfold refuses, pushes_to. rewrite Hr. destruct (try_push_cases m (message_weight m) (cl_outbox c)) as [-> | ->]; [done|]. done.
Qed.
Lemma pushes_to_role takes m c : cl_role (pushes_to takes m c) = cl_role c.
Proof. unfold pushes_to. by destruct (is_role takes c). Qed.
Lemma pushes_to_stalled takes m c : is_role takes c = true → refuses takes m c = true → pushes_to takes m c = c.
Proof.
  intros Hr. unfold refuses, pushes_to. rewrite Hr. destruct (try_push_cases m (message_weight m) (cl_outbox c)) as [-> | ->]; [done|]. by destruct c.
Qed.

Lemma stalled_resync cs h :
  (∀ c, c ∈ cs → is_Some (hs_clients h !! c ≫= cl_role)) → foldl (λ h c, on_stalled allows c h) h cs = foldl (λ h c, resync c h) h cs.
Proof.
  revert h. induction cs as [|c cs IH]; intros h Hcs; [done|]. cbn [foldl]. destruct (Hcs c ltac:(apply list_elem_of_here)) as [role Hr].
  assert (on_stalled allows c h = resync c h) as -> by (unfold on_stalled; by rewrite Hr). apply IH. intros k Hk.
  specialize (Hcs k ltac:(by apply list_elem_of_further)). pose proof (kp_roles _ _ (resync_kept c h) k) as Hrk.
  destruct (hs_clients h !! k) as [e|]; [|by destruct Hcs]. destruct (hs_clients (resync c h) !! k) as [e'|]; [|done]. cbn in *. injection Hrk as ->. done.
Qed.

Lemma broadcast_good takes m h :
  end_known h → counted h →
  (∀ k entry, hs_clients h !! k = Some entry → if is_role takes entry then told (facts h) (handed m entry) else told (facts h) entry) →
  good (broadcast_to allows takes m h).
Proof.
  intros He Hc Ht. unfold broadcast_to. cbv zeta. set (stalled := fst <$> _). set (h1 := on_clients _ h).
  assert (kept h h1) as Hk.
  { split; try done. intros k. cbn. rewrite lookup_fmap. destruct (hs_clients h !! k) as [e|]; [|done]. cbn. by rewrite pushes_to_role. }
  assert (∀ k, k ∈ stalled ↔ ∃ e, hs_clients h !! k = Some e ∧ refuses takes m e = true) as Hst.
  { intros k. unfold stalled. rewrite list_elem_of_fmap. split.
    - intros ([k' e] & -> & [Hr Hin]%list_elem_of_filter). apply elem_of_map_to_list in Hin. by exists e.
    - intros (e & Hl & Hr). exists (k, e). split; [done|]. apply list_elem_of_filter. split; [done|]. by apply elem_of_map_to_list. }
  rewrite stalled_resync.
  2: { intros k (e & Hl & Hr)%Hst. cbn. rewrite lookup_fmap, Hl. cbn. rewrite pushes_to_role. apply andb_true_iff in Hr as [Hr _]. unfold is_role in Hr. by destruct (cl_role e). }
  apply resyncs_good; [by eapply kept_known|by eapply kept_counted|]. rewrite (kept_facts _ _ Hk). intros k entry Hl Hnin. cbn in Hl. rewrite lookup_fmap in Hl.
  destruct (hs_clients h !! k) as [e|] eqn:Ee; [|done]. injection Hl as <-. specialize (Ht k e Ee). destruct (is_role takes e) eqn:Er.
  - rewrite pushes_to_handed; [done..|]. destruct (refuses takes m e) eqn:Es; [|done]. destruct Hnin. apply Hst. by exists e.
  - unfold pushes_to. by rewrite Er.
Qed.

(** ** The child's exit *)
Definition with_exit (x : option ExitOutcome) (f : Facts) : Facts := {| fa_size := fa_size f; fa_exit := x; fa_attached := fa_attached f; fa_stream := fa_stream f |}.
(** A client that knows all but the exit. *)
Definition almost (f : Facts) (c : Client) : Prop := ∃ x, told (with_exit x f) c.

Lemma almost_told f c outcome : fa_exit f = Some outcome → almost f c → told f (handed (Exited_ outcome) c).
Proof.
  intros Hx [x Ht]. unfold told in *. cbn [handed cl_role cl_outbox]. destruct (cl_role c) as [role|]; [|done]. destruct Ht as (v & Hv & _ & Hr).
  rewrite view_force_push, Hv. eexists. split; [done|]. by split.
Qed.

Lemma snapshot_almost c h : end_known h → counted h → told (with_exit None (facts h)) (handed (snapshot h) c).
Proof.
  intros He Hc. unfold told. cbn [handed cl_role cl_outbox]. destruct (cl_role c) as [role|]; [|done]. rewrite view_force_push. unfold snapshot. cbn [view_step].
  eexists. split; [done|]. split; [done|]. destruct role; [|done]. split; [by rewrite <-Hc|]. unfold follows. cbn [vw_gap vw_from vw_bytes length]. rewrite He.
  split_and!; [done|cbn; lia|]. by rewrite Nat2N.id, drop_all.
Qed.

Lemma send_snapshots cs h :
  end_known h → counted h → (∀ c, c ∈ cs → is_Some (hs_clients h !! c ≫= cl_role)) → map_Forall (λ _, almost (facts h)) (hs_clients h) →
  let h' := foldl (λ h c, send allows c (snapshot h) h) h cs in kept h h' ∧ map_Forall (λ _, almost (facts h)) (hs_clients h').
Proof.
  revert h. induction cs as [|c cs IH]; intros h He Hc Hcs Ht; cbn [foldl]; [done|].
  destruct (Hcs c ltac:(apply list_elem_of_here)) as [role Hr]. destruct (hs_clients h !! c) as [e|] eqn:El; [|done]. cbn in Hr.
  assert (send allows c (snapshot h) h = tell (snapshot h) c h) as Es by (unfold send, tell, on_stalled; rewrite El; cbn; by rewrite Hr).
  rewrite Es. pose proof (tell_kept (snapshot h) c h) as Hk.
  assert (∀ k entry, hs_clients (tell (snapshot h) c h) !! k = Some entry → almost (facts h) entry) as Ht1.
  { intros k entry Hl. destruct (decide (k = c)) as [->|]; [|rewrite tell_other in Hl by done; by apply (Ht k)].
    destruct (tell_at (snapshot h) c h) as [E|[E|[E E']]]; [..|by rewrite E in Hl; congruence]; rewrite E in Hl.
    - cbn in Hl. rewrite lookup_alter_eq, El in Hl. injection Hl as <-. exists None. by apply snapshot_almost.
    - exists (hs_exit h). apply (resync_told c h) in Hl; [|done|done]. exact Hl. }
  destruct (IH (tell (snapshot h) c h)) as [Hk' Ht']; [by eapply kept_known|by eapply kept_counted| |by rewrite (kept_facts _ _ Hk)|].
  { intros k Hin. specialize (Hcs k ltac:(by apply list_elem_of_further)). pose proof (kp_roles _ _ Hk k) as Hrk.
    destruct (hs_clients h !! k) as [e'|]; [|by destruct Hcs]. destruct (hs_clients (tell (snapshot h) c h) !! k); [|done]. cbn in *. injection Hrk as ->. done. }
  cbv zeta in *. rewrite (kept_facts _ _ Hk) in Ht'. split; [by transitivity (tell (snapshot h) c h)|done].
Qed.

Lemma supervisors_known p h c : c ∈ chosen p h → is_Some (hs_clients h !! c ≫= cl_role).
Proof. intros (e & He & Hr)%chosen_elem. rewrite He. cbn. unfold is_role in Hr. by destruct (cl_role e). Qed.

Lemma on_exit_good outcome h : good h → good (on_exit allows outcome h).
Proof.
  intros [He Hc Ht]. unfold on_exit. cbv zeta. set (h1 := with_child true (Some outcome) h).
  destruct (send_snapshots (chosen is_supervisor h1) h1) as [Hk Ht1]; [done|done|by apply supervisors_known| |].
  { intros k entry Hl. exists (hs_exit h). exact (Ht k entry Hl). }
  cbv zeta in *. apply broadcast_good; [by eapply kept_known|by eapply kept_counted|]. rewrite (kept_facts _ _ Hk). intros k entry Hl. specialize (Ht1 k entry Hl). cbv beta in Ht1.
  destruct (is_role (λ _, true) entry) eqn:Er; [by apply almost_told|]. unfold is_role, told in *. by destruct (cl_role entry).
Qed.

(** ** Output *)
Definition with_stream (s : list N) (f : Facts) : Facts := {| fa_size := fa_size f; fa_exit := fa_exit f; fa_attached := fa_attached f; fa_stream := s |}.

Lemma follows_app s v held :
  follows s v →
  follows (s ++ held) {| vw_size := vw_size v; vw_attached := vw_attached v; vw_exit := vw_exit v; vw_from := vw_from v; vw_bytes := vw_bytes v ++ held;
                         vw_gap := vw_gap v || negb (N.of_nat (length s) =? vw_from v + N.of_nat (length (vw_bytes v)))%N |}.
Proof.
  intros (Hg & Hl & Hb). unfold follows. cbn [vw_gap vw_from vw_bytes]. rewrite Hg, Hl, N.eqb_refl, !length_app. split_and!; [done|lia|].
  rewrite drop_app_le by lia. by rewrite <-Hb.
Qed.
Lemma told_output f c held : told f c → told (with_stream (fa_stream f ++ held) f) (handed (Output (N.of_nat (length (fa_stream f))) held) c).
Proof.
  unfold told. cbn [handed cl_role cl_outbox]. destruct (cl_role c) as [role|]; [|done]. intros (v & Hv & Hx & Hr). rewrite view_force_push, Hv. eexists. split; [done|].
  split; [done|]. destruct role; [|done]. destruct Hr as [Ha Hf]. split; [done|]. by apply follows_app.
Qed.
Lemma told_any_output f s c at_ bytes : is_role is_attach c = true → told f c → told (with_stream s f) (handed (Output at_ bytes) c).
Proof. unfold told, is_role. cbn [handed cl_role cl_outbox]. destruct (cl_role c) as [[|ro]|]; try done. intros _ (v & Hv & Hx & Hr). rewrite view_force_push, Hv. eexists. by split. Qed.
Lemma told_any_stream f s c : is_role is_supervisor c = false → told f c → told (with_stream s f) c.
Proof. unfold told, is_role. destruct (cl_role c) as [[|ro]|]; done. Qed.

Lemma silent_broadcast_good takes m h : (∀ v, view_step (Some v) m = Some v) → good h → good (broadcast_to allows takes m h).
Proof.
  intros Hm [He Hc Ht]. apply broadcast_good; [done..|]. intros k entry Hl. specialize (Ht k entry Hl). destruct (is_role takes entry); [by apply told_silent|done].
Qed.
Lemma attach_output_good at_ bytes h : good h → good (broadcast_to allows is_attach (Output at_ bytes) h).
Proof.
  intros [He Hc Ht]. apply broadcast_good; [done..|]. intros k entry Hl. specialize (Ht k entry Hl). destruct (is_role is_attach entry) eqn:Er; [|done].
  by apply (told_any_output (facts h) (stream h)).
Qed.

(** What the log takes of a chunk when it takes as much of it as it is long. *)
Lemma exactly_held (held logged bytes ending : list N) (whole : bool) :
  (whole = true → logged = bytes) → held `prefix_of` logged ++ ending → is_exactly whole held bytes = true → held = bytes.
Proof.
  intros Hw [rest Hp] [-> Hl%Nat.eqb_eq]%andb_true_iff. rewrite (Hw eq_refl) in Hp.
  apply (f_equal (take (length held))) in Hp. rewrite take_app_length in Hp. by rewrite Hl, take_app_length in Hp.
Qed.
Lemma logged_whole bytes switches gate : (logged bytes switches gate).1.1 = true → (logged bytes switches gate).1.2 = bytes.
Proof. unfold logged. destruct switches as [|sw sws]; [by destruct gate|]. by destruct (foldl _ _ _) as [[L from] up]. Qed.

(** ** What messages and the dropping of clients leave *)
Notation role_of h c := (cl_role <$> hs_clients h !! c).

Definition shut_or_fallback (resizes : list (N * PtySize)) (a : Act) : Prop :=
  match a with
  | AShut _ => True
  | AResize size _ => size ∈ resizes.*2
  | _ => False
  end.

(** Clients may be lost, and the terminal falls back to a size another client
    asked for; nothing else changes. *)
Record lost (h h' : HolderServer) : Prop := {
  ls_roles : ∀ c role, role_of h' c = Some role → role_of h c = Some role;
  ls_resizes : ∀ x, x ∈ hs_resizes h' → x ∈ hs_resizes h ∧ role_of h' x.1 = role_of h x.1;
  ls_acts : ∃ more, hs_acts h' = more ++ hs_acts h ∧ Forall (shut_or_fallback (hs_resizes h)) more;
  ls_log : hs_log h' = hs_log h;
  ls_disk : hs_disk h' = hs_disk h;
  ls_input : hs_input h' = hs_input h;
  ls_exit : hs_exit h' = hs_exit h;
  ls_exited : hs_exited h' = hs_exited h;
  ls_supervised : hs_supervised h' = hs_supervised h;
  ls_next : hs_next h' = hs_next h;
}.
#[export] Instance lost_pre : PreOrder lost.
Proof.
  split.
  - intros h. split; try done. exists []. by split.
  - intros a b c [R1 Z1 (m1 & A1 & F1)] [R2 Z2 (m2 & A2 & F2)]. split; [auto| | |congruence..].
    + intros x Hx. destruct (Z2 x Hx) as [Hx' E2]. destruct (Z1 x Hx') as [Hx'' E1]. split; [done|congruence].
    + exists (m2 ++ m1). rewrite A2, A1, app_assoc. split; [done|]. apply Forall_app. split; [|done]. eapply Forall_impl; [exact F2|].
      intros [] Ha; try done. cbn in *. apply list_elem_of_fmap in Ha as (x & -> & Hx). apply list_elem_of_fmap. exists x. split; [done|]. by apply Z1.
Qed.

Lemma steady_lost h h' : steady h h' → lost h h'.
Proof.
  intros (Hr & ? & ? & ? & ? & Hz & ? & ? & ? & Ha & ?). split; try done.
  - intros c role Hc. by rewrite <-Hr.
  - intros x Hx. rewrite Hz in Hx. by split.
  - exists []. by split.
Qed.
Lemma kept_lost h h' : kept h h' → lost h h'.
Proof. intros Hk. by apply steady_lost, kept_steady. Qed.
Lemma foldl_lost (f : HolderServer → N → HolderServer) cs h : (∀ h c, lost h (f h c)) → lost h (foldl f h cs).
Proof. intros Hf. revert h. induction cs as [|c cs IH]; intros h; [done|]. cbn [foldl]. by transitivity (f h c). Qed.

Lemma report_attached_steady h : steady h (report_attached h).
Proof.
  unfold report_attached. cbv zeta. destruct (_ =? _)%N; [by repeat split|].
  set (h1 := with_report _ _ _ h).
  assert (∀ n cs, kept h1 (foldl (λ h c, tell (Attached n) c h) h1 cs)) as Hk by (intros n cs; apply foldl_kept; intros; apply tell_kept).
  destruct (Hk (writable_attached h) (chosen is_supervisor h1)). by repeat split.
Qed.
Lemma resync_attached_kept h : kept h (resync_attached h).
Proof. apply foldl_kept. intros. apply resync_kept. Qed.

(** A client dropped is gone, with what it asked for. *)
Lemma drop_client_lost c h : lost h (drop_client allows c h) ∧ hs_clients (drop_client allows c h) !! c = None ∧
  (∀ k, k ≠ c → role_of (drop_client allows c h) k = role_of h k).
Proof.
  unfold drop_client. cbv zeta. set (h1 := match hs_clients h !! c with Some _ => _ | None => _ end).
  assert ((∃ more, hs_acts h1 = more ++ hs_acts h ∧ Forall (shut_or_fallback (hs_resizes h)) more) ∧ hs_clients h1 !! c = None ∧ (∀ k, k ≠ c → hs_clients h1 !! k = hs_clients h !! k) ∧
    hs_resizes h1 = hs_resizes h ∧ hs_log h1 = hs_log h ∧ hs_disk h1 = hs_disk h ∧ hs_input h1 = hs_input h ∧ hs_exit h1 = hs_exit h ∧ hs_exited h1 = hs_exited h ∧
    hs_supervised h1 = hs_supervised h ∧ hs_next h1 = hs_next h) as ((more & Ha & Hm) & Hn & Ho & Hz & ? & ? & ? & ? & ? & ? & ?).
  { unfold h1. destruct (hs_clients h !! c) eqn:E; [|split_and!; try done; by exists []]. cbn. split_and!; try done; [exists [AShut c]; by repeat constructor|by rewrite lookup_delete_eq|].
    intros k Hk. by rewrite lookup_delete_ne. }
  destruct (report_attached_steady h1) as (Hr & ? & ? & ? & ? & Hz2 & ? & ? & ? & Ha2 & ?). set (h2 := report_attached h1) in *. rewrite Hz in Hz2.
  set (h3 := with_sizes (filter (λ it, it.1 ≠ c) (hs_resizes h2)) (hs_size h2) (hs_emulator h2) h2).
  assert (lost h h3) as Hl3.
  { split; cbn [h3 with_sizes hs_clients hs_resizes hs_acts hs_log hs_disk hs_input hs_exit hs_exited hs_supervised hs_next]; try congruence.
    - intros k role Hk. rewrite Hr in Hk. destruct (decide (k = c)) as [->|]; [by rewrite Hn in Hk|]. by rewrite Ho in Hk by done.
    - intros x [Hx Hin]%list_elem_of_filter. rewrite Hz2 in Hin. split; [done|]. rewrite Hr. by rewrite Ho by done.
    - exists more. by rewrite Ha2. }
  assert (role_of h3 c = None) as Hc3 by (change (role_of h2 c = None); by rewrite Hr, Hn).
  assert (∀ k, k ≠ c → role_of h3 k = role_of h k) as Hk3 by (intros k Hk; change (role_of h2 k = role_of h k); by rewrite Hr, Ho).
  assert (∀ h', lost h3 h' → roles_eq h3 h' → lost h h' ∧ hs_clients h' !! c = None ∧ (∀ k, k ≠ c → role_of h' k = role_of h k)) as Hfin.
  { intros h' Hl Hr'. split_and!; [by transitivity h3| |intros k Hk; rewrite Hr'; by apply Hk3]. specialize (Hr' c). rewrite Hc3 in Hr'. by destruct (hs_clients h' !! c). }
  assert (lost h h3 ∧ hs_clients h3 !! c = None ∧ (∀ k, k ≠ c → role_of h3 k = role_of h k)) as H3' by (apply Hfin; done).
  destruct (match last (hs_resizes h2) with Some _ => _ | None => _ end); [|done]. destruct (last (hs_resizes h3)) as [[k size]|] eqn:El; [|done].
  unfold apply_size. destruct (bool_decide _); [done|]. cbv zeta. set (ok := allows _).
  assert (lost h3 (act (AResize size ok) h3)) as Hact.
  { split; try done. exists [AResize size ok]. split; [done|]. constructor; [|done]. cbn [shut_or_fallback]. apply list_elem_of_fmap. exists (k, size). split; [done|]. by apply last_Some_elem_of in El. }
  destruct ok; [|by apply Hfin]. set (h4 := with_sizes _ size _ _). assert (lost h3 h4) as Hl4 by (transitivity (act (AResize size true) h3); [done|]; split; try done; by exists []).
  pose proof (resync_attached_kept h4) as Hk4. apply Hfin; [transitivity h4; [done|]; by apply kept_lost|]. intros x. by rewrite (kp_roles _ _ Hk4).
Qed.

Lemma on_stalled_lost c h : lost h (on_stalled allows c h).
Proof. unfold on_stalled. destruct (_ ≫= cl_role); [apply kept_lost, resync_kept|apply drop_client_lost]. Qed.
Lemma send_lost c m h : lost h (send allows c m h).
Proof.
  unfold send. destruct (hs_clients h !! c) as [entry|]; [|done]. destruct (try_push m _ _) as [[] q]; [apply kept_lost, on_outbox_kept|apply on_stalled_lost].
Qed.
Lemma broadcast_lost takes m h : lost h (broadcast_to allows takes m h).
Proof.
  unfold broadcast_to. cbv zeta. etransitivity; [|apply foldl_lost; intros; apply on_stalled_lost]. apply kept_lost. split; try done. intros k. cbn. rewrite lookup_fmap.
  destruct (hs_clients h !! k) as [e|]; [|done]. cbn. by rewrite pushes_to_role.
Qed.
End server.
