(* ===== verification/HolderServe.v ===== *)
(** * Everything a holder serves

    The handlers of Holder.v keep the holder lawful (connections numbered, one
    supervisor, an exit held exactly when the child exited, sizes asked for by
    clients that may) and its clients told; so whatever events come, and
    whatever fails, each client sees the holder's state, only those who may act
    on the child do, and the loop never ends with the child left running. *)
From S2P Require Import Prelude RustText Values Config Process Frame Tap LogFile LogSpan LogPlaced Terminal Screen Emulator Holder HolderSafe.

Section server.
Context `{VtParser, Backend}.
Context `{Json ExitOutcomeWire, Json RejectReason, Json rstr}.
Context (io : LogFile.Io) (allows : nat → bool).

Notation stream h := (wr_stream (hs_disk h)).
Notation role_of h c := (cl_role <$> hs_clients h !! c).

(** ** Lawful holders *)
Record lawful (h : HolderServer) : Prop := {
  lw_ids : ∀ c, is_Some (hs_clients h !! c) → (c < hs_next h)%N;
  lw_one : ∀ c c', role_of h c = Some (Some Supervisor) → role_of h c' = Some (Some Supervisor) → c = c';
  lw_supervised : ∀ c, role_of h c = Some (Some Supervisor) → hs_supervised h = true;
  lw_exit : hs_exited h = true ↔ is_Some (hs_exit h);
  lw_resizes : ∀ x, x ∈ hs_resizes h → ∃ role, role_of h x.1 = Some (Some role) ∧ writable role = true;
}.

Lemma lost_lawful h h' : lost h h' → lawful h → lawful h'.
Proof.
  intros [R Z _ _ _ _ Ex Exd Es En] [L1 L2 L3 L4 L5]. split.
  - intros c [e Hc]. rewrite En. apply L1. specialize (R c (cl_role e)). rewrite Hc in R. specialize (R eq_refl). by destruct (hs_clients h !! c).
  - intros c c' H1' H2'. apply L2; by apply R.
  - intros c Hc. rewrite Es. by apply (L3 c), R.
  - by rewrite Exd, Ex.
  - intros x Hx. destruct (Z x Hx) as [Hx' ->]. by apply L5.
Qed.

(** The clients' queues are no matter. *)
Lemma kept_lawful h h' : kept h h' → lawful h → lawful h'.
Proof. intros Hk. by apply lost_lawful, kept_lost. Qed.

(** ** Hello *)
Lemma evicted_gone cs h : let h' := foldl (λ h c, drop_client allows c h) h cs in lost h h' ∧ ∀ c, c ∈ cs → hs_clients h' !! c = None.
Proof.
  revert h. induction cs as [|c cs IH]; intros h; cbn [foldl]; [split; [reflexivity|intros c Hc; by apply elem_of_nil in Hc]|].
  destruct (drop_client_lost allows c h) as (Hl & Hn & _). destruct (IH (drop_client allows c h)) as [Hl' Hg]. cbv zeta in *.
  split; [by transitivity (drop_client allows c h)|]. intros k [-> | Hk]%elem_of_cons; [|by apply Hg].
  destruct (hs_clients (foldl _ _ cs) !! c) as [e|] eqn:E; [|done]. pose proof (ls_roles _ _ Hl' c (cl_role e)) as Hr. rewrite E, Hn in Hr. by specialize (Hr eq_refl).
Qed.
Lemma evicted_good cs h : good h → good (foldl (λ h c, drop_client allows c h) h cs).
Proof. revert h. induction cs as [|c cs IH]; intros h Hg; [done|]. cbn [foldl]. apply IH. destruct Hg. by apply drop_client_good. Qed.

(** The holder once a supervisor's hello has evicted the one before. *)
Definition introduced (role : ClientRole) (h : HolderServer) : HolderServer :=
  if is_supervisor role then
    let h := with_report true (hs_reported h) (hs_warning h) h in
    foldl (λ h c, drop_client allows c h) h (chosen is_supervisor h)
  else h.
Lemma introduced_facts role h :
  let h' := introduced role h in
  lost (if is_supervisor role then with_report true (hs_reported h) (hs_warning h) h else h) h' ∧
  (is_supervisor role = true → ∀ c, role_of h' c ≠ Some (Some Supervisor)).
Proof.
  unfold introduced. destruct (is_supervisor role); [|done]. cbv zeta. set (h1 := with_report _ _ _ h).
  destruct (evicted_gone (chosen is_supervisor h1) h1) as [Hl Hg]. cbv zeta in *. split; [done|]. intros _ c Hc. pose proof (ls_roles _ _ Hl c _ Hc) as Hr.
  destruct (hs_clients h1 !! c) as [e|] eqn:E; [|done]. injection Hr as Hr. rewrite Hg in Hc; [done|]. apply chosen_elem. exists e. split; [done|]. unfold is_role. by rewrite Hr.
Qed.

Definition joins (client : N) (role : ClientRole) (entry : Client) : HolderServer → HolderServer :=
  on_clients <[client := {| cl_role := Some role; cl_outbox := cl_outbox entry |}]>.

Lemma joins_attached client entry h : hs_clients h !! client = Some entry → cl_role entry = None → writable_attached (joins client Supervisor entry h) = writable_attached h.
Proof.
  intros Hl Hr. unfold writable_attached. do 2 f_equal. apply Permutation_length, NoDup_Permutation; [apply chosen_NoDup..|]. intros c. rewrite !chosen_elem. cbn [joins on_clients hs_clients].
  destruct (decide (c = client)) as [->|Hne]; [|by rewrite lookup_insert_ne]. rewrite lookup_insert_eq, Hl. unfold is_role. split.
  - by intros (e & [= <-] & ?).
  - intros (e & [= <-] & He). by rewrite Hr in He.
Qed.

Lemma on_hello_good client role h :
  role_of h client = Some None → good h → lawful h → good (on_hello allows client role h) ∧ lawful (on_hello allows client role h).
Proof.
  intros Hnone Hg Hlw. unfold on_hello. cbv zeta. fold (introduced role h). destruct (introduced_facts role h) as [Hl Hns]. cbv zeta in *.
  assert (good (introduced role h)) as Hg1 by (unfold introduced; destruct (is_supervisor role); [apply evicted_good; by destruct Hg|done]). set (h1 := introduced role h) in *.
  assert (lawful h1) as Hlw1.
  { destruct (is_supervisor role); [|by apply (lost_lawful h)]. apply (lost_lawful _ _ Hl). destruct Hlw. by split. }
  assert (is_supervisor role = true → hs_supervised h1 = true) as Hsup by (intros E; rewrite E in Hl; by rewrite (ls_supervised _ _ Hl)).
  assert (∀ e, hs_clients h1 !! client = Some e → cl_role e = None) as Hnone1.
  { intros e He. pose proof (ls_roles _ _ Hl client (cl_role e)) as Hr. rewrite He in Hr. specialize (Hr eq_refl).
    assert (role_of (if is_supervisor role then with_report true (hs_reported h) (hs_warning h) h else h) client = role_of h client) as E by (by destruct (is_supervisor role)).
    rewrite E, Hnone in Hr. by injection Hr. }
  destruct (hs_clients h1 !! client) as [entry|] eqn:El; [|done]. specialize (Hnone1 entry eq_refl). fold (joins client role entry h1). set (h2 := joins client role entry h1).
  set (h3 := if is_supervisor role then _ else h2).
  assert (end_known h3 ∧ facts h3 = facts h1 ∧ (is_supervisor role = true → counted h3) ∧ hs_clients h3 = hs_clients h2) as (He3 & Ef3 & Hc3 & Ec3).
  { destruct Hg1 as [He Hc _]. unfold h3. destruct role as [|ro]; cbn; [|done]. split_and!; [done| |done|done]. unfold facts. cbn. f_equal. rewrite Hc. by apply joins_attached. }
  assert (all_told_but : ∀ k e, hs_clients h3 !! k = Some e → k ≠ client → told (facts h3) e).
  { intros k e Hk Hne. rewrite Ec3 in Hk. cbn in Hk. rewrite lookup_insert_ne in Hk by done. rewrite Ef3. by apply (gd_told _ Hg1 k). }
  pose proof (resync_kept client h3) as Hk3. split.
  - apply report_attached_good; [by eapply kept_known|]. rewrite (kept_facts _ _ Hk3). intros k e Hk. destruct (decide (k = client)) as [->|Hne].
    + apply (resync_told client h3); [done| |done]. intros Hr. apply Hc3. pose proof (kp_roles _ _ Hk3 client) as Hro. rewrite Hk, Ec3 in Hro. cbn in Hro. rewrite lookup_insert_eq in Hro.
      unfold is_role in Hr. injection Hro as Hro. by rewrite Hro in Hr.
    + rewrite resync_other in Hk by done. by apply (all_told_but k).
  - apply (lost_lawful (resync client h3)); [apply steady_lost, report_attached_steady|]. apply (kept_lawful h3); [done|]. destruct Hlw1 as [L1 L2 L3 L4 L5].
    assert (∀ c, c ≠ client → role_of h3 c = role_of h1 c) as Ho by (intros c Hne; rewrite Ec3; cbn; by rewrite lookup_insert_ne).
    assert (role_of h3 client = Some (Some role)) as Hcl by (rewrite Ec3; cbn; by rewrite lookup_insert_eq).
    assert (hs_next h3 = hs_next h1 ∧ hs_exited h3 = hs_exited h1 ∧ hs_exit h3 = hs_exit h1 ∧ hs_resizes h3 = hs_resizes h1 ∧ hs_supervised h3 = hs_supervised h1) as (En & Exd & Ex & Ez & Es)
      by (unfold h3; by destruct (is_supervisor role)).
    split.
    + intros c Hc. rewrite En. apply L1. destruct (decide (c = client)) as [->|Hne]; [by rewrite El|]. rewrite Ec3 in Hc. cbn in Hc. by rewrite lookup_insert_ne in Hc.
    + intros c c' Hc Hc'. destruct (decide (c = client)) as [->|Hne], (decide (c' = client)) as [->|Hne']; [done|..].
      * rewrite Ho in Hc' by done. rewrite Hcl in Hc. injection Hc as ->. by destruct (Hns eq_refl c').
      * rewrite Ho in Hc by done. rewrite Hcl in Hc'. injection Hc' as ->. by destruct (Hns eq_refl c).
      * rewrite Ho in Hc, Hc' by done. by apply L2.
    + intros c Hc. rewrite Es. destruct (decide (c = client)) as [->|Hne]; [rewrite Hcl in Hc; injection Hc as ->; by apply Hsup|]. rewrite Ho in Hc by done. by apply (L3 c).
    + by rewrite Exd, Ex.
    + intros x Hx. rewrite Ez in Hx. destruct (L5 x Hx) as (r & Hr & Hw). assert (x.1 ≠ client) as Hne by (intros E; rewrite E, El in Hr; cbn in Hr; congruence). exists r. by rewrite Ho.
Qed.

(** ** Messages of clients *)
Lemma on_input_good f h : good h → good (on_input f h).
Proof. by intros []. Qed.
Lemma resized_lawful client role size h :
  role_of h client = Some (Some role) → writable role = true → lawful h →
  lawful (with_sizes (filter (λ it, it.1 ≠ client) (hs_resizes h) ++ [(client, size)]) (hs_size h) (hs_emulator h) h).
Proof.
  intros Hr Hw [L1 L2 L3 L4 L5]. split; try done. intros x [[_ Hx]%list_elem_of_filter | ->%list_elem_of_singleton]%elem_of_app; [by apply L5|]. by exists role.
Qed.
Lemma apply_size_lawful size h : lawful h → lawful (apply_size allows size h).2.
Proof. intros []. unfold apply_size. destruct (bool_decide _); [done|]. cbv zeta. by destruct (allows _). Qed.

Lemma on_message_good client message h :
  good h → lawful h → good (on_message allows client message h).2 ∧ lawful (on_message allows client message h).2.
Proof.
  intros Hg Hlw. unfold on_message. cbv zeta.
  assert (∀ reason h', good h' → lawful h' → good (Continue_, reject allows client reason h').2 ∧ lawful (Continue_, reject allows client reason h').2) as Hrej.
  { intros reason h' Hg' Hlw'. split; [by apply reject_good|]. apply (lost_lawful h'); [apply send_lost|done]. }
  destruct (role_of h client) as [[role|]|] eqn:Er; [| |done].
  2: { destruct message; try (by apply Hrej). by apply on_hello_good. }
  destruct message as [r|bytes|size|c|]; [by apply Hrej|..].
  - destruct (writable role); [|by apply Hrej]. cbn [negb]. destruct (try_push bytes _ _) as [[] q]; [|by apply Hrej].
    split; [by apply on_input_good|]. by destruct Hlw.
  - destruct (writable role) eqn:Ew; [|by apply Hrej]. cbn [negb]. set (h1 := with_sizes _ _ _ h).
    assert (good h1) as Hg1 by (by apply unsized_good). assert (lawful h1) as Hlw1 by (by eapply resized_lawful).
    pose proof (apply_size_good allows size h1 Hg1) as Ha. pose proof (apply_size_lawful size h1 Hlw1) as Hla.
    destruct (apply_size allows size h1) as [[[]|[]] h2]; cbn [snd] in *; [|done|by apply Hrej]. split; [done|]. apply (kept_lawful h2); [apply resync_attached_kept|done].
  - destruct (is_supervisor role); [|by apply Hrej]. cbn [negb].
    assert (good (control allows c h).2 ∧ lawful (control allows c h).2) as [Hg1 Hlw1].
    { unfold control. cbv zeta. destruct c; cbn [snd]; [..|destruct (allows _)|]; (split; [by repeat apply act_good|by destruct Hlw]). }
    destruct (control allows c h) as [[] h1]; [done|by apply Hrej].
  - destruct (is_supervisor role); [|by apply Hrej]. cbn [negb]. destruct (hs_exit h); [done|by apply Hrej].
Qed.

(** ** Output and the loop *)
(** What a chunk adds to the log. *)
Definition chunk_logged (bytes : list N) (h : HolderServer) : list N :=
  (Terminal.logged bytes (em_switches (process_or_reset bytes (hs_emulator h)).2) (hs_gate h)).1.2.

Section logs.
Context (Hrecords : ∀ n, io_records io n = true) (Hstats : ∀ n, io_stats io n = true).

Record sane (h : HolderServer) : Prop := {
  sn_good : good h;
  sn_lawful : lawful h;
  sn_logging : logging (hs_log h) (hs_disk h);
  sn_sound : sound (hs_disk h);
}.

Lemma lost_sane h h' : lawful h → logging (hs_log h) (hs_disk h) → sound (hs_disk h) → lost h h' → good h' → sane h'.
Proof. intros Hlw Hl Hs Hlo Hg. split; [done|by eapply lost_lawful|by rewrite (ls_log _ _ Hlo), (ls_disk _ _ Hlo)|by rewrite (ls_disk _ _ Hlo)]. Qed.

(** The output a chunk makes, the log having taken [held] of it. *)
Definition outputs (at_ : N) (whole : bool) (held bytes unlogged : list N) (h : HolderServer) : HolderServer :=
  let h := if is_exactly whole held bytes then broadcast allows (Output at_ bytes) h
           else let h := match held with [] => h | _ => broadcast_to allows is_supervisor (Output at_ held) h end in
                broadcast_to allows is_attach (Output at_ bytes) h in
  match unlogged with [] => h | _ => broadcast_to allows is_supervisor (Unlogged unlogged) h end.

Lemma outputs_lost at_ whole held bytes unlogged h : lost h (outputs at_ whole held bytes unlogged h).
Proof.
  unfold outputs. cbv zeta. set (h1 := if is_exactly _ _ _ then _ else _). assert (lost h h1) as Hl.
  { unfold h1. destruct (is_exactly _ _ _); [apply broadcast_lost|]. destruct held; [apply broadcast_lost|]. etransitivity; apply broadcast_lost. }
  destruct unlogged; [done|]. etransitivity; [exact Hl|apply broadcast_lost].
Qed.

Lemma outputs_good old whole held bytes unlogged h :
  end_known h → counted h → stream h = old ++ held → (is_exactly whole held bytes = true → held = bytes) →
  map_Forall (λ _, told (with_stream old (facts h))) (hs_clients h) → good (outputs (N.of_nat (length old)) whole held bytes unlogged h).
Proof.
  intros He Hc Es Hex Ht. unfold outputs. cbv zeta. set (h1 := if is_exactly _ _ _ then _ else _).
  assert (facts h = with_stream (old ++ held) (with_stream old (facts h))) as Ef by (unfold facts, with_stream; cbn; by rewrite Es).
  assert (good h1) as Hg1.
  { unfold h1. destruct (is_exactly whole held bytes).
    - specialize (Hex eq_refl). subst bytes. apply broadcast_good; [done..|]. intros k entry Hl. specialize (Ht k entry Hl). cbv beta in Ht. rewrite Ef.
      destruct (is_role _ entry) eqn:Er; [by apply (told_output (with_stream old (facts h)))|]. apply told_any_stream; [|done]. unfold is_role in *. by destruct (cl_role entry).
    - apply attach_output_good. destruct held as [|b held].
      + rewrite app_nil_r in *. split; [done..|]. rewrite Ef. intros k entry Hl. exact (Ht k entry Hl).
      + apply broadcast_good; [done..|]. intros k entry Hl. specialize (Ht k entry Hl). cbv beta in Ht. rewrite Ef.
        destruct (is_role is_supervisor entry) eqn:Er; [by apply (told_output (with_stream old (facts h)))|by apply told_any_stream]. }
  destruct unlogged; [done|]. by apply silent_broadcast_good.
Qed.

Lemma on_output_sane bytes h :
  sane h → room (hs_log h, hs_disk h) (chunk_logged bytes h ++ END_OPEN_LINE) → sane (on_output io allows bytes h).
Proof.
  intros [[He Hc Ht] Hlw Hl Hs] Hr. unfold on_output, chunk_logged in *.
  destruct (process_or_reset bytes (hs_emulator h)) as [reset e] eqn:Ep. cbn [snd] in Hr. cbn [take_pty_writes]. destruct (observe bytes (hs_keyboard h)) as [replies keys].
  set (h0 := match em_writes e ++ replies with [] => h | _ => _ end). cbn [take_screen_switches].
  assert (∃ f, h0 = on_input f h) as [f E0].
  { unfold h0. destruct (em_writes e ++ replies); [exists id; by destruct h|by eexists]. }
  rewrite E0. clear h0 E0. cbn [hs_gate on_input].
  change (em_switches (em_screen (em_term e) (em_processor e) [] (em_primary e) e)) with (em_switches e).
  pose proof (logged_whole bytes (em_switches e) (hs_gate h)) as Hw. destruct (Terminal.logged bytes (em_switches e) (hs_gate h)) as [[whole kept_] gate]. cbn [fst snd] in *.
  set (h1 := with_screen _ keys gate _).
  destruct (append_held_took io Hrecords Hstats kept_ (hs_log h, hs_disk h) Hl Hs Hr) as (Hl1 & Hs1 & Es1 & ending & _ & Hpre & _).
  change (hs_log h1) with (hs_log h). change (hs_disk h1) with (hs_disk h). destruct (append_held io kept_ (hs_log h, hs_disk h)) as [[held outcome] [l w]]. cbn [fst snd] in *.
  set (h2 := with_log l w h1). assert (end_known h2) as He2 by (by apply log_end_stream). assert (counted h2) as Hc2 by done.
  assert (lawful h2) as Hlw2 by (by destruct Hlw). destruct reset.
  - set (h3 := if bool_decide _ then _ else h2).
    assert (end_known h3 ∧ counted h3 ∧ lawful h3 ∧ logging (hs_log h3) (hs_disk h3) ∧ sound (hs_disk h3)) as (He3 & Hc3 & Hlw3 & Hl3 & Hs3).
    { unfold h3. destruct (bool_decide _); [|done]. split_and!; try done. by destruct Hlw2. }
    assert (good (resync_all h3)) as Hg3.
    { apply resyncs_good; [done..|]. intros k entry Hk Hnin. unfold told. destruct (cl_role entry) as [role|] eqn:Er; [|done]. destruct Hnin. apply chosen_elem. exists entry.
      split; [done|]. unfold is_role. by rewrite Er. }
    assert (kept h3 (resync_all h3)) as Hk3 by (apply foldl_kept; intros; apply resync_kept).
    split; [done|by eapply kept_lawful|by rewrite (kp_log _ _ Hk3), (kp_disk _ _ Hk3)|by rewrite (kp_disk _ _ Hk3)].
  - rewrite (log_end_stream _ _ Hl). set (un := if is_ok outcome then _ else _).
    pose proof (outputs_lost (N.of_nat (length (stream h))) whole held bytes un h2) as Hlo.
    assert (good (outputs (N.of_nat (length (stream h))) whole held bytes un h2)) as Hgo.
    { apply outputs_good; [done..| |exact Ht]. apply (exactly_held _ kept_ _ ending); done. }
    exact (lost_sane h2 _ Hlw2 Hl1 Hs1 Hlo Hgo).
Qed.

(** Events the log has room for. *)
Definition fits (ev : HolderEvent) (h : HolderServer) : Prop :=
  match ev with
  | Chunk bytes => room (hs_log h, hs_disk h) (chunk_logged bytes h ++ END_OPEN_LINE)
  | _ => True
  end.

(** What a writer takes off a queue stays sent. *)
Lemma told_sent f c g : (∀ q, sent (g q) = sent q) → told f c → told f {| cl_role := cl_role c; cl_outbox := g (cl_outbox c) |}.
Proof. intros Hg. unfold told, view_of. cbn [cl_role cl_outbox]. by rewrite Hg. Qed.
Lemma taken_good c g h : (∀ q, sent (g q) = sent q) → good h → good (on_outbox c g h).
Proof.
  intros Hg [He Hc Ht]. pose proof (on_outbox_kept c g h) as Hk. split; [by eapply kept_known|by eapply kept_counted|]. rewrite (kept_facts _ _ Hk). intros k e Hl. cbn in Hl.
  destruct (decide (k = c)) as [->|Hne]; [|rewrite lookup_alter_ne in Hl by done; by apply (Ht k)].
  rewrite lookup_alter_eq in Hl. destruct (hs_clients h !! c) as [e0|] eqn:E0; [|done]. injection Hl as <-. apply (told_sent _ e0 g Hg). by apply (Ht c).
Qed.

(** A connection is new to the holder. *)
Lemma connected_good cloned h : good h → lawful h → good (on_connected (hs_next h) cloned (next_client h)) ∧ lawful (on_connected (hs_next h) cloned (next_client h)).
Proof.
  intros [He Hc Ht] [L1 L2 L3 L4 L5]. assert (∀ c, is_Some (hs_clients h !! c) → (c < hs_next h + 1)%N) as L1' by (intros c Hs; specialize (L1 c Hs); lia).
  unfold on_connected. destruct cloned; [|split; [split; [exact He|exact Hc|exact Ht]|split; [exact L1'|exact L2|exact L3|exact L4|exact L5]]].
  assert (hs_clients h !! hs_next h = None) as Hnew by (apply eq_None_not_Some; intros Hs; specialize (L1 _ Hs); lia).
  set (entry := {| cl_role := None; cl_outbox := _ |}). set (h' := on_clients _ _).
  assert (∀ c, c ≠ hs_next h → hs_clients h' !! c = hs_clients h !! c) as Ho by (intros c Hne; cbn; by rewrite lookup_insert_ne).
  assert (hs_clients h' !! hs_next h = Some entry) as Hn by (cbn; by rewrite lookup_insert_eq).
  assert (∀ c role, role_of h' c = Some (Some role) ↔ role_of h c = Some (Some role)) as Hroles.
  { intros c role. destruct (decide (c = hs_next h)) as [->|Hne]; [by rewrite Hn, Hnew|by rewrite Ho]. }
  split; split; [done| | | |by intros c c' ?%Hroles ?%Hroles; apply L2|by intros c ?%Hroles; apply (L3 c)|done|].
  - change (hs_reported h = writable_attached h'). rewrite Hc. unfold writable_attached. do 2 f_equal. apply Permutation_length, NoDup_Permutation; [apply chosen_NoDup..|].
    intros c. rewrite !chosen_elem. destruct (decide (c = hs_next h)) as [->|Hne]; [|by rewrite Ho]. rewrite Hn, Hnew. split; [by intros (e & ? & _)|by intros (e & [= <-] & ?)].
  - intros k e Hk. destruct (decide (k = hs_next h)) as [->|Hne]; [rewrite Hn in Hk; by injection Hk as <-|]. rewrite Ho in Hk by done. exact (Ht k e Hk).
  - intros c Hs. change ((c < hs_next h + 1)%N). destruct (decide (c = hs_next h)) as [->|Hne]; [lia|]. rewrite Ho in Hs by done. by apply L1'.
  - intros x Hx. destruct (L5 x Hx) as (role & Hr & Hw). exists role. split; [|done]. by apply Hroles.
Qed.

(** What a client's message leaves of the log: all of it. *)
Lemma on_hello_log client role h : hs_log (on_hello allows client role h) = hs_log h ∧ hs_disk (on_hello allows client role h) = hs_disk h.
Proof.
  unfold on_hello. cbv zeta. fold (introduced role h). destruct (introduced_facts role h) as [Hl _]. cbv zeta in Hl. set (h1 := introduced role h) in *.
  assert (hs_log h1 = hs_log h ∧ hs_disk h1 = hs_disk h) as [E1 E2] by (rewrite (ls_log _ _ Hl), (ls_disk _ _ Hl); by destruct (is_supervisor role)).
  destruct (hs_clients h1 !! client) as [entry|]; [|done]. set (h2 := on_clients _ h1). set (h3 := if is_supervisor role then _ else h2).
  assert (hs_log h3 = hs_log h1 ∧ hs_disk h3 = hs_disk h1) as [E3 E4] by (unfold h3; by destruct (is_supervisor role)).
  pose proof (resync_kept client h3) as Hk. destruct (report_attached_steady (resync client h3)) as (_ & El & Ed & _).
  rewrite El, Ed, (kp_log _ _ Hk), (kp_disk _ _ Hk). by rewrite E3, E4.
Qed.
Lemma on_message_log client message h :
  hs_log (on_message allows client message h).2 = hs_log h ∧ hs_disk (on_message allows client message h).2 = hs_disk h.
Proof.
  unfold on_message. cbv zeta.
  assert (∀ reason h', hs_log h' = hs_log h → hs_disk h' = hs_disk h → hs_log (reject allows client reason h') = hs_log h ∧ hs_disk (reject allows client reason h') = hs_disk h) as Hrej.
  { intros reason h' El Ed. pose proof (send_lost allows client (Rejected reason) h') as Hlo. unfold reject. by rewrite (ls_log _ _ Hlo), (ls_disk _ _ Hlo). }
  destruct (role_of h client) as [[role|]|]; [| |done].
  2: { destruct message; try (by apply Hrej). apply on_hello_log. }
  destruct message as [r|bytes|size|c|]; [by apply Hrej|..].
  - destruct (negb (writable role)); [by apply Hrej|]. destruct (try_push bytes _ _) as [[] q]; [done|by apply Hrej].
  - destruct (negb (writable role)); [by apply Hrej|]. unfold apply_size. destruct (bool_decide _); [done|]. cbv zeta. destruct (allows _); [|by apply Hrej].
    set (h1 := with_sizes _ size _ _). pose proof (resync_attached_kept h1) as Hk. cbn [snd]. by rewrite (kp_log _ _ Hk), (kp_disk _ _ Hk).
  - destruct (negb (is_supervisor role)); [by apply Hrej|]. unfold control. cbv zeta. destruct c; destruct (allows _); try done; by apply Hrej.
  - destruct (negb (is_supervisor role)); [by apply Hrej|]. destruct (hs_exit h); [done|by apply Hrej].
Qed.

Lemma on_exit_lawful outcome h : lawful h → lawful (on_exit allows outcome h) ∧ lost (with_child true (Some outcome) h) (on_exit allows outcome h).
Proof.
  intros Hlw. unfold on_exit. cbv zeta. set (h1 := with_child true (Some outcome) h).
  assert (lost h1 (broadcast allows (Exited_ outcome) (foldl (λ h c, send allows c (snapshot h) h) h1 (chosen is_supervisor h1)))) as Hlo.
  { etransitivity; [|apply broadcast_lost]. apply foldl_lost. intros. apply send_lost. }
  split; [|done]. apply (lost_lawful h1); [done|]. destruct Hlw as [L1 L2 L3 L4 L5]. split; [done..| |done]. cbn. by split.
Qed.

Lemma on_event_sane ev h : sane h → fits ev h → sane (on_event io allows ev h).2.
Proof.
  intros Hs Hf. pose proof Hs as [Hg Hlw Hl Hso]. destruct ev; cbn [on_event snd fits] in *.
  - by apply on_output_sane.
  - destruct (on_exit_lawful outcome h Hlw) as [Hlw' Hlo]. split; [by apply on_exit_good|done|..]; rewrite ?(ls_log _ _ Hlo), (ls_disk _ _ Hlo); done.
  - unfold kill_running. destruct (hs_exited h); [done|]. split; [by apply act_good|by destruct Hlw|done|done].
  - unfold kill_running. destruct (hs_supervised h); [done|]. cbn [snd]. destruct (hs_exited h); [done|]. split; [by apply act_good|by destruct Hlw|done|done].
  - destruct (connected_good cloned h Hg Hlw) as [Hg' Hlw']. split; [done|done|by destruct cloned|by destruct cloned].
  - destruct (on_message_good client message h Hg Hlw) as [Hg' Hlw']. destruct (on_message_log client message h) as [El Ed]. split; [done|done|by rewrite El, Ed|by rewrite Ed].
  - destruct (drop_client_lost allows client h) as (Hlo & _ & _). apply (lost_sane h); [done..|]. apply drop_client_good; [apply Hg|apply Hg].
  - split; [by apply taken_good; [apply sent_consume|]|by apply (kept_lawful h); [apply on_outbox_kept|]|done|done].
  - split; [by apply taken_good; [apply sent_release|]|by apply (kept_lawful h); [apply on_outbox_kept|]|done|done].
  - split; [by apply on_input_good|by destruct Hlw|done|done].
  - split; [by apply on_input_good|by destruct Hlw|done|done].
Qed.

(** Every state a holder can come to, over a log left by whatever holders came
    before it. *)
Inductive holds_child : HolderServer → Prop :=
| holds_start cap pid size scrollback scheme w l w' l' w'' :
    LogPlaced.logged io w None → log_open io cap w = (Ok l, w') → room (l, w') RUN_START → start_run io (l, w') = (l', w'') →
    holds_child (server_new pid size scrollback scheme l' w'')
| holds_event ev h : holds_child h → fits ev h → holds_child (on_event io allows ev h).2.

Lemma holds_sane h : holds_child h → sane h.
Proof.
  induction 1 as [cap pid size scrollback scheme w l w' l' w'' Hw Ho Hr Es|ev h _ IH Hf]; [|by apply on_event_sane].
  destruct (logged_sound io Hrecords Hstats w None Hw) as [Hs _]. destruct (log_open_logging io Hrecords cap w Hs) as (Hs' & _ & Hl). rewrite Ho in Hs', Hl. cbn [fst snd] in *.
  destruct (start_run_took io Hrecords Hstats (l, w') (Hl l eq_refl) Hs' Hr) as (Hl1 & Hs1 & _). rewrite Es in Hl1, Hs1. cbn [fst snd] in *.
  split; [|split; cbn|done|done].
  - split; [by apply log_end_stream|by vm_compute|]. intros k e Hk. cbn [server_new hs_clients] in Hk. by rewrite lookup_empty in Hk.
  - intros c [e Hc]. by rewrite lookup_empty in Hc.
  - intros c c' Hc. by rewrite lookup_empty in Hc.
  - intros c Hc. by rewrite lookup_empty in Hc.
  - by split; [|intros []].
  - intros x Hx. by apply elem_of_nil in Hx.
Qed.


(** What a message may do to the child. *)
Definition may_act (h : HolderServer) (client : N) (message : ClientMessage) (a : Act) : Prop :=
  match a with
  | AShut _ => True
  | AResize size _ =>
    ∃ asker role, role_of h asker = Some (Some role) ∧ writable role = true ∧ (asker = client ∧ message = Resize size ∨ (asker, size) ∈ hs_resizes h)
  | _ => role_of h client = Some (Some Supervisor) ∧ ∃ c, message = Control c
  end.
Definition acts_allowed (h h' : HolderServer) (client : N) (message : ClientMessage) : Prop :=
  ∃ more, hs_acts h' = more ++ hs_acts h ∧ Forall (may_act h client message) more.

Lemma fallback_allowed h client message a : lawful h → shut_or_fallback (hs_resizes h) a → may_act h client message a.
Proof.
  intros Hlw. destruct a; cbn; try done. intros ([asker s] & -> & Hin)%list_elem_of_fmap. destruct (lw_resizes _ Hlw _ Hin) as (role & Hr & Hw). cbn in *. exists asker, role. auto.
Qed.
Lemma lost_allowed h h' client message : lawful h → lost h h' → acts_allowed h h' client message.
Proof. intros Hlw [_ _ (more & Ha & Hm)]. exists more. split; [done|]. eapply Forall_impl; [exact Hm|]. intros a. by apply fallback_allowed. Qed.

Lemma reject_allowed h client message reason : lawful h →
  hs_input (reject allows client reason h) = hs_input h ∧ acts_allowed h (reject allows client reason h) client message.
Proof. intros Hlw. pose proof (send_lost allows client (Rejected reason) h) as Hlo. split; [apply (ls_input _ _ Hlo)|by apply lost_allowed]. Qed.

Lemma on_hello_allowed client role message h : lawful h →
  hs_input (on_hello allows client role h) = hs_input h ∧ acts_allowed h (on_hello allows client role h) client message.
Proof.
  intros Hlw. unfold on_hello. cbv zeta. fold (introduced role h). destruct (introduced_facts role h) as [Hlo _]. cbv zeta in Hlo. set (h1 := introduced role h) in *.
  assert (hs_input h1 = hs_input h ∧ acts_allowed h h1 client message) as [Ei Ha].
  { destruct Hlo as [_ _ (more & Ea & Hm) _ _ Ei _ _ _ _]. split; [by rewrite Ei; destruct (is_supervisor role)|]. exists more.
    split; [by rewrite Ea; destruct (is_supervisor role)|]. eapply Forall_impl; [exact Hm|]. intros a Ha. apply fallback_allowed; [done|]. by destruct (is_supervisor role). }
  destruct (hs_clients h1 !! client) as [entry|]; [|done]. set (h2 := on_clients _ h1). set (h3 := if is_supervisor role then _ else h2).
  assert (hs_input h3 = hs_input h1 ∧ hs_acts h3 = hs_acts h1) as [E3 E4] by (unfold h3; by destruct (is_supervisor role)).
  pose proof (resync_kept client h3) as Hk. destruct (report_attached_steady (resync client h3)) as (_ & _ & _ & Ei' & _ & _ & _ & _ & _ & Ea' & _).
  unfold acts_allowed in *. rewrite Ei', Ea', (kp_input _ _ Hk), (kp_acts _ _ Hk), E3, E4. done.
Qed.

(** A size asked for: at most the terminal is resized. *)
Lemma apply_size_acts size h :
  let res := apply_size allows size h in
  hs_input res.2 = hs_input h ∧ hs_clients res.2 = hs_clients h ∧ hs_resizes res.2 = hs_resizes h ∧
  ∃ more, hs_acts res.2 = more ++ hs_acts h ∧ Forall (λ a, ∃ ok, a = AResize size ok) more.
Proof.
  unfold apply_size. destruct (bool_decide _); [split_and!; try done; by exists []|]. cbv zeta. set (ok := allows _). assert (∃ more, AResize size ok :: hs_acts h = more ++ hs_acts h ∧ Forall (λ a, ∃ ok, a = AResize size ok) more) as Hm.
  { exists [AResize size ok]. split; [done|]. constructor; [by eexists|done]. }
  clearbody ok. by destruct ok.
Qed.

Lemma resize_allowed client role size h :
  lawful h → role_of h client = Some (Some role) → writable role = true →
  let h1 := with_sizes (filter (λ it, it.1 ≠ client) (hs_resizes h) ++ [(client, size)]) (hs_size h) (hs_emulator h) h in
  let h2 := (apply_size allows size h1).2 in
  ∀ h3, lost h2 h3 → hs_input h3 = hs_input h ∧ acts_allowed h h3 client (Resize size).
Proof.
  intros Hlw Hr Hw h1 h2 h3 [_ _ (more & Ea & Hm) _ _ Ei _ _ _ _]. destruct (apply_size_acts size h1) as (Ei2 & _ & Ez & more2 & Ea2 & Hm2). fold h2 in Ei2, Ez, Ea2.
  split; [by rewrite Ei, Ei2|]. exists (more ++ more2). rewrite Ea, Ea2, app_assoc. split; [done|]. apply Forall_app. split.
  - eapply Forall_impl; [exact Hm|]. intros a Ha. rewrite Ez in Ha. destruct a as [| | | |s ok| |]; try done. cbn in Ha. rewrite fmap_app in Ha. apply elem_of_app in Ha as [Ha|Ha].
    + apply fallback_allowed; [done|]. cbn. apply list_elem_of_fmap in Ha as (x & -> & [_ Hx]%list_elem_of_filter). apply list_elem_of_fmap. by exists x.
    + apply list_elem_of_singleton in Ha as ->. cbn. exists client, role. auto.
  - eapply Forall_impl; [exact Hm2|]. intros a [ok ->]. exists client, role. auto.
Qed.


End logs.
End server.
