(* ===== verification/HolderTrail.v ===== *)
(** * The trail of a supervisor's messages

    The messages a supervisor was ever sent, one after the other, place what
    they carry in the log's stream: each piece of output has the stream's bytes
    at its place and goes on where the message before it ended, and a snapshot,
    which stands for what was dropped from a full queue, never goes back. What
    is proved here of every state of the holder is what the service's reader of
    these messages, in HolderClient.v, relies on. *)
From S2P Require Import Prelude RustText Values Config Process Frame Tap LogFile LogSpan LogPlaced Terminal Screen Emulator Holder HolderSafe HolderServe.

(** ** Trails *)
(** The bytes of [s] at a place. *)
Definition stands (s : list N) (at_ : N) (bytes : list N) : Prop := take (length bytes) (drop (N.to_nat at_) s) = bytes.

(** How far a message takes what is known of the stream. *)
Definition trail_step (pos : N) (m : HolderMessage) : N :=
  match m with
  | Snapshot _ _ _ _ _ end_ => end_
  | Output _ bytes => pos + N.of_nat (length bytes)
  | _ => pos
  end%N.

Fixpoint chained (s : list N) (pos : N) (ms : list HolderMessage) : Prop :=
  match ms with
  | [] => (pos ≤ N.of_nat (length s))%N
  | m :: ms =>
    match m with
    | Snapshot _ _ _ _ _ end_ => (pos ≤ end_)%N
    | Output at_ bytes => at_ = pos ∧ stands s at_ bytes
    | _ => True
    end ∧ chained s (trail_step pos m) ms
  end.

Definition trail_end (pos : N) (ms : list HolderMessage) : N := foldl trail_step pos ms.

Lemma stands_app s more at_ bytes : stands s at_ bytes → stands (s ++ more) at_ bytes.
Proof.
  unfold stands. intros E. assert (length bytes = length (take (length bytes) (drop (N.to_nat at_) s))) as El by (by rewrite E). rewrite length_take, length_drop in El.
  destruct bytes as [|b bytes]; [done|]. cbn [length] in *. rewrite drop_app_le by lia. rewrite take_app_le by (rewrite length_drop; lia). done.
Qed.

Lemma chained_from s pos ms : chained s pos ms → (pos ≤ N.of_nat (length s))%N.
Proof.
  revert pos. induction ms as [|m ms IH]; intros pos; [done|]. cbn [chained]. intros [Hm Hc%IH]. destruct m; cbn [trail_step] in *; lia.
Qed.
Lemma chained_app s pos ms ms' : chained s pos (ms ++ ms') ↔ chained s pos ms ∧ chained s (trail_end pos ms) ms'.
Proof.
  revert pos. induction ms as [|m ms IH]; intros pos; cbn [app chained].
  - split; [|by intros [_ ?]]. intros Hc. split; [by apply chained_from in Hc|done].
  - rewrite IH. change (trail_end pos (m :: ms)) with (trail_end (trail_step pos m) ms). tauto.
Qed.
Lemma chained_longer s more pos ms : chained s pos ms → chained (s ++ more) pos ms.
Proof.
  revert pos. induction ms as [|m ms IH]; intros pos; cbn [chained]; [rewrite length_app; lia|]. intros [Hm Hc]. split; [|by apply IH].
  destruct m; try done. destruct Hm as [-> Hm]. split; [done|by apply stands_app].
Qed.
Lemma chained_end s pos ms : chained s pos ms → (pos ≤ trail_end pos ms ≤ N.of_nat (length s))%N.
Proof.
  revert pos. induction ms as [|m ms IH]; intros pos; cbn [chained]; [cbn; lia|]. intros [Hm Hc%IH]. change (trail_end pos (m :: ms)) with (trail_end (trail_step pos m) ms).
  destruct m; cbn [trail_step] in *; lia.
Qed.

(** A view without a gap has come to the end of its trail. *)
Lemma view_trail ms v v' pos :
  foldl view_step (Some v) ms = Some v' → vw_gap v' = false → pos = (vw_from v + N.of_nat (length (vw_bytes v)))%N →
  trail_end pos ms = (vw_from v' + N.of_nat (length (vw_bytes v')))%N.
Proof.
  revert v pos. induction ms as [|m ms IH]; intros v pos Hv Hg ->; cbn [foldl] in Hv; [by injection Hv as <-|].
  change (trail_end _ (m :: ms)) with (trail_end (trail_step (vw_from v + N.of_nat (length (vw_bytes v))) m) ms).
  destruct m; cbn [view_step] in Hv; apply (IH _ _ Hv Hg); cbn [trail_step vw_from vw_bytes]; rewrite ?length_app; cbn [length]; lia.
Qed.
Lemma view_none_trail ms v' pos :
  foldl view_step None ms = Some v' → vw_gap v' = false → trail_end pos ms = (vw_from v' + N.of_nat (length (vw_bytes v')))%N.
Proof.
  revert pos. induction ms as [|m ms IH]; intros pos Hv Hg; [done|]. change (trail_end pos (m :: ms)) with (trail_end (trail_step pos m) ms). cbn [foldl] in Hv.
  destruct m; cbn [view_step] in Hv; try (by apply IH). eapply view_trail; [exact Hv|done|]. cbn [trail_step vw_from vw_bytes length]. lia.
Qed.

(** ** Steps that send no output *)
(** What a step that takes the log as it ends at [e] may send. *)
Definition fine (e : N) (m : HolderMessage) : Prop :=
  match m with Output _ _ => False | Snapshot _ _ _ _ _ end_ => end_ = e | _ => True end.

(** The messages after it: some of those not taken dropped, others added. *)
Definition tells (e : N) (ms ms' : list HolderMessage) : Prop := ∃ pre new, pre `prefix_of` ms ∧ ms' = pre ++ new ∧ Forall (fine e) new.

#[export] Instance tells_pre e : PreOrder (tells e).
Proof.
  split.
  - intros ms. exists ms, []. by rewrite app_nil_r.
  - intros a b c (p1 & n1 & Hp1 & -> & Hn1) (p2 & n2 & [r Hp2] & -> & Hn2). apply app_eq_inv in Hp2 as [(k & -> & ->)|(k & -> & ->)].
    + exists p2, n2. split_and!; [|done|done]. by apply prefix_app_l in Hp1.
    + apply Forall_app in Hn1 as [Hk _]. exists p1, (k ++ n2). split_and!; [done|by rewrite app_assoc|]. by apply Forall_app.
Qed.

Lemma tells_chained e s ms ms' : e = N.of_nat (length s) → tells e ms ms' → chained s 0 ms → chained s 0 ms'.
Proof.
  intros -> (pre & new & [r ->] & -> & Hn) [Hc _]%chained_app. apply chained_app. split; [done|]. apply chained_end in Hc as [_ Hc].
  revert Hc. generalize (trail_end 0 pre). induction Hn as [|m new Hm _ IH]; intros pos Hpos; [done|]. cbn [chained].
  destruct m; cbn [fine] in Hm; try done; (split; [try done; lia|apply IH; cbn [trail_step]; lia]).
Qed.

Section server.
Context `{VtParser, Backend}.
Context `{Json ExitOutcomeWire, Json RejectReason, Json rstr}.
Context (io : LogFile.Io) (allows : nat → bool).

Notation stream h := (wr_stream (hs_disk h)).
Notation sent_to c := (sent (cl_outbox c)).

(** A step that leaves the log and tells the clients left no output. *)
Record quiet (h h' : HolderServer) : Prop := {
  qt_log : hs_log h' = hs_log h;
  qt_disk : hs_disk h' = hs_disk h;
  qt_sent : ∀ c e', hs_clients h' !! c = Some e' → ∃ e, hs_clients h !! c = Some e ∧ cl_role e' = cl_role e ∧ tells (log_end (hs_log h)) (sent_to e) (sent_to e');
}.
#[export] Instance quiet_pre : PreOrder quiet.
Proof.
  split; [by split; [done..|]; intros c e' He'; exists e'|]. intros a b c [L1 D1 S1] [L2 D2 S2]. split; [congruence..|]. intros k e' He'.
  destruct (S2 k e' He') as (e & He & Hr & Ht). destruct (S1 k e He) as (e0 & He0 & Hr0 & Ht0). exists e0. split_and!; [done|congruence|]. rewrite L1 in Ht. by transitivity (sent_to e).
Qed.
Lemma foldl_quiet (f : HolderServer → N → HolderServer) cs h : (∀ h c, quiet h (f h c)) → quiet h (foldl f h cs).
Proof. intros Hf. revert h. induction cs as [|c cs IH]; intros h; [done|]. cbn [foldl]. by transitivity (f h c). Qed.

(** Clients as they were, whatever else changed but the log. *)
Lemma same_quiet h h' : hs_log h' = hs_log h → hs_disk h' = hs_disk h → hs_clients h' = hs_clients h → quiet h h'.
Proof. intros L D E. split; [done..|]. intros c e' He'. rewrite E in He'. by exists e'. Qed.

Lemma sent_force_push m bytes q : sent (force_push m bytes q) = sent q ++ [m].
Proof. unfold sent, force_push. cbn [bq_out bq_items]. by rewrite fmap_app, app_assoc. Qed.
Lemma sent_force_pushes ms q : sent (foldl (λ q m, force_push m (message_weight m) q) q ms) = sent q ++ ms.
Proof. revert q. induction ms as [|m ms IH]; intros q; cbn [foldl]; [by rewrite app_nil_r|]. rewrite IH, sent_force_push. by rewrite <-app_assoc. Qed.

Lemma outbox_quiet c g h :
  (∀ e, hs_clients h !! c = Some e → tells (log_end (hs_log h)) (sent_to e) (sent (g (cl_outbox e)))) → quiet h (on_outbox c g h).
Proof.
  intros Hg. split; [done..|]. intros k e' He'. cbn in He'. destruct (decide (k = c)) as [->|Hne]; [|rewrite lookup_alter_ne in He' by done; by exists e'].
  rewrite lookup_alter_eq in He'. destruct (hs_clients h !! c) as [e|]; [|done]. injection He' as <-. exists e. split_and!; [done|done|]. by apply Hg.
Qed.

Lemma resync_quiet c h : quiet h (resync c h).
Proof.
  unfold resync. destruct (hs_clients h !! c) as [e|] eqn:E; [|done]. cbv zeta. cbn [clear]. set (owes := is_role is_supervisor e && _).
  set (owed := if owes then [_] else _). set (queued := filter _ _). set (exit := match hs_exit h with Some _ => _ | None => _ end).
  set (h1 := if owes then _ else h). assert (quiet h h1) as Hq by (unfold h1; destruct owes; [by apply same_quiet|done]).
  assert (hs_clients h1 = hs_clients h ∧ hs_log h1 = hs_log h) as [Ec El] by (unfold h1; by destruct owes).
  transitivity h1; [done|]. apply outbox_quiet. intros e0 He0. rewrite Ec, E in He0. injection He0 as <-. rewrite sent_force_pushes, El. unfold sent at 2. cbn [bq_out bq_items].
  exists (bq_out (cl_outbox e)), (snapshot h :: queued ++ owed ++ exit). rewrite fmap_nil, app_nil_r. split_and!; [by exists (fst <$> bq_items (cl_outbox e))|done|].
  constructor; [done|]. apply Forall_app. split; [|apply Forall_app; split].
  - apply Forall_forall. intros m [Hm _]%list_elem_of_filter. by destruct m.
  - unfold owed. destruct owes; by repeat constructor.
  - unfold exit. destruct (hs_exit h); by repeat constructor.
Qed.

Lemma pushed_tells e m q : fine e m → tells e (sent q) (sent (force_push m (message_weight m) q)).
Proof. intros Hm. rewrite sent_force_push. exists (sent q), [m]. split_and!; [done|done|by repeat constructor]. Qed.
Lemma tell_quiet m c h : fine (log_end (hs_log h)) m → quiet h (tell m c h).
Proof. intros Hm. destruct (tell_at m c h) as [-> |[-> |[-> _]]]; [|apply resync_quiet|done]. apply outbox_quiet. intros e _. by apply pushed_tells. Qed.
Lemma report_attached_quiet h : quiet h (report_attached h).
Proof.
  unfold report_attached. cbv zeta. destruct (_ =? _)%N; [done|]. set (h1 := with_report _ _ _ h). transitivity h1; [by apply same_quiet|]. apply foldl_quiet. intros. by apply tell_quiet.
Qed.
Lemma resync_attached_quiet h : quiet h (resync_attached h).
Proof. apply foldl_quiet. intros. apply resync_quiet. Qed.
Lemma apply_size_quiet size h : quiet h (apply_size allows size h).2.
Proof. unfold apply_size. destruct (bool_decide _); [done|]. cbv zeta. destruct (allows _); by apply same_quiet. Qed.

Lemma drop_client_quiet c h : quiet h (drop_client allows c h).
Proof.
  unfold drop_client. cbv zeta. set (h1 := match hs_clients h !! c with Some _ => _ | None => _ end).
  assert (quiet h h1) as H1'.
  { unfold h1. destruct (hs_clients h !! c); [|done]. split; [done..|]. intros k e' He'. change (delete c (hs_clients h) !! k = Some e') in He'. apply lookup_delete_Some in He' as [_ He']. by exists e'. }
  pose proof (report_attached_quiet h1) as H2'. set (h2 := report_attached h1) in *. set (h3 := with_sizes _ _ _ h2). assert (quiet h h3) as H3' by (transitivity h1; [done|]; transitivity h2; [done|]; by apply same_quiet).
  destruct (match last (hs_resizes h2) with Some _ => _ | None => _ end); [|done]. destruct (last (hs_resizes h3)) as [[k size]|]; [|done].
  pose proof (apply_size_quiet size h3) as H4'. destruct (apply_size allows size h3) as [[[]|] h4]; cbn [snd] in H4'; transitivity h3; try done. transitivity h4; [done|apply resync_attached_quiet].
Qed.
Lemma on_stalled_quiet c h : quiet h (on_stalled allows c h).
Proof. unfold on_stalled. destruct (_ ≫= cl_role); [apply resync_quiet|apply drop_client_quiet]. Qed.
Lemma send_quiet c m h : fine (log_end (hs_log h)) m → quiet h (send allows c m h).
Proof.
  intros Hm. unfold send. destruct (hs_clients h !! c) as [entry|] eqn:El; [|done]. destruct (try_push_cases m (message_weight m) (cl_outbox entry)) as [-> | ->]; [|apply on_stalled_quiet].
  apply outbox_quiet. intros e He. rewrite El in He. injection He as <-. by apply pushed_tells.
Qed.

(** The push of a broadcast, before those it did not fit are handled. *)
Lemma pushes_quiet takes m h : fine (log_end (hs_log h)) m → quiet h (on_clients (fmap (pushes_to takes m)) h).
Proof.
  intros Hm. split; [done..|]. intros k e' He'. cbn in He'. rewrite lookup_fmap in He'. destruct (hs_clients h !! k) as [e|]; [|done]. injection He' as <-. exists e.
  split_and!; [done|apply pushes_to_role|]. unfold pushes_to. destruct (is_role takes e); [|done]. cbn [cl_outbox].
  destruct (try_push_cases m (message_weight m) (cl_outbox e)) as [-> | ->]; [by apply pushed_tells|done].
Qed.
Lemma broadcast_stalled takes m h : quiet (on_clients (fmap (pushes_to takes m)) h) (broadcast_to allows takes m h).
Proof. apply foldl_quiet. intros. apply on_stalled_quiet. Qed.
Lemma broadcast_quiet takes m h : fine (log_end (hs_log h)) m → quiet h (broadcast_to allows takes m h).
Proof. intros Hm. transitivity (on_clients (fmap (pushes_to takes m)) h); [by apply pushes_quiet|apply broadcast_stalled]. Qed.

(** ** Trails kept *)
Definition trailed (s : list N) (c : Client) : Prop :=
  match cl_role c with Some (Attach _) => True | _ => chained s 0 (sent_to c) end.
Notation all_trailed s h := (map_Forall (λ _, trailed s) (hs_clients h)).

Lemma quiet_trailed h h' : end_known h → quiet h h' → all_trailed (stream h) h → all_trailed (stream h') h'.
Proof.
  intros He [_ Ed Hs] Ht c e' He'. destruct (Hs c e' He') as (e & Hc & Hr & Hte). specialize (Ht c e Hc). cbv beta in *. unfold trailed in *. rewrite Ed, Hr.
  destruct (cl_role e) as [[|ro]|]; [|done|]; by eapply tells_chained.
Qed.
Lemma quiet_known h h' : end_known h → quiet h h' → end_known h'.
Proof. intros He [El Ed _]. unfold end_known. by rewrite El, Ed. Qed.
Lemma trailed_longer s more h : all_trailed s h → all_trailed (s ++ more) h.
Proof. intros Ht c e He. specialize (Ht c e He). cbv beta in *. unfold trailed in *. destruct (cl_role e) as [[|ro]|]; [|done|]; by apply chained_longer. Qed.

(** Output told to a supervisor that knows the stream up to it. *)
Lemma output_trailed f c held :
  told f c → is_role is_supervisor c = true → trailed (fa_stream f) c →
  trailed (fa_stream f ++ held) (handed (Output (N.of_nat (length (fa_stream f))) held) c).
Proof.
  unfold told, trailed, is_role. cbn [handed cl_role cl_outbox]. destruct (cl_role c) as [[|ro]|]; try done. intros (v & Hv & _ & _ & Hg & Hl & _) _ Hc.
  rewrite sent_force_push. apply chained_app. split; [by apply chained_longer|]. rewrite (view_none_trail _ _ 0 Hv Hg), Hl. cbn [chained trail_step].
  split; [split; [done|]|rewrite length_app; lia]. unfold stands. by rewrite Nat2N.id, drop_app_length, firstn_all.
Qed.

Lemma broadcast_output_trailed takes at_ old held bytes h :
  end_known h → stream h = old ++ held → at_ = N.of_nat (length old) → (∀ e, is_role takes e = true → is_role is_supervisor e = true → bytes = held) →
  map_Forall (λ _ e, told (with_stream old (facts h)) e ∧ trailed old e) (hs_clients h) → all_trailed (stream h) (broadcast_to allows takes (Output at_ bytes) h).
Proof.
  intros He Es -> Hb Ht. pose proof (broadcast_stalled takes (Output (N.of_nat (length old)) bytes) h) as Hq. set (h1 := on_clients _ h) in *.
  assert (stream (broadcast_to allows takes (Output (N.of_nat (length old)) bytes) h) = stream h1) as E by (by rewrite (qt_disk _ _ Hq)).
  change (stream h) with (stream h1). rewrite <-E. apply (quiet_trailed h1); [done|done|]. change (stream h1) with (stream h). rewrite Es. intros k e' He'. cbn in He'. rewrite lookup_fmap in He'.
  destruct (hs_clients h !! k) as [e|] eqn:Ek; [|done]. injection He' as <-. destruct (Ht k e Ek) as [Hto Htr].
  assert (trailed (old ++ held) e) as Hsame by (unfold trailed in *; destruct (cl_role e) as [[|ro]|]; [|done|]; by apply chained_longer).
  unfold pushes_to. destruct (is_role takes e) eqn:Er; [|done]. destruct (try_push_cases (Output (N.of_nat (length old)) bytes) (message_weight (Output (N.of_nat (length old)) bytes)) (cl_outbox e)) as [-> | ->]; [|by destruct e].
  destruct (is_role is_supervisor e) eqn:Esup.
  - rewrite (Hb e Er Esup). by apply (output_trailed (with_stream old (facts h))).
  - unfold trailed, is_role in *. cbn [snd cl_role]. by destruct (cl_role e) as [[|ro]|].
Qed.

Lemma outputs_trailed old whole held bytes unlogged h :
  end_known h → stream h = old ++ held → (is_exactly whole held bytes = true → held = bytes) →
  map_Forall (λ _ e, told (with_stream old (facts h)) e ∧ trailed old e) (hs_clients h) →
  all_trailed (stream (outputs allows (N.of_nat (length old)) whole held bytes unlogged h)) (outputs allows (N.of_nat (length old)) whole held bytes unlogged h).
Proof.
  intros He Es Hex Ht. rewrite (ls_disk _ _ (outputs_lost allows _ whole held bytes unlogged h)). unfold outputs. cbv zeta. set (h1 := if is_exactly _ _ _ then _ else _).
  assert (all_trailed (stream h1) h1 ∧ hs_disk h1 = hs_disk h ∧ hs_log h1 = hs_log h) as (Ht1 & Ed1 & El1).
  { unfold h1, broadcast. destruct (is_exactly whole held bytes).
    - split; [|split; [apply (ls_disk _ _ (broadcast_lost allows _ _ h))|apply (ls_log _ _ (broadcast_lost allows _ _ h))]]. rewrite (ls_disk _ _ (broadcast_lost allows _ _ h)).
      apply (broadcast_output_trailed _ _ old held); try done. intros e _ _. by rewrite Hex.
    - set (h2 := match held with [] => h | _ => _ end).
      assert (all_trailed (stream h2) h2 ∧ hs_disk h2 = hs_disk h ∧ hs_log h2 = hs_log h) as (Ht2 & Ed2 & El2).
      { unfold h2. destruct held as [|b held].
        - split; [|done]. rewrite Es, app_nil_r. intros k e Hk. by apply (Ht k e Hk).
        - split; [|split; [apply (ls_disk _ _ (broadcast_lost allows _ _ h))|apply (ls_log _ _ (broadcast_lost allows _ _ h))]]. rewrite (ls_disk _ _ (broadcast_lost allows _ _ h)).
          by apply (broadcast_output_trailed _ _ old (b :: held)). }
      pose proof (broadcast_lost allows is_attach (Output (N.of_nat (length old)) bytes) h2) as Hlo. split; [|rewrite (ls_disk _ _ Hlo), (ls_log _ _ Hlo); by split].
      pose proof (broadcast_stalled is_attach (Output (N.of_nat (length old)) bytes) h2) as Hq. set (h3 := on_clients _ h2) in *. apply (quiet_trailed h3); [|done|].
      { unfold end_known in *. cbn. by rewrite El2, Ed2. }
      intros k e' He'. cbn in He'. rewrite lookup_fmap in He'. destruct (hs_clients h2 !! k) as [e|] eqn:Ek; [|done]. injection He' as <-. specialize (Ht2 k e Ek). cbv beta in Ht2.
      change (stream h3) with (stream h2). unfold trailed, pushes_to, is_role in *. destruct (cl_role e) as [[|ro]|] eqn:Er; cbn; by rewrite ?Er. }
  assert (end_known h1) as He1 by (unfold end_known; by rewrite El1, Ed1). rewrite <-Ed1. destruct unlogged as [|b unlogged]; [done|].
  pose proof (broadcast_quiet is_supervisor (Unlogged (b :: unlogged)) h1 I) as Hq. rewrite <-(qt_disk _ _ Hq). by apply (quiet_trailed h1).
Qed.

(** ** Handlers *)
Lemma on_exit_quiet outcome h : quiet (with_child true (Some outcome) h) (on_exit allows outcome h).
Proof.
  unfold on_exit. cbv zeta. set (h1 := with_child true (Some outcome) h). etransitivity; [|by apply broadcast_quiet].
  assert (∀ cs h', quiet h' (foldl (λ h c, send allows c (snapshot h) h) h' cs)) as Hs; [|apply Hs]. intros cs h'. apply foldl_quiet. intros. by apply send_quiet.
Qed.

Lemma on_hello_trailed client role h : cl_role <$> hs_clients h !! client = Some None → end_known h → all_trailed (stream h) h → all_trailed (stream (on_hello allows client role h)) (on_hello allows client role h).
Proof.
  intros Hnone He Ht. unfold on_hello. cbv zeta. fold (introduced allows role h). set (h1 := introduced allows role h).
  assert (quiet h h1) as Hq.
  { unfold h1, introduced. destruct (is_supervisor role); [|done]. cbv zeta. etransitivity; [|apply foldl_quiet; intros; apply drop_client_quiet]. by apply same_quiet. }
  pose proof (quiet_known _ _ He Hq) as He1. pose proof (quiet_trailed _ _ He Hq Ht) as Ht1. destruct (hs_clients h1 !! client) as [entry|] eqn:El; [|done].
  set (h2 := on_clients _ h1). set (h3 := if is_supervisor role then _ else h2).
  assert (hs_clients h3 = hs_clients h2 ∧ hs_log h3 = hs_log h1 ∧ hs_disk h3 = hs_disk h1) as (Ec & Elog & Ed) by (unfold h3; by destruct (is_supervisor role)).
  assert (end_known h3) as He3 by (unfold end_known; by rewrite Elog, Ed).
  apply (quiet_trailed h3); [done|transitivity (resync client h3); [apply resync_quiet|apply report_attached_quiet]|]. rewrite Ed. intros k e Hk. rewrite Ec in Hk. cbn in Hk.
  apply lookup_insert_Some in Hk as [[<- <-]|[_ Hk]]; [|by apply (Ht1 k)]. specialize (Ht1 client entry El). cbv beta in Ht1.
  destruct (qt_sent _ _ Hq client entry El) as (e0 & He0 & Hr & _). rewrite He0 in Hnone. injection Hnone as Hnone. unfold trailed in *. rewrite Hr, Hnone in Ht1. cbn. by destruct role.
Qed.

Lemma on_message_trailed client message h :
  end_known h → all_trailed (stream h) h → all_trailed (stream (on_message allows client message h).2) (on_message allows client message h).2.
Proof.
  intros He Ht. assert (∀ h', quiet h h' → all_trailed (stream h') h') as Hq by (intros h' Hq; by apply (quiet_trailed h)).
  assert (∀ reason h', quiet h h' → all_trailed (stream (reject allows client reason h')) (reject allows client reason h')) as Hrej.
  { intros reason h' Hh. apply Hq. transitivity h'; [done|]. by apply send_quiet. }
  unfold on_message. cbv zeta. destruct (cl_role <$> hs_clients h !! client) as [[role|]|] eqn:Er; [| |by apply Hq].
  2: { destruct message; try (by apply Hrej). by apply on_hello_trailed. }
  destruct message as [r|bytes|size|c|]; [by apply Hrej|..].
  - destruct (negb (writable role)); [by apply Hrej|]. destruct (try_push bytes _ _) as [[] q]; [|by apply Hrej]. apply Hq. by apply same_quiet.
  - destruct (negb (writable role)); [by apply Hrej|]. set (h1 := with_sizes _ _ _ h). assert (quiet h h1) as H1' by (by apply same_quiet).
    pose proof (apply_size_quiet size h1) as H2'. destruct (apply_size allows size h1) as [[[]|[]] h2]; cbn [snd] in *; [apply Hq|apply Hq|apply Hrej]; (transitivity h1; [done|]); [|done..].
    transitivity h2; [done|apply resync_attached_quiet].
  - destruct (negb (is_supervisor role)); [by apply Hrej|]. assert (quiet h (control allows c h).2) as H1' by (unfold control; cbv zeta; destruct c; [..|destruct (allows _)|]; by apply same_quiet).
    destruct (control allows c h) as [[] h1]; [by apply Hq|by apply Hrej].
  - destruct (negb (is_supervisor role)); [by apply Hrej|]. destruct (hs_exit h); [by apply Hq|by apply Hrej].
Qed.

Section logs.
Context (Hrecords : ∀ n, io_records io n = true) (Hstats : ∀ n, io_stats io n = true).

Lemma on_output_trailed bytes h :
  sane h → room (hs_log h, hs_disk h) (chunk_logged bytes h ++ END_OPEN_LINE) → all_trailed (stream h) h →
  all_trailed (stream (on_output io allows bytes h)) (on_output io allows bytes h).
Proof.
  intros [[He Hc Ht] Hlw Hl Hs] Hr Htr. unfold on_output, chunk_logged in *.
  destruct (process_or_reset bytes (hs_emulator h)) as [reset e] eqn:Ep. cbn [snd] in Hr. cbn [take_pty_writes]. destruct (observe bytes (hs_keyboard h)) as [replies keys].
  set (h0 := match em_writes e ++ replies with [] => h | _ => _ end). cbn [take_screen_switches].
  assert (∃ f, h0 = on_input f h) as [f E0].
  { unfold h0. destruct (em_writes e ++ replies); [exists id; by destruct h|by eexists]. }
  rewrite E0. clear h0 E0. cbn [hs_gate on_input].
  change (em_switches (em_screen (em_term e) (em_processor e) [] (em_primary e) e)) with (em_switches e).
  pose proof (logged_whole bytes (em_switches e) (hs_gate h)) as Hw. destruct (Terminal.logged bytes (em_switches e) (hs_gate h)) as [[whole kept_] gate]. cbn [fst snd] in *.
  set (h1 := with_screen _ keys gate _).
  destruct (append_held_took io Hrecords Hstats kept_ (hs_log h, hs_disk h) Hl Hs Hr) as (Hl1 & Hs1 & Es1 & ending & _ & Hpre & _).
  change (hs_log h1) with (hs_log h). change (hs_disk h1) with (hs_disk h). destruct (append_held io kept_ (hs_log h, hs_disk h)) as [[held outcome] [l w]]. cbn [fst snd] in *.
  set (h2 := with_log l w h1). assert (end_known h2) as He2 by (by apply log_end_stream). assert (stream h2 = stream h ++ held) as Es2 by done. destruct reset.
  - set (h3 := if bool_decide _ then _ else h2). assert (quiet h2 h3) as Hq by (unfold h3; destruct (bool_decide _); [by apply same_quiet|done]).
    apply (quiet_trailed h2); [done|transitivity h3; [done|]; apply foldl_quiet; intros; apply resync_quiet|]. rewrite Es2. by apply (trailed_longer (stream h) held h).
  - rewrite (log_end_stream _ _ Hl). set (un := if is_ok outcome then _ else _).
    apply (outputs_trailed (stream h) whole held bytes un h2); [done|done|apply (exactly_held _ kept_ _ ending); done|]. intros k entry Hk. split; [exact (Ht k entry Hk)|exact (Htr k entry Hk)].
Qed.

(** Every message of a supervisor, in every state a holder comes to. *)
Lemma holds_trailed h : holds_child io allows h → all_trailed (stream h) h.
Proof.
  induction 1 as [cap pid size scrollback scheme w l w' l' w'' Hw Ho Hr Es|ev h Hh IH Hf].
  { intros c e Hc. cbn [server_new hs_clients] in Hc. by rewrite lookup_empty in Hc. }
  pose proof (holds_sane io allows Hrecords Hstats h Hh) as Hsn. pose proof (gd_end _ (sn_good _ Hsn)) as He.
  assert (∀ h', quiet h h' → all_trailed (stream h') h') as Hq by (intros h' Hq; by apply (quiet_trailed h)).
  destruct ev; cbn [on_event snd fits] in *.
  - by apply on_output_trailed.
  - pose proof (on_exit_quiet outcome h) as Hx. apply Hq. etransitivity; [|exact Hx]. by apply same_quiet.
  - apply Hq. unfold kill_running. destruct (hs_exited h); [done|by apply same_quiet].
  - apply Hq. unfold kill_running. destruct (hs_supervised h); [done|]. cbn [snd]. destruct (hs_exited h); [done|by apply same_quiet].
  - unfold on_connected. destruct cloned; [|by apply Hq, same_quiet]. intros k e Hk. cbn in Hk. apply lookup_insert_Some in Hk as [[_ <-]|[_ Hk]]; [|by apply (IH k)]. cbn. lia.
  - by apply on_message_trailed.
  - by apply Hq, drop_client_quiet.
  - apply Hq, outbox_quiet. intros e _. by rewrite sent_consume.
  - apply Hq, outbox_quiet. intros e _. by rewrite sent_release.
  - by apply Hq, same_quiet.
  - by apply Hq, same_quiet.
Qed.
End logs.
End server.
