(* ===== verification/HolderWitness.v ===== *)
(** * A holder at work

    A holder over a log opened on an empty disk, whose supervisor connects, says
    hello and is sent what the child wrote, and the theorems of HolderServe.v
    applied to it. *)
From S2P Require Import Prelude RustText Values Config Process Frame Tap LogFile LogSpan LogPlaced LogWitness Terminal Screen Emulator TermScan Holder HolderSafe HolderServe.

Module HolderWitness.
Export LogWitness.LogWitness.
#[local] Existing Instance TermScan.TermWitness.small_vt.
#[local] Existing Instance Frame.Witness.outcome_json.
#[local] Existing Instance Frame.Witness.reason_json.
#[local] Existing Instance Frame.Witness.text_json.

(** A screen of no lines that shows nothing of what is drawn on it. *)
Definition no_flags : VtFlags :=
  {| vf_bold := false; vf_dim := false; vf_italic := false; vf_underlined := false; vf_inverse := false; vf_hidden := false; vf_strikeout := false; vf_spacer := false |}.
Definition no_cursor : VtCursor :=
  {| vu_line := 0; vu_column := 0; vu_needs_wrap := false; vu_charsets := (Ascii_, Ascii_);
     vu_template := {| vc_c := 32; vc_zerowidth := []; vc_fg := VtNamed 256; vc_bg := VtNamed 257; vc_flags := no_flags |} |}.
Definition plain_mode : TermMode :=
  {| tm_alt_screen := false; tm_bracketed_paste := false; tm_app_cursor := false; tm_mouse_motion := false; tm_mouse_drag := false;
     tm_mouse_report_click := false; tm_sgr_mouse := false; tm_utf8_mouse := false; tm_line_wrap := true; tm_focus_in_out := false;
     tm_show_cursor := true; tm_insert := false; tm_origin := false |}.
#[local] Instance paper : Backend := {|
  term := list N; processor := unit; processor_new := tt; term_new := λ _ _ _, []; term_advance := λ bytes pt, (tt, pt.2 ++ bytes, [], false);
  term_mode := λ _, plain_mode; term_lines := λ _, 24%N; term_columns := λ _, 80%N; term_resize := λ _ _ t, t;
  term_grid := λ _, {| vg_lines := []; vg_cursor := no_cursor; vg_saved := no_cursor |}; term_cursor_style := λ _, (Block, true);
|}.

Definition screen_size : PtySize := {| rows := 24; cols := 80 |}.
Definition run_log : RotatingLog * Writer := start_run calm started.
Definition fresh_holder : HolderServer := server_new 42 screen_size 0 Dark run_log.1 run_log.2.

Lemma fresh_holds : holds_child calm (λ _, true) fresh_holder.
Proof.
  apply (holds_start calm (λ _, true) 4 42 screen_size 0 Dark at_first started.1 started.2 run_log.1 run_log.2).
  - exact (logged_start calm empty_disk [] empty_placed).
  - by vm_compute.
  - by vm_compute.
  - by vm_compute.
Qed.

Definition said (evs : list HolderEvent) : HolderServer := foldl (λ h ev, (on_event calm (λ _, true) ev h).2) fresh_holder evs.
Lemma said_holds evs ev : holds_child calm (λ _, true) (said evs) → fits ev (said evs) → holds_child calm (λ _, true) (said (evs ++ [ev])).
Proof. intros Hh Hf. unfold said. rewrite foldl_app. cbn [foldl]. by apply holds_event. Qed.

Definition connected : list HolderEvent := [] ++ [Connected true].
Definition greeted : list HolderEvent := connected ++ [Message 0 (Hello Supervisor)].
Lemma greeted_holds : holds_child calm (λ _, true) (said greeted).
Proof. apply said_holds; [apply said_holds; [exact fresh_holds|]|]; exact I. Qed.
Lemma heard_holds : holds_child calm (λ _, true) (said (greeted ++ [Chunk one])).
Proof. apply said_holds; [exact greeted_holds|]. by vm_compute. Qed.

Definition supervisor_entry (h : HolderServer) : Client := default {| cl_role := None; cl_outbox := queue_new 0 |} (hs_clients h !! 0%N).



Lemma fresh_runs : hs_exited (kill_running fresh_holder) = false.
Proof. reflexivity. Qed.
Lemma fresh_ends : on_event calm (λ _, true) SupervisorDeadline fresh_holder = (Finish, kill_running fresh_holder).
Proof. unfold on_event. change (hs_supervised fresh_holder) with false. reflexivity. Qed.

End HolderWitness.
