(* ===== verification/Books.v ===== *)
(** * The supervisor's books

    Models the books a project's supervisor keeps per pane, in
    muster-service/src/supervisor: restart_book.rs (restarts, last exits and
    streaks), launch_book.rs with pending_launch.rs (launches in flight and
    their early output), adoption_retries.rs with pane_retry.rs and retry_id.rs
    (retries of failed adoptions), and the backoff of lifecycle.rs. A hash map
    is a [gmap] from pane ids. *)
From S2P Require Import Prelude RustText Values Process.

(** ** Generations and tries *)
Definition wrapping_next (x : N) : N := ((x + 1) mod (u64_max + 1))%N.

(** A [u32] counter one further, wrapping as a release build does. *)
Definition u32_next (x : N) : N := ((x + 1) mod (u32_max + 1))%N.

(** ** Restarts *)
Record RunEnd := { re_generation : N; re_at : N; re_reason : ExitReason }.
Record SpawnHistory := { sh_restarts : N; sh_last_exit : option ExitOutcome }.
Record LastExit := { le_outcome : ExitOutcome; le_reason : ExitReason; le_at : option N }.

Record RestartBook := {
  attempts : gmap N N;
  restarts : gmap N N;
  last_exits : gmap N ExitOutcome;
  run_ends : gmap N RunEnd;
  stored_ends : gmap N N;
  crash_streaks : gset N;
  failing_spawns : gset N;
}.

Module Restarts.

Definition new : RestartBook :=
  {| attempts := ∅; restarts := ∅; last_exits := ∅; run_ends := ∅; stored_ends := ∅; crash_streaks := ∅; failing_spawns := ∅ |}.

Definition restarts_of (b : RestartBook) (pane : N) : N := default 0%N (restarts b !! pane).

Definition count_restart (pane : N) (b : RestartBook) : RestartBook :=
  {| attempts := attempts b; restarts := <[pane := u32_next (restarts_of b pane)]> (restarts b); last_exits := last_exits b;
     run_ends := run_ends b; stored_ends := stored_ends b; crash_streaks := crash_streaks b; failing_spawns := failing_spawns b |}.

Definition history (b : RestartBook) (pane : N) (restarting : bool) : SpawnHistory :=
  {| sh_restarts := if restarting then u32_next (restarts_of b pane) else restarts_of b pane; sh_last_exit := last_exits b !! pane |}.

Definition take_history (pane : N) (h : SpawnHistory) (b : RestartBook) : RestartBook :=
  {| attempts := attempts b;
     restarts := if (0 <? sh_restarts h)%N then <[pane := sh_restarts h]> (restarts b) else restarts b;
     last_exits := match sh_last_exit h with Some o => <[pane := o]> (last_exits b) | None => last_exits b end;
     run_ends := run_ends b; stored_ends := stored_ends b; crash_streaks := crash_streaks b; failing_spawns := failing_spawns b |}.

Definition record_exit (pane : N) (o : ExitOutcome) (b : RestartBook) : RestartBook :=
  {| attempts := attempts b; restarts := restarts b; last_exits := <[pane := o]> (last_exits b);
     run_ends := run_ends b; stored_ends := stored_ends b; crash_streaks := crash_streaks b; failing_spawns := failing_spawns b |}.

Definition take_stored_end (pane : N) (o : ExitOutcome) (at_ : N) (b : RestartBook) : RestartBook :=
  {| attempts := attempts b; restarts := restarts b; last_exits := <[pane := o]> (last_exits b);
     run_ends := run_ends b; stored_ends := <[pane := at_]> (stored_ends b); crash_streaks := crash_streaks b;
     failing_spawns := failing_spawns b |}.

Definition end_run (pane : N) (e : RunEnd) (b : RestartBook) : RestartBook :=
  {| attempts := attempts b; restarts := restarts b; last_exits := last_exits b;
     run_ends := <[pane := e]> (run_ends b); stored_ends := stored_ends b; crash_streaks := crash_streaks b;
     failing_spawns := failing_spawns b |}.

Definition run_end (b : RestartBook) (pane : N) : option RunEnd := run_ends b !! pane.

(** How the pane's most recent run ended. *)
Definition last_exit (b : RestartBook) (pane : N) : option LastExit :=
  let e := run_ends b !! pane in
  let outcome :=
    match e with
    | Some e => if bool_decide (re_reason e = RFailedToStart) then Some FAILED_UNKNOWN else last_exits b !! pane
    | None => last_exits b !! pane
    end in
  outcome ≫= λ o,
    Some {| le_outcome := o;
            le_reason := match e with Some e => re_reason e | None => reason_of o false end;
            le_at := match e with Some e => Some (re_at e) | None => stored_ends b !! pane end |}.

(** The backoff exponent of the next automatic restart, counting it. *)
Definition next_attempt (pane : N) (stable : bool) (b : RestartBook) : N * RestartBook :=
  let n := if stable then 0%N else default 0%N (attempts b !! pane) in
  (n, {| attempts := <[pane := u32_next n]> (attempts b); restarts := restarts b; last_exits := last_exits b;
         run_ends := run_ends b; stored_ends := stored_ends b; crash_streaks := crash_streaks b; failing_spawns := failing_spawns b |}).

Definition reset_backoff (pane : N) (b : RestartBook) : RestartBook :=
  {| attempts := delete pane (attempts b); restarts := restarts b; last_exits := last_exits b;
     run_ends := run_ends b; stored_ends := stored_ends b; crash_streaks := crash_streaks b; failing_spawns := failing_spawns b |}.

Definition end_crash_streak (pane : N) (b : RestartBook) : RestartBook :=
  {| attempts := attempts b; restarts := restarts b; last_exits := last_exits b; run_ends := run_ends b;
     stored_ends := stored_ends b; crash_streaks := crash_streaks b ∖ {[pane]}; failing_spawns := failing_spawns b |}.

Definition end_streaks (pane : N) (b : RestartBook) : RestartBook :=
  {| attempts := attempts b; restarts := restarts b; last_exits := last_exits b; run_ends := run_ends b;
     stored_ends := stored_ends b; crash_streaks := crash_streaks b ∖ {[pane]}; failing_spawns := failing_spawns b ∖ {[pane]} |}.

(** Whether the crash begins a streak, and so is told. *)
Definition crashed (pane : N) (b : RestartBook) : bool * RestartBook :=
  (bool_decide (pane ∉ crash_streaks b),
   {| attempts := attempts b; restarts := restarts b; last_exits := last_exits b; run_ends := run_ends b;
      stored_ends := stored_ends b; crash_streaks := {[pane]} ∪ crash_streaks b; failing_spawns := failing_spawns b |}).

Definition spawned (pane : N) (b : RestartBook) : RestartBook :=
  {| attempts := attempts b; restarts := restarts b; last_exits := last_exits b; run_ends := run_ends b;
     stored_ends := stored_ends b; crash_streaks := crash_streaks b; failing_spawns := failing_spawns b ∖ {[pane]} |}.

Definition spawn_failed (pane : N) (b : RestartBook) : bool * RestartBook :=
  (bool_decide (pane ∉ failing_spawns b),
   {| attempts := attempts b; restarts := restarts b; last_exits := last_exits b; run_ends := run_ends b;
      stored_ends := stored_ends b; crash_streaks := crash_streaks b; failing_spawns := {[pane]} ∪ failing_spawns b |}).

Definition forget (pane : N) (b : RestartBook) : RestartBook :=
  {| attempts := delete pane (attempts b); restarts := delete pane (restarts b); last_exits := delete pane (last_exits b);
     run_ends := delete pane (run_ends b); stored_ends := stored_ends b; crash_streaks := crash_streaks b ∖ {[pane]};
     failing_spawns := failing_spawns b ∖ {[pane]} |}.

Definition RESTART_BACKOFF_BASE : duration := (200 * NANOS_PER_MILLI)%N.
Definition RESTART_BACKOFF_MAX : duration := from_secs 5.
Definition RESTART_BACKOFF_MAX_EXP : N := 5.

(** The wait before an automatic restart at an exponent. *)
Definition backoff_delay (attempts : N) : duration :=
  N.min (RESTART_BACKOFF_BASE * 2 ^ N.min attempts RESTART_BACKOFF_MAX_EXP)%N RESTART_BACKOFF_MAX.
End Restarts.

(** ** Launches in flight *)
Inductive ProcessOutput :=
| Chunk (bytes : list N)
| Placed (at_ : N) (bytes : list N)
| OUnlogged (bytes : list N)
| Repaint (bytes : list N) (size : PtySize)
| OExited (outcome : ExitOutcome)
| Unreadable_ (reason : rstr)
| OWarning (text : rstr)
| OAttached (count : N).

Inductive PendingIntent := IStop | IKill | IRestart.
Inductive ConfigMembership := Tracked | RetireOnExit.

#[export] Instance PendingIntent_eq_dec : EqDecision PendingIntent.
Proof. solve_decision. Defined.
#[export] Instance ConfigMembership_eq_dec : EqDecision ConfigMembership.
Proof. solve_decision. Defined.

Record CarriedPane := {
  cp_intent : ExitIntent;
  cp_membership : ConfigMembership;
  cp_started_at : N;
  cp_state : option ProcessState;
  cp_pid : option N;
}.

Definition with_membership (p : CarriedPane) (m : option ConfigMembership) : CarriedPane :=
  match m with
  | None => p
  | Some m => {| cp_intent := cp_intent p; cp_membership := m; cp_started_at := cp_started_at p; cp_state := cp_state p; cp_pid := cp_pid p |}
  end.

Inductive LaunchPurpose :=
| Spawn (restarting : bool)
| Adopt (carried : option CarriedPane).

Definition EARLY_OUTPUT_CAP : nat := N.to_nat 256.

Record PendingLaunch := {
  pl_generation : N;
  pl_prior_state : ProcessState;
  pl_purpose : LaunchPurpose;
  pl_early : list ProcessOutput;
  pl_intent : option PendingIntent;
  pl_suspend : option bool;
  pl_membership : option ConfigMembership;
}.

Module Launches.

Definition new (generation : N) (prior : ProcessState) (purpose : LaunchPurpose) : PendingLaunch :=
  {| pl_generation := generation; pl_prior_state := prior; pl_purpose := purpose; pl_early := []; pl_intent := None;
     pl_suspend := None; pl_membership := None |}.

(** The events that make room once the cap is reached. *)
Definition makes_room (o : ProcessOutput) : bool :=
  match o with Chunk _ | OWarning _ | OAttached _ | OUnlogged _ => true | _ => false end.

(** [Vec::remove] at the first event that makes room. *)
Fixpoint remove_oldest (early : list ProcessOutput) : list ProcessOutput :=
  match early with
  | [] => []
  | o :: early => if makes_room o then early else o :: remove_oldest early
  end.

(** Keeps one more event, the oldest that may go making room at the cap. *)
Definition keep_output (early : list ProcessOutput) (o : ProcessOutput) : list ProcessOutput :=
  (if EARLY_OUTPUT_CAP <=? length early then remove_oldest early else early) ++ [o].

Definition keep (o : ProcessOutput) (l : PendingLaunch) : PendingLaunch :=
  {| pl_generation := pl_generation l; pl_prior_state := pl_prior_state l; pl_purpose := pl_purpose l;
     pl_early := keep_output (pl_early l) o; pl_intent := pl_intent l; pl_suspend := pl_suspend l; pl_membership := pl_membership l |}.

Definition mark_restarting (l : PendingLaunch) : PendingLaunch :=
  {| pl_generation := pl_generation l; pl_prior_state := pl_prior_state l;
     pl_purpose := match pl_purpose l with Spawn _ => Spawn true | p => p end;
     pl_early := pl_early l; pl_intent := pl_intent l; pl_suspend := pl_suspend l; pl_membership := pl_membership l |}.

Definition record_intent (i : PendingIntent) (l : PendingLaunch) : PendingLaunch :=
  {| pl_generation := pl_generation l; pl_prior_state := pl_prior_state l; pl_purpose := pl_purpose l;
     pl_early := pl_early l; pl_intent := Some i; pl_suspend := pl_suspend l; pl_membership := pl_membership l |}.

Definition record_suspend (pause : bool) (l : PendingLaunch) : PendingLaunch :=
  {| pl_generation := pl_generation l; pl_prior_state := pl_prior_state l; pl_purpose := pl_purpose l;
     pl_early := pl_early l; pl_intent := pl_intent l; pl_suspend := Some pause; pl_membership := pl_membership l |}.

Definition record_membership (m : ConfigMembership) (l : PendingLaunch) : PendingLaunch :=
  {| pl_generation := pl_generation l; pl_prior_state := pl_prior_state l; pl_purpose := pl_purpose l;
     pl_early := pl_early l; pl_intent := pl_intent l; pl_suspend := pl_suspend l; pl_membership := Some m |}.
End Launches.

Record LaunchBook := {
  pending : gmap N PendingLaunch;
  detaching : bool;
  stopped_adoptions : gmap N N;
  environments : gmap N (gmap rstr rstr);
}.

Module Book.

Definition new : LaunchBook := {| pending := ∅; detaching := false; stopped_adoptions := ∅; environments := ∅ |}.

Definition with_pending (b : LaunchBook) (p : gmap N PendingLaunch) : LaunchBook :=
  {| pending := p; detaching := detaching b; stopped_adoptions := stopped_adoptions b; environments := environments b |}.

Definition begin (pane : N) (l : PendingLaunch) (b : LaunchBook) : LaunchBook := with_pending b (<[pane := l]> (pending b)).
Definition is_empty (b : LaunchBook) : bool := bool_decide (pending b = ∅).
Definition in_flight (b : LaunchBook) : nat := size (pending b).
Definition is_starting (b : LaunchBook) (pane : N) : bool := bool_decide (is_Some (pending b !! pane)).

Definition is_spawning (b : LaunchBook) (pane : N) : bool :=
  match pending b !! pane with
  | Some l => match pl_purpose l with Spawn _ => true | Adopt _ => false end
  | None => false
  end.

(** Keeps output of the launch at its generation, or hands it back. *)
Definition keep_early (pane generation : N) (o : ProcessOutput) (b : LaunchBook) : option ProcessOutput * LaunchBook :=
  match pending b !! pane with
  | Some l => if (pl_generation l =? generation)%N then (None, with_pending b (<[pane := Launches.keep o l]> (pending b))) else (Some o, b)
  | None => (Some o, b)
  end.

Definition mark_restarting (pane : N) (b : LaunchBook) : LaunchBook := with_pending b (alter Launches.mark_restarting pane (pending b)).

Definition record_intent (pane : N) (i : PendingIntent) (b : LaunchBook) : bool * LaunchBook :=
  (is_starting b pane, with_pending b (alter (Launches.record_intent i) pane (pending b))).

Definition record_suspend (pane : N) (pause : bool) (b : LaunchBook) : bool * LaunchBook :=
  (is_starting b pane, with_pending b (alter (Launches.record_suspend pause) pane (pending b))).

Definition record_membership (pane : N) (m : ConfigMembership) (b : LaunchBook) : LaunchBook :=
  with_pending b (alter (Launches.record_membership m) pane (pending b)).

(** Takes the launch when it is the one at the generation. *)
Definition take (pane generation : N) (b : LaunchBook) : option PendingLaunch * LaunchBook :=
  match pending b !! pane with
  | Some l => if (pl_generation l =? generation)%N then (Some l, with_pending b (delete pane (pending b))) else (None, b)
  | None => (None, b)
  end.

Definition cancel (pane : N) (b : LaunchBook) : LaunchBook := with_pending b (delete pane (pending b)).

Definition supersede_by_stop (pane : N) (b : LaunchBook) : LaunchBook :=
  match pending b !! pane with
  | Some l => {| pending := delete pane (pending b); detaching := detaching b;
                 stopped_adoptions := <[pane := pl_generation l]> (stopped_adoptions b); environments := environments b |}
  | None => b
  end.

Definition take_stopped_adoption (pane generation : N) (b : LaunchBook) : bool * LaunchBook :=
  if bool_decide (stopped_adoptions b !! pane = Some generation)
  then (true, {| pending := pending b; detaching := detaching b; stopped_adoptions := delete pane (stopped_adoptions b);
                 environments := environments b |})
  else (false, b).

Definition detach_all (b : LaunchBook) : LaunchBook :=
  {| pending := pending b; detaching := true; stopped_adoptions := stopped_adoptions b; environments := environments b |}.

Definition set_environment (pane : N) (e : gmap rstr rstr) (b : LaunchBook) : LaunchBook :=
  {| pending := pending b; detaching := detaching b; stopped_adoptions := stopped_adoptions b; environments := <[pane := e]> (environments b) |}.

Definition environment_of (b : LaunchBook) (pane : N) : gmap rstr rstr := default ∅ (environments b !! pane).

Definition forget (pane : N) (b : LaunchBook) : LaunchBook :=
  {| pending := pending b; detaching := detaching b; stopped_adoptions := delete pane (stopped_adoptions b);
     environments := delete pane (environments b) |}.
End Book.

(** ** Retries of failed adoptions *)
Definition FIRST_RETRY : duration := from_secs 30.
Definition MAX_RETRY : duration := from_secs (10 * 60).

Record PaneRetry := { rt_told : option N; rt_delay : duration; rt_current : N }.
Record AdoptionRetries := { rt_panes : gmap N PaneRetry; rt_next : N }.

Module Retries.

Definition new : AdoptionRetries := {| rt_panes := ∅; rt_next := 0%N |}.
Definition fresh (delay : duration) : PaneRetry := {| rt_told := None; rt_delay := delay; rt_current := 0%N |}.
Definition entry (b : AdoptionRetries) (pane : N) : PaneRetry := default (fresh FIRST_RETRY) (rt_panes b !! pane).

(** Whether the failure of a holder is news. *)
Definition first_failure (pane holder : N) (b : AdoptionRetries) : bool * AdoptionRetries :=
  let r := entry b pane in
  (bool_decide (rt_told r ≠ Some holder),
   {| rt_panes := <[pane := {| rt_told := Some holder; rt_delay := rt_delay r; rt_current := rt_current r |}]> (rt_panes b);
      rt_next := rt_next b |}).

(** Starts a new try now. *)
Definition begin (pane : N) (b : AdoptionRetries) : N * AdoptionRetries :=
  let id := wrapping_next (rt_next b) in
  let r := entry b pane in
  (id, {| rt_panes := <[pane := {| rt_told := rt_told r; rt_delay := rt_delay r; rt_current := id |}]> (rt_panes b); rt_next := id |}).

(** [Duration::saturating_mul(2).min(cap)]; the cap is far below saturation. *)
Definition doubled (d cap : duration) : duration := N.min (d * 2)%N cap.

(** Schedules the next timed try: its id and how long to wait. *)
Definition schedule (pane : N) (b : AdoptionRetries) : (N * duration) * AdoptionRetries :=
  let id := wrapping_next (rt_next b) in
  let r := entry b pane in
  ((id, rt_delay r),
   {| rt_panes := <[pane := {| rt_told := rt_told r; rt_delay := doubled (rt_delay r) MAX_RETRY; rt_current := id |}]> (rt_panes b);
      rt_next := id |}).

Definition is_current (b : AdoptionRetries) (pane id : N) : bool :=
  match rt_panes b !! pane with Some r => (rt_current r =? id)%N | None => false end.

Definition forget (pane : N) (b : AdoptionRetries) : AdoptionRetries :=
  {| rt_panes := delete pane (rt_panes b); rt_next := rt_next b |}.
End Retries.

(** * Laws *)
Import Launches.

(** ** Early output *)

(** What a launch keeps of the events that reach it. *)
Definition kept (os : list ProcessOutput) : list ProcessOutput := foldl keep_output [] os.

Notation droppable := (filter (λ o, makes_room o = true)).
Notation lasting := (filter (λ o, makes_room o = false)).

Lemma remove_oldest_droppable early : droppable (remove_oldest early) = tail (droppable early).
Proof.
  induction early as [|o early IH]; [done|]. cbn [remove_oldest]. rewrite filter_cons.
  destruct (makes_room o) eqn:E; [by rewrite decide_True by done|].
  rewrite filter_cons, E, !decide_False by done. done.
Qed.

Lemma remove_oldest_lasting early : lasting (remove_oldest early) = lasting early.
Proof.
  induction early as [|o early IH]; [done|]. cbn [remove_oldest]. destruct (makes_room o) eqn:E.
  - by rewrite filter_cons, E, decide_False by done.
  - by rewrite !filter_cons, E, !decide_True, IH by done.
Qed.

Lemma remove_oldest_sublist early : remove_oldest early `sublist_of` early.
Proof.
  induction early as [|o early IH]; [done|]. cbn [remove_oldest]. destruct (makes_room o); [by apply sublist_cons|by apply sublist_skip].
Qed.

Lemma remove_oldest_length early : length (remove_oldest early) = length early - min 1 (length (droppable early)).
Proof.
  induction early as [|o early IH]; [done|]. cbn [remove_oldest length]. rewrite filter_cons.
  destruct (makes_room o); [rewrite decide_True by done; cbn; lia|]. rewrite decide_False by done. cbn [length].
  rewrite IH. assert (length (droppable early) ≤ length early) by apply length_filter. lia.
Qed.

Lemma split_length (os : list ProcessOutput) : length os = length (droppable os) + length (lasting os).
Proof.
  induction os as [|o os IH]; [done|]. rewrite !filter_cons. cbn [length]. rewrite IH.
  destruct (makes_room o); [rewrite decide_True, decide_False by done|rewrite decide_False, decide_True by done]; cbn [length]; lia.
Qed.

(** What keeping one more event makes of what is kept. *)
Lemma keep_output_spec early o :
  lasting (keep_output early o) = lasting (early ++ [o]) ∧
  (∃ n, droppable (keep_output early o) = drop n (droppable early) ++ droppable [o]) ∧
  keep_output early o `sublist_of` early ++ [o] ∧
  length (keep_output early o) ≤ max EARLY_OUTPUT_CAP (S (max (length (lasting early)) (length early - 1))).
Proof.
  unfold keep_output. destruct (EARLY_OUTPUT_CAP <=? length early) eqn:E.
  - rewrite !filter_app, remove_oldest_lasting, remove_oldest_droppable. split; [done|]. split; [exists 1; by destruct (droppable early)|].
    split; [by apply sublist_app; [apply remove_oldest_sublist|]|]. rewrite length_app, remove_oldest_length, (split_length early). cbn [length]. lia.
  - apply Nat.leb_gt in E. split; [done|]. split; [exists 0; by rewrite filter_app|]. split; [done|]. rewrite length_app. cbn [length]. lia.
Qed.

Lemma early_output_lasting os : kept os `sublist_of` os ∧ lasting (kept os) = lasting os.
Proof.
  unfold kept. induction os as [|o os [Hsub Hla]] using rev_ind; [done|]. rewrite foldl_snoc.
  destruct (keep_output_spec (foldl keep_output [] os) o) as (Hla' & _ & Hsub' & _). split.
  - etransitivity; [apply Hsub'|]. by apply sublist_app.
  - by rewrite Hla', !filter_app, Hla.
Qed.

(** Whatever reaches a launch before it settles is kept for replay in
    order: the exit, a broken stream, a repaint and placed output always, and of
    the rest all but the oldest; nothing is dropped up to 256 events, and beyond
    that only the lasting events make the kept ones grow. *)
Theorem early_output_kept os :
  kept os `sublist_of` os ∧
  lasting (kept os) = lasting os ∧
  (∃ n, droppable (kept os) = drop n (droppable os)) ∧
  (length os ≤ EARLY_OUTPUT_CAP → kept os = os) ∧
  length (kept os) ≤ max EARLY_OUTPUT_CAP (S (length (lasting os))).
Proof.
  unfold kept. induction os as [|o os IH] using rev_ind; [split_and!; [done|done|by exists 0|done|cbn; lia]|].
  rewrite foldl_snoc. set (early := foldl keep_output [] os) in *. destruct IH as (Hsub & Hla & [n Hdr] & Hall & Hlen).
  destruct (keep_output_spec early o) as (Hla' & [m Hdr'] & Hsub' & Hlen'). split_and!.
  - etransitivity; [apply Hsub'|]. by apply sublist_app.
  - by rewrite Hla', !filter_app, Hla.
  - rewrite Hdr', Hdr, filter_app, drop_drop. clear. generalize (droppable os) as l. generalize (droppable [o]) as t. intros t l.
    exists (min (n + m) (length l)). rewrite drop_app_le by lia. f_equal. destruct (Nat.le_gt_cases (n + m) (length l)); [by rewrite Nat.min_l|].
    rewrite Nat.min_r by lia. by rewrite !drop_ge by lia.
  - rewrite length_app. cbn [length]. intros Hle. assert (early = os) as E by (apply Hall; lia). rewrite E. unfold keep_output.
    destruct (EARLY_OUTPUT_CAP <=? length os) eqn:Ec; [|done]. apply Nat.leb_le in Ec. lia.
  - rewrite filter_app, length_app. rewrite Hla in Hlen'. lia.
Qed.

(** Output of a holder, which is all placed, is never dropped. *)
Lemma placed_output_unbounded os : Forall (λ o, makes_room o = false) os → kept os = os.
Proof.
  rewrite Forall_forall. intros Ho. destruct (early_output_lasting os) as [Hsub%sublist_subseteq Hla].
  rewrite !filter_all in Hla; [done|done|]. intros o Hin. by apply Ho, Hsub.
Qed.

(** ** Retries of an adoption *)
Inductive RetryOp := RFailed (pane holder : N) | RBegin (pane : N) | RSchedule (pane : N) | RForget (pane : N).

(** The try an operation hands out, if any, and what it leaves. *)
Definition retry_step (op : RetryOp) (b : AdoptionRetries) : option N * AdoptionRetries :=
  match op with
  | RFailed pane holder => (None, (Retries.first_failure pane holder b).2)
  | RBegin pane => let '(id, b) := Retries.begin pane b in (Some id, b)
  | RSchedule pane => let '((id, _), b) := Retries.schedule pane b in (Some id, b)
  | RForget pane => (None, Retries.forget pane b)
  end.
Definition retry_run (b : AdoptionRetries) (ops : list RetryOp) : AdoptionRetries := foldl (λ b op, (retry_step op b).2) b ops.

(** Whether an operation ends the pane's try: a newer one, or its removal. *)
Definition ends_try (pane : N) (op : RetryOp) : bool :=
  match op with RFailed _ _ => false | RBegin p | RSchedule p | RForget p => (p =? pane)%N end.

(** How far the counter is after at most that many tries. *)
Lemma retry_next_bound op b :
  (rt_next b < u64_max)%N → (rt_next b <= rt_next (retry_step op b).2 <= rt_next b + 1)%N ∧
  (∀ id, (retry_step op b).1 = Some id → id = (rt_next b + 1)%N ∧ rt_next (retry_step op b).2 = id).
Proof.
  intros Hb. assert (wrapping_next (rt_next b) = rt_next b + 1)%N as Hn by (apply N.mod_small; lia).
  destruct op; cbn; rewrite ?Hn; (split; [lia|]); try done; intros ? [= <-]; done.
Qed.

(** The try current on a pane, past which no try was handed out. *)
Definition current_is (pane id : N) (b : AdoptionRetries) : Prop := rt_current <$> rt_panes b !! pane = Some id.

Lemma is_current_iff b pane id : Retries.is_current b pane id = true ↔ current_is pane id b.
Proof.
  unfold Retries.is_current, current_is. destruct (rt_panes b !! pane) as [r|]; cbn; [|done].
  rewrite N.eqb_eq. split; [by intros <-|by intros [= <-]].
Qed.

Lemma retry_keeps_current pane id op b : ends_try pane op = false → current_is pane id b → current_is pane id (retry_step op b).2.
Proof.
  unfold current_is. intros Hs Hc. destruct op as [p h|p|p|p]; cbn in *; try apply N.eqb_neq in Hs.
  - destruct (decide (p = pane)) as [->|Hne]; [|by rewrite lookup_insert_ne].
    rewrite lookup_insert_eq. unfold Retries.entry. destruct (rt_panes b !! pane); [|done]. by cbn in *.
  - by rewrite lookup_insert_ne.
  - by rewrite lookup_insert_ne.
  - by rewrite lookup_delete_ne.
Qed.

Lemma retry_drops_current pane id op b :
  (0 < id)%N → (id <= rt_next b)%N → (rt_next b < u64_max)%N → ends_try pane op = true ∨ ~ current_is pane id b →
  ~ current_is pane id (retry_step op b).2.
Proof.
  unfold current_is. intros H0 Hid Hb Hs. assert (wrapping_next (rt_next b) = rt_next b + 1)%N as Hn by (apply N.mod_small; lia).
  destruct op as [p h|p|p|p]; cbn in *; rewrite ?N.eqb_eq in Hs; destruct (decide (p = pane)) as [->|Hne];
    rewrite ?lookup_insert_eq, ?lookup_delete_eq, ?lookup_insert_ne, ?lookup_delete_ne by done; cbn; rewrite ?Hn; try (by destruct Hs); try done.
  - unfold Retries.entry. destruct Hs as [|Hs]; [done|]. destruct (rt_panes b !! pane); cbn in *; [done|]. intros [= <-]. done.
  - intros [= E]. lia.
  - intros [= E]. lia.
Qed.

Lemma retry_run_next ops b :
  (rt_next b + N.of_nat (length ops) <= u64_max)%N →
  (rt_next b <= rt_next (retry_run b ops) <= rt_next b + N.of_nat (length ops))%N.
Proof.
  revert b. unfold retry_run. induction ops as [|o ops IH]; intros b Hb; cbn [foldl length] in *; [lia|].
  destruct (retry_next_bound o b) as [Ho _]; [lia|]. specialize (IH (retry_step o b).2). lia.
Qed.

Lemma retry_run_lost pane id ops b :
  (0 < id)%N → (rt_next b + N.of_nat (length ops) <= u64_max)%N → (id <= rt_next b)%N → ~ current_is pane id b →
  ~ current_is pane id (retry_run b ops).
Proof.
  intros H0. revert b. unfold retry_run. induction ops as [|o ops IH]; intros b Hr Hle Hn; [done|]. cbn [foldl length] in *.
  destruct (retry_next_bound o b) as [Ho _]; [lia|]. apply IH; [lia|lia|]. apply retry_drops_current; auto; lia.
Qed.

Lemma retry_run_current pane id ops b :
  (0 < id)%N → (rt_next b + N.of_nat (length ops) <= u64_max)%N → (id <= rt_next b)%N → current_is pane id b →
  Retries.is_current (retry_run b ops) pane id = negb (existsb (ends_try pane) ops).
Proof.
  intros H0. revert b. induction ops as [|o ops IH]; intros b Hr Hle Hc; [by apply is_current_iff|].
  cbn [retry_run foldl length existsb] in *. destruct (retry_next_bound o b) as [Ho _]; [lia|].
  destruct (ends_try pane o) eqn:E; cbn [orb negb].
  - apply not_true_iff_false. rewrite is_current_iff. apply retry_run_lost; [done|lia|lia|]. apply retry_drops_current; auto; lia.
  - apply IH; [lia|lia|]. by apply retry_keeps_current.
Qed.

(** A try at an adoption is current from when it is handed out until a
    newer try or the pane's removal, whatever happens on other panes and
    however its failures are told, and never again after: a timer or a worker
    that answers for an older try is always told apart. The tries are fewer
    than 2^64. *)
Theorem retry_current_until_superseded before op after pane id :
  (N.of_nat (length before + length after) < u64_max)%N →
  (retry_step op (retry_run Retries.new before)).1 = Some id → ends_try pane op = true →
  Retries.is_current (retry_run Retries.new (before ++ op :: after)) pane id = negb (existsb (ends_try pane) after).
Proof.
  intros Hlen Hid Hop. pose proof (retry_run_next before Retries.new) as Hb0. cbn [rt_next Retries.new] in Hb0.
  unfold retry_run at 1. rewrite foldl_app. cbn [foldl]. fold (retry_run Retries.new before). set (b0 := retry_run Retries.new before) in *.
  destruct (retry_next_bound op b0) as [_ Hids]; [lia|]. destruct (Hids id Hid) as [Hide Hnx].
  apply retry_run_current; [lia|lia|lia|].
  unfold current_is. destruct op as [p h|p|p|p]; cbn in *; try done; apply N.eqb_eq in Hop as ->; rewrite lookup_insert_eq; cbn; congruence.
Qed.

(** ** Witnesses *)
Module Witness.
Definition try_again : list RetryOp := [RFailed 1 9; RSchedule 1; RBegin 2].

Lemma retry_current_until_superseded_witness :
  Retries.is_current (retry_run Retries.new (try_again ++ RSchedule 1 :: [RFailed 1 9; RBegin 2])) 1 3 = true ∧
  Retries.is_current (retry_run Retries.new (try_again ++ RSchedule 1 :: [RForget 1])) 1 3 = false.
Proof.
  split.
  - by apply (retry_current_until_superseded try_again (RSchedule 1) [RFailed 1 9; RBegin 2] 1 3).
  - by apply (retry_current_until_superseded try_again (RSchedule 1) [RForget 1] 1 3).
Defined.
End Witness.
