(* ===== verification/SupState.v ===== *)
(** * The state of a project's supervisor

    Models the data of muster-service/src/supervisor: entity.rs (the
    [Supervisor] aggregate), pane.rs, unsupervised_child.rs, attach_book.rs,
    metrics_book.rs, attention.rs and lookup.rs, wired as the service wires it:
    over [SharedHolders], whose launches and adoptions run on workers.

    What a supervisor does outside its own state is an [Effect], the newest
    first: a job a worker or timer comes back from with an event, a call on a
    process handle or the system, a notice, an event of the log. Whether a call
    succeeded is an answer of the environment, a function of the effects so
    far. Waits, output taps and readiness (waiting.rs) are behind the
    interface [Watching], which the lifecycle only tells what happens. *)
From S2P Require Import Prelude RustText RustPath Values Process Config StackSync EventLog Books Tap WaitData.

(** ** Handles and panes *)

(** A [Box<dyn ProcessHandle>], by identity, with what it answers. *)
Record Handle := {
  h_id : N;
  h_process_id : option N;
  h_started_at : option N;
  h_attached_clients : N;
  h_initial_screen : option (list N);
  h_screen_size : option PtySize;
  h_run_start : option N;
  h_output_end : option N;
  h_backlog : option (N * list N);
  h_screen_served : bool;
}.

Record UnsupervisedChild := {
  uc_pid : N;
  uc_start_token : option N;
  uc_kill_polls : N;
  uc_grace_deadline : option N;
}.

Record Pane := {
  pn_screen : rstr;
  pn_handle : option Handle;
  pn_unsupervised : option UnsupervisedChild;
  pn_started_at : N;
  pn_exit_intent : ExitIntent;
  pn_shutdown_generation : N;
  pn_config_membership : ConfigMembership;
}.

Definition count_kill (c : UnsupervisedChild) : UnsupervisedChild :=
  {| uc_pid := uc_pid c; uc_start_token := uc_start_token c; uc_kill_polls := u32_next (uc_kill_polls c);
     uc_grace_deadline := uc_grace_deadline c |}.

Definition begin_stop (deadline : option N) (c : UnsupervisedChild) : UnsupervisedChild :=
  {| uc_pid := uc_pid c; uc_start_token := uc_start_token c; uc_kill_polls := 0; uc_grace_deadline := deadline |}.

Definition end_grace (c : UnsupervisedChild) : UnsupervisedChild :=
  {| uc_pid := uc_pid c; uc_start_token := uc_start_token c; uc_kill_polls := uc_kill_polls c; uc_grace_deadline := None |}.

Definition take_handle (p : Pane) : Pane :=
  {| pn_screen := pn_screen p; pn_handle := None; pn_unsupervised := pn_unsupervised p; pn_started_at := pn_started_at p;
     pn_exit_intent := pn_exit_intent p; pn_shutdown_generation := pn_shutdown_generation p;
     pn_config_membership := pn_config_membership p |}.

Definition advance_shutdown (p : Pane) : Pane :=
  {| pn_screen := pn_screen p; pn_handle := pn_handle p; pn_unsupervised := pn_unsupervised p; pn_started_at := pn_started_at p;
     pn_exit_intent := pn_exit_intent p; pn_shutdown_generation := wrapping_next (pn_shutdown_generation p);
     pn_config_membership := pn_config_membership p |}.

Definition change_intent (change : ExitIntent → ExitIntent) (p : Pane) : Pane :=
  {| pn_screen := pn_screen p; pn_handle := pn_handle p; pn_unsupervised := pn_unsupervised p; pn_started_at := pn_started_at p;
     pn_exit_intent := change (pn_exit_intent p); pn_shutdown_generation := pn_shutdown_generation p;
     pn_config_membership := pn_config_membership p |}.

Definition set_unsupervised (c : option UnsupervisedChild) (p : Pane) : Pane :=
  {| pn_screen := pn_screen p; pn_handle := pn_handle p; pn_unsupervised := c; pn_started_at := pn_started_at p;
     pn_exit_intent := pn_exit_intent p; pn_shutdown_generation := pn_shutdown_generation p;
     pn_config_membership := pn_config_membership p |}.

Definition set_config_membership (m : ConfigMembership) (p : Pane) : Pane :=
  {| pn_screen := pn_screen p; pn_handle := pn_handle p; pn_unsupervised := pn_unsupervised p; pn_started_at := pn_started_at p;
     pn_exit_intent := pn_exit_intent p; pn_shutdown_generation := pn_shutdown_generation p; pn_config_membership := m |}.

Definition set_screen (text : rstr) (p : Pane) : Pane :=
  {| pn_screen := text; pn_handle := pn_handle p; pn_unsupervised := pn_unsupervised p; pn_started_at := pn_started_at p;
     pn_exit_intent := pn_exit_intent p; pn_shutdown_generation := pn_shutdown_generation p;
     pn_config_membership := pn_config_membership p |}.

(** What a pane keeps across a reconnect; its handle is let go. *)
Definition carry_over (state : option ProcessState) (p : Pane) : option CarriedPane :=
  pn_handle p ≫= λ h,
    Some {| cp_intent := pn_exit_intent p; cp_membership := pn_config_membership p; cp_started_at := pn_started_at p;
            cp_state := state; cp_pid := h_process_id h |}.

Definition restore (c : CarriedPane) (p : Pane) : Pane :=
  {| pn_screen := pn_screen p; pn_handle := pn_handle p; pn_unsupervised := pn_unsupervised p;
     pn_started_at := cp_started_at c; pn_exit_intent := cp_intent c;
     pn_shutdown_generation := pn_shutdown_generation p; pn_config_membership := cp_membership c |}.

(** ** Attached clients and held exits *)
Record AttachBook := { ab_attached : gmap N N; ab_held_exits : gmap N Handle }.

Module Attach.

Definition new : AttachBook := {| ab_attached := ∅; ab_held_exits := ∅ |}.
Definition attached (b : AttachBook) (pane : N) : N := default 0%N (ab_attached b !! pane).

Definition set_attached (pane clients : N) (b : AttachBook) : AttachBook :=
  {| ab_attached := if (clients =? 0)%N then delete pane (ab_attached b) else <[pane := clients]> (ab_attached b);
     ab_held_exits := ab_held_exits b |}.

Definition hold_exit (pane : N) (finished : Handle) (b : AttachBook) : option Handle * AttachBook :=
  (ab_held_exits b !! pane, {| ab_attached := ab_attached b; ab_held_exits := <[pane := finished]> (ab_held_exits b) |}).

Definition release (pane : N) (b : AttachBook) : option Handle * AttachBook :=
  (ab_held_exits b !! pane, {| ab_attached := ab_attached b; ab_held_exits := delete pane (ab_held_exits b) |}).

Definition holding (b : AttachBook) : list N := (map_to_list (ab_held_exits b)).*1.

Definition keep_held (keep : N → bool) (b : AttachBook) : AttachBook :=
  {| ab_attached := ab_attached b; ab_held_exits := filter (λ kv, keep kv.1 = true) (ab_held_exits b) |}.
End Attach.

(** ** Ports and usage *)
Record PortHolder := { ph_project : rstr; ph_process : rstr }.
Record PortOccupant := { po_pid : N; po_command : rstr; po_ancestors : list N }.
Inductive PortOwner := OSupervised (holder : PortHolder) | OOther (occupant : PortOccupant).
Record PortBlock := { pb_port : N; pb_holder : PortOwner }.
Record ListeningSocket := { ls_port : N; ls_address : N; ls_pid : N }.
Record ProcessUsage := { pu_pid : N; pu_cpu_percent : N; pu_memory_bytes : N }.

#[export] Instance PortHolder_eq_dec : EqDecision PortHolder.
Proof. solve_decision. Defined.
#[export] Instance ListeningSocket_eq_dec : EqDecision ListeningSocket.
Proof. solve_decision. Defined.
#[export] Instance ProcessUsage_eq_dec : EqDecision ProcessUsage.
Proof. solve_decision. Defined.

Definition lineage (o : PortOccupant) : list N := po_pid o :: po_ancestors o.

Record MetricsBook := {
  mb_usage : gmap N ProcessUsage;
  mb_ports : gmap N (list ListeningSocket);
  mb_held_ports : gmap N PortHolder;
  mb_blocks : gmap N PortBlock;
  mb_port_occupants : bool;
}.

Module Metrics.

Definition new (port_occupants : bool) : MetricsBook :=
  {| mb_usage := ∅; mb_ports := ∅; mb_held_ports := ∅; mb_blocks := ∅; mb_port_occupants := port_occupants |}.

Definition has_usage (b : MetricsBook) : bool := bool_decide (mb_usage b ≠ ∅).

Definition replace_usage (updated : gmap N ProcessUsage) (b : MetricsBook) : bool * MetricsBook :=
  (bool_decide (updated ≠ mb_usage b),
   {| mb_usage := updated; mb_ports := mb_ports b; mb_held_ports := mb_held_ports b; mb_blocks := mb_blocks b;
      mb_port_occupants := mb_port_occupants b |}).

Definition clear_usage (pane : N) (b : MetricsBook) : MetricsBook :=
  {| mb_usage := delete pane (mb_usage b); mb_ports := mb_ports b; mb_held_ports := mb_held_ports b; mb_blocks := mb_blocks b;
     mb_port_occupants := mb_port_occupants b |}.

Definition replace_ports (ports : gmap N (list ListeningSocket)) (b : MetricsBook) : MetricsBook :=
  {| mb_usage := mb_usage b; mb_ports := ports; mb_held_ports := mb_held_ports b; mb_blocks := mb_blocks b;
     mb_port_occupants := mb_port_occupants b |}.

Definition clear_ports (pane : N) (b : MetricsBook) : MetricsBook := replace_ports (delete pane (mb_ports b)) b.

Definition set_held_ports (held : gmap N PortHolder) (b : MetricsBook) : MetricsBook :=
  {| mb_usage := mb_usage b; mb_ports := mb_ports b; mb_held_ports := held; mb_blocks := mb_blocks b;
     mb_port_occupants := mb_port_occupants b |}.

Definition holder_of (b : MetricsBook) (port : N) : option PortHolder := mb_held_ports b !! port.

Definition set_block (pane : N) (block : PortBlock) (b : MetricsBook) : MetricsBook :=
  {| mb_usage := mb_usage b; mb_ports := mb_ports b; mb_held_ports := mb_held_ports b;
     mb_blocks := <[pane := block]> (mb_blocks b); mb_port_occupants := mb_port_occupants b |}.

Definition clear_block (pane : N) (b : MetricsBook) : MetricsBook :=
  {| mb_usage := mb_usage b; mb_ports := mb_ports b; mb_held_ports := mb_held_ports b;
     mb_blocks := delete pane (mb_blocks b); mb_port_occupants := mb_port_occupants b |}.

Definition forget (pane : N) (b : MetricsBook) : MetricsBook :=
  {| mb_usage := delete pane (mb_usage b); mb_ports := delete pane (mb_ports b); mb_held_ports := mb_held_ports b;
     mb_blocks := mb_blocks b; mb_port_occupants := mb_port_occupants b |}.
End Metrics.

(** ** Jobs, calls and effects *)
Record HolderRecord := {
  hr_project : path;
  hr_process : rstr;
  hr_command : rstr;
  hr_stop : StopPolicy;
  hr_launch_environment : gmap rstr rstr;
  hr_socket : path;
  hr_log : path;
  hr_holder_pid : N;
  hr_child_pid : N;
  hr_child_start_token : option N;
  hr_history : SpawnHistory;
}.

Record SpawnRequest := {
  rq_process : rstr;
  rq_command : rstr;
  rq_working_dir : path;
  rq_project : path;
  rq_launch_environment : gmap rstr rstr;
  rq_environment : gmap rstr rstr;
  rq_size : PtySize;
  rq_scrollback : N;
  rq_log_max_size : N;
  rq_color_scheme : ColorScheme;
  rq_stop : StopPolicy;
  rq_history : SpawnHistory;
}.

(** What runs on a worker or timer and comes back as an event. A launch scans
    for occupants of the ports it needs first, when it can. *)
Inductive Job :=
| JSpawn (pane generation : N) (request : SpawnRequest) (needed : option (list N))
| JRespawn (pane generation : N) (delay : duration)
| JForceStop (pane spawn_generation shutdown_generation : N) (delay : duration)
| JLocate (pane generation pid : N)
| JAdopt (pane generation : N) (record : HolderRecord) (since : option N)
| JProbe (pane attempt : N) (asked : bool) (pid : N)
| JRetryDue (pane attempt : N) (delay : duration).

(** A Unix signal to a process group. *)
Inductive GroupSignal := GStop (s : StopSignal) | GKill.

(** Calls on a handle and on the system that answer. *)
Inductive Call :=
| CTerminate (h : N) (signal : StopSignal) (grace : duration)
| CKill (h : N)
| CPause (h : N)
| CResume (h : N)
| CAcknowledge (h : N)
| CSignalGroup (pid : N) (signal : GroupSignal)
| CIsRunning (pid : N) (start_token : option N)
| CObserve (pid : N) (expected : option N)
| CWriteInput (h : N) (data : list N).

(** How a handle is let go without a call that answers: abandoned, which stops
    its process, or dropped, which leaves it to its holder. *)
Inductive Message :=
| MText (text : rstr)
| MProblem (problem : StoredProblem)
| MBlock (block : PortBlock).

Record Refusal := { rf_name : rstr; rf_reason : Message; rf_block : option PortBlock }.

Record BatchOutcome := {
  bo_acted : list rstr;
  bo_refused : list Refusal;
  bo_already_running : list rstr;
  bo_stopping : list rstr;
  bo_paused : list rstr;
  bo_waits : list WaitOutcome;
}.

Definition with_found (already stopping paused : list rstr) (b : BatchOutcome) : BatchOutcome :=
  {| bo_acted := bo_acted b; bo_refused := bo_refused b; bo_already_running := already; bo_stopping := stopping; bo_paused := paused;
     bo_waits := bo_waits b |}.
Definition with_waits (waits : list WaitOutcome) (b : BatchOutcome) : BatchOutcome :=
  {| bo_acted := bo_acted b; bo_refused := bo_refused b; bo_already_running := bo_already_running b; bo_stopping := bo_stopping b;
     bo_paused := bo_paused b; bo_waits := waits |}.

(** What a caller that waits is sent. *)
Inductive WaitResponse :=
| RWaited (o : WaitOutcome)
| RBatch (b : BatchOutcome)
| RInvalidInput (message : rstr)
| RInternal (message : rstr).

(** What the waits do outside: notices and events, replies, probes and reads. *)
Inductive WatchEffect :=
| WNotice (pane : N) (text : rstr)
| WEvent (pane : N) (kind : EventKind) (detail : rstr) (cursor : option N)
| WReply (reply : N) (r : WaitResponse)
| WProbeWatch (pane generation : N) (target : ProbeTarget) (deadline : N)
| WProbeForget (pane : N)
| WRead (pane read : N) (job : LogReadJob).

Inductive Effect :=
| FJob (j : Job)
| FCall (c : Call)
| FAbandon (h : N)
| FDrop (h : N)
| FNotice (level : NoticeLevel) (process : option rstr) (message : Message)
| FEvent (kind : EventKind) (process : option rstr) (detail : Message) (cursor : option N)
| FDesktop (source : rstr) (body : rstr)
| FEnded (process : rstr) (outcome : ExitOutcome) (at_ : N)
| FCleared (process : rstr)
| FCollectKilling (socket : path)
| FCollect (socket : path)
| FGeneration (pane generation : N)
| FWatch (e : WatchEffect).

Record Core := {
  s_project : Project;
  s_workspace : list Process;
  s_panes : gmap N Pane;
  s_generations : gmap N N;
  s_restarts : RestartBook;
  s_launches : LaunchBook;
  s_refusals : option (list Refusal);
  s_failing_screens : gset N;
  s_metrics : MetricsBook;
  s_attach : AttachBook;
  s_settings : Settings;
  s_retries : AdoptionRetries;
  s_collect_after_stop : gmap N path;
  s_occupants : N;
  s_left_at : option N;
  s_idle_stopping : gset rstr;
  s_now : N;
}.

Definition on_project (f : Project → Project) (c : Core) : Core :=
  {| s_project := f (s_project c); s_workspace := s_workspace c; s_panes := s_panes c;
     s_generations := s_generations c; s_restarts := s_restarts c; s_launches := s_launches c;
     s_refusals := s_refusals c; s_failing_screens := s_failing_screens c; s_metrics := s_metrics c;
     s_attach := s_attach c; s_settings := s_settings c; s_retries := s_retries c;
     s_collect_after_stop := s_collect_after_stop c; s_occupants := s_occupants c; s_left_at := s_left_at c;
     s_idle_stopping := s_idle_stopping c; s_now := s_now c |}.

Definition on_workspace (f : list Process → list Process) (c : Core) : Core :=
  {| s_project := s_project c; s_workspace := f (s_workspace c); s_panes := s_panes c;
     s_generations := s_generations c; s_restarts := s_restarts c; s_launches := s_launches c;
     s_refusals := s_refusals c; s_failing_screens := s_failing_screens c; s_metrics := s_metrics c;
     s_attach := s_attach c; s_settings := s_settings c; s_retries := s_retries c;
     s_collect_after_stop := s_collect_after_stop c; s_occupants := s_occupants c; s_left_at := s_left_at c;
     s_idle_stopping := s_idle_stopping c; s_now := s_now c |}.

Definition on_panes (f : gmap N Pane → gmap N Pane) (c : Core) : Core :=
  {| s_project := s_project c; s_workspace := s_workspace c; s_panes := f (s_panes c);
     s_generations := s_generations c; s_restarts := s_restarts c; s_launches := s_launches c;
     s_refusals := s_refusals c; s_failing_screens := s_failing_screens c; s_metrics := s_metrics c;
     s_attach := s_attach c; s_settings := s_settings c; s_retries := s_retries c;
     s_collect_after_stop := s_collect_after_stop c; s_occupants := s_occupants c; s_left_at := s_left_at c;
     s_idle_stopping := s_idle_stopping c; s_now := s_now c |}.

Definition on_generations (f : gmap N N → gmap N N) (c : Core) : Core :=
  {| s_project := s_project c; s_workspace := s_workspace c; s_panes := s_panes c;
     s_generations := f (s_generations c); s_restarts := s_restarts c; s_launches := s_launches c;
     s_refusals := s_refusals c; s_failing_screens := s_failing_screens c; s_metrics := s_metrics c;
     s_attach := s_attach c; s_settings := s_settings c; s_retries := s_retries c;
     s_collect_after_stop := s_collect_after_stop c; s_occupants := s_occupants c; s_left_at := s_left_at c;
     s_idle_stopping := s_idle_stopping c; s_now := s_now c |}.

Definition on_restarts (f : RestartBook → RestartBook) (c : Core) : Core :=
  {| s_project := s_project c; s_workspace := s_workspace c; s_panes := s_panes c; s_generations := s_generations c;
     s_restarts := f (s_restarts c); s_launches := s_launches c; s_refusals := s_refusals c;
     s_failing_screens := s_failing_screens c; s_metrics := s_metrics c; s_attach := s_attach c;
     s_settings := s_settings c; s_retries := s_retries c; s_collect_after_stop := s_collect_after_stop c;
     s_occupants := s_occupants c; s_left_at := s_left_at c; s_idle_stopping := s_idle_stopping c; s_now := s_now c |}.

Definition on_launches (f : LaunchBook → LaunchBook) (c : Core) : Core :=
  {| s_project := s_project c; s_workspace := s_workspace c; s_panes := s_panes c; s_generations := s_generations c;
     s_restarts := s_restarts c; s_launches := f (s_launches c); s_refusals := s_refusals c;
     s_failing_screens := s_failing_screens c; s_metrics := s_metrics c; s_attach := s_attach c;
     s_settings := s_settings c; s_retries := s_retries c; s_collect_after_stop := s_collect_after_stop c;
     s_occupants := s_occupants c; s_left_at := s_left_at c; s_idle_stopping := s_idle_stopping c; s_now := s_now c |}.

Definition on_refusals (f : option (list Refusal) → option (list Refusal)) (c : Core) : Core :=
  {| s_project := s_project c; s_workspace := s_workspace c; s_panes := s_panes c; s_generations := s_generations c;
     s_restarts := s_restarts c; s_launches := s_launches c; s_refusals := f (s_refusals c);
     s_failing_screens := s_failing_screens c; s_metrics := s_metrics c; s_attach := s_attach c;
     s_settings := s_settings c; s_retries := s_retries c; s_collect_after_stop := s_collect_after_stop c;
     s_occupants := s_occupants c; s_left_at := s_left_at c; s_idle_stopping := s_idle_stopping c; s_now := s_now c |}.

Definition on_failing_screens (f : gset N → gset N) (c : Core) : Core :=
  {| s_project := s_project c; s_workspace := s_workspace c; s_panes := s_panes c; s_generations := s_generations c;
     s_restarts := s_restarts c; s_launches := s_launches c; s_refusals := s_refusals c;
     s_failing_screens := f (s_failing_screens c); s_metrics := s_metrics c; s_attach := s_attach c;
     s_settings := s_settings c; s_retries := s_retries c; s_collect_after_stop := s_collect_after_stop c;
     s_occupants := s_occupants c; s_left_at := s_left_at c; s_idle_stopping := s_idle_stopping c; s_now := s_now c |}.

Definition on_metrics (f : MetricsBook → MetricsBook) (c : Core) : Core :=
  {| s_project := s_project c; s_workspace := s_workspace c; s_panes := s_panes c; s_generations := s_generations c;
     s_restarts := s_restarts c; s_launches := s_launches c; s_refusals := s_refusals c;
     s_failing_screens := s_failing_screens c; s_metrics := f (s_metrics c); s_attach := s_attach c;
     s_settings := s_settings c; s_retries := s_retries c; s_collect_after_stop := s_collect_after_stop c;
     s_occupants := s_occupants c; s_left_at := s_left_at c; s_idle_stopping := s_idle_stopping c; s_now := s_now c |}.

Definition on_attach (f : AttachBook → AttachBook) (c : Core) : Core :=
  {| s_project := s_project c; s_workspace := s_workspace c; s_panes := s_panes c; s_generations := s_generations c;
     s_restarts := s_restarts c; s_launches := s_launches c; s_refusals := s_refusals c;
     s_failing_screens := s_failing_screens c; s_metrics := s_metrics c; s_attach := f (s_attach c);
     s_settings := s_settings c; s_retries := s_retries c; s_collect_after_stop := s_collect_after_stop c;
     s_occupants := s_occupants c; s_left_at := s_left_at c; s_idle_stopping := s_idle_stopping c; s_now := s_now c |}.

Definition on_settings (f : Settings → Settings) (c : Core) : Core :=
  {| s_project := s_project c; s_workspace := s_workspace c; s_panes := s_panes c; s_generations := s_generations c;
     s_restarts := s_restarts c; s_launches := s_launches c; s_refusals := s_refusals c;
     s_failing_screens := s_failing_screens c; s_metrics := s_metrics c; s_attach := s_attach c;
     s_settings := f (s_settings c); s_retries := s_retries c; s_collect_after_stop := s_collect_after_stop c;
     s_occupants := s_occupants c; s_left_at := s_left_at c; s_idle_stopping := s_idle_stopping c; s_now := s_now c |}.

Definition on_retries (f : AdoptionRetries → AdoptionRetries) (c : Core) : Core :=
  {| s_project := s_project c; s_workspace := s_workspace c; s_panes := s_panes c; s_generations := s_generations c;
     s_restarts := s_restarts c; s_launches := s_launches c; s_refusals := s_refusals c;
     s_failing_screens := s_failing_screens c; s_metrics := s_metrics c; s_attach := s_attach c;
     s_settings := s_settings c; s_retries := f (s_retries c); s_collect_after_stop := s_collect_after_stop c;
     s_occupants := s_occupants c; s_left_at := s_left_at c; s_idle_stopping := s_idle_stopping c; s_now := s_now c |}.

Definition on_collect_after_stop (f : gmap N path → gmap N path) (c : Core) : Core :=
  {| s_project := s_project c; s_workspace := s_workspace c; s_panes := s_panes c; s_generations := s_generations c;
     s_restarts := s_restarts c; s_launches := s_launches c; s_refusals := s_refusals c;
     s_failing_screens := s_failing_screens c; s_metrics := s_metrics c; s_attach := s_attach c;
     s_settings := s_settings c; s_retries := s_retries c; s_collect_after_stop := f (s_collect_after_stop c);
     s_occupants := s_occupants c; s_left_at := s_left_at c; s_idle_stopping := s_idle_stopping c; s_now := s_now c |}.

Definition on_occupants (f : N → N) (c : Core) : Core :=
  {| s_project := s_project c; s_workspace := s_workspace c; s_panes := s_panes c; s_generations := s_generations c;
     s_restarts := s_restarts c; s_launches := s_launches c; s_refusals := s_refusals c;
     s_failing_screens := s_failing_screens c; s_metrics := s_metrics c; s_attach := s_attach c;
     s_settings := s_settings c; s_retries := s_retries c; s_collect_after_stop := s_collect_after_stop c;
     s_occupants := f (s_occupants c); s_left_at := s_left_at c; s_idle_stopping := s_idle_stopping c;
     s_now := s_now c |}.

Definition on_left_at (f : option N → option N) (c : Core) : Core :=
  {| s_project := s_project c; s_workspace := s_workspace c; s_panes := s_panes c; s_generations := s_generations c;
     s_restarts := s_restarts c; s_launches := s_launches c; s_refusals := s_refusals c;
     s_failing_screens := s_failing_screens c; s_metrics := s_metrics c; s_attach := s_attach c;
     s_settings := s_settings c; s_retries := s_retries c; s_collect_after_stop := s_collect_after_stop c;
     s_occupants := s_occupants c; s_left_at := f (s_left_at c); s_idle_stopping := s_idle_stopping c;
     s_now := s_now c |}.

Definition on_idle_stopping (f : gset rstr → gset rstr) (c : Core) : Core :=
  {| s_project := s_project c; s_workspace := s_workspace c; s_panes := s_panes c; s_generations := s_generations c;
     s_restarts := s_restarts c; s_launches := s_launches c; s_refusals := s_refusals c;
     s_failing_screens := s_failing_screens c; s_metrics := s_metrics c; s_attach := s_attach c;
     s_settings := s_settings c; s_retries := s_retries c; s_collect_after_stop := s_collect_after_stop c;
     s_occupants := s_occupants c; s_left_at := s_left_at c; s_idle_stopping := f (s_idle_stopping c);
     s_now := s_now c |}.

Definition on_now (f : N → N) (c : Core) : Core :=
  {| s_project := s_project c; s_workspace := s_workspace c; s_panes := s_panes c; s_generations := s_generations c;
     s_restarts := s_restarts c; s_launches := s_launches c; s_refusals := s_refusals c;
     s_failing_screens := s_failing_screens c; s_metrics := s_metrics c; s_attach := s_attach c;
     s_settings := s_settings c; s_retries := s_retries c; s_collect_after_stop := s_collect_after_stop c;
     s_occupants := s_occupants c; s_left_at := s_left_at c; s_idle_stopping := s_idle_stopping c;
     s_now := f (s_now c) |}.

(** ** What the lifecycle tells the waits *)
Inductive WatchOp :=
| WBeginRun (pane : N)
| WAdoptRun (pane : N)
| WPlaceRun (pane start : N)
| WArmProbes (pane : N)
| WReplays (pane : N) (end_ : option N)
| WStartReplay (pane : N)
| WTap (pane : N) (at_ : option N) (bytes : list N)
| WUnlogged (pane : N) (bytes : list N)
| WSettleReadiness (pane : N)
| WEndWaits (pane : N) (generation : option N) (status : WaitStatus) (next : ProcessState)
| WUnready (pane : N)
| WForgetReads (pane : N)
| WForgetProbes (pane : N)
| WForgetTaps (pane : N)
| WReleaseAdoptionWaits.

(** The state waiting.rs keeps, how an operation of the lifecycle changes it
    given the rest of the supervisor, and where a pane's output stands. *)
Class Watching := {
  watch : Type;
  watch_new : watch;
  watch_step : WatchOp → Core → watch → watch * list WatchEffect;
  output_position : watch → N → N;
  has_tap : watch → N → bool;
}.

(** What the environment answers: whether the newest call succeeded, and the
    start token read for a process just observed. *)
Record Env := { answers : list Effect → bool; tokens : list Effect → option N }.

Record Sup `{Watching} := { sup_core : Core; sup_watch : watch; sup_trace : list Effect }.

Section state.
Context `{Watching}.

Definition upd (f : Core → Core) (s : Sup) : Sup :=
  {| sup_core := f (sup_core s); sup_watch := sup_watch s; sup_trace := sup_trace s |}.

Definition emit (e : Effect) (s : Sup) : Sup :=
  {| sup_core := sup_core s; sup_watch := sup_watch s; sup_trace := e :: sup_trace s |}.

Definition tell (op : WatchOp) (s : Sup) : Sup :=
  let '(w, es) := watch_step op (sup_core s) (sup_watch s) in
  {| sup_core := sup_core s; sup_watch := w; sup_trace := rev (FWatch <$> es) ++ sup_trace s |}.

(** Makes a call and gives its answer. *)
Definition call (env : Env) (c : Call) (s : Sup) : bool * Sup :=
  let s := emit (FCall c) s in (answers env (sup_trace s), s).

(** ** Lookups *)
Notation ws s := (s_workspace (sup_core s)).
Notation panes s := (s_panes (sup_core s)).

Definition proc (s : Sup) (pane : N) : option Process := ws_process (ws s) pane.
Definition state_of (s : Sup) (pane : N) : option ProcessState := p_state <$> proc s pane.
Definition root (s : Sup) : path := pr_root (s_project (sup_core s)).

Definition live (s : Sup) (pane : N) : option Handle := panes s !! pane ≫= pn_handle.
Definition unsupervised (s : Sup) (pane : N) : option UnsupervisedChild := panes s !! pane ≫= pn_unsupervised.
Definition launch (s : Sup) (pane : N) : option PendingLaunch := pending (s_launches (sup_core s)) !! pane.
Definition generation (s : Sup) (pane : N) : option N := s_generations (sup_core s) !! pane.

Definition is_live (s : Sup) (pane : N) : bool := is_some (live s pane).
Definition is_starting (s : Sup) (pane : N) : bool := Book.is_starting (s_launches (sup_core s)) pane.
Definition is_spawning (s : Sup) (pane : N) : bool := Book.is_spawning (s_launches (sup_core s)) pane.
Definition is_unsupervised (s : Sup) (pane : N) : bool := is_some (unsupervised s pane).
Definition holds_process (s : Sup) (pane : N) : bool := is_live s pane || is_starting s pane || is_unsupervised s pane.
Definition is_paused (s : Sup) (pane : N) : bool := bool_decide (state_of s pane = Some SPaused).
Definition stop_policy_of (s : Sup) (pane : N) : option StopPolicy := p_stop <$> proc s pane.
Definition current_generation (s : Sup) (pane : N) : N := default 0%N (generation s pane).

Definition runs_launch (s : Sup) (pane gen : N) : bool := is_live s pane && bool_decide (generation s pane = Some gen).

Definition awaits_respawn (s : Sup) (pane : N) : bool :=
  is_spawning s pane || bool_decide (state_of s pane = Some SRestarting).

(** The pane of the process with a name, matched by key. *)
Definition pane_named (nfc : rstr → rstr) (s : Sup) (n : rstr) : option N :=
  p_id <$> List.find (λ p, bool_decide (name_key nfc (p_name p) = name_key nfc n)) (ws s).

(** ** Notices and events *)

(** [Attention::raise]: an error about a process refuses it in the running batch. *)
Definition raise (level : NoticeLevel) (process : option rstr) (message : Message) (block : option PortBlock) (s : Sup) : Sup :=
  let refuse rs :=
    match rs, process, level with
    | Some rs, Some n, Error => Some (rs ++ [{| rf_name := n; rf_reason := message; rf_block := block |}])
    | rs, _, _ => rs
    end in
  emit (FNotice level process message) (emit (FEvent Notice_ process message None) (upd (on_refusals refuse) s)).

Definition notify_process (level : NoticeLevel) (process : option rstr) (message : Message) (s : Sup) : Sup :=
  raise level process message None s.

Definition notify (level : NoticeLevel) (pane : option N) (message : Message) (s : Sup) : Sup :=
  notify_process level (pane ≫= λ p, p_name <$> proc s p) message s.

Definition notify_blocked (n : rstr) (block : PortBlock) (s : Sup) : Sup := raise Error (Some n) (MBlock block) (Some block) s.

Definition record_event (pane : N) (kind : EventKind) (detail : Message) (s : Sup) : Sup :=
  emit (FEvent kind (p_name <$> proc s pane) detail
          (if has_tap (sup_watch s) pane then Some (output_position (sup_watch s) pane) else None)) s.

Definition begin_batch (s : Sup) : Sup := upd (on_refusals (λ _, Some [])) s.
Definition refused_so_far (s : Sup) : list rstr := rf_name <$> default [] (s_refusals (sup_core s)).
Definition end_batch (s : Sup) : list Refusal * Sup := (default [] (s_refusals (sup_core s)), upd (on_refusals (λ _, None)) s).

(** The pane of a process by name, an unknown one told. *)
Definition UNKNOWN_PROCESS_NOTICE : rstr := lit "no process with that name in this project".
Definition resolve (nfc : rstr → rstr) (n : rstr) (s : Sup) : option N * Sup :=
  match pane_named nfc s n with
  | Some p => (Some p, s)
  | None => (None, notify_process Error (Some n) (MText UNKNOWN_PROCESS_NOTICE) s)
  end.

(** ** Small steps on the books *)
Definition set_state (pane : N) (st : ProcessState) (s : Sup) : Sup := upd (on_workspace (λ w, ws_set_state w pane st)) s.
Definition alter_pane (f : Pane → Pane) (pane : N) (s : Sup) : Sup := upd (on_panes (alter f pane)) s.
Definition set_attached (pane clients : N) (s : Sup) : Sup := upd (on_attach (Attach.set_attached pane clients)) s.

(** The handle a pane holds is let go of where Rust drops it. *)
Definition drop_handle (pane : N) (s : Sup) : Sup :=
  match live s pane with Some h => emit (FDrop (h_id h)) s | None => s end.

(** The pane's next generation, which is noted in the history too. *)
Definition advance_generation (pane : N) (s : Sup) : Sup :=
  let next := wrapping_next (current_generation s pane) in
  emit (FGeneration pane next) (upd (on_generations (<[pane := next]>)) s).

Definition bump_generation (pane : N) (s : Sup) : Sup :=
  advance_generation pane (upd (on_launches (Book.cancel pane)) s).

Definition advance_shutdown_generation (pane : N) (s : Sup) : Sup := alter_pane advance_shutdown pane s.
Definition shutdown_generation (s : Sup) (pane : N) : option N := pn_shutdown_generation <$> panes s !! pane.

Definition deactivate (pane : N) (s : Sup) : Sup :=
  alter_pane (λ p, change_intent (λ _, FollowPolicy) (take_handle p)) pane
    (drop_handle pane (set_attached pane 0 (upd (on_metrics (Metrics.clear_usage pane)) s))).

(** ** A fresh supervisor *)
Definition new (nfc : rstr → rstr) (project : Project) (stack : list ProcessSpec) (settings : Settings) (port_occupants : bool)
    (at_ : N) : Sup :=
  {| sup_core :=
       {| s_project := project; s_workspace := ss_workspace (apply nfc [] stack (λ _, false)); s_panes := ∅; s_generations := ∅;
          s_restarts := Restarts.new; s_launches := Book.new; s_refusals := None; s_failing_screens := ∅;
          s_metrics := Metrics.new port_occupants; s_attach := Attach.new; s_settings := settings; s_retries := Retries.new;
          s_collect_after_stop := ∅; s_occupants := 0; s_left_at := None; s_idle_stopping := ∅; s_now := at_ |};
     sup_watch := watch_new; sup_trace := [] |}.

Definition is_idle (s : Sup) : bool := ws_is_empty (ws s) && Book.is_empty (s_launches (sup_core s)).
End state.
