(* ===== verification/HolderClient.v ===== *)
(** * The service's end of a holder connection

    Models muster-service/src/holder_client (reader.rs, handle.rs,
    shared_writer.rs, detachable_sink.rs, replay_request.rs) and
    muster-protocol/src/holder/client.rs: the handle a supervisor drives a child
    through, and the thread that forwards the holder's messages to it.

    A read of the connection is what [read_from] returned, a message or why
    there is none; Frame.v has the bytes. The log is read as it is found: by how
    many messages were heard and how many reads were made before ([disk]). The
    handle may be dropped at any moment: [detached n] is whether it was when the
    sink was looked at for the [n]th time. What went to the sink is [rd_out],
    in order. *)
From S2P Require Import Prelude RustText Values Config Process Frame Tap LogFile LogSpan WaitData LogRead Books SupState.

Definition HOLDER_LOST : rstr := lit "the holder stopped serving without reporting an exit".
Definition BACKLOG_MAX_BYTES : N := 256 * 1024.
Definition REPLAY_MAX_BYTES : N := 16 * 1024 * 1024.
Definition CONNECTION_POISONED : rstr := lit "holder connection writer is poisoned".
Definition WRITE_TIMED_OUT : rstr := lit "the holder stopped reading its supervisor connection".
Definition WRITER_BROKEN : rstr := lit "the holder connection broke on an earlier write".

(** ** The greeting *)
Definition is_undecodable (e : HolderError) : bool :=
  match e with Frame.Io InvalidData => true | Frame.Io _ => false | _ => true end.

Record Greeting := { gr_repaint : list N; gr_size : PtySize; gr_pid : N; gr_attached : N; gr_run_start : N; gr_log_end : N }.
Inductive GreetError := NoSnapshot | GreetFailed (e : HolderError).

(** [wrote] is what writing the hello returned, [answered] what was read next. *)
Definition greet (wrote : result unit HolderError) (answered : result HolderMessage HolderError) : result Greeting GreetError :=
  match wrote with
  | Err e => Err (GreetFailed e)
  | Ok _ =>
    match answered with
    | Ok (Snapshot repaint size pid attached run_start log_end) =>
      Ok {| gr_repaint := repaint; gr_size := size; gr_pid := pid; gr_attached := attached; gr_run_start := run_start; gr_log_end := log_end |}
    | Ok _ | Err (Frame.Io _) => Err NoSnapshot
    | Err e => Err (GreetFailed e)
    end
  end.

(** ** The reader *)
Record Reader := {
  rd_log : bool;
  rd_delivered : N;
  rd_exit_held : bool;
  rd_out : list ProcessOutput;
  rd_checks : nat;
  rd_heard : nat;
  rd_reads : nat;
}.
Definition reader_new (known : bool) (delivered : N) : Reader :=
  {| rd_log := known; rd_delivered := delivered; rd_exit_held := false; rd_out := []; rd_checks := 0; rd_heard := 0; rd_reads := 0 |}.

Definition rd_looked (r : Reader) : Reader :=
  {| rd_log := rd_log r; rd_delivered := rd_delivered r; rd_exit_held := rd_exit_held r; rd_out := rd_out r; rd_checks := S (rd_checks r);
     rd_heard := rd_heard r; rd_reads := rd_reads r |}.
Definition rd_sent (output : ProcessOutput) (r : Reader) : Reader :=
  {| rd_log := rd_log r; rd_delivered := rd_delivered r; rd_exit_held := rd_exit_held r; rd_out := rd_out r ++ [output]; rd_checks := rd_checks r;
     rd_heard := rd_heard r; rd_reads := rd_reads r |}.
Definition rd_at (delivered : N) (r : Reader) : Reader :=
  {| rd_log := rd_log r; rd_delivered := delivered; rd_exit_held := rd_exit_held r; rd_out := rd_out r; rd_checks := rd_checks r;
     rd_heard := rd_heard r; rd_reads := rd_reads r |}.
Definition rd_read (r : Reader) : Reader :=
  {| rd_log := rd_log r; rd_delivered := rd_delivered r; rd_exit_held := rd_exit_held r; rd_out := rd_out r; rd_checks := rd_checks r;
     rd_heard := rd_heard r; rd_reads := S (rd_reads r) |}.
Definition rd_hear (exit_held : bool) (r : Reader) : Reader :=
  {| rd_log := rd_log r; rd_delivered := rd_delivered r; rd_exit_held := exit_held; rd_out := rd_out r; rd_checks := rd_checks r;
     rd_heard := S (rd_heard r); rd_reads := rd_reads r |}.

(** What an adopting handle asks its reader to replay; a matcher is the pattern it
    was compiled from. *)
Record ReplayRequest := { rq_from : N; rq_patterns : list LogPattern }.

(** What probing the holder's socket came to. *)
Inductive Probe := Refused_ | Untimed | ProbeRead (read : N) | ProbeFailed (waiting : bool).
Definition holder_serves (p : Probe) : bool :=
  match p with
  | Refused_ => false
  | Untimed => true
  | ProbeRead read => (0 <? read)%N
  | ProbeFailed waiting => waiting
  end.

Section reader.
Context `{LineRenderer} (compiles : LogPattern → bool) (is_match : LogPattern → rstr → bool).
Context (disk : nat → nat → nat → option Disk) (detached : nat → bool).

(** [DetachableSink::is_detached] and [send]. *)
Definition is_detached (r : Reader) : bool * Reader := (detached (rd_checks r), rd_looked r).
Definition sink_send (output : ProcessOutput) (r : Reader) : Reader :=
  let '(gone, r) := is_detached r in if (gone : bool) then r else rd_sent output r.

Definition forward (at_ : N) (bytes : list N) (r : Reader) : Reader :=
  sink_send (Placed at_ bytes) (rd_at (N.max (rd_delivered r) (OutputCursor.advanced at_ (N.of_nat (length bytes)))) r).

(** Each piece is at least a byte, so [fuel] the bytes asked for and one more is
    enough. *)
Fixpoint forward_logged (fuel : nat) (next until : N) (r : Reader) : Reader :=
  match fuel with
  | O => r
  | S fuel =>
    if (next <? until)%N then
      let '(gone, r) := is_detached r in
      if (gone : bool) then r else
      let found := read_log_range (disk (rd_heard r) (rd_reads r)) next until CATCH_UP_CHUNK_BYTES in
      let r := rd_read r in
      match found with
      | Ok (_, []) | Err _ => r
      | Ok (at_, bytes) => forward_logged fuel (OutputCursor.advanced at_ (N.of_nat (length bytes))) until (forward at_ bytes r)
      end
    else r
  end.

Definition catch_up (log_end : N) (r : Reader) : Reader :=
  if rd_log r then forward_logged (S (N.to_nat (log_end - rd_delivered r))) (rd_delivered r) log_end r else r.

(** The scan's visitor: whether to go on. *)
Definition forward_piece (matchers : list LogPattern) (piece : VisitedPiece) (r : Reader) : bool * Reader :=
  let '(gone, r) := is_detached r in
  if (gone : bool) then (false, r) else
  if negb (bool_decide (vp_bytes piece = [])) && existsb (λ text, existsb (λ m, is_match m text) matchers) (vp_texts piece) then
    (true,
     if (vp_line_at piece <? vp_at piece)%N then
       let end_ := OutputCursor.advanced (vp_at piece) (N.of_nat (length (vp_bytes piece))) in
       forward_logged (S (N.to_nat (end_ - vp_line_at piece))) (vp_line_at piece) end_ r
     else forward (vp_at piece) (vp_bytes piece) r)
  else (true, r).

(** [look] and [chunk] are how the scan's own openings of the log find it; one that
    fails forwards what it handed out before. *)
Definition forward_matching (look : nat → option Disk) (chunk : nat → nat → option Disk) (from until : N) (matchers : list LogPattern) (r : Reader) : Reader :=
  if negb (rd_log r) then r
  else if bool_decide (matchers = []) then r
  else match visit_lines (forward_piece matchers) look chunk from until r with Ok (_, _, r) => r | Err _ => r end.

Definition replay (look : nat → option Disk) (chunk : nat → nat → option Disk) (request : option ReplayRequest) (r : Reader) : Reader :=
  match request with
  | None => r
  | Some q =>
    let '(gone, r) := is_detached r in
    if gone || (rd_delivered r <=? rq_from q)%N then r else
    let until := rd_delivered r in
    rd_at until (forward_matching look chunk (rq_from q) until (List.filter compiles (rq_patterns q)) r)
  end.

(** One read of the connection: whether the loop goes on, and whether it broke off
    to probe the holder. *)
Inductive Loop := Goes | Returned | Broke.
Definition hear (show : HolderError → rstr) (received : result HolderMessage HolderError) (r : Reader) : Loop * Reader :=
  let exiting := match received with Ok (Exited_ _) => true | _ => rd_exit_held r end in
  let r := rd_hear exiting r in
  match received with
  | Ok (Snapshot repaint size _ attached _ log_end) => (Goes, sink_send (OAttached attached) (sink_send (Repaint repaint size) (catch_up log_end r)))
  | Ok (Output at_ bytes) => (Goes, forward at_ bytes r)
  | Ok (Exited_ outcome) => (Returned, sink_send (OExited outcome) r)
  | Ok (Unlogged bytes) => (Goes, sink_send (OUnlogged bytes) r)
  | Ok (Warning_ text) => (Goes, sink_send (OWarning text) r)
  | Ok (Attached count) => (Goes, sink_send (OAttached count) r)
  | Ok (Rejected _) => (Goes, r)
  | Err e => if is_undecodable e then (Returned, sink_send (Unreadable_ (show e)) r) else (Broke, r)
  end.

Fixpoint hear_all (show : HolderError → rstr) (received : list (result HolderMessage HolderError)) (r : Reader) : Loop * Reader :=
  match received with
  | [] => (Goes, r)
  | m :: received => match hear show m r with (Goes, r) => hear_all show received r | ended => ended end
  end.

(** [spawn_reader]: the replay, the loop and the report of a holder that is gone. *)
Definition read_holder (show : HolderError → rstr) (look : nat → option Disk) (chunk : nat → nat → option Disk) (request : option ReplayRequest)
    (received : list (result HolderMessage HolderError)) (probe : Probe) (r : Reader) : Reader :=
  match hear_all show received (replay look chunk request r) with
  | (Broke, r) =>
    let '(gone, r) := is_detached r in
    if gone || holder_serves probe then r else sink_send (Unreadable_ HOLDER_LOST) r
  | (_, r) => r
  end.
End reader.

(** ** The writer *)
(** What writing one frame came to; a panic of an earlier writer poisons its lock. *)
Inductive WriteOutcome := Wrote | TimedOut | WriteFailed | Poisoned.
Record SharedWriter := { sw_broken : bool; sw_written : list ClientMessage; sw_reports : list ProcessOutput }.
Definition writer_new : SharedWriter := {| sw_broken := false; sw_written := []; sw_reports := [] |}.

(** [gone] is whether the handle was dropped. *)
Definition break_connection (gone : bool) (w : SharedWriter) : SharedWriter :=
  {| sw_broken := true; sw_written := sw_written w;
     sw_reports := if sw_broken w || gone then sw_reports w else sw_reports w ++ [Unreadable_ WRITE_TIMED_OUT] |}.

(** [None] is the error the write itself failed with. *)
Definition writer_send (gone : bool) (outcome : WriteOutcome) (m : ClientMessage) (w : SharedWriter) : result unit (option rstr) * SharedWriter :=
  if sw_broken w then (Err (Some WRITER_BROKEN), w) else
  match outcome with
  | Poisoned => (Err (Some CONNECTION_POISONED), w)
  | TimedOut => (Err (Some WRITE_TIMED_OUT), break_connection gone w)
  | WriteFailed => (Err None, w)
  | Wrote => (Ok tt, {| sw_broken := sw_broken w; sw_written := sw_written w ++ [m]; sw_reports := sw_reports w |})
  end.

(** ** The handle *)
Record HolderHandle := {
  hh_writer : SharedWriter;
  hh_child_pid : N;
  hh_initial_screen : option (list N);
  hh_screen_size : PtySize;
  hh_attached : N;
  hh_started_at : option N;
  hh_run_start : N;
  hh_log_end : N;
  hh_backlog : option (N * list N);
  hh_replay : bool;
  hh_replay_from : option N;
  hh_log : bool;
}.

(** The handle of a greeted holder, and its reader. *)
Definition connect (known replaying : bool) (g : Greeting) : HolderHandle * Reader :=
  ({| hh_writer := writer_new; hh_child_pid := gr_pid g; hh_initial_screen := Some (gr_repaint g); hh_screen_size := gr_size g; hh_attached := gr_attached g;
      hh_started_at := None; hh_run_start := gr_run_start g; hh_log_end := gr_log_end g; hh_backlog := None; hh_replay := replaying; hh_replay_from := None; hh_log := known |},
   reader_new known (gr_log_end g)).
Definition supervise (known : bool) (g : Greeting) : HolderHandle * Reader := connect known false g.
Definition supervise_replaying (known : bool) (since : option N) (g : Greeting) : HolderHandle * Reader :=
  let '(h, r) := connect known true g in
  let from := N.max (N.max (default (hh_run_start h) since) (hh_run_start h)) (saturating_sub (hh_log_end h) REPLAY_MAX_BYTES) in
  ({| hh_writer := hh_writer h; hh_child_pid := hh_child_pid h; hh_initial_screen := hh_initial_screen h; hh_screen_size := hh_screen_size h; hh_attached := hh_attached h;
      hh_started_at := hh_started_at h; hh_run_start := hh_run_start h; hh_log_end := hh_log_end h; hh_backlog := hh_backlog h; hh_replay := hh_replay h;
      hh_replay_from := if hh_log h then Some from else None; hh_log := hh_log h |}, r).

Definition with_started_at (started_at : N) (h : HolderHandle) : HolderHandle :=
  {| hh_writer := hh_writer h; hh_child_pid := hh_child_pid h; hh_initial_screen := hh_initial_screen h; hh_screen_size := hh_screen_size h; hh_attached := hh_attached h;
     hh_started_at := Some started_at; hh_run_start := hh_run_start h; hh_log_end := hh_log_end h; hh_backlog := hh_backlog h; hh_replay := hh_replay h;
     hh_replay_from := hh_replay_from h; hh_log := hh_log h |}.

Definition backlog_from (h : HolderHandle) : N := N.max (hh_run_start h) (saturating_sub (hh_log_end h) BACKLOG_MAX_BYTES).
Definition with_backlog (look : nat → option Disk) (h : HolderHandle) : HolderHandle :=
  if negb (hh_log h) then h else
  if (backlog_from h <? hh_log_end h)%N then
    {| hh_writer := hh_writer h; hh_child_pid := hh_child_pid h; hh_initial_screen := hh_initial_screen h; hh_screen_size := hh_screen_size h; hh_attached := hh_attached h;
       hh_started_at := hh_started_at h; hh_run_start := hh_run_start h; hh_log_end := hh_log_end h;
       hh_backlog := match read_log_range look (backlog_from h) (hh_log_end h) BACKLOG_MAX_BYTES with Ok (at_, b :: bytes) => Some (at_, b :: bytes) | _ => None end;
       hh_replay := hh_replay h; hh_replay_from := hh_replay_from h; hh_log := hh_log h |}
  else h.

(** Lets the held-back reader on: where the holder's frames begin, and what it is
    asked to replay. *)
Definition replay_matching (patterns : list LogPattern) (h : HolderHandle) : option N * option ReplayRequest * HolderHandle :=
  if hh_replay h then
    (Some (hh_log_end h),
     match hh_replay_from h with
     | Some from => if bool_decide (patterns = []) then None else Some {| rq_from := from; rq_patterns := patterns |}
     | None => None
     end,
     {| hh_writer := hh_writer h; hh_child_pid := hh_child_pid h; hh_initial_screen := hh_initial_screen h; hh_screen_size := hh_screen_size h; hh_attached := hh_attached h;
        hh_started_at := hh_started_at h; hh_run_start := hh_run_start h; hh_log_end := hh_log_end h; hh_backlog := hh_backlog h; hh_replay := false;
        hh_replay_from := None; hh_log := hh_log h |})
  else (None, None, h).

Definition on_writer (f : SharedWriter → result unit (option rstr) * SharedWriter) (h : HolderHandle) : result unit (option rstr) * HolderHandle :=
  let '(res, w) := f (hh_writer h) in
  (res,
   {| hh_writer := w; hh_child_pid := hh_child_pid h; hh_initial_screen := hh_initial_screen h; hh_screen_size := hh_screen_size h; hh_attached := hh_attached h;
      hh_started_at := hh_started_at h; hh_run_start := hh_run_start h; hh_log_end := hh_log_end h; hh_backlog := hh_backlog h; hh_replay := hh_replay h;
      hh_replay_from := hh_replay_from h; hh_log := hh_log h |}).

(** Collects the exit the holder keeps, when it reported one. *)
Definition acknowledge_exit (exit_held : bool) (outcome : WriteOutcome) (h : HolderHandle) : result unit (option rstr) * HolderHandle :=
  if exit_held then on_writer (writer_send false outcome CollectExit) h else (Ok tt, h).
Definition handle_input (bytes : list N) (outcome : WriteOutcome) : HolderHandle → result unit (option rstr) * HolderHandle :=
  on_writer (writer_send false outcome (Input bytes)).
Definition handle_resize (size : PtySize) (outcome : WriteOutcome) : HolderHandle → result unit (option rstr) * HolderHandle :=
  on_writer (writer_send false outcome (Resize size)).
Definition handle_control (c : HolderControl) (outcome : WriteOutcome) : HolderHandle → result unit (option rstr) * HolderHandle :=
  on_writer (writer_send false outcome (Control c)).

(** What a supervisor asks of the handle as it installs it. *)
Definition as_handle (id : N) (look : nat → option Disk) (h : HolderHandle) : Handle :=
  {| h_id := id; h_process_id := Some (hh_child_pid h); h_started_at := hh_started_at h; h_attached_clients := hh_attached h;
     h_initial_screen := hh_initial_screen h; h_screen_size := Some (hh_screen_size h); h_run_start := Some (hh_run_start h);
     h_output_end := if hh_log h then match stream_end look with Ok e => Some e | Err _ => None end else None;
     h_backlog := hh_backlog h; h_screen_served := true |}.
