(* ===== verification/HolderHeard.v ===== *)
(** * What the service hears of a child

    The reader of HolderClient.v over the messages a holder sent its supervisor:
    what it forwards is the log's stream, each piece at its place, in order and
    never twice, although a holder drops what a slow reader did not take, and
    whatever is missing the log itself no longer had. *)
From S2P Require Import Prelude RustText Values Config Process Frame Tap LogFile LogSpan LogPlaced WaitData LogRead Terminal Screen Emulator Holder HolderSafe HolderServe HolderTrail HolderWitness Books SupState HolderClient.

(** ** Pieces in order *)
Definition pieces (out : list ProcessOutput) : list (N * list N) := omap (λ o, match o with Placed at_ bytes => Some (at_, bytes) | _ => None end) out.

(** Pieces of [s] from [pos], each past the one before, up to [fin]. *)
Fixpoint in_order (s : list N) (pos : N) (ps : list (N * list N)) (fin : N) : Prop :=
  match ps with
  | [] => (pos ≤ fin)%N
  | (at_, bytes) :: ps => (pos ≤ at_)%N ∧ stands s at_ bytes ∧ in_order s (at_ + N.of_nat (length bytes)) ps fin
  end.

Lemma heard_in_order_snoc s pos ps fin at_ bytes fin' :
  in_order s pos ps fin → (fin ≤ at_)%N → stands s at_ bytes → (at_ + N.of_nat (length bytes) ≤ fin')%N → in_order s pos (ps ++ [(at_, bytes)]) fin'.
Proof. revert pos. induction ps as [|[a b] ps IH]; intros pos; cbn [app in_order]; [intros; split_and!; [lia|done|lia]|]. intros (? & ? & ?) ???. auto. Qed.
Lemma in_order_later s pos ps fin fin' : in_order s pos ps fin → (fin ≤ fin')%N → in_order s pos ps fin'.
Proof. revert pos. induction ps as [|[a b] ps IH]; intros pos; cbn [in_order]; [lia|]. intros (? & ? & ?) ?. auto. Qed.

(** A place some piece covers. *)
Definition covers (ps : list (N * list N)) (i : N) : Prop := ∃ at_ bytes, (at_, bytes) ∈ ps ∧ (at_ ≤ i < at_ + N.of_nat (length bytes))%N.
(** A place a reader of the log did not find there. *)
Definition gone (look : nat → option Disk) (i : N) : Prop := match open_span look with Ok sp => (i < sp_oldest sp)%N | Err _ => True end.

Section heard.
Context (disk : nat → nat → nat → option Disk) (detached : nat → bool).

(** A place forwarded, or that some read did not find. *)
Definition known (ps : list (N * list N)) (heard reads : nat) (i : N) : Prop :=
  covers ps i ∨ ∃ n k, n ≤ heard ∧ k < reads ∧ gone (disk n k) i.
Lemma known_more ps ps' heard heard' reads reads' i :
  known ps heard reads i → ps ⊆ ps' → heard ≤ heard' → reads ≤ reads' → known ps' heard' reads' i.
Proof.
  intros [(a & b & Hin & Hi)|(n & k & ? & ? & ?)] Hsub ??; [left; exists a, b; split; [by apply Hsub|done]|right; exists n, k; split_and!; [lia|lia|done]].
Qed.

(** ** The reader's state *)
(** Everything from [start] up to [pos] is accounted for, while the handle is kept
    and the log known. *)
Record follows_log (s : list N) (start pos : N) (r : Reader) : Prop := {
  fl_order : in_order s start (pieces (rd_out r)) (rd_delivered r);
  fl_behind : (rd_delivered r ≤ pos)%N;
  fl_known : rd_log r = true → (∀ n, detached n = false) → ∀ i, (start ≤ i < pos)%N → known (pieces (rd_out r)) (rd_heard r) (rd_reads r) i;
}.

(** What is sent beside output changes nothing. *)
Definition is_placed (o : ProcessOutput) : bool := match o with Placed _ _ => true | _ => false end.
Lemma sink_send_pieces o r :
  pieces (rd_out (sink_send detached o r)) = pieces (rd_out r) ∨ pieces (rd_out (sink_send detached o r)) = pieces (rd_out r) ++ pieces [o] .
Proof. unfold sink_send, is_detached. destruct (detached _); [by left|right]. cbn [rd_sent rd_out rd_looked]. unfold pieces. by rewrite omap_app. Qed.
Lemma sink_send_same o r :
  rd_delivered (sink_send detached o r) = rd_delivered r ∧ rd_log (sink_send detached o r) = rd_log r ∧ rd_heard (sink_send detached o r) = rd_heard r ∧
  rd_reads (sink_send detached o r) = rd_reads r.
Proof. unfold sink_send, is_detached. by destruct (detached _). Qed.
Lemma sink_send_follows s start pos o r : is_placed o = false → follows_log s start pos r → follows_log s start pos (sink_send detached o r).
Proof.
  intros Ho [H1 H2 H3]. destruct (sink_send_same o r) as (Ed & El & Eh & Er).
  assert (pieces (rd_out (sink_send detached o r)) = pieces (rd_out r)) as Ep by (destruct (sink_send_pieces o r) as [-> | ->]; [done|]; destruct o; try done; by rewrite app_nil_r).
  split; rewrite ?Ed, ?El, ?Eh, ?Er, ?Ep; done.
Qed.

(** Output that goes on from what is accounted for. *)
Lemma forward_follows s start pos at_ bytes r :
  (N.of_nat (length s) ≤ u64_max)%N → follows_log s start pos r → (rd_delivered r ≤ at_)%N → stands s at_ bytes → (at_ + N.of_nat (length bytes) ≤ N.of_nat (length s))%N →
  (rd_log r = true → (∀ n, detached n = false) → ∀ i, (pos ≤ i < at_)%N → known (pieces (rd_out r)) (rd_heard r) (rd_reads r) i) →
  let r' := forward detached at_ bytes r in
  follows_log s start (at_ + N.of_nat (length bytes)) r' ∧ rd_log r' = rd_log r ∧ rd_heard r' = rd_heard r ∧ rd_reads r' = rd_reads r ∧
  rd_delivered r' = (at_ + N.of_nat (length bytes))%N.
Proof.
  intros Hs [H1 H2 H3] Hat Hst Hlen Hgap. unfold forward. cbv zeta. set (r1 := rd_at _ r). destruct (sink_send_same (Placed at_ bytes) r1) as (Ed & El & Eh & Er).
  assert (rd_delivered r1 = (at_ + N.of_nat (length bytes))%N) as E1 by (unfold r1, OutputCursor.advanced, u64_saturating_add; cbn [rd_at rd_delivered]; lia).
  rewrite Ed, El, Eh, Er, E1. split_and!; try done. split; rewrite ?Ed, ?El, ?Eh, ?Er, ?E1; [|done|].
  - destruct (sink_send_pieces (Placed at_ bytes) r1) as [-> | ->]; [by apply (in_order_later _ _ _ (rd_delivered r)); [exact H1|lia]|].
    eapply heard_in_order_snoc; [exact H1|done|done|lia].
  - intros Hlog Hkept i Hi.
    assert (pieces (rd_out (sink_send detached (Placed at_ bytes) r1)) = pieces (rd_out r) ++ [(at_, bytes)]) as ->
      by (unfold sink_send, is_detached; rewrite Hkept; cbn [rd_sent rd_out rd_looked]; unfold pieces; by rewrite omap_app).
    destruct (decide (i < at_)%N) as [Hlt|Hge]; [|left; exists at_, bytes; split; [set_solver|lia]].
    assert (known (pieces (rd_out r)) (rd_heard r) (rd_reads r) i) as Hk by (destruct (decide (i < pos)%N); [apply H3; [done..|lia]|apply Hgap; [done..|lia]]).
    eapply known_more; [exact Hk|set_solver|done|done].
Qed.

(** Nothing more is forwarded, and nothing was to be found. *)
Lemma follows_on s start pos pos' r :
  follows_log s start pos r → (pos ≤ pos')%N →
  (rd_log r = true → (∀ n, detached n = false) → ∀ i, (pos ≤ i < pos')%N → known (pieces (rd_out r)) (rd_heard r) (rd_reads r) i) → follows_log s start pos' r.
Proof.
  intros [H1 H2 H3] Hle Hgap. split; [done|lia|]. intros Hlog Hkept i Hi. destruct (decide (i < pos)%N); [apply H3; [done..|lia]|apply Hgap; [done..|lia]].
Qed.
Lemma looked_follows s start pos r : follows_log s start pos r → follows_log s start pos (rd_looked r).
Proof. by intros []. Qed.
Lemma read_follows s start pos r : follows_log s start pos r → follows_log s start pos (rd_read r).
Proof. intros [H1 H2 H3]. split; [done..|]. intros Hlog Hkept i Hi. eapply known_more; [by apply H3|done|done|]. cbn. lia. Qed.

(** The log as a read that wants it up to [until] finds it: some state of the disk
    that held that much of the stream, or none that could be read. *)
Definition reads_stream (s : list N) (until : N) (look : nat → option Disk) : Prop :=
  (∃ d s', (∀ n, look n = Some d) ∧ placed d s' ∧ s' `prefix_of` s ∧ (until ≤ N.of_nat (length s'))%N) ∨ open_span look = Err tt.

Lemma stands_slice s (start stop : N) : (start ≤ stop ≤ N.of_nat (length s))%N →
  let bytes := take (N.to_nat (stop - start)) (drop (N.to_nat start) s) in length bytes = N.to_nat (stop - start) ∧ stands s start bytes.
Proof.
  intros Hle. cbv zeta. set (bytes := take _ _). assert (length bytes = N.to_nat (stop - start)) as El by (unfold bytes; rewrite length_take, length_drop; lia).
  split; [done|]. unfold stands. by rewrite El.
Qed.

Lemma forward_logged_follows s start until fuel next r :
  (N.of_nat (length s) ≤ u64_max)%N → (until ≤ N.of_nat (length s))%N → (∀ k, reads_stream s until (disk (rd_heard r) k)) →
  follows_log s start next r → (next ≤ until)%N → N.to_nat (until - next) < fuel →
  let r' := forward_logged disk detached fuel next until r in follows_log s start until r' ∧ rd_log r' = rd_log r ∧ rd_heard r' = rd_heard r.
Proof.
  intros Hs Hu. revert next r. induction fuel as [|fuel IH]; intros next r Hd Hf Hle Hfuel; [lia|]. cbn [forward_logged]. destruct (N.ltb_spec next until) as [Hlt|Hge].
  2: { replace until with next by lia. done. }
  unfold is_detached. destruct (detached (rd_checks r)) eqn:Edet.
  { split; [|done]. apply (follows_on _ _ next); [by apply looked_follows|lia|]. intros _ Hkept. by rewrite Hkept in Edet. }
  cbn [rd_looked rd_heard rd_reads]. pose proof (read_follows _ _ _ _ (looked_follows _ _ _ _ Hf)) as Hf1. change (rd_read _) with (rd_read (rd_looked r)).
  assert (∀ r1 lo, follows_log s start next r1 → rd_heard r1 = rd_heard r → rd_reads r < rd_reads r1 → (until ≤ lo)%N → (∀ i, (next ≤ i < lo)%N → gone (disk (rd_heard r) (rd_reads r)) i) →
    follows_log s start until r1) as Hlost.
  { intros r1 lo Hr1 Eh Hr Hlo Hg. apply (follows_on _ _ next); [done|lia|]. intros _ _ i Hi. right. exists (rd_heard r), (rd_reads r). split_and!; [lia|done|apply Hg; lia]. }
  destruct (Hd (rd_reads r)) as [(d & s' & Hlook & Hp & [more ->] & Hus)|Hfail].
  2: { unfold read_log_range. rewrite Hfail. split; [|done]. apply (Hlost _ until); [done|done|cbn; lia|lia|]. intros i _. unfold gone. by rewrite Hfail. }
  destruct (placed_range d s' (disk (rd_heard r) (rd_reads r)) next until CATCH_UP_CHUNK_BYTES Hp Hlook ltac:(lia)) as (oldest & Hold & (sp & Esp & Eold) & _ & Er). cbv zeta in Er. rewrite Er.
  set (lo := N.max next (N.of_nat oldest)) in *. set (stop := N.min _ _).
  assert (∀ i, (next ≤ i < lo)%N → gone (disk (rd_heard r) (rd_reads r)) i) as Hgone by (intros i Hi; unfold gone; rewrite Esp, Eold; lia).
  destruct (decide (until ≤ lo)%N) as [Hempty|Hsome].
  { replace (N.to_nat (stop - lo)) with 0 by lia. rewrite take_0. split; [|done]. by apply (Hlost _ lo); [done|done|cbn; lia|..]. }
  assert (lo < stop ≤ until)%N as Hstop by (unfold stop, CATCH_UP_CHUNK_BYTES; lia).
  destruct (stands_slice s' lo stop ltac:(lia)) as [El Hst]. cbv zeta in El, Hst. set (bytes := take (N.to_nat (stop - lo)) _) in *.
  destruct bytes as [|b bytes'] eqn:Eb; [cbn in El; lia|]. rewrite <-Eb in *. rewrite length_app in *.
  destruct (forward_follows (s' ++ more) start next lo bytes (rd_read (rd_looked r))) as (Hf2 & Elog & Eheard & _ & _); [rewrite length_app; lia|done|..].
  { pose proof (fl_behind _ _ _ _ Hf). cbn. lia. }
  { by apply stands_app. }
  { rewrite length_app. lia. }
  { intros _ _ i Hi. right. exists (rd_heard r), (rd_reads r). split_and!; [done|cbn; lia|by apply Hgone]. }
  cbv zeta in *. replace (lo + N.of_nat (length bytes))%N with stop in Hf2 by lia.
  assert (OutputCursor.advanced lo (N.of_nat (length bytes)) = stop) as -> by (unfold OutputCursor.advanced, u64_saturating_add; lia).
  destruct (IH stop (forward detached lo bytes (rd_read (rd_looked r)))) as (H1 & H2 & H3); [by rewrite Eheard|done|lia|lia|]. cbv zeta in *. rewrite H2, H3, Elog, Eheard. done.
Qed.

(** ** Messages *)
Lemma catch_up_follows s start pos end_ r :
  (N.of_nat (length s) ≤ u64_max)%N → (end_ ≤ N.of_nat (length s))%N → (∀ k, reads_stream s end_ (disk (rd_heard r) k)) →
  follows_log s start pos r → (start ≤ rd_delivered r)%N → (pos ≤ end_)%N → let r' := catch_up disk detached end_ r in follows_log s start end_ r' ∧ rd_log r' = rd_log r ∧ rd_heard r' = rd_heard r.
Proof.
  intros Hs He Hd Hf Hst Hle. unfold catch_up. pose proof (fl_behind _ _ _ _ Hf) as Hb. destruct (rd_log r) eqn:El.
  - rewrite <-El. apply forward_logged_follows; [done|done|done| |lia|lia]. destruct Hf as [H1 H2 H3]. split; [done|done|]. intros Hlog Hkept i Hi. apply H3; [done..|lia].
  - cbv zeta. split; [|done]. apply (follows_on _ _ pos); [done|done|]. by rewrite El.
Qed.

Lemma in_order_earlier s pos pos' ps fin : in_order s pos ps fin → (pos' ≤ pos)%N → in_order s pos' ps fin.
Proof. destruct ps as [|[a b] ps]; cbn [in_order]; [lia|]. intros (? & ? & ?) ?. split_and!; [lia|done|done]. Qed.
Lemma in_order_from s pos ps fin : in_order s pos ps fin → (pos ≤ fin)%N.
Proof. revert pos. induction ps as [|[a b] ps IH]; intros pos; cbn [in_order]; [done|]. intros (? & _ & ?%IH). lia. Qed.

Lemma hear_follows show s start pos m r :
  (N.of_nat (length s) ≤ u64_max)%N → chained s pos [m] → (∀ k, reads_stream s (trail_step pos m) (disk (S (rd_heard r)) k)) → follows_log s start pos r →
  let r' := (hear disk detached show (Ok m) r).2 in follows_log s start (trail_step pos m) r' ∧ rd_log r' = rd_log r ∧ rd_heard r' = S (rd_heard r).
Proof.
  intros Hs [Hm Hc] Hd Hf. cbn [chained] in Hc. set (exiting := match m with Exited_ _ => true | _ => rd_exit_held r end).
  assert (follows_log s start pos (rd_hear exiting r)) as Hf1.
  { destruct Hf as [H1 H2 H3]. split; [done..|]. intros Hlog Hkept i Hi. eapply known_more; [by apply H3|done| |done]. cbn. lia. }
  assert (∀ o r1, is_placed o = false → follows_log s start (trail_step pos m) r1 ∧ rd_log r1 = rd_log r ∧ rd_heard r1 = S (rd_heard r) →
    follows_log s start (trail_step pos m) (sink_send detached o r1) ∧ rd_log (sink_send detached o r1) = rd_log r ∧ rd_heard (sink_send detached o r1) = S (rd_heard r)) as Hsend.
  { intros o r1 Ho (H1 & H2 & H3). destruct (sink_send_same o r1) as (_ & -> & -> & _). split_and!; [by apply sink_send_follows|done|done]. }
  unfold hear. cbv zeta. destruct m; cbn [trail_step snd] in *; try (by apply Hsend); [| |by split_and!].
  - apply Hsend; [done|]. apply Hsend; [done|]. refine (catch_up_follows s start pos log_end (rd_hear exiting r) Hs Hc Hd Hf1 _ Hm). cbn [rd_hear rd_delivered]. eapply in_order_from, Hf.
  - destruct Hm as [-> Hst]. destruct (forward_follows s start pos pos bytes (rd_hear exiting r)) as (H1 & H2 & H3 & _); [done|done|apply Hf1|done|done|intros; lia|done].
Qed.

Lemma hear_all_follows show s start ms pos r :
  (N.of_nat (length s) ≤ u64_max)%N → chained s pos ms → (∀ n k, reads_stream s (trail_end pos (take n ms)) (disk (rd_heard r + n) k)) → follows_log s start pos r →
  let r' := (hear_all disk detached show (Ok <$> ms) r).2 in
  follows_log s start (trail_end pos (take (rd_heard r' - rd_heard r) ms)) r' ∧ rd_log r' = rd_log r ∧ rd_heard r ≤ rd_heard r'.
Proof.
  intros Hs. revert pos r. induction ms as [|m ms IH]; intros pos r Hc Hd Hf; cbn [fmap list_fmap hear_all].
  { cbv zeta. cbn [snd]. rewrite take_nil. by split_and!. }
  destruct (proj1 (chained_app s pos [m] ms) Hc) as [Hm Hrest]. change (trail_end pos [m]) with (trail_step pos m) in Hrest.
  destruct (hear_follows show s start pos m r Hs Hm) as (H1 & H2 & H3); [|done|].
  { intros k. specialize (Hd 1 k). cbn [take] in Hd. rewrite Nat.add_1_r in Hd. exact Hd. }
  destruct (hear disk detached show (Ok m) r) as [[] r1] eqn:Eh; cbn [snd] in *.
  - destruct (IH (trail_step pos m) r1 Hrest) as (G1 & G2 & G3); [|done|].
    { intros n k. specialize (Hd (S n) k). cbn [take] in Hd. rewrite H3. replace (S (rd_heard r) + n) with (rd_heard r + S n) by lia. exact Hd. }
    cbv zeta in *. set (r' := (hear_all _ _ _ _ r1).2) in *. rewrite G2. split_and!; [|done|lia]. replace (rd_heard r' - rd_heard r) with (S (rd_heard r' - rd_heard r1)) by lia. exact G1.
  - cbv zeta. split_and!; [|done|lia]. replace (rd_heard r1 - rd_heard r) with 1 by lia. cbn [take]. rewrite take_0. exact H1.
  - cbv zeta. split_and!; [|done|lia]. replace (rd_heard r1 - rd_heard r) with 1 by lia. cbn [take]. rewrite take_0. exact H1.
Qed.
End heard.

Section served.
Context `{VtParser, Backend}.
Context `{Json ExitOutcomeWire, Json RejectReason, Json rstr}.
Context (io : LogFile.Io) (allows : nat → bool).
Context (Hrecords : ∀ n, io_records io n = true) (Hstats : ∀ n, io_stats io n = true).

(** The log as a reader that wants it up to [until] finds it: a state the holder's
    disk was in that held that much, or none that could be read. *)
Definition finds_log (h : HolderServer) (until : N) (look : nat → option Disk) : Prop :=
  (∃ d s, (∀ n, look n = Some d) ∧ (d, s) ∈ history (hs_disk h) ∧ (until ≤ N.of_nat (length s))%N) ∨ open_span look = Err tt.

Lemma finds_reads h until look : sound (hs_disk h) → finds_log h until look → reads_stream (wr_stream (hs_disk h)) until look.
Proof.
  intros [Hp Hs] [(d & s & Hlook & Hin & Hu)|Hf]; [left|by right]. exists d, s. split_and!; [done| |..|done].
  - rewrite Forall_forall in Hp. by apply (Hp _ Hin).
  - apply elem_of_cons in Hin as [[= _ ->]|Hin]; [done|]. apply StronglySorted_inv in Hs as [_ Hs]. rewrite Forall_forall in Hs. by apply (Hs _ Hin).
Qed.

(** The backlog: a piece of the stream that ends where the messages begin. *)
Lemma backlog_stands look s e from :
  (N.of_nat (length s) ≤ u64_max)%N → (e ≤ N.of_nat (length s))%N → reads_stream s e look → (e - BACKLOG_MAX_BYTES ≤ from < e)%N →
  match read_log_range look from e BACKLOG_MAX_BYTES with
  | Ok (at_, b :: bytes) =>
    (from ≤ at_)%N ∧ stands s at_ (b :: bytes) ∧ (at_ + N.of_nat (length (b :: bytes)))%N = e ∧ (∀ i, (from ≤ i < at_)%N → gone look i)
  | _ => ∀ i, (from ≤ i < e)%N → gone look i
  end.
Proof.
  intros Hs He [(d & s' & Hlook & Hp & [more ->] & Hu)|Hf] Hfrom.
  2: { unfold read_log_range, gone. by rewrite Hf. }
  destruct (placed_range d s' look from e BACKLOG_MAX_BYTES Hp Hlook ltac:(lia)) as (oldest & Hold & (sp & Esp & Eold) & _ & Er). cbv zeta in Er. rewrite Er.
  set (lo := N.max from (N.of_nat oldest)) in *. set (stop := N.min _ _). unfold gone. rewrite Esp, Eold. rewrite length_app in *.
  destruct (decide (e ≤ lo)%N) as [Hempty|Hsome]; [replace (N.to_nat (stop - lo)) with 0 by lia; rewrite take_0; lia|].
  assert (stop = e) as -> by (unfold stop, BACKLOG_MAX_BYTES in *; lia). destruct (stands_slice s' lo e ltac:(lia)) as [El Hst]. cbv zeta in *.
  destruct (take (N.to_nat (e - lo)) _) as [|b bytes]; [cbn in El; lia|]. split_and!; [lia|by apply stands_app|rewrite El; lia|lia].
Qed.

End served.

(** The holder of HolderWitness.v, heard by its service. *)
Module HeardWitness.
Export HolderWitness.HolderWitness.
#[local] Existing Instance TermScan.TermWitness.small_vt.
#[local] Existing Instance Frame.Witness.outcome_json.
#[local] Existing Instance Frame.Witness.reason_json.
#[local] Existing Instance Frame.Witness.text_json.
#[local] Existing Instance HolderWitness.HolderWitness.paper.

Definition heard_holder : HolderServer := said (greeted ++ [Holder.Chunk one]).
Definition its_sent : list HolderMessage := sent (cl_outbox (supervisor_entry heard_holder)).
Definition first_message : HolderMessage := default (Attached 0) (head its_sent).
Definition its_greeting : Greeting :=
  match greet (Ok tt) (Ok first_message) with
  | Ok g => g
  | Err _ => {| gr_repaint := []; gr_size := screen_size; gr_pid := 0; gr_attached := 0; gr_run_start := 0; gr_log_end := 0 |}
  end.
Definition its_disk : nat → option Disk := λ _, Some (wr_disk (hs_disk heard_holder)).

Lemma its_disk_finds until : (until <=? N.of_nat (length (wr_stream (hs_disk heard_holder))))%N = true → finds_log heard_holder until its_disk.
Proof. intros Hu%N.leb_le. left. exists (wr_disk (hs_disk heard_holder)), (wr_stream (hs_disk heard_holder)). split_and!; [done|apply list_elem_of_here|done]. Qed.

End HeardWitness.
