(* ===== verification/Attach.v ===== *)
(** * A terminal attached to a process

    Models muster-workspace/src/cli: detach_scanner.rs with parsed.rs,
    key_press.rs, held_sequence.rs and scan_result.rs (the detach key found in
    what is typed), held_terminal.rs and raw_mode_guard.rs (the person's terminal
    in raw mode, and given back), attach_pump.rs with attach_event.rs,
    attach_end.rs and ending_signal.rs (the session), and the part of attach.rs
    that runs it.

    The session's channel is [inbox], the events in the order they were sent;
    each round of its loop is a [Turn], with the time, the alarm it finds and
    whether an event arrives before it looks again. The system answers by how
    often it was asked: whether a write to the terminal went through ([draws]),
    its size ([size_at]), and what a write to the holder failed with
    ([fails]). *)
From S2P Require Import Prelude RustText Values Config Process Frame Tap LogFile LogSpan Terminal Screen Emulator WaitData LogRead Books SupState HolderClient.

(** ** The detach key *)
Definition MODIFY_OTHER_KEYS_FINAL : rchar := 126.
Definition MODIFY_OTHER_KEYS : N := 27.
Definition NO_MODIFIERS : N := 1.
Definition RELEASE_EVENT : N := 3.
Definition LOCK_MODIFIERS : N := N.lor 64 128.
Definition MAX_PENDING : nat := 32.

(** A key code and the modifiers held with it. *)
Definition KeyPress : Type := N * N.

Definition key_press (params : list (list N)) (action : rchar) : option KeyPress :=
  let pressed code modifiers := if (modifiers =? 0)%N then None else Some (code, N.ldiff (modifiers - 1) LOCK_MODIFIERS) in
  if (action =? KITTY_FINAL)%N then
    match params with
    | (code :: _) :: fields =>
      let modifier := default [] (head fields) in
      if bool_decide (modifier !! 1 = Some RELEASE_EVENT) then None
      else pressed code (N.max (default 0%N (head modifier)) NO_MODIFIERS)
    | _ => None
    end
  else if (action =? MODIFY_OTHER_KEYS_FINAL)%N then
    match param_values params with
    | [first; modifiers; code] => if (first =? MODIFY_OTHER_KEYS)%N then pressed code modifiers else None
    | _ => None
    end
  else None.

Record Parsed := { pa_completed : bool; pa_press : option KeyPress }.
Definition parsed_default : Parsed := {| pa_completed := false; pa_press := None |}.
Definition parsed_perform (p : Parsed) (d : Dispatch) : Parsed :=
  match d with
  | DPrint _ | DExecute _ | DHook | DEsc _ _ _ => {| pa_completed := true; pa_press := pa_press p |}
  | DCsi params intermediates ignore action =>
    {| pa_completed := true; pa_press := if bool_decide (intermediates = []) && negb ignore then key_press params action else pa_press p |}
  | DPut _ | DUnhook | DOsc => p
  end.

Inductive HeldSequence := Partial | HDetach | Other.
Record ScanResult := { sr_forward : list N; sr_detached : bool }.

Section scanner.
Context `{VtParser}.

Record DetachScanner := { dk_legacy : N; dk_kitty : option KeyPress; dk_parser : BoundedParser; dk_pending : list N }.
Definition detach_scanner_new (key : rstr) : DetachScanner :=
  {| dk_legacy := DetachKey.legacy_byte key;
     dk_kitty := pa_press (foldl parsed_perform parsed_default (advance (DetachKey.kitty_sequence key) parser_new).1);
     dk_parser := parser_new; dk_pending := [] |}.

Definition put_pending (parser : BoundedParser) (pending : list N) (s : DetachScanner) : DetachScanner :=
  {| dk_legacy := dk_legacy s; dk_kitty := dk_kitty s; dk_parser := parser; dk_pending := pending |}.

Definition flush (s : DetachScanner) : list N * DetachScanner := (dk_pending s, put_pending parser_new [] s).
Definition has_pending (s : DetachScanner) : bool := negb (bool_decide (dk_pending s = [])).

Definition classify (byte : N) (s : DetachScanner) : HeldSequence * DetachScanner :=
  let '(calls, parser) := advance [byte] (dk_parser s) in
  let parsed := foldl parsed_perform parsed_default calls in
  (if pa_completed parsed then
     if bool_decide (is_Some (dk_kitty s)) && bool_decide (pa_press parsed = dk_kitty s) then HDetach else Other
   else if bool_decide (dk_pending s = [ESC]) || (bool_decide (CSI `prefix_of` dk_pending s) && (length (dk_pending s) <=? MAX_PENDING)) then Partial
   else Other,
   put_pending parser (dk_pending s) s).

(** One byte: whether it ends the session, and what is passed on. *)
Definition feed_byte (byte : N) (s : DetachScanner) : bool * list N * DetachScanner :=
  if (byte =? dk_legacy s)%N then let '(held, s) := flush s in (true, held, s) else
  let '(held, s) := if (byte =? ESC)%N then flush s else ([], s) in
  if negb (byte =? ESC)%N && bool_decide (dk_pending s = []) then (false, [byte], s) else
  let '(verdict, s) := classify byte (put_pending (dk_parser s) (dk_pending s ++ [byte]) s) in
  match verdict with
  | Partial => (false, held, s)
  | HDetach => (true, held, (flush s).2)
  | Other => let '(rest, s) := flush s in (false, held ++ rest, s)
  end.

Fixpoint feed (bytes : list N) (s : DetachScanner) : ScanResult * DetachScanner :=
  match bytes with
  | [] => ({| sr_forward := []; sr_detached := false |}, s)
  | byte :: bytes =>
    let '(ends, passed, s) := feed_byte byte s in
    if (ends : bool) then ({| sr_forward := passed; sr_detached := true |}, s)
    else let '(r, s) := feed bytes s in ({| sr_forward := passed ++ sr_forward r; sr_detached := sr_detached r |}, s)
  end.

(** ** The terminal taken over *)
Definition PUSH_TITLE : rstr := CSI ++ lit "22;0t".
Definition POP_TITLE : rstr := CSI ++ lit "23;0t".
Definition TITLE_START : rstr := ESC :: lit "]2;".
Definition TITLE_END : rstr := [BEL].
Definition LEAVE_ALT_SCREEN : rstr := CSI ++ lit "?1049l".
Definition KITTY_KEYBOARD_RESET : rstr := CSI ++ lit "<64u" ++ CSI ++ lit "=0;1u".
Definition CHARSET_ASCII : rstr := ESC :: lit "(B" ++ [15]%N.
Definition INSERT_MODE_OFF : rstr := CSI ++ lit "4l".
Definition NEWLINE_MODE_OFF : rstr := CSI ++ lit "20l".
Definition REVERSE_VIDEO_OFF : rstr := CSI ++ lit "?5l".
Definition BRACKETED_PASTE_OFF : rstr := CSI ++ lit "?2004l".
Definition MOUSE_OFF : rstr :=
  CSI ++ lit "?9l" ++ CSI ++ lit "?1000l" ++ CSI ++ lit "?1001l" ++ CSI ++ lit "?1002l" ++ CSI ++ lit "?1003l" ++
  CSI ++ lit "?1005l" ++ CSI ++ lit "?1006l" ++ CSI ++ lit "?1015l" ++ CSI ++ lit "?1016l".
Definition FOCUS_REPORTING_OFF : rstr := CSI ++ lit "?1004l".
Definition KEYS_NORMAL : rstr := CSI ++ lit "?1l" ++ ESC :: lit ">".
Definition MODIFY_OTHER_KEYS_DEFAULT : rstr := CSI ++ lit ">4m".
Definition SCROLL_REGION_RESET : rstr := ESC :: lit "7" ++ CSI ++ lit "r" ++ ESC :: lit "8".
Definition AUTOWRAP_ON : rstr := CSI ++ lit "?7h".
Definition CURSOR_SHAPE_DEFAULT : rstr := CSI ++ lit "0 q".
Definition CURSOR_SHOWN : rstr := CSI ++ lit "?25h".
Definition ORIGIN_MODE_OFF : rstr := CSI ++ lit "?6l".
Definition MODES_RESET : list rstr :=
  [CHARSET_ASCII; INSERT_MODE_OFF; NEWLINE_MODE_OFF; REVERSE_VIDEO_OFF; BRACKETED_PASTE_OFF; MOUSE_OFF; FOCUS_REPORTING_OFF; KEYS_NORMAL;
   MODIFY_OTHER_KEYS_DEFAULT; SCROLL_REGION_RESET; SGR_RESET; AUTOWRAP_ON; CURSOR_SHAPE_DEFAULT; CURSOR_SHOWN; KITTY_KEYBOARD_RESET].
Definition CURSOR_HOME : rstr := CSI ++ lit "H".
Definition ERASE_SCREEN : rstr := CSI ++ lit "2J".
Definition SESSION_END : rstr := [13; 10]%N ++ CSI ++ lit "J".
Definition FIRST_COLUMN : N := 1.

(** [ht_raw] is whether its settings are raw, [ht_writes] what was written, with
    whether it went through, newest last. *)
Record HeldTerminal := {
  ht_scanner : ModeScanner;
  ht_alternate : bool;
  ht_restored : bool;
  ht_raw : bool;
  ht_writes : list (list N * bool);
}.

Definition follow (st : ModeScanner * bool) (byte : N) : ModeScanner * bool :=
  let '(seen, scanner) := scan_byte byte st.1 in
  (scanner, match seen with OEnterAlternate => true | OLeaveAlternate | OFullReset => false | _ => st.2 end).

Section terminal.
Context (is_format : rchar → bool) (draws : nat → bool).

Definition write (bytes : list N) (t : HeldTerminal) : bool * HeldTerminal :=
  let '(scanner, alternate) := foldl follow (ht_scanner t, ht_alternate t) bytes in
  let ok := draws (length (ht_writes t)) in
  (ok, {| ht_scanner := scanner; ht_alternate := alternate; ht_restored := ht_restored t; ht_raw := ht_raw t; ht_writes := ht_writes t ++ [(bytes, ok)] |}).
(** [a.and_then(b)] of two draws. *)
Definition also (b : HeldTerminal → bool * HeldTerminal) (a : bool * HeldTerminal) : bool * HeldTerminal := if a.1 then b a.2 else a.

(** [read] and [set] are whether the settings could be read and changed. *)
Definition enter (read set : bool) : option HeldTerminal * bool :=
  if negb (read && set) then (None, false) else
  let t := {| ht_scanner := scanner_new; ht_alternate := false; ht_restored := false; ht_raw := true; ht_writes := [] |} in
  let '(ok, t) := write PUSH_TITLE t in
  (if ok then Some t else None, ht_raw t).

Definition set_title (title : rstr) : HeldTerminal → bool * HeldTerminal := write (TITLE_START ++ into_bytes (printable is_format title) ++ TITLE_END).

Definition reset (homing : bool) (t : HeldTerminal) : bool * HeldTerminal :=
  also (λ t, write ((if homing || md_origin (sc_modes (ht_scanner t)) then ORIGIN_MODE_OFF else []) ++ concat MODES_RESET) t)
    (if ht_alternate t then write (KITTY_KEYBOARD_RESET ++ LEAVE_ALT_SCREEN) t else (true, t)).
Definition clear_for_first_screen (rows : N) (t : HeldTerminal) : bool * HeldTerminal :=
  also (write (cursor_position rows FIRST_COLUMN ++ repeat LINE_FEED (N.to_nat rows) ++ CURSOR_HOME)) (reset true t).
Definition clear_for_resync (t : HeldTerminal) : bool * HeldTerminal := also (write (CURSOR_HOME ++ ERASE_SCREEN)) (reset true t).

Definition mark_restored (t : HeldTerminal) : HeldTerminal :=
  {| ht_scanner := ht_scanner t; ht_alternate := ht_alternate t; ht_restored := true; ht_raw := ht_raw t; ht_writes := ht_writes t |}.
(** The settings found are set again whatever was written. *)
Definition restore (t : HeldTerminal) : bool * HeldTerminal :=
  if ht_restored t then (true, t) else
  let '(written, t) := also (write (SESSION_END ++ POP_TITLE)) (reset false (mark_restored t)) in
  (written, {| ht_scanner := ht_scanner t; ht_alternate := ht_alternate t; ht_restored := ht_restored t; ht_raw := false; ht_writes := ht_writes t |}).
End terminal.
End scanner.

(** ** What the scanner passes on *)
Section scanned.
Context `{VtParser}.

(** A parser fed byte by byte, as the scanner feeds it what it holds. *)
Definition parse_each (bytes : list N) : BoundedParser := foldl (λ p byte, (advance [byte] p).2) parser_new bytes.
(** What the last of the bytes made it dispatch. *)
Definition dispatched (held : list N) (byte : N) : Parsed := foldl parsed_perform parsed_default (advance [byte] (parse_each held)).1.

(** The bytes of the detach key: the one a plain terminal sends, or a control
    sequence that reports the key's press. *)
Definition is_detach (legacy : N) (kitty : option KeyPress) (key : list N) : Prop :=
  key = [legacy] ∨
  ∃ held byte, key = held ++ [byte] ∧ head key = Some ESC ∧ legacy ∉ key ∧ is_Some kitty ∧ pa_completed (dispatched held byte) = true ∧ pa_press (dispatched held byte) = kitty.

(** A scanner between two bytes: what it holds started with an escape, is short, and
    is what its parser was fed. *)
Record scanning (s : DetachScanner) : Prop := {
  sg_parser : dk_parser s = parse_each (dk_pending s);
  sg_escape : dk_pending s ≠ [] → head (dk_pending s) = Some ESC;
  sg_short : length (dk_pending s) ≤ MAX_PENDING;
  sg_legacy : dk_legacy s ∉ dk_pending s;
}.

Lemma flushed_scanning s : scanning (flush s).2.
Proof. split; [done|done|cbn; lia|apply not_elem_of_nil]. Qed.
Lemma scanner_new_scanning key : scanning (detach_scanner_new key).
Proof. split; [done|done|cbn; lia|apply not_elem_of_nil]. Qed.

Lemma feed_byte_same byte s : dk_legacy (feed_byte byte s).2 = dk_legacy s ∧ dk_kitty (feed_byte byte s).2 = dk_kitty s.
Proof.
  unfold feed_byte, classify, flush. destruct (_ =? _)%N; [done|]. destruct (byte =? ESC)%N; cbn [negb andb dk_pending put_pending];
    [|destruct (bool_decide (dk_pending s = [])); [done|]]; destruct (advance _ _) as [calls q]; destruct (pa_completed _); repeat (destruct (_ && _) || destruct (_ || _)); done.
Qed.

(** A byte added to what is held. *)
Lemma held_byte byte s :
  scanning s → byte ≠ dk_legacy s → (dk_pending s = [] → byte = ESC) →
  let '(verdict, s') := classify byte (put_pending (dk_parser s) (dk_pending s ++ [byte]) s) in
  match verdict with
  | Partial => scanning s' ∧ dk_pending s' = dk_pending s ++ [byte]
  | HDetach => is_detach (dk_legacy s) (dk_kitty s) (dk_pending s ++ [byte])
  | Other => dk_pending s' = dk_pending s ++ [byte]
  end.
Proof.
  intros [Hp He Hs Hl] Hb Hn. unfold classify. cbn [put_pending dk_parser dk_pending dk_kitty dk_legacy]. rewrite Hp.
  assert (head (dk_pending s ++ [byte]) = Some ESC) as Hh by (destruct (dk_pending s); [cbn; by rewrite Hn|by apply He]).
  assert (dk_legacy s ∉ dk_pending s ++ [byte]) as Hl' by (rewrite elem_of_app, list_elem_of_singleton; naive_solver).
  assert (parse_each (dk_pending s ++ [byte]) = (advance [byte] (parse_each (dk_pending s))).2) as Hq by (unfold parse_each; by rewrite foldl_app).
  pose proof (eq_refl (dispatched (dk_pending s) byte)) as Hd. unfold dispatched at 1 in Hd. destruct (advance [byte] (parse_each (dk_pending s))) as [calls q]. cbn [fst snd] in Hd, Hq. rewrite Hd.
  destruct (pa_completed (dispatched _ _)) eqn:Ec.
  - destruct (bool_decide (is_Some _) && bool_decide _) eqn:Ek; [|done]. apply andb_true_iff in Ek as [Ek1%bool_decide_eq_true Ek2%bool_decide_eq_true].
    right. exists (dk_pending s), byte. by split_and!.
  - destruct (bool_decide (_ = [ESC]) || _) eqn:Ep; [|done]. split; [|done]. split; cbn [put_pending dk_parser dk_pending dk_legacy]; [done|done| |done].
    apply orb_true_iff in Ep as [->%bool_decide_eq_true|[_ Hlen%Nat.leb_le]%andb_true_iff]; [cbn; unfold MAX_PENDING; lia|done].
Qed.

Lemma feed_byte_spec byte s :
  scanning s →
  let '(ends, passed, s') := feed_byte byte s in
  scanning s' ∧
  if (ends : bool) then ∃ key, dk_pending s ++ [byte] = passed ++ key ∧ is_detach (dk_legacy s) (dk_kitty s) key
  else dk_pending s ++ [byte] = passed ++ dk_pending s'.
Proof.
  intros Hs. unfold feed_byte. destruct (N.eqb_spec byte (dk_legacy s)) as [->|Hb]; [split; [apply flushed_scanning|]; exists [dk_legacy s]; split; [done|by left]|].
  destruct (N.eqb_spec byte ESC) as [->|He]; cbn [negb andb flush].
  - pose proof (held_byte ESC (put_pending parser_new [] s) (flushed_scanning s) Hb ltac:(done)) as Hc. cbn [put_pending dk_parser dk_pending app] in *.
    destruct (classify ESC _) as [[] s']; cbn [flush].
    + destruct Hc as [H1 H2]. split; [done|]. by rewrite H2.
    + split; [apply flushed_scanning|]. by exists [ESC].
    + split; [apply flushed_scanning|]. rewrite Hc. cbn. by rewrite app_nil_r.
  - destruct (bool_decide_reflect (dk_pending s = [])) as [E|Hne]; [split; [done|]; by rewrite E|].
    pose proof (held_byte byte s Hs Hb ltac:(done)) as Hc. destruct (classify byte _) as [[] s']; cbn [flush app].
    + destruct Hc as [H1 H2]. split; [done|]. by rewrite H2.
    + split; [apply flushed_scanning|]. by exists (dk_pending s ++ [byte]).
    + split; [apply flushed_scanning|]. rewrite Hc. cbn. by rewrite app_nil_r.
Qed.

Lemma feed_spec bytes s :
  scanning s →
  let '(r, s') := feed bytes s in
  scanning s' ∧ dk_legacy s' = dk_legacy s ∧ dk_kitty s' = dk_kitty s ∧
  if sr_detached r then ∃ key rest, dk_pending s ++ bytes = sr_forward r ++ key ++ rest ∧ is_detach (dk_legacy s) (dk_kitty s) key
  else dk_pending s ++ bytes = sr_forward r ++ dk_pending s'.
Proof.
  revert s. induction bytes as [|byte bytes IH]; intros s Hs; cbn [feed]; [split_and!; [done..|cbn; by rewrite app_nil_r]|].
  pose proof (feed_byte_spec byte s Hs) as Hb. destruct (feed_byte_same byte s) as [El Ek]. destruct (feed_byte byte s) as [[ends passed] s1]. cbn [snd] in *. destruct Hb as [Hs1 Hb]. destruct ends.
  - split_and!; [done..|]. destruct Hb as (key & E & Hk). exists key, bytes. split; [|done]. cbn [sr_forward]. rewrite app_assoc, <-E, <-app_assoc. done.
  - specialize (IH s1 Hs1). destruct (feed bytes s1) as [r s']. cbn [sr_forward sr_detached]. destruct IH as (H1 & H2 & H3 & IH). rewrite El, Ek in *. split_and!; [done|congruence|congruence|].
    assert (dk_pending s ++ byte :: bytes = passed ++ dk_pending s1 ++ bytes) as E by (rewrite (app_assoc passed), <-Hb, <-app_assoc; done). rewrite E.
    destruct (sr_detached r); [destruct IH as (key & rest & -> & Hk); exists key, rest; by rewrite <-!app_assoc|by rewrite IH, <-!app_assoc].
Qed.

(** The byte a plain terminal sends for the key always ends the session. *)
Lemma feed_legacy bytes s : dk_legacy s ∈ bytes → sr_detached (feed bytes s).1 = true.
Proof.
  revert s. induction bytes as [|byte bytes IH]; intros s Hin; [by apply elem_of_nil in Hin|]. cbn [feed]. destruct (feed_byte_same byte s) as [El _].
  destruct (N.eqb_spec byte (dk_legacy s)) as [->|Hne].
  { unfold feed_byte. rewrite N.eqb_refl. done. }
  destruct (feed_byte byte s) as [[ends passed] s1]. cbn [snd] in El. destruct ends; [done|]. apply elem_of_cons in Hin as [?|Hin]; [by destruct Hne|]. rewrite <-El in Hin. specialize (IH s1 Hin).
  by destruct (feed bytes s1).
Qed.

(** Feeding what is typed in one piece or in several is the same. *)
Lemma feed_app a b s :
  feed (a ++ b) s =
  let '(r, s) := feed a s in
  if sr_detached r then (r, s) else let '(r', s) := feed b s in ({| sr_forward := sr_forward r ++ sr_forward r'; sr_detached := sr_detached r' |}, s).
Proof.
  revert s. induction a as [|byte a IH]; intros s; cbn [app feed sr_detached sr_forward]; [destruct (feed b s) as [[f d] s']; done|].
  destruct (feed_byte byte s) as [[ends passed] s1]. destruct ends; [done|]. rewrite IH. destruct (feed a s1) as [[f d] s2]. cbn [sr_detached sr_forward]. destruct d; [done|].
  destruct (feed b s2) as [[f' d'] s3]. cbn [sr_forward sr_detached]. by rewrite app_assoc.
Qed.

(** What is typed, chunk after chunk, until the detach key. *)
Fixpoint feeds (chunks : list (list N)) (s : DetachScanner) : ScanResult * DetachScanner :=
  match chunks with
  | [] => ({| sr_forward := []; sr_detached := false |}, s)
  | chunk :: chunks =>
    let '(r, s) := feed chunk s in
    if sr_detached r then (r, s)
    else let '(r', s) := feeds chunks s in ({| sr_forward := sr_forward r ++ sr_forward r'; sr_detached := sr_detached r' |}, s)
  end.
Lemma feeds_feed chunks s : feeds chunks s = feed (concat chunks) s.
Proof.
  revert s. induction chunks as [|c chunks IH]; intros s; cbn [feeds concat]; [done|]. rewrite feed_app. destruct (feed c s) as [r s1]. destruct (sr_detached r); [done|]. by rewrite IH.
Qed.

End scanned.
