(* ===== verification/AttachPump.v ===== *)
(** * An attach session

    Models muster-workspace/src/cli/attach_pump.rs and the session of attach.rs
    over the scanner and the terminal of Attach.v, and proves that a session
    passes on what is typed, all of it and in order, that a read-only one sends
    nothing, and that the terminal is given back. *)
From S2P Require Import Prelude RustText Values Config Process Frame Tap LogFile LogSpan Terminal Screen Emulator TermScan WaitData LogRead Books SupState HolderClient Attach.

(** Durations and instants in nanoseconds. *)
Definition ESCAPE_WAIT : N := 20 * 1000000.
Definition RESIZE_WAIT : N := 30 * 1000000.

Inductive EndingSignal := Hangup | Terminate_.
Inductive AttachEnd := Detached | AExited (outcome : ExitOutcome) | Signalled (signal : EndingSignal).
(** What a connection was lost by: an error of it, or a helper thread. *)
Inductive LostBy := ByHolder (e : HolderError) | ByHelper.
Inductive CliError := AttachLost (source : LostBy) | TerminalFailed.

Inductive AttachEvent :=
| Typed (bytes : list N)
| InputClosed
| FromHolder (message : HolderMessage)
| HolderLost (e : HolderError)
| HelperFailed
| Resized
| Ended (signal : EndingSignal).

Section session.
Context `{VtParser}.
Context (is_format : rchar → bool) (draws : nat → bool) (size_at : nat → option PtySize) (fails : nat → option HolderError).

Record AttachPump := {
  ap_screen : HeldTerminal;
  ap_scanner : DetachScanner;
  ap_read_only : bool;
  ap_held_since : option N;
  ap_resize_since : option N;
  ap_backlog : list AttachEvent;
  ap_dropped_input : bool;
  ap_sent : list ClientMessage;
  ap_sends : nat;
  ap_asks : nat;
}.
Definition pump_new (screen : HeldTerminal) (scanner : DetachScanner) (read_only : bool) : AttachPump :=
  {| ap_screen := screen; ap_scanner := scanner; ap_read_only := read_only; ap_held_since := None; ap_resize_since := None; ap_backlog := [];
     ap_dropped_input := false; ap_sent := []; ap_sends := 0; ap_asks := 0 |}.

Definition put_screen (screen : HeldTerminal) (p : AttachPump) : AttachPump :=
  {| ap_screen := screen; ap_scanner := ap_scanner p; ap_read_only := ap_read_only p; ap_held_since := ap_held_since p; ap_resize_since := ap_resize_since p;
     ap_backlog := ap_backlog p; ap_dropped_input := ap_dropped_input p; ap_sent := ap_sent p; ap_sends := ap_sends p; ap_asks := ap_asks p |}.
Definition put_scanner (scanner : DetachScanner) (held_since : option N) (p : AttachPump) : AttachPump :=
  {| ap_screen := ap_screen p; ap_scanner := scanner; ap_read_only := ap_read_only p; ap_held_since := held_since; ap_resize_since := ap_resize_since p;
     ap_backlog := ap_backlog p; ap_dropped_input := ap_dropped_input p; ap_sent := ap_sent p; ap_sends := ap_sends p; ap_asks := ap_asks p |}.
Definition put_resize (resize_since : option N) (p : AttachPump) : AttachPump :=
  {| ap_screen := ap_screen p; ap_scanner := ap_scanner p; ap_read_only := ap_read_only p; ap_held_since := ap_held_since p; ap_resize_since := resize_since;
     ap_backlog := ap_backlog p; ap_dropped_input := ap_dropped_input p; ap_sent := ap_sent p; ap_sends := ap_sends p; ap_asks := ap_asks p |}.
Definition put_backlog (backlog : list AttachEvent) (p : AttachPump) : AttachPump :=
  {| ap_screen := ap_screen p; ap_scanner := ap_scanner p; ap_read_only := ap_read_only p; ap_held_since := ap_held_since p; ap_resize_since := ap_resize_since p;
     ap_backlog := backlog; ap_dropped_input := ap_dropped_input p; ap_sent := ap_sent p; ap_sends := ap_sends p; ap_asks := ap_asks p |}.
Definition put_dropped (dropped : bool) (p : AttachPump) : AttachPump :=
  {| ap_screen := ap_screen p; ap_scanner := ap_scanner p; ap_read_only := ap_read_only p; ap_held_since := ap_held_since p; ap_resize_since := ap_resize_since p;
     ap_backlog := ap_backlog p; ap_dropped_input := dropped; ap_sent := ap_sent p; ap_sends := ap_sends p; ap_asks := ap_asks p |}.
Definition put_sent (sent : list ClientMessage) (p : AttachPump) : AttachPump :=
  {| ap_screen := ap_screen p; ap_scanner := ap_scanner p; ap_read_only := ap_read_only p; ap_held_since := ap_held_since p; ap_resize_since := ap_resize_since p;
     ap_backlog := ap_backlog p; ap_dropped_input := ap_dropped_input p; ap_sent := sent; ap_sends := S (ap_sends p); ap_asks := ap_asks p |}.
Definition put_asks (p : AttachPump) : AttachPump :=
  {| ap_screen := ap_screen p; ap_scanner := ap_scanner p; ap_read_only := ap_read_only p; ap_held_since := ap_held_since p; ap_resize_since := ap_resize_since p;
     ap_backlog := ap_backlog p; ap_dropped_input := ap_dropped_input p; ap_sent := ap_sent p; ap_sends := ap_sends p; ap_asks := S (ap_asks p) |}.

(** An operation of the pump: what it failed with, or its answer. *)
Definition Pumped (A : Type) : Type := result A CliError * AttachPump.
Definition pumped_bind {A B} (m : Pumped A) (f : A → AttachPump → Pumped B) : Pumped B :=
  match m with (Ok a, p) => f a p | (Err e, p) => (Err e, p) end.

(** The terminal's size, asked for again each time. *)
Definition own_size (p : AttachPump) : option PtySize * AttachPump := (size_at (ap_asks p), put_asks p).
Definition drawn (d : HeldTerminal → bool * HeldTerminal) (p : AttachPump) : Pumped unit :=
  let '(ok, screen) := d (ap_screen p) in (if ok then Ok tt else Err TerminalFailed, put_screen screen p).

Definition send (m : ClientMessage) (p : AttachPump) : Pumped unit :=
  match fails (ap_sends p) with
  | Some e => (Err (AttachLost (ByHolder e)), put_sent (ap_sent p) p)
  | None => (Ok tt, put_sent (ap_sent p ++ [m]) p)
  end.
Definition forward (bytes : list N) (p : AttachPump) : Pumped unit :=
  if ap_read_only p || bool_decide (bytes = []) then (Ok tt, p) else send (Input bytes) p.
Definition resize (p : AttachPump) : Pumped unit :=
  let '(size, p) := own_size p in
  match size with
  | Some size => if negb (ap_read_only p) then send (Resize size) p else (Ok tt, p)
  | None => (Ok tt, p)
  end.

(** Whether [part] is somewhere in [bytes]. *)
Fixpoint has_window (part bytes : list N) : bool :=
  bool_decide (part `prefix_of` bytes) || match bytes with [] => false | _ :: bytes => has_window part bytes end.
Definition unreset (repaint : list N) : list N := match strip_prefix RESET_TERMINAL repaint with Some rest => rest | None => repaint end.

Definition paint (repaint : list N) (size : PtySize) (p : AttachPump) : Pumped unit :=
  let repaint := unreset repaint in
  let '(own, p) := own_size p in
  if match own with None => true | Some own => bool_decide (own = size) end then drawn (write draws repaint) p else
  drawn (λ t,
    also (λ t, if has_window DISABLE_AUTOWRAP repaint then (true, t) else write draws AUTOWRAP_ON t)
      (also (write draws repaint) (write draws DISABLE_AUTOWRAP t))) p.

(** Waits for the screen redrawn after a resize: of the events in [inbox] the first
    [within] arrive in time. What is left of the inbox comes with the answer. *)
Fixpoint await_resync (within : nat) (inbox : list AttachEvent) (p : AttachPump) : Pumped (option (list N * PtySize) * list AttachEvent) :=
  match within, inbox with
  | S within, event :: inbox =>
    match event with
    | FromHolder (Snapshot repaint size _ _ _ _) => (Ok (Some (repaint, size), inbox), p)
    | FromHolder (Rejected _) => (Ok (None, inbox), p)
    | FromHolder (Output _ _) => await_resync within inbox p
    | HolderLost e => (Err (AttachLost (ByHolder e)), p)
    | _ => await_resync within inbox (put_backlog (ap_backlog p ++ [event]) p)
    end
  | _, _ => (Ok (None, inbox), p)
  end.

(** The first screen; what is left of the inbox. *)
Definition first_screen (g : Greeting) (within : nat) (inbox : list AttachEvent) (p : AttachPump) : Pumped (list AttachEvent) :=
  let '(own, p) := own_size p in
  pumped_bind (drawn (clear_for_first_screen draws (rows (default (gr_size g) own))) p) (λ _ p,
  match own with
  | Some size =>
    if ap_read_only p then pumped_bind (paint (gr_repaint g) (gr_size g) p) (λ _ p, (Ok inbox, p))
    else if negb (bool_decide (size = gr_size g)) then
      pumped_bind (send (Resize size) p) (λ _ p,
      pumped_bind (await_resync within inbox p) (λ answer p,
      match answer with
      | (Some (repaint, size), inbox) => pumped_bind (paint repaint size p) (λ _ p, (Ok inbox, p))
      | (None, inbox) => pumped_bind (paint (gr_repaint g) (gr_size g) p) (λ _ p, (Ok inbox, p))
      end))
    else
      pumped_bind (paint (gr_repaint g) (gr_size g) p) (λ _ p,
      pumped_bind (send (Resize size) p) (λ _ p, (Ok inbox, p)))
  | None => pumped_bind (paint (gr_repaint g) (gr_size g) p) (λ _ p, (Ok inbox, p))
  end).

(** How a session whose input closed ends, by the events that arrive in time. *)
Fixpoint await_hangup (exited : option ExitOutcome) (events : list AttachEvent) : AttachEnd :=
  match events with
  | [] => match exited with Some outcome => AExited outcome | None => Detached end
  | Ended signal :: _ => Signalled signal
  | FromHolder (Exited_ outcome) :: events => await_hangup (Some outcome) events
  | _ :: events => await_hangup exited events
  end.

(** One round of the loop: the time it begins, the alarm it finds, whether an event
    arrives before its deadline, when that is, and how many of the events after
    it a closing input waits for. *)
Record Turn := { tn_now : N; tn_helper_failed : bool; tn_ending : option EndingSignal; tn_arrives : bool; tn_then : N; tn_within : nat }.

Definition resize_when_due (now : N) (p : AttachPump) : Pumped unit :=
  match ap_resize_since p with
  | Some since => if (RESIZE_WAIT <=? now - since)%N then resize (put_resize None p) else (Ok tt, p)
  | None => (Ok tt, p)
  end.
Definition flush_escape_when_due (now : N) (p : AttachPump) : Pumped unit :=
  match ap_held_since p with
  | Some since =>
    if (ESCAPE_WAIT <=? now - since)%N then let '(held, scanner) := flush (ap_scanner p) in forward held (put_scanner scanner None p) else (Ok tt, p)
  | None => (Ok tt, p)
  end.

Definition handle (t : Turn) (event : AttachEvent) (inbox : list AttachEvent) (p : AttachPump) : Pumped (option AttachEnd) :=
  match event with
  | Typed bytes =>
    let '(scanned, scanner) := feed bytes (ap_scanner p) in
    pumped_bind (forward (sr_forward scanned) (put_scanner scanner (if has_pending scanner then Some (tn_then t) else None) p)) (λ _ p,
    (Ok (if sr_detached scanned then Some Detached else None), p))
  | InputClosed => (Ok (Some (await_hangup None (take (tn_within t) inbox))), p)
  | FromHolder (Output _ bytes) => pumped_bind (drawn (write draws bytes) p) (λ _ p, (Ok None, p))
  | FromHolder (Snapshot repaint size _ _ _ _) =>
    pumped_bind (drawn (clear_for_resync draws) p) (λ _ p, pumped_bind (paint repaint size p) (λ _ p, (Ok None, p)))
  | FromHolder (Exited_ outcome) => (Ok (Some (AExited outcome)), p)
  | FromHolder (Rejected reason) => (Ok None, put_dropped (ap_dropped_input p || match reason with InputBacklogged => true | _ => false end) p)
  | FromHolder (Warning_ _ | Attached _ | Unlogged _) => (Ok None, p)
  | HolderLost e => (Err (AttachLost (ByHolder e)), p)
  | HelperFailed => (Err (AttachLost ByHelper), p)
  | Resized => (Ok None, put_resize (match ap_resize_since p with Some since => Some since | None => Some (tn_then t) end) p)
  | Ended signal => (Ok (Some (Signalled signal)), p)
  end.

(** How a round ends: the session's end, or what is left of the inbox. *)
Definition turn (t : Turn) (inbox : list AttachEvent) (p : AttachPump) : Pumped (AttachEnd + list AttachEvent) :=
  if tn_helper_failed t then (Err (AttachLost ByHelper), p) else
  match tn_ending t with
  | Some signal => (Ok (inl (Signalled signal)), p)
  | None =>
    pumped_bind (flush_escape_when_due (tn_now t) p) (λ _ p,
    pumped_bind (resize_when_due (tn_now t) p) (λ _ p,
    let on event inbox p :=
      pumped_bind (handle t event inbox p) (λ ended p, (Ok (match ended with Some end_ => inl end_ | None => inr inbox end), p)) in
    match ap_backlog p with
    | event :: backlog => on event inbox (put_backlog backlog p)
    | [] =>
      if tn_arrives t then match inbox with event :: inbox => on event inbox p | [] => (Ok (inl Detached), p) end
      else (Ok (inr inbox), p)
    end))
  end.

(** The loop: how it ended, or what is left of the inbox while it goes on. *)
Fixpoint run (turns : list Turn) (inbox : list AttachEvent) (p : AttachPump) : (result AttachEnd CliError + list AttachEvent) * AttachPump :=
  match turns with
  | [] => (inr inbox, p)
  | t :: turns =>
    match turn t inbox p with
    | (Err e, p) => (inl (Err e), p)
    | (Ok (inl end_), p) => (inl (Ok end_), p)
    | (Ok (inr inbox), p) => run turns inbox p
    end
  end.

(** The session: the title, the first screen, the loop, and the pump dropped, which
    gives the terminal back. A signal [late] enough to be found only then is how
    it ended. *)
Definition pump_session (title key : rstr) (read_only : bool) (g : Greeting) (within : nat) (inbox : list AttachEvent) (turns : list Turn) (screen : HeldTerminal) :
    (result AttachEnd CliError + list AttachEvent) * AttachPump :=
  let '(ok, screen) := set_title is_format draws title screen in
  let p := pump_new screen (detach_scanner_new key) read_only in
  if negb ok then (inl (Err TerminalFailed), p) else
  match first_screen g within inbox p with
  | (Err e, p) => (inl (Err e), p)
  | (Ok inbox, p) => run turns inbox p
  end.
Definition session (title key : rstr) (read_only : bool) (g : Greeting) (within : nat) (inbox : list AttachEvent) (turns : list Turn) (late : option EndingSignal)
    (screen : HeldTerminal) : (result AttachEnd CliError + list AttachEvent) * AttachPump :=
  match pump_session title key read_only g within inbox turns screen with
  | (inl ended, p) =>
    (inl (match ended, late with Ok _, Some signal => Ok (Signalled signal) | _, _ => ended end), put_screen (restore draws (ap_screen p)).2 p)
  | going => going
  end.

(** ** What is typed reaches the holder *)
Definition inputs (ms : list ClientMessage) : list N := concat (omap (λ m, match m with Input bytes => Some bytes | _ => None end) ms).
Definition typed (events : list AttachEvent) : list N := concat (omap (λ e, match e with Typed bytes => Some bytes | _ => None end) events).
Lemma inputs_app a b : inputs (a ++ b) = inputs a ++ inputs b.
Proof. unfold inputs. by rewrite omap_app, concat_app. Qed.
Lemma typed_app a b : typed (a ++ b) = typed a ++ typed b.
Proof. unfold typed. by rewrite omap_app, concat_app. Qed.

(** A session to which [T] is typed in all, going on with [inbox] left: what was
    sent, what is held and what is still to come make it up. *)
Record faithful (ro : bool) (T : list N) (inbox : list AttachEvent) (p : AttachPump) : Prop := {
  fa_mode : ap_read_only p = ro;
  fa_scanning : scanning (ap_scanner p);
  fa_silent : ro = true → ap_sent p = [];
  fa_whole : ro = false → inputs (ap_sent p) ++ dk_pending (ap_scanner p) ++ typed (ap_backlog p) ++ typed inbox = T;
  fa_held : dk_pending (ap_scanner p) = [] ↔ ap_held_since p = None;
}.
(** One that ended, however it did. *)
Definition within (ro : bool) (T : list N) (p : AttachPump) : Prop := (ro = true → ap_sent p = []) ∧ (ro = false → inputs (ap_sent p) `prefix_of` T).
Lemma faithful_within ro T inbox p : faithful ro T inbox p → within ro T p.
Proof. intros [_ _ Hs Hw _]. split; [done|]. intros Hro. rewrite <-(Hw Hro). by apply prefix_app_r. Qed.

(** An operation's outcome: an error ends the session. *)
Definition leads {A} (ro : bool) (T : list N) (m : Pumped A) (K : A → AttachPump → Prop) : Prop :=
  match m with (Ok a, p) => K a p | (Err _, p) => within ro T p end.
Lemma leads_bind {A B} ro T (m : Pumped A) (f : A → AttachPump → Pumped B) K K' :
  leads ro T m K → (∀ a p, K a p → leads ro T (f a p) K') → leads ro T (pumped_bind m f) K'.
Proof. destruct m as [[a|e] p]; cbn; [|done]. intros Hk Hf. by apply Hf. Qed.

Notation goes ro T inbox := (λ _ p, faithful ro T inbox p).

Lemma drawn_leads ro T inbox d p : faithful ro T inbox p → leads ro T (drawn d p) (goes ro T inbox).
Proof.
  intros Hf. unfold drawn. destruct (d (ap_screen p)) as [ok screen]. assert (faithful ro T inbox (put_screen screen p)) as Hf' by (by destruct Hf). destruct ok; [done|]. by apply faithful_within in Hf'.
Qed.
Lemma own_size_faithful ro T inbox p : faithful ro T inbox p → faithful ro T inbox (own_size p).2.
Proof. by intros []. Qed.
Lemma paint_leads ro T inbox repaint size p : faithful ro T inbox p → leads ro T (paint repaint size p) (goes ro T inbox).
Proof. intros Hf%own_size_faithful. unfold paint. cbv zeta. destruct (own_size p) as [own p1]. cbn [snd] in Hf. destruct (match own with None => true | Some _ => _ end); by apply drawn_leads. Qed.

(** A message that carries no input, or the input given. *)
Lemma send_leads ro T inbox m p :
  ro = false → ap_read_only p = ro → scanning (ap_scanner p) → (dk_pending (ap_scanner p) = [] ↔ ap_held_since p = None) →
  inputs (ap_sent p) ++ inputs [m] ++ dk_pending (ap_scanner p) ++ typed (ap_backlog p) ++ typed inbox = T →
  leads ro T (send m p) (goes ro T inbox).
Proof.
  intros -> Hm Hs Hh Hw. unfold send. destruct (fails (ap_sends p)).
  - split; [done|]. intros _. cbn [put_sent ap_sent]. rewrite <-Hw. by apply prefix_app_r.
  - split; [done|done|done| |done]. intros _. cbn [put_sent ap_sent ap_scanner ap_backlog]. rewrite inputs_app, <-app_assoc. exact Hw.
Qed.
Lemma send_resize_leads ro T inbox size p : ro = false → faithful ro T inbox p → leads ro T (send (Resize size) p) (goes ro T inbox).
Proof. intros Hro [Hm Hs _ Hw Hh]. apply send_leads; [done..|]. by apply Hw. Qed.
Lemma resize_leads ro T inbox p : faithful ro T inbox p → leads ro T (resize p) (goes ro T inbox).
Proof.
  intros Hf%own_size_faithful. unfold resize. destruct (own_size p) as [own p1]. cbn [snd] in Hf. destruct own as [size|]; [|done]. pose proof (fa_mode _ _ _ _ Hf) as Hm.
  destruct (ap_read_only p1) eqn:Er; [done|]. by apply send_resize_leads.
Qed.

(** What the scanner gave up is sent. *)
Lemma forward_leads ro T inbox bytes p :
  ap_read_only p = ro → scanning (ap_scanner p) → (ro = true → ap_sent p = []) → (dk_pending (ap_scanner p) = [] ↔ ap_held_since p = None) →
  (ro = false → inputs (ap_sent p) ++ bytes ++ dk_pending (ap_scanner p) ++ typed (ap_backlog p) ++ typed inbox = T) →
  leads ro T (forward bytes p) (goes ro T inbox).
Proof.
  intros Hm Hs Hn Hh Hw. unfold forward. rewrite Hm. destruct ro; cbn [orb].
  - split; done.
  - specialize (Hw eq_refl). destruct (bool_decide_reflect (bytes = [])) as [->|_]; [by split|]. apply send_leads; [done..|]. unfold inputs at 2. cbn. by rewrite app_nil_r.
Qed.

Lemma resize_when_due_leads ro T inbox now p : faithful ro T inbox p → leads ro T (resize_when_due now p) (goes ro T inbox).
Proof. intros Hf. unfold resize_when_due. destruct (ap_resize_since p); [|done]. destruct (_ <=? _)%N; [|done]. apply resize_leads. by destruct Hf. Qed.
Lemma flush_escape_leads ro T inbox now p : faithful ro T inbox p → leads ro T (flush_escape_when_due now p) (goes ro T inbox).
Proof.
  intros Hf. unfold flush_escape_when_due. destruct (ap_held_since p); [|done]. destruct (_ <=? _)%N; [|done]. destruct Hf as [Hm Hs Hn Hw _]. cbn [flush].
  apply forward_leads; [done|apply (flushed_scanning (ap_scanner p))|done|done|]. intros Hro. by apply Hw.
Qed.

Lemma await_resync_leads ro T n inbox p :
  faithful ro T inbox p → leads ro T (await_resync n inbox p) (λ answer p, faithful ro T answer.2 p).
Proof.
  revert n p. induction inbox as [|event inbox IH]; intros [|n] p Hf; cbn [await_resync]; [done..|].
  assert (∀ rest, typed [event] = [] → faithful ro T (event :: rest) p → faithful ro T rest p) as Hskip.
  { intros rest He [Hm Hs Hn Hw Hh]. split; [done..| |done]. intros Hro. rewrite <-(Hw Hro). change (event :: rest) with ([event] ++ rest). by rewrite typed_app, He. }
  assert (leads ro T (await_resync n inbox (put_backlog (ap_backlog p ++ [event]) p)) (λ answer p, faithful ro T answer.2 p)) as Hkeep.
  { apply IH. destruct Hf as [Hm Hs Hn Hw Hh]. split; [done..| |done]. intros Hro. rewrite <-(Hw Hro). cbn [put_backlog ap_sent ap_scanner ap_backlog]. rewrite typed_app.
    change (event :: inbox) with ([event] ++ inbox). by rewrite typed_app, <-!app_assoc. }
  destruct event as [bytes| |m|e| | |sig]; try exact Hkeep; [|by apply faithful_within in Hf].
  destruct m; try exact Hkeep; [by apply Hskip|apply IH; by apply Hskip|by apply Hskip].
Qed.

Lemma first_screen_leads ro T g n inbox p : faithful ro T inbox p → leads ro T (first_screen g n inbox p) (λ inbox p, faithful ro T inbox p).
Proof.
  intros Hf%own_size_faithful. unfold first_screen. destruct (own_size p) as [own p0]. cbn [snd] in Hf. eapply leads_bind; [by apply (drawn_leads ro T inbox)|]. intros [] p1 Hf1. cbv beta in Hf1.
  assert (∀ inbox p, faithful ro T inbox p → ∀ repaint size, leads ro T (pumped_bind (paint repaint size p) (λ _ p, (Ok inbox, p))) (λ inbox p, faithful ro T inbox p)) as Hpaint.
  { intros inbox' p' Hf' repaint size. eapply leads_bind; [by apply (paint_leads ro T inbox')|done]. }
  destruct own as [size|]; [|by apply Hpaint]. pose proof (fa_mode _ _ _ _ Hf1) as Hm. destruct (ap_read_only p1); [by apply Hpaint|]. destruct (negb _).
  - eapply leads_bind; [by apply (send_resize_leads ro T inbox)|]. intros [] p2 Hf2. cbv beta in Hf2. eapply leads_bind; [by apply await_resync_leads|]. intros [[[repaint size']|] rest] p3 Hf3; by apply Hpaint.
  - eapply leads_bind; [by apply (paint_leads ro T inbox)|]. intros [] p2 Hf2. cbv beta in Hf2. eapply leads_bind; [by apply (send_resize_leads ro T inbox)|done].
Qed.

(** An event taken off the backlog or the inbox, to be handled next. *)
Record facing (ro : bool) (T : list N) (event : AttachEvent) (inbox : list AttachEvent) (p : AttachPump) : Prop := {
  fc_mode : ap_read_only p = ro;
  fc_scanning : scanning (ap_scanner p);
  fc_silent : ro = true → ap_sent p = [];
  fc_whole : ro = false → inputs (ap_sent p) ++ dk_pending (ap_scanner p) ++ typed [event] ++ typed (ap_backlog p) ++ typed inbox = T;
  fc_held : dk_pending (ap_scanner p) = [] ↔ ap_held_since p = None;
}.

(** One event: the session goes on with it done, or ended. *)
Lemma handle_leads ro T t event inbox p :
  facing ro T event inbox p → leads ro T (handle t event inbox p) (λ ended p, match ended with None => faithful ro T inbox p | Some _ => within ro T p end).
Proof.
  intros [Hm Hs Hn Hw Hh]. assert (within ro T p) as Hin by (split; [done|]; intros Hro; rewrite <-(Hw Hro); by apply prefix_app_r).
  assert (typed [event] = [] → faithful ro T inbox p) as Hskip.
  { intros He. split; [done..| |done]. intros Hro. rewrite <-(Hw Hro). by rewrite He. }
  destruct event as [bytes| |m|e| | |sig]; cbn [handle]; try exact Hin.
  - pose proof (feed_spec bytes (ap_scanner p) Hs) as Hf. destruct (feed bytes (ap_scanner p)) as [r scanner]. destruct Hf as (Hs' & _ & _ & Hf).
    set (since := if has_pending scanner then _ else None).
    assert (typed [Typed bytes] = bytes) as Eb by (unfold typed; cbn; by rewrite app_nil_r). rewrite Eb in Hw.
    assert (dk_pending scanner = [] ↔ since = None) as Hh'.
    { unfold since, has_pending. destruct (bool_decide_reflect (dk_pending scanner = [])); cbn; by split. }
    set (p1 := put_scanner scanner since p). destruct (sr_detached r).
    + destruct Hf as (key & rest & E & _).
      assert (leads ro T (forward (sr_forward r) p1) (λ _ p, within ro T p)) as Hl.
      { unfold forward. change (ap_read_only p1) with (ap_read_only p). rewrite Hm. destruct ro; cbn [orb]; [by split|]. specialize (Hw eq_refl).
        assert (inputs (ap_sent p) ++ sr_forward r `prefix_of` T) as Hp by (rewrite <-Hw, (app_assoc (dk_pending _)), E, <-!app_assoc, app_assoc; by apply prefix_app_r).
        destruct (bool_decide_reflect (sr_forward r = [])); [exact Hin|]. unfold send. destruct (fails _); [exact Hin|]. split; [done|]. intros _. cbn [put_sent ap_sent]. rewrite inputs_app.
        unfold inputs at 2. cbn. by rewrite app_nil_r. }
      eapply leads_bind; [exact Hl|]. intros [] p2 Hp2. exact Hp2.
    + eapply leads_bind; [apply (forward_leads ro T inbox); [done..|]|intros [] p2 Hp2; exact Hp2]. intros Hro. rewrite <-(Hw Hro). cbn [p1 put_scanner ap_sent ap_scanner ap_backlog].
      rewrite (app_assoc (sr_forward r)), <-Hf, <-!app_assoc. done.
  - specialize (Hskip eq_refl). destruct m; try done; try exact Hin; cbn [handle].
    + eapply leads_bind; [by apply (drawn_leads ro T inbox)|]. intros [] p2 Hp2. eapply leads_bind; [by apply (paint_leads ro T inbox)|]. intros [] p3 Hp3. exact Hp3.
    + eapply leads_bind; [by apply (drawn_leads ro T inbox)|]. intros [] p2 Hp2. exact Hp2.
  - specialize (Hskip eq_refl). by destruct Hskip.
Qed.

Lemma turn_leads ro T t inbox p :
  faithful ro T inbox p → leads ro T (turn t inbox p) (λ ended p, match ended with inr inbox => faithful ro T inbox p | inl _ => within ro T p end).
Proof.
  intros Hf. unfold turn. destruct (tn_helper_failed t); [by apply faithful_within in Hf|]. destruct (tn_ending t); [by apply faithful_within in Hf|].
  eapply leads_bind; [by apply (flush_escape_leads ro T inbox)|]. intros [] p1 Hf1. cbv beta in Hf1. eapply leads_bind; [by apply (resize_when_due_leads ro T inbox)|]. intros [] p2 Hf2. cbv beta zeta in *.
  assert (∀ event inbox p, facing ro T event inbox p →
    leads ro T (pumped_bind (handle t event inbox p) (λ ended p, (Ok (match ended with Some end_ => inl end_ | None => inr inbox end), p)))
      (λ ended p, match ended with inr inbox => faithful ro T inbox p | inl _ => within ro T p end)) as Hon.
  { intros event inbox' p' Hfc. eapply leads_bind; [by apply handle_leads|]. by intros [end_|] p3 Hp3. }
  destruct Hf2 as [Hm Hs Hn Hw Hh]. destruct (ap_backlog p2) as [|event backlog] eqn:Eb.
  - destruct (tn_arrives t); [|split; try done; by rewrite Eb]. destruct inbox as [|event inbox].
    + split; [done|]. intros Hro. rewrite <-(Hw Hro). by apply prefix_app_r.
    + apply Hon. split; try done. intros Hro. rewrite <-(Hw Hro), Eb. change (event :: inbox) with ([event] ++ inbox). by rewrite typed_app.
  - apply Hon. split; try done. intros Hro. rewrite <-(Hw Hro). change (event :: backlog) with ([event] ++ backlog). by rewrite typed_app, <-!app_assoc.
Qed.

Lemma run_leads ro T turns inbox p :
  faithful ro T inbox p → match run turns inbox p with (inr inbox, p) => faithful ro T inbox p | (inl _, p) => within ro T p end.
Proof.
  revert inbox p. induction turns as [|t turns IH]; intros inbox p Hf; cbn [run]; [done|]. pose proof (turn_leads ro T t inbox p Hf) as Ht. unfold leads in Ht.
  destruct (turn t inbox p) as [[[end_|rest]|e] p1]; [done|by apply IH|done].
Qed.

(** C20: what is typed into an attached terminal reaches the holder as it was typed:
    whatever the holder sends and whatever fails, a read-only session sends
    nothing at all, and one that may write has sent, in order, a part of what was
    typed from its start; while it goes on that is all of it but the escape it
    holds, for which a time is set, and the events it has not come to. *)
Theorem attach_passes_keys (title key : rstr) (read_only : bool) (g : Greeting) (n : nat) (inbox : list AttachEvent) (turns : list Turn)
    (late : option EndingSignal) (screen : HeldTerminal) :
  let '(ended, p) := session title key read_only g n inbox turns late screen in
  (if read_only then ap_sent p = [] else inputs (ap_sent p) `prefix_of` typed inbox) ∧
  match ended with
  | inl _ => True
  | inr rest =>
    (read_only = false → typed inbox = inputs (ap_sent p) ++ dk_pending (ap_scanner p) ++ typed (ap_backlog p) ++ typed rest) ∧
    length (dk_pending (ap_scanner p)) ≤ MAX_PENDING ∧ (dk_pending (ap_scanner p) = [] ↔ ap_held_since p = None)
  end.
Proof.
  unfold session, pump_session. destruct (set_title is_format draws title screen) as [ok screen1]. set (p := pump_new screen1 (detach_scanner_new key) read_only).
  assert (faithful read_only (typed inbox) inbox p) as Hf by (split; [done|apply scanner_new_scanning|done|done|done]).
  assert (∀ p', within read_only (typed inbox) p' → if read_only then ap_sent p' = [] else inputs (ap_sent p') `prefix_of` typed inbox) as Hw by (intros p' [H1 H2]; destruct read_only; auto).
  destruct ok; cbn [negb]; [|split; [apply Hw; by apply faithful_within in Hf|done]].
  pose proof (first_screen_leads read_only (typed inbox) g n inbox p Hf) as H1. unfold leads in H1. destruct (first_screen g n inbox p) as [[inbox1|e] p1]; [|split; [by apply Hw|done]].
  pose proof (run_leads read_only (typed inbox) turns inbox1 p1 H1) as H2. destruct (run turns inbox1 p1) as [[ended|rest] p2]; [split; [by apply Hw|done]|].
  split; [by apply Hw; apply faithful_within in H2|]. destruct H2 as [_ Hs _ Ht Hh]. split_and!; [intros Hro; by rewrite (Ht Hro)|apply Hs|apply Hh..].
Qed.

(** ** The terminal is given back *)
(** The modes and the screen that what was written left a terminal in. *)
Definition drawn_state (writes : list (list N)) : ModeScanner * bool := foldl follow (scanner_new, false) (concat writes).
(** A terminal in raw mode, followed since it was entered. *)
Record tracked (t : HeldTerminal) : Prop := {
  tr_state : (ht_scanner t, ht_alternate t) = drawn_state (ht_writes t).*1;
  tr_restored : ht_restored t = false;
  tr_raw : ht_raw t = true;
}.

Lemma write_writes bytes t : ht_writes (write draws bytes t).2 = ht_writes t ++ [(bytes, (write draws bytes t).1)] ∧
  ht_restored (write draws bytes t).2 = ht_restored t ∧ ht_raw (write draws bytes t).2 = ht_raw t.
Proof. unfold write. by destruct (foldl follow _ _). Qed.
Lemma write_follows bytes t : (ht_scanner t, ht_alternate t) = drawn_state (ht_writes t).*1 →
  (ht_scanner (write draws bytes t).2, ht_alternate (write draws bytes t).2) = drawn_state (ht_writes (write draws bytes t).2).*1.
Proof.
  intros E. destruct (write_writes bytes t) as (-> & _). unfold drawn_state. rewrite fmap_app, concat_app, foldl_app. fold (drawn_state (ht_writes t).*1). rewrite <-E. unfold write. cbn. rewrite app_nil_r.
  by destruct (foldl follow _ _).
Qed.
Lemma write_tracked bytes t : tracked t → tracked (write draws bytes t).2.
Proof. intros [H1 H2 H3]. destruct (write_writes bytes t) as (_ & E1 & E2). split; [by apply write_follows|congruence..]. Qed.
Lemma also_tracked b a : (∀ t, tracked t → tracked (b t).2) → tracked a.2 → tracked (also b a).2.
Proof. unfold also. destruct a.1; auto. Qed.
Lemma reset_tracked homing t : tracked t → tracked (reset draws homing t).2.
Proof. intros Ht. unfold reset. apply also_tracked; [intros; by apply write_tracked|]. destruct (ht_alternate t); [by apply write_tracked|done]. Qed.

Notation keeps m := (tracked (ap_screen (snd m))).
Lemma drawn_keeps d p : (∀ t, tracked t → tracked (d t).2) → tracked (ap_screen p) → keeps (drawn d p).
Proof. intros Hd Ht. unfold drawn. specialize (Hd _ Ht). by destruct (d (ap_screen p)). Qed.
Lemma pump_bind_keeps {A B} (m : Pumped A) (f : A → AttachPump → Pumped B) :
  keeps m → (∀ a p, tracked (ap_screen p) → keeps (f a p)) → keeps (pumped_bind m f).
Proof. destruct m as [[a|e] p]; cbn; [|done]. intros Hp Hf. by apply Hf. Qed.
Lemma send_keeps m p : tracked (ap_screen p) → keeps (send m p).
Proof. unfold send. by destruct (fails _). Qed.
Lemma forward_keeps bytes p : tracked (ap_screen p) → keeps (forward bytes p).
Proof. unfold forward. destruct (_ || _); [done|apply send_keeps]. Qed.
Lemma paint_keeps repaint size p : tracked (ap_screen p) → keeps (paint repaint size p).
Proof.
  intros Ht. unfold paint, own_size. cbv zeta. destruct (match size_at _ with None => true | Some _ => _ end); (apply drawn_keeps; [|done]); [by apply write_tracked|].
  intros t Htt. apply also_tracked; [intros t' ?; destruct (has_window _ _); [done|by apply write_tracked]|]. apply also_tracked; [by apply write_tracked|by apply write_tracked].
Qed.
Lemma await_resync_keeps n inbox p : tracked (ap_screen p) → keeps (await_resync n inbox p).
Proof.
  revert n p. induction inbox as [|event inbox IH]; intros [|n] p Ht; cbn [await_resync]; [done..|]. destruct event as [| |m| | | |]; try (by apply IH); [|done]. destruct m; try done; by apply IH.
Qed.
Lemma first_screen_keeps g n inbox p : tracked (ap_screen p) → keeps (first_screen g n inbox p).
Proof.
  intros Ht. unfold first_screen, own_size. apply pump_bind_keeps.
  { apply drawn_keeps; [|done]. intros t Htt. apply also_tracked; [by apply write_tracked|by apply reset_tracked]. }
  intros [] p1 Ht1. assert (∀ (inbox : list AttachEvent) p, tracked (ap_screen p) → ∀ repaint size, keeps (pumped_bind (paint repaint size p) (λ _ p, (Ok inbox, p)))) as Hpaint.
  { intros inbox' p' Ht' repaint size. apply pump_bind_keeps; [by apply paint_keeps|done]. }
  destruct (size_at _) as [size|]; [|by apply Hpaint]. destruct (ap_read_only p1); [by apply Hpaint|]. destruct (negb _).
  - apply pump_bind_keeps; [by apply send_keeps|]. intros [] p2 Ht2. apply pump_bind_keeps; [by apply await_resync_keeps|]. intros [[[repaint size']|] rest] p3 Ht3; by apply Hpaint.
  - apply pump_bind_keeps; [by apply paint_keeps|]. intros [] p2 Ht2. apply pump_bind_keeps; [by apply send_keeps|done].
Qed.
Lemma handle_keeps t event inbox p : tracked (ap_screen p) → keeps (handle t event inbox p).
Proof.
  intros Ht. destruct event as [bytes| |m|e| | |sig]; cbn [handle]; try done.
  - destruct (feed bytes (ap_scanner p)) as [r scanner]. apply pump_bind_keeps; [by apply forward_keeps|done].
  - destruct m; try done.
    + apply pump_bind_keeps; [apply drawn_keeps; [|done]; intros t' Htt; apply also_tracked; [by apply write_tracked|by apply reset_tracked]|]. intros [] p2 Ht2. apply pump_bind_keeps; [by apply paint_keeps|done].
    + apply pump_bind_keeps; [apply drawn_keeps; [by apply write_tracked|done]|done].
Qed.
Lemma turn_keeps t inbox p : tracked (ap_screen p) → keeps (turn t inbox p).
Proof.
  intros Ht. unfold turn. destruct (tn_helper_failed t); [done|]. destruct (tn_ending t); [done|]. apply pump_bind_keeps.
  { unfold flush_escape_when_due. destruct (ap_held_since p); [|done]. destruct (_ <=? _)%N; [|done]. by apply forward_keeps. }
  intros [] p1 Ht1. apply pump_bind_keeps.
  { unfold resize_when_due. destruct (ap_resize_since p1); [|done]. destruct (_ <=? _)%N; [|done]. unfold resize, own_size. destruct (size_at _); [|done]. destruct (negb _); [by apply send_keeps|done]. }
  intros [] p2 Ht2. cbv zeta. destruct (ap_backlog p2) as [|event backlog].
  - destruct (tn_arrives t); [|done]. destruct inbox as [|event inbox]; [done|]. apply pump_bind_keeps; [by apply handle_keeps|done].
  - apply pump_bind_keeps; [by apply handle_keeps|done].
Qed.
Lemma run_keeps turns inbox p : tracked (ap_screen p) → keeps (run turns inbox p).
Proof.
  revert inbox p. induction turns as [|t turns IH]; intros inbox p Ht; cbn [run]; [done|]. pose proof (turn_keeps t inbox p Ht) as Ht1. destruct (turn t inbox p) as [[[end_|rest]|e] p1]; [done|by apply IH|done].
Qed.

Lemma enter_tracked read set screen : (enter draws read set).1 = Some screen → tracked screen ∧ screen.(ht_writes).*1 = [PUSH_TITLE].
Proof.
  unfold enter. destruct (negb _); [done|]. set (t := {| ht_scanner := _ |}). pose proof (write_tracked PUSH_TITLE t ltac:(done)) as Ht. destruct (write_writes PUSH_TITLE t) as (Hw & _).
  destruct (write draws PUSH_TITLE t) as [[] t1]; cbn [fst snd] in *; [|done]. intros [= <-]. split; [done|]. by rewrite Hw.
Qed.
Lemma enter_through :
  draws 0 = true →
  (enter draws true true).1 = Some (write draws PUSH_TITLE {| ht_scanner := scanner_new; ht_alternate := false; ht_restored := false; ht_raw := true; ht_writes := [] |}).2.
Proof. intros E. unfold enter, write. cbn [negb andb length ht_writes ht_scanner ht_alternate]. destruct (foldl follow _ _). by rewrite E. Qed.
(** A terminal switched to raw mode whose title cannot then be saved is not given
    back: [enter] fails with the settings left raw. *)
Lemma enter_leaves_raw : draws 0 = false → enter draws true true = (None, true).
Proof. intros E. unfold enter, write. cbn [negb andb length ht_writes ht_scanner ht_alternate]. destruct (foldl follow _ _). by rewrite E. Qed.

Lemma pump_session_keeps title key ro g n inbox turns screen : tracked screen → keeps (pump_session title key ro g n inbox turns screen).
Proof.
  intros Ht. unfold pump_session. pose proof (write_tracked (TITLE_START ++ into_bytes (printable is_format title) ++ TITLE_END) screen Ht) as Hs. fold (set_title is_format draws title screen) in Hs.
  destruct (set_title is_format draws title screen) as [[] screen1]; cbn [negb snd] in *; [|done].
  pose proof (first_screen_keeps g n inbox (pump_new screen1 (detach_scanner_new key) ro) Hs) as Hf. destruct (first_screen _ _ _ _) as [[inbox1|e] p1]; [|done]. by apply run_keeps.
Qed.

(** What gives the terminal back once [shown] was written to it: the alternate
    screen left when it is on it, origin mode off when it is on, the other modes
    back to their defaults, and the title. *)
Definition left_alternate (shown : list (list N)) : list (list N) := if (drawn_state shown).2 then [KITTY_KEYBOARD_RESET ++ LEAVE_ALT_SCREEN] else [].
Definition given_back (shown : list (list N)) : list (list N) :=
  let left := left_alternate shown in
  left ++ [(if md_origin (sc_modes (drawn_state (shown ++ left)).1) then ORIGIN_MODE_OFF else []) ++ concat MODES_RESET; SESSION_END ++ POP_TITLE].

Lemma write_through bytes t : (∀ n, draws n = true) → (write draws bytes t).1 = true.
Proof. intros Hd. unfold write. destruct (foldl follow _ _). apply Hd. Qed.
Lemma write_shown bytes t : (ht_writes (write draws bytes t).2).*1 = (ht_writes t).*1 ++ [bytes].
Proof. destruct (write_writes bytes t) as (-> & _). by rewrite fmap_app. Qed.
Lemma also_true b a : a.1 = true → also b a = b a.2.
Proof. unfold also. by intros ->. Qed.
Lemma reset_shown t :
  (∀ n, draws n = true) → (ht_scanner t, ht_alternate t) = drawn_state (ht_writes t).*1 →
  let shown := (ht_writes t).*1 in let left := left_alternate shown in
  (reset draws false t).1 = true ∧
  (ht_writes (reset draws false t).2).*1 = shown ++ left ++ [(if md_origin (sc_modes (drawn_state (shown ++ left)).1) then ORIGIN_MODE_OFF else []) ++ concat MODES_RESET].
Proof.
  intros Hd Hs. pose proof (write_follows (KITTY_KEYBOARD_RESET ++ LEAVE_ALT_SCREEN) t Hs) as Hf. rewrite write_shown in Hf. unfold reset, left_alternate. rewrite <-Hs. cbn [snd orb]. destruct (ht_alternate t).
  - rewrite also_true by (by apply write_through). rewrite <-Hf. cbn [fst]. split; [by apply write_through|]. by rewrite !write_shown, <-app_assoc.
  - rewrite also_true by done. cbn [snd]. rewrite write_shown, app_nil_r, <-Hs. split; [by apply write_through|done].
Qed.
Lemma write_keeps_restored bytes a : ht_restored (also (write draws bytes) a).2 = ht_restored a.2.
Proof. unfold also. destruct a.1; [apply write_writes|done]. Qed.
Lemma reset_keeps_restored homing t : ht_restored (reset draws homing t).2 = ht_restored t.
Proof.
  unfold reset, also. destruct (ht_alternate t); [|apply write_writes]. destruct (write_writes (KITTY_KEYBOARD_RESET ++ LEAVE_ALT_SCREEN) t) as (_ & E & _).
  destruct (write draws _ t) as [[] t1]; cbn [fst snd] in *; [|done]. rewrite <-E. apply write_writes.
Qed.
Lemma restore_eq t :
  ht_restored t = false →
  let a := also (write draws (SESSION_END ++ POP_TITLE)) (reset draws false (mark_restored t)) in
  ht_raw (restore draws t).2 = false ∧ ht_restored (restore draws t).2 = ht_restored a.2 ∧ ht_writes (restore draws t).2 = ht_writes a.2.
Proof. intros Hr. cbv zeta. unfold restore. rewrite Hr. by destruct (also _ _). Qed.
Lemma restore_gives_back t :
  tracked t →
  let t' := (restore draws t).2 in
  ht_raw t' = false ∧ ht_restored t' = true ∧ ((∀ n, draws n = true) → (ht_writes t').*1 = (ht_writes t).*1 ++ given_back (ht_writes t).*1).
Proof.
  intros [Hs Hr _]. cbv zeta. destruct (restore_eq t Hr) as (-> & -> & ->). split; [done|]. rewrite write_keeps_restored, reset_keeps_restored. split; [done|].
  intros Hd. destruct (reset_shown (mark_restored t) Hd Hs) as [H1 H2]. rewrite also_true by done. rewrite write_shown, H2. unfold given_back. cbv zeta. cbn [mark_restored ht_writes].
  rewrite <-!app_assoc. reflexivity.
Qed.

End session.

(** A session whose process turned on the alternate screen, detached. *)
Module AttachWitness.
#[local] Existing Instance TermScan.TermWitness.small_vt.
Definition its_size : PtySize := {| rows := 2; cols := 4 |}.
Definition its_greeting : Greeting := {| gr_repaint := lit "hi"; gr_size := its_size; gr_pid := 7; gr_attached := 1; gr_run_start := 0; gr_log_end := 2 |}.
Definition its_screen : HeldTerminal := (write (λ _, true) PUSH_TITLE {| ht_scanner := scanner_new; ht_alternate := false; ht_restored := false; ht_raw := true; ht_writes := [] |}).2.
Definition its_turn : Turn := {| tn_now := 0; tn_helper_failed := false; tn_ending := None; tn_arrives := true; tn_then := 0; tn_within := 0 |}.
Definition its_inbox : list AttachEvent := [FromHolder (Output 2 (CSI ++ lit "?1049h")); Typed [97; 29; 98]%N].
Definition its_session : (result AttachEnd CliError + list AttachEvent) * AttachPump :=
  session (λ _, false) (λ _, true) (λ _, Some its_size) (λ _, None) (lit "web") (lit "ctrl-]") false its_greeting 0 its_inbox [its_turn; its_turn] None its_screen.

Definition its_pump : AttachPump := its_session.2.
Lemma its_session_ends :
  session (λ _, false) (λ _, true) (λ _, Some its_size) (λ _, None) (lit "web") (lit "ctrl-]") false its_greeting 0 its_inbox [its_turn; its_turn] None its_screen =
  (inl (Ok Detached), its_pump).
Proof. unfold its_pump, its_session. rewrite (surjective_pairing (session _ _ _ _ _ _ _ _ _ _ _ _ _)) at 1. apply (f_equal (λ e, (e, _))). vm_compute. reflexivity. Qed.
End AttachWitness.
