(* ===== verification/Lifecycle.v ===== *)
(** * The lifecycle of supervised processes

    Models the handlers of muster-service/src/supervisor that change what runs:
    lifecycle.rs (starts, stops, restarts, pauses, launches, exits),
    unsupervised.rs (children left running under a holder the service cannot
    reach), adopter.rs (adopting holders, reconnecting, retrying), the refusals
    of blocking.rs, apply_stack.rs and the shutdown of entity.rs. Each handler
    is a function on [Sup]; one that also returns a value returns it first.

    The service wires every supervisor to [SharedHolders], so a launch and an
    adoption always run on a worker: their inline branches are not reached. A
    handler reads one instant from the clock. *)
From S2P Require Import Prelude RustText RustPath Values Process Config StackSync EventLog Books SupState.

Definition RESTART_STABLE_RUN : duration := from_secs 10.
Definition FORCE_STOP_NOTICE : rstr := lit "graceful shutdown timed out; force-killed".
Definition GRACEFUL_STOP_FALLBACK_NOTICE : rstr := lit "graceful shutdown failed; force-killed".
Definition STOP_DELIVERY_FAILED_NOTICE : rstr := lit "could not stop the process".
Definition PAUSE_FAILED_NOTICE : rstr := lit "could not pause the process".
Definition RESUME_FAILED_NOTICE : rstr := lit "could not resume the process".
Definition SPAWN_FAILED_NOTICE : rstr := lit "could not start the process".
Definition SPAWN_UNKNOWN_PROCESS : rstr := lit "could not start: the pane has no process".
Definition OUTPUT_UNREADABLE_NOTICE : rstr := lit "lost the connection to this process; it may still be running".
Definition CRASHED_NOTICE : rstr := lit "crashed".
Definition EXIT_ACKNOWLEDGE_FAILED_NOTICE : rstr :=
  lit "could not release the finished process; a later start may report its exit again".
Definition UNSUPERVISED_EXIT_POLL : duration := (100 * NANOS_PER_MILLI)%N.
Definition UNSUPERVISED_KILL_LIMIT : N := 50.
Definition UNSUPERVISED_START_REFUSED : rstr := lit "cannot start: the process was left running unsupervised as pid".
Definition UNSUPERVISED_ROW_REMOVED : rstr := lit "cannot start: the process was removed from the project and has exited".
Definition UNSUPERVISED_STOP_FAILED : rstr := lit "could not signal the process left running unsupervised as pid".
Definition UNSUPERVISED_KILL_GAVE_UP : rstr :=
  lit "the process left running unsupervised survived every kill; stop it again to retry. pid".
Definition ADOPT_REMOVED_NOTICE : rstr := lit "stopped: removed from the project".
Definition ADOPT_DUPLICATE_NOTICE : rstr :=
  lit "a second running copy of this process was found; it was left running unsupervised".
Definition ADOPT_FAILED_NOTICE : rstr := lit "could not reconnect to a running process".
Definition LEFT_RUNNING : rstr := lit "; it was left running unsupervised".
Definition SINCE_EXITED : rstr := lit "; it has since exited".
Definition NO_HOLDER_RECORD : rstr := lit "no holder record names pid".

(** [format!("{a}: {b}")] and [format!("{a} {b}")]. *)
Definition colon (a b : rstr) : rstr := a ++ lit ": " ++ b.
Definition spaced (a b : rstr) : rstr := a ++ lit " " ++ b.

(** A notice naming the pids of a record. *)
Definition with_pids (notice : rstr) (r : HolderRecord) : rstr :=
  notice ++ lit " (child pid " ++ print_dec (hr_child_pid r) ++ lit ", holder pid " ++ print_dec (hr_holder_pid r) ++ lit ")".

Definition adoption_outcome (running : bool) : rstr := if running then LEFT_RUNNING else SINCE_EXITED.

(** [ExitOutcome]'s display, over the uppercasing of a signal's name. *)
Definition outcome_text (to_uppercase : rstr → rstr) (o : ExitOutcome) : rstr :=
  match o with
  | Succeeded => lit "exited with status 0"
  | Failed (Status status) => lit "exited with status " ++ print_dec status
  | Failed (Signal name) => lit "ended by signal: " ++ to_uppercase name
  | Failed Unknown_ => lit "ended without a status"
  end.

Record EndedRun := { er_process : rstr; er_outcome : ExitOutcome; er_at : N }.
Inductive StaleRelease := Detach | Discard.

Section lifecycle.
Context `{Watching} (env : Env) (nfc to_uppercase : rstr → rstr) (repaint_text : list N → PtySize → rstr).

Notation core s := (sup_core s).
Notation now s := (s_now (sup_core s)).

(** ** Records of a run *)

(** Stores how a run ended on its own, or forgets it. *)
Definition store_end (pane : N) (outcome : option ExitOutcome) (s : Sup) : Sup :=
  match proc s pane with
  | None => s
  | Some p => emit (match outcome with Some o => FEnded (p_name p) o (now s) | None => FCleared (p_name p) end) s
  end.

Definition alert_desktop (pane : N) (message : rstr) (s : Sup) : Sup :=
  if desktop_notifications (s_settings (core s))
  then match proc s pane with Some p => emit (FDesktop (p_name p) message) s | None => s end
  else s.

Definition end_run_kind (reason : ExitReason) (next : ProcessState) : EventKind :=
  match reason with
  | RCrashed | RKilled | RFailedToStart => Crashed
  | RStopped => if bool_decide (next = SRestarting) then Restarting else Stopped
  | RExited => Exited
  end.

Definition end_run (pane gen : N) (reason : ExitReason) (next : ProcessState) (detail : rstr) (s : Sup) : Sup :=
  let s := upd (on_restarts (Restarts.end_run pane {| re_generation := gen; re_at := now s; re_reason := reason |})) s in
  let s := tell (WForgetProbes pane) (upd (on_metrics (Metrics.clear_ports pane)) (tell (WSettleReadiness pane) s)) in
  let s := record_event pane (end_run_kind reason next) (MText detail) s in
  tell (WEndWaits pane (Some gen) (wait_status reason) next) s.

(** ** Timers *)
Definition schedule_force_stop (pane sg shg : N) (grace : duration) (s : Sup) : Sup := emit (FJob (JForceStop pane sg shg grace)) s.

(** Whether a run that began then counts as stable. *)
Definition ran_stable (started_at : N) (s : Sup) : bool := (RESTART_STABLE_RUN <=? now s - started_at)%N.

Definition schedule_restart (pane : N) (started_at : N) (s : Sup) : Sup :=
  let '(attempt, book) := Restarts.next_attempt pane (ran_stable started_at s) (s_restarts (core s)) in
  let s := bump_generation pane (upd (on_restarts (λ _, book)) s) in
  emit (FJob (JRespawn pane (current_generation s pane) (Restarts.backoff_delay attempt))) s.

(** ** Retiring *)
Definition retire_pane (pane : N) (s : Sup) : Sup :=
  let s := tell (WForgetReads pane) s in
  let s := tell (WEndWaits pane None WStopped SExited) s in
  let s := tell (WForgetTaps pane) (tell (WForgetProbes pane) s) in
  let s := upd (on_panes (delete pane)) (drop_handle pane s) in
  let s := bump_generation pane s in
  let s := upd (on_restarts (Restarts.forget pane)) s in
  let s := upd (on_failing_screens (λ f, f ∖ {[pane]})) s in
  let s := set_attached pane 0 s in
  let s := upd (on_metrics (Metrics.forget pane)) s in
  let s := upd (on_launches (Book.forget pane)) s in
  upd (on_workspace (λ w, ws_remove w pane)) s.

(** Settles a stop or kill of a pane that runs nothing. *)
Definition settle_stopped (pane : N) (s : Sup) : Sup :=
  tell (WEndWaits pane None WStopped SExited) (set_state pane SExited (deactivate pane (bump_generation pane s))).

(** ** Panes and terminals *)

(** A fresh pane over a handle or none; a handle with no process to go to is dropped. *)
Definition install_terminal (pane : N) (handle : option Handle) (s : Sup) : bool * Sup :=
  match proc s pane with
  | None => (false, match handle with Some h => emit (FDrop (h_id h)) s | None => s end)
  | Some _ =>
    let started := match handle ≫= h_started_at with Some t => N.min t (now s) | None => now s end in
    let s := set_attached pane (match handle with Some h => h_attached_clients h | None => 0%N end) s in
    let fresh := {| pn_screen := []; pn_handle := handle; pn_unsupervised := None; pn_started_at := started;
                    pn_exit_intent := FollowPolicy; pn_shutdown_generation := 0; pn_config_membership := Tracked |} in
    (true, upd (on_panes (<[pane := fresh]>)) (drop_handle pane s))
  end.

Definition keep_screen (pane : N) (repaint : list N) (size : PtySize) (s : Sup) : Sup :=
  alter_pane (set_screen (repaint_text repaint size)) pane s.

Definition install_pane (pane : N) (h : Handle) (s : Sup) : option (N * list N) * Sup :=
  let size := default (default_size (s_settings (core s))) (h_screen_size h) in
  let '(known, s) := install_terminal pane (Some h) s in
  if known then
    let s := set_state pane SRunning s in
    let s := match h_run_start h with Some start => tell (WPlaceRun pane start) s | None => s end in
    (h_backlog h, match h_initial_screen h with Some screen => keep_screen pane screen size s | None => s end)
  else (None, s).

(** ** Children left unsupervised *)

(** The pid of an unsupervised child while that same child runs. *)
Definition running_unsupervised_pid (pane : N) (s : Sup) : option N * Sup :=
  match unsupervised s pane with
  | None => (None, s)
  | Some c => let '(running, s) := call env (CIsRunning (uc_pid c) (uc_start_token c)) s in
              (if running then Some (uc_pid c) else None, s)
  end.

Definition leave_unsupervised (pane pid : N) (token : option N) (s : Sup) : bool * Sup :=
  let '(observed, s) := call env (CObserve pid token) s in
  if observed then
    let child := {| uc_pid := pid; uc_start_token := or_else token (tokens env (sup_trace s)); uc_kill_polls := 0;
                    uc_grace_deadline := None |} in
    let '(has_pane, s) :=
      if is_some (s_panes (core s) !! pane) then (true, s) else install_terminal pane None s in
    if has_pane
    then (true, set_state pane SUnsupervised (alter_pane (set_unsupervised (Some child)) pane (deactivate pane s)))
    else (false, s)
  else (false, s).

Definition settle_unsupervised_exit (pane : N) (s : Sup) : Sup :=
  let s := match s_collect_after_stop (core s) !! pane with
           | Some socket => emit (FCollect socket) (upd (on_collect_after_stop (delete pane)) s)
           | None => s
           end in
  match s_panes (core s) !! pane with
  | None => s
  | Some target =>
    let s := alter_pane (set_unsupervised None) pane s in
    if bool_decide (pn_config_membership target = RetireOnExit) then retire_pane pane s
    else set_state pane SExited (deactivate pane (bump_generation pane
           (alter_pane (change_intent (λ _, FollowPolicy)) pane s)))
  end.

(** Schedules the next check of an unsupervised stop, superseding any other. *)
Definition check_unsupervised_after (pane : N) (wait : duration) (s : Sup) : Sup :=
  let s := advance_shutdown_generation pane s in
  match generation s pane, shutdown_generation s pane with
  | Some sg, Some shg => schedule_force_stop pane sg shg wait s
  | _, _ => s
  end.

Definition give_up_unsupervised_stop (pane : N) (s : Sup) : Sup :=
  set_state pane SUnsupervised (alter_pane (change_intent (λ i, stop_delivery_failed (request_stop i))) pane s).

Definition signal_unsupervised (pane : N) (signal : GroupSignal) (wait : duration) (s : Sup) : Sup :=
  match unsupervised s pane with
  | None => s
  | Some c =>
    let '(running, s) := call env (CIsRunning (uc_pid c) (uc_start_token c)) s in
    if running then
      let '(delivered, s) := call env (CSignalGroup (uc_pid c) signal) s in
      let '(running, s) := call env (CIsRunning (uc_pid c) (uc_start_token c)) s in
      if running then
        if delivered then
          check_unsupervised_after pane wait
            (set_state pane SStopping (alter_pane (change_intent (λ i, stop_delivered (request_stop i))) pane s))
        else
          notify Error (Some pane) (MText (spaced UNSUPERVISED_STOP_FAILED (print_dec (uc_pid c)))) (give_up_unsupervised_stop pane s)
      else settle_unsupervised_exit pane s
    else settle_unsupervised_exit pane s
  end.

Definition poll_within (deadline : N) (s : Sup) : duration := N.min UNSUPERVISED_EXIT_POLL (deadline - now s)%N.

Definition alter_child (f : UnsupervisedChild → UnsupervisedChild) (pane : N) (s : Sup) : Sup :=
  alter_pane (λ p, set_unsupervised (f <$> pn_unsupervised p) p) pane s.

Definition stop_unsupervised (pane : N) (force : bool) (s : Sup) : Sup :=
  let policy := if force then None else stop_policy_of s pane in
  match s_panes (core s) !! pane with
  | None => s
  | Some target =>
    if negb force && negb (accepts_stop_request (pn_exit_intent target)) then s else
    let '(signal, deadline) :=
      match policy with
      | Some policy => (GStop (signal policy), Some (now s + grace_period policy)%N)
      | None => (GKill, None)
      end in
    let s := alter_child (begin_stop deadline) pane s in
    let wait := match deadline with Some d => poll_within d s | None => UNSUPERVISED_EXIT_POLL end in
    signal_unsupervised pane signal wait s
  end.

Definition escalate_unsupervised (pane : N) (s : Sup) : Sup :=
  match unsupervised s pane with
  | None => s
  | Some c =>
    let kill_on s :=
      let s := alter_child count_kill pane s in
      let kills := u32_next (uc_kill_polls c) in
      let '(survived, s) :=
        if (UNSUPERVISED_KILL_LIMIT <? kills)%N then call env (CIsRunning (uc_pid c) (uc_start_token c)) s else (false, s) in
      if survived then
        notify Error (Some pane) (MText (spaced UNSUPERVISED_KILL_GAVE_UP (print_dec (uc_pid c))))
          (give_up_unsupervised_stop pane (alter_child (begin_stop None) pane s))
      else signal_unsupervised pane GKill UNSUPERVISED_EXIT_POLL s in
    match uc_grace_deadline c with
    | None => kill_on s
    | Some deadline =>
      let '(running, s) := call env (CIsRunning (uc_pid c) (uc_start_token c)) s in
      if running then
        if (now s <? deadline)%N then check_unsupervised_after pane (poll_within deadline s) s
        else kill_on (alter_child end_grace pane s)
      else settle_unsupervised_exit pane s
    end
  end.

(** ** Retrying an adoption *)

(** The pid of an unsupervised child while it runs and is left alone. *)
Definition retryable_pid (pane : N) (s : Sup) : option N * Sup :=
  if negb (is_starting s pane) && bool_decide (state_of s pane = Some SUnsupervised)
  then running_unsupervised_pid pane s else (None, s).

Definition probe_adoption (pane attempt : N) (asked : bool) (s : Sup) : Sup :=
  let '(pid, s) := retryable_pid pane s in
  match pid with Some pid => emit (FJob (JProbe pane attempt asked pid)) s | None => s end.

Definition retry_adoption_now (pane : N) (s : Sup) : bool * Sup :=
  let '(pid, s) := retryable_pid pane s in
  match pid with
  | None => (false, s)
  | Some _ =>
    let '(attempt, book) := Retries.begin pane (s_retries (core s)) in
    (true, probe_adoption pane attempt true (upd (on_retries (λ _, book)) s))
  end.

Definition schedule_adoption_retry (pane : N) (s : Sup) : Sup :=
  let '(attempt, delay, book) := Retries.schedule pane (s_retries (core s)) in
  emit (FJob (JRetryDue pane attempt delay)) (upd (on_retries (λ _, book)) s).

(** ** Refusing a launch *)
Definition refuse_unsupervised_start (pane pid : N) (s : Sup) : Sup :=
  notify Error (Some pane) (MText (spaced UNSUPERVISED_START_REFUSED (print_dec pid))) s.

Definition refuse_unsupervised_launch (pane : N) (s : Sup) : bool * Sup :=
  if is_unsupervised s pane then
    let '(pid, s) := running_unsupervised_pid pane s in
    match pid with
    | Some pid =>
      let '(began, s) := retry_adoption_now pane s in
      (true, if began then s else refuse_unsupervised_start pane pid s)
    | None =>
      let n := p_name <$> proc s pane in
      let s := settle_unsupervised_exit pane s in
      match proc s pane with
      | None => (true, notify_process Error n (MText UNSUPERVISED_ROW_REMOVED) s)
      | Some _ => (false, s)
      end
    end
  else (false, s).

Definition refuse_stored_problem (pane : N) (s : Sup) : bool * Sup :=
  match proc s pane ≫= λ p, stored_problem (spec p) with
  | None => (false, s)
  | Some problem => (true, notify Error (Some pane) (MProblem problem) s)
  end.

(** The first needed port another process holds, with how many come before. *)
Fixpoint first_held (held : gmap N PortHolder) (me : PortHolder) (lower : nat) (ports : list N) : option (nat * N * PortHolder) :=
  match ports with
  | [] => None
  | port :: ports =>
    match held !! port with
    | Some holder => if bool_decide (holder = me) then first_held held me (S lower) ports else Some (lower, port, holder)
    | None => first_held held me (S lower) ports
    end
  end.

Definition launch_ports_of (s : Sup) (pane : N) : list N := default [] (process_launch_ports <$> proc s pane).

Definition sampled_block (s : Sup) (pane : N) : option PortBlock :=
  proc s pane ≫= λ p,
  let me := {| ph_project := pr_name (s_project (core s)); ph_process := p_name p |} in
  first_held (mb_held_ports (s_metrics (core s))) me 0 (launch_ports_of s pane) ≫= λ found,
  let '(lower, port, holder) := found in
  if (0 <? lower) && mb_port_occupants (s_metrics (core s)) then None
  else Some {| pb_port := port; pb_holder := OSupervised holder |}.

Definition block_launch (pane : N) (block : PortBlock) (s : Sup) : Sup :=
  let s := match proc s pane with
           | Some p => notify_blocked (p_name p) block s
           | None => notify Error None (MBlock block) s
           end in
  let s := record_event pane Blocked (MBlock block) s in
  set_state pane SBlocked (upd (on_metrics (Metrics.set_block pane block)) s).

Definition refuse_blocked_launch (pane : N) (s : Sup) : bool * Sup :=
  match sampled_block s pane with
  | None => (false, upd (on_metrics (Metrics.clear_block pane)) s)
  | Some block => (true, block_launch pane block s)
  end.

(** ** Launching *)
Definition set_launch_environment (pane : N) (environment : gmap rstr rstr) (s : Sup) : Sup :=
  upd (on_launches (Book.set_environment pane environment)) s.

Definition spawn_request (s : Sup) (pane : N) (restarting : bool) : option SpawnRequest :=
  proc s pane ≫= λ p,
  match launch_dir (spec p) (root s) with
  | Err _ => None
  | Ok dir =>
    let settings := s_settings (core s) in
    Some {| rq_process := p_name p; rq_command := p_command p; rq_working_dir := dir; rq_project := root s;
            rq_launch_environment := Book.environment_of (s_launches (core s)) pane; rq_environment := p_environment p;
            rq_size := default_size settings; rq_scrollback := scrollback settings; rq_log_max_size := log_max_size settings;
            rq_color_scheme := color_scheme settings; rq_stop := p_stop p;
            rq_history := Restarts.history (s_restarts (core s)) pane restarting |}
  end.

(** Hands the launch to a worker, once nothing refuses it. *)
Definition launch_now (pane : N) (prior : ProcessState) (s : Sup) : Sup :=
  let restarting := bool_decide (prior = SRestarting) in
  match spawn_request s pane restarting with
  | None => s
  | Some request =>
    let s := bump_generation pane (upd (on_metrics (Metrics.clear_usage pane)) s) in
    let gen := current_generation s pane in
    let s := tell (WBeginRun pane) s in
    let s := upd (on_launches (Book.begin pane (Launches.new gen prior (Spawn restarting)))) s in
    let s := set_state pane SStarting s in
    let ports := launch_ports_of s pane in
    let needed := if mb_port_occupants (s_metrics (core s)) && negb (bool_decide (ports = [])) then Some ports else None in
    emit (FJob (JSpawn pane gen request needed)) s
  end.

Definition spawn_with (pane : N) (environment : option (gmap rstr rstr)) (s : Sup) : Sup :=
  if is_starting s pane then s else
  let '(refused, s) := refuse_unsupervised_launch pane s in
  if refused then s else
  let '(refused, s) := refuse_stored_problem pane s in
  if refused then s else
  let '(refused, s) := refuse_blocked_launch pane s in
  if refused then s else
  match state_of s pane with
  | None => notify Error None (MText SPAWN_UNKNOWN_PROCESS) s
  | Some prior =>
    launch_now pane prior (match environment with Some e => set_launch_environment pane e s | None => s end)
  end.

Definition spawn (pane : N) (s : Sup) : Sup := spawn_with pane None s.

(** ** Requests on a pane *)
Definition record_intent (pane : N) (i : PendingIntent) (s : Sup) : bool * Sup :=
  let '(starting, book) := Book.record_intent pane i (s_launches (core s)) in (starting, upd (on_launches (λ _, book)) s).

Definition record_suspend (pane : N) (pause : bool) (s : Sup) : bool * Sup :=
  let '(starting, book) := Book.record_suspend pane pause (s_launches (core s)) in (starting, upd (on_launches (λ _, book)) s).

(** Delivers a stop signal with its grace, or a kill; gives whether the grace
    is awaited, whether the kill stood in, and whether either was delivered. *)
Definition deliver_stop (pane : N) (policy : StopPolicy) (s : Sup) : (bool * bool * bool) * Sup :=
  match live s pane with
  | None => ((false, false, false), s)
  | Some h =>
    let '(ok, s) := call env (CTerminate (h_id h) (signal policy) (grace_period policy)) s in
    if ok then ((true, false, true), s)
    else let '(killed, s) := call env (CKill (h_id h)) s in ((false, true, killed), s)
  end.

Definition delivery (restart delivered : bool) : ExitIntent → ExitIntent :=
  match restart, delivered with
  | true, true => restart_delivered
  | true, false => restart_delivery_failed
  | false, true => stop_delivered
  | false, false => stop_delivery_failed
  end.

Definition request_graceful_transition (pane : N) (request : ExitIntent → ExitIntent) (restart : bool) (s : Sup) : Sup :=
  match stop_policy_of s pane with
  | None => s
  | Some policy =>
    let sg := generation s pane in
    let s := advance_shutdown_generation pane s in
    let shg := shutdown_generation s pane in
    let s := alter_pane (change_intent request) pane s in
    let '((awaiting, fallback, delivered), s) := deliver_stop pane policy s in
    let s := if is_live s pane then alter_pane (change_intent (delivery restart delivered)) pane s else s in
    let s := if delivered then
               let s := set_state pane SStopping s in
               if fallback then notify Warning (Some pane) (MText GRACEFUL_STOP_FALLBACK_NOTICE) s else s
             else notify Error (Some pane) (MText STOP_DELIVERY_FAILED_NOTICE) s in
    match awaiting, sg, shg with
    | true, Some sg, Some shg => schedule_force_stop pane sg shg (grace_period policy) s
    | _, _, _ => s
    end
  end.

(** Supersedes the timed retry adopting an unsupervised child. *)
Definition supersede_retry_adoption (pane : N) (s : Sup) : Sup :=
  if is_unsupervised s pane && is_starting s pane
  then advance_generation pane (upd (on_launches (Book.supersede_by_stop pane)) s) else s.

Definition stop_pane (pane : N) (s : Sup) : Sup :=
  let s := supersede_retry_adoption pane s in
  let '(starting, s) := record_intent pane IStop s in
  if starting then s
  else if is_unsupervised s pane then stop_unsupervised pane false s
  else match s_panes (core s) !! pane with
  | Some target =>
    if is_some (pn_handle target) && negb (accepts_stop_request (pn_exit_intent target)) then s
    else if is_live s pane then request_graceful_transition pane request_stop false s else settle_stopped pane s
  | None => settle_stopped pane s
  end.

Definition force_kill_pane (pane : N) (s : Sup) : Sup :=
  let s := supersede_retry_adoption pane s in
  let '(starting, s) := record_intent pane IKill s in
  if starting then s
  else if is_unsupervised s pane then stop_unsupervised pane true s
  else match live s pane with
  | None => settle_stopped pane s
  | Some h =>
    let s := alter_pane (change_intent request_stop) pane (advance_shutdown_generation pane s) in
    let '(delivered, s) := call env (CKill (h_id h)) s in
    let s := alter_pane (change_intent (if delivered then stop_delivered else stop_delivery_failed)) pane s in
    if delivered then set_state pane SStopping s
    else notify Error (Some pane) (MText STOP_DELIVERY_FAILED_NOTICE) s
  end.

Definition signal_pause (pane : N) (pause : bool) (s : Sup) : Sup :=
  match s_panes (core s) !! pane with
  | None => s
  | Some target =>
    if bool_decide (pn_exit_intent target ≠ FollowPolicy) then s else
    match pn_handle target with
    | None => s
    | Some h =>
      let '(signalled, s) := call env (if pause then CPause (h_id h) else CResume (h_id h)) s in
      match signalled, pause with
      | true, true => set_state pane SPaused s
      | true, false => set_state pane SRunning s
      | false, true => notify Error (Some pane) (MText PAUSE_FAILED_NOTICE) s
      | false, false => notify Error (Some pane) (MText RESUME_FAILED_NOTICE) s
      end
    end
  end.

Definition pause_pane (pane : N) (s : Sup) : Sup :=
  let '(starting, s) := record_suspend pane true s in
  if starting then s else if is_paused s pane then s else signal_pause pane true s.

Definition resume_pane (pane : N) (s : Sup) : Sup :=
  let '(starting, s) := record_suspend pane false s in
  if starting then s else if is_paused s pane then signal_pause pane false s else s.

Definition start_pane (pane : N) (environment : gmap rstr rstr) (s : Sup) : Sup :=
  if is_live s pane || is_starting s pane then s
  else spawn_with pane (Some environment) (upd (on_restarts (Restarts.end_streaks pane)) s).

Definition restart_pane (pane : N) (environment : option (gmap rstr rstr)) (s : Sup) : Sup :=
  let take_environment s := match environment with Some e => set_launch_environment pane e s | None => s end in
  let '(starting, s) := record_intent pane IRestart s in
  if starting then take_environment s else
  let s := upd (on_restarts (Restarts.end_streaks pane)) s in
  match s_panes (core s) !! pane ≫= λ target, pn_handle target ≫= λ _, Some target with
  | Some target =>
    if negb (accepts_restart_request (pn_exit_intent target)) then s
    else request_graceful_transition pane request_restart true (take_environment s)
  | None =>
    let counted_by_spawn := bool_decide (state_of s pane = Some SRestarting) in
    let before := generation s pane in
    let s := spawn_with pane environment s in
    if counted_by_spawn || bool_decide (generation s pane = before) then s
    else if is_live s pane then upd (on_restarts (Restarts.count_restart pane)) s
    else upd (on_launches (Book.mark_restarting pane)) s
  end.

(** Applies what was asked of a pane while it was starting. *)
Definition apply_pending (pane : N) (membership : option ConfigMembership) (suspend : option bool)
    (intent : option PendingIntent) (s : Sup) : Sup :=
  let s := match membership with Some m => alter_pane (set_config_membership m) pane s | None => s end in
  if bool_decide (membership = Some RetireOnExit) && negb (holds_process s pane) then retire_pane pane s else
  let s := match suspend with Some true => pause_pane pane s | Some false => resume_pane pane s | None => s end in
  match intent with
  | Some IStop => stop_pane pane s
  | Some IKill => force_kill_pane pane s
  | Some IRestart => restart_pane pane None s
  | None => s
  end.

(** ** Exits *)
Definition report_unrequested_exit (pane : N) (intent : ExitIntent) (started_at : N) (o : ExitOutcome) (s : Sup) : Sup :=
  let s := if ran_stable started_at s then upd (on_restarts (Restarts.end_crash_streak pane)) s else s in
  if is_stop intent || is_restart intent || negb (is_failure o) then s
  else if is_some (proc s pane) then
    let '(first, book) := Restarts.crashed pane (s_restarts (core s)) in
    let s := upd (on_restarts (λ _, book)) s in
    if first then
      let message := colon CRASHED_NOTICE (outcome_text to_uppercase o) in
      notify Error (Some pane) (MText message) (alert_desktop pane message s)
    else s
  else s.

Definition next_state (d : ExitDecision) : ProcessState :=
  match d with Retire | Stop => SExited | RestartNow | RestartLater => SRestarting | Settle state => state end.

(** Applies the lifecycle decision to one exit; gives whether the pane retired. *)
Definition apply_exit (pane : N) (o : ExitOutcome) (s : Sup) : option bool * Sup :=
  match s_panes (core s) !! pane with
  | None => (None, s)
  | Some target =>
    let intent := pn_exit_intent target in
    let started_at := pn_started_at target in
    let decision := after_exit intent (bool_decide (pn_config_membership target = RetireOnExit))
                      (ws_should_restart (s_workspace (core s)) pane o) o in
    let s := report_unrequested_exit pane intent started_at o s in
    let requested := is_stop intent || is_restart intent in
    let s := end_run pane (current_generation s pane) (reason_of o requested) (next_state decision) (outcome_text to_uppercase o) s in
    let s := store_end pane (if requested then None else Some o) s in
    let s := upd (on_restarts (Restarts.record_exit pane o)) s in
    match decision with
    | Retire => (Some true, retire_pane pane s)
    | Stop => (Some false, set_state pane SExited (deactivate pane s))
    | RestartNow =>
      (Some false, spawn pane (deactivate pane (set_state pane SRestarting (upd (on_restarts (Restarts.reset_backoff pane)) s))))
    | RestartLater => (Some false, schedule_restart pane started_at (deactivate pane (set_state pane SRestarting s)))
    | Settle state => (Some false, set_state pane state (deactivate pane s))
    end
  end.

Definition acknowledge (pane : N) (h : Handle) (s : Sup) : Sup :=
  let '(ok, s) := call env (CAcknowledge (h_id h)) s in
  if ok then s
  else notify Warning (if is_some (proc s pane) then Some pane else None) (MText EXIT_ACKNOWLEDGE_FAILED_NOTICE) s.

Definition handle_exit (pane : N) (o : ExitOutcome) (s : Sup) : Sup :=
  match live s pane with
  | None => (apply_exit pane o s).2
  | Some finished =>
    let '(retired, s) := apply_exit pane o (alter_pane take_handle pane s) in
    if bool_decide (retired ≠ Some true) && awaits_respawn s pane then
      let '(displaced, book) := Attach.hold_exit pane finished (s_attach (core s)) in
      let s := upd (on_attach (λ _, book)) s in
      match displaced with Some h => acknowledge pane h s | None => s end
    else acknowledge pane finished s
  end.

Definition release_held_exit (pane : N) (s : Sup) : Sup :=
  let '(held, book) := Attach.release pane (s_attach (core s)) in
  let s := upd (on_attach (λ _, book)) s in
  match held with Some h => acknowledge pane h s | None => s end.

Definition release_settled_exits (s : Sup) : Sup :=
  foldl (λ s pane, release_held_exit pane s) s (filter (λ pane, awaits_respawn s pane = false) (Attach.holding (s_attach (core s)))).

(** ** Reconnecting *)
Definition adoption_failed_unsupervised (pane : N) (record : HolderRecord) (error : rstr) (s : Sup) : Sup :=
  let '(first, book) := Retries.first_failure pane (hr_holder_pid record) (s_retries (core s)) in
  let s := upd (on_retries (λ _, book)) s in
  schedule_adoption_retry pane
    (if first then notify Error (Some pane) (MText (with_pids (colon (ADOPT_FAILED_NOTICE ++ LEFT_RUNNING) error) record)) s else s).

(** Settles a reconnect that could not supervise the holder again, with the
    record and error of a failed adoption when there was one. *)
Definition reconnect_failed (pane : N) (carried : CarriedPane) (failed : option (HolderRecord * rstr)) (s : Sup) : Sup :=
  let '(running, s) :=
    match cp_pid carried with
    | Some pid => leave_unsupervised pane pid (failed ≫= λ f, hr_child_start_token f.1) s
    | None => (false, s)
    end in
  let s := match failed with
           | Some (record, error) =>
             if running then adoption_failed_unsupervised pane record error s
             else notify Error (Some pane) (MText (with_pids (colon (ADOPT_FAILED_NOTICE ++ SINCE_EXITED) error) record))
                    (emit (FCollectKilling (hr_socket record)) s)
           | None =>
             notify Error (Some pane)
               (MText (colon (ADOPT_FAILED_NOTICE ++ adoption_outcome running)
                         (spaced NO_HOLDER_RECORD (match cp_pid carried with Some pid => print_dec pid | None => [] end)))) s
           end in
  if running then (if is_stop (cp_intent carried) then stop_unsupervised pane false s else s)
  else (apply_exit pane FAILED_UNKNOWN (alter_pane (restore carried) pane s)).2.

(** Lets go of a broken connection and looks for its holder on a worker. *)
Definition reconnect (pane : N) (s : Sup) : Sup :=
  let state := state_of s pane in
  match s_panes (core s) !! pane ≫= carry_over state with
  | None => s
  | Some carried =>
    let s := alter_pane take_handle pane (drop_handle pane s) in
    match cp_pid carried with
    | Some pid =>
      let s := bump_generation pane s in
      let gen := current_generation s pane in
      let s := upd (on_launches (Book.begin pane (Launches.new gen (default SPending state) (Adopt (Some carried))))) s in
      emit (FJob (JLocate pane gen pid)) (set_state pane SStarting s)
    | None => reconnect_failed pane carried None (bump_generation pane s)
    end
  end.

(** ** Output *)
Definition keep_early (pane gen : N) (o : ProcessOutput) (s : Sup) : option ProcessOutput * Sup :=
  let '(back, book) := Book.keep_early pane gen o (s_launches (core s)) in (back, upd (on_launches (λ _, book)) s).

Definition handle_output (pane gen : N) (o : ProcessOutput) (s : Sup) : Sup :=
  if bool_decide (generation s pane ≠ Some gen) then s else
  let '(back, s) := keep_early pane gen o s in
  match back with
  | None => s
  | Some (Chunk bytes) => if is_some (s_panes (core s) !! pane) then tell (WTap pane None bytes) s else s
  | Some (Placed at_ bytes) => if is_some (s_panes (core s) !! pane) then tell (WTap pane (Some at_) bytes) s else s
  | Some (OUnlogged bytes) => if is_some (s_panes (core s) !! pane) then tell (WUnlogged pane bytes) s else s
  | Some (Repaint bytes size) => keep_screen pane bytes size s
  | Some (OWarning text) => notify Warning (Some pane) (MText text) s
  | Some (OAttached count) => if is_live s pane then set_attached pane count s else s
  | Some (Unreadable_ reason) =>
    reconnect pane (notify Error (Some pane) (MText (colon OUTPUT_UNREADABLE_NOTICE reason)) s)
  | Some (OExited outcome) => handle_exit pane outcome s
  end.

(** Feeds the logged backlog, then the output kept while launching, in order. *)
Definition replay (pane gen : N) (backlog : option (N * list N)) (early : list ProcessOutput) (s : Sup) : Sup :=
  let s := match backlog with
           | Some (at_, bytes) => if is_some (s_panes (core s) !! pane) then tell (WTap pane (Some at_) bytes) s else s
           | None => s
           end in
  foldl (λ s o, handle_output pane gen o s) s early.

Definition handle_respawn (pane gen : N) (s : Sup) : Sup :=
  if bool_decide (generation s pane = Some gen) then spawn pane s else s.

Definition handle_force_stop (pane sg shg : N) (s : Sup) : Sup :=
  if bool_decide (generation s pane ≠ Some sg) then s else
  match s_panes (core s) !! pane with
  | None => s
  | Some target =>
    if bool_decide (pn_shutdown_generation target ≠ shg) || negb (awaits_force_stop (pn_exit_intent target)) then s else
    let s := alter_pane advance_shutdown pane s in
    if is_some (pn_unsupervised target) then escalate_unsupervised pane s else
    match pn_handle target with
    | None => s
    | Some h =>
      let '(killed, s) := call env (CKill (h_id h)) s in
      if killed then notify Warning (Some pane) (MText FORCE_STOP_NOTICE) (set_state pane SStopping s)
      else notify Error (Some pane) (MText STOP_DELIVERY_FAILED_NOTICE) (alter_pane (change_intent force_stop_delivery_failed) pane s)
    end
  end.

(** ** Settling a launch *)
Definition take_launch (pane gen : N) (s : Sup) : option PendingLaunch * Sup :=
  if bool_decide (generation s pane = Some gen)
  then let '(l, book) := Book.take pane gen (s_launches (core s)) in (l, upd (on_launches (λ _, book)) s)
  else (None, s).

Definition stale_release (pane gen : N) (s : Sup) : StaleRelease * Sup :=
  let '(l, book) := Book.take pane gen (s_launches (core s)) in
  (if is_some l && detaching (s_launches (core s)) then Detach else Discard, upd (on_launches (λ _, book)) s).

Definition release_stale (r : StaleRelease) (h : Handle) (s : Sup) : Sup :=
  match r with Detach => emit (FDrop (h_id h)) s | Discard => emit (FAbandon (h_id h)) s end.

Definition install_spawned (pane gen : N) (r : result Handle rstr) (restarting : bool) (early : list ProcessOutput) (s : Sup) : bool * Sup :=
  match r with
  | Ok h =>
    let s := if restarting then upd (on_restarts (Restarts.count_restart pane)) s else s in
    let s := release_held_exit pane (upd (on_restarts (Restarts.spawned pane)) s) in
    let '(backlog, s) := install_pane pane h s in
    let s := store_end pane None s in
    let pid := live s pane ≫= h_process_id in
    let s := record_event pane Started (MText (match pid with Some pid => lit "pid " ++ print_dec pid | None => [] end)) s in
    let s := replay pane gen backlog early (tell (WArmProbes pane) s) in
    (runs_launch s pane gen, s)
  | Err error =>
    let s := deactivate pane s in
    let message := colon SPAWN_FAILED_NOTICE error in
    let '(first, book) := Restarts.spawn_failed pane (s_restarts (core s)) in
    let s := upd (on_restarts (λ _, book)) s in
    let s := if first then notify Error (Some pane) (MText message) (alert_desktop pane message s) else s in
    let next := if ws_should_restart (s_workspace (core s)) pane FAILED_UNKNOWN then SRestarting else SCrashed in
    let s := end_run pane gen RFailedToStart next message s in
    let s := set_state pane next (store_end pane (Some FAILED_UNKNOWN) s) in
    (false, if bool_decide (next = SRestarting) then schedule_restart pane (now s) s else s)
  end.

Definition handle_spawned (pane gen : N) (r : result Handle rstr) (s : Sup) : Sup :=
  let '(l, s) := take_launch pane gen s in
  match l with
  | None =>
    let '(release, s) := stale_release pane gen s in
    match release, r with
    | Detach, Ok h => release_stale Detach h (release_held_exit pane s)
    | Detach, Err _ =>
      let '(held, book) := Attach.release pane (s_attach (core s)) in
      let s := upd (on_attach (λ _, book)) s in
      match held with Some h => emit (FDrop (h_id h)) s | None => s end
    | Discard, Ok h => release_stale Discard h s
    | Discard, Err _ => s
    end
  | Some l =>
    match pl_purpose l with
    | Adopt _ => match r with Ok h => emit (FAbandon (h_id h)) s | Err _ => s end
    | Spawn restarting =>
      let '(installed, s) := install_spawned pane gen r restarting (pl_early l) s in
      apply_pending pane (pl_membership l) (if installed then pl_suspend l else None) (pl_intent l) s
    end
  end.

Definition handle_launch_blocked (pane gen : N) (block : PortBlock) (s : Sup) : Sup :=
  let '(l, s) := take_launch pane gen s in
  match l with
  | None => (stale_release pane gen s).2
  | Some l =>
    let s := block_launch pane block (tell (WUnready pane) s) in
    let s := tell (WEndWaits pane (Some gen) WNotRunning SBlocked) s in
    apply_pending pane (pl_membership l) None (pl_intent l) s
  end.

(** ** Adopting holders *)

(** Whether a record's child still runs; the exit of one gone is collected. *)
Definition child_runs_or_collect (record : HolderRecord) (s : Sup) : bool * Sup :=
  let '(running, s) := call env (CObserve (hr_child_pid record) (hr_child_start_token record)) s in
  (running, if running then s else emit (FCollectKilling (hr_socket record)) s).

Definition report_superseded_failure (record : HolderRecord) (error : rstr) (s : Sup) : Sup :=
  let '(running, s) := child_runs_or_collect record s in
  if running
  then notify_process Error (Some (hr_process record)) (MText (with_pids (colon (ADOPT_FAILED_NOTICE ++ LEFT_RUNNING) error) record)) s
  else s.

Definition set_membership (pane : N) (m : ConfigMembership) (s : Sup) : Sup :=
  alter_pane (set_config_membership m) pane (upd (on_launches (Book.record_membership pane m)) s).

Definition stop_removed (pane : N) (s : Sup) : Sup :=
  let s := set_membership pane RetireOnExit (notify Warning (Some pane) (MText ADOPT_REMOVED_NOTICE) s) in
  let '(starting, s) := record_intent pane IStop s in
  if starting then s else if holds_process s pane then stop_pane pane s else retire_pane pane s.

(** One past every pane of the workspace and every pane with a generation. *)
Definition fresh_pane (s : Sup) : N :=
  N.max (next_id_of (s_workspace (core s))) (foldr (λ kv, N.max (kv.1 + 1)) 0%N (map_to_list (s_generations (core s)))).

Definition add_removed_pane (record : HolderRecord) (s : Sup) : N * Sup :=
  let pane := fresh_pane s in
  let spec := {| name := hr_process record; command := hr_command record; working_dir := None; description := None;
                 environment := ∅; autostart := false; restart := Never_; stop := hr_stop record; ready := None; ports := ∅ |} in
  (pane, upd (on_workspace (λ w, ws_push w (to_process spec pane))) s).

Definition adoptable_pane (record : HolderRecord) (s : Sup) : option N * Sup :=
  match pane_named nfc s (hr_process record) with
  | None => let '(pane, s) := add_removed_pane record s in (Some pane, s)
  | Some pane =>
    if holds_process s pane then
      let '(running, s) := child_runs_or_collect record s in
      (None, if running then notify Warning (Some pane) (MText (with_pids ADOPT_DUPLICATE_NOTICE record)) s else s)
    else (Some pane, s)
  end.

Definition adopt (record : HolderRecord) (s : Sup) : Sup :=
  let removed := negb (is_some (pane_named nfc s (hr_process record))) in
  let '(pane, s) := adoptable_pane record s in
  match pane with
  | None => s
  | Some pane =>
    let s := upd (on_launches (Book.set_environment pane (hr_launch_environment record))) s in
    let s := bump_generation pane s in
    let gen := current_generation s pane in
    let prior := default SPending (state_of s pane) in
    let s := upd (on_launches (Book.begin pane (Launches.new gen prior (Adopt None)))) s in
    let s := set_state pane SStarting s in
    let s := if removed then stop_removed pane s else s in
    emit (FJob (JAdopt pane gen record None)) s
  end.

Definition collect_once_stopped (pane : N) (record : HolderRecord) (s : Sup) : Sup :=
  let '(pid, s) := running_unsupervised_pid pane s in
  if bool_decide (pid = Some (hr_child_pid record))
  then upd (on_collect_after_stop (<[pane := hr_socket record]>)) s
  else emit (FCollect (hr_socket record)) s.

Definition rearm_force_stop (pane : N) (s : Sup) : Sup :=
  match stop_policy_of s pane with
  | None => s
  | Some policy =>
    let s := advance_shutdown_generation pane s in
    match generation s pane, shutdown_generation s pane with
    | Some sg, Some shg => schedule_force_stop pane sg shg (grace_period policy) s
    | _, _ => s
    end
  end.

(** Supervises an adopted handle, giving back what a reconnect carried. *)
Definition install_adopted (pane gen : N) (record : HolderRecord) (h : Handle) (carried : option CarriedPane)
    (early : list ProcessOutput) (s : Sup) : Sup :=
  let s := tell (WReplays pane (h_output_end h)) (upd (on_retries (Retries.forget pane)) s) in
  let '(backlog, s) := install_pane pane h s in
  let s := match carried with
           | None => tell (WAdoptRun pane) (upd (on_restarts (Restarts.take_history pane (hr_history record))) s)
           | Some _ => s
           end in
  let s := tell (WArmProbes pane) s in
  let s := match carried with
           | None => s
           | Some c =>
             let s := alter_pane (restore c) pane s in
             let s := match cp_state c with Some st => set_state pane st s | None => s end in
             if awaits_force_stop (cp_intent c) then rearm_force_stop pane s else s
           end in
  replay pane gen backlog early (tell (WStartReplay pane) s).

Definition settle_adoption (pane gen : N) (record : HolderRecord) (r : result Handle rstr) (s : Sup) : Sup :=
  let '(l, s) := take_launch pane gen s in
  match l with
  | None =>
    let '(stopped, book) := Book.take_stopped_adoption pane gen (s_launches (core s)) in
    let s := upd (on_launches (λ _, book)) s in
    if stopped then
      match r with
      | Ok h => collect_once_stopped pane record (emit (FDrop (h_id h)) s)
      | Err error => report_superseded_failure record error s
      end
    else
      let '(release, s) := stale_release pane gen s in
      match r with Ok h => release_stale release h s | Err error => report_superseded_failure record error s end
  | Some l =>
    match pl_purpose l with
    | Spawn _ => match r with Ok h => emit (FAbandon (h_id h)) s | Err _ => s end
    | Adopt carried =>
      let carried := (λ c, with_membership c (pl_membership l)) <$> carried in
      match r with
      | Err error =>
        let s := set_state pane (pl_prior_state l) s in
        match carried with
        | Some c =>
          let s := reconnect_failed pane c (Some (record, error)) s in
          if is_some (proc s pane) then apply_pending pane (pl_membership l) None (pl_intent l) s else s
        | None =>
          let '(lefts, s) := leave_unsupervised pane (hr_child_pid record) (hr_child_start_token record) s in
          let s := if lefts then adoption_failed_unsupervised pane record error s
                   else notify Error (Some pane) (MText (with_pids (colon (ADOPT_FAILED_NOTICE ++ SINCE_EXITED) error) record))
                          (emit (FCollectKilling (hr_socket record)) s) in
          apply_pending pane (pl_membership l) None (pl_intent l) s
        end
      | Ok h =>
        let s := install_adopted pane gen record h carried (pl_early l) s in
        apply_pending pane (pl_membership l) (if runs_launch s pane gen then pl_suspend l else None) (pl_intent l) s
      end
    end
  end.

Definition handle_adopted (pane gen : N) (record : HolderRecord) (r : result Handle rstr) (s : Sup) : Sup :=
  tell WReleaseAdoptionWaits (settle_adoption pane gen record r s).

Definition settle_superseded_search (pane : N) (record : HolderRecord) (s : Sup) : Sup :=
  let '(running, s) := child_runs_or_collect record s in
  if running then
    let unclaimed := bool_decide (pane_named nfc s (hr_process record) = Some pane) && negb (holds_process s pane) in
    let '(lefts, s) :=
      if unclaimed then leave_unsupervised pane (hr_child_pid record) (hr_child_start_token record) s else (false, s) in
    let s := if lefts then schedule_adoption_retry pane s else s in
    notify_process Error (Some (hr_process record)) (MText (with_pids (ADOPT_FAILED_NOTICE ++ LEFT_RUNNING) record)) s
  else s.

Definition handle_reconnect_located (pane gen : N) (record : option HolderRecord) (s : Sup) : Sup :=
  let detaching_ := detaching (s_launches (core s)) in
  let '(l, s) := take_launch pane gen s in
  let s := match l with None => upd (on_launches (λ b, (Book.take pane gen b).2)) s | Some _ => s end in
  match (if detaching_ then None else l) with
  | None =>
    match (if detaching_ then None else record) with
    | Some record => settle_superseded_search pane record s
    | None => s
    end
  | Some l =>
    match pl_purpose l with
    | Adopt (Some carried) =>
      let record := record ≫= λ r,
        if bool_decide (pane_named nfc s (hr_process r) = Some pane) && negb (holds_process s pane) then Some r else None in
      match record with
      | None =>
        let s := set_state pane (pl_prior_state l) s in
        let s := reconnect_failed pane (with_membership carried (pl_membership l)) None s in
        if is_some (proc s pane) then apply_pending pane (pl_membership l) None (pl_intent l) s else s
      | Some record =>
        let since := Some (output_position (sup_watch s) pane) in
        emit (FJob (JAdopt pane gen record since)) (upd (on_launches (Book.begin pane l)) s)
      end
    | _ => s
    end
  end.

Definition begin_retry_adoption (pane : N) (record : HolderRecord) (s : Sup) : Sup :=
  let s := bump_generation pane s in
  let gen := current_generation s pane in
  let s := upd (on_launches (Book.set_environment pane (hr_launch_environment record))) s in
  let s := upd (on_launches (Book.begin pane (Launches.new gen SUnsupervised (Adopt None)))) s in
  emit (FJob (JAdopt pane gen record None)) s.

Definition handle_adoption_retry_due (pane attempt : N) (s : Sup) : Sup :=
  if Retries.is_current (s_retries (core s)) pane attempt then
    let '(pid, s) := retryable_pid pane s in
    if is_some pid then probe_adoption pane attempt false s else s
  else s.

Definition handle_adoption_probed (pane attempt : N) (asked : bool) (record : option HolderRecord) (s : Sup) : Sup :=
  if Retries.is_current (s_retries (core s)) pane attempt then
    let '(pid, s) := retryable_pid pane s in
    match pid with
    | None => s
    | Some pid =>
      match record ≫= λ r, if (hr_child_pid r =? pid)%N then Some r else None with
      | Some record => begin_retry_adoption pane record s
      | None => schedule_adoption_retry pane (if asked then refuse_unsupervised_start pane pid s else s)
      end
    end
  else s.

(** ** Requests on the project *)
Definition finish_batch (acted : list rstr) (left_stopped : list Refusal) (s : Sup) : BatchOutcome * Sup :=
  let '(refused, s) := end_batch s in
  ({| bo_acted := acted; bo_refused := filter (λ r, rf_name r ∉ acted) refused ++ left_stopped; bo_already_running := [];
      bo_stopping := []; bo_paused := []; bo_waits := [] |}, s).

(** [Iterator::filter_map] over an answer of the system, in order. *)
Fixpoint collect_with {A B} (f : A → Sup → option B * Sup) (l : list A) (s : Sup) : list B * Sup :=
  match l with
  | [] => ([], s)
  | a :: l =>
    let '(b, s) := f a s in
    let '(bs, s) := collect_with f l s in
    (match b with Some b => b :: bs | None => bs end, s)
  end.

(** The panes marked to start with the project that run nothing. *)
Definition autostart_panes (s : Sup) : list N * Sup :=
  collect_with (λ pane s,
      if is_live s pane || is_starting s pane then (None, s)
      else let '(pid, s) := running_unsupervised_pid pane s in (if is_some pid then None else Some pane, s))
    (p_id <$> filter (λ p, p_autostart p = true) (s_workspace (core s))) s.

Definition unsupervised_refusal (pane : N) (s : Sup) : option Refusal * Sup :=
  let '(pid, s) := running_unsupervised_pid pane s in
  (pid ≫= λ pid, proc s pane ≫= λ p,
     Some {| rf_name := p_name p; rf_reason := MText (spaced UNSUPERVISED_START_REFUSED (print_dec pid)); rf_block := None |}, s).

Definition up (environment : gmap rstr rstr) (s : Sup) : BatchOutcome * Sup :=
  let held s p := is_live s (p_id p) || is_starting s (p_id p) in
  let before := list_to_set (C := gset N) (p_id <$> filter (λ p, held s p = true) (s_workspace (core s))) in
  let found (st : ProcessState → bool) :=
    p_name <$> filter (λ p, p_autostart p && bool_decide (p_id p ∈ before) && negb (is_unsupervised s (p_id p)) && st (p_state p) = true)
                 (s_workspace (core s)) in
  let already := found (λ st, negb (bool_decide (st = SStopping) || bool_decide (st = SPaused))) in
  let stopping := found (λ st, bool_decide (st = SStopping)) in
  let paused := found (λ st, bool_decide (st = SPaused)) in
  let '(panes, s) := autostart_panes (begin_batch s) in
  let s := foldl (λ s pane, spawn_with pane (Some environment) (upd (on_restarts (Restarts.end_crash_streak pane)) s)) s panes in
  let acted := p_name <$> filter (λ p, bool_decide (p_id p ∉ before) && held s p = true) (s_workspace (core s)) in
  let '(lefts, s) := collect_with unsupervised_refusal (p_id <$> filter (λ p, p_autostart p = true) (s_workspace (core s))) s in
  let '(batch, s) := finish_batch acted lefts s in
  (with_found already stopping paused batch, s).

Definition down (s : Sup) : BatchOutcome * Sup :=
  let processes := (λ p, (p_id p, p_name p)) <$> filter (λ p, may_be_running (p_state p) = true) (s_workspace (core s)) in
  let s := foldl (λ s pn, stop_pane pn.1 s) (begin_batch s) processes in
  let refused := refused_so_far s in
  finish_batch (filter (λ n, n ∉ refused) processes.*2) [] s.

Definition on_named (f : N → Sup → Sup) (n : rstr) (s : Sup) : Sup :=
  let '(pane, s) := resolve nfc n s in match pane with Some pane => f pane s | None => s end.

(** Brings the workspace in line with the stored stack. *)
Definition apply_stack (stack : Stack) (s : Sup) : Sup :=
  let s := upd (on_project (λ _, st_project stack)) s in
  let sync := apply nfc (s_workspace (core s)) (st_processes stack) (holds_process s) in
  let s := upd (on_workspace (λ _, ss_workspace sync)) s in
  let s := foldl (λ s pane, retire_pane pane s) s (ss_removed sync) in
  let kept := filter (λ pane, pane ∉ ss_added sync ∧ pane ∉ ss_retiring sync) (p_id <$> s_workspace (core s)) in
  let s := foldl (λ s pane, set_membership pane Tracked s) s kept in
  foldl (λ s pane, stop_pane pane (set_membership pane RetireOnExit s)) s (ss_retiring sync).

(** Shows how earlier runs ended on panes that have not run. *)
Definition restore_end (s : Sup) (run : EndedRun) : Sup :=
  match pane_named nfc s (er_process run) with
  | None => s
  | Some pane =>
    if bool_decide (state_of s pane = Some SPending) then
      set_state pane (exit_state (er_outcome run)) (upd (on_restarts (Restarts.take_stored_end pane (er_outcome run) (er_at run))) s)
    else s
  end.
Definition restore_ends (runs : list EndedRun) (s : Sup) : Sup := foldl restore_end s runs.

(** Lets go of every process without stopping it. *)
Definition shutdown (s : Sup) : Sup :=
  let s := upd (on_launches Book.detach_all) s in
  let s := foldl (λ s pane, alter_pane take_handle pane (drop_handle pane s)) s (map_to_list (s_panes (core s))).*1 in
  let respawning := filter (λ pane, is_spawning s pane = true) (Attach.holding (s_attach (core s))) in
  let dropped := filter (λ kv, kv.1 ∉ respawning) (map_to_list (ab_held_exits (s_attach (core s)))) in
  let s := foldl (λ s kv, emit (FDrop (h_id kv.2)) s) s dropped in
  let s := upd (on_attach (Attach.keep_held (λ pane, bool_decide (pane ∈ respawning)))) s in
  let known := dom (s_generations (core s)) ∪ dom (s_panes (core s)) in
  foldl (λ s pane, advance_generation pane s) s (elements known).

(** ** The idle stop and screens *)
Definition set_shells (shells : N) (s : Sup) : Sup := upd (on_occupants (λ _, shells)) s.
Definition arm_idle (at_ : N) (s : Sup) : Sup := upd (on_left_at (λ _, Some at_)) s.
Definition hold_up (s : Sup) : Sup := upd (on_left_at (λ _, None)) s.

Definition idle_deadline (s : Sup) : option N :=
  match idle_stop_or (s_project (core s)) (idle_stop (s_settings (core s))) with
  | After after => s_left_at (core s) ≫= λ gone, Some (gone + after)%N
  | _ => None
  end.

Definition idle_stop_if_due (at_ : N) (s : Sup) : option BatchOutcome * Sup :=
  match idle_deadline s with
  | None => (None, s)
  | Some deadline =>
    if (at_ <? deadline)%N then (None, s) else
    let s := hold_up s in
    if existsb (λ p, may_be_running (p_state p)) (s_workspace (core s)) then
      let '(outcome, s) := down s in
      (Some outcome, upd (on_idle_stopping (λ _, list_to_set (bo_acted outcome))) s)
    else (None, s)
  end.

Definition idle_stopping_among (stopping : list rstr) (s : Sup) : list rstr * Sup :=
  let s := upd (on_idle_stopping (filter (λ n, n ∈ stopping))) s in
  (filter (λ n, n ∈ s_idle_stopping (core s)) stopping, s).

Definition SCREEN_READ_FAILED_NOTICE : rstr :=
  lit "could not read this process's screen from its holder; showing the last screen seen".

(** Answers a holder's screen a caller read for a run of a pane. *)
Definition settle_holder_read (project : path) (pane gen : N) (fallback : rstr) (read : result rstr rstr) (s : Sup) : rstr * Sup :=
  if bool_decide (project = root s) && is_some (s_panes (core s) !! pane) && bool_decide (generation s pane = Some gen) then
    match read with
    | Ok text => (text, alter_pane (set_screen text) pane (upd (on_failing_screens (λ f, f ∖ {[pane]})) s))
    | Err error =>
      let first := bool_decide (pane ∉ s_failing_screens (core s)) in
      let s := upd (on_failing_screens (λ f, {[pane]} ∪ f)) s in
      (fallback, if first then notify Warning (Some pane) (MText (colon SCREEN_READ_FAILED_NOTICE error)) s else s)
    end
  else (match read with Ok text => text | Err _ => fallback end, s).

(** ** Events *)

(** What reaches a supervisor, each at an instant: requests, and what the
    workers, timers and holders send back. *)
Inductive Event :=
| EUp (environment : gmap rstr rstr)
| EDown
| EStart (n : rstr) (environment : gmap rstr rstr)
| EStop (n : rstr)
| ERestart (n : rstr) (environment : gmap rstr rstr)
| EPause (n : rstr)
| EResume (n : rstr)
| EForceKill (n : rstr)
| EOutput (pane gen : N) (o : ProcessOutput)
| ERespawn (pane gen : N)
| EForceStop (pane sg shg : N)
| ESpawned (pane gen : N) (r : result Handle rstr)
| ELaunchBlocked (pane gen : N) (block : PortBlock)
| EAdopt (record : HolderRecord)
| EAdopted (pane gen : N) (record : HolderRecord) (r : result Handle rstr)
| EReconnectLocated (pane gen : N) (record : option HolderRecord)
| EAdoptionProbed (pane attempt : N) (asked : bool) (record : option HolderRecord)
| ERetryDue (pane attempt : N)
| EApplyStack (stack : Stack)
| EApplySettings (settings : Settings)
| ERestoreEnds (runs : list EndedRun)
| EReleaseSettled
| EIdleStop
| EHeldPorts (held : gmap N PortHolder)
| EHolderRead (project : path) (pane gen : N) (fallback : rstr) (read : result rstr rstr)
| EShutdown.

Definition handle (e : Event) (s : Sup) : Sup :=
  match e with
  | EUp environment => (up environment s).2
  | EDown => (down s).2
  | EStart n environment => on_named (λ pane, start_pane pane environment) n s
  | EStop n => on_named stop_pane n s
  | ERestart n environment => on_named (λ pane, restart_pane pane (Some environment)) n s
  | EPause n => on_named pause_pane n s
  | EResume n => on_named resume_pane n s
  | EForceKill n => on_named force_kill_pane n s
  | EOutput pane gen o => handle_output pane gen o s
  | ERespawn pane gen => handle_respawn pane gen s
  | EForceStop pane sg shg => handle_force_stop pane sg shg s
  | ESpawned pane gen r => handle_spawned pane gen r s
  | ELaunchBlocked pane gen block => handle_launch_blocked pane gen block s
  | EAdopt record => adopt record s
  | EAdopted pane gen record r => handle_adopted pane gen record r s
  | EReconnectLocated pane gen record => handle_reconnect_located pane gen record s
  | EAdoptionProbed pane attempt asked record => handle_adoption_probed pane attempt asked record s
  | ERetryDue pane attempt => handle_adoption_retry_due pane attempt s
  | EApplyStack stack => apply_stack stack s
  | EApplySettings settings => upd (on_settings (λ _, settings)) s
  | ERestoreEnds runs => restore_ends runs s
  | EReleaseSettled => release_settled_exits s
  | EIdleStop => (idle_stop_if_due (now s) s).2
  | EHeldPorts held => upd (on_metrics (Metrics.set_held_ports held)) s
  | EHolderRead project pane gen fallback read => (settle_holder_read project pane gen fallback read s).2
  | EShutdown => shutdown s
  end.

Definition step (s : Sup) (e : N * Event) : Sup := handle e.2 (upd (on_now (λ _, e.1)) s).
Definition run (s : Sup) (es : list (N * Event)) : Sup := foldl step s es.
End lifecycle.
