(* ===== verification/SupMoves.v ===== *)
(** * What the lifecycle does to a supervisor, in small steps

    Every operation of Lifecycle.v is a chain of small steps: a change to the
    supervisor's own books, an effect, an operation told to the waits. None
    counts shells, arms or holds off the idle stop, or moves the project; those
    are the service's to do. *)
From S2P Require Import Prelude RustText RustPath Values Process Config StackSync EventLog Books Tap WaitData SupState Lifecycle.

(** A change to the books that leaves what the service keeps there. *)
Record private (f : Core → Core) : Prop := {
  private_project c : s_project (f c) = s_project c;
  private_occupants c : s_occupants (f c) = s_occupants c;
  private_left_at c : s_left_at (f c) = s_left_at c;
  private_now c : s_now (f c) = s_now c;
}.

Section moves.
Context `{Watching}.

Definition of_watch (e : Effect) : bool := match e with FWatch _ => true | _ => false end.

Inductive moves (s : Sup) : Sup → Prop :=
| moves_refl : moves s s
| moves_upd f s' : private f → moves s s' → moves s (upd f s')
| moves_emit e s' : of_watch e = false → moves s s' → moves s (emit e s')
| moves_tell op s' : moves s s' → moves s (tell op s').

Lemma moves_trans s1 s2 s3 : moves s1 s2 → moves s2 s3 → moves s1 s3.
Proof. intros H1 H2. induction H2; [done|by apply moves_upd|by apply moves_emit|by apply moves_tell]. Qed.

(** An operation made of moves, by itself and with an answer. *)
Class Moves (f : Sup → Sup) : Prop := moves_of s0 s : moves s0 s → moves s0 (f s).
Class MovesWith {A} (f : Sup → A * Sup) : Prop := moves_with s0 s : moves s0 s → moves s0 (f s).2.

Lemma moves_foldl {A} (f : Sup → A → Sup) l s0 s : (∀ s a, moves s0 s → moves s0 (f s a)) → moves s0 s → moves s0 (foldl f s l).
Proof. revert s. induction l as [|a l IH]; intros s Hf Hm; [done|]. apply IH; auto. Qed.

Lemma collect_with_moves {A B} (f : A → Sup → option B * Sup) l : (∀ a, MovesWith (f a)) → MovesWith (collect_with f l).
Proof.
  intros Hf. induction l as [|a l IH]; intros s0 s Hm; [done|]. cbn [collect_with].
  rewrite (surjective_pairing (f a s)). cbv beta iota. rewrite (surjective_pairing (collect_with f l _)). cbv beta iota. cbn [snd].
  by apply IH, Hf.
Qed.
End moves.

(** Follows an operation's shape down to the state it began in. *)
Ltac private := split; intros ?; reflexivity.
Ltac moves_step :=
  cbv beta zeta; cbn [fst snd];
  match goal with |- moves _ ?s => is_var s; assumption | _ => idtac end;
  lazymatch goal with
  | |- moves _ (match ?e with pair _ _ => _ end) => rewrite (surjective_pairing e); cbv beta iota
  | |- moves _ (match ?e with pair _ _ => _ end).2 => rewrite (surjective_pairing e); cbv beta iota
  | |- moves _ (match ?e with _ => _ end) => destruct e
  | |- moves _ (match ?e with _ => _ end).2 => destruct e
  | |- moves _ (upd _ _) => apply moves_upd; [private|]
  | |- moves _ (emit _ _) => apply moves_emit; [repeat case_match; reflexivity|]
  | |- moves _ (tell _ _) => apply moves_tell
  | |- moves _ (foldl _ _ _) => apply moves_foldl; [intros ? ? ?|]
  | |- moves _ (collect_with ?f ?l _).2 => apply (collect_with_moves f l); [intros ? ? ? ?|]
  | |- moves _ (?f ?s).2 => apply (moves_with (f := f))
  | |- moves _ (?f ?s) => apply (moves_of (f := f))
  end.
Ltac moves := intros ? ? ?; repeat moves_step.

(** Operations are looked up by name. *)
#[local] Hint Constants Opaque : typeclass_instances.

Section operations.
Context `{Watching}.

#[export] Instance call_moves a1 a2 : MovesWith (call a1 a2).
Proof. unfold call. moves. Qed.
#[export] Instance raise_moves a1 a2 a3 a4 : Moves (raise a1 a2 a3 a4).
Proof. unfold raise. moves. Qed.
#[export] Instance notify_process_moves a1 a2 a3 : Moves (notify_process a1 a2 a3).
Proof. unfold notify_process. moves. Qed.
#[export] Instance notify_moves a1 a2 a3 : Moves (notify a1 a2 a3).
Proof. unfold notify. moves. Qed.
#[export] Instance notify_blocked_moves a1 a2 : Moves (notify_blocked a1 a2).
Proof. unfold notify_blocked. moves. Qed.
#[export] Instance record_event_moves a1 a2 a3 : Moves (record_event a1 a2 a3).
Proof. unfold record_event. moves. Qed.
#[export] Instance begin_batch_moves : Moves begin_batch.
Proof. unfold begin_batch. moves. Qed.
#[export] Instance end_batch_moves : MovesWith end_batch.
Proof. unfold end_batch. moves. Qed.
#[export] Instance resolve_moves a1 a2 : MovesWith (resolve a1 a2).
Proof. unfold resolve. moves. Qed.
#[export] Instance set_state_moves a1 a2 : Moves (set_state a1 a2).
Proof. unfold set_state. moves. Qed.
#[export] Instance alter_pane_moves a1 a2 : Moves (alter_pane a1 a2).
Proof. unfold alter_pane. moves. Qed.
#[export] Instance set_attached_moves a1 a2 : Moves (set_attached a1 a2).
Proof. unfold set_attached. moves. Qed.
#[export] Instance drop_handle_moves a1 : Moves (drop_handle a1).
Proof. unfold drop_handle. moves. Qed.
#[export] Instance advance_generation_moves a1 : Moves (advance_generation a1).
Proof. unfold advance_generation. moves. Qed.
#[export] Instance bump_generation_moves a1 : Moves (bump_generation a1).
Proof. unfold bump_generation. moves. Qed.
#[export] Instance advance_shutdown_generation_moves a1 : Moves (advance_shutdown_generation a1).
Proof. unfold advance_shutdown_generation. moves. Qed.
#[export] Instance deactivate_moves a1 : Moves (deactivate a1).
Proof. unfold deactivate. moves. Qed.
#[export] Instance store_end_moves a1 a2 : Moves (store_end a1 a2).
Proof. unfold store_end. moves. Qed.
#[export] Instance alert_desktop_moves a1 a2 : Moves (alert_desktop a1 a2).
Proof. unfold alert_desktop. moves. Qed.
#[export] Instance end_run_moves a1 a2 a3 a4 a5 : Moves (end_run a1 a2 a3 a4 a5).
Proof. unfold end_run. moves. Qed.
#[export] Instance schedule_force_stop_moves a1 a2 a3 a4 : Moves (schedule_force_stop a1 a2 a3 a4).
Proof. unfold schedule_force_stop. moves. Qed.
#[export] Instance schedule_restart_moves a1 a2 : Moves (schedule_restart a1 a2).
Proof. unfold schedule_restart. moves. Qed.
#[export] Instance retire_pane_moves a1 : Moves (retire_pane a1).
Proof. unfold retire_pane. moves. Qed.
#[export] Instance settle_stopped_moves a1 : Moves (settle_stopped a1).
Proof. unfold settle_stopped. moves. Qed.
#[export] Instance install_terminal_moves a1 a2 : MovesWith (install_terminal a1 a2).
Proof. unfold install_terminal. moves. Qed.
#[export] Instance keep_screen_moves a1 a2 a3 a4 : Moves (keep_screen a1 a2 a3 a4).
Proof. unfold keep_screen. moves. Qed.
#[export] Instance install_pane_moves a1 a2 a3 : MovesWith (install_pane a1 a2 a3).
Proof. unfold install_pane. moves. Qed.
#[export] Instance running_unsupervised_pid_moves a1 a2 : MovesWith (running_unsupervised_pid a1 a2).
Proof. unfold running_unsupervised_pid. moves. Qed.
#[export] Instance leave_unsupervised_moves a1 a2 a3 a4 : MovesWith (leave_unsupervised a1 a2 a3 a4).
Proof. unfold leave_unsupervised. moves. Qed.
#[export] Instance settle_unsupervised_exit_moves a1 : Moves (settle_unsupervised_exit a1).
Proof. unfold settle_unsupervised_exit. moves. Qed.
#[export] Instance check_unsupervised_after_moves a1 a2 : Moves (check_unsupervised_after a1 a2).
Proof. unfold check_unsupervised_after. moves. Qed.
#[export] Instance give_up_unsupervised_stop_moves a1 : Moves (give_up_unsupervised_stop a1).
Proof. unfold give_up_unsupervised_stop. moves. Qed.
#[export] Instance signal_unsupervised_moves a1 a2 a3 a4 : Moves (signal_unsupervised a1 a2 a3 a4).
Proof. unfold signal_unsupervised. moves. Qed.
#[export] Instance alter_child_moves a1 a2 : Moves (alter_child a1 a2).
Proof. unfold alter_child. moves. Qed.
#[export] Instance stop_unsupervised_moves a1 a2 a3 : Moves (stop_unsupervised a1 a2 a3).
Proof. unfold stop_unsupervised. moves. Qed.
#[export] Instance escalate_unsupervised_moves a1 a2 : Moves (escalate_unsupervised a1 a2).
Proof. unfold escalate_unsupervised. moves. Qed.
#[export] Instance retryable_pid_moves a1 a2 : MovesWith (retryable_pid a1 a2).
Proof. unfold retryable_pid. moves. Qed.
#[export] Instance probe_adoption_moves a1 a2 a3 a4 : Moves (probe_adoption a1 a2 a3 a4).
Proof. unfold probe_adoption. moves. Qed.
#[export] Instance retry_adoption_now_moves a1 a2 : MovesWith (retry_adoption_now a1 a2).
Proof. unfold retry_adoption_now. moves. Qed.
#[export] Instance schedule_adoption_retry_moves a1 : Moves (schedule_adoption_retry a1).
Proof. unfold schedule_adoption_retry. moves. Qed.
#[export] Instance refuse_unsupervised_start_moves a1 a2 : Moves (refuse_unsupervised_start a1 a2).
Proof. unfold refuse_unsupervised_start. moves. Qed.
#[export] Instance refuse_unsupervised_launch_moves a1 a2 : MovesWith (refuse_unsupervised_launch a1 a2).
Proof. unfold refuse_unsupervised_launch. moves. Qed.
#[export] Instance refuse_stored_problem_moves a1 : MovesWith (refuse_stored_problem a1).
Proof. unfold refuse_stored_problem. moves. Qed.
#[export] Instance block_launch_moves a1 a2 : Moves (block_launch a1 a2).
Proof. unfold block_launch. moves. Qed.
#[export] Instance refuse_blocked_launch_moves a1 : MovesWith (refuse_blocked_launch a1).
Proof. unfold refuse_blocked_launch. moves. Qed.
#[export] Instance set_launch_environment_moves a1 a2 : Moves (set_launch_environment a1 a2).
Proof. unfold set_launch_environment. moves. Qed.
#[export] Instance launch_now_moves a1 a2 : Moves (launch_now a1 a2).
Proof. unfold launch_now. moves. Qed.
#[export] Instance spawn_with_moves a1 a2 a3 : Moves (spawn_with a1 a2 a3).
Proof. unfold spawn_with. moves. Qed.
#[export] Instance spawn_moves a1 a2 : Moves (spawn a1 a2).
Proof. unfold spawn. moves. Qed.
#[export] Instance record_intent_moves a1 a2 : MovesWith (record_intent a1 a2).
Proof. unfold record_intent. moves. Qed.
#[export] Instance record_suspend_moves a1 a2 : MovesWith (record_suspend a1 a2).
Proof. unfold record_suspend. moves. Qed.
#[export] Instance deliver_stop_moves a1 a2 a3 : MovesWith (deliver_stop a1 a2 a3).
Proof. unfold deliver_stop. moves. Qed.
#[export] Instance request_graceful_transition_moves a1 a2 a3 a4 : Moves (request_graceful_transition a1 a2 a3 a4).
Proof. unfold request_graceful_transition. moves. Qed.
#[export] Instance supersede_retry_adoption_moves a1 : Moves (supersede_retry_adoption a1).
Proof. unfold supersede_retry_adoption. moves. Qed.
#[export] Instance stop_pane_moves a1 a2 : Moves (stop_pane a1 a2).
Proof. unfold stop_pane. moves. Qed.
#[export] Instance force_kill_pane_moves a1 a2 : Moves (force_kill_pane a1 a2).
Proof. unfold force_kill_pane. moves. Qed.
#[export] Instance signal_pause_moves a1 a2 a3 : Moves (signal_pause a1 a2 a3).
Proof. unfold signal_pause. moves. Qed.
#[export] Instance pause_pane_moves a1 a2 : Moves (pause_pane a1 a2).
Proof. unfold pause_pane. moves. Qed.
#[export] Instance resume_pane_moves a1 a2 : Moves (resume_pane a1 a2).
Proof. unfold resume_pane. moves. Qed.
#[export] Instance start_pane_moves a1 a2 a3 : Moves (start_pane a1 a2 a3).
Proof. unfold start_pane. moves. Qed.
#[export] Instance restart_pane_moves a1 a2 a3 : Moves (restart_pane a1 a2 a3).
Proof. unfold restart_pane. moves. Qed.
#[export] Instance apply_pending_moves a1 a2 a3 a4 a5 : Moves (apply_pending a1 a2 a3 a4 a5).
Proof. unfold apply_pending. moves. Qed.
#[export] Instance report_unrequested_exit_moves a1 a2 a3 a4 a5 : Moves (report_unrequested_exit a1 a2 a3 a4 a5).
Proof. unfold report_unrequested_exit. moves. Qed.
#[export] Instance apply_exit_moves a1 a2 a3 a4 : MovesWith (apply_exit a1 a2 a3 a4).
Proof. unfold apply_exit. moves. Qed.
#[export] Instance acknowledge_moves a1 a2 a3 : Moves (acknowledge a1 a2 a3).
Proof. unfold acknowledge. moves. Qed.
#[export] Instance handle_exit_moves a1 a2 a3 a4 : Moves (handle_exit a1 a2 a3 a4).
Proof. unfold handle_exit. moves. Qed.
#[export] Instance release_held_exit_moves a1 a2 : Moves (release_held_exit a1 a2).
Proof. unfold release_held_exit. moves. Qed.
#[export] Instance release_settled_exits_moves a1 : Moves (release_settled_exits a1).
Proof. unfold release_settled_exits. moves. Qed.
#[export] Instance adoption_failed_unsupervised_moves a1 a2 a3 : Moves (adoption_failed_unsupervised a1 a2 a3).
Proof. unfold adoption_failed_unsupervised. moves. Qed.
#[export] Instance reconnect_failed_moves a1 a2 a3 a4 a5 : Moves (reconnect_failed a1 a2 a3 a4 a5).
Proof. unfold reconnect_failed. moves. Qed.
#[export] Instance reconnect_moves a1 a2 a3 : Moves (reconnect a1 a2 a3).
Proof. unfold reconnect. moves. Qed.
#[export] Instance keep_early_moves a1 a2 a3 : MovesWith (keep_early a1 a2 a3).
Proof. unfold keep_early. moves. Qed.
#[export] Instance handle_output_moves a1 a2 a3 a4 a5 a6 : Moves (handle_output a1 a2 a3 a4 a5 a6).
Proof. unfold handle_output. moves. Qed.
#[export] Instance replay_moves a1 a2 a3 a4 a5 a6 a7 : Moves (replay a1 a2 a3 a4 a5 a6 a7).
Proof. unfold replay. moves. Qed.
#[export] Instance handle_respawn_moves a1 a2 a3 : Moves (handle_respawn a1 a2 a3).
Proof. unfold handle_respawn. moves. Qed.
#[export] Instance handle_force_stop_moves a1 a2 a3 a4 : Moves (handle_force_stop a1 a2 a3 a4).
Proof. unfold handle_force_stop. moves. Qed.
#[export] Instance take_launch_moves a1 a2 : MovesWith (take_launch a1 a2).
Proof. unfold take_launch. moves. Qed.
#[export] Instance stale_release_moves a1 a2 : MovesWith (stale_release a1 a2).
Proof. unfold stale_release. moves. Qed.
#[export] Instance release_stale_moves a1 a2 : Moves (release_stale a1 a2).
Proof. unfold release_stale. moves. Qed.
#[export] Instance install_spawned_moves a1 a2 a3 a4 a5 a6 a7 a8 : MovesWith (install_spawned a1 a2 a3 a4 a5 a6 a7 a8).
Proof. unfold install_spawned. moves. Qed.
#[export] Instance handle_spawned_moves a1 a2 a3 a4 a5 a6 : Moves (handle_spawned a1 a2 a3 a4 a5 a6).
Proof. unfold handle_spawned. moves. Qed.
#[export] Instance handle_launch_blocked_moves a1 a2 a3 a4 : Moves (handle_launch_blocked a1 a2 a3 a4).
Proof. unfold handle_launch_blocked. moves. Qed.
#[export] Instance child_runs_or_collect_moves a1 a2 : MovesWith (child_runs_or_collect a1 a2).
Proof. unfold child_runs_or_collect. moves. Qed.
#[export] Instance report_superseded_failure_moves a1 a2 a3 : Moves (report_superseded_failure a1 a2 a3).
Proof. unfold report_superseded_failure. moves. Qed.
#[export] Instance set_membership_moves a1 a2 : Moves (set_membership a1 a2).
Proof. unfold set_membership. moves. Qed.
#[export] Instance stop_removed_moves a1 a2 : Moves (stop_removed a1 a2).
Proof. unfold stop_removed. moves. Qed.
#[export] Instance add_removed_pane_moves a1 : MovesWith (add_removed_pane a1).
Proof. unfold add_removed_pane. moves. Qed.
#[export] Instance adoptable_pane_moves a1 a2 a3 : MovesWith (adoptable_pane a1 a2 a3).
Proof. unfold adoptable_pane. moves. Qed.
#[export] Instance adopt_moves a1 a2 a3 : Moves (adopt a1 a2 a3).
Proof. unfold adopt. moves. Qed.
#[export] Instance collect_once_stopped_moves a1 a2 a3 : Moves (collect_once_stopped a1 a2 a3).
Proof. unfold collect_once_stopped. moves. Qed.
#[export] Instance rearm_force_stop_moves a1 : Moves (rearm_force_stop a1).
Proof. unfold rearm_force_stop. moves. Qed.
#[export] Instance install_adopted_moves a1 a2 a3 a4 a5 a6 a7 a8 a9 : Moves (install_adopted a1 a2 a3 a4 a5 a6 a7 a8 a9).
Proof. unfold install_adopted. moves. Qed.
#[export] Instance settle_adoption_moves a1 a2 a3 a4 a5 a6 a7 : Moves (settle_adoption a1 a2 a3 a4 a5 a6 a7).
Proof. unfold settle_adoption. moves. Qed.
#[export] Instance handle_adopted_moves a1 a2 a3 a4 a5 a6 a7 : Moves (handle_adopted a1 a2 a3 a4 a5 a6 a7).
Proof. unfold handle_adopted. moves. Qed.
#[export] Instance settle_superseded_search_moves a1 a2 a3 a4 : Moves (settle_superseded_search a1 a2 a3 a4).
Proof. unfold settle_superseded_search. moves. Qed.
#[export] Instance handle_reconnect_located_moves a1 a2 a3 a4 a5 a6 : Moves (handle_reconnect_located a1 a2 a3 a4 a5 a6).
Proof. unfold handle_reconnect_located. moves. Qed.
#[export] Instance begin_retry_adoption_moves a1 a2 : Moves (begin_retry_adoption a1 a2).
Proof. unfold begin_retry_adoption. moves. Qed.
#[export] Instance handle_adoption_retry_due_moves a1 a2 a3 : Moves (handle_adoption_retry_due a1 a2 a3).
Proof. unfold handle_adoption_retry_due. moves. Qed.
#[export] Instance handle_adoption_probed_moves a1 a2 a3 a4 a5 : Moves (handle_adoption_probed a1 a2 a3 a4 a5).
Proof. unfold handle_adoption_probed. moves. Qed.
#[export] Instance finish_batch_moves a1 a2 : MovesWith (finish_batch a1 a2).
Proof. unfold finish_batch. moves. Qed.
#[export] Instance autostart_panes_moves a1 : MovesWith (autostart_panes a1).
Proof. unfold autostart_panes. moves. Qed.
#[export] Instance unsupervised_refusal_moves a1 a2 : MovesWith (unsupervised_refusal a1 a2).
Proof. unfold unsupervised_refusal. moves. Qed.
#[export] Instance up_moves a1 a2 : MovesWith (up a1 a2).
Proof. unfold up. moves. Qed.
#[export] Instance down_moves a1 : MovesWith (down a1).
Proof. unfold down. moves. Qed.
Lemma on_named_moves nfc (f : N → Sup → Sup) n : (∀ pane, Moves (f pane)) → Moves (on_named nfc f n).
Proof. intros ?. unfold on_named. moves. Qed.
#[export] Instance restore_ends_moves a1 a2 : Moves (restore_ends a1 a2).
Proof. unfold restore_ends, restore_end. moves. Qed.
#[export] Instance shutdown_moves : Moves shutdown.
Proof. unfold shutdown. moves. Qed.
#[export] Instance idle_stopping_among_moves a1 : MovesWith (idle_stopping_among a1).
Proof. unfold idle_stopping_among. moves. Qed.
#[export] Instance settle_holder_read_moves a1 a2 a3 a4 a5 : MovesWith (settle_holder_read a1 a2 a3 a4 a5).
Proof. unfold settle_holder_read. moves. Qed.

(** A stack applied moves the project first; an idle stop that is due disarms
    itself first. *)
Lemma apply_stack_moves env nfc stack s : moves (upd (on_project (λ _, st_project stack)) s) (apply_stack env nfc stack s).
Proof.
  unfold apply_stack. cbv zeta. generalize (upd (on_project (λ _, st_project stack)) s) as s1. intros s1.
  pose proof (moves_refl s1). repeat moves_step.
Qed.

Lemma idle_stop_moves env at_ s :
  (idle_stop_if_due env at_ s).2 = s ∨ moves (hold_up s) (idle_stop_if_due env at_ s).2.
Proof.
  unfold idle_stop_if_due. destruct (idle_deadline s) as [deadline|]; [|by left]. destruct (at_ <? deadline)%N; [by left|]. right.
  cbv zeta. generalize (hold_up s) as s1. intros s1. pose proof (moves_refl s1). repeat moves_step.
Qed.

(** Every event but these two is handled in moves. *)
Lemma handle_moves env nfc up rt e s :
  match e with EApplyStack _ | EIdleStop => True | _ => moves s (handle env nfc up rt e s) end.
Proof. pose proof (moves_refl s). destruct e; cbn [handle]; try exact I; try (apply on_named_moves; [apply _|done]); repeat moves_step. Qed.
End operations.
