(* ===== verification/Waits.v ===== *)
(** * Waits and readiness

    Models muster-service/src/supervisor/waiting.rs and log_reads.rs with
    wait_group.rs: waits on a process's log, ports, state and readiness, how
    they are registered, held on a read of the log, matched, ended with their
    run, timed out and answered.

    The waits read the rest of the supervisor ([Core]) and change only their
    own state; an operation is a function on [Waits], which collects what it
    does outside, the newest first. The service gives every supervisor an
    adopter and a probe worker, so both are there. Compiling a pattern,
    matching a line, writing a duration and replaying a holder's log are
    parameters: they are third-party code or answers of a holder. *)
From S2P Require Import Prelude RustText RustPath Values Process Config StackSync EventLog Books Tap WaitData SupState Lifecycle.

Definition NO_READY_CHECK : rstr := lit "has no readiness check; wait for a log line, port, URL or state".
Definition SINCE_PAST_END : rstr := lit "since is past the end of the output".
Definition LOG_TAIL_OVERDUE : rstr := lit "the end of its log could not be read within".
Definition LOG_SCAN_OVERDUE : rstr := lit "its log from the cursor could not be read within".
Definition READY_PATTERN_NOTICE : rstr := lit "its readiness check cannot be used".
Definition IN_A_LOG_READ : rstr := lit "in a read of its log".
Definition LATER_FAULTS_UNREPORTED : rstr := lit "later ones this run are not reported".
Definition DROPPED_LINES : rstr := lit "line(s) of output could not be rendered and were dropped".

Definition dropped_lines (count : N) : rstr := print_dec count ++ lit " " ++ DROPPED_LINES.

(** [Duration::from_millis(duration.as_millis())]. *)
Definition whole_millis (d : duration) : duration := (d / NANOS_PER_MILLI * NANOS_PER_MILLI)%N.

(** ** The answers of a batch *)
Record WaitGroup := { wg_batch : BatchOutcome; wg_outcomes : list (option WaitOutcome); wg_reply : N }.

Definition group_new (batch : BatchOutcome) (slots : nat) (reply : N) : WaitGroup :=
  {| wg_batch := batch; wg_outcomes := replicate slots None; wg_reply := reply |}.

(** Fills a slot; the batch to send once every slot is filled. *)
Definition fill (slot : nat) (o : WaitOutcome) (g : WaitGroup) : option BatchOutcome * WaitGroup :=
  let outcomes := <[slot := Some o]> (wg_outcomes g) in
  let g := {| wg_batch := wg_batch g; wg_outcomes := outcomes; wg_reply := wg_reply g |} in
  (if existsb (λ o, negb (is_some o)) outcomes then None else Some (with_waits (omap id outcomes) (wg_batch g)), g).

Section waits.
Context `{LineRenderer} (compile_error : LogPattern → option rstr) (is_match : LogPattern → rstr → bool)
  (show_duration : duration → rstr) (replay_matching : N → list LogPattern → option N).

(** ** State *)
Record Waits := {
  w_taps : gmap N OutputTap;
  w_readiness : gmap N RunReadiness;
  w_waiters : list Waiter;
  w_held : gmap N (list HeldWait);
  w_answers : list HeldAnswer;
  w_reads : gmap N PendingRead;
  w_next_read : N;
  w_next_ask : N;
  w_groups : gmap N WaitGroup;
  w_next_group : N;
  w_replays : gmap N N;
  w_out : list WatchEffect;
}.

(** The waits with one field changed. *)
Definition w_on_taps (f : gmap N OutputTap → gmap N OutputTap) (w : Waits) : Waits :=
  {| w_taps := f (w_taps w); w_readiness := w_readiness w; w_waiters := w_waiters w; w_held := w_held w;
     w_answers := w_answers w; w_reads := w_reads w; w_next_read := w_next_read w; w_next_ask := w_next_ask w;
     w_groups := w_groups w; w_next_group := w_next_group w; w_replays := w_replays w; w_out := w_out w |}.
Definition w_on_readiness (f : gmap N RunReadiness → gmap N RunReadiness) (w : Waits) : Waits :=
  {| w_taps := w_taps w; w_readiness := f (w_readiness w); w_waiters := w_waiters w; w_held := w_held w;
     w_answers := w_answers w; w_reads := w_reads w; w_next_read := w_next_read w; w_next_ask := w_next_ask w;
     w_groups := w_groups w; w_next_group := w_next_group w; w_replays := w_replays w; w_out := w_out w |}.
Definition w_on_waiters (f : list Waiter → list Waiter) (w : Waits) : Waits :=
  {| w_taps := w_taps w; w_readiness := w_readiness w; w_waiters := f (w_waiters w); w_held := w_held w;
     w_answers := w_answers w; w_reads := w_reads w; w_next_read := w_next_read w; w_next_ask := w_next_ask w;
     w_groups := w_groups w; w_next_group := w_next_group w; w_replays := w_replays w; w_out := w_out w |}.
Definition w_on_held (f : gmap N (list HeldWait) → gmap N (list HeldWait)) (w : Waits) : Waits :=
  {| w_taps := w_taps w; w_readiness := w_readiness w; w_waiters := w_waiters w; w_held := f (w_held w);
     w_answers := w_answers w; w_reads := w_reads w; w_next_read := w_next_read w; w_next_ask := w_next_ask w;
     w_groups := w_groups w; w_next_group := w_next_group w; w_replays := w_replays w; w_out := w_out w |}.
Definition w_on_answers (f : list HeldAnswer → list HeldAnswer) (w : Waits) : Waits :=
  {| w_taps := w_taps w; w_readiness := w_readiness w; w_waiters := w_waiters w; w_held := w_held w;
     w_answers := f (w_answers w); w_reads := w_reads w; w_next_read := w_next_read w; w_next_ask := w_next_ask w;
     w_groups := w_groups w; w_next_group := w_next_group w; w_replays := w_replays w; w_out := w_out w |}.
Definition w_on_reads (f : gmap N PendingRead → gmap N PendingRead) (w : Waits) : Waits :=
  {| w_taps := w_taps w; w_readiness := w_readiness w; w_waiters := w_waiters w; w_held := w_held w;
     w_answers := w_answers w; w_reads := f (w_reads w); w_next_read := w_next_read w; w_next_ask := w_next_ask w;
     w_groups := w_groups w; w_next_group := w_next_group w; w_replays := w_replays w; w_out := w_out w |}.
Definition w_on_next_read (f : N → N) (w : Waits) : Waits :=
  {| w_taps := w_taps w; w_readiness := w_readiness w; w_waiters := w_waiters w; w_held := w_held w;
     w_answers := w_answers w; w_reads := w_reads w; w_next_read := f (w_next_read w); w_next_ask := w_next_ask w;
     w_groups := w_groups w; w_next_group := w_next_group w; w_replays := w_replays w; w_out := w_out w |}.
Definition w_on_next_ask (f : N → N) (w : Waits) : Waits :=
  {| w_taps := w_taps w; w_readiness := w_readiness w; w_waiters := w_waiters w; w_held := w_held w;
     w_answers := w_answers w; w_reads := w_reads w; w_next_read := w_next_read w; w_next_ask := f (w_next_ask w);
     w_groups := w_groups w; w_next_group := w_next_group w; w_replays := w_replays w; w_out := w_out w |}.
Definition w_on_groups (f : gmap N WaitGroup → gmap N WaitGroup) (w : Waits) : Waits :=
  {| w_taps := w_taps w; w_readiness := w_readiness w; w_waiters := w_waiters w; w_held := w_held w;
     w_answers := w_answers w; w_reads := w_reads w; w_next_read := w_next_read w; w_next_ask := w_next_ask w;
     w_groups := f (w_groups w); w_next_group := w_next_group w; w_replays := w_replays w; w_out := w_out w |}.
Definition w_on_next_group (f : N → N) (w : Waits) : Waits :=
  {| w_taps := w_taps w; w_readiness := w_readiness w; w_waiters := w_waiters w; w_held := w_held w;
     w_answers := w_answers w; w_reads := w_reads w; w_next_read := w_next_read w; w_next_ask := w_next_ask w;
     w_groups := w_groups w; w_next_group := f (w_next_group w); w_replays := w_replays w; w_out := w_out w |}.
Definition w_on_replays (f : gmap N N → gmap N N) (w : Waits) : Waits :=
  {| w_taps := w_taps w; w_readiness := w_readiness w; w_waiters := w_waiters w; w_held := w_held w;
     w_answers := w_answers w; w_reads := w_reads w; w_next_read := w_next_read w; w_next_ask := w_next_ask w;
     w_groups := w_groups w; w_next_group := w_next_group w; w_replays := f (w_replays w); w_out := w_out w |}.
Definition w_on_out (f : list WatchEffect → list WatchEffect) (w : Waits) : Waits :=
  {| w_taps := w_taps w; w_readiness := w_readiness w; w_waiters := w_waiters w; w_held := w_held w;
     w_answers := w_answers w; w_reads := w_reads w; w_next_read := w_next_read w; w_next_ask := w_next_ask w;
     w_groups := w_groups w; w_next_group := w_next_group w; w_replays := w_replays w; w_out := f (w_out w) |}.

Definition waits_new : Waits :=
  {| w_taps := ∅; w_readiness := ∅; w_waiters := []; w_held := ∅; w_answers := []; w_reads := ∅; w_next_read := 0; w_next_ask := 0;
     w_groups := ∅; w_next_group := 0; w_replays := ∅; w_out := [] |}.

Definition send (e : WatchEffect) (w : Waits) : Waits := w_on_out (cons e) w.

(** ** What the waits read *)
Section reads.
Context (c : Core).

Notation now := (s_now c).
Definition row (pane : N) : option Process := ws_process (s_workspace c) pane.
Definition runs (pane : N) : bool := is_some (s_panes c !! pane ≫= pn_handle).
Definition starting (pane : N) : bool := Book.is_starting (s_launches c) pane.
Definition spawning (pane : N) : bool := Book.is_spawning (s_launches c) pane.
Definition gen_of (pane : N) : N := default 0%N (s_generations c !! pane).

Definition tap_of (w : Waits) (pane : N) : OutputTap := default (tap_new 0) (w_taps w !! pane).
Definition on_tap (f : OutputTap → OutputTap) (pane : N) (w : Waits) : Waits := w_on_taps (<[pane := f (tap_of w pane)]>) w.
Definition position (w : Waits) (pane : N) : N := default 0%N (cursor <$> w_taps w !! pane).

Definition note_event (pane : N) (kind : EventKind) (detail : rstr) (w : Waits) : Waits :=
  send (WEvent pane kind detail (cursor <$> w_taps w !! pane)) w.

Definition tapped_from (w : Waits) (pane : N) : option N :=
  w_taps w !! pane ≫= λ t,
    if ot_placed t then Some (match w_replays w !! pane with Some streamed => N.max (held_from t) streamed | None => held_from t end)
    else None.

Definition knows_no_output (w : Waits) (pane : N) : bool :=
  negb (runs pane) && negb (starting pane) && match w_taps w !! pane with Some t => negb (ot_placed t) | None => true end.

Definition known_output_end (w : Waits) (pane : N) : option N :=
  if starting pane then None else w_taps w !! pane ≫= λ t, if ot_placed t then Some (cursor t) else None.

(** Where the output ends, when a cursor is past it. *)
Definition end_before (w : Waits) (pane since : N) : option N :=
  known_output_end w pane ≫= λ tapped,
    if (since <=? tapped)%N then None else
    let logged := match (s_panes c !! pane ≫= pn_handle) ≫= h_output_end with Some logged => N.max logged tapped | None => tapped end in
    if (logged <? since)%N then Some logged else None.

Definition quick_exit_end (pane : N) : option N :=
  s_panes c !! pane ≫= λ t, if is_some (pn_handle t) then Some (pn_started_at t + QUICK_EXIT_WINDOW)%N else None.

Definition replay_floor (w : Waits) (pane : N) : option N :=
  w_replays w !! pane ≫= λ end_,
    if match w_taps w !! pane with Some t => (cursor t <? end_)%N | None => true end then Some end_ else None.

(** Whether a wait's state or readiness condition holds. *)
Definition check (w : Waits) (x : Waiter) (at_ : N) : option WaitStatus :=
  if negb (counts (wt_pin x) (gen_of (wt_pane x))) then None else
  match wt_until x with
  | UntilState goal =>
    match row (wt_pane x) with
    | Some p =>
      if reached goal (p_state p) &&
         (negb (bool_decide (goal = GRunning)) || match quick_exit_end (wt_pane x) with Some end_ => (end_ <=? at_)%N | None => true end)
      then Some WMatched else None
    | None => None
    end
  | UntilReady =>
    match rr_state <$> w_readiness w !! wt_pane x with
    | Some RdReady => Some WMatched
    | Some RdTimedOut => Some WReadyTimeout
    | _ => None
    end
  | _ => None
  end.

(** How a wait ends whose process neither runs nor starts. *)
Definition not_running (x : Waiter) : option WaitStatus :=
  let pane := wt_pane x in
  if runs pane || starting pane then None else
  match Restarts.run_end (s_restarts c) pane ≫= λ e, if is_fresh (wt_pin x) && counts (wt_pin x) (re_generation e) then Some e else None with
  | Some e => Some (wait_status (re_reason e))
  | None =>
    match wt_pin x with
    | PinAfter after => if (gen_of pane =? after)%N then Some WNotRunning else None
    | PinFrom _ => if match row pane with Some p => negb (may_be_running (p_state p)) | None => true end then Some WNotRunning else None
    end
  end.

Definition awaits_a_pattern (w : Waits) (pane : N) : bool :=
  match w_readiness w !! pane with Some r => is_waiting (rr_state r) && is_some (rr_matcher r) | None => false end ||
  existsb (λ x, (wt_pane x =? pane)%N && counts (wt_pin x) (gen_of pane) && is_some (wt_matcher x)) (w_waiters w).

(** The first line from a wait's cursor on that its pattern matches. *)
Definition first_match (x : Waiter) (lines : list TapLine) : option MatchedLine :=
  wt_matcher x ≫= λ m,
    matched_line <$> List.find (λ line, is_match m (tl_text line))
      (filter (λ line, match wt_since x with Some since => (since <=? tl_at line)%N | None => true end = true) lines).

(** ** Answering *)
Definition deliver (o : WaitOutcome) (r : WaitReply) (w : Waits) : Waits :=
  match r with
  | Direct reply => send (WReply reply (RWaited o)) w
  | Batch group slot =>
    match w_groups w !! group with
    | None => w
    | Some g =>
      match fill slot o g with
      | (Some b, g) => w_on_groups (delete group) (send (WReply (wg_reply g) (RBatch b)) w)
      | (None, g) => w_on_groups (<[group := g]>) w
      end
    end
  end.

(** The run whose last lines an answer is read from the log for, when the tap
    holds too few of them. *)
Definition short_tail (w : Waits) (pane : N) (held : nat) : option (N * N) :=
  if FAILURE_TAIL_LINES <=? held then None else
  w_taps w !! pane ≫= λ t, ot_run_start t ≫= λ start, tapped_from w pane ≫= λ from,
    if (start <? from)%N then Some (start, cursor t) else None.

(** Operations that may start a read of a pane's log; [read_log] is one of
    them and is given below. *)
Section reading.
Context (read_log : N → Waits → Waits).

Definition hold_answer (pane : N) (o : WaitOutcome) (r : WaitReply) (from until : N) (w : Waits) : Waits :=
  let held := {| ha_pane := pane; ha_key := w_next_ask w; ha_outcome := o; ha_reply := r; ha_from := from; ha_until := until;
                 ha_deadline := now + LOG_TAIL_TIMEOUT; ha_read := None |} in
  read_log pane (w_on_answers (λ l, l ++ [held]) (w_on_next_ask N.succ w)).

Definition answer_with_tail (x : Waiter) (status : WaitStatus) (matched : option MatchedLine) (cursor : N) (tail : list rstr) (w : Waits) : Waits :=
  let o := {| wo_process := wt_process x; wo_status := status; wo_until := wt_until x; wo_matched := matched; wo_cursor := cursor;
              wo_elapsed := (now - wt_started x)%N; wo_tail := tail; wo_scanned_from := wt_scanned_from x;
              wo_already_running := wt_already_running x |} in
  match (if bool_decide (status = WMatched) then None else short_tail w (wt_pane x) (length tail)) with
  | Some (from, until) => hold_answer (wt_pane x) o (wt_reply x) from until w
  | None => deliver o (wt_reply x) w
  end.

Definition answer_at (x : Waiter) (status : WaitStatus) (matched : option MatchedLine) (cursor : N) (w : Waits) : Waits :=
  let tail := if bool_decide (status = WMatched) then [] else
              match w_taps w !! wt_pane x with Some t => tail_lines FAILURE_TAIL_LINES t | None => [] end in
  answer_with_tail x status matched cursor tail w.

Definition answer (x : Waiter) (status : WaitStatus) (matched : option MatchedLine) (w : Waits) : Waits :=
  answer_at x status matched (position w (wt_pane x)) w.

(** A [while] over the waits: those settled are taken out and answered in
    turn; an answer may register more behind them. *)
Fixpoint settle_each (settled : Waits → Waiter → option (WaitStatus * option MatchedLine)) (fuel index : nat) (w : Waits) : Waits :=
  match fuel with
  | O => w
  | S fuel =>
    match w_waiters w !! index with
    | None => w
    | Some x =>
      match settled w x with
      | Some (status, matched) => settle_each settled fuel index (answer x status matched (w_on_waiters (delete index) w))
      | None => settle_each settled fuel (S index) w
      end
    end
  end.

(** How many waits are registered or held: each step of the loop settles one
    or passes one, and what is held may be registered once. *)
Definition held_count (w : Waits) : nat := map_fold (λ _ held n, length held + n) 0 (w_held w).
Definition population (w : Waits) : nat := length (w_waiters w) + held_count w.

Definition settle_all (settled : Waits → Waiter → option (WaitStatus * option MatchedLine)) (w : Waits) : Waits :=
  settle_each settled (population w) 0 w.

(** ** Registering *)
Definition register_held (p : PreparedWait) (after : option N) (r : WaitReply) (scan : option HeldScan) (w : Waits) : Waits :=
  let pane := pw_pane p in
  let since := match pw_since p with Some since => Some since | None => replay_floor w pane end in
  let current := gen_of pane in
  let pin := match scan with Some s => hs_pin s | None => match after with Some a => PinAfter a | None => PinFrom current end end in
  let '(matched, scanned_from, w) :=
    match since, pw_matcher p, is_fresh pin with
    | Some since, Some m, false =>
      let '(scanned_from, matched, tapped_since) :=
        match scan ≫= λ s, (λ found, (hs_until s, found)) <$> hs_found s with
        | Some (tapped, found) =>
          (if (since <? ls_from found)%N then Some (N.min (ls_from found) tapped) else None, matched_line <$> ls_matched found, tapped)
        | None => (None, None, since)
        end in
      match matched with
      | Some line => (Some line, scanned_from, w)
      | None =>
        let w := on_tap id pane w in
        let '(lines, from) := scan_from tapped_since (tap_of w pane) in
        (matched_line <$> List.find (λ line, is_match m (tl_text line)) lines, match from with Some f => Some f | None => scanned_from end, w)
      end
    | _, _, _ => (None, None, w)
    end in
  let x := {| wt_pane := pane; wt_process := pw_process p; wt_until := pw_until p; wt_matcher := pw_matcher p; wt_pin := pin;
              wt_started := pw_asked p; wt_deadline := (pw_asked p + pw_timeout p)%N; wt_reply := r; wt_scanned_from := scanned_from;
              wt_since := since; wt_already_running := pw_already_running p |} in
  let settled :=
    match matched with
    | Some line => Some (WMatched, Some line)
    | None =>
      match scan ≫= hs_ended with
      | Some status => Some (status, None)
      | None => match check w x now with
                | Some status => Some (status, None)
                | None => (λ status, (status, None)) <$> not_running x
                end
      end
    end in
  match settled with
  | Some (status, matched) => answer x status matched w
  | None =>
    let w := match probe_of (wt_until x) with
             | Some target => if runs pane && counts pin current then send (WProbeWatch pane current target (wt_deadline x)) w else w
             | None => w
             end in
    w_on_waiters (λ l, l ++ [x]) w
  end.

Definition register (p : PreparedWait) (after : option N) (r : WaitReply) (w : Waits) : Waits := register_held p after r None w.

(** The cursor a wait asked during an adoption waits from, until it settles. *)
Definition adoption_hold (p : PreparedWait) (after : option N) : option N :=
  if negb (is_some after) && is_some (pw_matcher p) && starting (pw_pane p) && negb (spawning (pw_pane p)) then pw_since p else None.

(** The scan a log wait needs before what the tap holds. *)
Definition scan_for (p : PreparedWait) (after : option N) (w : Waits) : option HeldScan :=
  if is_some after || negb (is_some (pw_matcher p)) || starting (pw_pane p) then None else
  pw_since p ≫= λ since, tapped_from w (pw_pane p) ≫= λ until,
    if (since <? until)%N
    then Some {| hs_until := until; hs_pin := PinFrom (gen_of (pw_pane p)); hs_ended := None; hs_found := None |} else None.

Definition push_held (p : PreparedWait) (after : option N) (reply : N) (scan : option HeldScan) (adopting : option N) (w : Waits) : Waits :=
  let pane := pw_pane p in
  let deadline := if is_some adopting then (pw_asked p + pw_timeout p)%N else (now + LOG_TAIL_TIMEOUT)%N in
  let held := {| hw_prepared := p; hw_after := after; hw_reply := reply; hw_deadline := deadline; hw_key := w_next_ask w; hw_scan := scan;
                 hw_adopting := adopting; hw_timed_out := None; hw_read := None |} in
  w_on_held (λ m, <[pane := default [] (m !! pane) ++ [held]]> m) (w_on_next_ask N.succ w).

Definition hold_wait (p : PreparedWait) (after : option N) (reply : N) (scan : option HeldScan) (w : Waits) : Waits :=
  read_log (pw_pane p) (push_held p after reply scan None w).

Definition register_or_scan (p : PreparedWait) (after : option N) (reply : N) (w : Waits) : Waits :=
  match adoption_hold p after with
  | Some since => push_held p after reply None (Some since) w
  | None =>
    match scan_for p after w with
    | Some scan => hold_wait p after reply (Some scan) w
    | None => register p after (Direct reply) w
    end
  end.

Definition begin_wait (p : PreparedWait) (after : option N) (reply : N) (w : Waits) : Waits :=
  if knows_no_output w (pw_pane p) then hold_wait p after reply None w else register_or_scan p after reply w.

(** ** Reports of dropped lines *)
Definition report_render_faults (pane read : N) (w : Waits) : Waits :=
  let w := if (0 <? read)%N then on_tap (note_read_faults read) pane w else w in
  match w_taps w !! pane with
  | None => w
  | Some t =>
    let '(live, t) := take_fault_report t in
    let '(read, t) := take_read_fault_report t in
    let w := w_on_taps (<[pane := t]>) w in
    let name := match row pane with Some p => p_name p | None => [] end in
    let reports := match live with Some n => [dropped_lines n] | None => [] end ++
                   match read with Some n => [dropped_lines n ++ lit " " ++ IN_A_LOG_READ] | None => [] end in
    foldl (λ w report, send (WNotice pane (name ++ lit ": " ++ report ++ lit "; " ++ LATER_FAULTS_UNREPORTED)) w) w reports
  end.

(** The waiter a held wait stands for. *)
Definition held_waiter (h : HeldWait) : Waiter :=
  let p := hw_prepared h in
  {| wt_pane := pw_pane p; wt_process := pw_process p; wt_until := pw_until p; wt_matcher := pw_matcher p;
     wt_pin := match hw_scan h with
               | Some s => hs_pin s
               | None => match hw_after h with Some a => PinAfter a | None => PinFrom (gen_of (pw_pane p)) end
               end;
     wt_started := pw_asked p; wt_deadline := (pw_asked p + pw_timeout p)%N; wt_reply := Direct (hw_reply h); wt_scanned_from := None;
     wt_since := pw_since p; wt_already_running := pw_already_running p |}.

(** ** A read of a log that landed *)

(** The held waits of a pane a predicate takes, and the rest. *)
Definition extract_held (f : HeldWait → bool) (pane : N) (w : Waits) : list HeldWait * Waits :=
  match w_held w !! pane with
  | None => ([], w)
  | Some waits =>
    let rest := filter (λ h, f h = false) waits in
    (filter (λ h, f h = true) waits,
     w_on_held (if bool_decide (rest = []) then delete pane else <[pane := rest]>) w)
  end.

(** The last lines of a run in a log's end, and the lines it could not render. *)
Definition log_tail_lines (t : LogTail) : list rstr * N :=
  let '(dropped, tap) := take_fault_report (seed_at (lt_at t) (lt_bytes t) (tap_new (lt_at t))) in
  (tail_lines FAILURE_TAIL_LINES tap, default 0%N dropped).

Definition past_end (p : PreparedWait) (since end_ : N) : rstr :=
  pw_process p ++ lit ": " ++ SINCE_PAST_END ++ lit " (" ++ OutputCursor.display since ++ lit " > " ++ OutputCursor.display end_ ++ lit ")".

Definition begin_after_end (w : Waits) (h : HeldWait) : Waits :=
  let p := hw_prepared h in
  match pw_since p ≫= λ since, (λ end_, (since, end_)) <$> end_before w (pw_pane p) since with
  | Some (since, end_) => send (WReply (hw_reply h) (RInvalidInput (past_end p since end_))) w
  | None => register_or_scan p (hw_after h) (hw_reply h) w
  end.

Definition answer_held_waits (pane : N) (tail : option LogTail) (w : Waits) : Waits :=
  let '(held, w) := extract_held (λ h, negb (is_some (hw_scan h)) && negb (is_some (hw_adopting h))) pane w in
  let timed_out := filter (λ h, is_some (hw_timed_out h) = true) held in
  let held := filter (λ h, is_some (hw_timed_out h) = false) held in
  let w := match timed_out with
           | [] => w
           | _ =>
             let '(last_lines, dropped) := match tail with Some t => log_tail_lines t | None => ([], 0%N) end in
             foldl (λ w h, answer_with_tail (held_waiter h) WWaiting None (default 0%N (hw_timed_out h)) last_lines w)
               (report_render_faults pane dropped w) timed_out
           end in
  match held with
  | [] => w
  | _ =>
    let w := if knows_no_output w pane
             then report_render_faults pane 0
                    (on_tap (match tail with Some t => seed_at (lt_at t) (lt_bytes t) | None => seed_at 0 [] end) pane w)
             else w in
    foldl begin_after_end w held
  end.

(** Sends each answer held on the read, with the lines it read when more. *)
Definition send_landed (answers : gmap N LogAnswer) (w : Waits) (h : HeldAnswer) : Waits :=
  let o := match answers !! ha_key h with
           | Some (AnswerLines l) => if length (wo_tail (ha_outcome h)) <? length (ll_lines l) then with_tail (ll_lines l) (ha_outcome h) else ha_outcome h
           | _ => ha_outcome h
           end in
  deliver o (ha_reply h) w.

Definition extract_answers (f : HeldAnswer → bool) (w : Waits) : list HeldAnswer * Waits :=
  (filter (λ h, f h = true) (w_answers w), w_on_answers (filter (λ h, f h = false)) w).

Definition send_held_answers (read : N) (answers : gmap N LogAnswer) (w : Waits) : Waits :=
  let '(landed, w) := extract_answers (λ h, bool_decide (ha_read h = Some read)) w in foldl (send_landed answers) w landed.

Definition register_scanned (answers : gmap N LogAnswer) (w : Waits) (h : HeldWait) : Waits :=
  let found := match answers !! hw_key h with Some (AnswerScan s) => Some s | _ => None end in
  let scan := (λ s, {| hs_until := hs_until s; hs_pin := hs_pin s; hs_ended := hs_ended s; hs_found := found |}) <$> hw_scan h in
  register_held (hw_prepared h) (hw_after h) (Direct (hw_reply h)) scan w.

Definition register_scanned_waits (pane read : N) (answers : gmap N LogAnswer) (w : Waits) : Waits :=
  let '(landed, w) := extract_held (λ h, is_some (hw_scan h) && bool_decide (hw_read h = Some read)) pane w in
  foldl (register_scanned answers) w landed.

(** Answers are removed as they are taken; keys are each asked once. *)
Definition handle_log_read (pane read : N) (result : LogReadResult) (w : Waits) : Waits :=
  let unrendered := foldr (λ a n, unrendered_lines a + n)%N 0%N (map_to_list (lr_answers result)).*2 in
  let w := send_held_answers read (lr_answers result) w in
  match w_reads w !! pane with
  | None => w
  | Some p =>
    if (pd_id p =? read)%N then
      let w := report_render_faults pane unrendered w in
      let w := if pd_end p then answer_held_waits pane (lr_tail result) w else w in
      let w := register_scanned_waits pane read (lr_answers result) w in
      read_log pane (w_on_reads (delete pane) w)
    else w
  end.

(** ** Starting a read *)

(** What a held wait asks of a read, and that it asked. *)
Definition ask_of (id : N) (h : HeldWait) : bool * list (N * LogAsk) * HeldWait :=
  if is_some (hw_adopting h) then (false, [], h) else
  match hw_scan h with
  | None => (true, [], h)
  | Some scan =>
    if is_some (hw_read h) then (false, [], h) else
    match scan_ask (hw_prepared h) (hs_until scan) with
    | Some ask =>
      (false, [(hw_key h, ask)],
       {| hw_prepared := hw_prepared h; hw_after := hw_after h; hw_reply := hw_reply h; hw_deadline := hw_deadline h; hw_key := hw_key h;
          hw_scan := hw_scan h; hw_adopting := hw_adopting h; hw_timed_out := hw_timed_out h; hw_read := Some id |})
    | None => (false, [], h)
    end
  end.

Definition asks_lines (pane : N) (h : HeldAnswer) : bool := (ha_pane h =? pane)%N && negb (is_some (ha_read h)).

Definition mark_read (id : N) (h : HeldAnswer) : HeldAnswer :=
  {| ha_pane := ha_pane h; ha_key := ha_key h; ha_outcome := ha_outcome h; ha_reply := ha_reply h; ha_from := ha_from h;
     ha_until := ha_until h; ha_deadline := ha_deadline h; ha_read := Some id |}.

(** One read of a pane's log at a time; a pane with no row is answered at once. *)
Definition start_read (pane : N) (w : Waits) : Waits :=
  if is_some (w_reads w !! pane) then w else
  let id := w_next_read w in
  let asked := ask_of id <$> default [] (w_held w !! pane) in
  let end_ := existsb (λ a : bool * list (N * LogAsk) * HeldWait, a.1.1) asked in
  let lines := filter (λ h, asks_lines pane h = true) (w_answers w) in
  let asks := concat ((λ a : bool * list (N * LogAsk) * HeldWait, a.1.2) <$> asked) ++
              ((λ h, (ha_key h, AskLines (ha_from h) (ha_until h) FAILURE_TAIL_LINES)) <$> lines) in
  let w := w_on_held (alter (λ _ : list HeldWait, asked.*2) pane) w in
  let w := w_on_answers (fmap (λ h, if asks_lines pane h then mark_read id h else h)) w in
  if negb end_ && bool_decide (length asks = 0) then w else
  let w := w_on_reads (<[pane := {| pd_id := id; pd_end := end_ |}]>) (w_on_next_read N.succ w) in
  match row pane with
  | Some _ => send (WRead pane id {| lj_end := end_; lj_asks := asks |}) w
  | None => handle_log_read pane id {| lr_tail := None; lr_answers := ∅ |} w
  end.
End reading.

(** A read answered at once may start one more, for what its answers hold: a
    wait on the log's end may be held on a scan, and an answer on its lines,
    so four in a row are enough. *)
Fixpoint read_log (fuel : nat) (pane : N) (w : Waits) : Waits :=
  match fuel with O => w | S fuel => start_read (read_log fuel) pane w end.
Definition READ_DEPTH : nat := 4.
Definition read_now : N → Waits → Waits := read_log READ_DEPTH.

(** ** Readiness *)
Definition pass_readiness (pane : N) (w : Waits) : Waits :=
  match w_readiness w !! pane with
  | None => w
  | Some r =>
    note_event pane Ready (lit "ready in " ++ show_duration (whole_millis (now - rr_since r)%N))
      (w_on_readiness (<[pane := settle_readiness (on_passed (rr_state r)) r]>) w)
  end.

Definition time_out_readiness (w : Waits) (pane : N) : Waits :=
  match w_readiness w !! pane with
  | None => w
  | Some r =>
    let name := match row pane with Some p => p_name p | None => [] end in
    let message := name ++ lit " did not become ready within " ++ show_duration (timeout (rr_check r)) in
    note_event pane ReadyTimeout message
      (send (WNotice pane message) (w_on_readiness (<[pane := settle_readiness (on_deadline (rr_state r)) r]>) w))
  end.

Definition start_readiness (pane : N) (check : ReadyCheck) (since deadline : N) (w : Waits) : Waits :=
  let started matcher :=
    w_on_readiness (<[pane := {| rr_state := on_spawn (Some check); rr_check := check; rr_since := since; rr_deadline := deadline;
                                 rr_matcher := matcher |}]>) w in
  match probe check with
  | PLog pattern =>
    match compile_error pattern with
    | Some error => send (WNotice pane (READY_PATTERN_NOTICE ++ lit ": " ++ error)) w
    | None => started (Some pattern)
    end
  | _ => started None
  end.

(** ** Output *)
Definition test_lines (pane : N) (lines : list TapLine) (w : Waits) : Waits :=
  match lines with
  | [] => w
  | _ =>
    let passes := match w_readiness w !! pane with
                  | Some r => is_waiting (rr_state r) &&
                              match rr_matcher r with Some m => existsb (λ line, is_match m (tl_text line)) lines | None => false end
                  | None => false
                  end in
    settle_all read_now (λ _ x, if (wt_pane x =? pane)%N && counts (wt_pin x) (gen_of pane)
                                then (λ line, (WMatched, Some line)) <$> first_match x lines else None)
      (if passes then pass_readiness pane w else w)
  end.

Definition tap_output (pane : N) (at_ : option N) (bytes : list N) (w : Waits) : Waits :=
  let '(lines, t) := feed at_ bytes (tap_of w pane) in
  let w := w_on_taps (<[pane := t]>) w in
  let '(lines, w) :=
    if awaits_a_pattern w pane then
      let '(line, t) := unfinished_for_pattern now t in
      (lines ++ match line with Some line => [line] | None => [] end, w_on_taps (<[pane := t]>) w)
    else (lines, w) in
  test_lines pane lines (report_render_faults pane 0 w).

Definition test_unlogged (pane : N) (bytes : list N) (w : Waits) : Waits :=
  let '(lines, t) := feed_unlogged bytes (tap_of w pane) in
  test_lines pane lines (report_render_faults pane 0 (w_on_taps (<[pane := t]>) w)).

Definition test_due_partial (w : Waits) (pane : N) : Waits :=
  let '(line, t) := unfinished_due now (tap_of w pane) in
  let w := w_on_taps (<[pane := t]>) w in
  if awaits_a_pattern w pane then test_lines pane (match line with Some line => [line] | None => [] end) w else w.

Definition test_due_partials (w : Waits) : Waits :=
  foldl test_due_partial w
    (filter (λ kv, match ot_recheck kv.2 with Some at_ => (at_ <=? now)%N | None => false end = true) (map_to_list (w_taps w))).*1.

(** ** Runs *)
Definition place_run (pane start : N) (w : Waits) : Waits := on_tap (begin_run_at start) pane w.

Definition begin_run (pane : N) (w : Waits) : Waits :=
  let w := w_on_readiness (delete pane) (on_tap tap_begin_run pane w) in
  match row pane ≫= p_ready with
  | None => w
  | Some check => start_readiness pane check now (now + timeout check)%N w
  end.

Definition adopt_run (pane : N) (w : Waits) : Waits :=
  let w := w_on_readiness (delete pane) (on_tap tap_begin_run pane w) in
  match row pane ≫= p_ready with
  | None => w
  | Some check =>
    let since := match s_panes c !! pane with Some t => pn_started_at t | None => now end in
    let deadline := (since + timeout check)%N in
    if (now <? deadline)%N then start_readiness pane check since deadline w else
    match probe check with
    | PLog _ =>
      w_on_readiness (<[pane := {| rr_state := RdReady; rr_check := check; rr_since := since; rr_deadline := deadline; rr_matcher := None |}]>) w
    | _ => start_readiness pane check since (now + timeout check)%N w
    end
  end.

Definition arm_probes (pane : N) (w : Waits) : Waits :=
  let current := gen_of pane in
  let w := send (WProbeForget pane) w in
  let w := match w_readiness w !! pane with
           | Some r => if is_waiting (rr_state r)
                       then match readiness_probe r with Some target => send (WProbeWatch pane current target (rr_deadline r)) w | None => w end
                       else w
           | None => w
           end in
  foldl (λ w x, match probe_of (wt_until x) with
                | Some target => if (wt_pane x =? pane)%N && counts (wt_pin x) current
                                 then send (WProbeWatch pane current target (wt_deadline x)) w else w
                | None => w
                end) w (w_waiters w).

Definition replay_patterns (w : Waits) (pane : N) : list LogPattern :=
  match w_readiness w !! pane with
  | Some r => if is_waiting (rr_state r) then match probe (rr_check r) with PLog pattern => [pattern] | _ => [] end else []
  | None => []
  end ++
  omap log_pattern_of
    ((wt_until <$> filter (λ x, (wt_pane x =? pane)%N && counts (wt_pin x) (gen_of pane) = true) (w_waiters w)) ++
     ((λ h, pw_until (hw_prepared h)) <$> default [] (w_held w !! pane))).

Definition start_replay (pane : N) (w : Waits) : Waits :=
  let patterns := replay_patterns w pane in
  match (s_panes c !! pane ≫= pn_handle) ≫= λ h, replay_matching (h_id h) patterns with
  | Some start => match patterns with [] => on_tap (seed_at start []) pane w | _ => w end
  | None => w
  end.

(** ** Ends of runs *)
Definition end_scan (generation : N) (status : WaitStatus) (next : ProcessState) (h : HeldWait) : HeldWait :=
  match hw_scan h with
  | Some s =>
    if negb (is_some (hs_ended s)) && counts (hs_pin s) generation then
      {| hw_prepared := hw_prepared h; hw_after := hw_after h; hw_reply := hw_reply h; hw_deadline := hw_deadline h; hw_key := hw_key h;
         hw_scan := Some {| hs_until := hs_until s; hs_pin := hs_pin s;
                            hs_ended := Some (ended_status (pw_until (hw_prepared h)) status next); hs_found := hs_found s |};
         hw_adopting := hw_adopting h; hw_timed_out := hw_timed_out h; hw_read := hw_read h |}
    else h
  | None => h
  end.

(** Whether the end of a run, or of every run, ends a held wait. *)
Definition ends_held (generation : option N) (h : HeldWait) : bool :=
  match generation with
  | None => true
  | Some g =>
    if is_some (hw_scan h) then false
    else if is_some (hw_adopting h) || is_some (hw_timed_out h) then false
    else match hw_after h with Some after => counts (PinAfter after) g | None => true end
  end.

Definition end_held_waits (pane : N) (generation : option N) (status : WaitStatus) (next : ProcessState) (w : Waits) : Waits :=
  let w := match generation with
           | Some g => w_on_held (alter (fmap (end_scan g status next)) pane) w
           | None => w
           end in
  let '(ended, w) := extract_held (ends_held generation) pane w in
  foldl (λ w h, answer read_now (held_waiter h) (ended_status (pw_until (hw_prepared h)) status next) None w) w ended.

Definition end_waits (pane : N) (generation : option N) (status : WaitStatus) (next : ProcessState) (w : Waits) : Waits :=
  settle_all read_now
    (λ _ x, if (wt_pane x =? pane)%N && match generation with Some g => counts (wt_pin x) g | None => true end
            then Some (ended_status (wt_until x) status next, None) else None)
    (end_held_waits pane generation status next w).

(** ** Deadlines *)

(** The held waits of every pane a predicate takes, and the rest. *)
Definition extract_all (f : N → HeldWait → bool) (w : Waits) : list HeldWait * Waits :=
  (concat ((λ kv, filter (λ h, f kv.1 h = true) kv.2) <$> map_to_list (w_held w)),
   w_on_held (map_imap (λ pane waits, let rest := filter (λ h, f pane h = false) waits in if bool_decide (rest = []) then None else Some rest)) w).

Definition release_adoption_waits (w : Waits) : Waits :=
  let '(released, w) := extract_all (λ pane h, negb (starting pane) && is_some (hw_adopting h)) w in
  foldl (λ w h, begin_wait read_now (hw_prepared h) (hw_after h) (hw_reply h) w) w released.

Definition hold_timed_out (h : HeldWait) (since : N) (w : Waits) : Waits :=
  let pane := pw_pane (hw_prepared h) in
  let held := {| hw_prepared := hw_prepared h; hw_after := hw_after h; hw_reply := hw_reply h; hw_deadline := (now + LOG_TAIL_TIMEOUT)%N;
                 hw_key := hw_key h; hw_scan := hw_scan h; hw_adopting := None; hw_timed_out := Some since; hw_read := None |} in
  read_now pane (w_on_held (λ m, <[pane := default [] (m !! pane) ++ [held]]> m) w).

Definition settle_overdue (w : Waits) (h : HeldWait) : Waits :=
  let refuse why := send (WReply (hw_reply h) (RInternal (pw_process (hw_prepared h) ++ lit ": " ++ why ++ lit " " ++ show_duration LOG_TAIL_TIMEOUT))) w in
  match hw_adopting h, hw_timed_out h with
  | Some since, _ =>
    if is_some (tapped_from w (pw_pane (hw_prepared h)))
    then answer_at read_now (held_waiter h) WWaiting None since w
    else hold_timed_out h since w
  | None, Some cursor => answer_at read_now (held_waiter h) WWaiting None cursor w
  | None, None => refuse (if is_some (hw_scan h) then LOG_SCAN_OVERDUE else LOG_TAIL_OVERDUE)
  end.

Definition settle_overdue_held_waits (w : Waits) : Waits :=
  let '(overdue, w) := extract_all (λ _ h, (hw_deadline h <=? now)%N) w in foldl settle_overdue w overdue.

Definition send_overdue_answers (w : Waits) : Waits :=
  let '(overdue, w) := extract_answers (λ h, (ha_deadline h <=? now)%N) w in foldl (λ w h, deliver (ha_outcome h) (ha_reply h) w) w overdue.

Definition settle_waits (w : Waits) : Waits :=
  let w := send_overdue_answers (settle_overdue_held_waits (release_adoption_waits (test_due_partials w))) in
  let expired := (filter (λ kv, is_waiting (rr_state kv.2) && (rr_deadline kv.2 <=? now)%N = true) (map_to_list (w_readiness w))).*1 in
  let w := foldl time_out_readiness w expired in
  settle_all read_now
    (λ w x, match check w x now with
            | Some status => Some (status, None)
            | None => if (wt_deadline x <=? now)%N then Some (WWaiting, None) else None
            end) w.

Definition handle_probe_passed (pane generation : N) (target : ProbeTarget) (w : Waits) : Waits :=
  if bool_decide (s_generations c !! pane ≠ Some generation) then w else
  let passes := match w_readiness w !! pane with
                | Some r => is_waiting (rr_state r) && bool_decide (readiness_probe r = Some target)
                | None => false
                end in
  settle_all read_now
    (λ _ x, if (wt_pane x =? pane)%N && counts (wt_pin x) generation && bool_decide (probe_of (wt_until x) = Some target)
            then Some (WMatched, None) else None)
    (if passes then pass_readiness pane w else w).

(** When something here is next due. *)
Definition earliest (times : list N) : option N := foldr (λ t o, Some (match o with Some m => N.min t m | None => t end)) None times.

Definition next_wait_deadline (w : Waits) : option N :=
  earliest ((wt_deadline <$> w_waiters w) ++
    (rr_deadline <$> filter (λ r, is_waiting (rr_state r) = true) (map_to_list (w_readiness w)).*2) ++
    omap (λ x, quick_exit_end (wt_pane x))
      (filter (λ x, bool_decide (wt_until x = UntilState GRunning) && counts (wt_pin x) (gen_of (wt_pane x)) &&
                    bool_decide (p_state <$> row (wt_pane x) = Some SRunning) = true) (w_waiters w)) ++
    (hw_deadline <$> concat (map_to_list (w_held w)).*2) ++
    (ha_deadline <$> w_answers w) ++
    omap ot_recheck (map_to_list (w_taps w)).*2).
End reads.

(** ** What the lifecycle tells *)
Definition watch_apply (op : WatchOp) (c : Core) (w : Waits) : Waits :=
  match op with
  | WBeginRun pane => begin_run c pane w
  | WAdoptRun pane => adopt_run c pane w
  | WPlaceRun pane start => place_run pane start w
  | WArmProbes pane => arm_probes c pane w
  | WReplays pane (Some end_) => w_on_replays (<[pane := end_]>) w
  | WReplays pane None => w_on_replays (delete pane) w
  | WStartReplay pane => start_replay c pane w
  | WTap pane at_ bytes => tap_output c pane at_ bytes w
  | WUnlogged pane bytes => test_unlogged c pane bytes w
  | WSettleReadiness pane => w_on_readiness (alter (λ r, settle_readiness (on_exit (rr_state r)) r) pane) w
  | WEndWaits pane generation status next => end_waits c pane generation status next w
  | WUnready pane => w_on_readiness (delete pane) w
  | WForgetReads pane => w_on_reads (delete pane) w
  | WForgetProbes pane => send (WProbeForget pane) w
  | WForgetTaps pane => w_on_readiness (delete pane) (w_on_replays (delete pane) (w_on_taps (delete pane) w))
  | WReleaseAdoptionWaits => release_adoption_waits c w
  end.

#[export] Instance waits_watching : Watching := {|
  watch := Waits;
  watch_new := waits_new;
  watch_step op c w := let w := watch_apply op c w in (w_on_out (λ _, []) w, rev (w_out w));
  output_position := position;
  has_tap w pane := is_some (w_taps w !! pane);
|}.

(** ** Requests *)

(** Runs an operation on the waits of a supervisor. *)
Definition on_waits (f : Core → Waits → Waits) (s : Sup) : Sup :=
  let w := f (sup_core s) (sup_watch s) in
  {| sup_core := sup_core s; sup_watch := w_on_out (λ _, []) w; sup_trace := (FWatch <$> w_out w) ++ sup_trace s |}.

Inductive WaitRefused := UnknownProcess (message : rstr) (candidates : list rstr) | InvalidWait (message : rstr).

(** A wait checked against its process, before anything acts. *)
Definition prepare_wait (nfc : rstr → rstr) (n : rstr) (spec : WaitSpec) (s : Sup) : result PreparedWait WaitRefused :=
  match pane_named nfc s n ≫= proc s with
  | None => Err (UnknownProcess (colon UNKNOWN_PROCESS_NOTICE n) (p_name <$> s_workspace (sup_core s)))
  | Some p =>
    match ws_since spec ≫= λ since, (λ end_, (since, end_)) <$> end_before (sup_core s) (sup_watch s) (p_id p) since with
    | Some (since, end_) =>
      Err (InvalidWait (n ++ lit ": " ++ SINCE_PAST_END ++ lit " (" ++ OutputCursor.display since ++ lit " > " ++ OutputCursor.display end_ ++ lit ")"))
    | None =>
      let has_check := is_some (p_ready p) in
      let until := default (default_for has_check) (ws_until spec) in
      if bool_decide (until = UntilReady) && negb has_check then Err (InvalidWait (spaced n NO_READY_CHECK)) else
      let prepared matcher :=
        {| pw_pane := p_id p; pw_process := p_name p; pw_until := until; pw_matcher := matcher; pw_since := ws_since spec;
           pw_timeout := ws_timeout spec; pw_asked := s_now (sup_core s); pw_already_running := false |} in
      match log_pattern_of until with
      | None => Ok (prepared None)
      | Some pattern =>
        match compile_error pattern with Some error => Err (InvalidWait error) | None => Ok (prepared (Some pattern)) end
      end
    end
  end.

(** What a wait that rides on a start or restart is pinned to. *)
Definition generation_of (nfc : rstr → rstr) (n : rstr) (s : Sup) : N :=
  match pane_named nfc s n with Some pane => current_generation s pane | None => 0%N end.
Definition runs_or_starts (nfc : rstr → rstr) (n : rstr) (s : Sup) : bool :=
  match pane_named nfc s n with Some pane => is_live s pane || is_starting s pane | None => false end.

(** A wait asked on its own. *)
Definition wait_for (nfc : rstr → rstr) (n : rstr) (spec : WaitSpec) (reply : N) (s : Sup) : result Sup WaitRefused :=
  let? p := prepare_wait nfc n spec s in Ok (on_waits (λ c, begin_wait c (read_now c) p None reply) s).

(** The waits of a batch, each with the generation before it. *)
Fixpoint prepare_all (nfc : rstr → rstr) (spec : WaitSpec) (panes : list N) (s : Sup) : result (gmap N (PreparedWait * N)) WaitRefused :=
  match panes with
  | [] => Ok ∅
  | pane :: panes =>
    match proc s pane with
    | None => prepare_all nfc spec panes s
    | Some p =>
      let? wait := prepare_wait nfc (p_name p) spec s in
      let? rest := prepare_all nfc spec panes s in
      Ok (<[pane := (wait, current_generation s pane)]> rest)
    end
  end.

(** A batch answered at once when nothing was started, else once every wait
    of its group is. *)
Definition begin_group (c : Core) (batch : BatchOutcome) (acted : list (PreparedWait * N)) (reply : N) (w : Waits) : Waits :=
  match acted with
  | [] => send (WReply reply (RBatch batch)) w
  | _ =>
    let group := w_next_group w in
    let w := w_on_groups (<[group := group_new batch (length acted) reply]>) (w_on_next_group N.succ w) in
    foldl (λ w (swa : nat * (PreparedWait * N)), register c (read_now c) swa.2.1 (Some swa.2.2) (Batch group swa.1) w) w (imap pair acted)
  end.

Definition up_waiting (env : Env) (nfc : rstr → rstr) (environment : gmap rstr rstr) (spec : WaitSpec) (reply : N) (s : Sup)
    : result unit WaitRefused * Sup :=
  let '(panes, s) := autostart_panes env s in
  match prepare_all nfc spec panes s with
  | Err refused => (Err refused, s)
  | Ok prepared =>
    let '(batch, s) := up env environment s in
    let acted := omap (λ n, pane_named nfc s n ≫= λ pane, prepared !! pane) (bo_acted batch) in
    (Ok tt, on_waits (λ c, begin_group c batch acted reply) s)
  end.
End waits.
