(* ===== verification/ServiceParts.v ===== *)
(** * Parts of the service around its supervisors

    Models muster-service/src/entering_launches.rs, shell_notes.rs,
    stopping_entries.rs and event_waiter.rs, what a service asks of a
    supervisor (supervisor/lookup.rs, metrics.rs, bridge.rs, snapshot.rs,
    blocking.rs and idle.rs), and the text of the refusals a service records.
    Quoting for a shell and showing a path are parameters, as in StackStore.v. *)
From S2P Require Import Prelude RustText RustPath Occupancy Values Process Config StackStore StackSync EventLog Books Tap WaitData SupState Lifecycle Waits.

(** ** What the service is built over *)

(** The regular expressions, the text of durations, paths and quoted words, the
    terminal's repaint, Unicode tables, the holders' log paths, and what is
    wired: other crates' code, behind its interface. *)
Class Outside := {
  #[global] line_renderer :: LineRenderer;
  compile_error : LogPattern → option rstr;
  is_match : LogPattern → rstr → bool;
  show_duration : duration → rstr;
  replay_matching : N → list LogPattern → option N;
  nfc : rstr → rstr;
  to_uppercase : rstr → rstr;
  repaint_text : list N → PtySize → rstr;
  is_format : rchar → bool;
  try_quote : rstr → option rstr;
  path_display : path → rstr;
  process_log : path → rstr → path;
  version : rstr;
  binary : path;
  samples_ports : bool;
  samples_usage : bool;
  finds_occupants : bool;
}.

#[export] Hint Extern 0 Watching => exact (waits_watching compile_error is_match show_duration replay_matching) : typeclass_instances.

(** ** Texts *)
Definition show_holder (h : PortHolder) : rstr := lit "project '" ++ ph_project h ++ lit "', process '" ++ ph_process h ++ lit "'".
Definition show_owner (o : PortOwner) : rstr :=
  match o with
  | OSupervised holder => show_holder holder
  | OOther occupant => lit "pid " ++ print_dec (po_pid occupant) ++ lit " (" ++ po_command occupant ++ lit ")"
  end.
Definition BLOCKED_REASON : rstr := lit "did not start: port".
Definition HELD_BY : rstr := lit "is held by".
Definition show_block (b : PortBlock) : rstr :=
  BLOCKED_REASON ++ lit " " ++ print_dec (pb_port b) ++ lit " " ++ HELD_BY ++ lit " " ++ show_owner (pb_holder b).

Section texts.
Context `{Outside}.

Definition count (n : nat) : rstr := print_dec (N.of_nat n).
Definition NEVER_STARTED : rstr := lit "so it is never started".
Definition quoted (var : rstr) : rstr := default var (try_quote var).

Definition show_unconfined (u : UnconfinedDir) : rstr :=
  let n := shell_quoted try_quote (ud_name u) in
  lit "the stored working dir '" ++ path_display (ud_dir u) ++ lit "' of " ++ n ++
  lit " leaves the project root, so it is never started; `muster set " ++ n ++ lit " --no-cwd` or `muster rm " ++ n ++ lit "` fixes it".

Definition show_problem (p : StoredProblem) : rstr :=
  match p with
  | PUnconfinedDir u => show_unconfined u
  | POverCap raw over =>
    let n := shell_quoted try_quote raw in
    let remove := lit "`muster rm " ++ n ++ lit "`" in
    let unset var := lit "`muster set " ++ n ++ lit " --unset-env " ++ var ++ lit "` or " ++ remove ++ lit " fixes it" in
    match over with
    | CapName found =>
      lit "the stored name of " ++ n ++ lit " is " ++ count found ++ lit " characters, more than the " ++ count PROCESS_NAME_MAX_CHARS ++
      lit " muster allows, " ++ NEVER_STARTED ++ lit "; " ++ remove ++ lit " fixes it"
    | CapVarName var found =>
      lit "a stored variable name of " ++ n ++ lit " is " ++ count found ++ lit " characters, more than the " ++ count ENV_NAME_MAX_CHARS ++
      lit " muster allows, " ++ NEVER_STARTED ++ lit "; " ++ unset (quoted var)
    | CapVarValue var found =>
      lit "the stored variable " ++ quoted var ++ lit " of " ++ n ++ lit " is " ++ count found ++ lit " characters, more than the " ++
      count ENV_VALUE_MAX_CHARS ++ lit " muster allows, " ++ NEVER_STARTED ++ lit "; " ++ unset (quoted var)
    | CapVars found =>
      n ++ lit " has " ++ count found ++ lit " stored variables, more than the " ++ count ENV_VARS_MAX ++ lit " muster allows, " ++
      NEVER_STARTED ++ lit "; unsetting " ++ count (found - ENV_VARS_MAX) ++ lit " of them with " ++ unset (lit "<NAME>")
    | CapPorts found =>
      n ++ lit " declares " ++ count found ++ lit " stored ports, more than the " ++ count DECLARED_PORTS_MAX ++ lit " muster allows, " ++
      NEVER_STARTED ++ lit "; `muster set " ++ n ++ lit "` with at most " ++ count DECLARED_PORTS_MAX ++ lit " `--port`s, `muster set " ++ n ++
      lit " --no-ports` or " ++ remove ++ lit " fixes it"
    end
  end.

Definition message_text (m : Message) : rstr :=
  match m with MText text => text | MProblem problem => show_problem problem | MBlock block => show_block block end.
End texts.

(** ** Enterings that found processes stopping *)
Record StoppingEntry := { se_shell : ShellId; se_environment : gmap rstr rstr; se_names : list rstr }.

Definition wait (w : gmap path StoppingEntry) (project : path) (e : StoppingEntry) : gmap path StoppingEntry :=
  <[project := e]> w.

(** Takes every entering none of whose processes still runs. *)
Definition take_stopped (w : gmap path StoppingEntry) (runs : path → rstr → bool)
    : list (path * StoppingEntry) * gmap path StoppingEntry :=
  let stopped (pe : path * StoppingEntry) := negb (existsb (runs pe.1) (se_names pe.2)) = true in
  (map_to_list (filter stopped w), filter (λ pe, ¬ stopped pe) w).

Definition forget_project (w : gmap path StoppingEntry) (project : path) : gmap path StoppingEntry :=
  delete project w.

(** ** The shell each launch in flight was entered by *)
Module Entering.

Definition begin (project : path) (names : list rstr) (shell : ShellId) (l : gmap (path * rstr) ShellId) : gmap (path * rstr) ShellId :=
  foldl (λ l n, <[(project, n) := shell]> l) l names.

Definition settle (project : path) (n : rstr) (l : gmap (path * rstr) ShellId) : option ShellId * gmap (path * rstr) ShellId :=
  (l !! (project, n), delete (project, n) l).

Definition forget_project (project : path) (l : gmap (path * rstr) ShellId) : gmap (path * rstr) ShellId :=
  filter (λ kv, kv.1.1 ≠ project) l.

Definition forget_shell (shell : ShellId) (l : gmap (path * rstr) ShellId) : gmap (path * rstr) ShellId :=
  filter (λ kv, kv.2 ≠ shell) l.
End Entering.

(** ** Notes kept for a shell's next report *)
Inductive ShellNote := NStarted (project : rstr) (names : list rstr) | NRefused (project : rstr) (refusal : Refusal).

Definition MAX_QUEUED_NOTES : nat := 16.

Module Notes.

Definition queue (shell : ShellId) (note : ShellNote) (q : gmap ShellId (list ShellNote)) : gmap ShellId (list ShellNote) :=
  let notes := default [] (q !! shell) in
  let notes := if bool_decide (length notes = MAX_QUEUED_NOTES) then drop 1 notes else notes in
  <[shell := notes ++ [note]]> q.

Definition take (shell : ShellId) (q : gmap ShellId (list ShellNote)) : list ShellNote * gmap ShellId (list ShellNote) :=
  (default [] (q !! shell), delete shell q).

Definition forget (shell : ShellId) (q : gmap ShellId (list ShellNote)) : gmap ShellId (list ShellNote) := delete shell q.
End Notes.

(** A client waiting for a project's next event. *)
Record EventWaiter := {
  ew_project : path;
  ew_since : EventSeq;
  ew_kinds : list EventKind;
  ew_deadline : N;
  ew_reply : N;
}.

(** ** What a service asks of a supervisor *)
Record ProcessSample := { sa_cpu_percent : N; sa_memory_bytes : N }.
Inductive UrlSource := Declared | Detected.
Record StackUrl := { su_url : rstr; su_source : UrlSource }.

Record ProcessStatus := {
  ps_name : rstr;
  ps_state : ProcessState;
  ps_ready : Readiness;
  ps_pid : option N;
  ps_uptime : option duration;
  ps_restarts : N;
  ps_usage : option ProcessUsage;
  ps_attached : N;
  ps_ports : list ListeningSocket;
  ps_urls : list StackUrl;
  ps_run_start : option N;
  ps_last_exit : option LastExit;
  ps_stop_grace : duration;
  ps_blocked_on : option PortBlock;
}.

Record OccupancyStatus := { oc_shells : N; oc_idle_stop : IdleStop; oc_stops_in : option duration }.
Record ProjectStatus := { pj_project : Project; pj_processes : list ProcessStatus; pj_occupancy : OccupancyStatus }.

(** A screen only a holder can serve is read off the loop. *)
Record HolderScreen := { hc_project : path; hc_pane : N; hc_generation : N; hc_handle : N; hc_fallback : rstr }.
Inductive ScreenReply := ScreenReady (text : rstr) | ScreenReadHolder (screen : HolderScreen).

Definition DETECTED_URL_PREFIX : rstr := lit "http://localhost:".

(** Ports as a [BTreeSet] lists them. *)
Fixpoint insert_port (port : N) (ports : list N) : list N :=
  match ports with
  | [] => [port]
  | p :: ports => if (port <? p)%N then port :: p :: ports else if (port =? p)%N then p :: ports else p :: insert_port port ports
  end.

Definition urls (check : option ReadyCheck) (ports : list ListeningSocket) : list StackUrl :=
  match probe <$> check with
  | Some (PHttp url) => [{| su_url := url; su_source := Declared |}]
  | _ => (λ port, {| su_url := DETECTED_URL_PREFIX ++ print_dec port; su_source := Detected |}) <$> foldl (λ l s, insert_port (ls_port s) l) [] ports
  end.

Section asked.
Context `{Outside}.

Definition has_process (n : rstr) (s : Sup) : bool := is_some (pane_named nfc s n).
Definition process_names (s : Sup) : list rstr := p_name <$> s_workspace (sup_core s).

Definition live_pid (n : rstr) (s : Sup) : option N := (pane_named nfc s n ≫= live s) ≫= h_process_id.

(** The pane and pid of every live process. *)
Definition live_pids (s : Sup) : list (N * N) :=
  omap (λ kv : N * Pane, (pn_handle kv.2 ≫= h_process_id) ≫= λ pid, Some (kv.1, pid)) (map_to_list (s_panes (sup_core s))).

Definition wants_usage (s : Sup) : bool := negb (bool_decide (live_pids s = [])) || Metrics.has_usage (s_metrics (sup_core s)).
Definition live_root_pids (s : Sup) : list N := (live_pids s).*2.

Definition take_usage (samples : gmap N ProcessSample) (s : Sup) : bool * Sup :=
  let updated : gmap N ProcessUsage :=
    list_to_map (omap (λ pp : N * N, (λ sample, (pp.1, {| pu_pid := pp.2; pu_cpu_percent := sa_cpu_percent sample;
                                                           pu_memory_bytes := sa_memory_bytes sample |})) <$> samples !! pp.2) (live_pids s)) in
  let '(changed, book) := Metrics.replace_usage updated (s_metrics (sup_core s)) in (changed, upd (on_metrics (λ _, book)) s).

Definition take_ports (sample : gmap N (list ListeningSocket)) (s : Sup) : Sup :=
  let ports : gmap N (list ListeningSocket) :=
    list_to_map (omap (λ pp : N * N, (λ sockets, (pp.1, sockets)) <$> sample !! pp.2) (live_pids s)) in
  upd (on_metrics (Metrics.replace_ports ports)) s.

Definition port_holder_of (s : Sup) (p : Process) : PortHolder := {| ph_project := pr_name (s_project (sup_core s)); ph_process := p_name p |}.

Definition held_ports (s : Sup) : list (N * PortHolder) :=
  concat (omap (λ kv : N * list ListeningSocket,
                  (λ p, (λ socket, (ls_port socket, port_holder_of s p)) <$> kv.2) <$> proc s kv.1) (map_to_list (mb_ports (s_metrics (sup_core s))))).

Definition holder_of_pids (pids : list N) (s : Sup) : option PortHolder :=
  (List.find (λ pp : N * N, bool_decide (pp.2 ∈ pids)) (live_pids s)) ≫= λ pp, port_holder_of s <$> proc s pp.1.

(** The visible screen of a process, or the read of it to make. *)
Definition pane_screen (s : Sup) (pane : N) : ScreenReply :=
  match s_panes (sup_core s) !! pane with
  | None => ScreenReady []
  | Some target =>
    match pn_handle target, generation s pane with
    | Some h, Some gen =>
      if h_screen_served h
      then ScreenReadHolder {| hc_project := root s; hc_pane := pane; hc_generation := gen; hc_handle := h_id h; hc_fallback := pn_screen target |}
      else ScreenReady (pn_screen target)
    | _, _ => ScreenReady (pn_screen target)
    end
  end.

Definition screen (n : rstr) (s : Sup) : option ScreenReply := pane_screen s <$> pane_named nfc s n.

Definition send_input (env : Env) (n : rstr) (data : list N) (s : Sup) : bool * Sup :=
  match pane_named nfc s n ≫= live s with Some h => call env (CWriteInput (h_id h) data) s | None => (false, s) end.

Definition idle_stop_of (s : Sup) : IdleStop := idle_stop_or (s_project (sup_core s)) (idle_stop (s_settings (sup_core s))).
Definition forget_idle_stopping (s : Sup) : Sup := upd (on_idle_stopping (λ _, ∅)) s.
Definition launches_in_flight (s : Sup) : nat := Book.in_flight (s_launches (sup_core s)).

Definition occupancy_status (s : Sup) : OccupancyStatus :=
  {| oc_shells := s_occupants (sup_core s); oc_idle_stop := idle_stop_of s;
     oc_stops_in := (λ deadline, (deadline - s_now (sup_core s))%N) <$> idle_deadline s |}.

(** One row of [ps]; none for an unsupervised child found gone whose row was
    removed. Whether it runs is asked of the system twice, as its state and
    its pid are read. *)
Definition process_status (env : Env) (s : Sup) (p : Process) : option ProcessStatus * Sup :=
  let pane := p_id p in
  let '(pid, s) := if bool_decide (p_state p = SUnsupervised) then running_unsupervised_pid env pane s else (Some 0%N, s) in
  let gone := bool_decide (p_state p = SUnsupervised) && negb (is_some pid) in
  if gone && match s_panes (sup_core s) !! pane with Some t => bool_decide (pn_config_membership t = RetireOnExit) | None => false end
  then (None, s) else
  let state := if gone then SExited else p_state p in
  let running := s_panes (sup_core s) !! pane ≫= λ t, if is_some (pn_handle t) then Some t else None in
  let ports := default [] (mb_ports (s_metrics (sup_core s)) !! pane) in
  let '(child, s) := match (running ≫= pn_handle) ≫= h_process_id with
                     | Some pid => (Some pid, s)
                     | None => running_unsupervised_pid env pane s
                     end in
  (Some {| ps_name := p_name p; ps_state := state; ps_ready := default RdNone (rr_state <$> w_readiness (sup_watch s) !! pane);
           ps_pid := child; ps_uptime := (λ t, (s_now (sup_core s) - pn_started_at t)%N) <$> running;
           ps_restarts := Restarts.restarts_of (s_restarts (sup_core s)) pane; ps_usage := mb_usage (s_metrics (sup_core s)) !! pane;
           ps_attached := Attach.attached (s_attach (sup_core s)) pane; ps_ports := ports; ps_urls := urls (p_ready p) ports;
           ps_run_start := w_taps (sup_watch s) !! pane ≫= ot_run_start;
           ps_last_exit := if negb (is_active state) || bool_decide (state = SRestarting) then Restarts.last_exit (s_restarts (sup_core s)) pane else None;
           ps_stop_grace := grace_period (p_stop p);
           ps_blocked_on := if may_be_running state then None else mb_blocks (s_metrics (sup_core s)) !! pane |}, s).

Definition snapshot (env : Env) (s : Sup) : ProjectStatus * Sup :=
  let '(processes, s) := collect_with (λ p s, process_status env s p) (s_workspace (sup_core s)) s in
  ({| pj_project := s_project (sup_core s); pj_processes := processes; pj_occupancy := occupancy_status s |}, s).
End asked.

(** Taking the stopped enterings takes exactly those none of whose processes
    runs, each once, and leaves the others. *)
Lemma take_stopped_exact w runs :
  let '(taken, rest) := take_stopped w runs in
  NoDup taken.*1 ∧
  ∀ p e, w !! p = Some e ↔
    ((p, e) ∈ taken ∧ rest !! p = None ∧ Forall (λ n, runs p n = false) (se_names e)) ∨
    ((p, e) ∉ taken ∧ rest !! p = Some e ∧ Exists (λ n, runs p n = true) (se_names e)).
Proof.
  unfold take_stopped. split; [apply NoDup_fst_map_to_list|]. intros p e.
  rewrite elem_of_map_to_list, map_lookup_filter_Some, map_lookup_filter_None, map_lookup_filter_Some.
  cbn [fst snd].
  assert (negb (existsb (runs p) (se_names e)) = true ↔ Forall (λ n, runs p n = false) (se_names e)) as Hf
    by (rewrite negb_true_iff; apply existsb_false).
  assert (¬ negb (existsb (runs p) (se_names e)) = true ↔ Exists (λ n, runs p n = true) (se_names e)) as He.
  { rewrite not_true_iff_false, negb_false_iff, existsb_true, Exists_exists. done. }
  rewrite <- Hf, <- He. split.
  - intros Hp. destruct (decide (negb (existsb (runs p) (se_names e)) = true)) as [Hd|Hd]; [left|right]; naive_solver.
  - naive_solver.
Qed.
