(* ===== verification/Runtime.v ===== *)
(** * The service

    Models muster-service/src/runtime.rs: the one loop that owns every loaded
    project's supervisor, the shell table, the event log and notices, and
    answers clients; how it loads projects, follows the store, takes reports
    of shells, stops idle projects, and exits.

    What the loop reads outside (the store, the holders' records, which shells
    live, clocks, samples) is a [World] given with each event: reads within one
    event see one state of it. A supervisor keeps its history; what an
    operation adds to it is recorded in the event log and notices or sent as a
    reply here, in order. A map is walked in one fixed order; the code leaves the order
    open. What a worker thread finds comes back as an event, in any turn. *)
From S2P Require Import Prelude RustText RustPath Occupancy Values Process Config StackStore StackSync EventLog Books Tap WaitData SupState Lifecycle Waits ServiceParts.

Definition MAX_SHELLS : nat := N.to_nat 4096.
Definition UNKNOWN_PROCESS : rstr := lit "no process with that name in this project".
Definition NOT_RUNNING : rstr := lit "the process is not running".
Definition NO_HOLDER : rstr := lit "the process has no holder to reach it by".
Definition STORE_UNREADABLE : rstr := lit "could not read the stored state".
Definition UNADOPTABLE_PROJECT_NOTICE : rstr :=
  lit "processes of this project are running but its stack cannot be read; they are left running until it can".
Definition UNREADABLE_RECORD_NOTICE : rstr := lit "could not read the holder record".
Definition UNREADABLE_RECORD_OUTCOME : rstr := lit "its process, if it still runs, is left running unsupervised".
Definition SWEEP_FAILED_NOTICE : rstr := lit "could not remove the leftover holder handover file".
Definition LEGACY_LOGS_NOTICE : rstr := lit "could not remove the old per-holder logs".
Definition SHELL_TABLE_FULL : rstr := lit "the service already follows as many shells as it can".
Definition IDLE_STOPPED : rstr := lit "stopped".
Definition NO_SHELL_FOR : rstr := lit "no shell in it for".
Definition NAME_SEPARATOR : rstr := lit ", ".
Definition IDLE_STOPS_UNREADABLE_NOTICE : rstr :=
  lit "could not read the idle stops pending when the service last ran; they arm again at the next leave".
Definition SHELL_SWEEP_INTERVAL : duration := from_secs 5.
Definition PORT_SAMPLE_INTERVAL : duration := from_secs 2.
Definition USAGE_SAMPLE_INTERVAL : duration := from_secs 2.
Definition U32_MAX : N := 4294967295.

(** ** Requests, answers and events *)
Inductive ServiceErrorKind := KUnknownProcess | KUnknownProject | KNotRunning | KInvalidRequest | KInvalidInput | KBusy | KInternal.
Record ServiceErrorBody := { eb_kind : ServiceErrorKind; eb_message : rstr; eb_candidates : list rstr }.

Inductive ServiceResponse :=
| SHello (version : rstr) (binary : path)
| SOk
| SBatch (b : BatchOutcome)
| SLog (log : path)
| SStatus (projects : list ProjectStatus)
| SShellNotes (notes : list ShellNote)
| SLocated (socket log : path)
| SScreen (text : rstr)
| SNotices (notices : list Notice)
| SWaited (o : WaitOutcome)
| SEvents (page : EventPage)
| SError (body : ServiceErrorBody).

Inductive ProcessAction := AStart | AStop | ARestart | APause | AResume | AKill.

Inductive ServiceRequest :=
| QHello
| QUp (project : path) (environment : gmap rstr rstr) (wait : option WaitSpec)
| QDown (project : path)
| QPs (project : option path)
| QControl (project : path) (n : rstr) (action : ProcessAction) (environment : gmap rstr rstr) (wait : option WaitSpec)
| QWait (project : path) (n : rstr) (wait : WaitSpec)
| QEvents (project : path) (since : option EventSeq) (kinds : list EventKind) (wait : duration)
| QLocate (project : path) (n : rstr)
| QLog (project : path) (n : rstr)
| QScreen (project : path) (n : rstr)
| QNotices (project : path)
| QSendInput (project : path) (n : rstr) (data : list N)
| QStackChanged (project : path)
| QSettingsChanged
| QShellReport (record : ShellRecord) (environment : option (gmap rstr rstr))
| QReplace
| QStop.

Inductive Reply := Now (r : ServiceResponse) | Screen (s : ScreenReply) | Held | Exit.
Inductive Flow := Continue | FlowExit (reply : N).

Inductive ServiceEvent :=
| VOutput (project : path) (pane generation : N) (o : ProcessOutput)
| VRespawn (project : path) (pane generation : N)
| VForceStop (project : path) (pane spawn_generation shutdown_generation : N)
| VSpawned (project : path) (pane generation : N) (r : result Handle rstr)
| VLaunchBlocked (project : path) (pane generation port : N) (occupant : PortOccupant)
| VShellsGone (shells : list ShellId)
| VAdopted (project : path) (pane generation : N) (record : HolderRecord) (r : result Handle rstr)
| VAdoptionRetryDue (project : path) (pane attempt : N)
| VReconnectLocated (project : path) (pane generation : N) (record : option HolderRecord)
| VLogRead (project : path) (pane read : N) (r : LogReadResult)
| VAdoptionProbed (project : path) (pane attempt : N) (asked : bool) (record : option HolderRecord)
| VProbePassed (project : path) (pane generation : N) (target : ProbeTarget)
| VPortsSampled (ports : gmap N (list ListeningSocket))
| VRequest (q : ServiceRequest) (reply : N)
| VHolderRead (screen : HolderScreen) (read : result rstr rstr) (reply : N).

(** ** The world *)
Record RecordedEdit := { re_id : N; re_at : N; re_process : option rstr; re_message : rstr }.
Record PendingIdleStop := { pi_project : path; pi_left_at : N }.

Record World := {
  wo_now : N;
  wo_wall : N;
  wo_env : Env;
  wo_revision : path → result (option Z) rstr;
  wo_stack : path → result (option Stack) rstr;
  wo_settings : result Settings rstr;
  wo_edits : path → result (list RecordedEdit) rstr;
  wo_raised_through : path → result (option N) rstr;
  wo_ended_runs : path → result (list EndedRun) rstr;
  wo_pending_idle : result (list PendingIdleStop) rstr;
  wo_live_records : list HolderRecord;
  wo_unreadable_records : list path;
  wo_legacy_logs : result unit rstr;
  wo_handover_sweep : result (list (path * rstr)) rstr;
  wo_shell_records : list ShellRecord;
  wo_is_live : ShellId → bool;
  wo_samples : list N → gmap N ProcessSample;
}.

(** What the service does outside, besides what its supervisors do. *)
Inductive Outcome :=
| TSup (project : path) (e : Effect)
| TReply (reply : N) (r : ServiceResponse)
| TIdleArmed (stop : PendingIdleStop)
| TIdleCleared (project : path)
| TEditsRaised (project : path) (id : N)
| TForgetShell (shell : ShellId)
| TSweep (shells : list ShellId)
| TSamplePorts (pids : list N)
| TLocate (pid reply : N)
| TReadScreen (screen : HolderScreen) (reply : N)
| TAbandon (h : N)
| TRelease (project : path).

Section service.
Context `{Outside}.

(** ** State *)
Record Rt := {
  rt_recorded_idle : gmap path N;
  rt_settings : Settings;
  rt_notices : list Notice;
  rt_supervisors : gmap path Sup;
  rt_stack_revisions : gmap path (option Z);
  rt_raised_edits : gmap path N;
  rt_unregistered : gset path;
  rt_event_log : EventLog;
  rt_event_waiters : list EventWaiter;
  rt_ports_deadline : N;
  rt_usage_deadline : N;
  rt_occupancy : Occupancy.Occupancy;
  rt_sweep_deadline : N;
  rt_shell_notes : gmap ShellId (list ShellNote);
  rt_entering : gmap (path * rstr) ShellId;
  rt_stopping_entries : gmap path StoppingEntry;
  rt_shell_environments : gmap ShellId (gmap rstr rstr);
  rt_out : list Outcome;
}.

(** The service with one field changed. *)
Definition rt_on_recorded_idle (f : gmap path N → gmap path N) (t : Rt) : Rt :=
  {| rt_recorded_idle := f (rt_recorded_idle t); rt_settings := rt_settings t; rt_notices := rt_notices t;
     rt_supervisors := rt_supervisors t; rt_stack_revisions := rt_stack_revisions t; rt_raised_edits := rt_raised_edits t;
     rt_unregistered := rt_unregistered t; rt_event_log := rt_event_log t; rt_event_waiters := rt_event_waiters t;
     rt_ports_deadline := rt_ports_deadline t; rt_usage_deadline := rt_usage_deadline t; rt_occupancy := rt_occupancy t;
     rt_sweep_deadline := rt_sweep_deadline t; rt_shell_notes := rt_shell_notes t; rt_entering := rt_entering t;
     rt_stopping_entries := rt_stopping_entries t; rt_shell_environments := rt_shell_environments t; rt_out := rt_out t |}.
Definition rt_on_settings (f : Settings → Settings) (t : Rt) : Rt :=
  {| rt_recorded_idle := rt_recorded_idle t; rt_settings := f (rt_settings t); rt_notices := rt_notices t;
     rt_supervisors := rt_supervisors t; rt_stack_revisions := rt_stack_revisions t; rt_raised_edits := rt_raised_edits t;
     rt_unregistered := rt_unregistered t; rt_event_log := rt_event_log t; rt_event_waiters := rt_event_waiters t;
     rt_ports_deadline := rt_ports_deadline t; rt_usage_deadline := rt_usage_deadline t; rt_occupancy := rt_occupancy t;
     rt_sweep_deadline := rt_sweep_deadline t; rt_shell_notes := rt_shell_notes t; rt_entering := rt_entering t;
     rt_stopping_entries := rt_stopping_entries t; rt_shell_environments := rt_shell_environments t; rt_out := rt_out t |}.
Definition rt_on_notices (f : list Notice → list Notice) (t : Rt) : Rt :=
  {| rt_recorded_idle := rt_recorded_idle t; rt_settings := rt_settings t; rt_notices := f (rt_notices t);
     rt_supervisors := rt_supervisors t; rt_stack_revisions := rt_stack_revisions t; rt_raised_edits := rt_raised_edits t;
     rt_unregistered := rt_unregistered t; rt_event_log := rt_event_log t; rt_event_waiters := rt_event_waiters t;
     rt_ports_deadline := rt_ports_deadline t; rt_usage_deadline := rt_usage_deadline t; rt_occupancy := rt_occupancy t;
     rt_sweep_deadline := rt_sweep_deadline t; rt_shell_notes := rt_shell_notes t; rt_entering := rt_entering t;
     rt_stopping_entries := rt_stopping_entries t; rt_shell_environments := rt_shell_environments t; rt_out := rt_out t |}.
Definition rt_on_supervisors (f : gmap path Sup → gmap path Sup) (t : Rt) : Rt :=
  {| rt_recorded_idle := rt_recorded_idle t; rt_settings := rt_settings t; rt_notices := rt_notices t;
     rt_supervisors := f (rt_supervisors t); rt_stack_revisions := rt_stack_revisions t; rt_raised_edits := rt_raised_edits t;
     rt_unregistered := rt_unregistered t; rt_event_log := rt_event_log t; rt_event_waiters := rt_event_waiters t;
     rt_ports_deadline := rt_ports_deadline t; rt_usage_deadline := rt_usage_deadline t; rt_occupancy := rt_occupancy t;
     rt_sweep_deadline := rt_sweep_deadline t; rt_shell_notes := rt_shell_notes t; rt_entering := rt_entering t;
     rt_stopping_entries := rt_stopping_entries t; rt_shell_environments := rt_shell_environments t; rt_out := rt_out t |}.
Definition rt_on_stack_revisions (f : gmap path (option Z) → gmap path (option Z)) (t : Rt) : Rt :=
  {| rt_recorded_idle := rt_recorded_idle t; rt_settings := rt_settings t; rt_notices := rt_notices t;
     rt_supervisors := rt_supervisors t; rt_stack_revisions := f (rt_stack_revisions t); rt_raised_edits := rt_raised_edits t;
     rt_unregistered := rt_unregistered t; rt_event_log := rt_event_log t; rt_event_waiters := rt_event_waiters t;
     rt_ports_deadline := rt_ports_deadline t; rt_usage_deadline := rt_usage_deadline t; rt_occupancy := rt_occupancy t;
     rt_sweep_deadline := rt_sweep_deadline t; rt_shell_notes := rt_shell_notes t; rt_entering := rt_entering t;
     rt_stopping_entries := rt_stopping_entries t; rt_shell_environments := rt_shell_environments t; rt_out := rt_out t |}.
Definition rt_on_raised_edits (f : gmap path N → gmap path N) (t : Rt) : Rt :=
  {| rt_recorded_idle := rt_recorded_idle t; rt_settings := rt_settings t; rt_notices := rt_notices t;
     rt_supervisors := rt_supervisors t; rt_stack_revisions := rt_stack_revisions t; rt_raised_edits := f (rt_raised_edits t);
     rt_unregistered := rt_unregistered t; rt_event_log := rt_event_log t; rt_event_waiters := rt_event_waiters t;
     rt_ports_deadline := rt_ports_deadline t; rt_usage_deadline := rt_usage_deadline t; rt_occupancy := rt_occupancy t;
     rt_sweep_deadline := rt_sweep_deadline t; rt_shell_notes := rt_shell_notes t; rt_entering := rt_entering t;
     rt_stopping_entries := rt_stopping_entries t; rt_shell_environments := rt_shell_environments t; rt_out := rt_out t |}.
Definition rt_on_unregistered (f : gset path → gset path) (t : Rt) : Rt :=
  {| rt_recorded_idle := rt_recorded_idle t; rt_settings := rt_settings t; rt_notices := rt_notices t;
     rt_supervisors := rt_supervisors t; rt_stack_revisions := rt_stack_revisions t; rt_raised_edits := rt_raised_edits t;
     rt_unregistered := f (rt_unregistered t); rt_event_log := rt_event_log t; rt_event_waiters := rt_event_waiters t;
     rt_ports_deadline := rt_ports_deadline t; rt_usage_deadline := rt_usage_deadline t; rt_occupancy := rt_occupancy t;
     rt_sweep_deadline := rt_sweep_deadline t; rt_shell_notes := rt_shell_notes t; rt_entering := rt_entering t;
     rt_stopping_entries := rt_stopping_entries t; rt_shell_environments := rt_shell_environments t; rt_out := rt_out t |}.
Definition rt_on_event_log (f : EventLog → EventLog) (t : Rt) : Rt :=
  {| rt_recorded_idle := rt_recorded_idle t; rt_settings := rt_settings t; rt_notices := rt_notices t;
     rt_supervisors := rt_supervisors t; rt_stack_revisions := rt_stack_revisions t; rt_raised_edits := rt_raised_edits t;
     rt_unregistered := rt_unregistered t; rt_event_log := f (rt_event_log t); rt_event_waiters := rt_event_waiters t;
     rt_ports_deadline := rt_ports_deadline t; rt_usage_deadline := rt_usage_deadline t; rt_occupancy := rt_occupancy t;
     rt_sweep_deadline := rt_sweep_deadline t; rt_shell_notes := rt_shell_notes t; rt_entering := rt_entering t;
     rt_stopping_entries := rt_stopping_entries t; rt_shell_environments := rt_shell_environments t; rt_out := rt_out t |}.
Definition rt_on_event_waiters (f : list EventWaiter → list EventWaiter) (t : Rt) : Rt :=
  {| rt_recorded_idle := rt_recorded_idle t; rt_settings := rt_settings t; rt_notices := rt_notices t;
     rt_supervisors := rt_supervisors t; rt_stack_revisions := rt_stack_revisions t; rt_raised_edits := rt_raised_edits t;
     rt_unregistered := rt_unregistered t; rt_event_log := rt_event_log t; rt_event_waiters := f (rt_event_waiters t);
     rt_ports_deadline := rt_ports_deadline t; rt_usage_deadline := rt_usage_deadline t; rt_occupancy := rt_occupancy t;
     rt_sweep_deadline := rt_sweep_deadline t; rt_shell_notes := rt_shell_notes t; rt_entering := rt_entering t;
     rt_stopping_entries := rt_stopping_entries t; rt_shell_environments := rt_shell_environments t; rt_out := rt_out t |}.
Definition rt_on_ports_deadline (f : N → N) (t : Rt) : Rt :=
  {| rt_recorded_idle := rt_recorded_idle t; rt_settings := rt_settings t; rt_notices := rt_notices t;
     rt_supervisors := rt_supervisors t; rt_stack_revisions := rt_stack_revisions t; rt_raised_edits := rt_raised_edits t;
     rt_unregistered := rt_unregistered t; rt_event_log := rt_event_log t; rt_event_waiters := rt_event_waiters t;
     rt_ports_deadline := f (rt_ports_deadline t); rt_usage_deadline := rt_usage_deadline t; rt_occupancy := rt_occupancy t;
     rt_sweep_deadline := rt_sweep_deadline t; rt_shell_notes := rt_shell_notes t; rt_entering := rt_entering t;
     rt_stopping_entries := rt_stopping_entries t; rt_shell_environments := rt_shell_environments t; rt_out := rt_out t |}.
Definition rt_on_usage_deadline (f : N → N) (t : Rt) : Rt :=
  {| rt_recorded_idle := rt_recorded_idle t; rt_settings := rt_settings t; rt_notices := rt_notices t;
     rt_supervisors := rt_supervisors t; rt_stack_revisions := rt_stack_revisions t; rt_raised_edits := rt_raised_edits t;
     rt_unregistered := rt_unregistered t; rt_event_log := rt_event_log t; rt_event_waiters := rt_event_waiters t;
     rt_ports_deadline := rt_ports_deadline t; rt_usage_deadline := f (rt_usage_deadline t); rt_occupancy := rt_occupancy t;
     rt_sweep_deadline := rt_sweep_deadline t; rt_shell_notes := rt_shell_notes t; rt_entering := rt_entering t;
     rt_stopping_entries := rt_stopping_entries t; rt_shell_environments := rt_shell_environments t; rt_out := rt_out t |}.
Definition rt_on_occupancy (f : Occupancy.Occupancy → Occupancy.Occupancy) (t : Rt) : Rt :=
  {| rt_recorded_idle := rt_recorded_idle t; rt_settings := rt_settings t; rt_notices := rt_notices t;
     rt_supervisors := rt_supervisors t; rt_stack_revisions := rt_stack_revisions t; rt_raised_edits := rt_raised_edits t;
     rt_unregistered := rt_unregistered t; rt_event_log := rt_event_log t; rt_event_waiters := rt_event_waiters t;
     rt_ports_deadline := rt_ports_deadline t; rt_usage_deadline := rt_usage_deadline t; rt_occupancy := f (rt_occupancy t);
     rt_sweep_deadline := rt_sweep_deadline t; rt_shell_notes := rt_shell_notes t; rt_entering := rt_entering t;
     rt_stopping_entries := rt_stopping_entries t; rt_shell_environments := rt_shell_environments t; rt_out := rt_out t |}.
Definition rt_on_sweep_deadline (f : N → N) (t : Rt) : Rt :=
  {| rt_recorded_idle := rt_recorded_idle t; rt_settings := rt_settings t; rt_notices := rt_notices t;
     rt_supervisors := rt_supervisors t; rt_stack_revisions := rt_stack_revisions t; rt_raised_edits := rt_raised_edits t;
     rt_unregistered := rt_unregistered t; rt_event_log := rt_event_log t; rt_event_waiters := rt_event_waiters t;
     rt_ports_deadline := rt_ports_deadline t; rt_usage_deadline := rt_usage_deadline t; rt_occupancy := rt_occupancy t;
     rt_sweep_deadline := f (rt_sweep_deadline t); rt_shell_notes := rt_shell_notes t; rt_entering := rt_entering t;
     rt_stopping_entries := rt_stopping_entries t; rt_shell_environments := rt_shell_environments t; rt_out := rt_out t |}.
Definition rt_on_shell_notes (f : gmap ShellId (list ShellNote) → gmap ShellId (list ShellNote)) (t : Rt) : Rt :=
  {| rt_recorded_idle := rt_recorded_idle t; rt_settings := rt_settings t; rt_notices := rt_notices t;
     rt_supervisors := rt_supervisors t; rt_stack_revisions := rt_stack_revisions t; rt_raised_edits := rt_raised_edits t;
     rt_unregistered := rt_unregistered t; rt_event_log := rt_event_log t; rt_event_waiters := rt_event_waiters t;
     rt_ports_deadline := rt_ports_deadline t; rt_usage_deadline := rt_usage_deadline t; rt_occupancy := rt_occupancy t;
     rt_sweep_deadline := rt_sweep_deadline t; rt_shell_notes := f (rt_shell_notes t); rt_entering := rt_entering t;
     rt_stopping_entries := rt_stopping_entries t; rt_shell_environments := rt_shell_environments t; rt_out := rt_out t |}.
Definition rt_on_entering (f : gmap (path * rstr) ShellId → gmap (path * rstr) ShellId) (t : Rt) : Rt :=
  {| rt_recorded_idle := rt_recorded_idle t; rt_settings := rt_settings t; rt_notices := rt_notices t;
     rt_supervisors := rt_supervisors t; rt_stack_revisions := rt_stack_revisions t; rt_raised_edits := rt_raised_edits t;
     rt_unregistered := rt_unregistered t; rt_event_log := rt_event_log t; rt_event_waiters := rt_event_waiters t;
     rt_ports_deadline := rt_ports_deadline t; rt_usage_deadline := rt_usage_deadline t; rt_occupancy := rt_occupancy t;
     rt_sweep_deadline := rt_sweep_deadline t; rt_shell_notes := rt_shell_notes t; rt_entering := f (rt_entering t);
     rt_stopping_entries := rt_stopping_entries t; rt_shell_environments := rt_shell_environments t; rt_out := rt_out t |}.
Definition rt_on_stopping_entries (f : gmap path StoppingEntry → gmap path StoppingEntry) (t : Rt) : Rt :=
  {| rt_recorded_idle := rt_recorded_idle t; rt_settings := rt_settings t; rt_notices := rt_notices t;
     rt_supervisors := rt_supervisors t; rt_stack_revisions := rt_stack_revisions t; rt_raised_edits := rt_raised_edits t;
     rt_unregistered := rt_unregistered t; rt_event_log := rt_event_log t; rt_event_waiters := rt_event_waiters t;
     rt_ports_deadline := rt_ports_deadline t; rt_usage_deadline := rt_usage_deadline t; rt_occupancy := rt_occupancy t;
     rt_sweep_deadline := rt_sweep_deadline t; rt_shell_notes := rt_shell_notes t; rt_entering := rt_entering t;
     rt_stopping_entries := f (rt_stopping_entries t); rt_shell_environments := rt_shell_environments t; rt_out := rt_out t |}.
Definition rt_on_shell_environments (f : gmap ShellId (gmap rstr rstr) → gmap ShellId (gmap rstr rstr)) (t : Rt) : Rt :=
  {| rt_recorded_idle := rt_recorded_idle t; rt_settings := rt_settings t; rt_notices := rt_notices t;
     rt_supervisors := rt_supervisors t; rt_stack_revisions := rt_stack_revisions t; rt_raised_edits := rt_raised_edits t;
     rt_unregistered := rt_unregistered t; rt_event_log := rt_event_log t; rt_event_waiters := rt_event_waiters t;
     rt_ports_deadline := rt_ports_deadline t; rt_usage_deadline := rt_usage_deadline t; rt_occupancy := rt_occupancy t;
     rt_sweep_deadline := rt_sweep_deadline t; rt_shell_notes := rt_shell_notes t; rt_entering := rt_entering t;
     rt_stopping_entries := rt_stopping_entries t; rt_shell_environments := f (rt_shell_environments t); rt_out := rt_out t |}.
Definition rt_on_out (f : list Outcome → list Outcome) (t : Rt) : Rt :=
  {| rt_recorded_idle := rt_recorded_idle t; rt_settings := rt_settings t; rt_notices := rt_notices t;
     rt_supervisors := rt_supervisors t; rt_stack_revisions := rt_stack_revisions t; rt_raised_edits := rt_raised_edits t;
     rt_unregistered := rt_unregistered t; rt_event_log := rt_event_log t; rt_event_waiters := rt_event_waiters t;
     rt_ports_deadline := rt_ports_deadline t; rt_usage_deadline := rt_usage_deadline t; rt_occupancy := rt_occupancy t;
     rt_sweep_deadline := rt_sweep_deadline t; rt_shell_notes := rt_shell_notes t; rt_entering := rt_entering t;
     rt_stopping_entries := rt_stopping_entries t; rt_shell_environments := rt_shell_environments t; rt_out := f (rt_out t) |}.

(** ** Steps that may refuse *)
Definition bind {A B} (m : Rt → result A ServiceErrorBody * Rt) (k : A → Rt → result B ServiceErrorBody * Rt) (t : Rt)
    : result B ServiceErrorBody * Rt :=
  match m t with (Ok a, t) => k a t | (Err refusal, t) => (Err refusal, t) end.
Definition ret {A} (a : A) (t : Rt) : result A ServiceErrorBody * Rt := (Ok a, t).
Definition refuse {A} (refusal : ServiceErrorBody) (t : Rt) : result A ServiceErrorBody * Rt := (Err refusal, t).
Definition modify (f : Rt → Rt) (t : Rt) : result unit ServiceErrorBody * Rt := (Ok tt, f t).

Notation "'let!' x ':=' m 'in' k" := (bind m (λ x, k)) (at level 10, x pattern, m at level 100, k at level 200).

Definition refused (kind : ServiceErrorKind) (message : rstr) : ServiceErrorBody :=
  {| eb_kind := kind; eb_message := message; eb_candidates := [] |}.
Definition unknown_project (project : path) : ServiceErrorBody :=
  refused KUnknownProject (lit "no muster project at " ++ path_display project ++ lit "; `muster add` registers one").
Definition store_refusal (error : rstr) : ServiceErrorBody := refused KInternal (colon STORE_UNREADABLE error).

Definition stored {A} (r : result A rstr) (t : Rt) : result A ServiceErrorBody * Rt :=
  (match r with Ok a => Ok a | Err error => Err (store_refusal error) end, t).

(** A wait's refusal as it is sent. *)
Definition wait_refusal (r : WaitRefused) : ServiceErrorBody :=
  match r with
  | UnknownProcess message candidates => {| eb_kind := KUnknownProcess; eb_message := message; eb_candidates := candidates |}
  | InvalidWait message => refused KInvalidInput message
  end.

(** ** What supervisors do, told *)
Definition tell_out (o : Outcome) : Rt → Rt := rt_on_out (cons o).
Definition reply_with (reply : N) (r : ServiceResponse) : Rt → Rt := tell_out (TReply reply r).

Definition record_draft (wo : World) (project : option path) (process : option rstr) (kind : EventKind) (detail : rstr) (cursor : option N) : Rt → Rt :=
  rt_on_event_log (λ l, (record_at is_format l {| draft_project := project; draft_process := process; draft_kind := kind;
                                                  draft_detail := detail; draft_cursor := cursor |} (wo_wall wo)).2).
Definition push_notice (wo : World) (project : option path) (process : option rstr) (level : NoticeLevel) (message : rstr) : Rt → Rt :=
  rt_on_notices (λ ring, (push is_format ring {| n_at := wo_wall wo; n_project := project; n_process := process; n_level := level;
                                                 n_message := message |}).1).

(** A message about a project, or the service, as an event and a notice. *)
Definition raise (wo : World) (project : option path) (level : NoticeLevel) (kind : EventKind) (message : rstr) (t : Rt) : Rt :=
  push_notice wo project None level message (record_draft wo project None kind message None t).
Definition notify (wo : World) (project : option path) (level : NoticeLevel) (message : rstr) : Rt → Rt :=
  raise wo project level Notice_ message.

Definition wait_response (r : WaitResponse) : ServiceResponse :=
  match r with
  | RWaited o => SWaited o
  | RBatch b => SBatch b
  | RInvalidInput message => SError (refused KInvalidInput message)
  | RInternal message => SError (refused KInternal message)
  end.

(** One effect of a supervisor that went from [s] to [s']. *)
Definition effect_out (wo : World) (s s' : Sup) (t : Rt) (e : Effect) : Rt :=
  let project := Some (root s') in
  let named pane := p_name <$> match proc s' pane with Some p => Some p | None => proc s pane end in
  match e with
  | FNotice level process message => push_notice wo project process level (message_text message) t
  | FEvent kind process detail cursor => record_draft wo project process kind (message_text detail) cursor t
  | FWatch (WNotice pane text) =>
    push_notice wo project (named pane) Warning text (record_draft wo project (named pane) Notice_ text None t)
  | FWatch (WEvent pane kind detail cursor) => record_draft wo project (named pane) kind detail cursor t
  | FWatch (WReply reply r) => reply_with reply (wait_response r) t
  | e => tell_out (TSup (root s') e) t
  end.

(** The effects of [s'] past those of [s], oldest first. *)
Definition new_effects (s s' : Sup) : list Effect := rev (take (length (sup_trace s') - length (sup_trace s)) (sup_trace s')).
Definition absorb (wo : World) (s s' : Sup) (t : Rt) : Rt := foldl (effect_out wo s s') t (new_effects s s').

(** Runs an operation on a loaded project's supervisor, at the world's instant. *)
Definition on_sup {A} (wo : World) (project : path) (f : Sup → A * Sup) (t : Rt) : option A * Rt :=
  match rt_supervisors t !! project with
  | None => (None, t)
  | Some s =>
    let s := upd (on_now (λ _, wo_now wo)) s in
    let '(a, s') := f s in
    (Some a, absorb wo s s' (rt_on_supervisors (<[project := s']>) t))
  end.
Definition tell_sup (wo : World) (project : path) (f : Sup → Sup) (t : Rt) : Rt := (on_sup wo project (λ s, (tt, f s)) t).2.
Definition loaded (t : Rt) : list path := (map_to_list (rt_supervisors t)).*1.
Definition each_sup (wo : World) (f : Sup → Sup) (t : Rt) : Rt := foldl (λ t project, tell_sup wo project f t) t (loaded t).

(** The same as a step that refuses a project that is not loaded. *)
Definition act {A} (wo : World) (project : path) (f : Sup → A * Sup) (t : Rt) : result A ServiceErrorBody * Rt :=
  match on_sup wo project f t with (Some a, t) => (Ok a, t) | (None, t) => (Err (unknown_project project), t) end.

(** ** Projects and their stacks *)
Definition occupants (t : Rt) (project : path) : N := N.min (N.of_nat (Occupancy.occupants (rt_occupancy t) project)) U32_MAX.
Definition empty_stack (project : Project) : Stack := {| st_project := project; st_processes := [] |}.

(** Raises each stored agent edit newer than the newest raised. *)
Definition raise_edits (wo : World) (project : path) : Rt → result unit ServiceErrorBody * Rt :=
  let! edits := stored (wo_edits wo project) in
  let! raised := λ t, match rt_raised_edits t !! project with
                      | Some raised => ret (Some raised) t
                      | None => stored (wo_raised_through wo project) t
                      end in
  let newer (edit : RecordedEdit) := match raised with Some raised => (raised <? re_id edit)%N | None => true end in
  let record (t : Rt) (edit : RecordedEdit) :=
    rt_on_event_log (λ l, (record_at is_format l {| draft_project := Some project; draft_process := re_process edit; draft_kind := Notice_;
                                                    draft_detail := re_message edit; draft_cursor := None |} (re_at edit)).2) t in
  modify (λ t,
    let t := foldl record t (filter (λ edit, newer edit = true) edits) in
    match last edits with
    | Some newest =>
      let t := if bool_decide (raised = Some (re_id newest)) then t else tell_out (TEditsRaised project (re_id newest)) t in
      rt_on_raised_edits (<[project := re_id newest]>) t
    | None => rt_on_raised_edits (delete project) t
    end).

(** Loads a project's supervisor and adopts the holders of its processes. *)
Definition load (wo : World) (project : path) (records : list HolderRecord) : Rt → result unit ServiceErrorBody * Rt :=
  let held := filter (λ r, hr_project r = project) records in
  let! revision := stored (wo_revision wo project) in
  let! found := stored (wo_stack wo project) in
  let! stack := match found with
                | Some stack => ret stack
                | None =>
                  if bool_decide (held = []) then refuse (unknown_project project) else
                  match free_name is_format 1 project [] 0 with
                  | None => refuse (unknown_project project)
                  | Some n => let! _ := modify (rt_on_unregistered (union {[project]})) in
                              ret (empty_stack {| pr_root := project; pr_name := n; pr_idle_stop := None |})
                  end
                end in
  let! ended := stored (wo_ended_runs wo project) in
  let! _ := raise_edits wo project in
  modify (λ t,
    let fresh := SupState.new nfc (st_project stack) (st_processes stack) (rt_settings t) finds_occupants (wo_now wo) in
    let s := Lifecycle.set_shells (occupants t project) (Lifecycle.restore_ends nfc ended fresh) in
    let s := foldl (λ s record, Lifecycle.adopt (wo_env wo) nfc record s) s held in
    rt_on_stack_revisions (<[project := revision]>) (absorb wo fresh s (rt_on_supervisors (<[project := s]>) t))).

(** Loads a project on first use. *)
Definition supervisor (wo : World) (project : path) : Rt → result unit ServiceErrorBody * Rt :=
  let! _ := λ t, if is_some (rt_supervisors t !! project) then ret tt t else load wo project (wo_live_records wo) t in
  λ t, if is_some (rt_supervisors t !! project) then ret tt t else refuse (unknown_project project) t.

(** The supervisor of a project that has a process of a name. *)
Definition process (wo : World) (project : path) (n : rstr) : Rt → result unit ServiceErrorBody * Rt :=
  let! _ := supervisor wo project in
  let! known := act wo project (λ s, (has_process n s, s)) in
  if (known : bool) then ret tt else
  let! names := act wo project (λ s, (process_names s, s)) in
  refuse {| eb_kind := KUnknownProcess; eb_message := colon UNKNOWN_PROCESS n; eb_candidates := names |}.

Definition share_held_ports (wo : World) (t : Rt) : Rt :=
  let held : gmap N PortHolder :=
    foldl (λ held kv, <[kv.1 := kv.2]> held) ∅
      (concat ((λ kv : path * Sup, held_ports kv.2) <$> map_to_list (rt_supervisors t))) in
  each_sup wo (upd (on_metrics (Metrics.set_held_ports held))) t.

(** Applies a loaded project's stored stack, an empty one once unregistered. *)
Definition stack_changed (wo : World) (project : path) (t : Rt) : result unit ServiceErrorBody * Rt :=
  if negb (is_some (rt_supervisors t !! project)) then ret tt t else
  (let! revision := stored (wo_revision wo project) in
   let! found := stored (wo_stack wo project) in
   let! _ := modify (rt_on_stack_revisions (<[project := revision]>)) in
   let! stack := λ t, match rt_supervisors t !! project, found with
                      | None, _ => ret None t
                      | Some _, Some stack => ret (Some stack) (rt_on_unregistered (λ u, u ∖ {[project]}) t)
                      | Some s, None => ret (Some (empty_stack (s_project (sup_core s)))) (rt_on_unregistered (union {[project]}) t)
                      end in
   match stack with
   | None => ret tt
   | Some stack => let! _ := modify (tell_sup wo project (Lifecycle.apply_stack (wo_env wo) nfc stack)) in raise_edits wo project
   end) t.

(** Applies it again when the store moved past what was last applied. *)
Definition refresh_stack (wo : World) (project : path) (t : Rt) : result unit ServiceErrorBody * Rt :=
  match rt_stack_revisions t !! project with
  | None => ret tt t
  | Some applied =>
    (let! revision := stored (wo_revision wo project) in
     if bool_decide (revision = applied) then ret tt else stack_changed wo project) t
  end.

Fixpoint each_project (f : path → Rt → result unit ServiceErrorBody * Rt) (projects : list path) : Rt → result unit ServiceErrorBody * Rt :=
  match projects with
  | [] => ret tt
  | project :: projects => let! _ := f project in each_project f projects
  end.

Definition settings_changed (wo : World) : Rt → result unit ServiceErrorBody * Rt :=
  let! settings := stored (wo_settings wo) in
  let! _ := modify (rt_on_settings (λ _, settings)) in
  let! _ := modify (each_sup wo (upd (on_settings (λ _, settings)))) in
  λ t, each_project (raise_edits wo) (loaded t) t.

(** ** Shells *)
Definition change_out (wo : World) (now : N) (t : Rt) (change : OccupancyChange) : Rt :=
  match change with
  | Occupancy.Left root => tell_sup wo root (Lifecycle.arm_idle now) (rt_on_stopping_entries (λ w, ServiceParts.forget_project w root) t)
  | Occupancy.Entered root => tell_sup wo root Lifecycle.hold_up t
  end.

(** Every project counts its shells; one its last shell left arms its idle
    stop, one entered holds it off. *)
Definition occupancy_changed (wo : World) (changes : list OccupancyChange) (t : Rt) : Rt :=
  let t := foldl (λ t project, tell_sup wo project (Lifecycle.set_shells (occupants t project)) t) t (loaded t) in
  foldl (change_out wo (wo_now wo)) t changes.

(** A client's request holds the idle stop off and takes over the launches an
    entering has in flight. *)
Definition hold_up (wo : World) (project : path) (t : Rt) : Rt :=
  tell_sup wo project Lifecycle.hold_up (rt_on_entering (Entering.forget_project project) t).

Definition client_acts_on (wo : World) (project : path) (t : Rt) : Rt :=
  tell_sup wo project (forget_idle_stopping)
    (rt_on_stopping_entries (λ w, ServiceParts.forget_project w project) t).

(** What entering does to the supervisor: the outcome, the project's name, and
    what its idle stop is still stopping. *)
Definition enter_sup (wo : World) (environment : gmap rstr rstr) (s : Sup) : (BatchOutcome * rstr * list rstr) * Sup :=
  let '(outcome, s) := Lifecycle.up (wo_env wo) environment s in
  let '(names, s) := Lifecycle.idle_stopping_among (bo_stopping outcome) s in
  ((outcome, pr_name (s_project (sup_core s)), names), s).

(** Starts the autostart set of a project a shell is the first to enter. *)
Definition enter (wo : World) (project : path) (shell : ShellId) (environment : gmap rstr rstr) (t : Rt) : list ShellNote * Rt :=
  match (let! _ := refresh_stack wo project in supervisor wo project) t with
  | (Err _, t) => ([], t)
  | (Ok _, t) =>
    let t := share_held_ports wo t in
    match on_sup wo project (enter_sup wo environment) t with
    | (None, t) => ([], t)
    | (Some (outcome, name, names), t) =>
      let t := rt_on_entering (Entering.begin project (bo_acted outcome) shell) t in
      let t := if bool_decide (names = []) then t else
               rt_on_stopping_entries (λ w, ServiceParts.wait w project {| se_shell := shell; se_environment := environment; se_names := names |}) t in
      ((if bool_decide (bo_acted outcome = []) then [] else [NStarted name (bo_acted outcome)])
         ++ (NRefused name <$> bo_refused outcome), t)
    end
  end.

(** The shell that enters again for an entering that waited. *)
Definition entering_shell (t : Rt) (project : path) (entry : StoppingEntry) : option (ShellId * gmap rstr rstr) :=
  let inside := shells_in (rt_occupancy t) project in
  if bool_decide (se_shell entry ∈ inside) then Some (se_shell entry, se_environment entry)
  else head (omap (λ shell, (λ environment, (shell, environment)) <$> rt_shell_environments t !! shell) inside).

Definition enter_again (wo : World) (t : Rt) (pe : path * StoppingEntry) : Rt :=
  match entering_shell t pe.1 pe.2 with
  | None => t
  | Some (shell, environment) =>
    let '(notes, t) := enter wo pe.1 shell environment t in
    foldl (λ t note, rt_on_shell_notes (Notes.queue shell note) t) t notes
  end.

(** Enters again each project whose entering found processes stopping, once
    they have stopped. *)
Definition enter_stopped (wo : World) (t : Rt) : Rt :=
  let runs project n := match rt_supervisors t !! project with
                        | Some s => runs_or_starts compile_error is_match show_duration replay_matching nfc n s
                        | None => false
                        end in
  let '(stopped, rest) := take_stopped (rt_stopping_entries t) runs in
  foldl (enter_again wo) (rt_on_stopping_entries (λ _, rest) t) stopped.

(** Ends the entering launch of a pane; the shell, with the names, when the
    launch is still current. *)
Definition settle_entering (project : path) (pane gen : N) (t : Rt) : option (ShellId * rstr * rstr) * Rt :=
  match rt_supervisors t !! project with
  | None => (None, t)
  | Some s =>
    match proc s pane with
    | None => (None, t)
    | Some p =>
      match Entering.settle project (p_name p) (rt_entering t) with
      | (None, l) => (None, rt_on_entering (λ _, l) t)
      | (Some shell, l) =>
        (if bool_decide (generation s pane = Some gen) then Some (shell, pr_name (s_project (sup_core s)), p_name p) else None,
         rt_on_entering (λ _, l) t)
      end
    end
  end.

(** Applies a shell's report; one late or from a shell that ended changes
    nothing. *)
Definition shell_report (wo : World) (record : ShellRecord) (environment : option (gmap rstr rstr)) (t : Rt)
    : result (list ShellNote) ServiceErrorBody * Rt :=
  let sh := shell record in
  if negb (wo_is_live wo sh) then ret [] t else
  if negb (knows (rt_occupancy t) sh) && (MAX_SHELLS <=? len (rt_occupancy t)) then refuse (refused KBusy SHELL_TABLE_FULL) t else
  let fresh := is_newer (rt_occupancy t) record in
  let '(o, changes) := Occupancy.report (rt_occupancy t) record in
  let t := occupancy_changed wo changes (rt_on_occupancy (λ _, o) t) in
  let '(notes, q) := Notes.take sh (rt_shell_notes t) in
  let t := rt_on_shell_notes (λ _, q) t in
  match environment with
  | None => ret notes t
  | Some environment =>
    let t := if fresh then rt_on_shell_environments (<[sh := environment]>) t else t in
    let entered (nt : list ShellNote * Rt) (change : OccupancyChange) :=
      match change with
      | Occupancy.Entered root =>
        if bool_decide (project record = Some root)
        then let '(more, t) := enter wo root sh environment nt.2 in (nt.1 ++ more, t)
        else nt
      | Occupancy.Left _ => nt
      end in
    let '(notes, t) := foldl entered (notes, t) changes in ret notes t
  end.

Definition shells_gone (wo : World) (gone : list ShellId) (t : Rt) : Rt :=
  let forget (ct : list OccupancyChange * Rt) (sh : ShellId) :=
    let t := rt_on_shell_environments (delete sh) (rt_on_entering (Entering.forget_shell sh) (rt_on_shell_notes (Notes.forget sh) ct.2)) in
    let '(o, changes) := Occupancy.remove (rt_occupancy t) sh in
    (ct.1 ++ changes, rt_on_occupancy (λ _, o) t) in
  let '(changes, t) := foldl forget ([], t) gone in occupancy_changed wo changes t.

Definition sweep_shells (wo : World) (t : Rt) : Rt :=
  if Occupancy.is_empty (rt_occupancy t) || (wo_now wo <? rt_sweep_deadline t)%N then t else
  tell_out (TSweep (known_shells (rt_occupancy t))) (rt_on_sweep_deadline (λ _, (wo_now wo + SHELL_SWEEP_INTERVAL)%N) t).

(** ** Idle stops *)
Definition show_idle_stop (i : IdleStop) : rstr := match i with After d => show_duration d | Never => lit "never" end.

Fixpoint join_names (names : list rstr) : rstr :=
  match names with
  | [] => []
  | [n] => n
  | n :: names => n ++ NAME_SEPARATOR ++ join_names names
  end.

Definition idle_stop_message (project : rstr) (outcome : BatchOutcome) (i : IdleStop) : option rstr :=
  if bool_decide (bo_acted outcome = []) then None
  else Some (project ++ lit ": " ++ IDLE_STOPPED ++ lit " " ++ join_names (bo_acted outcome) ++ lit ": " ++ NO_SHELL_FOR ++ lit " " ++ show_idle_stop i).

(** The idle stop of one supervisor when due, with what to say of it. *)
Definition idle_stopped (wo : World) (s : Sup) : option (path * rstr) * Sup :=
  let i := idle_stop_of s in
  match Lifecycle.idle_stop_if_due (wo_env wo) (wo_now wo) s with
  | (None, s) => (None, s)
  | (Some outcome, s) => ((λ message, (root s, message)) <$> idle_stop_message (pr_name (s_project (sup_core s))) outcome i, s)
  end.

Definition stop_idle (wo : World) (t : Rt) : Rt :=
  let stop (mt : list (path * rstr) * Rt) (project : path) :=
    match on_sup wo project (idle_stopped wo) mt.2 with
    | (Some (Some said), t) => (mt.1 ++ [said], t)
    | (_, t) => (mt.1, t)
    end in
  let '(messages, t) := foldl stop ([], t) (loaded t) in
  foldl (λ t said, raise wo (Some said.1) Warning IdleStopped said.2 t) t messages.

(** [checked_sub], instants and times counting from the earliest there is. *)
Definition earlier (at_ ago : N) : N := if (ago <=? at_)%N then (at_ - ago)%N else at_.

(** Hands the store each change to the pending idle stops. *)
Definition record_idle_stops (wo : World) (t : Rt) : Rt :=
  let armed : gmap path N := omap (λ s : Sup, s_left_at (sup_core s)) (rt_supervisors t) in
  let arm (t : Rt) (rl : path * N) :=
    if bool_decide (rt_recorded_idle t !! rl.1 = Some rl.2) then t
    else tell_out (TIdleArmed {| pi_project := rl.1; pi_left_at := earlier (wo_wall wo) (wo_now wo - rl.2) |}) t in
  let clear (t : Rt) (root : path) := if is_some (armed !! root) then t else tell_out (TIdleCleared root) t in
  let t := foldl arm t (map_to_list armed) in
  let t := foldl clear t (map_to_list (rt_recorded_idle t)).*1 in
  rt_on_recorded_idle (λ _, armed) t.

(** ** Starting *)
Definition restore_shells (wo : World) (t : Rt) : Rt :=
  let live := filter (λ r, wo_is_live wo (shell r) = true) (wo_shell_records wo) in
  let ended := filter (λ r, ¬ wo_is_live wo (shell r) = true) (wo_shell_records wo) in
  let put_back (t : Rt) (r : ShellRecord) :=
    if len (rt_occupancy t) <? MAX_SHELLS then rt_on_occupancy (λ o, Occupancy.restore o r) t else t in
  let end_shell (ct : list OccupancyChange * Rt) (r : ShellRecord) :=
    let t := tell_out (TForgetShell (shell r)) ct.2 in
    let '(o, changes) := Occupancy.remove (Occupancy.restore (rt_occupancy t) r) (shell r) in
    (ct.1 ++ changes, rt_on_occupancy (λ _, o) t) in
  let '(changes, t) := foldl end_shell ([], foldl put_back t live) ended in
  occupancy_changed wo changes t.

Definition restore_idle_stops (wo : World) (t : Rt) : Rt :=
  let '(stored, t) := match wo_pending_idle wo with
                      | Ok stored => (stored, t)
                      | Err error => ([], notify wo None Warning (colon IDLE_STOPS_UNREADABLE_NOTICE error) t)
                      end in
  let take_over (t : Rt) (stop : PendingIdleStop) :=
    let left := earlier (wo_now wo) (wo_wall wo - pi_left_at stop) in
    let t := rt_on_recorded_idle (<[pi_project stop := left]>) t in
    if Nat.eqb (Occupancy.occupants (rt_occupancy t) (pi_project stop)) 0 then tell_sup wo (pi_project stop) (Lifecycle.arm_idle left) t else t in
  record_idle_stops wo (foldl take_over t stored).

Definition adopt_running (wo : World) (t : Rt) : Rt :=
  let t := match wo_legacy_logs wo with Ok _ => t | Err error => notify wo None Warning (colon LEGACY_LOGS_NOTICE error) t end in
  let t := match wo_handover_sweep wo with
           | Ok failures => foldl (λ t pe, notify wo None Warning (SWEEP_FAILED_NOTICE ++ lit " " ++ path_display pe.1 ++ lit ": " ++ pe.2) t) t failures
           | Err error => notify wo None Warning (colon SWEEP_FAILED_NOTICE error) t
           end in
  let t := foldl (λ t p, notify wo None Error (UNREADABLE_RECORD_NOTICE ++ lit " " ++ path_display p ++ lit "; " ++ UNREADABLE_RECORD_OUTCOME) t)
             t (wo_unreadable_records wo) in
  let records := wo_live_records wo in
  let load_one (t : Rt) (project : path) :=
    match load wo project records t with
    | (Ok _, t) => t
    | (Err refusal, t) => notify wo (Some project) Error (colon UNADOPTABLE_PROJECT_NOTICE (eb_message refusal)) t
    end in
  foldl load_one t (btree_iter (list_to_set (C := gset path) (hr_project <$> records))).

(** ** Events read and samples taken *)
Definition events_after (wo : World) (project : path) (since : option EventSeq) (kinds : list EventKind) (wait : duration) (reply : N)
    : Rt → result Reply ServiceErrorBody * Rt :=
  let! _ := supervisor wo project in
  λ t,
    let log := rt_event_log t in
    let found := page log project since kinds in
    if negb (bool_decide (page_events found = [])) || (wait =? 0)%N || page_gap found then ret (Now (SEvents found)) t else
    ret Held (rt_on_event_waiters (λ waiters,
      waiters ++ [{| ew_project := project; ew_since := default (latest log) since; ew_kinds := kinds;
                     ew_deadline := (wo_now wo + wait)%N; ew_reply := reply |}]) t).

Definition waiter_page (t : Rt) (w : EventWaiter) : EventPage := page (rt_event_log t) (ew_project w) (Some (ew_since w)) (ew_kinds w).
Definition keeps_waiting (wo : World) (t : Rt) (w : EventWaiter) : bool :=
  bool_decide (page_events (waiter_page t w) = []) && (wo_now wo <? ew_deadline w)%N.

Definition answer_event_waiters (wo : World) (t : Rt) : Rt :=
  let answered := filter (λ w, keeps_waiting wo t w = false) (rt_event_waiters t) in
  let kept := filter (λ w, keeps_waiting wo t w = true) (rt_event_waiters t) in
  foldl (λ u w, reply_with (ew_reply w) (SEvents (waiter_page t w)) u) (rt_on_event_waiters (λ _, kept) t) answered.

Definition all_root_pids (t : Rt) : list N :=
  concat ((λ kv : path * Sup, live_root_pids kv.2) <$> map_to_list (rt_supervisors t)).

Definition sample_ports (wo : World) (t : Rt) : Rt :=
  if negb samples_ports || (wo_now wo <? rt_ports_deadline t)%N then t else
  let roots := all_root_pids t in
  if bool_decide (roots = []) then t else
  tell_out (TSamplePorts roots) (rt_on_ports_deadline (λ _, (wo_now wo + PORT_SAMPLE_INTERVAL)%N) t).

(** Resamples every project's usage in one read. *)
Definition sample_usage (wo : World) (t : Rt) : Rt :=
  if negb samples_usage || (wo_now wo <? rt_usage_deadline t)%N then t else
  let t := rt_on_usage_deadline (λ _, (wo_now wo + USAGE_SAMPLE_INTERVAL)%N) t in
  let sampled := filter (λ kv : path * Sup, wants_usage kv.2 = true) (map_to_list (rt_supervisors t)) in
  if bool_decide (sampled.*1 = []) then t else
  let samples := wo_samples wo (concat ((λ kv : path * Sup, live_root_pids kv.2) <$> sampled)) in
  foldl (λ t project, tell_sup wo project (λ s, (take_usage samples s).2) t) t sampled.*1.

(** Every loaded project's status, by folder. *)
Definition by_root (a b : ProjectStatus) : Prop := cle (pr_root (pj_project a)) (pr_root (pj_project b)).
#[local] Instance by_root_dec a b : Decision (by_root a b).
Proof. unfold by_root. apply _. Defined.

Definition statuses (wo : World) (t : Rt) : list ProjectStatus * Rt :=
  let add (st : list ProjectStatus * Rt) (project : path) :=
    match on_sup wo project (snapshot (wo_env wo)) st.2 with
    | (Some status, t) => (st.1 ++ [status], t)
    | (None, t) => (st.1, t)
    end in
  let '(all, t) := foldl add ([], t) (loaded t) in (merge_sort by_root all, t).

(** ** Requests *)
Definition brings_up (action : ProcessAction) : bool := match action with AStart | ARestart => true | _ => false end.

Definition control (wo : World) (n : rstr) (action : ProcessAction) (environment : gmap rstr rstr) : Sup → Sup :=
  Lifecycle.handle (wo_env wo) nfc to_uppercase repaint_text
    match action with
    | AStart => EStart n environment
    | AStop => EStop n
    | ARestart => ERestart n environment
    | APause => EPause n
    | AResume => EResume n
    | AKill => EForceKill n
    end.

(** A start or restart whose client waits; the wait checked before it acts. *)
Definition control_waiting (wo : World) (n : rstr) (action : ProcessAction) (environment : gmap rstr rstr) (spec : WaitSpec) (reply : N) (s : Sup)
    : result unit WaitRefused * Sup :=
  match prepare_wait compile_error is_match show_duration replay_matching nfc n spec s with
  | Err refused => (Err refused, s)
  | Ok prepared =>
    let s := if brings_up action then Lifecycle.hold_up s else s in
    let '(prepared, fresh) :=
      match action with
      | AStart => if runs_or_starts compile_error is_match show_duration replay_matching nfc n s then (on_a_running_process prepared, false) else (prepared, true)
      | ARestart => (prepared, true)
      | _ => (prepared, false)
      end in
    let before := generation_of compile_error is_match show_duration replay_matching nfc n s in
    let s := control wo n action environment s in
    (Ok tt, on_waits compile_error is_match show_duration replay_matching
              (λ c, begin_wait is_match c (read_now is_match c) prepared (if fresh then Some before else None) reply) s)
  end.

Definition accepted {A} (r : result A WaitRefused) : Rt → result A ServiceErrorBody * Rt :=
  match r with Ok a => ret a | Err refused => refuse (wait_refusal refused) end.

(** What a request reads again before it is carried out. *)
Definition refresh_for (wo : World) (q : ServiceRequest) : Rt → result unit ServiceErrorBody * Rt :=
  match q with
  | QUp project _ _ | QControl project _ _ _ _ =>
    let! _ := refresh_stack wo project in let! _ := supervisor wo project in modify (share_held_ports wo)
  | QPs (Some project) | QEvents project _ _ _ => refresh_stack wo project
  | QPs None => λ t, each_project (refresh_stack wo) (loaded t) t
  | _ => ret tt
  end.

Definition carry_out (wo : World) (q : ServiceRequest) (reply : N) : Rt → result Reply ServiceErrorBody * Rt :=
  match q with
  | QReplace | QStop => ret Exit
  | QScreen project n =>
    let! _ := process wo project n in
    let! found := act wo project (λ s, (screen n s, s)) in
    match found with Some r => ret (Screen r) | None => refuse (refused KUnknownProcess (colon UNKNOWN_PROCESS n)) end
  | QSendInput project n data =>
    let! _ := process wo project n in
    let! sent := act wo project (send_input (wo_env wo) n data) in
    if (sent : bool) then ret (Now SOk) else refuse (refused KNotRunning NOT_RUNNING)
  | QHello => ret (Now (SHello version binary))
  | QUp project environment None =>
    let! _ := supervisor wo project in
    let! outcome := act wo project (Lifecycle.up (wo_env wo) environment) in
    let! _ := modify (client_acts_on wo project) in
    let! _ := modify (hold_up wo project) in
    ret (Now (SBatch outcome))
  | QUp project environment (Some spec) =>
    let! _ := supervisor wo project in
    let! r := act wo project (up_waiting compile_error is_match show_duration replay_matching (wo_env wo) nfc environment spec reply) in
    let! _ := accepted r in
    let! _ := modify (client_acts_on wo project) in
    let! _ := modify (hold_up wo project) in
    ret Held
  | QWait project n spec =>
    let! _ := process wo project n in
    let! r := act wo project (λ s, match wait_for compile_error is_match show_duration replay_matching nfc n spec reply s with
                                   | Ok s => (Ok tt, s)
                                   | Err refused => (Err refused, s)
                                   end) in
    let! _ := accepted r in
    ret Held
  | QEvents project since kinds wait => events_after wo project since kinds wait reply
  | QDown project =>
    let! _ := supervisor wo project in
    let! outcome := act wo project (Lifecycle.down (wo_env wo)) in
    let! _ := modify (client_acts_on wo project) in
    ret (Now (SBatch outcome))
  | QLog project n => let! _ := process wo project n in ret (Now (SLog (process_log project n)))
  | QPs (Some project) =>
    let! _ := supervisor wo project in
    let! status := act wo project (snapshot (wo_env wo)) in
    ret (Now (SStatus [status]))
  | QPs None => λ t, let '(all, t) := statuses wo t in ret (Now (SStatus all)) t
  | QControl project n action environment None =>
    let! _ := process wo project n in
    let! _ := act wo project (λ s, (tt, control wo n action environment (if brings_up action then Lifecycle.hold_up s else s))) in
    let! _ := modify (λ t, if brings_up action then rt_on_entering (Entering.forget_project project) t else t) in
    let! _ := modify (client_acts_on wo project) in
    ret (Now SOk)
  | QControl project n action environment (Some spec) =>
    let! _ := process wo project n in
    let! r := act wo project (control_waiting wo n action environment spec reply) in
    let! _ := accepted r in
    let! _ := modify (λ t, if brings_up action then rt_on_entering (Entering.forget_project project) t else t) in
    let! _ := modify (client_acts_on wo project) in
    ret Held
  | QLocate project n =>
    let! _ := process wo project n in
    let! pid := act wo project (λ s, (live_pid n s, s)) in
    match pid with
    | None => refuse (refused KNotRunning NOT_RUNNING)
    | Some pid => let! _ := modify (tell_out (TLocate pid reply)) in ret Held
    end
  | QNotices project => λ t, ret (Now (SNotices (recent (rt_notices t) project))) t
  | QStackChanged project => let! _ := stack_changed wo project in ret (Now SOk)
  | QSettingsChanged => let! _ := settings_changed wo in ret (Now SOk)
  | QShellReport record environment => let! notes := shell_report wo record environment in ret (Now (SShellNotes notes))
  end.

Definition respond (wo : World) (q : ServiceRequest) (reply : N) : Rt → result Reply ServiceErrorBody * Rt :=
  let! _ := refresh_for wo q in carry_out wo q reply.

(** Answers one request: at once, once a worker has read a screen, when what it
    waits for settles, or after the service has exited. *)
Definition request (wo : World) (q : ServiceRequest) (reply : N) (t : Rt) : Flow * Rt :=
  match respond wo q reply t with
  | (Ok (Now r), t) => (Continue, reply_with reply r t)
  | (Ok (Screen (ScreenReady text)), t) => (Continue, reply_with reply (SScreen text) t)
  | (Ok (Screen (ScreenReadHolder screen)), t) => (Continue, tell_out (TReadScreen screen reply) t)
  | (Ok Held, t) => (Continue, t)
  | (Ok Exit, t) => (FlowExit reply, t)
  | (Err refusal, t) => (Continue, reply_with reply (SError refusal) t)
  end.

(** ** The loop *)
Definition release_unrecorded (r : result Handle rstr) (t : Rt) : Rt :=
  match r with Ok h => tell_out (TAbandon (h_id h)) t | Err _ => t end.

Definition settle_read (wo : World) (screen : HolderScreen) (read : result rstr rstr) (t : Rt) : rstr * Rt :=
  match on_sup wo (hc_project screen)
          (Lifecycle.settle_holder_read (hc_project screen) (hc_pane screen) (hc_generation screen) (hc_fallback screen) read) t with
  | (Some text, t) => (text, t)
  | (None, t) => (match read with Ok text => text | Err _ => hc_fallback screen end, t)
  end.

(** A supervisor's own handling of an event. *)
Definition tell_event (wo : World) (project : path) (e : Event) : Rt → Rt :=
  tell_sup wo project (Lifecycle.handle (wo_env wo) nfc to_uppercase repaint_text e).
Definition tell_waits (wo : World) (project : path) (f : Core → Waits → Waits) : Rt → Rt :=
  tell_sup wo project (on_waits compile_error is_match show_duration replay_matching f).

Definition spawned (wo : World) (project : path) (pane gen : N) (r : result Handle rstr) (t : Rt) : Rt :=
  let t := (settle_entering project pane gen t).2 in
  if is_some (rt_supervisors t !! project) then tell_event wo project (ESpawned pane gen r) t else release_unrecorded r t.

Definition adopted (wo : World) (project : path) (pane gen : N) (record : HolderRecord) (r : result Handle rstr) (t : Rt) : Rt :=
  if is_some (rt_supervisors t !! project) then tell_event wo project (EAdopted pane gen record r) t else release_unrecorded r t.

(** A launch that found its port taken; its block names the supervised process
    that holds the port, of any project, when one does. *)
Definition launch_blocked (wo : World) (project : path) (pane gen port : N) (occupant : PortOccupant) (t : Rt) : Rt :=
  let holder := head (omap (λ kv : path * Sup, holder_of_pids (lineage occupant) kv.2)
                        (map_to_list (rt_supervisors t))) in
  let block := {| pb_port := port; pb_holder := match holder with Some h => OSupervised h | None => OOther occupant end |} in
  let '(entering, t) := settle_entering project pane gen t in
  let t := tell_event wo project (ELaunchBlocked pane gen block) t in
  match entering with
  | Some (sh, project_name, n) =>
    rt_on_shell_notes (Notes.queue sh (NRefused project_name {| rf_name := n; rf_reason := MBlock block; rf_block := Some block |})) t
  | None => t
  end.

(** What the worker asked where a process is answers, given the holder's record. *)
Definition located (record : option HolderRecord) : ServiceResponse :=
  match record with Some record => SLocated (hr_socket record) (hr_log record) | None => SError (refused KNotRunning NO_HOLDER) end.

(** What a sweep of the known shells posts back, once it has forgotten the ended
    ones; nothing when all live. *)
Definition swept (wo : World) (known : list ShellId) : option ServiceEvent :=
  let gone := filter (λ shell, ¬ wo_is_live wo shell = true) known in
  if bool_decide (gone = []) then None else Some (VShellsGone gone).

(** Applies one event. *)
Definition handle (wo : World) (e : ServiceEvent) (t : Rt) : Flow * Rt :=
  match e with
  | VOutput project pane gen o => (Continue, tell_event wo project (EOutput pane gen o) t)
  | VRespawn project pane gen => (Continue, tell_event wo project (ERespawn pane gen) t)
  | VForceStop project pane sg shg => (Continue, tell_event wo project (EForceStop pane sg shg) t)
  | VSpawned project pane gen r => (Continue, spawned wo project pane gen r t)
  | VLaunchBlocked project pane gen port occupant => (Continue, launch_blocked wo project pane gen port occupant t)
  | VShellsGone gone => (Continue, shells_gone wo gone t)
  | VAdopted project pane gen record r => (Continue, adopted wo project pane gen record r t)
  | VAdoptionRetryDue project pane attempt => (Continue, tell_event wo project (ERetryDue pane attempt) t)
  | VReconnectLocated project pane gen record => (Continue, tell_event wo project (EReconnectLocated pane gen record) t)
  | VLogRead project pane read r => (Continue, tell_waits wo project (λ c, handle_log_read is_match c (read_now is_match c) pane read r) t)
  | VAdoptionProbed project pane attempt asked record => (Continue, tell_event wo project (EAdoptionProbed pane attempt asked record) t)
  | VProbePassed project pane gen target => (Continue, tell_waits wo project (λ c, handle_probe_passed is_match show_duration c pane gen target) t)
  | VPortsSampled ports =>
    (Continue, share_held_ports wo (each_sup wo (take_ports ports) t))
  | VRequest q reply => request wo q reply t
  | VHolderRead screen read reply => let '(text, t) := settle_read wo screen read t in (Continue, reply_with reply (SScreen text) t)
  end.

(** Lets go of the unregistered projects that run nothing. *)
Definition finished (t : Rt) : list path :=
  filter (λ project, match rt_supervisors t !! project with Some s => SupState.is_idle s | None => true end = true)
    (elements (rt_unregistered t)).
Definition let_go (t : Rt) (project : path) : Rt :=
  let t := rt_on_stopping_entries (λ w, ServiceParts.forget_project w project) t in
  let t := rt_on_unregistered (λ u, u ∖ {[project]}) t in
  let t := rt_on_supervisors (delete project) t in
  rt_on_raised_edits (delete project) (rt_on_stack_revisions (delete project) t).

(** What is due, after each event or once a deadline passes. *)
Definition tick (wo : World) (t : Rt) : Rt :=
  let t := each_sup wo (λ s, on_waits compile_error is_match show_duration replay_matching (settle_waits is_match show_duration)
                               (Lifecycle.release_settled_exits (wo_env wo) s)) t in
  let t := enter_stopped wo t in
  let t := sample_usage wo t in
  let t := sample_ports wo t in
  let t := sweep_shells wo t in
  let t := stop_idle wo t in
  let t := answer_event_waiters wo t in
  let t := foldl let_go t (finished t) in
  record_idle_stops wo t.

(** When the loop wakes with no event. *)
Definition next_deadline (t : Rt) : option N :=
  let sups := (map_to_list (rt_supervisors t)).*2 in
  earliest (omap id
    (concat ((λ s, [next_wait_deadline (sup_core s) (sup_watch s); Lifecycle.idle_deadline s]) <$> sups)
     ++ ((λ w, Some (ew_deadline w)) <$> rt_event_waiters t)
     ++ [if samples_usage && existsb (wants_usage) sups then Some (rt_usage_deadline t) else None;
         if samples_ports && negb (bool_decide (all_root_pids t = [])) then Some (rt_ports_deadline t) else None;
         if negb (Occupancy.is_empty (rt_occupancy t)) then Some (rt_sweep_deadline t) else None])).

(** One turn of the loop: an event, or none when a deadline passed first, and
    the tick after it, each as the world then stands. *)
Record Turn := { tu_event : option ServiceEvent; tu_world : World; tu_tick : World }.

(** Runs the loop over the turns until a client asks it to exit, or no turn is
    left; where to answer that client. *)
Fixpoint serve (turns : list Turn) (t : Rt) : option N * Rt :=
  match turns with
  | [] => (None, t)
  | turn :: turns =>
    match tu_event turn with
    | None => serve turns (tick (tu_tick turn) t)
    | Some e =>
      match handle (tu_world turn) e t with
      | (FlowExit reply, t) => (Some reply, t)
      | (Continue, t) => serve turns (tick (tu_tick turn) t)
      end
    end
  end.

(** ** Exit *)
Definition shutdown (wo : World) : Rt → Rt := each_sup wo Lifecycle.shutdown.

Definition in_flight (t : Rt) : bool :=
  existsb (λ kv : path * Sup, bool_decide (0 < launches_in_flight kv.2)) (map_to_list (rt_supervisors t)).

(** The events a launch in flight comes back as. *)
Definition settles_launch (e : ServiceEvent) : bool :=
  match e with VSpawned _ _ _ _ | VLaunchBlocked _ _ _ _ _ | VAdopted _ _ _ _ _ | VReconnectLocated _ _ _ _ => true | _ => false end.

(** Waits for the launches in flight over the events that arrive in time. *)
Fixpoint detach_launches (events : list (World * ServiceEvent)) (t : Rt) : Rt :=
  match events with
  | [] => t
  | (wo, e) :: events => if in_flight t then detach_launches events (if settles_launch e then (handle wo e t).2 else t) else t
  end.

Definition start (wo : World) (epoch : N) (settings : Settings) : Rt :=
  {| rt_recorded_idle := ∅; rt_settings := settings; rt_notices := []; rt_supervisors := ∅; rt_stack_revisions := ∅; rt_raised_edits := ∅;
     rt_unregistered := ∅; rt_event_log := with_epoch epoch; rt_event_waiters := []; rt_ports_deadline := wo_now wo;
     rt_usage_deadline := (wo_now wo + USAGE_SAMPLE_INTERVAL)%N; rt_occupancy := Occupancy.new;
     rt_sweep_deadline := (wo_now wo + SHELL_SWEEP_INTERVAL)%N; rt_shell_notes := ∅; rt_entering := ∅; rt_stopping_entries := ∅;
     rt_shell_environments := ∅; rt_out := [] |}.

(** The service as it begins to serve: what an earlier one left taken over. *)
Definition take_over (wo : World) (epoch : N) (settings : Settings) : Rt :=
  restore_idle_stops wo (restore_shells wo (adopt_running wo (start wo epoch settings))).

(** The whole run: settings read, what an earlier service left taken over, the
    loop, and the exit, whose client is answered last. *)
Definition run (wo : World) (epoch : N) (turns : list Turn) (exit : World) (late : list (World * ServiceEvent)) : result Rt rstr :=
  let? settings := wo_settings wo in
  let '(reply, t) := serve turns (take_over wo epoch settings) in
  let t := detach_launches late (shutdown exit t) in
  let t := rt_on_event_waiters (λ _, []) (rt_on_supervisors (λ _, ∅) t) in
  Ok (match reply with Some reply => reply_with reply SOk t | None => t end).

End service.
