(* ===== verification/WaitsOnce.v ===== *)
(** * Every wait is answered once

    The replies a supervisor owes are those of its registered waits, its held
    waits, its held answers and its batches. Every operation of Waits.v keeps
    each reply: it is owed or it was sent, never both and never neither. *)
From S2P Require Import Prelude RustText RustPath Values Process Config StackSync EventLog Books Tap WaitData SupState Lifecycle Waits.

Create HintDb tidies.

(** ** Counting *)
Fixpoint tally {A} (f : A → bool) (l : list A) : nat := match l with [] => 0 | x :: l => Nat.b2n (f x) + tally f l end.
Definition mtally `{Countable K} {A} (g : A → nat) (m : gmap K A) : nat := map_fold (λ _ x n, g x + n) 0 m.

Lemma tally_app {A} (f : A → bool) l1 l2 : tally f (l1 ++ l2) = tally f l1 + tally f l2.
Proof. induction l1 as [|x l1 IH]; cbn; [done|]. rewrite IH. lia. Qed.

Lemma tally_split {A} (f g : A → bool) l :
  tally f (filter (λ x, g x = true) l) + tally f (filter (λ x, g x = false) l) = tally f l.
Proof.
  induction l as [|x l IH]; [done|]. rewrite !filter_cons. destruct (g x) eqn:E.
  - rewrite decide_True, decide_False by done. cbn. lia.
  - rewrite decide_False, decide_True by done. cbn. lia.
Qed.

Lemma tally_fmap {A} (f : A → bool) (g : A → A) l : (∀ x, f (g x) = f x) → tally f (g <$> l) = tally f l.
Proof. intros Hg. induction l as [|x l IH]; cbn; [done|]. by rewrite Hg, IH. Qed.

Lemma tally_delete {A} (f : A → bool) l i x : l !! i = Some x → tally f (delete i l) + Nat.b2n (f x) = tally f l.
Proof.
  revert i. induction l as [|y l IH]; intros i Hi; [done|]. destruct i as [|i].
  - injection Hi as ->. change (delete 0 (x :: l)) with l. cbn [tally]. lia.
  - change (delete (S i) (y :: l)) with (y :: delete i l). cbn [tally]. specialize (IH i Hi). lia.
Qed.

Lemma tally_perm {A} (f : A → bool) l1 l2 : l1 ≡ₚ l2 → tally f l1 = tally f l2.
Proof. induction 1; cbn; lia. Qed.

Lemma concat_perm {A} (l1 l2 : list (list A)) : l1 ≡ₚ l2 → concat l1 ≡ₚ concat l2.
Proof.
  induction 1 as [|x l1 l2 _ IH|x y l|l1 l2 l3 _ IH1 _ IH2]; cbn; [done|by rewrite IH| |by transitivity (concat l2)].
  rewrite !app_assoc. by rewrite (Permutation_app_comm y x).
Qed.

Section mtally.
Context `{Countable K} {A : Type} (g : A → nat).

Lemma mtally_insert_new k x (m : gmap K A) : m !! k = None → mtally g (<[k := x]> m) = g x + mtally g m.
Proof. intros Hk. unfold mtally. rewrite (map_fold_insert_L (λ (_ : K) (x : A) (n : nat), g x + n)); [done| |done]. intros. lia. Qed.

Lemma mtally_delete k (m : gmap K A) : mtally g (delete k m) + from_option g 0 (m !! k) = mtally g m.
Proof.
  destruct (m !! k) as [x|] eqn:E; cbn; [|rewrite delete_id by done; lia].
  rewrite <-(insert_delete_id m k x E) at 2. rewrite mtally_insert_new by apply lookup_delete_eq. lia.
Qed.

Lemma mtally_insert k x (m : gmap K A) : mtally g (<[k := x]> m) + from_option g 0 (m !! k) = mtally g m + g x.
Proof.
  pose proof (mtally_delete k m) as Hd. rewrite <-insert_delete_eq, mtally_insert_new by apply lookup_delete_eq. lia.
Qed.

Lemma mtally_alter f k (m : gmap K A) : (∀ x, g (f x) = g x) → mtally g (alter f k m) = mtally g m.
Proof.
  intros Hf. destruct (m !! k) as [x|] eqn:E; [|by rewrite alter_id by (intros ?; congruence)].
  rewrite <-(insert_id m k x E) at 1. rewrite alter_insert_eq.
  pose proof (mtally_insert k (f x) m) as Hi. rewrite E in Hi. cbn in Hi. rewrite Hf in Hi. lia.
Qed.
End mtally.

Section once.
Context `{LineRenderer} (compile_error : LogPattern → option rstr) (is_match : LogPattern → rstr → bool)
  (show_duration : duration → rstr) (replay_matching : N → list LogPattern → option N).
Context (c : Core) (r : N).

(** ** What is owed of one reply *)
Definition is_direct (x : WaitReply) : bool := match x with Direct y => (y =? r)%N | Batch _ _ => false end.
Definition sends (e : WatchEffect) : bool := match e with WReply y _ => (y =? r)%N | _ => false end.
Definition held_owed (l : list HeldWait) : nat := tally (λ h, (hw_reply h =? r)%N) l.

Definition owed (w : Waits) : nat :=
  tally (λ x, is_direct (wt_reply x)) (w_waiters w) + mtally held_owed (w_held w) +
  tally (λ h, is_direct (ha_reply h)) (w_answers w) + mtally (λ g, Nat.b2n (wg_reply g =? r)%N) (w_groups w).
Definition sent (w : Waits) : nat := tally sends (w_out w).
Definition balance (w : Waits) : nat := owed w + sent w.

(** A change that keeps what is owed and sent. *)
Definition keeps (f : Waits → Waits) : Prop := ∀ w, balance (f w) = balance w.

Lemma balance_send e w : balance (send e w) = balance w + Nat.b2n (sends e).
Proof. unfold balance, owed, sent. cbn. lia. Qed.

Lemma balance_quiet e w : sends e = false → balance (send e w) = balance w.
Proof. intros He. rewrite balance_send, He. cbn. lia. Qed.

Lemma deliver_balance o x w : balance (deliver o x w) = balance w + Nat.b2n (is_direct x).
Proof.
  destruct x as [y|group slot]; cbn [deliver is_direct]; [by rewrite balance_send|].
  destruct (w_groups w !! group) as [g|] eqn:Eg; [|cbn; lia]. unfold fill. cbv beta iota zeta.
  destruct (existsb _ _); unfold balance, owed, sent; cbn.
  - pose proof (mtally_insert (λ g, Nat.b2n (wg_reply g =? r)%N) group
      {| wg_batch := wg_batch g; wg_outcomes := <[slot:=Some o]> (wg_outcomes g); wg_reply := wg_reply g |} (w_groups w)) as Hi.
    rewrite Eg in Hi. cbn in Hi. lia.
  - pose proof (mtally_delete (λ g, Nat.b2n (wg_reply g =? r)%N) group (w_groups w)) as Hd. rewrite Eg in Hd. cbn in Hd. lia.
Qed.

Lemma push_owed p h (m : gmap N (list HeldWait)) : mtally held_owed (<[p := default [] (m !! p) ++ [h]]> m) = mtally held_owed m + Nat.b2n (hw_reply h =? r)%N.
Proof.
  pose proof (mtally_insert held_owed p (default [] (m !! p) ++ [h]) m) as Hi.
  assert (held_owed (default [] (m !! p) ++ [h]) = held_owed (default [] (m !! p)) + Nat.b2n (hw_reply h =? r)%N) as E.
  { unfold held_owed. rewrite tally_app. cbn. lia. }
  rewrite E in Hi. destruct (m !! p); cbn [default from_option id] in *; [lia|]. change (held_owed []) with 0 in Hi. lia.
Qed.

Section reading.
Context (rl : N → Waits → Waits) (rl_keeps : ∀ p, keeps (rl p)).

Lemma hold_answer_balance p o x from until w :
  balance (hold_answer c rl p o x from until w) = balance w + Nat.b2n (is_direct x).
Proof.
  unfold hold_answer. rewrite rl_keeps. unfold balance, owed, sent. cbn. rewrite tally_app. cbn. lia.
Qed.

Lemma answer_with_tail_balance x st m cu tail w :
  balance (answer_with_tail c rl x st m cu tail w) = balance w + Nat.b2n (is_direct (wt_reply x)).
Proof.
  unfold answer_with_tail. destruct (if bool_decide _ then _ else _) as [[from until]|]; [apply hold_answer_balance|apply deliver_balance].
Qed.

Lemma answer_at_balance x st m cu w : balance (answer_at c rl x st m cu w) = balance w + Nat.b2n (is_direct (wt_reply x)).
Proof. apply answer_with_tail_balance. Qed.

Lemma answer_balance x st m w : balance (answer c rl x st m w) = balance w + Nat.b2n (is_direct (wt_reply x)).
Proof. apply answer_at_balance. Qed.

Lemma settle_each_balance settled fuel index w : balance (settle_each c rl settled fuel index w) = balance w.
Proof.
  revert index w. induction fuel as [|fuel IH]; intros index w; cbn [settle_each]; [done|].
  destruct (w_waiters w !! index) as [x|] eqn:Ex; [|done]. destruct (settled w x) as [[st m]|]; rewrite IH; [|done].
  rewrite answer_balance. pose proof (tally_delete (λ x, is_direct (wt_reply x)) _ _ _ Ex) as Hd.
  unfold balance, owed, sent. cbn. lia.
Qed.

Lemma settle_all_balance settled w : balance (settle_all c rl settled w) = balance w.
Proof. apply settle_each_balance. Qed.

Lemma on_tap_balance f p w : balance (on_tap f p w) = balance w.
Proof. done. Qed.

Lemma register_held_balance p after x scan w :
  balance (register_held is_match c rl p after x scan w) = balance w + Nat.b2n (is_direct x).
Proof.
  unfold register_held. cbv zeta.
  set (found := match (match pw_since p with Some _ => _ | None => _ end) with Some _ => _ | None => _ end).
  assert (balance found.2 = balance w) as Hf.
  { unfold found. destruct (match pw_since p with Some _ => _ | None => _ end) as [since|]; [|done].
    destruct (pw_matcher p); [|done]. destruct (is_fresh _); [done|].
    destruct (scan ≫= _) as [[tapped f]|]; cbn; [destruct (ls_matched f); cbn|]; done. }
  destruct found as [[matched scanned] w1]. cbn [snd] in Hf. rewrite <-Hf.
  destruct (match matched with Some _ => _ | None => _ end) as [[st m]|]; [by rewrite answer_balance|].
  set (w2 := match probe_of _ with Some _ => _ | None => _ end).
  assert (balance w2 = balance w1) as <-.
  { unfold w2. destruct (probe_of _); [|done]. destruct (_ && _); [|done]. rewrite balance_send. cbn. lia. }
  unfold balance, owed, sent. cbn. rewrite tally_app. cbn. lia.
Qed.

Lemma push_held_balance p after q scan ad w : balance (push_held c p after q scan ad w) = balance w + Nat.b2n (q =? r)%N.
Proof.
  unfold push_held, balance, owed, sent. cbn. set (held := {| hw_prepared := p |}).
  pose proof (push_owed (pw_pane p) held (w_held w)) as Hi. cbn [hw_reply held] in Hi. lia.
Qed.

Lemma hold_wait_balance p after q scan w : balance (hold_wait c rl p after q scan w) = balance w + Nat.b2n (q =? r)%N.
Proof. unfold hold_wait. by rewrite rl_keeps, push_held_balance. Qed.

Lemma register_or_scan_balance p after q w : balance (register_or_scan is_match c rl p after q w) = balance w + Nat.b2n (q =? r)%N.
Proof.
  unfold register_or_scan. destruct (adoption_hold _ _ _); [apply push_held_balance|].
  destruct (scan_for _ _ _ _); [apply hold_wait_balance|]. apply (register_held_balance p after (Direct q) None).
Qed.

Lemma begin_wait_balance p after q w : balance (begin_wait is_match c rl p after q w) = balance w + Nat.b2n (q =? r)%N.
Proof. unfold begin_wait. destruct (knows_no_output _ _ _); [apply hold_wait_balance|apply register_or_scan_balance]. Qed.

Lemma foldl_send_balance {A} (f : A → WatchEffect) (l : list A) w :
  (∀ a, sends (f a) = false) → balance (foldl (λ w a, send (f a) w) w l) = balance w.
Proof.
  intros Hf. revert w. induction l as [|a l IH]; intros w; [done|]. cbn [foldl]. rewrite IH, balance_send, Hf. cbn. lia.
Qed.

Lemma report_render_faults_balance p n w : balance (report_render_faults c p n w) = balance w.
Proof.
  unfold report_render_faults. set (w1 := if (0 <? n)%N then _ else w).
  assert (balance w1 = balance w) as <- by (unfold w1; by destruct (0 <? n)%N). destruct (w_taps w1 !! p) as [t|]; [|done].
  rewrite (surjective_pairing (take_fault_report t)). cbv beta iota. rewrite (surjective_pairing (take_read_fault_report _)). cbv beta iota zeta.
  rewrite (foldl_send_balance (λ report, WNotice p _)); done.
Qed.

Lemma extract_held_balance f p w :
  balance (extract_held f p w).2 + held_owed (extract_held f p w).1 = balance w.
Proof.
  unfold extract_held. destruct (w_held w !! p) as [waits|] eqn:E; [|cbn; lia]. cbn [fst snd].
  pose proof (tally_split (λ h, (hw_reply h =? r)%N) f waits) as Ht. fold (held_owed (filter (λ h, f h = true) waits)) in Ht.
  set (rest := filter (λ h, f h = false) waits) in *. destruct (bool_decide_reflect (rest = [])) as [Er|Er]; unfold balance, owed, sent; cbn.
  - pose proof (mtally_delete held_owed p (w_held w)) as Hd. rewrite E in Hd. cbn in Hd. rewrite Er in Ht. cbn in Ht. unfold held_owed in Hd at 2. lia.
  - pose proof (mtally_insert held_owed p rest (w_held w)) as Hi. rewrite E in Hi. cbn in Hi. unfold held_owed in Hi at 2 4. lia.
Qed.

(** A loop that answers or holds one reply a turn. *)
Lemma foldl_balance {A} (f : Waits → A → Waits) (p : A → bool) (l : list A) w :
  (∀ w a, balance (f w a) = balance w + Nat.b2n (p a)) → balance (foldl f w l) = balance w + tally p l.
Proof. intros Hf. revert w. induction l as [|a l IH]; intros w; cbn [foldl tally]; [lia|]. rewrite IH, Hf. lia. Qed.

Lemma extract_answers_balance f w :
  balance (extract_answers f w).2 + tally (λ h, is_direct (ha_reply h)) (extract_answers f w).1 = balance w.
Proof.
  pose proof (tally_split (λ h, is_direct (ha_reply h)) f (w_answers w)) as Ht.
  unfold extract_answers, balance, owed, sent. cbn. lia.
Qed.

Lemma send_held_answers_balance read answers : keeps (send_held_answers read answers).
Proof.
  intros w. unfold send_held_answers. rewrite <-(extract_answers_balance (λ h, bool_decide (ha_read h = Some read)) w).
  destruct (extract_answers _ w) as [landed w1]. apply (foldl_balance _ (λ h, is_direct (ha_reply h))). intros w2 h. apply deliver_balance.
Qed.

Lemma register_scanned_waits_balance pane read answers : keeps (register_scanned_waits is_match c rl pane read answers).
Proof.
  intros w. unfold register_scanned_waits.
  rewrite <-(extract_held_balance (λ h, is_some (hw_scan h) && bool_decide (hw_read h = Some read)) pane w).
  destruct (extract_held _ pane w) as [landed w1]. apply (foldl_balance _ (λ h, (hw_reply h =? r)%N)). intros w2 h. apply register_held_balance.
Qed.

Lemma begin_after_end_balance w h : balance (begin_after_end is_match c rl w h) = balance w + Nat.b2n (hw_reply h =? r)%N.
Proof. unfold begin_after_end. destruct (_ ≫= _) as [[since end_]|]; [by rewrite balance_send|apply register_or_scan_balance]. Qed.

Lemma answer_held_waits_balance pane tail : keeps (answer_held_waits is_match c rl pane tail).
Proof.
  intros w. unfold answer_held_waits.
  rewrite <-(extract_held_balance (λ h, negb (is_some (hw_scan h)) && negb (is_some (hw_adopting h))) pane w).
  destruct (extract_held _ pane w) as [held w1]. cbn [fst snd]. cbv zeta. unfold held_owed.
  rewrite <-(tally_split (λ h, (hw_reply h =? r)%N) (λ h, is_some (hw_timed_out h)) held).
  generalize (filter (λ h, is_some (hw_timed_out h) = true) held) (filter (λ h, is_some (hw_timed_out h) = false) held). intros late rest.
  set (w2 := match late with [] => w1 | _ => _ end).
  assert (balance w2 = balance w1 + tally (λ h, (hw_reply h =? r)%N) late) as E2.
  { unfold w2. destruct late as [|h late]; [cbn; lia|]. destruct (match tail with Some _ => _ | None => _ end) as [ll dr].
    rewrite (foldl_balance _ (λ h, (hw_reply h =? r)%N)); [by rewrite report_render_faults_balance|]. intros w3 k. apply answer_with_tail_balance. }
  clearbody w2. destruct rest as [|h rest]; [cbn; lia|].
  rewrite (foldl_balance _ (λ h, (hw_reply h =? r)%N)); [|intros; apply begin_after_end_balance].
  destruct (knows_no_output _ _ _); [rewrite report_render_faults_balance, on_tap_balance|]; lia.
Qed.

Lemma handle_log_read_balance pane read result : keeps (handle_log_read is_match c rl pane read result).
Proof.
  intros w. unfold handle_log_read. cbv zeta. set (w1 := send_held_answers read (lr_answers result) w).
  assert (balance w1 = balance w) as <- by apply send_held_answers_balance. clearbody w1.
  destruct (w_reads w1 !! pane) as [p|]; [|done]. destruct (pd_id p =? read)%N; [|done]. rewrite rl_keeps.
  transitivity (balance (register_scanned_waits is_match c rl pane read (lr_answers result)
    (if pd_end p then answer_held_waits is_match c rl pane (lr_tail result) (report_render_faults c pane (foldr (λ a n, unrendered_lines a + n)%N 0%N (map_to_list (lr_answers result)).*2) w1) else report_render_faults c pane (foldr (λ a n, unrendered_lines a + n)%N 0%N (map_to_list (lr_answers result)).*2) w1)));
    [done|].
  rewrite register_scanned_waits_balance. destruct (pd_end p); [rewrite answer_held_waits_balance|]; apply report_render_faults_balance.
Qed.

Lemma ask_of_reply id h : hw_reply (ask_of id h).2 = hw_reply h.
Proof.
  unfold ask_of. destruct (is_some (hw_adopting h)); [done|]. destruct (hw_scan h) as [scan|]; [|done].
  destruct (is_some (hw_read h)); [done|]. by destruct (scan_ask _ _).
Qed.

Lemma asked_balance pane id w :
  balance (w_on_held (alter (λ _ : list HeldWait, (ask_of id <$> default [] (w_held w !! pane)).*2) pane) w) = balance w.
Proof.
  unfold balance, owed, sent. cbn. do 3 f_equal. destruct (w_held w !! pane) as [l|] eqn:E; cbn [default].
  - rewrite <-(insert_id (w_held w) pane l E) at 1. rewrite alter_insert_eq.
    pose proof (mtally_insert held_owed pane ((ask_of id <$> l).*2) (w_held w)) as Hi. rewrite E in Hi. cbn [from_option] in Hi. change (Datatypes.id l) with l.
    cbn [Datatypes.id]. enough (held_owed ((ask_of id <$> l).*2) = held_owed l) by lia. rewrite <-list_fmap_compose.
    apply (tally_fmap (λ h, (hw_reply h =? r)%N) (λ h, (ask_of id h).2)). intros h. by rewrite ask_of_reply.
  - by rewrite alter_id by (intros ?; congruence).
Qed.

Lemma marked_balance pane id w : balance (w_on_answers (fmap (λ h, if asks_lines pane h then mark_read id h else h)) w) = balance w.
Proof.
  unfold balance, owed, sent. cbn. do 3 f_equal. apply tally_fmap. intros h. by destruct (asks_lines pane h).
Qed.

Lemma start_read_balance pane : keeps (start_read is_match c rl pane).
Proof.
  intros w. unfold start_read. destruct (is_some _); [done|]. cbv zeta.
  set (w1 := w_on_held _ w). assert (balance w1 = balance w) as <- by apply asked_balance. set (ws := w_answers w). clearbody w1.
  set (w2 := w_on_answers _ w1). assert (balance w2 = balance w1) as <- by apply marked_balance. clearbody w2.
  destruct (negb _ && _); [done|]. destruct (row c pane); [rewrite balance_send; cbn; unfold balance, owed, sent; cbn; lia|].
  by rewrite handle_log_read_balance.
Qed.
End reading.

Lemma read_log_balance fuel pane : keeps (read_log is_match c fuel pane).
Proof. revert pane. induction fuel as [|fuel IH]; intros pane w; cbn [read_log]; [done|]. by apply start_read_balance. Qed.

Notation read := (read_now is_match c).
Lemma read_keeps p : keeps (read p).
Proof. apply read_log_balance. Qed.

(** ** Readiness and output *)
Lemma pass_readiness_balance p : keeps (pass_readiness show_duration c p).
Proof. intros w. unfold pass_readiness. destruct (w_readiness w !! p); [|done]. unfold note_event. by rewrite balance_quiet. Qed.

Lemma time_out_readiness_balance w p : balance (time_out_readiness show_duration c w p) = balance w.
Proof.
  unfold time_out_readiness. destruct (w_readiness w !! p); [|done]. unfold note_event. by rewrite !balance_quiet.
Qed.

Lemma start_readiness_balance p check since deadline : keeps (start_readiness compile_error p check since deadline).
Proof.
  intros w. unfold start_readiness. destruct (probe check); [|done..]. destruct (compile_error _); [|done]. by rewrite balance_quiet.
Qed.

Lemma test_lines_balance p lines : keeps (test_lines is_match show_duration c p lines).
Proof.
  intros w. unfold test_lines. destruct lines; [done|]. rewrite settle_all_balance by apply read_keeps.
  destruct (match w_readiness w !! p with Some _ => _ | None => _ end); [apply pass_readiness_balance|done].
Qed.

Lemma tap_output_balance p at_ bytes : keeps (tap_output is_match show_duration c p at_ bytes).
Proof.
  intros w. unfold tap_output. destruct (feed at_ bytes _) as [lines t]. cbv zeta. destruct (awaits_a_pattern _ _ _).
  - destruct (unfinished_for_pattern _ _) as [line u]. by rewrite test_lines_balance, report_render_faults_balance.
  - by rewrite test_lines_balance, report_render_faults_balance.
Qed.

Lemma test_unlogged_balance p bytes : keeps (test_unlogged is_match show_duration c p bytes).
Proof.
  intros w. unfold test_unlogged. destruct (feed_unlogged bytes _) as [lines t]. by rewrite test_lines_balance, report_render_faults_balance.
Qed.

Lemma foldl_keeps {A} (f : Waits → A → Waits) (l : list A) w : (∀ w a, balance (f w a) = balance w) → balance (foldl f w l) = balance w.
Proof. intros Hf. revert w. induction l as [|a l IH]; intros w; [done|]. cbn [foldl]. by rewrite IH. Qed.

Lemma test_due_partials_balance : keeps (test_due_partials is_match show_duration c).
Proof.
  intros w. apply foldl_keeps. intros w1 p. unfold test_due_partial. destruct (unfinished_due _ _) as [line t]. cbv zeta.
  destruct (awaits_a_pattern _ _ _); [by rewrite test_lines_balance|done].
Qed.

(** ** Runs *)
Lemma begin_run_balance p : keeps (begin_run compile_error c p).
Proof. intros w. unfold begin_run. cbv zeta. destruct (row c p ≫= p_ready); [by rewrite start_readiness_balance|done]. Qed.

Lemma adopt_run_balance p : keeps (adopt_run compile_error c p).
Proof.
  intros w. unfold adopt_run. cbv zeta. destruct (row c p ≫= p_ready) as [check|]; [|done].
  destruct (_ <? _)%N; [by rewrite start_readiness_balance|]. by destruct (probe check); rewrite ?start_readiness_balance.
Qed.

Lemma arm_probes_balance p : keeps (arm_probes c p).
Proof.
  intros w. unfold arm_probes. cbv zeta. rewrite foldl_keeps.
  - assert (balance (send (WProbeForget p) w) = balance w) as <- by (by rewrite balance_quiet).
    destruct (w_readiness _ !! p) as [rd|]; [|done]. destruct (is_waiting _); [|done]. destruct (readiness_probe rd); [|done].
    by rewrite balance_quiet.
  - intros w1 x. destruct (probe_of _); [|done]. destruct (_ && _); [|done]. by rewrite balance_quiet.
Qed.

Lemma start_replay_balance p : keeps (start_replay replay_matching c p).
Proof. intros w. unfold start_replay. cbv zeta. destruct (_ ≫= _); [|done]. by destruct (replay_patterns _ _ _). Qed.

(** ** Ends of runs *)
Lemma end_scan_reply g st next h : hw_reply (end_scan g st next h) = hw_reply h.
Proof. unfold end_scan. destruct (hw_scan h) as [scan|]; [|done]. by destruct (_ && _). Qed.

Lemma end_held_waits_balance p g st next : keeps (end_held_waits is_match c p g st next).
Proof.
  intros w. unfold end_held_waits. cbv zeta. set (w1 := match g with Some _ => _ | None => _ end).
  assert (balance w1 = balance w) as <-.
  { unfold w1. destruct g as [g|]; [|done]. unfold balance, owed, sent. cbn. do 3 f_equal. rewrite mtally_alter; [done|].
    intros l. apply tally_fmap. intros h. by rewrite end_scan_reply. }
  rewrite <-(extract_held_balance (ends_held g) p w1). destruct (extract_held _ p w1) as [ended w2].
  apply (foldl_balance _ (λ h, (hw_reply h =? r)%N)). intros w3 h. apply answer_balance, read_keeps.
Qed.

Lemma end_waits_balance p g st next : keeps (end_waits is_match c p g st next).
Proof. intros w. unfold end_waits. rewrite settle_all_balance by apply read_keeps. apply end_held_waits_balance. Qed.

(** ** Deadlines *)
Definition kept_held (f : N → HeldWait → bool) (p : N) (waits : list HeldWait) : option (list HeldWait) :=
  let rest := filter (λ h, f p h = false) waits in if bool_decide (rest = []) then None else Some rest.

Lemma extract_map_owed f (m : gmap N (list HeldWait)) :
  mtally held_owed (map_imap (kept_held f) m) + held_owed (concat ((λ kv, filter (λ h, f kv.1 h = true) kv.2) <$> map_to_list m)) =
  mtally held_owed m.
Proof.
  induction m as [|p l m Hp IH] using map_ind; [done|].
  rewrite mtally_insert_new by done.
  unfold held_owed at 2. rewrite (tally_perm _ _ _ (concat_perm _ _ (fmap_Permutation _ _ _ (map_to_list_insert m p l Hp)))). cbn [fmap list_fmap concat].
  rewrite tally_app. cbn [fst snd]. pose proof (tally_split (λ h, (hw_reply h =? r)%N) (f p) l) as Ht.
  change (tally (λ h, (hw_reply h =? r)%N)) with held_owed in Ht |- *. assert (map_imap (kept_held f) m !! p = None) as Hn by by rewrite map_lookup_imap, Hp.
  destruct (kept_held f p l) as [rest|] eqn:E.
  - rewrite (map_imap_insert_Some _ _ _ _ _ E), mtally_insert_new by done. unfold kept_held in E. case_bool_decide; [done|].
    injection E as <-. lia.
  - rewrite (map_imap_insert_None _ _ _ _ E), delete_id by done. unfold kept_held in E. case_bool_decide as Er; [|done].
    rewrite Er in Ht. change (held_owed []) with 0 in Ht. lia.
Qed.

Lemma extract_all_balance f w : balance (extract_all f w).2 + held_owed (extract_all f w).1 = balance w.
Proof. pose proof (extract_map_owed f (w_held w)) as Hm. unfold extract_all, balance, owed, sent. cbn [fst snd]. cbn in *. change (map_imap _ (w_held w)) with (map_imap (kept_held f) (w_held w)). lia. Qed.

Lemma release_adoption_waits_balance : keeps (release_adoption_waits is_match c).
Proof.
  intros w. unfold release_adoption_waits.
  rewrite <-(extract_all_balance (λ p h, negb (starting c p) && is_some (hw_adopting h)) w). destruct (extract_all _ w) as [released w1].
  apply (foldl_balance _ (λ h, (hw_reply h =? r)%N)). intros w2 h. apply begin_wait_balance, read_keeps.
Qed.

Lemma settle_overdue_balance w h : balance (settle_overdue is_match show_duration c w h) = balance w + Nat.b2n (hw_reply h =? r)%N.
Proof.
  unfold settle_overdue. cbv zeta. destruct (hw_adopting h) as [since|].
  - destruct (is_some _); [apply answer_at_balance, read_keeps|]. unfold hold_timed_out. rewrite read_keeps. unfold balance, owed, sent. cbn.
    set (held := {| hw_prepared := _ |}). pose proof (push_owed (pw_pane (hw_prepared h)) held (w_held w)) as Hi. cbn [hw_reply held] in Hi. lia.
  - destruct (hw_timed_out h); [apply answer_at_balance, read_keeps|apply balance_send].
Qed.

Lemma settle_overdue_held_waits_balance : keeps (settle_overdue_held_waits is_match show_duration c).
Proof.
  intros w. unfold settle_overdue_held_waits. rewrite <-(extract_all_balance (λ _ h, (hw_deadline h <=? s_now c)%N) w).
  destruct (extract_all _ w) as [overdue w1]. apply (foldl_balance _ (λ h, (hw_reply h =? r)%N)). apply settle_overdue_balance.
Qed.

Lemma send_overdue_answers_balance : keeps (send_overdue_answers c).
Proof.
  intros w. unfold send_overdue_answers. rewrite <-(extract_answers_balance (λ h, (ha_deadline h <=? s_now c)%N) w).
  destruct (extract_answers _ w) as [overdue w1]. apply (foldl_balance _ (λ h, is_direct (ha_reply h))). intros w2 h. apply deliver_balance.
Qed.

Lemma settle_waits_balance : keeps (settle_waits is_match show_duration c).
Proof.
  intros w. unfold settle_waits. cbv zeta. rewrite settle_all_balance by apply read_keeps.
  rewrite foldl_keeps by apply time_out_readiness_balance.
  by rewrite send_overdue_answers_balance, settle_overdue_held_waits_balance, release_adoption_waits_balance, test_due_partials_balance.
Qed.

Lemma handle_probe_passed_balance p g target : keeps (handle_probe_passed is_match show_duration c p g target).
Proof.
  intros w. unfold handle_probe_passed. destruct (bool_decide _); [done|]. cbv zeta. rewrite settle_all_balance by apply read_keeps.
  destruct (match w_readiness w !! p with Some _ => _ | None => _ end); [apply pass_readiness_balance|done].
Qed.

Lemma watch_apply_balance op : keeps (watch_apply compile_error is_match show_duration replay_matching op c).
Proof.
  intros w. destruct op; cbn [watch_apply]; try done.
  - apply begin_run_balance.
  - apply adopt_run_balance.
  - apply arm_probes_balance.
  - by destruct end_.
  - apply start_replay_balance.
  - apply tap_output_balance.
  - apply test_unlogged_balance.
  - apply end_waits_balance.
  - apply release_adoption_waits_balance.
Qed.
End once.

(** ** Numbers of batches and panes of held waits *)
Section fresh.
Context `{LineRenderer} (compile_error : LogPattern → option rstr) (is_match : LogPattern → rstr → bool)
  (show_duration : duration → rstr) (replay_matching : N → list LogPattern → option N).
Context (c : Core).

(** No batch has a number still to be given, and a wait is held under its
    pane, on a read that was started. *)
Definition numbered (w : Waits) : Prop := ∀ k, (w_next_group w ≤ k)%N → w_groups w !! k = None.
Definition placed_held (b p : N) (h : HeldWait) : Prop :=
  pw_pane (hw_prepared h) = p ∧ match hw_read h with Some id => (id < b)%N | None => True end.
Definition keyed (b : N) (m : gmap N (list HeldWait)) : Prop := ∀ p l, m !! p = Some l → Forall (placed_held b p) l.
Definition tidy (w : Waits) : Prop := numbered w ∧ keyed (w_next_read w) (w_held w).

Lemma tidy_same w w' :
  w_groups w' = w_groups w → w_next_group w' = w_next_group w → w_held w' = w_held w → w_next_read w' = w_next_read w → tidy w → tidy w'.
Proof. unfold tidy, numbered. by intros -> -> -> ->. Qed.

Lemma tidy_on_held f w : (keyed (w_next_read w) (w_held w) → keyed (w_next_read w) (f (w_held w))) → tidy w → tidy (w_on_held f w).
Proof. intros Hf [Hn Hk]. split; [done|]. by apply Hf. Qed.

Lemma keyed_insert b p l m : Forall (placed_held b p) l → keyed b m → keyed b (<[p := l]> m).
Proof.
  intros Hl Hk q k. destruct (decide (p = q)) as [->|Hne]; [rewrite lookup_insert_eq; by intros [= <-]|].
  rewrite lookup_insert_ne by done. apply Hk.
Qed.

Lemma keyed_at b p m : keyed b m → Forall (placed_held b p) (default [] (m !! p)).
Proof. intros Hk. destruct (m !! p) eqn:E; [by apply (Hk p)|constructor]. Qed.

Lemma keyed_push b p h m : placed_held b p h → keyed b m → keyed b (<[p := default [] (m !! p) ++ [h]]> m).
Proof. intros Hp Hk. apply keyed_insert; [|done]. apply Forall_app. split; [by apply keyed_at|by constructor]. Qed.

Lemma keyed_delete b p m : keyed b m → keyed b (delete p m).
Proof.
  intros Hk q l. destruct (decide (p = q)) as [->|Hne]; [by rewrite lookup_delete_eq|]. rewrite lookup_delete_ne by done. apply Hk.
Qed.

Lemma keyed_alter b f p m :
  (∀ l, Forall (placed_held b p) l → m !! p = Some l → Forall (placed_held b p) (f l)) → keyed b m → keyed b (alter f p m).
Proof.
  intros Hf Hk q k. destruct (decide (p = q)) as [->|Hne]; [|rewrite lookup_alter_ne by done; apply Hk].
  rewrite lookup_alter_eq. destruct (m !! q) as [l|] eqn:E; [|done]. intros [= <-]. apply Hf; [by apply Hk|done].
Qed.

Lemma keyed_imap b (f : N → HeldWait → bool) m : keyed b m → keyed b (map_imap (kept_held f) m).
Proof.
  intros Hk p l. rewrite map_lookup_imap. destruct (m !! p) as [k|] eqn:E; cbn; [|done]. unfold kept_held. case_bool_decide; [done|].
  intros [= <-]. apply Forall_filter, (Hk p), E.
Qed.

Lemma keyed_mono b b' m : (b ≤ b')%N → keyed b m → keyed b' m.
Proof.
  intros Hb Hk p l El. eapply Forall_impl; [exact (Hk p l El)|]. intros h [Hp Hr]. split; [done|]. destruct (hw_read h); [lia|done].
Qed.

Lemma ask_of_placed id p h : placed_held id p h → placed_held (N.succ id) p (ask_of id h).2.
Proof.
  intros [Hp Hr]. unfold ask_of.
  assert (placed_held (N.succ id) p h) as Hs by (split; [done|destruct (hw_read h); [lia|done]]).
  destruct (is_some (hw_adopting h)); [done|]. destruct (hw_scan h) as [scan|]; [|done]. destruct (is_some (hw_read h)); [done|].
  destruct (scan_ask _ _); [|done]. split; [done|]. cbn. lia.
Qed.

(** The waits held on a pane once a read asked for them. *)
Lemma asked_tidy p w :
  tidy w →
  tidy (w_on_next_read N.succ (w_on_held (alter (λ _ : list HeldWait, (ask_of (w_next_read w) <$> default [] (w_held w !! p)).*2) p) w)).
Proof.
  intros [Hn Hk]. split; [done|]. cbn. apply keyed_alter; [|by apply (keyed_mono (w_next_read w)); [lia|]].
  intros l _ El. rewrite El. cbn. rewrite <-list_fmap_compose. apply Forall_fmap. eapply Forall_impl; [exact (Hk p l El)|].
  intros h Hh. by apply ask_of_placed.
Qed.

Lemma ask_of_silent id h : (ask_of id h).1.1 = false → (ask_of id h).1.2 = [] → (ask_of id h).2 = h.
Proof.
  unfold ask_of. destruct (is_some (hw_adopting h)); [done|]. destruct (hw_scan h) as [scan|]; [|done].
  destruct (is_some (hw_read h)); [done|]. by destruct (scan_ask _ _).
Qed.

Lemma asked_silent id l :
  existsb (λ a : bool * list (N * LogAsk) * HeldWait, a.1.1) (ask_of id <$> l) = false →
  concat ((λ a : bool * list (N * LogAsk) * HeldWait, a.1.2) <$> (ask_of id <$> l)) = [] → (ask_of id <$> l).*2 = l.
Proof.
  induction l as [|h l IH]; [done|]. cbn [fmap list_fmap existsb concat]. intros [E1 E2]%orb_false_iff [E3 E4]%app_eq_nil.
  f_equal; [by apply ask_of_silent|by apply IH].
Qed.

Lemma alter_const_id {A} (p : N) (x : A) (m : gmap N A) : (∀ y, m !! p = Some y → x = y) → alter (λ _, x) p m = m.
Proof.
  intros Hx. apply map_eq. intros q. destruct (decide (p = q)) as [->|Hne]; [|by rewrite lookup_alter_ne by done].
  rewrite lookup_alter_eq. destruct (m !! q) as [y|] eqn:E; [|done]. cbn. by rewrite (Hx y eq_refl).
Qed.

Lemma end_scan_placed b p g st next h : placed_held b p h → placed_held b p (end_scan g st next h).
Proof. unfold end_scan. destruct (hw_scan h) as [scan|]; [|done]. by destruct (_ && _). Qed.

Lemma deliver_tidy o x w : tidy w → tidy (deliver o x w).
Proof.
  intros [Hn Hk]. destruct x as [y|group slot]; cbn [deliver]; [done|]. destruct (w_groups w !! group) as [g|] eqn:Eg; [|done].
  unfold fill. cbv beta iota zeta. destruct (existsb _ _); (split; [|exact Hk]); intros k Hl; cbn in Hl |- *.
  - rewrite lookup_insert_ne; [by apply Hn|]. intros ->. rewrite (Hn k Hl) in Eg. done.
  - destruct (decide (group = k)) as [->|Hne]; [apply lookup_delete_eq|rewrite lookup_delete_ne by done; by apply Hn].
Qed.

Lemma foldl_tidy {A} (f : Waits → A → Waits) l w : (∀ w a, tidy w → tidy (f w a)) → tidy w → tidy (foldl f w l).
Proof. intros Hf. revert w. induction l as [|a l IH]; intros w Hn; [done|]. cbn. apply IH, Hf, Hn. Qed.

(** Splits on what an operation tests and drops the changes of other fields. *)
Ltac tidies :=
  repeat first
    [ assumption
    | match goal with
      | |- tidy (match ?x with _ => _ end) => destruct x
      | |- tidy (foldl _ _ _) => apply foldl_tidy; [intros|]
      | |- tidy (w_on_taps _ ?w) => apply (tidy_same w _ eq_refl eq_refl eq_refl eq_refl)
      | |- tidy (w_on_readiness _ ?w) => apply (tidy_same w _ eq_refl eq_refl eq_refl eq_refl)
      | |- tidy (w_on_waiters _ ?w) => apply (tidy_same w _ eq_refl eq_refl eq_refl eq_refl)
      | |- tidy (w_on_held _ _) => apply tidy_on_held; [try by apply keyed_push|]
      | |- tidy (w_on_answers _ ?w) => apply (tidy_same w _ eq_refl eq_refl eq_refl eq_refl)
      | |- tidy (w_on_reads _ ?w) => apply (tidy_same w _ eq_refl eq_refl eq_refl eq_refl)
      | |- tidy (w_on_next_ask _ ?w) => apply (tidy_same w _ eq_refl eq_refl eq_refl eq_refl)
      | |- tidy (w_on_replays _ ?w) => apply (tidy_same w _ eq_refl eq_refl eq_refl eq_refl)
      | |- tidy (send _ ?w) => apply (tidy_same w _ eq_refl eq_refl eq_refl eq_refl)
      | |- tidy (on_tap _ _ ?w) => apply (tidy_same w _ eq_refl eq_refl eq_refl eq_refl)
      | |- tidy (note_event _ _ _ ?w) => apply (tidy_same w _ eq_refl eq_refl eq_refl eq_refl)
      end
    | solve [eauto 4 with tidies] ].

Section reading.
Context (rl : N → Waits → Waits) (rl_tidy : ∀ p w, tidy w → tidy (rl p w)).
#[local] Hint Resolve deliver_tidy rl_tidy : tidies.

Lemma answer_with_tail_tidy x st m cu tail w : tidy w → tidy (answer_with_tail c rl x st m cu tail w).
Proof. intros Hn. unfold answer_with_tail, hold_answer. cbv zeta. tidies; apply rl_tidy; tidies. Qed.
#[local] Hint Resolve answer_with_tail_tidy : tidies.

Lemma settle_each_tidy settled fuel index w : tidy w → tidy (settle_each c rl settled fuel index w).
Proof.
  revert index w. induction fuel as [|fuel IH]; intros index w Hn; cbn [settle_each]; [done|]. tidies; apply IH, answer_with_tail_tidy; tidies.
Qed.

Lemma register_held_tidy p after x scan w : tidy w → tidy (register_held is_match c rl p after x scan w).
Proof.
  intros Hn. unfold register_held. cbv zeta.
  set (found := match (match pw_since p with Some _ => _ | None => _ end) with Some _ => _ | None => _ end).
  assert (tidy found.2) as Hf.
  { unfold found. destruct (match pw_since p with Some _ => _ | None => _ end) as [since|]; [|done].
    destruct (pw_matcher p); [|done]. destruct (is_fresh _); [done|].
    destruct (scan ≫= _) as [[tapped f]|]; cbn; [destruct (ls_matched f); cbn|]; done. }
  destruct found as [[matched scanned] w1]. cbn [snd] in Hf.
  destruct (match matched with Some _ => _ | None => _ end) as [[st m]|]; [by apply answer_with_tail_tidy|]. tidies.
Qed.
#[local] Hint Resolve register_held_tidy : tidies.

Lemma push_held_tidy p after q scan ad w : tidy w → tidy (push_held c p after q scan ad w).
Proof. intros Hn. unfold push_held. cbv zeta. tidies. Qed.
#[local] Hint Resolve push_held_tidy : tidies.

Lemma register_or_scan_tidy p after q w : tidy w → tidy (register_or_scan is_match c rl p after q w).
Proof.
  intros Hn. unfold register_or_scan, hold_wait. tidies.
Qed.
#[local] Hint Resolve register_or_scan_tidy : tidies.

Lemma begin_wait_tidy p after q w : tidy w → tidy (begin_wait is_match c rl p after q w).
Proof. intros Hn. unfold begin_wait, hold_wait. tidies. Qed.

Lemma report_render_faults_tidy p n w : tidy w → tidy (report_render_faults c p n w).
Proof. intros Hn. unfold report_render_faults. cbv zeta. tidies. Qed.
#[local] Hint Resolve report_render_faults_tidy : tidies.

Lemma extract_held_tidy f p w : tidy w → tidy (extract_held f p w).2.
Proof.
  intros Hn. unfold extract_held. destruct (w_held w !! p) as [l|] eqn:E; cbn [snd]; [|done]. apply tidy_on_held; [|done]. intros Hk.
  destruct (bool_decide _); [by apply keyed_delete|]. apply keyed_insert; [|done]. by apply Forall_filter, Hk.
Qed.

Lemma extract_all_tidy f w : tidy w → tidy (extract_all f w).2.
Proof. intros Hn. apply tidy_on_held; [|done]. apply keyed_imap. Qed.

Lemma register_scanned_waits_tidy p id answers w : tidy w → tidy (register_scanned_waits is_match c rl p id answers w).
Proof.
  intros Hn. unfold register_scanned_waits, register_scanned. rewrite (surjective_pairing (extract_held _ _ _)). cbv beta iota.
  apply foldl_tidy; [intros; by apply register_held_tidy|by apply extract_held_tidy].
Qed.

Lemma answer_held_waits_tidy p tail w : tidy w → tidy (answer_held_waits is_match c rl p tail w).
Proof.
  intros Hn. unfold answer_held_waits, begin_after_end. rewrite (surjective_pairing (extract_held _ _ _)). cbv beta iota zeta.
  pose proof (extract_held_tidy (λ h, negb (is_some (hw_scan h)) && negb (is_some (hw_adopting h))) p w Hn) as H3.
  generalize (filter (λ h, is_some (hw_timed_out h) = true) (extract_held (λ h, negb (is_some (hw_scan h)) && negb (is_some (hw_adopting h))) p w).1).
  intros late. set (w2 := match late with [] => _ | _ => _ end). assert (tidy w2) as H2 by (unfold w2; tidies). clearbody w2.
  tidies; apply report_render_faults_tidy; tidies.
Qed.
#[local] Hint Resolve register_scanned_waits_tidy answer_held_waits_tidy : tidies.

Lemma handle_log_read_tidy p id result w : tidy w → tidy (handle_log_read is_match c rl p id result w).
Proof.
  intros Hn. unfold handle_log_read. cbv zeta. set (w1 := send_held_answers _ _ w).
  assert (tidy w1) as H1 by (unfold w1, send_held_answers, extract_answers, send_landed; cbv beta iota; tidies). clearbody w1.
  destruct (w_reads w1 !! p); [|done]. destruct (_ =? _)%N; [|done]. apply rl_tidy. tidies.
  apply register_scanned_waits_tidy. tidies.
Qed.

(** A read that would ask for nothing is not started, and marks nothing. *)
Lemma silent_tidy p w (lines : list (N * LogAsk)) :
  negb (existsb (λ a : bool * list (N * LogAsk) * HeldWait, a.1.1) (ask_of (w_next_read w) <$> default [] (w_held w !! p))) &&
  bool_decide (length (concat ((λ a : bool * list (N * LogAsk) * HeldWait, a.1.2) <$> (ask_of (w_next_read w) <$> default [] (w_held w !! p))) ++
                       lines) = 0) = true →
  tidy w → tidy (w_on_held (alter (λ _ : list HeldWait, (ask_of (w_next_read w) <$> default [] (w_held w !! p)).*2) p) w).
Proof.
  intros [Ee El]%andb_prop Hn. apply negb_true_iff in Ee. apply bool_decide_eq_true in El. rewrite length_app in El.
  match goal with |- tidy ?w' => apply (tidy_same w w'); [done|done| |done|done] end. cbn. apply alter_const_id. intros y Ey. rewrite Ey in *. cbn in *.
  apply asked_silent; [done|]. apply nil_length_inv. lia.
Qed.

Lemma start_read_tidy p w : tidy w → tidy (start_read is_match c rl p w).
Proof.
  intros Hn. unfold start_read. destruct (is_some _); [done|]. cbv zeta.
  match goal with |- tidy (if ?b then _ else _) => destruct b eqn:E end; 
    [eapply tidy_same; [| | | |exact (silent_tidy p w _ E Hn)]; done|].
  destruct (row c p); [|apply handle_log_read_tidy]; (eapply tidy_same; [| | | |exact (asked_tidy p w Hn)]; done).
Qed.
End reading.

Lemma read_tidy p w : tidy w → tidy (read_now is_match c p w).
Proof.
  unfold read_now. generalize READ_DEPTH. intros fuel. revert p w. induction fuel as [|fuel IH]; intros p w Hn; cbn [read_log]; [done|].
  by apply start_read_tidy.
Qed.

#[local] Hint Resolve deliver_tidy read_tidy : tidies.

Lemma settle_all_tidy settled w : tidy w → tidy (settle_all c (read_now is_match c) settled w).
Proof. apply settle_each_tidy, read_tidy. Qed.
#[local] Hint Resolve settle_all_tidy : tidies.

Lemma test_lines_tidy p lines w : tidy w → tidy (test_lines is_match show_duration c p lines w).
Proof. intros Hn. unfold test_lines, pass_readiness. cbv zeta. tidies; apply settle_all_tidy; tidies. Qed.

Lemma tap_output_tidy p at_ bytes w : tidy w → tidy (tap_output is_match show_duration c p at_ bytes w).
Proof.
  intros Hn. unfold tap_output. destruct (feed at_ bytes _) as [lines t]. cbv zeta.
  destruct (awaits_a_pattern _ _ _); [destruct (unfinished_for_pattern _ _)|]; apply test_lines_tidy, report_render_faults_tidy; tidies.
Qed.

Lemma test_unlogged_tidy p bytes w : tidy w → tidy (test_unlogged is_match show_duration c p bytes w).
Proof.
  intros Hn. unfold test_unlogged. destruct (feed_unlogged _ _) as [lines t]. apply test_lines_tidy, report_render_faults_tidy. tidies.
Qed.

Lemma test_due_partials_tidy w : tidy w → tidy (test_due_partials is_match show_duration c w).
Proof.
  apply foldl_tidy. intros w1 p Hn. unfold test_due_partial. destruct (unfinished_due _ _) as [line t]. cbv zeta.
  destruct (awaits_a_pattern _ _ _); [apply test_lines_tidy|]; tidies.
Qed.

Lemma start_readiness_tidy p check since deadline w : tidy w → tidy (start_readiness compile_error p check since deadline w).
Proof. intros Hn. unfold start_readiness. cbv zeta. tidies. Qed.

Lemma end_waits_tidy p g st next w : tidy w → tidy (end_waits is_match c p g st next w).
Proof.
  intros Hn. unfold end_waits, end_held_waits. apply settle_all_tidy. cbv zeta. rewrite (surjective_pairing (extract_held _ _ _)). cbv beta iota.
  apply foldl_tidy; [intros; apply answer_with_tail_tidy; [apply read_tidy|done]|]. apply extract_held_tidy. tidies.
  intros Hk. apply keyed_alter; [|done]. intros l Hl _. apply Forall_fmap. eapply Forall_impl; [exact Hl|]. intros h Hh.
  by apply end_scan_placed.
Qed.

Lemma release_adoption_waits_tidy w : tidy w → tidy (release_adoption_waits is_match c w).
Proof.
  intros Hn. unfold release_adoption_waits. rewrite (surjective_pairing (extract_all _ _)). cbv beta iota.
  apply foldl_tidy; [intros; apply begin_wait_tidy; [apply read_tidy|done]|by apply extract_all_tidy].
Qed.

Lemma settle_waits_tidy w : tidy w → tidy (settle_waits is_match show_duration c w).
Proof.
  intros Hn. unfold settle_waits. apply settle_all_tidy, foldl_tidy; [intros; unfold time_out_readiness; cbv zeta; tidies|].
  unfold send_overdue_answers, extract_answers. cbv beta iota. apply foldl_tidy; [intros; by apply deliver_tidy|]. tidies.
  unfold settle_overdue_held_waits. rewrite (surjective_pairing (extract_all _ _)). cbv beta iota. apply foldl_tidy.
  - intros w1 h H1. unfold settle_overdue, hold_timed_out. cbv zeta.
    destruct (hw_adopting h); [destruct (is_some _)|destruct (hw_timed_out h)]; try (apply answer_with_tail_tidy; [apply read_tidy|done]); tidies.
    apply read_tidy. tidies.
  - by apply extract_all_tidy, release_adoption_waits_tidy, test_due_partials_tidy.
Qed.

Lemma handle_probe_passed_tidy p g target w : tidy w → tidy (handle_probe_passed is_match show_duration c p g target w).
Proof. intros Hn. unfold handle_probe_passed, pass_readiness. cbv zeta. tidies; apply settle_all_tidy; tidies. Qed.

Lemma watch_apply_tidy op w : tidy w → tidy (watch_apply compile_error is_match show_duration replay_matching op c w).
Proof.
  intros Hn. destruct op; cbn [watch_apply]; tidies.
  - unfold begin_run. cbv zeta. tidies. apply start_readiness_tidy. tidies.
  - unfold adopt_run. cbv zeta. tidies; apply start_readiness_tidy; tidies.
  - unfold arm_probes. cbv zeta. tidies.
  - unfold start_replay. cbv zeta. tidies.
  - by apply tap_output_tidy.
  - by apply test_unlogged_tidy.
  - by apply end_waits_tidy.
  - by apply release_adoption_waits_tidy.
Qed.

Lemma begin_group_balance r batch acted q w :
  tidy w → balance r (begin_group is_match c batch acted q w) = balance r w + Nat.b2n (q =? r)%N.
Proof.
  intros Hn. unfold begin_group. destruct acted as [|a acted]; [apply balance_send|]. cbv zeta.
  rewrite foldl_keeps; [|intros w1 [slot x]; unfold register; rewrite register_held_balance by apply read_keeps; cbn; lia].
  unfold balance, owed, sent. cbn. rewrite mtally_insert_new by (apply (proj1 Hn); lia). cbn. lia.
Qed.

Lemma begin_group_tidy batch acted q w : tidy w → tidy (begin_group is_match c batch acted q w).
Proof.
  intros Hn. unfold begin_group. destruct acted as [|a acted]; [tidies|]. cbv zeta. apply foldl_tidy.
  - intros w1 [slot x] H1. by apply register_held_tidy; [apply read_tidy|].
  - destruct Hn as [Hn Hh]. split; [|done]. intros k Hk. cbn in Hk |- *. rewrite lookup_insert_ne by lia. apply Hn. lia.
Qed.
End fresh.

(** ** What a supervisor does to its waits *)
Section history.
Context `{LineRenderer} (compile_error : LogPattern → option rstr) (is_match : LogPattern → rstr → bool)
  (show_duration : duration → rstr) (replay_matching : N → list LogPattern → option N).

Inductive WaitAct :=
  | ActWatch (op : WatchOp)
  | ActWait (p : PreparedWait) (after : option N) (reply : N)
  | ActBatch (batch : BatchOutcome) (acted : list (PreparedWait * N)) (reply : N)
  | ActRead (pane read : N) (result : LogReadResult)
  | ActProbe (pane generation : N) (target : ProbeTarget)
  | ActSettle.

Definition act (a : WaitAct) (c : Core) (w : Waits) : Waits :=
  match a with
  | ActWatch op => watch_apply compile_error is_match show_duration replay_matching op c w
  | ActWait p after reply => begin_wait is_match c (read_now is_match c) p after reply w
  | ActBatch batch acted reply => begin_group is_match c batch acted reply w
  | ActRead pane id result => handle_log_read is_match c (read_now is_match c) pane id result w
  | ActProbe pane generation target => handle_probe_passed is_match show_duration c pane generation target w
  | ActSettle => settle_waits is_match show_duration c w
  end.

(** Acts in turn, each beside the supervisor as it then is. *)
Definition acts (l : list (Core * WaitAct)) (w : Waits) : Waits := foldl (λ w a, act a.2 a.1 w) w l.

(** Whether an act asks for an answer on a reply. *)
Definition asks (r : N) (a : WaitAct) : bool :=
  match a with ActWait _ _ q => (q =? r)%N | ActBatch _ _ q => (q =? r)%N | _ => false end.

Lemma tidy_new : tidy waits_new.
Proof. split; [by intros k Hk|by intros p l]. Qed.

Lemma act_tidy a c w : tidy w → tidy (act a c w).
Proof.
  destruct a; cbn [act].
  - apply watch_apply_tidy.
  - apply begin_wait_tidy, read_tidy.
  - apply begin_group_tidy.
  - apply handle_log_read_tidy, read_tidy.
  - apply handle_probe_passed_tidy.
  - apply settle_waits_tidy.
Qed.

Lemma act_balance r a c w : tidy w → balance r (act a c w) = balance r w + Nat.b2n (asks r a).
Proof.
  intros Hn. destruct a; cbn [act asks Nat.b2n].
  - rewrite watch_apply_balance. lia.
  - apply begin_wait_balance, read_keeps.
  - by apply begin_group_balance.
  - rewrite handle_log_read_balance by apply read_keeps. lia.
  - rewrite handle_probe_passed_balance. lia.
  - rewrite settle_waits_balance. lia.
Qed.

Lemma acts_balance r l w : tidy w → balance r (acts l w) = balance r w + tally (λ a, asks r a.2) l.
Proof.
  revert w. induction l as [|a l IH]; intros w Hn; cbn [acts foldl tally]; [lia|].
  fold (acts l (act a.2 a.1 w)). rewrite IH by by apply act_tidy. rewrite act_balance by done. lia.
Qed.

Lemma acts_tidy l w : tidy w → tidy (acts l w).
Proof. revert w. induction l as [|a l IH]; intros w Hw; [done|]. by apply IH, act_tidy. Qed.

(** C13: whatever a supervisor does to its waits (output, ends of runs, adoptions,
    reads of logs that land, probes that pass, deadlines), a reply it was asked
    for is either still owed by one wait, held answer or batch or was sent, and
    as often as it was asked: none is lost, and none is answered twice. *)
Theorem replies_conserved (r : N) (l : list (Core * WaitAct)) :
  owed r (acts l waits_new) + sent r (acts l waits_new) = tally (λ a, asks r a.2) l.
Proof. apply (acts_balance r l waits_new), tidy_new. Qed.
End history.
