(* ===== verification/Served.v ===== *)
(** * What serving a request leaves of a supervisor

    The service runs operations on a supervisor and tells what they did. Here:
    every such operation only adds to the supervisor's history, leaves the
    shells the service counted there, arms no idle stop, and loses or doubles
    no reply the supervisor owes. *)
From S2P Require Import Prelude RustText RustPath Values Process Config StackSync EventLog Books Tap WaitData SupState Lifecycle SupMoves Waits ServiceParts WaitsOnce.

Section served.
Context `{Outside}.
Notation on_waits := (on_waits compile_error is_match show_duration replay_matching).

(** ** Replies of a supervisor *)
Definition replies (r : N) (e : Effect) : bool := match e with FWatch w => sends r w | _ => false end.

(** The replies a supervisor owes and has sent. *)
Definition sup_ledger (r : N) (s : Sup) : nat := owed r (sup_watch s) + tally (replies r) (sup_trace s).

(** Between operations the waits have nothing left to tell. *)
Definition settled (s : Sup) : Prop := w_out (sup_watch s) = [] ∧ tidy (sup_watch s).

Lemma tally_watch r es : tally (replies r) (FWatch <$> es) = tally (sends r) es.
Proof. induction es as [|e es IH]; [done|]. cbn. by rewrite IH. Qed.

Lemma tally_rev {A} (f : A → bool) l : tally f (rev l) = tally f l.
Proof. apply tally_perm. symmetry. apply Permutation_rev. Qed.

(** Running an operation of the waits moves what it sends to the history. *)
Lemma on_waits_ledger r f s n :
  settled s → balance r (f (sup_core s) (sup_watch s)) = balance r (sup_watch s) + n →
  sup_ledger r (on_waits f s) = sup_ledger r s + n.
Proof.
  intros [Hout _] Hb. unfold sup_ledger, Waits.on_waits, balance, sent in *. cbn [sup_watch sup_trace] in *.
  rewrite tally_app, tally_watch. rewrite Hout in Hb. cbn [tally] in Hb.
  generalize dependent (f (sup_core s) (sup_watch s)). intros w Hb. change (owed r (w_on_out (λ _, []) w)) with (owed r w). lia.
Qed.

Lemma on_waits_settled f s : tidy (f (sup_core s) (sup_watch s)) → settled (on_waits f s).
Proof. intros Hn. by split. Qed.

Lemma tell_on_waits op s : tell op s = on_waits (watch_apply compile_error is_match show_duration replay_matching op) s.
Proof. unfold tell, Waits.on_waits. cbn. f_equal. by rewrite fmap_rev, rev_involutive || (rewrite <- map_rev, rev_involutive). Qed.

(** ** The relation *)
(** An operation that asks for [n r] more answers on each reply [r]. *)
Record asks_for (n : N → nat) (s s' : Sup) : Prop := {
  served_occupants : s_occupants (sup_core s') = s_occupants (sup_core s);
  served_left_at : s_left_at (sup_core s') = s_left_at (sup_core s) ∨ s_left_at (sup_core s') = None;
  served_trace : ∃ es, sup_trace s' = es ++ sup_trace s;
  served_settled : settled s → settled s';
  served_ledger r : settled s → sup_ledger r s' = sup_ledger r s + n r;
}.
Definition served : Sup → Sup → Prop := asks_for (λ _, 0).

Lemma served_refl s : served s s.
Proof. split; auto. by exists []. Qed.

Lemma asks_trans n1 n2 s1 s2 s3 : asks_for n1 s1 s2 → asks_for n2 s2 s3 → asks_for (λ r, n1 r + n2 r) s1 s3.
Proof.
  intros [o1 l1 [es1 t1] k1 b1] [o2 l2 [es2 t2] k2 b2]. split.
  - congruence.
  - destruct l2 as [E|E]; rewrite E; auto.
  - exists (es2 ++ es1). by rewrite t2, t1, app_assoc.
  - auto.
  - intros r Hs. rewrite b2, b1 by auto. lia.
Qed.

Lemma served_trans s1 s2 s3 : served s1 s2 → served s2 s3 → served s1 s3.
Proof. apply asks_trans. Qed.

Lemma served_before n s1 s2 s3 : served s1 s2 → asks_for n s2 s3 → asks_for n s1 s3.
Proof. apply asks_trans. Qed.

(** A change to the books that counts no shell and arms no idle stop. *)
Lemma served_upd f s :
  (∀ c, s_occupants (f c) = s_occupants c) → (∀ c, s_left_at (f c) = s_left_at c ∨ s_left_at (f c) = None) → served s (upd f s).
Proof. intros Ho Hl. split; cbn; auto. by exists []. Qed.

Lemma served_emit e s : of_watch e = false → served s (emit e s).
Proof.
  intros He. split; cbn; auto; [by exists [e]|]. intros r _. unfold sup_ledger. cbn. destruct e; try done.
Qed.

Lemma asks_on_waits n f s :
  (∀ r c w, tidy w → balance r (f c w) = balance r w + n r) → (∀ c w, tidy w → tidy (f c w)) → asks_for n s (on_waits f s).
Proof.
  intros Hb Hn. split; [done|by left|by eexists|..].
  - intros [_ Ht]. apply on_waits_settled. auto.
  - intros r Hs. apply on_waits_ledger; [done|]. apply Hb, Hs.
Qed.

Lemma served_on_waits f s :
  (∀ r c w, balance r (f c w) = balance r w) → (∀ c w, tidy w → tidy (f c w)) → served s (on_waits f s).
Proof. intros Hb. apply asks_on_waits. intros r c w _. rewrite Hb. lia. Qed.

Lemma served_tell op s : served s (tell op s).
Proof.
  rewrite tell_on_waits. apply served_on_waits.
  - intros r c w. apply watch_apply_balance.
  - intros c w. apply watch_apply_tidy.
Qed.

Lemma moves_served s s' : moves s s' → served s s'.
Proof.
  induction 1 as [|f s' Hp _ IH|e s' He _ IH|op s' _ IH]; [apply served_refl|..]; eapply served_trans; try exact IH.
  - apply served_upd; intros c; [apply Hp|left; apply Hp].
  - by apply served_emit.
  - apply served_tell.
Qed.

(** ** Operations *)
Class Serves (f : Sup → Sup) : Prop := serves s : served s (f s).
Class ServesWith {A} (f : Sup → A * Sup) : Prop := serves_with s : served s (f s).2.

#[export] Instance moves_serves f : Moves f → Serves f.
Proof. intros Hf s. apply moves_served, Hf, moves_refl. Qed.
#[export] Instance moves_serves_with {A} (f : Sup → A * Sup) : MovesWith f → ServesWith f.
Proof. intros Hf s. apply moves_served, Hf, moves_refl. Qed.
#[export] Instance serves_alone f : Serves f → ServesWith (λ s, (tt, f s)).
Proof. intros Hf s. apply Hf. Qed.
#[export] Instance serves_after f g : Serves f → Serves g → Serves (λ s, f (g s)).
Proof. intros Hf Hg s. eapply served_trans; [apply Hg|apply Hf]. Qed.
#[export] Instance serves_snd {A} (f : Sup → A * Sup) : ServesWith f → Serves (λ s, (f s).2).
Proof. intros Hf s. apply Hf. Qed.
#[export] Instance serves_ask {A} (f : Sup → A) : ServesWith (λ s, (f s, s)).
Proof. intros s. apply served_refl. Qed.

#[export] Instance hold_up_serves : Serves hold_up.
Proof. intros s. apply served_upd; intros c; [done|by right]. Qed.

#[export] Instance apply_stack_serves env nfc stack : Serves (apply_stack env nfc stack).
Proof.
  intros s. eapply served_trans; [apply (served_upd (on_project (λ _, st_project stack))); by auto|].
  apply moves_served, apply_stack_moves.
Qed.

#[export] Instance idle_stop_serves env at_ : ServesWith (idle_stop_if_due env at_).
Proof.
  intros s. destruct (idle_stop_moves env at_ s) as [E|Hm]; [rewrite E; apply served_refl|].
  eapply served_trans; [apply hold_up_serves|by apply moves_served].
Qed.

#[export] Instance handle_serves env nfc up rt e : Serves (Lifecycle.handle env nfc up rt e).
Proof.
  intros s. pose proof (handle_moves env nfc up rt e s) as Hm.
  destruct e; try (by apply moves_served); cbn [Lifecycle.handle]; [apply apply_stack_serves|apply idle_stop_serves].
Qed.

#[export] Instance settle_serves : Serves (on_waits (settle_waits is_match show_duration)).
Proof. intros s. apply served_on_waits; [intros r c w; apply settle_waits_balance|intros c w; apply settle_waits_tidy]. Qed.
#[export] Instance log_read_serves p id result : Serves (on_waits (λ c, handle_log_read is_match c (read_now is_match c) p id result)).
Proof.
  intros s. apply served_on_waits; intros.
  - apply handle_log_read_balance, read_keeps.
  - by apply handle_log_read_tidy; [apply read_tidy|].
Qed.
#[export] Instance probe_serves p g target : Serves (on_waits (λ c, handle_probe_passed is_match show_duration c p g target)).
Proof. intros s. apply served_on_waits; intros; [apply handle_probe_passed_balance|by apply handle_probe_passed_tidy]. Qed.
End served.

#[local] Hint Constants Opaque : typeclass_instances.

(** ** What the service asks of a supervisor *)
Section asked.
Context `{Outside}.

#[export] Instance take_usage_moves samples : MovesWith (take_usage samples).
Proof. unfold take_usage. moves. Qed.
#[export] Instance take_ports_moves sample : Moves (take_ports sample).
Proof. unfold take_ports. moves. Qed.
#[export] Instance held_ports_moves held : Moves (upd (on_metrics (Metrics.set_held_ports held))).
Proof. moves. Qed.
#[export] Instance settings_moves settings : Moves (upd (on_settings (λ _, settings))).
Proof. moves. Qed.
#[export] Instance send_input_moves env n data : MovesWith (send_input env n data).
Proof. unfold send_input. moves. Qed.
#[export] Instance forget_idle_stopping_moves : Moves forget_idle_stopping.
Proof. unfold forget_idle_stopping. moves. Qed.
#[export] Instance snapshot_moves env : MovesWith (snapshot env).
Proof. unfold snapshot, process_status. moves. Qed.

End asked.
