(* ===== verification/Serving.v ===== *)
(** * What serving leaves of the service

    Every operation of Runtime.v but a change to the shell table, a wait that
    is asked and the letting go of a project is a chain of steps that leave the
    shell table, drop no project, arm no idle stop, keep every ring and queue
    within its bound, and neither lose nor double a reply. *)
From S2P Require Import Prelude RustText RustPath Occupancy Values Process Config StackStore StackSync EventLog Books Tap WaitData SupState Lifecycle SupMoves Waits ServiceParts Runtime WaitsOnce Served.


(** ** Replies and bounds *)
Section measures.
Context `{Outside}.

(** Whether an outcome answers on a reply, or hands it to a worker that does. *)
Definition sends_to (r : N) (o : Outcome) : bool :=
  match o with TReply q _ | TLocate _ q | TReadScreen _ q => (q =? r)%N | _ => false end.

(** The replies sent, held for an event, and owed by the supervisors. *)
Definition ledger (r : N) (t : Rt) : nat :=
  tally (sends_to r) (rt_out t) + tally (λ w, (ew_reply w =? r)%N) (rt_event_waiters t)
  + mtally (λ s : Sup, owed r (sup_watch s)) (rt_supervisors t).

Definition all_settled (t : Rt) : Prop := map_Forall (λ _ s, settled s) (rt_supervisors t).

Record bounded (t : Rt) : Prop := {
  bounded_events : length (ring (rt_event_log t)) ≤ MAX_EVENTS;
  bounded_notices : length (rt_notices t) ≤ MAX_NOTICES;
  bounded_notes : map_Forall (λ _ notes, length notes ≤ MAX_QUEUED_NOTES) (rt_shell_notes t);
}.

(** A supervisor as a step may leave it: as it counted and armed before, or
    freshly loaded. *)
Definition keeps_shells (t : Rt) (project : path) (s' : Sup) : Prop :=
  (∃ s, rt_supervisors t !! project = Some s ∧ s_occupants (sup_core s') = s_occupants (sup_core s)
        ∧ (s_left_at (sup_core s') = s_left_at (sup_core s) ∨ s_left_at (sup_core s') = None)) ∨
  (s_occupants (sup_core s') = occupants t project ∧ s_left_at (sup_core s') = None).

(** A step that asks for [n r] more answers on each reply [r]. *)
Record goes_by (n : N → nat) (t t' : Rt) : Prop := {
  goes_occupancy : rt_occupancy t' = rt_occupancy t;
  goes_loaded project : is_Some (rt_supervisors t !! project) → is_Some (rt_supervisors t' !! project);
  goes_shells project s' : rt_supervisors t' !! project = Some s' → keeps_shells t project s';
  goes_bounded : bounded t → bounded t';
  goes_settled : all_settled t → all_settled t';
  goes_ledger r : all_settled t → ledger r t' = ledger r t + n r;
}.
Definition goes : Rt → Rt → Prop := goes_by (λ _, 0).

Lemma keeps_shells_refl t project s : rt_supervisors t !! project = Some s → keeps_shells t project s.
Proof. left. eauto 10. Qed.

Lemma goes_refl t : goes t t.
Proof. split; auto. intros. by apply keeps_shells_refl. Qed.

Lemma goes_by_trans n1 n2 t1 t2 t3 : goes_by n1 t1 t2 → goes_by n2 t2 t3 → goes_by (λ r, n1 r + n2 r) t1 t3.
Proof.
  intros [o1 d1 s1 b1 k1 l1] [o2 d2 s2 b2 k2 l2]. split.
  - congruence.
  - auto.
  - intros p s' Hs'. destruct (s2 p s' Hs') as [(s & Hs & Ho & Hl)|[Ho Hl]].
    + destruct (s1 p s Hs) as [(s0 & Hs0 & Ho0 & Hl0)|[Ho0 Hl0]].
      * left. exists s0. split_and!; [done|congruence|]. destruct Hl as [E|E]; rewrite E; auto.
      * right. split; [congruence|]. destruct Hl as [E|E]; congruence.
    + right. split; [|done]. rewrite Ho. unfold occupants. by rewrite o1.
  - auto.
  - auto.
  - intros r Hk. rewrite l2, l1 by auto. lia.
Qed.

Lemma goes_by_ext n n' t t' : (∀ r, n r = n' r) → goes_by n t t' → goes_by n' t t'.
Proof. intros Hn [o d s b k l]. split; auto. intros r Hk. by rewrite <-Hn, l. Qed.

Lemma goes_trans t1 t2 t3 : goes t1 t2 → goes t2 t3 → goes t1 t3.
Proof. apply goes_by_trans. Qed.

Lemma goes_then n t1 t2 t3 : goes_by n t1 t2 → goes t2 t3 → goes_by n t1 t3.
Proof. intros H1 H2. apply (goes_by_ext (λ r, n r + 0)); [lia|]. by eapply goes_by_trans. Qed.

Lemma goes_before n t1 t2 t3 : goes t1 t2 → goes_by n t2 t3 → goes_by n t1 t3.
Proof. apply goes_by_trans. Qed.

(** ** Steps *)

(** A change to a field none of these facts read. *)
Record aside (f : Rt → Rt) : Prop := {
  aside_supervisors t : rt_supervisors (f t) = rt_supervisors t;
  aside_occupancy t : rt_occupancy (f t) = rt_occupancy t;
  aside_event_log t : rt_event_log (f t) = rt_event_log t;
  aside_notices t : rt_notices (f t) = rt_notices t;
  aside_notes t : rt_shell_notes (f t) = rt_shell_notes t;
  aside_waiters t : rt_event_waiters (f t) = rt_event_waiters t;
  aside_out t : rt_out (f t) = rt_out t;
}.

Lemma ledger_same r t t' :
  rt_out t' = rt_out t → rt_event_waiters t' = rt_event_waiters t → rt_supervisors t' = rt_supervisors t → ledger r t' = ledger r t.
Proof. unfold ledger. by intros -> -> ->. Qed.

(** A step that leaves the supervisors, the table and the waiting clients. *)
Lemma goes_around t t' :
  rt_supervisors t' = rt_supervisors t → rt_occupancy t' = rt_occupancy t → rt_event_waiters t' = rt_event_waiters t →
  (bounded t → bounded t') → (∀ r, tally (sends_to r) (rt_out t') = tally (sends_to r) (rt_out t)) → goes t t'.
Proof.
  intros Hs Ho Hw Hb Hout. split.
  - done.
  - by rewrite Hs.
  - intros p s' Hs'. rewrite Hs in Hs'. by apply keeps_shells_refl.
  - done.
  - unfold all_settled. by rewrite Hs.
  - intros r _. unfold ledger. rewrite Hout, Hw, Hs. lia.
Qed.

Lemma goes_aside f t : aside f → goes t (f t).
Proof.
  intros Hf. apply goes_around; try apply Hf.
  - intros [be bn bs]. split; [by rewrite (aside_event_log _ Hf)|by rewrite (aside_notices _ Hf)|by rewrite (aside_notes _ Hf)].
  - intros r. by rewrite (aside_out _ Hf).
Qed.

Lemma record_at_bounded l d at_ : length (ring l) ≤ MAX_EVENTS → length (ring (record_at is_format l d at_).2) ≤ MAX_EVENTS.
Proof.
  intros Hl. unfold record_at. cbv zeta. destruct (bool_decide_reflect (length (ring l) = MAX_EVENTS)) as [He|He].
  - destruct (ring l) as [|e r]; cbn [snd ring]; [cbn in He; unfold MAX_EVENTS in He; lia|].
    rewrite length_app. cbn [length] in He |- *. lia.
  - cbn [snd ring]. rewrite length_app. cbn [length]. lia.
Qed.

Lemma goes_event d at_ t : goes t (rt_on_event_log (λ l, (record_at is_format l d at_).2) t).
Proof. apply goes_around; try done. intros [be bn bs]. split; [|done..]. by apply record_at_bounded. Qed.

Lemma push_bounded l n : length l ≤ MAX_NOTICES → length (push is_format l n).1 ≤ MAX_NOTICES.
Proof.
  intros Hl. unfold push. cbv zeta. cbn [fst]. rewrite length_app. cbn [length].
  destruct (bool_decide_reflect (length l = MAX_NOTICES)) as [He|He]; [|lia].
  destruct l; cbn [length tail] in He |- *; [unfold MAX_NOTICES in He; lia|lia].
Qed.

Lemma goes_notice n t : goes t (rt_on_notices (λ l, (push is_format l n).1) t).
Proof. apply goes_around; try done. intros [be bn bs]. split; [done| |done]. by apply push_bounded. Qed.

Lemma goes_out o t : (∀ r, sends_to r o = false) → goes t (tell_out o t).
Proof. intros Hq. apply goes_around; try done; [intros [be bn bs]; by split|]. intros r. unfold tell_out. cbn [rt_out rt_on_out tally]. by rewrite Hq. Qed.

Lemma goes_queue sh note t : goes t (rt_on_shell_notes (Notes.queue sh note) t).
Proof.
  apply goes_around; try done. intros [be bn bs]. split; [done..|]. cbn. apply map_Forall_insert_2; [|done].
  rewrite length_app. cbn [length].
  assert (length (default [] (rt_shell_notes t !! sh)) ≤ MAX_QUEUED_NOTES).
  { destruct (rt_shell_notes t !! sh) eqn:E; [by apply (bs sh)|]. cbn. unfold MAX_QUEUED_NOTES. lia. }
  destruct (bool_decide_reflect (length (default [] (rt_shell_notes t !! sh)) = MAX_QUEUED_NOTES)) as [He|He]; [rewrite length_drop|]; unfold MAX_QUEUED_NOTES in *; lia.
Qed.

Lemma goes_forget_notes sh t : goes t (rt_on_shell_notes (delete sh) t).
Proof. apply goes_around; try done. intros [be bn bs]. split; [done..|]. by apply map_Forall_delete. Qed.
End measures.

(** ** Supervisors *)
Section supervisors.
Context `{Outside}.

(** What telling effects leaves alone. *)
Record told_only (t t' : Rt) : Prop := {
  told_supervisors : rt_supervisors t' = rt_supervisors t;
  told_occupancy : rt_occupancy t' = rt_occupancy t;
  told_waiters : rt_event_waiters t' = rt_event_waiters t;
  told_bounded : bounded t → bounded t';
}.

Lemma effect_out_told wo s s' t e : told_only t (effect_out wo s s' t e).
Proof.
  destruct e as [| | | | | | | | | | | |[]]; split; try done; unfold effect_out; try (intros [be bn bs]; by split);
    first [apply (goes_notice (H := _) _ _)|apply (goes_event (H := _) _ _)|idtac].
  intros Hb. by apply goes_notice, goes_event.
Qed.

Lemma effect_out_tally wo s s' t e r :
  tally (sends_to r) (rt_out (effect_out wo s s' t e)) = tally (sends_to r) (rt_out t) + Nat.b2n (replies r e).
Proof. destruct e as [| | | | | | | | | | | |[]]; cbn; lia. Qed.

Lemma absorb_told wo s s' t : told_only t (absorb wo s s' t).
Proof.
  unfold absorb. generalize (new_effects s s') as es. intros es. revert t. induction es as [|e es IH]; intros t; [by split|].
  cbn [foldl]. destruct (IH (effect_out wo s s' t e)) as [s2 o2 w2 b2], (effect_out_told wo s s' t e) as [s1 o1 w1 b1].
  split; [congruence..|auto].
Qed.

Lemma absorb_tally wo s s' t r :
  tally (sends_to r) (rt_out (absorb wo s s' t)) = tally (sends_to r) (rt_out t) + tally (replies r) (new_effects s s').
Proof.
  unfold absorb. generalize (new_effects s s') as es. intros es. revert t. induction es as [|e es IH]; intros t; cbn [foldl tally]; [lia|].
  rewrite IH, effect_out_tally. lia.
Qed.

Lemma new_effects_app s s' es : sup_trace s' = es ++ sup_trace s → new_effects s s' = rev es.
Proof.
  intros E. unfold new_effects. rewrite E, length_app. replace (length es + length (sup_trace s) - length (sup_trace s)) with (length es) by lia.
  by rewrite take_app_length.
Qed.

(** A supervisor's operation told, with [n] more replies asked of it. *)
Lemma sup_step_ledger wo project s0 s s' t r n :
  rt_supervisors t !! project = Some s0 → sup_watch s0 = sup_watch s → (∃ es, sup_trace s' = es ++ sup_trace s) → sup_ledger r s' = sup_ledger r s + n →
  ledger r (absorb wo s s' (rt_on_supervisors (<[project := s']>) t)) = ledger r t + n.
Proof.
  intros Hs Hw [es He] Hl. unfold ledger. destruct (absorb_told wo s s' (rt_on_supervisors (<[project := s']>) t)) as [-> _ -> _].
  rewrite absorb_tally, (new_effects_app s s' es He), tally_rev. cbn [rt_out rt_event_waiters rt_supervisors rt_on_supervisors].
  pose proof (mtally_insert (λ s : Sup, owed r (sup_watch s)) project s' (rt_supervisors t)) as Hi. rewrite Hs in Hi. cbn [from_option] in Hi. rewrite Hw in Hi.
  unfold sup_ledger in Hl. rewrite He, tally_app in Hl. lia.
Qed.
Lemma told_goes t t' :
  told_only t t' → (∀ r, tally (sends_to r) (rt_out t') = tally (sends_to r) (rt_out t)) → goes t t'.
Proof. intros [Hs Ho Hw Hb]. by apply goes_around. Qed.

(** An operation of a loaded supervisor that may ask for answers. *)
Lemma goes_by_sup {A} n wo project (f : Sup → A * Sup) t s0 :
  rt_supervisors t !! project = Some s0 → asks_for n (upd (on_now (λ _, wo_now wo)) s0) (f (upd (on_now (λ _, wo_now wo)) s0)).2 →
  goes_by n t (on_sup wo project f t).2.
Proof.
  intros E. unfold on_sup. rewrite E. cbv zeta. set (s := upd (on_now (λ _, wo_now wo)) s0). intros [Ho Hl Htr Hk Hb].
  rewrite (surjective_pairing (f s)). cbv beta iota. cbn [snd]. set (s' := (f s).2) in *. clearbody s'.
  set (u := rt_on_supervisors (<[project := s']>) t). destruct (absorb_told wo s s' u) as [Es Eo Ew Eb].
  assert (settled s0 ↔ settled s) as Hset by done. split.
  - by rewrite Eo.
  - intros p Hp. rewrite Es. cbn. destruct (decide (p = project)) as [->|Hn]; [by rewrite lookup_insert_eq|by rewrite lookup_insert_ne].
  - intros p s1. rewrite Es. cbn. rewrite lookup_insert_Some. intros [[<- <-]|[Hn Hp]]; [|by apply keeps_shells_refl].
    left. exists s0. split_and!; [done|exact Ho|exact Hl].
  - intros [be bn bs]. apply Eb. by split.
  - intros Ht. unfold all_settled. rewrite Es. cbn. apply map_Forall_insert_2; [|done]. apply Hk, Hset, (Ht project s0), E.
  - intros r Ht. unfold u. apply (sup_step_ledger wo project s0 s s' t r (n r)); [done..|]. apply Hb, Hset, (Ht project s0), E.
Qed.

Lemma goes_sup {A} wo project (f : Sup → A * Sup) t : ServesWith f → goes t (on_sup wo project f t).2.
Proof.
  intros Hf. destruct (rt_supervisors t !! project) as [s0|] eqn:E.
  - eapply goes_by_sup; [done|]. apply Hf.
  - unfold on_sup. rewrite E. apply goes_refl.
Qed.

(** A supervisor just loaded, which owes nothing. *)
Lemma goes_load wo project s s' t :
  rt_supervisors t !! project = None → sup_trace s = [] → settled s' → (∀ r, sup_ledger r s' = 0) →
  s_occupants (sup_core s') = occupants t project → s_left_at (sup_core s') = None →
  goes t (absorb wo s s' (rt_on_supervisors (<[project := s']>) t)).
Proof.
  intros E Htr Hset Hz Hn Hleft.
  set (u := rt_on_supervisors (<[project := s']>) t). destruct (absorb_told wo s s' u) as [Es Eo Ew Eb]. split.
  - by rewrite Eo.
  - intros p Hp. rewrite Es. cbn. destruct (decide (p = project)) as [->|Hne]; [by rewrite lookup_insert_eq|by rewrite lookup_insert_ne].
  - intros p s1. rewrite Es. cbn. rewrite lookup_insert_Some. intros [[<- <-]|[Hne Hp]]; [|by apply keeps_shells_refl]. by right.
  - intros [be bn bs]. apply Eb. by split.
  - intros Ht. unfold all_settled. rewrite Es. cbn. by apply map_Forall_insert_2.
  - intros r Ht. unfold ledger. rewrite Es, Ew, absorb_tally, (new_effects_app s s' (sup_trace s')), tally_rev by (by rewrite Htr, app_nil_r).
    unfold u. cbn [rt_out rt_event_waiters rt_supervisors rt_on_supervisors]. rewrite mtally_insert_new by done.
    pose proof (Hz r) as Hr. unfold sup_ledger in Hr. lia.
Qed.
End supervisors.

(** ** Operations *)
Section classes.
Context `{Outside}.

Class Goes (f : Rt → Rt) : Prop := goes_of t0 t : goes t0 t → goes t0 (f t).
Class GoesWith {A} (f : Rt → A * Rt) : Prop := goes_with t0 t : goes t0 t → goes t0 (f t).2.

Lemma goes_foldl {A} (f : Rt → A → Rt) l t0 t : (∀ t a, goes t0 t → goes t0 (f t a)) → goes t0 t → goes t0 (foldl f t l).
Proof. revert t. induction l as [|a l IH]; intros t Hf Ht; [done|]. apply IH; auto. Qed.

Lemma goes_foldl_with {A B} (f : B * Rt → A → B * Rt) l t0 (bt : B * Rt) :
  (∀ bt a, goes t0 bt.2 → goes t0 (f bt a).2) → goes t0 bt.2 → goes t0 (foldl f bt l).2.
Proof. revert bt. induction l as [|a l IH]; intros bt Hf Ht; [done|]. apply IH; auto. Qed.

Lemma aside_goes f : aside f → Goes f.
Proof. intros Hf t0 t Ht. eapply goes_trans; [done|]. by apply goes_aside. Qed.

Lemma bind_goes {A B} (m : Rt → result A ServiceErrorBody * Rt) (k : A → Rt → result B ServiceErrorBody * Rt) :
  GoesWith m → (∀ a, GoesWith (k a)) → GoesWith (bind m k).
Proof.
  intros Hm Hk t0 t Ht. unfold bind. pose proof (Hm t0 t Ht) as H1. destruct (m t) as [[a|e] u]; [by apply Hk|done].
Qed.

#[export] Instance ret_goes {A} (a : A) : GoesWith (ret a).
Proof. by intros t0 t Ht. Qed.
#[export] Instance refuse_goes {A} e : GoesWith (refuse (A := A) e).
Proof. by intros t0 t Ht. Qed.
#[export] Instance stored_goes {A} (r : result A rstr) : GoesWith (stored r).
Proof. by intros t0 t Ht. Qed.
#[export] Instance modify_goes f : Goes f → GoesWith (modify f).
Proof. intros Hf t0 t Ht. by apply Hf. Qed.

#[export] Instance on_sup_goes {A} wo project (f : Sup → A * Sup) : ServesWith f → GoesWith (on_sup wo project f).
Proof. intros Hf t0 t Ht. eapply goes_trans; [done|]. by apply goes_sup. Qed.
#[export] Instance act_goes {A} wo project (f : Sup → A * Sup) : ServesWith f → GoesWith (Runtime.act wo project f).
Proof.
  intros Hf t0 t Ht. unfold Runtime.act. pose proof (on_sup_goes wo project f Hf t0 t Ht) as H1. by destruct (on_sup wo project f t) as [[a|] u].
Qed.
#[export] Instance tell_sup_goes wo project f : Serves f → Goes (tell_sup wo project f).
Proof. intros Hf t0 t Ht. unfold tell_sup. apply on_sup_goes; [apply serves_alone, Hf|done]. Qed.
#[export] Instance each_sup_goes wo f : Serves f → Goes (each_sup wo f).
Proof. intros Hf t0 t Ht. unfold each_sup. apply goes_foldl; [|done]. intros u p Hu. by apply tell_sup_goes. Qed.

#[export] Instance event_goes d at_ : Goes (rt_on_event_log (λ l, (record_at is_format l d at_).2)).
Proof. intros t0 t Ht. eapply goes_trans; [done|]. apply goes_event. Qed.
#[export] Instance notice_goes n : Goes (rt_on_notices (λ l, (push is_format l n).1)).
Proof. intros t0 t Ht. eapply goes_trans; [done|]. apply goes_notice. Qed.
#[export] Instance queue_goes sh note : Goes (rt_on_shell_notes (Notes.queue sh note)).
Proof. intros t0 t Ht. eapply goes_trans; [done|]. apply goes_queue. Qed.
Lemma quiet_goes o : (∀ r, sends_to r o = false) → Goes (tell_out o).
Proof. intros Hq t0 t Ht. eapply goes_trans; [done|]. by apply goes_out. Qed.
End classes.

#[local] Hint Constants Opaque : typeclass_instances.

Ltac aside := apply aside_goes; split; intros ?; reflexivity.
Section fields.
Context `{Outside}.
#[export] Instance on_recorded_idle_goes f : Goes (rt_on_recorded_idle f).
Proof. aside. Qed.
#[export] Instance on_settings_goes f : Goes (rt_on_settings f).
Proof. aside. Qed.
#[export] Instance on_stack_revisions_goes f : Goes (rt_on_stack_revisions f).
Proof. aside. Qed.
#[export] Instance on_raised_edits_goes f : Goes (rt_on_raised_edits f).
Proof. aside. Qed.
#[export] Instance on_unregistered_goes f : Goes (rt_on_unregistered f).
Proof. aside. Qed.
#[export] Instance on_ports_deadline_goes f : Goes (rt_on_ports_deadline f).
Proof. aside. Qed.
#[export] Instance on_usage_deadline_goes f : Goes (rt_on_usage_deadline f).
Proof. aside. Qed.
#[export] Instance on_sweep_deadline_goes f : Goes (rt_on_sweep_deadline f).
Proof. aside. Qed.
#[export] Instance on_entering_goes f : Goes (rt_on_entering f).
Proof. aside. Qed.
#[export] Instance on_stopping_entries_goes f : Goes (rt_on_stopping_entries f).
Proof. aside. Qed.
#[export] Instance on_shell_environments_goes f : Goes (rt_on_shell_environments f).
Proof. aside. Qed.
End fields.

(** Follows an operation of the service down to the state it began in. *)
Ltac goes_step :=
  cbv beta zeta; cbn [fst snd];
  match goal with |- goes _ ?t => is_var t; assumption | |- goes _ (snd ?x) => is_var x; assumption | _ => idtac end;
  lazymatch goal with
  | |- GoesWith (bind _ _) => apply bind_goes; [|intros ?]
  | |- GoesWith (match ?e with _ => _ end) => destruct e
  | |- GoesWith (fun _ => _) => intros ? ? ?
  | |- GoesWith (modify _) => apply modify_goes
  | |- GoesWith _ => apply _
  | |- Goes (fun _ => _) => intros ? ? ?
  | |- Goes (tell_out _) => apply quiet_goes; done
  | |- Goes _ => apply _
  | |- goes _ (match ?e with pair _ _ => _ end) => rewrite (surjective_pairing e); cbv beta iota
  | |- goes _ (match ?e with pair _ _ => _ end).2 => rewrite (surjective_pairing e); cbv beta iota
  | |- goes _ (match ?e with _ => _ end) => destruct e
  | |- goes _ (match ?e with _ => _ end).2 => destruct e
  | |- goes _ (foldl _ _ _) => apply goes_foldl; [intros ? ? ?|]
  | |- goes _ (foldl _ _ _).2 => apply goes_foldl_with; [intros ? ? ?|]
  | |- goes _ (bind ?m ?k ?t).2 => apply (bind_goes m k); [|intros ?|]
  | |- goes _ (tell_out _ _) => apply quiet_goes; [done|]
  | |- goes _ (?f ?t).2 => apply (goes_with (f := f))
  | |- goes _ (?f ?t) => apply (goes_of (f := f))
  end.
Ltac going := repeat goes_step.

Section operations.
Context `{Outside}.

#[export] Instance record_draft_goes wo p n k d c : Goes (record_draft wo p n k d c).
Proof. unfold record_draft. going. Qed.
#[export] Instance push_notice_goes wo p n l m : Goes (push_notice wo p n l m).
Proof. unfold push_notice. going. Qed.
#[export] Instance raise_goes wo p l k m : Goes (raise wo p l k m).
Proof. unfold raise. intros ? ? ?. going. Qed.
#[export] Instance notify_goes wo p l m : Goes (notify wo p l m).
Proof. unfold notify. going. Qed.
#[export] Instance raise_edits_goes wo p : GoesWith (raise_edits wo p).
Proof. unfold raise_edits. going. Qed.

#[export] Instance share_held_ports_goes wo : Goes (share_held_ports wo).
Proof. unfold share_held_ports. going. Qed.

(** Reading the edits leaves the supervisors. *)
Lemma raise_edits_supervisors wo p t : rt_supervisors (raise_edits wo p t).2 = rt_supervisors t.
Proof.
  unfold raise_edits, bind, stored, modify. destruct (wo_edits wo p) as [edits|]; [|done]. cbn [fst snd].
  assert (∀ (l : list RecordedEdit) t, rt_supervisors (foldl (λ t edit,
    rt_on_event_log (λ l, (record_at is_format l {| draft_project := Some p; draft_process := re_process edit; draft_kind := Notice_;
      draft_detail := re_message edit; draft_cursor := None |} (re_at edit)).2) t) t l) = rt_supervisors t) as Hf.
  { intros l. induction l as [|e l IH]; intros u; [done|]. cbn [foldl]. by rewrite IH. }
  destruct (rt_raised_edits t !! p) as [raised|]; cbn [ret]; [|destruct (wo_raised_through wo p) as [raised|]; [|done]];
    destruct (last edits); [destruct (bool_decide _)|idtac|destruct (bool_decide _)|idtac]; cbn; apply (Hf _ t).
Qed.

(** A project loads at most once, owing nothing, its shells counted. *)
Lemma load_goes wo project records t : rt_supervisors t !! project = None → goes t (load wo project records t).2.
Proof.
  intros E. unfold load, bind at 1 2. cbn [stored].
  destruct (wo_revision wo project) as [revision|]; [|apply goes_refl]. destruct (wo_stack wo project) as [found|]; [|apply goes_refl].
  set (m := match found with Some stack => _ | None => _ end).
  assert (∀ t, goes t (m t).2 ∧ rt_supervisors (m t).2 = rt_supervisors t) as Hm.
  { intros u. unfold m. destruct found; [(split; [apply goes_refl|done])|]. destruct (bool_decide _); [(split; [apply goes_refl|done])|].
    destruct (free_name _ _ _ _ _); [|(split; [apply goes_refl|done])]. split; [|done]. cbn. apply on_unregistered_goes, goes_refl. }
  unfold bind at 1. destruct (Hm t) as [H1 E1]. destruct (m t) as [[stack|] t1]; [|done]. cbn [fst snd] in H1, E1.
  unfold bind at 1. cbn [stored]. destruct (wo_ended_runs wo project) as [ended|]; [|done].
  unfold bind at 1. pose proof (raise_edits_goes wo project t t1 H1) as H2. pose proof (raise_edits_supervisors wo project t1) as E2.
  destruct (raise_edits wo project t1) as [[[]|] t2]; [|done]. cbn [fst snd modify] in *.
  apply on_stack_revisions_goes. eapply goes_trans; [exact H2|].
  set (fresh := SupState.new _ _ _ _ _ _). set (s1 := Lifecycle.restore_ends nfc ended fresh).
  set (s2 := Lifecycle.set_shells (occupants t2 project) s1).
  assert (served fresh s1) as S1 by apply moves_served, restore_ends_moves, moves_refl.
  assert (settled fresh) as Hk by (split; [done|apply tidy_new]).
  assert (served s2 (foldl (λ s record, Lifecycle.adopt (wo_env wo) nfc record s) s2 (filter (λ r, hr_project r = project) records))) as S2.
  { apply moves_served, moves_foldl; [|apply moves_refl]. intros s r Hs. by apply adopt_moves. }
  pose proof (served_settled _ _ _ S1 Hk) as Hk1. assert (settled s2) as Hk2 by exact Hk1.
  apply goes_load.
  - rewrite E2, E1. exact E.
  - done.
  - by apply (served_settled _ _ _ S2).
  - intros r. rewrite (served_ledger _ _ _ S2 r Hk2). change (sup_ledger r s2) with (sup_ledger r s1). by rewrite (served_ledger _ _ _ S1 r Hk).
  - by rewrite (served_occupants _ _ _ S2).
  - destruct (served_left_at _ _ _ S2) as [->|]; [|done]. cbn. by destruct (served_left_at _ _ _ S1) as [->|].
Qed.

#[export] Instance supervisor_goes wo project : GoesWith (supervisor wo project).
Proof.
  unfold supervisor. apply bind_goes; [|intros _ t0 t Ht; by destruct (is_some _)].
  intros t0 t Ht. destruct (rt_supervisors t !! project) eqn:E; cbn [is_some]; [done|]. eapply goes_trans; [done|]. by apply load_goes.
Qed.

#[export] Instance process_goes wo project n : GoesWith (process wo project n).
Proof. unfold process. going. Qed.
#[export] Instance stack_changed_goes wo project : GoesWith (stack_changed wo project).
Proof. unfold stack_changed. going. Qed.
#[export] Instance refresh_stack_goes wo project : GoesWith (refresh_stack wo project).
Proof. unfold refresh_stack. going. Qed.
#[export] Instance each_project_goes f projects : (∀ p, GoesWith (f p)) → GoesWith (each_project f projects).
Proof. intros Hf. induction projects as [|p projects IH]; cbn [each_project]; going. Qed.
#[export] Instance settings_changed_goes wo : GoesWith (settings_changed wo).
Proof. unfold settings_changed. going. Qed.
#[export] Instance hold_up_goes wo project : Goes (hold_up wo project).
Proof. unfold hold_up. going. Qed.
#[export] Instance client_acts_on_goes wo project : Goes (client_acts_on wo project).
Proof. unfold client_acts_on. going. Qed.
#[export] Instance settle_entering_goes project pane gen : GoesWith (settle_entering project pane gen).
Proof. unfold settle_entering. going. Qed.
#[export] Instance sweep_shells_goes wo : Goes (sweep_shells wo).
Proof. unfold sweep_shells. going. Qed.
#[export] Instance sample_ports_goes wo : Goes (sample_ports wo).
Proof. unfold sample_ports. going. Qed.
#[export] Instance statuses_goes wo : GoesWith (statuses wo).
Proof. unfold statuses. going. Qed.
#[export] Instance record_idle_stops_goes wo : Goes (record_idle_stops wo).
Proof. unfold record_idle_stops. going. Qed.
#[export] Instance settle_read_goes wo screen read : GoesWith (settle_read wo screen read).
Proof. unfold settle_read. going. Qed.
#[export] Instance tell_event_goes wo project e : Goes (tell_event wo project e).
Proof. unfold tell_event. going. Qed.
#[export] Instance release_unrecorded_goes r : Goes (release_unrecorded r).
Proof. unfold release_unrecorded. going. Qed.
#[export] Instance spawned_goes wo project pane gen r : Goes (spawned wo project pane gen r).
Proof. unfold spawned. going. Qed.
#[export] Instance adopted_goes wo project pane gen record r : Goes (adopted wo project pane gen record r).
Proof. unfold adopted. going. Qed.
#[export] Instance launch_blocked_goes wo project pane gen port occupant : Goes (launch_blocked wo project pane gen port occupant).
Proof. unfold launch_blocked. going. Qed.
#[export] Instance shutdown_goes wo : Goes (shutdown wo).
Proof. unfold shutdown. going. Qed.
#[export] Instance sample_usage_goes wo : Goes (sample_usage wo).
Proof. unfold sample_usage. going. Qed.
#[export] Instance enter_sup_moves wo environment : MovesWith (enter_sup wo environment).
Proof. unfold enter_sup. moves. Qed.
#[export] Instance enter_goes wo project shell environment : GoesWith (enter wo project shell environment).
Proof. unfold enter. going. Qed.

#[export] Instance enter_again_goes_at wo pe : Goes (λ t, enter_again wo t pe).
Proof. unfold enter_again. going. Qed.
#[export] Instance enter_stopped_goes wo : Goes (enter_stopped wo).
Proof. unfold enter_stopped. intros ? ? ?. going. by apply (enter_again_goes_at wo a). Qed.

#[export] Instance idle_stopped_serves wo : ServesWith (idle_stopped wo).
Proof.
  intros s. unfold idle_stopped. pose proof (idle_stop_serves (wo_env wo) (wo_now wo) s) as Hs.
  by destruct (idle_stop_if_due (wo_env wo) (wo_now wo) s) as [[outcome|] s'].
Qed.
#[export] Instance stop_idle_goes wo : Goes (stop_idle wo).
Proof. unfold stop_idle. going. Qed.
#[export] Instance tell_waits_goes wo project f :
  Serves (on_waits compile_error is_match show_duration replay_matching f) → Goes (tell_waits wo project f).
Proof. intros Hf. unfold tell_waits. going. Qed.

End operations.

(** ** Requests that wait *)
Section asking.
Context `{Outside}.

Definition once (reply : N) (r : N) : nat := Nat.b2n (reply =? r)%N.

(** A wait asked of a supervisor: one more answer owed when it is accepted, and
    none when it is refused. *)
Definition asking (reply : N) (f : Sup → result unit WaitRefused * Sup) : Prop :=
  ∀ s, match (f s).1 with Ok _ => asks_for (once reply) s (f s).2 | Err _ => served s (f s).2 end.

Lemma begin_wait_asks p after reply s :
  asks_for (once reply) s (on_waits compile_error is_match show_duration replay_matching
                             (λ c, begin_wait is_match c (read_now is_match c) p after reply) s).
Proof.
  apply asks_on_waits.
  - intros r c w _. apply begin_wait_balance, read_keeps.
  - intros c w. apply begin_wait_tidy, read_tidy.
Qed.

Lemma wait_for_asking n spec reply :
  asking reply (λ s, match wait_for compile_error is_match show_duration replay_matching nfc n spec reply s with
                     | Ok s => (Ok tt, s)
                     | Err refused => (Err refused, s)
                     end).
Proof.
  intros s. unfold wait_for. destruct (prepare_wait _ _ _ _ _ _ _ _) as [p|e]; cbn [fst snd]; [apply begin_wait_asks|apply served_refl].
Qed.

Lemma up_waiting_asking env environment spec reply :
  asking reply (up_waiting compile_error is_match show_duration replay_matching env nfc environment spec reply).
Proof.
  intros s. unfold up_waiting. pose proof (autostart_panes_moves env s s (moves_refl s)) as Ha.
  destruct (autostart_panes env s) as [panes s1]. cbn [snd] in Ha. destruct (prepare_all _ _ _ _ _ _ _ _) as [prepared|e]; [|by apply moves_served].
  pose proof (up_moves env environment s s1 Ha) as Hu. destruct (up env environment s1) as [batch s2]. cbn [fst snd] in Hu |- *.
  eapply served_before; [by apply moves_served|]. apply asks_on_waits.
  - intros r c w. apply begin_group_balance.
  - intros c w. apply begin_group_tidy.
Qed.

Lemma control_waiting_asking wo n action environment spec reply : asking reply (control_waiting wo n action environment spec reply).
Proof.
  intros s. unfold control_waiting. destruct (prepare_wait _ _ _ _ _ _ _ _) as [p|e]; [|apply served_refl]. cbv zeta.
  match goal with |- context [match ?e with pair _ _ => _ end] => destruct e as [q fresh] end. cbn [fst snd].
  eapply served_before; [|apply begin_wait_asks]. unfold control. eapply served_trans; [|apply handle_serves].
  destruct (brings_up action); [apply hold_up_serves|apply served_refl].
Qed.
End asking.
