(* ===== verification/ServiceSafe.v ===== *)
(** * The service keeps its books

    Over whatever a service takes over and whatever events it then handles: the
    shells of each project are counted as reports put them there, an idle stop
    is armed only where no shell is, rings and queues stay within their bounds,
    a project is let go of only once it runs nothing, and every request is
    answered once. *)
From S2P Require Import Prelude RustText RustPath Occupancy Values Process Config StackStore StackSync EventLog Books Tap WaitData SupState Lifecycle SupMoves Waits ServiceParts Runtime WaitsOnce Served Serving.

Section safe.
Context `{Outside}.

(** ** What is conserved across changes to the shell table *)
Record conserves (n : N → nat) (t t' : Rt) : Prop := {
  cons_loaded project : is_Some (rt_supervisors t !! project) → is_Some (rt_supervisors t' !! project);
  cons_bounded : bounded t → bounded t';
  cons_settled : all_settled t → all_settled t';
  cons_ledger r : all_settled t → ledger r t' = ledger r t + n r;
}.

Lemma goes_conserves n t t' : goes_by n t t' → conserves n t t'.
Proof. intros [_ d _ b k l]. by split. Qed.

Lemma conserves_refl t : conserves (λ _, 0) t t.
Proof. apply goes_conserves, goes_refl. Qed.

Lemma conserves_trans n1 n2 t1 t2 t3 : conserves n1 t1 t2 → conserves n2 t2 t3 → conserves (λ r, n1 r + n2 r) t1 t3.
Proof. intros [d1 b1 k1 l1] [d2 b2 k2 l2]. split; auto. intros r Hk. rewrite l2, l1 by auto. lia. Qed.

Lemma conserves_ext n n' t t' : (∀ r, n r = n' r) → conserves n t t' → conserves n' t t'.
Proof. intros Hn [d b k l]. split; auto. intros r Hk. by rewrite <-Hn, l. Qed.

Lemma conserves_then n t1 t2 t3 : conserves n t1 t2 → conserves (λ _, 0) t2 t3 → conserves n t1 t3.
Proof. intros H1 H2. apply (conserves_ext (λ r, n r + 0)); [lia|]. by eapply conserves_trans. Qed.

Lemma conserves_after n t1 t2 t3 : conserves (λ _, 0) t1 t2 → conserves n t2 t3 → conserves n t1 t3.
Proof. apply conserves_trans. Qed.

Lemma conserves_foldl {A} (f : Rt → A → Rt) l t : (∀ t a, conserves (λ _, 0) t (f t a)) → conserves (λ _, 0) t (foldl f t l).
Proof. intros Hf. revert t. induction l as [|a l IH]; intros t; [apply conserves_refl|]. eapply conserves_after; [apply Hf|apply IH]. Qed.

(** ** One supervisor told *)
Lemma tell_sup_supervisors wo project f t :
  rt_supervisors (tell_sup wo project f t) = alter (λ s, f (upd (on_now (λ _, wo_now wo)) s)) project (rt_supervisors t).
Proof.
  unfold tell_sup, on_sup. destruct (rt_supervisors t !! project) as [s|] eqn:E; cbn [snd fst].
  - rewrite (told_supervisors _ _ (absorb_told _ _ _ _)). cbn. rewrite <-(insert_id _ _ _ E) at 2. by rewrite alter_insert_eq.
  - by rewrite alter_id by (intros ?; congruence).
Qed.

Lemma tell_sup_occupancy wo project f t : rt_occupancy (tell_sup wo project f t) = rt_occupancy t.
Proof.
  unfold tell_sup, on_sup. destruct (rt_supervisors t !! project) as [s|]; [|done]. cbn [snd fst].
  by rewrite (told_occupancy _ _ (absorb_told _ _ _ _)).
Qed.

(** A change to a supervisor's own count or idle stop tells nothing. *)
Lemma tell_quiet_conserves wo project f t :
  (∀ s, sup_watch (f s) = sup_watch s ∧ sup_trace (f s) = sup_trace s) → conserves (λ _, 0) t (tell_sup wo project f t).
Proof.
  intros Hf. unfold tell_sup, on_sup. destruct (rt_supervisors t !! project) as [s0|] eqn:E; [|apply conserves_refl]. cbn [snd fst].
  set (s := upd (on_now (λ _, wo_now wo)) s0). destruct (Hf s) as [Hw Htr]. set (s' := f s) in *. clearbody s'.
  set (u := rt_on_supervisors (<[project := s']>) t). destruct (absorb_told wo s s' u) as [Es Eo Ew Eb]. split.
  - intros p Hp. rewrite Es. cbn. destruct (decide (p = project)) as [->|Hn]; [by rewrite lookup_insert_eq|by rewrite lookup_insert_ne].
  - intros [be bn bs]. apply Eb. by split.
  - intros Ht. unfold all_settled. rewrite Es. cbn. apply map_Forall_insert_2; [|done]. unfold settled. rewrite Hw. apply (Ht project s0), E.
  - intros r Ht. unfold u. apply (sup_step_ledger wo project s0 s s' t r 0); [done|done|by exists []; rewrite Htr|].
    unfold sup_ledger. rewrite Hw, Htr. lia.
Qed.
(** ** Shells *)

(** A supervisor counts the shells the table has in its project, and arms its
    idle stop only when there is none. *)
Definition counts (t : Rt) (project : path) (s : Sup) : Prop :=
  s_occupants (sup_core s) = occupants t project ∧
  (is_Some (s_left_at (sup_core s)) → Occupancy.occupants (rt_occupancy t) project = 0).
Definition shells_counted (t : Rt) : Prop := map_Forall (counts t) (rt_supervisors t).

Lemma goes_counted n t t' : goes_by n t t' → shells_counted t → shells_counted t'.
Proof.
  intros Hg Hc p s' Hs'. unfold counts, occupants. rewrite (goes_occupancy _ _ _ Hg).
  destruct (goes_shells _ _ _ Hg p s' Hs') as [(s & Hs & Ho & Hl)|[Ho Hl]].
  - destruct (Hc p s Hs) as [Hn Ha]. split; [by rewrite Ho, Hn|]. intros Hsome. apply Ha. destruct Hl as [E|E]; rewrite E in Hsome; [done|by destruct Hsome].
  - split; [by rewrite Ho|]. rewrite Hl. by intros [? ?].
Qed.

Lemma count_all_conserves wo l t :
  conserves (λ _, 0) t (foldl (λ t project, tell_sup wo project (Lifecycle.set_shells (occupants t project)) t) t l).
Proof. apply conserves_foldl. intros u p. by apply tell_quiet_conserves. Qed.

Lemma change_out_conserves wo now t change : conserves (λ _, 0) t (change_out wo now t change).
Proof.
  destruct change; cbn [change_out].
  - by apply tell_quiet_conserves.
  - eapply conserves_after; [|by apply tell_quiet_conserves]. apply goes_conserves, on_stopping_entries_goes, goes_refl.
Qed.

Lemma occupancy_changed_conserves wo changes t : conserves (λ _, 0) t (occupancy_changed wo changes t).
Proof. eapply conserves_after; [apply count_all_conserves|]. apply conserves_foldl. apply change_out_conserves. Qed.

(** Counting every project's shells. *)
Lemma count_all_counted wo l t :
  let t' := foldl (λ t project, tell_sup wo project (Lifecycle.set_shells (occupants t project)) t) t l in
  rt_occupancy t' = rt_occupancy t ∧
  ∀ p s', rt_supervisors t' !! p = Some s' → ∃ s, rt_supervisors t !! p = Some s ∧ s_left_at (sup_core s') = s_left_at (sup_core s) ∧
    (p ∈ l ∨ s_occupants (sup_core s) = occupants t p → s_occupants (sup_core s') = occupants t p).
Proof.
  revert t. induction l as [|q l IH]; intros t; cbn [foldl].
  - split; [done|]. intros p s' Hs'. exists s'. split_and!; [done..|]. intros [?%not_elem_of_nil|?]; done.
  - destruct (IH (tell_sup wo q (Lifecycle.set_shells (occupants t q)) t)) as [Ho Hs]. cbv zeta in Ho, Hs |- *.
    rewrite tell_sup_occupancy in Ho. split; [done|]. intros p s' Hs'. destruct (Hs p s' Hs') as (s1 & E1 & El & Hn).
    rewrite tell_sup_supervisors in E1. unfold occupants in Hn. rewrite tell_sup_occupancy in Hn. destruct (decide (p = q)) as [->|Hne].
    + rewrite lookup_alter_eq in E1. destruct (rt_supervisors t !! q) as [s|]; [|done]. injection E1 as <-. exists s.
      split_and!; [done|exact El|]. intros _. apply Hn. by right.
    + rewrite lookup_alter_ne in E1 by done. exists s1. split_and!; [done..|]. intros [[?|?]%elem_of_cons|?]; [done|apply Hn; by left|apply Hn; by right].
Qed.

(** Each change armed or held off. *)
Lemma changes_counted wo now changes t :
  (∀ p, Occupancy.Left p ∈ changes → Occupancy.occupants (rt_occupancy t) p = 0) →
  map_Forall (λ p s, s_occupants (sup_core s) = occupants t p ∧
    (is_Some (s_left_at (sup_core s)) → Occupancy.occupants (rt_occupancy t) p = 0 ∨ Occupancy.Entered p ∈ changes)) (rt_supervisors t) →
  rt_occupancy (foldl (change_out wo now) t changes) = rt_occupancy t ∧ shells_counted (foldl (change_out wo now) t changes).
Proof.
  revert t. induction changes as [|c changes IH]; intros t HL Hs; cbn [foldl].
  - split; [done|]. intros p s E. destruct (Hs p s E) as [Hn Ha]. split; [done|]. intros Hl. by destruct (Ha Hl) as [|?%not_elem_of_nil].
  - assert (rt_occupancy (change_out wo now t c) = rt_occupancy t) as Eo by (destruct c; cbn [change_out]; by rewrite tell_sup_occupancy).
    rewrite <-Eo. apply IH; unfold occupants; rewrite Eo; [intros p Hp; apply HL; by right|].
    intros p s' E. destruct c as [root|root]; cbn [change_out] in E; rewrite tell_sup_supervisors in E; cbn in E;
      (destruct (decide (p = root)) as [->|Hne];
        [rewrite lookup_alter_eq in E; destruct (rt_supervisors t !! root) as [s|] eqn:E0; [|done]; injection E as <-;
         destruct (Hs root s E0) as [Hn Ha]; split; [exact Hn|]
        |rewrite lookup_alter_ne in E by done; destruct (Hs p s' E) as [Hn Ha]; split; [exact Hn|];
         intros Hl; destruct (Ha Hl) as [?|[?|?]%elem_of_cons]; [by left|congruence|by right]]).
    + by intros [? ?].
    + intros _. left. apply HL. by left.
Qed.

Lemma occupancy_changed_counted wo changes t :
  (∀ p, Occupancy.Left p ∈ changes → Occupancy.occupants (rt_occupancy t) p = 0) →
  map_Forall (λ p s, is_Some (s_left_at (sup_core s)) → Occupancy.occupants (rt_occupancy t) p = 0 ∨ Occupancy.Entered p ∈ changes) (rt_supervisors t) →
  rt_occupancy (occupancy_changed wo changes t) = rt_occupancy t ∧ shells_counted (occupancy_changed wo changes t).
Proof.
  intros HL Hs. unfold occupancy_changed. destruct (count_all_counted wo (loaded t) t) as [Ho Hc]. cbv zeta in *.
  set (t1 := foldl _ t (loaded t)) in *. rewrite <-Ho. apply changes_counted; unfold occupants; rewrite Ho; [done|].
  intros p s' E. destruct (Hc p s' E) as (s & E0 & El & Hn). split.
  - apply Hn. left. apply list_elem_of_fmap. exists (p, s). split; [done|]. by apply elem_of_map_to_list.
  - rewrite El. by apply (Hs p s).
Qed.
(** ** The invariant *)
Record sound (t : Rt) : Prop := {
  sound_table : occupancy_wf (rt_occupancy t);
  sound_len : len (rt_occupancy t) ≤ MAX_SHELLS;
  sound_counted : shells_counted t;
  sound_bounded : bounded t;
  sound_settled : all_settled t;
}.

Lemma goes_sound n t t' : goes_by n t t' → sound t → sound t'.
Proof.
  intros Hg [Hw Hl Hc Hb Hk]. split.
  - by rewrite (goes_occupancy _ _ _ Hg).
  - by rewrite (goes_occupancy _ _ _ Hg).
  - by apply (goes_counted _ _ _ Hg).
  - by apply (goes_bounded _ _ _ Hg).
  - by apply (goes_settled _ _ _ Hg).
Qed.

(** A change to the table, then told. *)
Lemma table_conserves o t : conserves (λ _, 0) t (rt_on_occupancy (λ _, o) t).
Proof. split; [done| |done|]; [intros [be bn bs]; by split|]. intros r _. unfold ledger. cbn. lia. Qed.

Lemma table_sound wo o changes t :
  occupancy_wf o → len o ≤ MAX_SHELLS → bounded t → all_settled t →
  (∀ p, Occupancy.Left p ∈ changes → Occupancy.occupants o p = 0) →
  map_Forall (λ p s, is_Some (s_left_at (sup_core s)) → Occupancy.occupants o p = 0 ∨ Occupancy.Entered p ∈ changes) (rt_supervisors t) →
  sound (occupancy_changed wo changes (rt_on_occupancy (λ _, o) t)).
Proof.
  intros Hw Hl Hb Hk HL Hs. set (u := rt_on_occupancy (λ _, o) t).
  destruct (occupancy_changed_counted wo changes u HL Hs) as [Eo Hc].
  pose proof (conserves_after _ _ _ _ (table_conserves o t) (occupancy_changed_conserves wo changes u)) as [_ b k _].
  split; [by rewrite Eo|by rewrite Eo|done|auto..].
Qed.

Lemma armed_empty t p s : shells_counted t → rt_supervisors t !! p = Some s → is_Some (s_left_at (sup_core s)) → Occupancy.occupants (rt_occupancy t) p = 0.
Proof. intros Hc Hp. apply (Hc p s Hp). Qed.

Lemma report_len o r : knows o (shell r) = true ∨ len o < MAX_SHELLS → len o ≤ MAX_SHELLS → len (Occupancy.report o r).1 ≤ MAX_SHELLS.
Proof.
  intros Hk Hl. unfold Occupancy.report. destruct (is_newer o r); [|done]. cbn [negb]. rewrite put_counts. unfold len in *. cbn.
  unfold knows in Hk. rewrite bool_decide_eq_true in Hk. destruct (Occupancy.shells o !! shell r) as [seen|] eqn:E.
  - by rewrite map_size_insert_Some by eauto.
  - rewrite map_size_insert_None by done. destruct Hk as [[? ?]|]; [done|lia].
Qed.

(** Entering each project a report entered. *)
Lemma entered_goes wo record sh environment changes notes t :
  goes t (foldl (λ (nt : list ShellNote * Rt) change, match change with
      | Occupancy.Entered root =>
        if bool_decide (project record = Some root)
        then let '(more, t) := enter wo root sh environment nt.2 in (nt.1 ++ more, t)
        else nt
      | Occupancy.Left _ => nt
      end) (notes, t) changes).2.
Proof.
  apply goes_foldl_with; [|apply goes_refl]. intros nt [root|root] Hn; [|done]. destruct (bool_decide _); [|done].
  rewrite (surjective_pairing (enter _ _ _ _ _)). by apply enter_goes.
Qed.

(** What is left of a report once the table took it. *)
Lemma report_rest_goes wo record environment fresh changes (t : Rt) :
  goes t (let '(notes, q) := Notes.take (shell record) (rt_shell_notes t) in
    let t := rt_on_shell_notes (λ _, q) t in
    match environment with
    | None => ret notes t
    | Some environment =>
      let t := if (fresh : bool) then rt_on_shell_environments (<[shell record := environment]>) t else t in
      let '(notes, t) := foldl (λ (nt : list ShellNote * Rt) change, match change with
        | Occupancy.Entered root =>
          if bool_decide (project record = Some root)
          then let '(more, t) := enter wo root (shell record) environment nt.2 in (nt.1 ++ more, t)
          else nt
        | Occupancy.Left _ => nt
        end) (notes, t) changes in ret notes t
    end).2.
Proof.
  cbn [Notes.take]. assert (goes t (rt_on_shell_notes (λ _, delete (shell record) (rt_shell_notes t)) t)) as Hq.
  { apply (goes_forget_notes (shell record) t). }
  destruct environment as [environment|]; [|exact Hq]. cbv zeta. rewrite (surjective_pairing (foldl _ _ changes)). cbn [ret snd].
  eapply goes_trans; [exact Hq|]. eapply goes_trans; [|apply entered_goes]. destruct fresh; [|apply goes_refl].
  apply on_shell_environments_goes, goes_refl.
Qed.
Lemma shell_report_conserves wo record environment t : conserves (λ _, 0) t (shell_report wo record environment t).2.
Proof.
  unfold shell_report. destruct (negb (wo_is_live wo _)); [apply conserves_refl|]. destruct (negb _ && _); [apply conserves_refl|].
  cbv zeta. rewrite (surjective_pairing (Occupancy.report _ _)). cbv beta iota.
  eapply conserves_after; [|apply goes_conserves, report_rest_goes].
  eapply conserves_after; [apply table_conserves|apply occupancy_changed_conserves].
Qed.

Lemma shell_report_sound wo record environment t : sound t → sound (shell_report wo record environment t).2.
Proof.
  intros Hs. unfold shell_report. destruct (negb (wo_is_live wo _)); [done|]. destruct (negb (knows _ _) && _) eqn:Hfull; [done|].
  cbv zeta. rewrite (surjective_pairing (Occupancy.report _ _)). cbv beta iota.
  eapply goes_sound; [apply report_rest_goes|]. destruct Hs as [Hw Hl Hc Hb Hk]. apply table_sound; [by apply report_wf| |done..| |].
  - apply report_len; [|done]. apply andb_false_iff in Hfull as [Hf|Hf]; [left; by apply negb_false_iff|right; by apply Nat.leb_gt].
  - intros p. by apply report_effect.
  - intros p s Hp Hsome. destruct (decide (Occupancy.Entered p ∈ (Occupancy.report (rt_occupancy t) record).2)); [by right|left].
    apply report_effect; [done|by apply (armed_empty t p s)|done].
Qed.

(** Shells that ended are forgotten one by one, and then told of. *)
Definition forget_shell (ct : list OccupancyChange * Rt) (sh : ShellId) : list OccupancyChange * Rt :=
  let t := rt_on_shell_environments (delete sh) (rt_on_entering (Entering.forget_shell sh) (rt_on_shell_notes (Notes.forget sh) ct.2)) in
  let '(o, changes) := Occupancy.remove (rt_occupancy t) sh in
  (ct.1 ++ changes, rt_on_occupancy (λ _, o) t).

Lemma forget_shell_conserves ct sh : conserves (λ _, 0) ct.2 (forget_shell ct sh).2.
Proof.
  unfold forget_shell. cbv zeta. rewrite (surjective_pairing (Occupancy.remove _ _)). cbv beta iota. cbn [snd].
  eapply conserves_after; [|apply table_conserves]. apply goes_conserves, on_shell_environments_goes, on_entering_goes, goes_forget_notes.
Qed.

Lemma forget_shells_conserves gone ct : conserves (λ _, 0) ct.2 (foldl forget_shell ct gone).2.
Proof.
  revert ct. induction gone as [|sh gone IH]; intros ct; [apply conserves_refl|]. eapply conserves_after; [apply forget_shell_conserves|apply IH].
Qed.

Lemma remove_len o sh : len (Occupancy.remove o sh).1 ≤ len o.
Proof. rewrite remove_counts. unfold len. cbn. rewrite map_size_delete. destruct (Occupancy.shells o !! sh); cbn; lia. Qed.

(** The table after forgetting shells: fewer of them, each project left empty
    and each empty one still empty. *)
Lemma forget_shells_table gone ct :
  occupancy_wf (rt_occupancy ct.2) → (∀ p, Occupancy.Left p ∈ ct.1 → Occupancy.occupants (rt_occupancy ct.2) p = 0) →
  let ct' := foldl forget_shell ct gone in
  occupancy_wf (rt_occupancy ct'.2) ∧ len (rt_occupancy ct'.2) ≤ len (rt_occupancy ct.2) ∧
  (∀ p, Occupancy.Left p ∈ ct'.1 → Occupancy.occupants (rt_occupancy ct'.2) p = 0) ∧
  (∀ p, Occupancy.occupants (rt_occupancy ct.2) p = 0 → Occupancy.occupants (rt_occupancy ct'.2) p = 0) ∧
  rt_supervisors ct'.2 = rt_supervisors ct.2.
Proof.
  revert ct. induction gone as [|sh gone IH]; intros ct Hw HL; cbn [foldl]; [done|]. cbv zeta.
  pose proof (remove_effect (rt_occupancy ct.2) sh) as He. pose proof (remove_len (rt_occupancy ct.2) sh) as Hlen.
  pose proof (remove_wf (rt_occupancy ct.2) sh Hw) as Hw'.
  assert (∃ changes, (forget_shell ct sh).1 = ct.1 ++ changes ∧ changes = (Occupancy.remove (rt_occupancy ct.2) sh).2
            ∧ rt_occupancy (forget_shell ct sh).2 = (Occupancy.remove (rt_occupancy ct.2) sh).1
            ∧ rt_supervisors (forget_shell ct sh).2 = rt_supervisors ct.2) as (changes & E1 & -> & Eo & Es).
  { unfold forget_shell. cbv zeta. cbn [rt_occupancy rt_on_shell_environments rt_on_entering rt_on_shell_notes].
    destruct (Occupancy.remove (rt_occupancy ct.2) sh) as [o c]. by exists c. }
  destruct (IH (forget_shell ct sh)) as (? & ? & ? & Hz & Es').
  - by rewrite Eo.
  - intros p. rewrite E1, Eo. destruct (He p Hw) as (H1 & H2 & _). intros [Hp|Hp]%elem_of_app; auto.
  - rewrite Eo in *. rewrite Es in Es'. split_and!; [done|lia|done| |done]. intros p Hp. apply Hz. by apply (He p Hw).
Qed.

Lemma shells_gone_sound wo gone t : sound t → sound (shells_gone wo gone t).
Proof.
  intros [Hw Hl Hc Hb Hk]. unfold shells_gone. fold forget_shell. cbv zeta.
  destruct (forget_shells_table gone ([], t)) as (Hw' & Hl' & HL & Hz & Es); [done|by intros p ?%not_elem_of_nil|]. cbn [fst snd] in *.
  pose proof (forget_shells_conserves gone ([], t)) as [_ b k _]. cbn [snd] in *.
  change (foldl _ ([], t) gone) with (foldl forget_shell ([], t) gone).
  destruct (foldl forget_shell ([], t) gone) as [changes u]. cbn [fst snd] in *.
  replace u with (rt_on_occupancy (λ _, rt_occupancy u) u) by by destruct u. apply table_sound; [done|lia|auto..|].
  rewrite Es. intros p s Hp Hsome. left. apply Hz. by apply (armed_empty t p s).
Qed.

Lemma shells_gone_conserves wo gone t : conserves (λ _, 0) t (shells_gone wo gone t).
Proof.
  unfold shells_gone. cbv zeta. change (foldl _ ([], t) gone) with (foldl forget_shell ([], t) gone).
  pose proof (forget_shells_conserves gone ([], t)) as Hc. destruct (foldl forget_shell ([], t) gone) as [changes u]. cbn [snd] in Hc.
  eapply conserves_after; [exact Hc|apply occupancy_changed_conserves].
Qed.
(** ** Clients waiting for events *)
Lemma answered_ledger (pages : EventWaiter → ServiceResponse) answered t :
  let t' := foldl (λ u w, reply_with (ew_reply w) (pages w) u) t answered in
  (∀ r, tally (sends_to r) (rt_out t') = tally (sends_to r) (rt_out t) + tally (λ w, (ew_reply w =? r)%N) answered) ∧
  rt_supervisors t' = rt_supervisors t ∧ rt_occupancy t' = rt_occupancy t ∧ rt_event_waiters t' = rt_event_waiters t ∧ (bounded t → bounded t').
Proof.
  revert t. induction answered as [|w l IH]; intros t; cbv zeta; cbn [foldl tally]; [by split_and!; [intros; lia|..]|].
  destruct (IH (reply_with (ew_reply w) (pages w) t)) as (Hout & Es & Eo & Ew & Hb). cbv zeta in *.
  split_and!; [|done..|].
  - intros r. rewrite Hout. cbn. lia.
  - intros [be bn bs]. apply Hb. by split.
Qed.

#[export] Instance answer_event_waiters_goes wo : Goes (answer_event_waiters wo).
Proof.
  intros t0 t Ht. eapply goes_trans; [exact Ht|]. unfold answer_event_waiters. cbv zeta.
  set (kept := filter _ (rt_event_waiters t)). set (answered := filter _ (rt_event_waiters t)).
  destruct (answered_ledger (λ w, SEvents (waiter_page t w)) answered (rt_on_event_waiters (λ _, kept) t)) as (Hout & Es & Eo & Ew & Hb). cbv zeta in *.
  set (t' := foldl _ _ answered) in *. split.
  - done.
  - by rewrite Es.
  - intros p s'. rewrite Es. cbn [rt_supervisors rt_on_event_waiters]. apply keeps_shells_refl.
  - intros [be bn bs]. apply Hb. by split.
  - unfold all_settled. by rewrite Es.
  - intros r _. unfold ledger. rewrite Es, Ew, Hout. cbn [rt_out rt_event_waiters rt_supervisors rt_on_event_waiters].
    pose proof (tally_split (λ w, (ew_reply w =? r)%N) (keeps_waiting wo t) (rt_event_waiters t)). unfold answered, kept. lia.
Qed.

(** ** Letting go of a project *)
Lemma let_go_shells t p : shells_counted t → shells_counted (let_go t p).
Proof. intros Hc q s. cbn. intros [_ Hq]%lookup_delete_Some. by apply (Hc q s). Qed.

Lemma let_go_sound t p : sound t → sound (let_go t p).
Proof.
  intros [Hw Hl Hc [be bn bs] Hk]. split; [done|done|by apply let_go_shells|by split|]. by apply map_Forall_delete.
Qed.

(** What a project let go of still owed. *)
Lemma let_go_ledger r t p :
  ledger r (let_go t p) + from_option (λ s : Sup, owed r (sup_watch s)) 0 (rt_supervisors t !! p) = ledger r t.
Proof. unfold ledger. cbn. pose proof (mtally_delete (λ s : Sup, owed r (sup_watch s)) p (rt_supervisors t)). lia. Qed.

Lemma let_go_all_sound l t : sound t → sound (foldl let_go t l).
Proof. revert t. induction l as [|p l IH]; intros t Ht; [done|]. by apply IH, let_go_sound. Qed.

Lemma let_go_all_settled l t : all_settled t → all_settled (foldl let_go t l).
Proof. revert t. induction l as [|p l IH]; intros t Ht; [done|]. apply IH. by apply map_Forall_delete. Qed.

Lemma let_go_all_ledger r l t : ledger r (foldl let_go t l) ≤ ledger r t.
Proof. revert t. induction l as [|p l IH]; intros t; [done|]. cbn [foldl]. pose proof (let_go_ledger r t p). pose proof (IH (let_go t p)). lia. Qed.
(** ** Steps that keep the invariant *)
Record tends (n : N → nat) (t t' : Rt) : Prop := {
  tends_conserves : conserves n t t';
  tends_sound : sound t → sound t';
}.

Lemma goes_tends n t t' : goes_by n t t' → tends n t t'.
Proof. intros Hg. split; [by apply goes_conserves|by apply (goes_sound n)]. Qed.
Lemma going_tends t t' : goes t t' → tends (λ _, 0) t t'.
Proof. apply goes_tends. Qed.
Lemma tends_refl t : tends (λ _, 0) t t.
Proof. apply goes_tends, goes_refl. Qed.
Lemma tends_ext n n' t t' : (∀ r, n r = n' r) → tends n t t' → tends n' t t'.
Proof. intros Hn [Hc Hs]. split; [by apply (conserves_ext n)|done]. Qed.
Lemma tends_then n t1 t2 t3 : tends n t1 t2 → tends (λ _, 0) t2 t3 → tends n t1 t3.
Proof. intros [c1 s1] [c2 s2]. split; [by eapply conserves_then|auto]. Qed.
Lemma tends_after n t1 t2 t3 : tends (λ _, 0) t1 t2 → tends n t2 t3 → tends n t1 t3.
Proof. intros [c1 s1] [c2 s2]. split; [by eapply conserves_after|auto]. Qed.
Lemma shell_report_tends wo record environment t : tends (λ _, 0) t (shell_report wo record environment t).2.
Proof. split; [apply shell_report_conserves|apply shell_report_sound]. Qed.
Lemma shells_gone_tends wo gone t : tends (λ _, 0) t (shells_gone wo gone t).
Proof. split; [apply shells_gone_conserves|apply shells_gone_sound]. Qed.

(** ** Requests *)

(** A request carried out: when it is held, one answer is owed for it, and else
    none is, since it is answered at once. *)
Definition is_held (res : result Reply ServiceErrorBody) : bool := match res with Ok Held => true | _ => false end.
Definition owing (reply : N) (held : bool) (r : N) : nat := if held then once reply r else 0.
Definition answering (reply : N) (m : Rt → result Reply ServiceErrorBody * Rt) : Prop :=
  ∀ t, tends (owing reply (is_held (m t).1)) t (m t).2.

Lemma conserving_bind {A} reply (m : Rt → result A ServiceErrorBody * Rt) k :
  (∀ t, tends (λ _, 0) t (m t).2) → (∀ a, answering reply (k a)) → answering reply (bind m k).
Proof.
  intros Hm Hk t. unfold bind. pose proof (Hm t) as H1. destruct (m t) as [[a|e] u]; [|exact H1].
  eapply tends_after; [exact H1|apply Hk].
Qed.

Lemma answering_bind {A} reply (m : Rt → result A ServiceErrorBody * Rt) k :
  GoesWith m → (∀ a, answering reply (k a)) → answering reply (bind m k).
Proof. intros Hm. apply conserving_bind. intros t. apply goes_tends, Hm, goes_refl. Qed.

Lemma answering_now reply a : is_held a = false → answering reply (λ t, (a, t)).
Proof. intros Ha t. cbn [fst snd]. rewrite Ha. apply tends_refl. Qed.

Lemma answering_at_once {A} reply (m : Rt → A * Rt) (a : A → Reply) :
  GoesWith m → (∀ x, a x ≠ Held) → answering reply (λ t, let '(x, t) := m t in ret (a x) t).
Proof.
  intros Hm Ha t. rewrite (surjective_pairing (m t)). cbv beta iota. cbn [ret fst snd].
  replace (is_held (Ok (a (m t).1))) with false by (cbn; pose proof (Ha (m t).1); by destruct (a (m t).1)).
  apply goes_tends, Hm, goes_refl.
Qed.

(** A wait asked of a supervisor, then what the service notes of it. *)
Lemma answering_ask reply wo project f (k : Rt → Rt) :
  asking reply f → Goes k → answering reply (bind (Runtime.act wo project f) (λ r, bind (accepted r) (λ _ t, ret Held (k t)))).
Proof.
  intros Hf Hk t. unfold bind, Runtime.act.
  destruct (rt_supervisors t !! project) as [s0|] eqn:E; [|unfold on_sup; rewrite E; apply tends_refl].
  pose proof (λ n, goes_by_sup n wo project f t s0 E) as Hg. unfold on_sup in Hg |- *. rewrite E in Hg |- *. cbv zeta in Hg |- *.
  pose proof (Hf (upd (on_now (λ _, wo_now wo)) s0)) as Ha. destruct (f (upd (on_now (λ _, wo_now wo)) s0)) as [[[]|e] s']; cbn [fst snd] in *.
  - cbn [accepted ret fst snd is_held owing]. eapply tends_then; [by apply goes_tends, Hg|].
    apply goes_tends, Hk, goes_refl.
  - cbn [accepted refuse fst snd is_held owing]. by apply goes_tends, Hg.
Qed.

(** A client that waits for an event is noted once. *)
Lemma waiter_goes w t : goes_by (once (ew_reply w)) t (rt_on_event_waiters (λ waiters, waiters ++ [w]) t).
Proof.
  split; [done|done|intros; by apply keeps_shells_refl|intros [be bn bs]; by split|done|]. intros r _. unfold ledger, once.
  cbn [rt_event_waiters rt_on_event_waiters rt_out rt_supervisors]. rewrite tally_app. cbn [tally]. lia.
Qed.

Lemma reply_goes o reply t : (∀ r, sends_to r o = (reply =? r)%N) → goes_by (once reply) t (tell_out o t).
Proof.
  intros Ho. split; [done|done|intros; by apply keeps_shells_refl|intros [be bn bs]; by split|done|]. intros r _. unfold ledger, once, tell_out.
  cbn [rt_event_waiters rt_on_out rt_out rt_supervisors tally]. rewrite Ho. lia.
Qed.

Lemma events_after_answering wo project since kinds wait reply : answering reply (events_after wo project since kinds wait reply).
Proof.
  unfold events_after. apply answering_bind; [apply _|]. intros _ t. cbv zeta. destruct (_ || _); [apply tends_refl|].
  cbn [ret fst snd is_held owing].
  match goal with |- context [ [?w] ] => apply (goes_tends _ _ _ (waiter_goes w _)) end.
Qed.

Local Ltac answer := repeat first
  [ apply answering_bind; [going; apply _|intros ?]
  | apply answering_now; reflexivity
  | match goal with |- answering _ (if ?b then _ else _) => destruct b end
  | match goal with |- answering _ (match ?o with Some _ => _ | None => _ end) => destruct o end ].
Lemma carry_out_answering wo q reply : answering reply (carry_out wo q reply).
Proof.
  destruct q as [|project e [spec|]|project|[project|]|project n action e [spec|]|project n spec|project since kinds wait|project n|project n
                |project n|project|project n data|project| |record e| |]; cbn [carry_out];
    try (answer; fail).
  - apply answering_bind; [apply _|intros ?]. apply (answering_ask reply wo project _ (λ t, hold_up wo project (client_acts_on wo project t))).
    + apply up_waiting_asking.
    + intros t0 t Ht. by apply hold_up_goes, client_acts_on_goes.
  - by apply (answering_at_once reply (statuses wo) (λ all, Now (SStatus all))); [apply _|].
  - apply answering_bind; [apply _|intros ?].
    apply (answering_ask reply wo project _ (λ t, client_acts_on wo project (if brings_up action then rt_on_entering (Entering.forget_project project) t else t))).
    + apply control_waiting_asking.
    + intros t0 t Ht. apply client_acts_on_goes. destruct (brings_up action); [by apply on_entering_goes|done].
  - apply answering_bind; [apply _|intros ?]. apply answering_bind; [|intros ?; answer].
    apply act_goes, serves_alone. intros s. eapply served_trans; [|apply handle_serves].
    destruct (brings_up action); [apply hold_up_serves|apply served_refl].
  - apply answering_bind; [apply _|intros ?]. apply (answering_ask reply wo project _ (λ t, t)); [apply wait_for_asking|by intros t0 t].
  - apply events_after_answering.
  - apply answering_bind; [apply _|intros ?]. apply answering_bind; [apply _|intros [pid|]]; [|by apply answering_now].
    intros t. by apply goes_tends, reply_goes.
  - intros t. apply tends_refl.
  - apply conserving_bind; [apply shell_report_tends|]. intros notes. by apply answering_now.
Qed.

Lemma refresh_for_goes wo q : GoesWith (refresh_for wo q).
Proof. destruct q; cbn [refresh_for]; going. Qed.

Lemma respond_answering wo q reply : answering reply (respond wo q reply).
Proof. apply answering_bind; [apply refresh_for_goes|]. intros _. apply carry_out_answering. Qed.

(** The answers an event asks for: one for a request, unless it ends the
    service, and one for a screen a worker read. *)
Definition asked_by (e : ServiceEvent) (flow : Flow) (r : N) : nat :=
  match e, flow with
  | VRequest _ reply, Continue => once reply r
  | VHolderRead _ _ reply, _ => once reply r
  | _, _ => 0
  end.

Lemma request_tends wo q reply t :
  tends (asked_by (VRequest q reply) (request wo q reply t).1) t (request wo q reply t).2.
Proof.
  unfold request. pose proof (respond_answering wo q reply t) as Hr.
  destruct (respond wo q reply t) as [[[r|[text|screen]| |]|refusal] u]; cbn [fst snd is_held owing asked_by] in *; try exact Hr;
    (eapply tends_after; [exact Hr|]; by apply goes_tends, reply_goes).
Qed.

Lemma handle_tends wo e t : tends (asked_by e (handle wo e t).1) t (handle wo e t).2.
Proof.
  destruct e; cbn [handle fst snd];
    try (apply (tends_ext (λ _, 0)); [done|]; apply going_tends; pose proof (goes_refl t); going; fail).
  - apply (tends_ext (λ _, 0)); [done|]. apply shells_gone_tends.
  - apply request_tends.
  - pose proof (settle_read_goes wo screen read t t (goes_refl t)) as Hg. destruct (settle_read wo screen read t) as [text u]. cbn [fst snd] in *.
    eapply tends_after; [by apply goes_tends|]. by apply goes_tends, reply_goes.
Qed.
(** ** The loop *)
Definition before_letting_go (wo : World) (t : Rt) : Rt :=
  answer_event_waiters wo (stop_idle wo (sweep_shells wo (sample_ports wo (sample_usage wo (enter_stopped wo
    (each_sup wo (λ s, on_waits compile_error is_match show_duration replay_matching (settle_waits is_match show_duration)
                         (Lifecycle.release_settled_exits (wo_env wo) s)) t)))))).

Lemma tick_parts wo t : tick wo t = record_idle_stops wo (foldl let_go (before_letting_go wo t) (finished (before_letting_go wo t))).
Proof. done. Qed.

Lemma before_letting_go_goes wo t : goes t (before_letting_go wo t).
Proof.
  unfold before_letting_go. pose proof (goes_refl t). apply answer_event_waiters_goes. repeat goes_step.
Qed.

Lemma tick_sound wo t : sound t → sound (tick wo t).
Proof.
  intros Ht. rewrite tick_parts. eapply goes_sound; [apply record_idle_stops_goes, goes_refl|]. apply let_go_all_sound.
  by eapply goes_sound; [apply before_letting_go_goes|].
Qed.

Lemma tick_ledger wo t r : all_settled t → ledger r (tick wo t) ≤ ledger r t.
Proof.
  intros Ht. rewrite tick_parts. pose proof (before_letting_go_goes wo t) as Hg.
  set (u := before_letting_go wo t) in *. set (v := foldl let_go u (finished u)).
  assert (all_settled v) as Hv by by apply let_go_all_settled, (goes_settled _ _ _ Hg).
  pose proof (record_idle_stops_goes wo v v (goes_refl v)) as Hr.
  rewrite (goes_ledger _ _ _ Hr r Hv). pose proof (let_go_all_ledger r (finished u) u) as Hle. pose proof (goes_ledger _ _ _ Hg r Ht). fold v in Hle. cbv beta in *. lia.
Qed.

Lemma serve_sound turns t : sound t → sound (serve turns t).2.
Proof.
  revert t. induction turns as [|turn turns IH]; intros t Ht; [done|]. cbn [serve].
  destruct (tu_event turn) as [e|]; [|by apply IH, tick_sound].
  pose proof (tends_sound _ _ _ (handle_tends (tu_world turn) e t) Ht) as Hh.
  destruct (handle (tu_world turn) e t) as [[|reply] u]; [by apply IH, tick_sound|done].
Qed.

(** ** Starting *)
Lemma start_sound wo epoch settings : sound (start wo epoch settings).
Proof.
  split; [apply new_wf|apply Nat.le_0_l|by intros p s ?|split; [apply Nat.le_0_l..|by intros p s ?]|by intros p s ?].
Qed.

Lemma load_other wo p q records t : q ≠ p → rt_supervisors (load wo p records t).2 !! q = rt_supervisors t !! q.
Proof.
  intros Hq. unfold load, bind at 1 2. cbn [stored].
  destruct (wo_revision wo p) as [revision|]; [|done]. destruct (wo_stack wo p) as [found|]; [|done].
  set (m := match found with Some stack => _ | None => _ end).
  assert (∀ t, rt_supervisors (m t).2 = rt_supervisors t) as Hm.
  { intros u. unfold m. destruct found; [done|]. destruct (bool_decide _); [done|]. by destruct (free_name _ _ _ _ _). }
  unfold bind at 1. pose proof (Hm t) as E1. destruct (m t) as [[stack|] t1]; cbn [fst snd] in *; [|by rewrite E1].
  unfold bind at 1. cbn [stored]. destruct (wo_ended_runs wo p) as [ended|]; [|by cbn; rewrite E1].
  unfold bind at 1. pose proof (raise_edits_supervisors wo p t1) as E2.
  destruct (raise_edits wo p t1) as [[[]|] t2]; cbn [fst snd modify] in *; [|by rewrite E2, E1].
  cbn. rewrite (told_supervisors _ _ (absorb_told _ _ _ _)). cbn. by rewrite lookup_insert_ne, E2, E1.
Qed.

Lemma notify_supervisors wo p l m t : rt_supervisors (notify wo p l m t) = rt_supervisors t.
Proof. done. Qed.
Definition load_one (wo : World) (records : list HolderRecord) (t : Rt) (project : path) : Rt :=
  match load wo project records t with
  | (Ok _, t) => t
  | (Err refusal, t) => notify wo (Some project) Error (colon UNADOPTABLE_PROJECT_NOTICE (eb_message refusal)) t
  end.

Lemma load_all_goes wo records l t :
  NoDup l → (∀ p, p ∈ l → rt_supervisors t !! p = None) → goes t (foldl (load_one wo records) t l).
Proof.
  revert t. induction l as [|p l IH]; intros t Hnd Hno; [apply goes_refl|]. apply NoDup_cons in Hnd as [Hp Hnd]. cbn [foldl].
  assert (goes t (load_one wo records t p) ∧ ∀ q, q ≠ p → rt_supervisors (load_one wo records t p) !! q = rt_supervisors t !! q) as [Hg Ho].
  { unfold load_one. pose proof (load_goes wo p records t (Hno p ltac:(by left))) as Hg. pose proof (λ q, load_other wo p q records t) as Ho.
    destruct (load wo p records t) as [[?|refusal] u]; cbn [snd] in *; [done|]. split; [|intros q Hq; rewrite notify_supervisors; auto].
    by apply notify_goes. }
  eapply goes_trans; [exact Hg|]. apply IH; [done|]. intros q Hq. rewrite Ho by (intros ->; done). apply Hno. by right.
Qed.

Lemma adopt_running_goes wo t : rt_supervisors t = ∅ → goes t (adopt_running wo t).
Proof.
  intros Hno. unfold adopt_running. cbv zeta.
  set (t1 := match wo_legacy_logs wo with Ok _ => t | Err error => _ end).
  set (t2 := match wo_handover_sweep wo with Ok failures => _ | Err error => _ end).
  set (t3 := foldl _ t2 (wo_unreadable_records wo)).
  assert (∀ {A} (msg : A → rstr) (l : list A) level u, rt_supervisors (foldl (λ t a, notify wo None level (msg a) t) u l) = rt_supervisors u) as Hf.
  { intros A msg l level. induction l as [|a l IH]; intros u; [done|]. cbn [foldl]. by rewrite IH, notify_supervisors. }
  assert (goes t t1) as G1 by (unfold t1; destruct (wo_legacy_logs wo); [apply goes_refl|apply notify_goes, goes_refl]).
  assert (goes t1 t2) as G2.
  { unfold t2. destruct (wo_handover_sweep wo); [|apply notify_goes, goes_refl]. apply goes_foldl; [|apply goes_refl]. intros u pe Hu. by apply notify_goes. }
  assert (goes t2 t3) as G3 by (apply goes_foldl; [|apply goes_refl]; intros u a Hu; by apply notify_goes).
  assert (rt_supervisors t3 = ∅) as E3.
  { unfold t3. rewrite Hf. unfold t2. destruct (wo_handover_sweep wo); [rewrite Hf|rewrite notify_supervisors]; unfold t1; by destruct (wo_legacy_logs wo). }
  eapply goes_trans; [exact G1|]. eapply goes_trans; [exact G2|]. eapply goes_trans; [exact G3|].
  apply load_all_goes; [apply NoDup_btree_iter|]. intros p _. by rewrite E3.
Qed.

(** What a service freshly loaded: nothing armed. *)
Definition unarmed (t : Rt) : Prop := map_Forall (λ _ (s : Sup), s_left_at (sup_core s) = None) (rt_supervisors t).

Lemma goes_unarmed n t t' : goes_by n t t' → rt_supervisors t = ∅ → unarmed t'.
Proof.
  intros Hg E p s' Hs'. destruct (goes_shells _ _ _ Hg p s' Hs') as [(s & Hs & _)|[_ Hl]]; [|done]. rewrite E in Hs. by apply lookup_empty_Some in Hs.
Qed.
(** Live shells are put back, as many as fit. *)
Definition put_back (t : Rt) (r : ShellRecord) : Rt :=
  if len (rt_occupancy t) <? MAX_SHELLS then rt_on_occupancy (λ o, Occupancy.restore o r) t else t.
Definition end_shell (ct : list OccupancyChange * Rt) (r : ShellRecord) : list OccupancyChange * Rt :=
  let t := tell_out (TForgetShell (shell r)) ct.2 in
  let '(o, changes) := Occupancy.remove (Occupancy.restore (rt_occupancy t) r) (shell r) in
  (ct.1 ++ changes, rt_on_occupancy (λ _, o) t).

Lemma restore_len o r : len o < MAX_SHELLS → len (Occupancy.restore o r) ≤ MAX_SHELLS.
Proof.
  intros Hl. unfold len in *. rewrite shells_restore. destruct (is_newer o r); [|lia]. rewrite map_size_insert.
  destruct (Occupancy.shells o !! shell r); cbn; lia.
Qed.

(** The table holds only shells of a kind. *)
Definition only (P : ShellId → Prop) (o : Occupancy.Occupancy) : Prop := ∀ sh, is_Some (Occupancy.shells o !! sh) → P sh.

Lemma put_back_all (P : ShellId → Prop) l t :
  Forall (λ r, P (shell r)) l → occupancy_wf (rt_occupancy t) → len (rt_occupancy t) ≤ MAX_SHELLS → only P (rt_occupancy t) →
  let t' := foldl put_back t l in
  occupancy_wf (rt_occupancy t') ∧ len (rt_occupancy t') ≤ MAX_SHELLS ∧ only P (rt_occupancy t') ∧
  rt_supervisors t' = rt_supervisors t ∧ conserves (λ _, 0) t t'.
Proof.
  revert t. induction l as [|r l IH]; intros t Hl Hw Hn Hp; cbv zeta; cbn [foldl]; [split_and!; [done..|apply conserves_refl]|].
  apply Forall_cons in Hl as [Hr Hl]. unfold put_back at 2 4 6 8 10. destruct (Nat.ltb_spec (len (rt_occupancy t)) MAX_SHELLS) as [Hlt|Hge]; [|by apply IH].
  destruct (IH (rt_on_occupancy (λ o, Occupancy.restore o r) t)) as (? & ? & ? & ? & Hc); [done|by apply restore_wf|by apply restore_len| |].
  - intros sh. cbn. rewrite shells_restore. destruct (is_newer _ _); [|apply Hp]. rewrite lookup_insert_is_Some. intros [<-|[_ ?]]; [done|by apply Hp].
  - split_and!; [done..|]. eapply conserves_after; [|exact Hc]. apply (table_conserves (Occupancy.restore (rt_occupancy t) r) t).
Qed.

(** An ended shell, put back and removed, only tells of what it left. *)
Lemma end_shell_all (P : ShellId → Prop) l ct :
  Forall (λ r, ¬ P (shell r)) l → occupancy_wf (rt_occupancy ct.2) → only P (rt_occupancy ct.2) →
  (∀ p, Occupancy.Left p ∈ ct.1 → Occupancy.occupants (rt_occupancy ct.2) p = 0) →
  let ct' := foldl end_shell ct l in
  rt_occupancy ct'.2 = rt_occupancy ct.2 ∧ rt_supervisors ct'.2 = rt_supervisors ct.2 ∧
  (∀ p, Occupancy.Left p ∈ ct'.1 → Occupancy.occupants (rt_occupancy ct'.2) p = 0) ∧ conserves (λ _, 0) ct.2 ct'.2.
Proof.
  revert ct. induction l as [|r l IH]; intros ct Hl Hw Hp HL; cbv zeta; cbn [foldl]; [split_and!; [done..|apply conserves_refl]|].
  apply Forall_cons in Hl as [Hr Hl].
  assert (Occupancy.shells (rt_occupancy ct.2) !! shell r = None) as Hno by (apply eq_None_not_Some; intros ?%Hp; done).
  assert (rt_occupancy (end_shell ct r).2 = rt_occupancy ct.2 ∧ rt_supervisors (end_shell ct r).2 = rt_supervisors ct.2 ∧
          (∀ p, Occupancy.Left p ∈ (end_shell ct r).1 → Occupancy.occupants (rt_occupancy ct.2) p = 0) ∧
          conserves (λ _, 0) ct.2 (end_shell ct r).2) as (E1 & E2 & HL' & Hc).
  { pose proof (restore_remove (rt_occupancy ct.2) r Hw Hno) as Er.
    pose proof (λ p, remove_effect (Occupancy.restore (rt_occupancy ct.2) r) (shell r) p (restore_wf _ _ Hw)) as He. unfold end_shell. cbv zeta.
    cbn [rt_occupancy tell_out rt_on_out]. destruct (Occupancy.remove _ (shell r)) as [o changes]. cbn [fst snd] in *. subst o. split_and!; [done..| |].
    - intros p [Hin|Hin]%elem_of_app; [by apply HL|by apply (proj1 (He p))].
    - eapply conserves_after; [|apply table_conserves]. by apply goes_conserves, goes_out. }
  destruct (IH (end_shell ct r)) as (? & ? & ? & Hc'); rewrite ?E1; [done..|]. split_and!; [congruence|congruence|done|by eapply conserves_after].
Qed.

Lemma restore_shells_tends wo t : unarmed t → rt_occupancy t = Occupancy.new → tends (λ _, 0) t (restore_shells wo t).
Proof.
  intros Hun Enew. unfold restore_shells. cbv zeta. assert (occupancy_wf (rt_occupancy t)) as Hw by (rewrite Enew; apply new_wf).
  set (live := filter (λ r, wo_is_live wo (shell r) = true) _). set (ended := filter (λ r, ¬ wo_is_live wo (shell r) = true) _).
  destruct (put_back_all (λ sh, wo_is_live wo sh = true) live t) as (Hw1 & Hl1 & Hp1 & Es1 & Hc1);
    [|done|rewrite Enew; apply Nat.le_0_l|by rewrite Enew; intros sh [? ?]|].
  { apply Forall_forall. by intros r [? _]%list_elem_of_filter. }
  change (foldl _ t live) with (foldl put_back t live). set (t1 := foldl put_back t live) in *.
  destruct (end_shell_all (λ sh, wo_is_live wo sh = true) ended ([], t1)) as (Eo2 & Es2 & HL & Hc2); [|done|done|by intros p ?%not_elem_of_nil|].
  { apply Forall_forall. by intros r [? _]%list_elem_of_filter. }
  change (foldl _ ([], t1) ended) with (foldl end_shell ([], t1) ended). destruct (foldl end_shell ([], t1) ended) as [changes t2]. cbn [fst snd] in *.
  split; [eapply conserves_after; [exact Hc1|]; eapply conserves_after; [exact Hc2|apply occupancy_changed_conserves]|].
  intros [_ _ _ Hb Hk]. destruct Hc1 as [_ b1 k1 _], Hc2 as [_ b2 k2 _].
  replace t2 with (rt_on_occupancy (λ _, rt_occupancy t2) t2) by by destruct t2. apply table_sound; [by rewrite Eo2|by rewrite Eo2|auto..|].
  rewrite Es2, Es1. intros p s Hs. rewrite (Hun p s Hs). by intros [? ?].
Qed.

(** An idle stop armed where no shell is. *)
Lemma arm_tends wo p left t : Occupancy.occupants (rt_occupancy t) p = 0 → tends (λ _, 0) t (tell_sup wo p (Lifecycle.arm_idle left) t).
Proof.
  intros Hz. pose proof (tell_quiet_conserves wo p (Lifecycle.arm_idle left) t ltac:(done)) as Hcons. split; [done|].
  intros [Hw Hl Hc Hb Hk]. destruct Hcons as [_ b k _].
  split; rewrite ?tell_sup_occupancy; [done|done| |auto..]. intros q s. rewrite tell_sup_supervisors. unfold counts, occupants. rewrite tell_sup_occupancy.
  destruct (decide (q = p)) as [->|Hne].
  - rewrite lookup_alter_eq. destruct (rt_supervisors t !! p) as [s0|] eqn:E; [|done]. intros [= <-]. destruct (Hc p s0 E) as [Hn _]. split; [exact Hn|done].
  - rewrite lookup_alter_ne by done. apply Hc.
Qed.

Lemma restore_idle_stops_tends wo t : tends (λ _, 0) t (restore_idle_stops wo t).
Proof.
  unfold restore_idle_stops. destruct (match wo_pending_idle wo with Ok s => (s, t) | Err e => _ end) as [stored u] eqn:E.
  assert (tends (λ _, 0) t u) as Hu.
  { destruct (wo_pending_idle wo); injection E as <- <-; [apply tends_refl|]. apply going_tends, notify_goes, goes_refl. }
  cbv zeta. eapply tends_after; [exact Hu|]. eapply tends_then; [|apply going_tends, record_idle_stops_goes, goes_refl]. clear E Hu. revert u.
  induction stored as [|stop stored IH]; intros u; [apply tends_refl|]. cbn [foldl]. eapply tends_after; [|apply IH].
  set (v := rt_on_recorded_idle _ u). assert (tends (λ _, 0) u v) as Hv by apply going_tends, on_recorded_idle_goes, goes_refl.
  eapply tends_after; [exact Hv|].
  destruct (Nat.eqb_spec (Occupancy.occupants (rt_occupancy v) (pi_project stop)) 0); [by apply arm_tends|apply tends_refl].
Qed.

Lemma take_over_tends wo epoch settings : tends (λ _, 0) (start wo epoch settings) (take_over wo epoch settings).
Proof.
  unfold take_over. pose proof (adopt_running_goes wo (start wo epoch settings) eq_refl) as Hg.
  eapply tends_after; [by apply going_tends|]. eapply tends_after; [|apply restore_idle_stops_tends].
  apply restore_shells_tends; [by eapply goes_unarmed|by rewrite (goes_occupancy _ _ _ Hg)].
Qed.

Lemma take_over_sound wo epoch settings : sound (take_over wo epoch settings).
Proof. apply (tends_sound _ _ _ (take_over_tends wo epoch settings)), start_sound. Qed.

Lemma take_over_ledger wo epoch settings r : ledger r (take_over wo epoch settings) = 0.
Proof. by rewrite (cons_ledger _ _ _ (tends_conserves _ _ _ (take_over_tends wo epoch settings)) r (sound_settled _ (start_sound wo epoch settings))). Qed.

(** ** The theorems *)

(** C1: whatever an earlier service left and whatever events a service handles,
    each loaded project counts exactly the shells whose newest report is in it,
    and its idle stop is armed only while no shell is: a project someone is in
    is never about to be stopped as idle. *)
Theorem service_counts_shells (wo : World) (epoch : N) (settings : Settings) (turns : list Turn) (project : path) (s : Sup) :
  let t := (serve turns (take_over wo epoch settings)).2 in
  rt_supervisors t !! project = Some s →
  s_occupants (sup_core s) = N.min (N.of_nat (length (shells_in (rt_occupancy t) project))) U32_MAX ∧
  (is_Some (s_left_at (sup_core s)) → shells_in (rt_occupancy t) project = []).
Proof.
  intros t Hs. destruct (serve_sound turns _ (take_over_sound wo epoch settings)) as [Hw _ Hc _ _]. fold t in Hw, Hc.
  destruct (Hc project s Hs) as [Hn Ha]. unfold occupants in Hn. rewrite occupants_members, <-length_shells_in in Hn by done.
  split; [done|]. intros Hsome%Ha. rewrite occupants_members, <-length_shells_in in Hsome by done. by apply nil_length_inv.
Qed.

End safe.
