(* ===== verification/WaitsRead.v ===== *)
(** * Reads of a log end

    A read of the log of a pane with no row is answered at once, and its
    answers may start another: [read_log] of Waits.v follows them with fuel.
    The fuel is enough: a read of everything a pane holds leaves no wait on
    the log's end, the next leaves no scan, the next no held answer, and the
    last asks nothing. *)
From S2P Require Import Prelude RustText RustPath Values Process Config StackSync EventLog Books Tap WaitData SupState Lifecycle Waits WaitsOnce.

Section ending.
Context `{LineRenderer} (is_match : LogPattern → rstr → bool) (c : Core) (pane : N).

(** A read under way is not started again. *)
Definition reading (w : Waits) : Prop := is_some (w_reads w !! pane) = true.
Definition unread (_ : N) (w : Waits) : Waits := w.

(** ** While a read is under way *)
Section under_way.
Context (rl : N → Waits → Waits) (rl_waits : ∀ w, reading w → rl pane w = w).

Lemma hold_answer_waits o x from until w : reading w → hold_answer c rl pane o x from until w = hold_answer c unread pane o x from until w.
Proof. intros Hr. apply rl_waits, Hr. Qed.

Lemma answer_with_tail_waits x st m cu tail w :
  wt_pane x = pane → reading w → answer_with_tail c rl x st m cu tail w = answer_with_tail c unread x st m cu tail w.
Proof. intros Hx Hr. unfold answer_with_tail. rewrite Hx. cbv zeta. destruct (if bool_decide _ then _ else _) as [[from until]|]; [|done]. by apply hold_answer_waits. Qed.

Lemma register_held_waits p after x scan w :
  pw_pane p = pane → reading w → register_held is_match c rl p after x scan w = register_held is_match c unread p after x scan w.
Proof.
  intros Hp Hr. unfold register_held. cbv zeta.
  set (found := match (match pw_since p with Some _ => _ | None => _ end) with Some _ => _ | None => _ end).
  assert (reading found.2) as Hf.
  { unfold found. destruct (match pw_since p with Some _ => _ | None => _ end) as [since|]; [|done].
    destruct (pw_matcher p); [|done]. destruct (is_fresh _); [done|].
    destruct (scan ≫= _) as [[tapped f]|]; cbn; [destruct (ls_matched f); cbn|]; done. }
  destruct found as [[matched scanned] w1]. cbn [snd] in Hf.
  destruct (match matched with Some _ => _ | None => _ end) as [[st m]|]; [|done]. by apply answer_with_tail_waits.
Qed.

Lemma begin_after_end_waits w h :
  pw_pane (hw_prepared h) = pane → reading w → begin_after_end is_match c rl w h = begin_after_end is_match c unread w h.
Proof.
  intros Hp Hr. unfold begin_after_end. destruct (_ ≫= _) as [[since end_]|]; [done|]. unfold register_or_scan.
  destruct (adoption_hold _ _ _); [done|]. destruct (scan_for _ _ _ _); [|by apply register_held_waits]. unfold hold_wait. rewrite Hp. by apply rl_waits.
Qed.
End under_way.

(** ** What changes while a read is under way *)
Definition same_held (w w' : Waits) : Prop := w_reads w' = w_reads w ∧ w_held w' = w_held w.

#[local] Instance same_held_order : PreOrder same_held.
Proof. split; [done|]. intros w1 w2 w3 [E1 E2] [E3 E4]. split; congruence. Qed.

Lemma foldl_same {A} (f : Waits → A → Waits) l w : (∀ w a, same_held w (f w a)) → same_held w (foldl f w l).
Proof. intros Hf. revert w. induction l as [|a l IH]; intros w; [done|]. cbn. etrans; [apply Hf|apply IH]. Qed.

Lemma deliver_same o x w : same_held w (deliver o x w).
Proof.
  destruct x as [y|group slot]; cbn [deliver]; [done|]. destruct (w_groups w !! group); [|done]. unfold fill. cbv beta iota zeta. by destruct (existsb _ _).
Qed.

Lemma answer_with_tail_same x st m cu tail w : same_held w (answer_with_tail c unread x st m cu tail w).
Proof. unfold answer_with_tail. destruct (if bool_decide _ then _ else _) as [[from until]|]; [done|apply deliver_same]. Qed.

Lemma register_held_same p after x scan w : same_held w (register_held is_match c unread p after x scan w).
Proof.
  unfold register_held. cbv zeta.
  set (found := match (match pw_since p with Some _ => _ | None => _ end) with Some _ => _ | None => _ end).
  assert (same_held w found.2) as Hf.
  { unfold found. destruct (match pw_since p with Some _ => _ | None => _ end) as [since|]; [|done].
    destruct (pw_matcher p); [|done]. destruct (is_fresh _); [done|].
    destruct (scan ≫= _) as [[tapped f]|]; cbn; [destruct (ls_matched f); cbn|]; done. }
  destruct found as [[matched scanned] w1]. cbn [snd] in Hf. etrans; [exact Hf|].
  destruct (match matched with Some _ => _ | None => _ end) as [[st m]|]; [apply answer_with_tail_same|].
  destruct (probe_of _); [|done]. by destruct (_ && _).
Qed.

Lemma report_render_faults_same p n w : same_held w (report_render_faults c p n w).
Proof.
  unfold report_render_faults. set (w1 := if (0 <? n)%N then _ else w).
  assert (same_held w w1) as H1 by (unfold w1; by destruct (0 <? n)%N). etrans; [exact H1|]. destruct (w_taps w1 !! p) as [t|]; [|done].
  rewrite (surjective_pairing (take_fault_report t)). cbv beta iota. rewrite (surjective_pairing (take_read_fault_report _)). cbv beta iota zeta.
  etrans; [|by apply foldl_same]. done.
Qed.

Lemma send_held_answers_same id answers w : same_held w (send_held_answers id answers w).
Proof. unfold send_held_answers, extract_answers. cbv beta iota. etrans; [|apply foldl_same; intros; apply deliver_same]. done. Qed.

(** ** What a pane still asks *)
Definition held_at (w : Waits) : list HeldWait := default [] (w_held w !! pane).
Definition wants_end (h : HeldWait) : bool := negb (is_some (hw_scan h)) && negb (is_some (hw_adopting h)).
Definition wants_nothing (h : HeldWait) : Prop := wants_end h = false ∧ (ask_of 0 h).1.2 = [].

Lemma same_at w w' : same_held w w' → held_at w' = held_at w.
Proof. intros [_ E]. unfold held_at. by rewrite E. Qed.

Lemma same_reading w w' : same_held w w' → reading w → reading w'.
Proof. intros [E _] Hr. unfold reading. by rewrite E. Qed.

Lemma extract_held_at f w : held_at (extract_held f pane w).2 = filter (λ h, f h = false) (held_at w).
Proof.
  unfold extract_held, held_at. destruct (w_held w !! pane) as [l|] eqn:E; cbn [snd]; [|by rewrite E]. cbn.
  destruct (bool_decide_reflect (filter (λ h, f h = false) l = [])) as [El|El]; [by rewrite lookup_delete_eq, El|by rewrite lookup_insert_eq].
Qed.

Lemma extract_held_taken f w : (extract_held f pane w).1 = filter (λ h, f h = true) (held_at w).
Proof. unfold extract_held, held_at. by destruct (w_held w !! pane). Qed.

Lemma extract_held_reads f w : w_reads (extract_held f pane w).2 = w_reads w.
Proof. unfold extract_held. by destruct (w_held w !! pane). Qed.

Lemma push_held_at p after q scan ad w :
  pw_pane p = pane → ∃ h, held_at (push_held c p after q scan ad w) = held_at w ++ [h] ∧ hw_scan h = scan ∧ hw_adopting h = ad.
Proof. intros Hp. unfold push_held, held_at. cbn. rewrite Hp, lookup_insert_eq. eexists. by split. Qed.

Lemma begin_after_end_at w h :
  pw_pane (hw_prepared h) = pane →
  w_reads (begin_after_end is_match c unread w h) = w_reads w ∧
  ∃ new, held_at (begin_after_end is_match c unread w h) = held_at w ++ new ∧ Forall (λ k, wants_end k = false) new.
Proof.
  intros Hp. unfold begin_after_end. destruct (_ ≫= _) as [[since end_]|]; [split; [done|]; exists []; by rewrite app_nil_r|].
  unfold register_or_scan. destruct (adoption_hold _ _ _) as [ad|].
  { split; [done|]. destruct (push_held_at (hw_prepared h) (hw_after h) (hw_reply h) None (Some ad) w Hp) as (k & -> & Es & Ea).
    exists [k]. split; [done|]. constructor; [|done]. unfold wants_end. by rewrite Es, Ea. }
  destruct (scan_for _ _ _ _) as [scan|].
  { split; [done|]. destruct (push_held_at (hw_prepared h) (hw_after h) (hw_reply h) (Some scan) None w Hp) as (k & Ek & Es & Ea).
    exists [k]. split; [exact Ek|]. constructor; [|done]. unfold wants_end. by rewrite Es. }
  pose proof (register_held_same (hw_prepared h) (hw_after h) (Direct (hw_reply h)) None w) as Hs. split; [apply Hs|].
  exists []. rewrite app_nil_r. split; [|done]. by apply same_at.
Qed.

Lemma foldl_waits {A} (f g : Waits → A → Waits) l w :
  (∀ w a, a ∈ l → reading w → f w a = g w a) → (∀ w a, a ∈ l → w_reads (g w a) = w_reads w) → reading w → foldl f w l = foldl g w l.
Proof.
  revert w. induction l as [|a l IH]; intros w Hf Hg Hr; [done|]. cbn. rewrite Hf; [|constructor|done].
  apply IH; [intros; apply Hf; [by constructor|done]|intros; apply Hg; by constructor|]. unfold reading. rewrite Hg; [done|constructor].
Qed.

Lemma foldl_begins l w :
  Forall (λ h, pw_pane (hw_prepared h) = pane) l →
  w_reads (foldl (begin_after_end is_match c unread) w l) = w_reads w ∧
  ∃ new, held_at (foldl (begin_after_end is_match c unread) w l) = held_at w ++ new ∧ Forall (λ k, wants_end k = false) new.
Proof.
  revert w. induction l as [|h l IH]; intros w Hl; [split; [done|]; exists []; by rewrite app_nil_r|].
  apply Forall_cons in Hl as [Hh Hl]. cbn. destruct (begin_after_end_at w h Hh) as [Er (new & En & Hn)].
  destruct (IH (begin_after_end is_match c unread w h) Hl) as [Er' (more & Em & Hm)]. split; [congruence|].
  exists (new ++ more). rewrite Em, En, app_assoc. split; [done|]. by apply Forall_app.
Qed.

Lemma tidy_at w : tidy w → Forall (λ h, pw_pane (hw_prepared h) = pane) (held_at w).
Proof. intros [_ Hk]. eapply Forall_impl; [apply (keyed_at _ pane _ Hk)|]. by intros h [Hp _]. Qed.

(** The waits on a log's end, answered: none is left. *)
Section ends.
Context (tail : option LogTail) (w : Waits) (w_tidy : tidy w) (w_reading : reading w).

Notation late := (filter (λ h, is_some (hw_timed_out h) = true) (extract_held wants_end pane w).1).
Notation rest := (filter (λ h, is_some (hw_timed_out h) = false) (extract_held wants_end pane w).1).

(** The state once the waits that timed out are answered. *)
Definition after_late (rl : N → Waits → Waits) : Waits :=
  match late with
  | [] => (extract_held wants_end pane w).2
  | _ =>
    let '(last_lines, dropped) := match tail with Some t => log_tail_lines t | None => ([], 0%N) end in
    foldl (λ w h, answer_with_tail c rl (held_waiter c h) WWaiting None (default 0%N (hw_timed_out h)) last_lines w)
      (report_render_faults c pane dropped (extract_held wants_end pane w).2) late
  end.

Definition seeded (w : Waits) : Waits :=
  if knows_no_output c w pane
  then report_render_faults c pane 0 (on_tap (match tail with Some t => seed_at (lt_at t) (lt_bytes t) | None => seed_at 0 [] end) pane w)
  else w.

Lemma answer_held_waits_eq rl :
  answer_held_waits is_match c rl pane tail w =
  match rest with [] => after_late rl | _ => foldl (begin_after_end is_match c rl) (seeded (after_late rl)) rest end.
Proof.
  unfold answer_held_waits, after_late, seeded, wants_end. by rewrite (surjective_pairing (extract_held _ pane w)).
Qed.

Lemma taken_panes (f : HeldWait → bool) h : h ∈ filter (λ h, f h = true) (extract_held wants_end pane w).1 ∨ h ∈ filter (λ h, f h = false) (extract_held wants_end pane w).1 → pw_pane (hw_prepared h) = pane.
Proof.
  rewrite extract_held_taken, !list_elem_of_filter. intros Hh. assert (h ∈ held_at w) as Hin by tauto.
  pose proof (tidy_at w w_tidy) as Ht. rewrite Forall_forall in Ht. by apply Ht.
Qed.

Lemma after_late_same : same_held (extract_held wants_end pane w).2 (after_late unread).
Proof.
  unfold after_late. destruct late; [done|]. destruct (match tail with Some _ => _ | None => _ end) as [ll dr].
  etrans; [apply report_render_faults_same|]. apply foldl_same. intros. apply answer_with_tail_same.
Qed.

Lemma seeded_same w' : same_held w' (seeded w').
Proof. unfold seeded. destruct (knows_no_output _ _ _); [|done]. etrans; [|apply report_render_faults_same]. done. Qed.

Lemma extracted_reading : reading (extract_held wants_end pane w).2.
Proof. unfold reading. by rewrite extract_held_reads. Qed.

Lemma answer_held_waits_waits rl :
  (∀ w, reading w → rl pane w = w) → answer_held_waits is_match c rl pane tail w = answer_held_waits is_match c unread pane tail w.
Proof.
  intros Hrl. rewrite !answer_held_waits_eq. assert (after_late rl = after_late unread) as ->.
  { unfold after_late. destruct late as [|h l] eqn:El; [done|]. destruct (match tail with Some _ => _ | None => _ end) as [ll dr].
    apply foldl_waits; [|intros; apply answer_with_tail_same|].
    - intros w' k Hk Hr. apply answer_with_tail_waits; [done| |done]. apply (taken_panes (λ h, is_some (hw_timed_out h))). left. by rewrite El.
    - eapply same_reading; [apply report_render_faults_same|]. apply extracted_reading. }
  destruct rest as [|h l] eqn:El; [done|].
  assert (∀ k, k ∈ h :: l → pw_pane (hw_prepared k) = pane) as Hp.
  { intros k Hk. apply (taken_panes (λ h, is_some (hw_timed_out h))). right. by rewrite El. }
  apply foldl_waits; [intros; apply begin_after_end_waits; auto|intros; apply begin_after_end_at; auto|].
  eapply same_reading; [etrans; [apply after_late_same|apply seeded_same]|]. apply extracted_reading.
Qed.

Lemma answer_held_waits_at :
  w_reads (answer_held_waits is_match c unread pane tail w) = w_reads w ∧
  Forall (λ k, wants_end k = false) (held_at (answer_held_waits is_match c unread pane tail w)).
Proof.
  rewrite answer_held_waits_eq. pose proof after_late_same as Ha. pose proof (seeded_same (after_late unread)) as Hs.
  assert (Forall (λ k, wants_end k = false) (held_at (extract_held wants_end pane w).2)) as He.
  { rewrite extract_held_at. apply Forall_forall. by intros h [Hh _]%list_elem_of_filter. }
  destruct rest as [|h l] eqn:El; [split; [etrans; [apply Ha|apply extract_held_reads]|by rewrite (same_at _ _ Ha)]|].
  destruct (foldl_begins (h :: l) (seeded (after_late unread))) as [Er (new & En & Hn)].
  { apply Forall_forall. intros k Hk. apply (taken_panes (λ h, is_some (hw_timed_out h))). right. by rewrite El. }
  split; [rewrite Er; etrans; [apply Hs|]; etrans; [apply Ha|apply extract_held_reads]|].
  rewrite En, (same_at _ _ Hs), (same_at _ _ Ha). by apply Forall_app.
Qed.
End ends.

(** The scans a read answered, registered. *)
Definition scanned_by (id : N) (h : HeldWait) : bool := is_some (hw_scan h) && bool_decide (hw_read h = Some id).

Lemma register_scanned_waits_waits rl id answers w :
  (∀ w, reading w → rl pane w = w) → tidy w → reading w →
  register_scanned_waits is_match c rl pane id answers w = register_scanned_waits is_match c unread pane id answers w.
Proof.
  intros Hrl Ht Hr. unfold register_scanned_waits. rewrite (surjective_pairing (extract_held _ pane w)). cbv beta iota.
  apply foldl_waits; [|intros; apply register_held_same|unfold reading; by rewrite extract_held_reads].
  intros w' h Hh Hr'. apply register_held_waits; [done| |done]. rewrite extract_held_taken in Hh. apply list_elem_of_filter in Hh as [_ Hh].
  pose proof (tidy_at w Ht) as Hp. rewrite Forall_forall in Hp. by apply Hp.
Qed.

Lemma register_scanned_waits_at id answers w :
  w_reads (register_scanned_waits is_match c unread pane id answers w) = w_reads w ∧
  held_at (register_scanned_waits is_match c unread pane id answers w) = filter (λ h, scanned_by id h = false) (held_at w).
Proof.
  unfold register_scanned_waits. rewrite (surjective_pairing (extract_held _ pane w)). cbv beta iota.
  match goal with |- context [foldl ?f ?w0 ?l] => pose proof (foldl_same f l w0) as Hs end.
  specialize (Hs ltac:(intros; apply register_held_same)). split; [etrans; [apply Hs|apply extract_held_reads]|].
  rewrite (same_at _ _ Hs). apply extract_held_at.
Qed.

Lemma register_scanned_waits_none id answers w :
  filter (λ h, scanned_by id h = true) (held_at w) = [] → w_answers (register_scanned_waits is_match c unread pane id answers w) = w_answers w.
Proof.
  intros Hn. unfold register_scanned_waits. rewrite (surjective_pairing (extract_held _ pane w)). cbv beta iota.
  rewrite extract_held_taken. fold (scanned_by id). unfold scanned_by in Hn. rewrite Hn. cbn. unfold extract_held. by destruct (w_held w !! pane).
Qed.

(** ** A read that lands *)
Section landing.
Context (id : N) (ends : bool) (result : LogReadResult) (w : Waits).
Context (w_tidy : tidy w) (w_read : w_reads w !! pane = Some {| pd_id := id; pd_end := ends |}).

Notation unrendered := (foldr (λ a n, unrendered_lines a + n)%N 0%N (map_to_list (lr_answers result)).*2).
Definition reported : Waits := report_render_faults c pane unrendered (send_held_answers id (lr_answers result) w).
Definition ended (rl : N → Waits → Waits) : Waits := if ends then answer_held_waits is_match c rl pane (lr_tail result) reported else reported.

Lemma reported_same : same_held w reported.
Proof. etrans; [apply send_held_answers_same|apply report_render_faults_same]. Qed.

Lemma reported_tidy : tidy reported.
Proof.
  apply report_render_faults_tidy. unfold send_held_answers, extract_answers. cbv beta iota.
  apply foldl_tidy; [intros; by apply deliver_tidy|]. exact (tidy_same _ _ eq_refl eq_refl eq_refl eq_refl w_tidy).
Qed.

Lemma handle_log_read_eq rl :
  handle_log_read is_match c rl pane id result w =
  rl pane (w_on_reads (delete pane) (register_scanned_waits is_match c rl pane id (lr_answers result) (ended rl))).
Proof.
  unfold handle_log_read. cbv zeta. rewrite (proj1 (send_held_answers_same id (lr_answers result) w)), w_read. cbn [pd_id pd_end].
  by rewrite N.eqb_refl.
Qed.

Lemma ended_waits rl : (∀ w, reading w → rl pane w = w) → ended rl = ended unread.
Proof.
  intros Hrl. unfold ended. destruct ends; [|done]. apply answer_held_waits_waits; [apply reported_tidy| |done].
  eapply same_reading; [apply reported_same|]. unfold reading. by rewrite w_read.
Qed.

Lemma ended_tidy : tidy (ended unread).
Proof. unfold ended. destruct ends; [apply answer_held_waits_tidy; [done|]|]; apply reported_tidy. Qed.

Lemma ended_reads : w_reads (ended unread) = w_reads w.
Proof.
  unfold ended. destruct ends; [|apply reported_same].
  etrans; [apply answer_held_waits_at; apply reported_tidy|apply reported_same].
Qed.

Lemma handle_log_read_lands rl :
  (∀ w, reading w → rl pane w = w) → handle_log_read is_match c rl pane id result w = rl pane (handle_log_read is_match c unread pane id result w).
Proof.
  intros Hrl. rewrite !handle_log_read_eq, ended_waits by done. unfold unread at 2.
  rewrite register_scanned_waits_waits; [done|done|apply ended_tidy|]. unfold reading. by rewrite ended_reads, w_read.
Qed.

Lemma handle_log_read_at :
  held_at (handle_log_read is_match c unread pane id result w) = filter (λ h, scanned_by id h = false) (held_at (ended unread)).
Proof.
  rewrite handle_log_read_eq. unfold unread at 1.
  exact (proj2 (register_scanned_waits_at id (lr_answers result) (ended unread))).
Qed.
End landing.

(** ** A read that is started *)
Definition ask_end (w : Waits) : bool := existsb wants_end (held_at w).
Definition ask_scans (w : Waits) : list (N * LogAsk) := concat ((λ h, (ask_of (w_next_read w) h).1.2) <$> held_at w).
Definition ask_lines (w : Waits) : list HeldAnswer := filter (λ h, asks_lines pane h = true) (w_answers w).
Definition asks_log (w : Waits) : bool := ask_end w || negb (bool_decide (length (ask_scans w) + length (ask_lines w) = 0)).

(** The waits once their read is started. *)
Definition marked (w : Waits) : Waits :=
  w_on_answers (fmap (λ h, if asks_lines pane h then mark_read (w_next_read w) h else h))
    (w_on_held (alter (λ _ : list HeldWait, (ask_of (w_next_read w) <$> held_at w).*2) pane) w).
Definition started (w : Waits) : Waits :=
  w_on_reads (<[pane := {| pd_id := w_next_read w; pd_end := ask_end w |}]>) (w_on_next_read N.succ (marked w)).

Lemma ask_of_end id h : (ask_of id h).1.1 = wants_end h.
Proof.
  unfold ask_of, wants_end. destruct (hw_adopting h); cbn; [by rewrite andb_false_r|]. destruct (hw_scan h); cbn; [|done].
  destruct (is_some (hw_read h)); [done|]. by destruct (scan_ask _ _).
Qed.

Lemma start_read_eq rl w :
  start_read is_match c rl pane w =
  if is_some (w_reads w !! pane) then w else
  if asks_log w then
    match row c pane with
    | Some _ => start_read is_match c unread pane w
    | None => handle_log_read is_match c rl pane (w_next_read w) {| lr_tail := None; lr_answers := ∅ |} (started w)
    end
  else marked w.
Proof.
  unfold start_read, asks_log, started, ask_end, ask_scans, ask_lines. destruct (is_some _); [done|]. cbv zeta. fold (held_at w).
  assert (existsb (λ a : bool * list (N * LogAsk) * HeldWait, a.1.1) (ask_of (w_next_read w) <$> held_at w) = existsb wants_end (held_at w)) as ->.
  { induction (held_at w) as [|h l IH]; [done|]. cbn. by rewrite IH, ask_of_end. }
  rewrite <-list_fmap_compose, length_app, length_fmap. unfold compose.
  destruct (existsb wants_end (held_at w)); cbn [negb andb orb]; [by destruct (row c pane)|].
  destruct (bool_decide _); cbn [negb]; [done|]. by destruct (row c pane).
Qed.

Lemma started_tidy w : tidy w → tidy (started w).
Proof. intros Hw. eapply tidy_same; [| | | |exact (asked_tidy pane w Hw)]; done. Qed.

Lemma started_at w : held_at (started w) = (ask_of (w_next_read w) <$> held_at w).*2.
Proof.
  unfold started, marked, held_at at 1. cbn. rewrite lookup_alter_eq. unfold held_at. by destruct (w_held w !! pane).
Qed.

Lemma started_read w : w_reads (started w) !! pane = Some {| pd_id := w_next_read w; pd_end := ask_end w |}.
Proof. apply lookup_insert_eq. Qed.

(** What a read answered at once leaves to ask. *)
Definition next (w : Waits) : Waits :=
  handle_log_read is_match c unread pane (w_next_read w) {| lr_tail := None; lr_answers := ∅ |} (started w).

Definition no_ends (w : Waits) : Prop := Forall (λ h, wants_end h = false) (held_at w).
Definition no_scans (w : Waits) : Prop := Forall wants_nothing (held_at w).
Definition no_asks (w : Waits) : Prop := no_scans w ∧ ask_lines w = [].

Lemma next_at w :
  tidy w →
  held_at (next w) =
  filter (λ h, scanned_by (w_next_read w) h = false)
    (held_at (ended (w_next_read w) (ask_end w) {| lr_tail := None; lr_answers := ∅ |} (started w) unread)).
Proof. intros Hw. apply handle_log_read_at, started_read. Qed.

Lemma ask_of_wants id h : wants_end (ask_of id h).2 = wants_end h.
Proof.
  unfold ask_of. destruct (is_some (hw_adopting h)); [done|]. destruct (hw_scan h) as [scan|] eqn:E; [|done].
  destruct (is_some (hw_read h)); [done|]. destruct (scan_ask _ _); [|done]. unfold wants_end. cbn. by rewrite E.
Qed.

Lemma no_ends_ask w : ask_end w = false ↔ no_ends w.
Proof.
  unfold ask_end, no_ends. induction (held_at w) as [|h l IH]; cbn; [by split; [constructor|]|].
  rewrite orb_false_iff, Forall_cons, IH. done.
Qed.

Lemma ended_no_ends w :
  no_ends w →
  held_at (ended (w_next_read w) (ask_end w) {| lr_tail := None; lr_answers := ∅ |} (started w) unread) = (ask_of (w_next_read w) <$> held_at w).*2.
Proof. intros Hn%no_ends_ask. unfold ended. rewrite Hn, (same_at _ _ (reported_same _ _ _)). apply started_at. Qed.

Lemma next_ends w : tidy w → no_ends (next w).
Proof.
  intros Hw. unfold no_ends. rewrite next_at by done. apply Forall_filter. destruct (ask_end w) eqn:E.
  - unfold ended. apply answer_held_waits_at. by apply reported_tidy, started_tidy.
  - pose proof (ended_no_ends w (proj1 (no_ends_ask w) E)) as Ee. rewrite E in Ee. rewrite Ee. apply no_ends_ask in E. rewrite <-list_fmap_compose. apply Forall_fmap.
    eapply Forall_impl; [exact E|]. intros h Hh. unfold compose. cbn beta. rewrite ask_of_wants. exact Hh.
Qed.

Lemma ask_of_scanned id h : wants_end h = false → (scanned_by id (ask_of id h).2 = true) ∨ (ask_of id h).2 = h ∧ wants_nothing h.
Proof.
  intros Hw. unfold wants_nothing. rewrite Hw. unfold ask_of, scanned_by. destruct (is_some (hw_adopting h)); [by right|].
  destruct (hw_scan h) as [scan|] eqn:E; [|by right]. destruct (is_some (hw_read h)); [by right|]. destruct (scan_ask _ _); [left|by right].
  cbn. rewrite ?E. cbn. by rewrite bool_decide_true.
Qed.

Lemma next_scans w : tidy w → no_ends w → no_scans (next w).
Proof.
  intros Hw Hn. unfold no_scans. rewrite next_at, ended_no_ends by done. apply Forall_forall.
  intros h' [Hs Hh]%list_elem_of_filter. rewrite <-list_fmap_compose in Hh. apply list_elem_of_fmap in Hh as (h & -> & Hh). cbn in Hs |- *.
  unfold no_ends in Hn. rewrite Forall_forall in Hn. destruct (ask_of_scanned (w_next_read w) h (Hn h Hh)) as [E|[-> Hq]]; [congruence|done].
Qed.

Lemma ask_of_none id h : wants_nothing h → ask_of id h = (false, [], h).
Proof.
  intros [He Ha]. revert Ha. rewrite (surjective_pairing (ask_of id h)), (surjective_pairing (ask_of id h).1), ask_of_end, He.
  unfold wants_end in He. unfold ask_of. destruct (hw_adopting h); cbn; [done|]. destruct (hw_scan h); cbn; [|done].
  destruct (is_some (hw_read h)); [done|]. by destruct (scan_ask _ _).
Qed.

Lemma no_scans_ends w : no_scans w → no_ends w.
Proof. intros Hn. eapply Forall_impl; [exact Hn|]. by intros h [Hh _]. Qed.

Lemma no_scans_asked id w : no_scans w → (ask_of id <$> held_at w).*2 = held_at w.
Proof.
  unfold no_scans. intros Hn. rewrite <-list_fmap_compose. rewrite <-(list_fmap_id (held_at w)) at 2. apply list_fmap_ext. intros i h Hi. cbn.
  rewrite ask_of_none; [done|]. rewrite Forall_lookup in Hn. by apply (Hn i).
Qed.

Lemma no_scans_read w : tidy w → filter (λ h, scanned_by (w_next_read w) h = true) (held_at w) = [].
Proof.
  intros [_ Hk]. pose proof (keyed_at _ pane _ Hk) as Ha. fold (held_at w) in Ha. apply filter_none. intros h Hh.
  rewrite Forall_forall in Ha. destruct (Ha h Hh) as [_ Hr]. unfold scanned_by. rewrite bool_decide_false; [rewrite andb_false_r; done|].
  intros E. rewrite E in Hr. lia.
Qed.

Lemma deliver_answers o x w : w_answers (deliver o x w) = w_answers w.
Proof.
  destruct x as [y|group slot]; cbn [deliver]; [done|]. destruct (w_groups w !! group); [|done]. unfold fill. cbv beta iota zeta. by destruct (existsb _ _).
Qed.

Lemma foldl_answers {A} (f : Waits → A → Waits) l w : (∀ w a, w_answers (f w a) = w_answers w) → w_answers (foldl f w l) = w_answers w.
Proof. intros Hf. revert w. induction l as [|a l IH]; intros w; [done|]. cbn. by rewrite IH. Qed.

Lemma send_held_answers_answers id answers w :
  w_answers (send_held_answers id answers w) = filter (λ h, bool_decide (ha_read h = Some id) = false) (w_answers w).
Proof. unfold send_held_answers, extract_answers. cbv beta iota. rewrite foldl_answers; [done|]. intros. apply deliver_answers. Qed.

Lemma report_render_faults_answers p n w : w_answers (report_render_faults c p n w) = w_answers w.
Proof.
  unfold report_render_faults. set (w1 := if (0 <? n)%N then _ else w).
  assert (w_answers w1 = w_answers w) as <- by (unfold w1; by destruct (0 <? n)%N). destruct (w_taps w1 !! p) as [t|]; [|done].
  rewrite (surjective_pairing (take_fault_report t)). cbv beta iota. rewrite (surjective_pairing (take_read_fault_report _)). cbv beta iota zeta.
  by rewrite foldl_answers.
Qed.

Lemma next_lines w : tidy w → no_scans w → no_asks (next w).
Proof.
  intros Hw Hn. pose proof (no_scans_ends w Hn) as He. split.
  { unfold no_scans. rewrite next_at, ended_no_ends, no_scans_asked by done. by apply Forall_filter. }
  unfold ask_lines, next. rewrite (handle_log_read_eq _ _ _ _ (started_read w)). unfold unread at 1. cbn.
  rewrite register_scanned_waits_none.
  - unfold ended. rewrite (proj2 (no_ends_ask w) He). unfold reported. rewrite report_render_faults_answers, send_held_answers_answers.
    apply filter_none. intros h [Hr Hh]%list_elem_of_filter. unfold started, marked in Hh. cbn in Hh.
    apply list_elem_of_fmap in Hh as (k & -> & _). destruct (asks_lines pane k) eqn:E; [|by rewrite E].
    cbn in Hr. by rewrite bool_decide_true in Hr.
  - rewrite ended_no_ends, no_scans_asked by done. by apply no_scans_read.
Qed.

Lemma no_asks_log w : no_asks w → asks_log w = false.
Proof.
  intros [Hn Hl]. unfold asks_log. rewrite (proj2 (no_ends_ask w) (no_scans_ends w Hn)), Hl. cbn.
  assert (ask_scans w = []) as ->; [|by rewrite bool_decide_true].
  unfold ask_scans, no_scans in *. induction Hn as [|h l Hh _ IH]; [done|]. cbn. by rewrite (ask_of_none _ h Hh), IH.
Qed.

(** ** The fuel is enough *)
Lemma read_log_waits fuel w : reading w → read_log is_match c fuel pane w = w.
Proof. destruct fuel as [|fuel]; cbn [read_log]; [done|]. intros Hr. rewrite start_read_eq. unfold reading in Hr. by rewrite Hr. Qed.

(** One read, and what it starts. *)
Lemma read_log_step fuel w :
  tidy w →
  read_log is_match c (S fuel) pane w =
  if is_some (w_reads w !! pane) then w else
  if asks_log w then match row c pane with Some _ => start_read is_match c unread pane w | None => read_log is_match c fuel pane (next w) end
  else marked w.
Proof.
  intros Hw. cbn [read_log]. rewrite start_read_eq. destruct (is_some _); [done|]. destruct (asks_log w); [|done]. destruct (row c pane); [done|].
  apply (handle_log_read_lands _ _ _ _ (started_tidy w Hw) (started_read w)). apply read_log_waits.
Qed.

Lemma next_tidy w : tidy w → tidy (next w).
Proof. intros Hw. apply handle_log_read_tidy; [done|]. by apply started_tidy. Qed.

(** Fuel past what is needed changes nothing. *)
Lemma read_log_more (Q R : Waits → Prop) k :
  (∀ w, tidy w → Q w → R (next w)) →
  (∀ w n, tidy w → R w → read_log is_match c (k + n) pane w = read_log is_match c k pane w) →
  ∀ w n, tidy w → Q w → read_log is_match c (S k + n) pane w = read_log is_match c (S k) pane w.
Proof.
  intros HQ HR w n Hw Hq. cbn [Nat.add]. rewrite !read_log_step by done. destruct (is_some _); [done|]. destruct (asks_log w); [|done].
  destruct (row c pane); [done|]. apply HR; [by apply next_tidy|by apply HQ].
Qed.

Lemma read_log_enough w n : tidy w → read_log is_match c (READ_DEPTH + n) pane w = read_log is_match c READ_DEPTH pane w.
Proof.
  intros Hw. apply (read_log_more (λ _, True) no_ends 3); [by intros; apply next_ends| |done|done].
  apply (read_log_more no_ends no_scans 2); [by intros; apply next_scans|].
  apply (read_log_more no_scans no_asks 1); [by intros; apply next_lines|].
  intros w1 n1 H1 Hn. change (1 + n1) with (S n1). rewrite !read_log_step by done. by rewrite no_asks_log.
Qed.
End ending.

(** The read of a log that [read_now] starts ends: however its answers
    hold more waits and answers and start more reads, four in a row are all
    there are, in every state the waits of a supervisor come to. *)
Theorem log_reads_end `{LineRenderer} compile_error is_match show_duration replay_matching (l : list (Core * WaitAct)) (c : Core) (pane : N) (n : nat) :
  let w := acts compile_error is_match show_duration replay_matching l waits_new in
  read_log is_match c (READ_DEPTH + n) pane w = read_now is_match c pane w.
Proof. apply read_log_enough, acts_tidy, tidy_new. Qed.
