(* ===== verification/SupInv.v ===== *)
(** * What a supervisor keeps of each pane

    The part of a supervisor's state that says what may run on a pane: its
    live handle, its unsupervised child, its launch in flight, its generation,
    and the generations it handed to workers. Every handler of Lifecycle.v
    changes this [slice] of one pane only, and keeps it well formed. *)
From S2P Require Import Prelude RustText RustPath Values Process Config StackSync EventLog Books SupState Lifecycle.

(** What the history says of a pane's generations: one handed to the worker
    of a launch or adoption, one a delayed restart waits with, and that they
    wrapped around. *)
Inductive Mark := MJob (g : N) | MTimer (g : N) | MWrap.

Definition mark_of (pane : N) (e : Effect) : option Mark :=
  match e with
  | FJob (JSpawn p g _ _) | FJob (JLocate p g _) | FJob (JAdopt p g _ _) => if (p =? pane)%N then Some (MJob g) else None
  | FJob (JRespawn p g _) => if (p =? pane)%N then Some (MTimer g) else None
  | FGeneration p g => if (p =? pane)%N && (g =? 0)%N then Some MWrap else None
  | _ => None
  end.

Record Slice := {
  sl_live : option Handle;
  sl_unsup : option UnsupervisedChild;
  sl_launch : option PendingLaunch;
  sl_gen : option N;
  sl_known : bool;
  sl_pane : bool;
  sl_detaching : bool;
  sl_marks : list Mark;
}.

(** Changes to a slice. *)
Definition with_live (h : option Handle) (sl : Slice) : Slice :=
  {| sl_live := h; sl_unsup := sl_unsup sl; sl_launch := sl_launch sl; sl_gen := sl_gen sl; sl_known := sl_known sl;
     sl_pane := sl_pane sl; sl_detaching := sl_detaching sl; sl_marks := sl_marks sl |}.
Definition with_unsup (u : option UnsupervisedChild) (sl : Slice) : Slice :=
  {| sl_live := sl_live sl; sl_unsup := u; sl_launch := sl_launch sl; sl_gen := sl_gen sl; sl_known := sl_known sl;
     sl_pane := sl_pane sl; sl_detaching := sl_detaching sl; sl_marks := sl_marks sl |}.
Definition with_launch (l : option PendingLaunch) (sl : Slice) : Slice :=
  {| sl_live := sl_live sl; sl_unsup := sl_unsup sl; sl_launch := l; sl_gen := sl_gen sl; sl_known := sl_known sl;
     sl_pane := sl_pane sl; sl_detaching := sl_detaching sl; sl_marks := sl_marks sl |}.
Definition with_next_gen (sl : Slice) : Slice :=
  {| sl_live := sl_live sl; sl_unsup := sl_unsup sl; sl_launch := sl_launch sl;
     sl_gen := Some (wrapping_next (default 0%N (sl_gen sl))); sl_known := sl_known sl;
     sl_pane := sl_pane sl; sl_detaching := sl_detaching sl;
     sl_marks := (if (wrapping_next (default 0%N (sl_gen sl)) =? 0)%N then [MWrap] else []) ++ sl_marks sl |}.
Definition with_known (k : bool) (sl : Slice) : Slice :=
  {| sl_live := sl_live sl; sl_unsup := sl_unsup sl; sl_launch := sl_launch sl; sl_gen := sl_gen sl; sl_known := k;
     sl_pane := sl_pane sl; sl_detaching := sl_detaching sl; sl_marks := sl_marks sl |}.
Definition with_pane (h : option Handle) (u : option UnsupervisedChild) (exists_ : bool) (sl : Slice) : Slice :=
  {| sl_live := h; sl_unsup := u; sl_launch := sl_launch sl; sl_gen := sl_gen sl; sl_known := sl_known sl;
     sl_pane := exists_; sl_detaching := sl_detaching sl; sl_marks := sl_marks sl |}.
Definition with_mark (m : Mark) (sl : Slice) : Slice :=
  {| sl_live := sl_live sl; sl_unsup := sl_unsup sl; sl_launch := sl_launch sl; sl_gen := sl_gen sl; sl_known := sl_known sl;
     sl_pane := sl_pane sl; sl_detaching := sl_detaching sl; sl_marks := m :: sl_marks sl |}.
Definition with_detaching (sl : Slice) : Slice :=
  {| sl_live := sl_live sl; sl_unsup := sl_unsup sl; sl_launch := sl_launch sl; sl_gen := sl_gen sl; sl_known := sl_known sl;
     sl_pane := sl_pane sl; sl_detaching := true; sl_marks := sl_marks sl |}.

(** At one pane a change, elsewhere none. *)
Definition at_pane (p q : N) (f : Slice → Slice) (sl : Slice) : Slice := if decide (q = p) then f sl else sl.

Lemma at_pane_self p f sl : at_pane p p f sl = f sl.
Proof. unfold at_pane. by rewrite decide_True. Qed.
Lemma at_pane_other p q f sl : q ≠ p → at_pane p q f sl = sl.
Proof. intros. unfold at_pane. by rewrite decide_False. Qed.

#[local] Arguments ws_process : simpl never.

Section slices.
Context `{Watching}.

Definition slice (s : Sup) (pane : N) : Slice :=
  {| sl_live := live s pane; sl_unsup := unsupervised s pane; sl_launch := launch s pane; sl_gen := generation s pane;
     sl_known := is_some (proc s pane); sl_pane := is_some (s_panes (sup_core s) !! pane);
     sl_detaching := detaching (s_launches (sup_core s)); sl_marks := omap (mark_of pane) (sup_trace s) |}.

(** ** Workspaces *)
Lemma ws_process_is_some ws pane : is_some (ws_process ws pane) = bool_decide (pane ∈ p_id <$> ws).
Proof.
  unfold ws_process. induction ws as [|p ws IH]; [done|]. cbn [position_of].
  destruct (N.eqb_spec (p_id p) pane) as [<-|Hne].
  - symmetry. apply bool_decide_eq_true. left.
  - transitivity (bool_decide (pane ∈ p_id <$> ws)).
    + rewrite <-IH. by destruct (position_of ws pane).
    + apply bool_decide_ext. rewrite fmap_cons, elem_of_cons. naive_solver.
Qed.

Lemma position_of_lookup ws pane i : position_of ws pane = Some i → p_id <$> ws !! i = Some pane.
Proof.
  revert i. induction ws as [|p ws IH]; intros i; [done|]. cbn.
  destruct (N.eqb_spec (p_id p) pane) as [<-|Hne]; [by intros [= <-]|].
  destruct (position_of ws pane) as [j|]; [|done]. intros [= <-]. cbn. by apply IH.
Qed.

Lemma ws_set_state_ids ws pane st : p_id <$> ws_set_state ws pane st = p_id <$> ws.
Proof.
  unfold ws_set_state. destruct (position_of ws pane) as [i|]; [|done].
  apply list_eq. intros j. rewrite !list_lookup_fmap. destruct (decide (i = j)) as [->|Hne].
  - rewrite list_lookup_alter_eq. by destruct (ws !! j).
  - by rewrite list_lookup_alter_ne.
Qed.

Lemma ws_remove_ids_other ws pane q : q ≠ pane → q ∈ p_id <$> ws_remove ws pane ↔ q ∈ p_id <$> ws.
Proof.
  intros Hq. unfold ws_remove. destruct (position_of ws pane) as [i|] eqn:E; [|done].
  apply position_of_lookup in E. destruct (ws !! i) as [p|] eqn:Hi; [|done]. injection E as Hp.
  apply delete_Permutation in Hi. apply (fmap_Permutation p_id) in Hi. rewrite fmap_cons in Hi.
  rewrite Hi, elem_of_cons. naive_solver.
Qed.

(** ** Steps that keep every slice *)
Lemma slice_emit e s q :
  slice (emit e s) q =
    {| sl_live := live s q; sl_unsup := unsupervised s q; sl_launch := launch s q; sl_gen := generation s q;
       sl_known := is_some (proc s q); sl_pane := is_some (s_panes (sup_core s) !! q);
       sl_detaching := detaching (s_launches (sup_core s));
       sl_marks := match mark_of q e with Some m => [m] | None => [] end ++ omap (mark_of q) (sup_trace s) |}.
Proof. unfold slice. cbn. by destruct (mark_of q e). Qed.

Lemma slice_emit_same e s q : mark_of q e = None → slice (emit e s) q = slice s q.
Proof. intros E. rewrite slice_emit, E. done. Qed.

Lemma slice_tell op s q : slice (tell op s) q = slice s q.
Proof.
  unfold tell. destruct (watch_step _ _ _) as [w es]. unfold slice. cbn. f_equal.
  rewrite omap_app. assert (omap (mark_of q) (rev (FWatch <$> es)) = []) as ->; [|done].
  induction es as [|e es IH]; [done|]. cbn. rewrite omap_app, IH. done.
Qed.

Lemma slice_call env c s q : slice (call env c s).2 q = slice s q.
Proof. by apply slice_emit_same. Qed.

Lemma slice_upd_same f s q :
  s_panes (f (sup_core s)) = s_panes (sup_core s) →
  p_id <$> s_workspace (f (sup_core s)) = p_id <$> s_workspace (sup_core s) →
  s_generations (f (sup_core s)) = s_generations (sup_core s) →
  pending (s_launches (f (sup_core s))) = pending (s_launches (sup_core s)) →
  detaching (s_launches (f (sup_core s))) = detaching (s_launches (sup_core s)) →
  slice (upd f s) q = slice s q.
Proof.
  intros Hp Hw Hg Hl Hd. unfold slice, live, unsupervised, launch, generation, proc. cbn.
  by rewrite Hp, Hg, Hl, Hd, !ws_process_is_some, Hw.
Qed.

Lemma slice_set_state pane st s q : slice (set_state pane st s) q = slice s q.
Proof. apply slice_upd_same; cbn; try done. apply ws_set_state_ids. Qed.

Lemma slice_alter_same f pane s q :
  (∀ p, pn_handle (f p) = pn_handle p) → (∀ p, pn_unsupervised (f p) = pn_unsupervised p) →
  slice (alter_pane f pane s) q = slice s q.
Proof.
  intros Hh Hu. unfold slice, live, unsupervised, alter_pane. cbn.
  destruct (decide (pane = q)) as [->|Hne]; [|by rewrite lookup_alter_ne].
  rewrite lookup_alter_eq. destruct (s_panes (sup_core s) !! q) as [p|]; cbn; by rewrite ?Hh, ?Hu.
Qed.

Lemma slice_raise level p m b s q : slice (raise level p m b s) q = slice s q.
Proof. unfold raise. rewrite !slice_emit_same by done. by apply slice_upd_same. Qed.

Lemma slice_notify level p m s q : slice (notify level p m s) q = slice s q.
Proof. apply slice_raise. Qed.

Lemma slice_notify_process level p m s q : slice (notify_process level p m s) q = slice s q.
Proof. apply slice_raise. Qed.

Lemma slice_notify_blocked n b s q : slice (notify_blocked n b s) q = slice s q.
Proof. apply slice_raise. Qed.

Lemma slice_record_event p k d s q : slice (record_event p k d s) q = slice s q.
Proof. by apply slice_emit_same. Qed.

Lemma slice_set_attached p n s q : slice (set_attached p n s) q = slice s q.
Proof. by apply slice_upd_same. Qed.

Lemma slice_drop_handle p s q : slice (drop_handle p s) q = slice s q.
Proof. unfold drop_handle. destruct (live s p); [by apply slice_emit_same|done]. Qed.

Lemma slice_advance_shutdown p s q : slice (advance_shutdown_generation p s) q = slice s q.
Proof. by apply slice_alter_same. Qed.

Lemma slice_on_restarts f s q : slice (upd (on_restarts f) s) q = slice s q.
Proof. by apply slice_upd_same. Qed.
Lemma slice_on_metrics f s q : slice (upd (on_metrics f) s) q = slice s q.
Proof. by apply slice_upd_same. Qed.
Lemma slice_on_attach f s q : slice (upd (on_attach f) s) q = slice s q.
Proof. by apply slice_upd_same. Qed.
Lemma slice_on_retries f s q : slice (upd (on_retries f) s) q = slice s q.
Proof. by apply slice_upd_same. Qed.
Lemma slice_on_refusals f s q : slice (upd (on_refusals f) s) q = slice s q.
Proof. by apply slice_upd_same. Qed.
Lemma slice_on_failing f s q : slice (upd (on_failing_screens f) s) q = slice s q.
Proof. by apply slice_upd_same. Qed.
Lemma slice_on_collect f s q : slice (upd (on_collect_after_stop f) s) q = slice s q.
Proof. by apply slice_upd_same. Qed.
Lemma slice_on_project f s q : slice (upd (on_project f) s) q = slice s q.
Proof. by apply slice_upd_same. Qed.
Lemma slice_on_settings f s q : slice (upd (on_settings f) s) q = slice s q.
Proof. by apply slice_upd_same. Qed.
Lemma slice_on_left_at f s q : slice (upd (on_left_at f) s) q = slice s q.
Proof. by apply slice_upd_same. Qed.
Lemma slice_on_idle f s q : slice (upd (on_idle_stopping f) s) q = slice s q.
Proof. by apply slice_upd_same. Qed.
Lemma slice_on_now f s q : slice (upd (on_now f) s) q = slice s q.
Proof. by apply slice_upd_same. Qed.
Lemma slice_set_environment p e s q : slice (upd (on_launches (Book.set_environment p e)) s) q = slice s q.
Proof. by apply slice_upd_same. Qed.
Lemma slice_launch_forget p s q : slice (upd (on_launches (Book.forget p)) s) q = slice s q.
Proof. by apply slice_upd_same. Qed.

(** ** Steps that change one slice *)
Lemma slice_emit_mark e p m s q : (∀ q, mark_of q e = if (p =? q)%N then Some m else None) →
  slice (emit e s) q = at_pane p q (with_mark m) (slice s q).
Proof.
  intros Hj. rewrite slice_emit, Hj. unfold at_pane. destruct (N.eqb_spec p q) as [->|Hne].
  - by rewrite decide_True.
  - by rewrite decide_False.
Qed.

Lemma slice_job_spawn p g r n s q : slice (emit (FJob (JSpawn p g r n)) s) q = at_pane p q (with_mark (MJob g)) (slice s q).
Proof. by apply slice_emit_mark. Qed.
Lemma slice_job_locate p g pid s q : slice (emit (FJob (JLocate p g pid)) s) q = at_pane p q (with_mark (MJob g)) (slice s q).
Proof. by apply slice_emit_mark. Qed.
Lemma slice_job_adopt p g r n s q : slice (emit (FJob (JAdopt p g r n)) s) q = at_pane p q (with_mark (MJob g)) (slice s q).
Proof. by apply slice_emit_mark. Qed.

Lemma slice_timer p g d s q : slice (emit (FJob (JRespawn p g d)) s) q = at_pane p q (with_mark (MTimer g)) (slice s q).
Proof. by apply slice_emit_mark. Qed.

Lemma slice_advance_generation p s q : slice (advance_generation p s) q = at_pane p q with_next_gen (slice s q).
Proof.
  unfold advance_generation. cbv zeta. rewrite slice_emit. unfold at_pane, slice, with_next_gen, generation, current_generation; cbn.
  destruct (decide (q = p)) as [->|Hne].
  - rewrite lookup_insert_eq, N.eqb_refl. cbn. by destruct (_ =? _)%N.
  - rewrite lookup_insert_ne by done. rewrite (proj2 (N.eqb_neq p q)) by done. done.
Qed.

(** A change of the launch book that only changes a pane's launch. *)
Lemma slice_on_launches p l f s q :
  pending (f (s_launches (sup_core s))) = partial_alter (λ _, l) p (pending (s_launches (sup_core s))) →
  detaching (f (s_launches (sup_core s))) = detaching (s_launches (sup_core s)) →
  slice (upd (on_launches f) s) q = at_pane p q (with_launch l) (slice s q).
Proof.
  intros Hp Hd. unfold at_pane, slice, launch, generation, live, unsupervised, proc. cbn. rewrite Hp, Hd.
  destruct (decide (q = p)) as [->|Hne]; [by rewrite lookup_partial_alter_eq|by rewrite lookup_partial_alter_ne].
Qed.

Lemma slice_begin p l s q : slice (upd (on_launches (Book.begin p l)) s) q = at_pane p q (with_launch (Some l)) (slice s q).
Proof. by apply slice_on_launches. Qed.

Lemma slice_cancel p s q : slice (upd (on_launches (Book.cancel p)) s) q = at_pane p q (with_launch None) (slice s q).
Proof. by apply slice_on_launches. Qed.

Lemma slice_bump p s q : slice (bump_generation p s) q = at_pane p q (λ sl, with_next_gen (with_launch None sl)) (slice s q).
Proof. unfold bump_generation. rewrite slice_advance_generation, slice_cancel. unfold at_pane. by destruct (decide (q = p)). Qed.

(** What is recorded on a launch keeps its generation and purpose. *)
Lemma slice_alter_launch f p book s q :
  pending (book (s_launches (sup_core s))) = alter f p (pending (s_launches (sup_core s))) →
  detaching (book (s_launches (sup_core s))) = detaching (s_launches (sup_core s)) →
  slice (upd (on_launches book) s) q = at_pane p q (λ sl, with_launch (f <$> sl_launch sl) sl) (slice s q).
Proof.
  intros Hp Hd. unfold at_pane, slice, launch, generation, live, unsupervised, proc. cbn. rewrite Hp, Hd.
  destruct (decide (q = p)) as [->|Hne]; [by rewrite lookup_alter_eq|by rewrite lookup_alter_ne].
Qed.

Lemma slice_take_handle p s q : slice (alter_pane take_handle p s) q = at_pane p q (with_live None) (slice s q).
Proof.
  unfold at_pane, slice, live, unsupervised, alter_pane. cbn.
  destruct (decide (q = p)) as [->|Hne]; [|by rewrite lookup_alter_ne].
  rewrite lookup_alter_eq. by destruct (s_panes (sup_core s) !! p) as [t|].
Qed.

Lemma slice_deactivate p s q : slice (deactivate p s) q = at_pane p q (with_live None) (slice s q).
Proof.
  unfold deactivate. set (s' := drop_handle _ _).
  assert (slice s' q = slice s q) as Hs. { unfold s'. by rewrite slice_drop_handle, slice_set_attached, slice_on_metrics. }
  rewrite <-Hs. clearbody s'. unfold at_pane, slice, live, unsupervised, alter_pane. cbn.
  destruct (decide (q = p)) as [->|Hne]; [|by rewrite lookup_alter_ne].
  rewrite lookup_alter_eq. by destruct (s_panes (sup_core s') !! p) as [t|].
Qed.

Lemma slice_set_unsupervised c p s q :
  slice (alter_pane (set_unsupervised c) p s) q =
    at_pane p q (λ sl, with_unsup (if sl_pane sl then c else sl_unsup sl) sl) (slice s q).
Proof.
  unfold at_pane, slice, live, unsupervised, alter_pane. cbn.
  destruct (decide (q = p)) as [->|Hne]; [|by rewrite lookup_alter_ne].
  rewrite lookup_alter_eq. by destruct (s_panes (sup_core s) !! p) as [t|].
Qed.

Lemma slice_alter_child f p s q :
  slice (alter_child f p s) q = at_pane p q (λ sl, with_unsup (f <$> sl_unsup sl) sl) (slice s q).
Proof.
  unfold at_pane, slice, live, unsupervised, alter_child, alter_pane. cbn.
  destruct (decide (q = p)) as [->|Hne]; [|by rewrite lookup_alter_ne].
  rewrite lookup_alter_eq. by destruct (s_panes (sup_core s) !! p) as [t|].
Qed.

Lemma slice_insert_pane t p s q :
  slice (upd (on_panes (<[p := t]>)) s) q = at_pane p q (with_pane (pn_handle t) (pn_unsupervised t) true) (slice s q).
Proof.
  unfold at_pane, slice, live, unsupervised. cbn.
  destruct (decide (q = p)) as [->|Hne]; [by rewrite lookup_insert_eq|by rewrite lookup_insert_ne].
Qed.

Lemma slice_delete_pane p s q :
  slice (upd (on_panes (delete p)) s) q = at_pane p q (with_pane None None false) (slice s q).
Proof.
  unfold at_pane, slice, live, unsupervised. cbn.
  destruct (decide (q = p)) as [->|Hne]; [by rewrite lookup_delete_eq|by rewrite lookup_delete_ne].
Qed.

(** Removing a row changes only whether that pane is known. *)
Lemma slice_ws_remove p s q :
  ∃ k, slice (upd (on_workspace (λ w, ws_remove w p)) s) q = at_pane p q (with_known k) (slice s q).
Proof.
  exists (is_some (ws_process (ws_remove (s_workspace (sup_core s)) p) q)).
  unfold at_pane, slice, proc. cbn. destruct (decide (q = p)) as [->|Hne]; [done|].
  rewrite !ws_process_is_some. f_equal. apply bool_decide_ext. by apply ws_remove_ids_other.
Qed.
End slices.
