(* ===== verification/SupLocal.v ===== *)
(** * Handlers are local to their pane

    Every handler of Lifecycle.v that names a pane leaves the slices of all
    other panes as they were. *)
From S2P Require Import Prelude RustText RustPath Values Process Config StackSync EventLog Books SupState Lifecycle SupInv.

#[global] Hint Rewrite @slice_tell @slice_call @slice_set_state @slice_raise @slice_notify @slice_notify_process
  @slice_notify_blocked @slice_record_event @slice_set_attached @slice_drop_handle @slice_advance_shutdown @slice_on_restarts
  @slice_on_metrics @slice_on_attach @slice_on_retries @slice_on_refusals @slice_on_failing @slice_on_collect @slice_on_project
  @slice_on_settings @slice_on_left_at @slice_on_idle @slice_on_now @slice_set_environment @slice_launch_forget : slices.
#[global] Hint Rewrite @slice_job_spawn @slice_job_locate @slice_job_adopt @slice_timer @slice_advance_generation @slice_begin @slice_cancel
  @slice_bump @slice_take_handle @slice_deactivate @slice_set_unsupervised @slice_alter_child @slice_insert_pane
  @slice_delete_pane : slices.
#[global] Hint Rewrite @at_pane_self : slices.
#[global] Hint Rewrite @at_pane_other using (assumption || congruence) : slices.
#[global] Hint Rewrite @slice_emit_same using (reflexivity) : slices.
#[global] Hint Rewrite @slice_alter_same using (intros; reflexivity) : slices.

(** Reads a handler's lets and branches until its slices are plain. *)
Ltac split_pair :=
  match goal with
  | |- context [match ?e with pair _ _ => _ end] =>
    lazymatch e with pair _ _ => fail | _ => rewrite (surjective_pairing e); cbv beta iota end
  end.
Ltac split_branch :=
  match goal with
  | |- context [match ?e with _ => _ end] =>
    lazymatch type of e with
    | prod _ _ => fail
    | _ => destruct e eqn:?
    end
  end.
Ltac slices := repeat first [progress cbn beta iota zeta delta [fst snd] | progress autorewrite with slices | split_pair | split_branch].

(** ** Handlers that change no slice *)
Lemma store_end_slice `{Watching} pane o s r : slice (store_end pane o s) r = slice s r.
Proof. unfold store_end. by slices. Qed.
#[global] Hint Rewrite @store_end_slice : slices.

Lemma alert_desktop_slice `{Watching} pane m s r : slice (alert_desktop pane m s) r = slice s r.
Proof. unfold alert_desktop. by slices. Qed.
#[global] Hint Rewrite @alert_desktop_slice : slices.

Lemma end_run_slice `{Watching} pane g reason next d s r : slice (end_run pane g reason next d s) r = slice s r.
Proof. unfold end_run. by slices. Qed.
#[global] Hint Rewrite @end_run_slice : slices.

Lemma schedule_force_stop_slice `{Watching} pane sg shg d s r : slice (schedule_force_stop pane sg shg d s) r = slice s r.
Proof. unfold schedule_force_stop. by slices. Qed.
#[global] Hint Rewrite @schedule_force_stop_slice : slices.

Lemma keep_screen_slice `{Watching} rt pane b z s r : slice (keep_screen rt pane b z s) r = slice s r.
Proof. unfold keep_screen. by slices. Qed.
#[global] Hint Rewrite @keep_screen_slice : slices.

Lemma running_unsupervised_pid_slice `{Watching} env pane s r : slice ((running_unsupervised_pid env pane s).2) r = slice s r.
Proof. unfold running_unsupervised_pid. by slices. Qed.
#[global] Hint Rewrite @running_unsupervised_pid_slice : slices.

Lemma check_unsupervised_after_slice `{Watching} pane w s r : slice (check_unsupervised_after pane w s) r = slice s r.
Proof. unfold check_unsupervised_after. by slices. Qed.
#[global] Hint Rewrite @check_unsupervised_after_slice : slices.

Lemma give_up_unsupervised_stop_slice `{Watching} pane s r : slice (give_up_unsupervised_stop pane s) r = slice s r.
Proof. unfold give_up_unsupervised_stop. by slices. Qed.
#[global] Hint Rewrite @give_up_unsupervised_stop_slice : slices.

Lemma retryable_pid_slice `{Watching} env pane s r : slice ((retryable_pid env pane s).2) r = slice s r.
Proof. unfold retryable_pid. by slices. Qed.
#[global] Hint Rewrite @retryable_pid_slice : slices.

Lemma probe_adoption_slice `{Watching} env pane a k s r : slice (probe_adoption env pane a k s) r = slice s r.
Proof. unfold probe_adoption. by slices. Qed.
#[global] Hint Rewrite @probe_adoption_slice : slices.

Lemma retry_adoption_now_slice `{Watching} env pane s r : slice ((retry_adoption_now env pane s).2) r = slice s r.
Proof. unfold retry_adoption_now. by slices. Qed.
#[global] Hint Rewrite @retry_adoption_now_slice : slices.

Lemma schedule_adoption_retry_slice `{Watching} pane s r : slice (schedule_adoption_retry pane s) r = slice s r.
Proof. unfold schedule_adoption_retry. by slices. Qed.
#[global] Hint Rewrite @schedule_adoption_retry_slice : slices.

Lemma refuse_unsupervised_start_slice `{Watching} pane pid s r : slice (refuse_unsupervised_start pane pid s) r = slice s r.
Proof. unfold refuse_unsupervised_start. by slices. Qed.
#[global] Hint Rewrite @refuse_unsupervised_start_slice : slices.

Lemma refuse_stored_problem_slice `{Watching} pane s r : slice ((refuse_stored_problem pane s).2) r = slice s r.
Proof. unfold refuse_stored_problem. by slices. Qed.
#[global] Hint Rewrite @refuse_stored_problem_slice : slices.

Lemma block_launch_slice `{Watching} pane b s r : slice (block_launch pane b s) r = slice s r.
Proof. unfold block_launch. by slices. Qed.
#[global] Hint Rewrite @block_launch_slice : slices.

Lemma refuse_blocked_launch_slice `{Watching} pane s r : slice ((refuse_blocked_launch pane s).2) r = slice s r.
Proof. unfold refuse_blocked_launch. by slices. Qed.
#[global] Hint Rewrite @refuse_blocked_launch_slice : slices.

Lemma set_launch_environment_slice `{Watching} pane e s r : slice (set_launch_environment pane e s) r = slice s r.
Proof. unfold set_launch_environment. by slices. Qed.
#[global] Hint Rewrite @set_launch_environment_slice : slices.

Lemma deliver_stop_slice `{Watching} env pane pol s r : slice ((deliver_stop env pane pol s).2) r = slice s r.
Proof. unfold deliver_stop. by slices. Qed.
#[global] Hint Rewrite @deliver_stop_slice : slices.

Lemma request_graceful_transition_slice `{Watching} env pane req rs s r : slice (request_graceful_transition env pane req rs s) r = slice s r.
Proof. unfold request_graceful_transition. by slices. Qed.
#[global] Hint Rewrite @request_graceful_transition_slice : slices.

Lemma signal_pause_slice `{Watching} env pane b s r : slice (signal_pause env pane b s) r = slice s r.
Proof. unfold signal_pause. by slices. Qed.
#[global] Hint Rewrite @signal_pause_slice : slices.

Lemma report_unrequested_exit_slice `{Watching} up pane i t o s r : slice (report_unrequested_exit up pane i t o s) r = slice s r.
Proof. unfold report_unrequested_exit. by slices. Qed.
#[global] Hint Rewrite @report_unrequested_exit_slice : slices.

Lemma acknowledge_slice `{Watching} env pane h s r : slice (acknowledge env pane h s) r = slice s r.
Proof. unfold acknowledge. by slices. Qed.
#[global] Hint Rewrite @acknowledge_slice : slices.

Lemma release_held_exit_slice `{Watching} env pane s r : slice (release_held_exit env pane s) r = slice s r.
Proof. unfold release_held_exit. by slices. Qed.
#[global] Hint Rewrite @release_held_exit_slice : slices.

Lemma adoption_failed_unsupervised_slice `{Watching} pane rec e s r : slice (adoption_failed_unsupervised pane rec e s) r = slice s r.
Proof. unfold adoption_failed_unsupervised. by slices. Qed.
#[global] Hint Rewrite @adoption_failed_unsupervised_slice : slices.

Lemma child_runs_or_collect_slice `{Watching} env rec s r : slice ((child_runs_or_collect env rec s).2) r = slice s r.
Proof. unfold child_runs_or_collect. by slices. Qed.
#[global] Hint Rewrite @child_runs_or_collect_slice : slices.

Lemma report_superseded_failure_slice `{Watching} env rec e s r : slice (report_superseded_failure env rec e s) r = slice s r.
Proof. unfold report_superseded_failure. by slices. Qed.
#[global] Hint Rewrite @report_superseded_failure_slice : slices.

Lemma collect_once_stopped_slice `{Watching} env pane rec s r : slice (collect_once_stopped env pane rec s) r = slice s r.
Proof. unfold collect_once_stopped. by slices. Qed.
#[global] Hint Rewrite @collect_once_stopped_slice : slices.

Lemma rearm_force_stop_slice `{Watching} pane s r : slice (rearm_force_stop pane s) r = slice s r.
Proof. unfold rearm_force_stop. by slices. Qed.
#[global] Hint Rewrite @rearm_force_stop_slice : slices.

Lemma release_stale_slice `{Watching} rel h s r : slice (release_stale rel h s) r = slice s r.
Proof. unfold release_stale. by slices. Qed.
#[global] Hint Rewrite @release_stale_slice : slices.

Lemma finish_batch_slice `{Watching} a l s r : slice ((finish_batch a l s).2) r = slice s r.
Proof. unfold finish_batch. by slices. Qed.
#[global] Hint Rewrite @finish_batch_slice : slices.

Lemma unsupervised_refusal_slice `{Watching} env pane s r : slice ((unsupervised_refusal env pane s).2) r = slice s r.
Proof. unfold unsupervised_refusal. by slices. Qed.
#[global] Hint Rewrite @unsupervised_refusal_slice : slices.

Lemma handle_adoption_retry_due_slice `{Watching} env pane a s r : slice (handle_adoption_retry_due env pane a s) r = slice s r.
Proof. unfold handle_adoption_retry_due. by slices. Qed.
#[global] Hint Rewrite @handle_adoption_retry_due_slice : slices.

Lemma settle_holder_read_slice `{Watching} pr pane g f rd s r : slice ((settle_holder_read pr pane g f rd s).2) r = slice s r.
Proof. unfold settle_holder_read. by slices. Qed.
#[global] Hint Rewrite @settle_holder_read_slice : slices.

Lemma restore_end_slice `{Watching} nfc s run r : slice (restore_end nfc s run) r = slice s r.
Proof. unfold restore_end. by slices. Qed.
#[global] Hint Rewrite @restore_end_slice : slices.

Lemma resolve_slice `{Watching} nfc n s r : slice ((resolve nfc n s).2) r = slice s r.
Proof. unfold resolve. by slices. Qed.
#[global] Hint Rewrite @resolve_slice : slices.

(** ** Handlers that change one slice in a known way *)
Lemma at_pane_at_pane p q f g sl : at_pane p q f (at_pane p q g sl) = at_pane p q (λ sl, f (g sl)) sl.
Proof. unfold at_pane. by destruct (decide (q = p)). Qed.
#[global] Hint Rewrite at_pane_at_pane : slices.

Lemma schedule_restart_slice `{Watching} pane t s r :
  slice (schedule_restart pane t s) r =
    at_pane pane r (λ sl, let sl := with_next_gen (with_launch None sl) in with_mark (MTimer (default 0%N (sl_gen sl))) sl) (slice s r).
Proof.
  unfold schedule_restart. rewrite (surjective_pairing (Restarts.next_attempt _ _ _)). cbv beta iota zeta.
  set (s1 := bump_generation _ _). change (current_generation s1 pane) with (default 0%N (sl_gen (slice s1 pane))).
  unfold s1. autorewrite with slices. unfold at_pane. by destruct (decide (r = pane)) as [->|].
Qed.

Lemma settle_stopped_slice `{Watching} pane s r :
  slice (settle_stopped pane s) r = at_pane pane r (λ sl, with_live None (with_next_gen (with_launch None sl))) (slice s r).
Proof. unfold settle_stopped. by slices. Qed.

Lemma record_intent_slice `{Watching} pane i s r :
  slice (record_intent pane i s).2 r =
    at_pane pane r (λ sl, with_launch (Launches.record_intent i <$> sl_launch sl) sl) (slice s r).
Proof. by apply slice_alter_launch. Qed.

Lemma record_suspend_slice `{Watching} pane b s r :
  slice (record_suspend pane b s).2 r =
    at_pane pane r (λ sl, with_launch (Launches.record_suspend b <$> sl_launch sl) sl) (slice s r).
Proof. by apply slice_alter_launch. Qed.

Lemma mark_restarting_slice `{Watching} pane s r :
  slice (upd (on_launches (Book.mark_restarting pane)) s) r =
    at_pane pane r (λ sl, with_launch (Launches.mark_restarting <$> sl_launch sl) sl) (slice s r).
Proof. by apply slice_alter_launch. Qed.

Lemma record_membership_slice `{Watching} pane m s r :
  slice (upd (on_launches (Book.record_membership pane m)) s) r =
    at_pane pane r (λ sl, with_launch (Launches.record_membership m <$> sl_launch sl) sl) (slice s r).
Proof. by apply slice_alter_launch. Qed.
#[global] Hint Rewrite @schedule_restart_slice @settle_stopped_slice @record_intent_slice @record_suspend_slice
  @mark_restarting_slice @record_membership_slice : slices.

Lemma set_membership_slice `{Watching} pane m s r :
  slice (set_membership pane m s) r =
    at_pane pane r (λ sl, with_launch (Launches.record_membership m <$> sl_launch sl) sl) (slice s r).
Proof. unfold set_membership. by slices. Qed.

Lemma bool_decide_is_some {A} (o : option A) : bool_decide (is_Some o) = is_some o.
Proof. destruct o; [by apply bool_decide_eq_true|apply bool_decide_eq_false; by intros [? ?]]. Qed.

Lemma is_starting_slice `{Watching} s pane : is_starting s pane = is_some (sl_launch (slice s pane)).
Proof. apply bool_decide_is_some. Qed.

Lemma record_intent_starting `{Watching} pane i s : (record_intent pane i s).1 = is_some (sl_launch (slice s pane)).
Proof. apply is_starting_slice. Qed.

Lemma record_suspend_starting `{Watching} pane b s : (record_suspend pane b s).1 = is_some (sl_launch (slice s pane)).
Proof. apply is_starting_slice. Qed.

(** A launch taken at the current generation. *)
Lemma take_launch_slice `{Watching} pane g s r :
  slice (take_launch pane g s).2 r =
    at_pane pane r (λ sl, if (take_launch pane g s).1 is Some _ then with_launch None sl else sl) (slice s r).
Proof.
  unfold take_launch. destruct (bool_decide _); [|unfold at_pane; by destruct (decide _)].
  unfold Book.take. destruct (pending _ !! pane) as [l|] eqn:E;
    [destruct (pl_generation l =? g)%N; cbn [fst snd]; [by apply slice_on_launches|]|];
    cbn [fst snd]; rewrite slice_upd_same by done; unfold at_pane; by destruct (decide _).
Qed.

Lemma take_launch_Some `{Watching} pane g s l :
  (take_launch pane g s).1 = Some l → launch s pane = Some l ∧ generation s pane = Some g ∧ pl_generation l = g.
Proof.
  unfold take_launch. destruct (bool_decide_reflect (generation s pane = Some g)) as [Hg|]; [|done].
  unfold Book.take, launch. destruct (pending _ !! pane) as [l'|] eqn:E; [|done].
  destruct (N.eqb_spec (pl_generation l') g); [|done]. cbn. by intros [= ->].
Qed.

Lemma stale_release_slice `{Watching} pane g s r :
  slice (stale_release pane g s).2 r =
    at_pane pane r (λ sl, with_launch (sl_launch sl ≫= λ l, if (pl_generation l =? g)%N then None else Some l) sl) (slice s r).
Proof.
  unfold stale_release, Book.take.
  destruct (pending _ !! pane) as [l|] eqn:E; [destruct (pl_generation l =? g)%N eqn:Eg|]; cbn [fst snd].
  - rewrite (slice_on_launches pane None) by done. unfold at_pane. destruct (decide (r = pane)) as [->|]; [|done].
    unfold slice, launch. cbn. rewrite E. cbn. by rewrite Eg.
  - rewrite slice_upd_same by done. unfold at_pane. destruct (decide (r = pane)) as [->|]; [|done].
    unfold slice, launch. cbn. rewrite E. cbn. by rewrite Eg.
  - rewrite slice_upd_same by done. unfold at_pane. destruct (decide (r = pane)) as [->|]; [|done].
    unfold slice, launch. cbn. by rewrite E.
Qed.

Lemma keep_early_slice `{Watching} pane g o s r :
  slice (keep_early pane g o s).2 r =
    at_pane pane r (λ sl, with_launch ((λ l, if (pl_generation l =? g)%N then Launches.keep o l else l) <$> sl_launch sl) sl) (slice s r).
Proof.
  unfold keep_early, Book.keep_early.
  destruct (pending _ !! pane) as [l|] eqn:E; [destruct (pl_generation l =? g)%N eqn:Eg|]; cbn [fst snd].
  - rewrite (slice_on_launches pane (Some (Launches.keep o l))) by done. unfold at_pane. destruct (decide (r = pane)) as [->|]; [|done].
    unfold slice, launch. cbn. rewrite E. cbn. by rewrite Eg.
  - rewrite slice_upd_same by done. unfold at_pane. destruct (decide (r = pane)) as [->|]; [|done].
    unfold slice, launch. cbn. rewrite E. cbn. by rewrite Eg.
  - rewrite slice_upd_same by done. unfold at_pane. destruct (decide (r = pane)) as [->|]; [|done].
    unfold slice, launch. cbn. by rewrite E.
Qed.

Lemma keep_early_back `{Watching} pane g o s :
  (keep_early pane g o s).1 = None ∨
  (keep_early pane g o s).1 = Some o ∧ (∀ l, launch s pane = Some l → pl_generation l ≠ g).
Proof.
  unfold keep_early, Book.keep_early, launch.
  destruct (pending _ !! pane) as [l|] eqn:E; [destruct (N.eqb_spec (pl_generation l) g) as [Eg|Eg]|]; cbn [fst snd].
  - by left.
  - right. split; [done|]. by intros ? [= <-].
  - right. split; [done|]. by intros ?.
Qed.

Lemma supersede_slice `{Watching} pane s r :
  slice (supersede_retry_adoption pane s) r =
    at_pane pane r (λ sl, if is_some (sl_unsup sl) && is_some (sl_launch sl) then with_next_gen (with_launch None sl) else sl) (slice s r).
Proof.
  unfold supersede_retry_adoption. rewrite is_starting_slice. unfold is_unsupervised. change (unsupervised s pane) with (sl_unsup (slice s pane)).
  destruct (is_some (sl_unsup (slice s pane)) && is_some (sl_launch (slice s pane))) eqn:E.
  - rewrite slice_advance_generation, (slice_on_launches pane None).
    + unfold at_pane. destruct (decide (r = pane)) as [->|]; [|done]. by rewrite E.
    + apply andb_true_iff in E as [_ E]. unfold Book.supersede_by_stop. cbn in E. unfold launch in E.
      by destruct (pending _ !! pane).
    + unfold Book.supersede_by_stop. by destruct (pending _ !! pane).
  - unfold at_pane. destruct (decide (r = pane)) as [->|]; [|done]. by rewrite E.
Qed.
#[global] Hint Rewrite @set_membership_slice @take_launch_slice @stale_release_slice @keep_early_slice @supersede_slice : slices.

Lemma take_stopped_slice `{Watching} pane g s r :
  slice (upd (on_launches (λ _, (Book.take_stopped_adoption pane g (s_launches (sup_core s))).2)) s) r = slice s r.
Proof. unfold Book.take_stopped_adoption. destruct (bool_decide _); by apply slice_upd_same. Qed.

Lemma book_take_slice `{Watching} pane g s r :
  slice (upd (on_launches (λ b, (Book.take pane g b).2)) s) r =
    at_pane pane r (λ sl, with_launch (sl_launch sl ≫= λ l, if (pl_generation l =? g)%N then None else Some l) sl) (slice s r).
Proof.
  rewrite <-stale_release_slice. unfold stale_release. by destruct (Book.take pane g (s_launches (sup_core s))) as [l b] eqn:E; unfold slice, launch, generation, live, unsupervised, proc; cbn; rewrite E.
Qed.
#[global] Hint Rewrite @take_stopped_slice @book_take_slice : slices.

(** ** Handlers that leave every other slice alone *)
Lemma slice_ws_remove_other `{Watching} p s q :
  q ≠ p → slice (upd (on_workspace (λ w, ws_remove w p)) s) q = slice s q.
Proof. intros Hq. destruct (slice_ws_remove p s q) as [k ->]. by apply at_pane_other. Qed.
#[global] Hint Rewrite @slice_ws_remove_other using assumption : slices.

Lemma retire_pane_other `{Watching} p s q : q ≠ p → slice (retire_pane p s) q = slice s q.
Proof. intros Hq. unfold retire_pane. by slices. Qed.
#[global] Hint Rewrite @retire_pane_other using assumption : slices.

Lemma install_terminal_other `{Watching} p h s q : q ≠ p → slice ((install_terminal p h s).2) q = slice s q.
Proof. intros Hq. unfold install_terminal. by slices. Qed.
#[global] Hint Rewrite @install_terminal_other using assumption : slices.

Lemma install_pane_other `{Watching} rt p h s q : q ≠ p → slice ((install_pane rt p h s).2) q = slice s q.
Proof. intros Hq. unfold install_pane. by slices. Qed.
#[global] Hint Rewrite @install_pane_other using assumption : slices.

Lemma leave_unsupervised_other `{Watching} env p pid t s q : q ≠ p → slice ((leave_unsupervised env p pid t s).2) q = slice s q.
Proof. intros Hq. unfold leave_unsupervised. by slices. Qed.
#[global] Hint Rewrite @leave_unsupervised_other using assumption : slices.

Lemma settle_unsupervised_exit_other `{Watching} p s q : q ≠ p → slice (settle_unsupervised_exit p s) q = slice s q.
Proof. intros Hq. unfold settle_unsupervised_exit. by slices. Qed.
#[global] Hint Rewrite @settle_unsupervised_exit_other using assumption : slices.

Lemma signal_unsupervised_other `{Watching} env p g w s q : q ≠ p → slice (signal_unsupervised env p g w s) q = slice s q.
Proof. intros Hq. unfold signal_unsupervised. by slices. Qed.
#[global] Hint Rewrite @signal_unsupervised_other using assumption : slices.

Lemma stop_unsupervised_other `{Watching} env p f s q : q ≠ p → slice (stop_unsupervised env p f s) q = slice s q.
Proof. intros Hq. unfold stop_unsupervised. by slices. Qed.
#[global] Hint Rewrite @stop_unsupervised_other using assumption : slices.

Lemma escalate_unsupervised_other `{Watching} env p s q : q ≠ p → slice (escalate_unsupervised env p s) q = slice s q.
Proof. intros Hq. unfold escalate_unsupervised. by slices. Qed.
#[global] Hint Rewrite @escalate_unsupervised_other using assumption : slices.

Lemma refuse_unsupervised_launch_other `{Watching} env p s q : q ≠ p → slice ((refuse_unsupervised_launch env p s).2) q = slice s q.
Proof. intros Hq. unfold refuse_unsupervised_launch. by slices. Qed.
#[global] Hint Rewrite @refuse_unsupervised_launch_other using assumption : slices.

Lemma launch_now_other `{Watching} p st s q : q ≠ p → slice (launch_now p st s) q = slice s q.
Proof. intros Hq. unfold launch_now. by slices. Qed.
#[global] Hint Rewrite @launch_now_other using assumption : slices.

Lemma spawn_with_other `{Watching} env p e s q : q ≠ p → slice (spawn_with env p e s) q = slice s q.
Proof. intros Hq. unfold spawn_with. by slices. Qed.
#[global] Hint Rewrite @spawn_with_other using assumption : slices.

Lemma spawn_other `{Watching} env p s q : q ≠ p → slice (spawn env p s) q = slice s q.
Proof. intros Hq. unfold spawn. by slices. Qed.
#[global] Hint Rewrite @spawn_other using assumption : slices.

Lemma stop_pane_other `{Watching} env p s q : q ≠ p → slice (stop_pane env p s) q = slice s q.
Proof. intros Hq. unfold stop_pane. by slices. Qed.
#[global] Hint Rewrite @stop_pane_other using assumption : slices.

Lemma force_kill_pane_other `{Watching} env p s q : q ≠ p → slice (force_kill_pane env p s) q = slice s q.
Proof. intros Hq. unfold force_kill_pane. by slices. Qed.
#[global] Hint Rewrite @force_kill_pane_other using assumption : slices.

Lemma pause_pane_other `{Watching} env p s q : q ≠ p → slice (pause_pane env p s) q = slice s q.
Proof. intros Hq. unfold pause_pane. by slices. Qed.
#[global] Hint Rewrite @pause_pane_other using assumption : slices.

Lemma resume_pane_other `{Watching} env p s q : q ≠ p → slice (resume_pane env p s) q = slice s q.
Proof. intros Hq. unfold resume_pane. by slices. Qed.
#[global] Hint Rewrite @resume_pane_other using assumption : slices.

Lemma start_pane_other `{Watching} env p e s q : q ≠ p → slice (start_pane env p e s) q = slice s q.
Proof. intros Hq. unfold start_pane. by slices. Qed.
#[global] Hint Rewrite @start_pane_other using assumption : slices.

Lemma restart_pane_other `{Watching} env p e s q : q ≠ p → slice (restart_pane env p e s) q = slice s q.
Proof. intros Hq. unfold restart_pane. by slices. Qed.
#[global] Hint Rewrite @restart_pane_other using assumption : slices.

Lemma apply_pending_other `{Watching} env p m u i s q : q ≠ p → slice (apply_pending env p m u i s) q = slice s q.
Proof. intros Hq. unfold apply_pending. by slices. Qed.
#[global] Hint Rewrite @apply_pending_other using assumption : slices.

Lemma apply_exit_other `{Watching} env up p o s q : q ≠ p → slice ((apply_exit env up p o s).2) q = slice s q.
Proof. intros Hq. unfold apply_exit. by slices. Qed.
#[global] Hint Rewrite @apply_exit_other using assumption : slices.

Lemma handle_exit_other `{Watching} env up p o s q : q ≠ p → slice (handle_exit env up p o s) q = slice s q.
Proof. intros Hq. unfold handle_exit. by slices. Qed.
#[global] Hint Rewrite @handle_exit_other using assumption : slices.

Lemma reconnect_failed_other `{Watching} env up p c f s q : q ≠ p → slice (reconnect_failed env up p c f s) q = slice s q.
Proof. intros Hq. unfold reconnect_failed. by slices. Qed.
#[global] Hint Rewrite @reconnect_failed_other using assumption : slices.

Lemma reconnect_other `{Watching} env up p s q : q ≠ p → slice (reconnect env up p s) q = slice s q.
Proof. intros Hq. unfold reconnect. by slices. Qed.
#[global] Hint Rewrite @reconnect_other using assumption : slices.

Lemma handle_output_other `{Watching} env up rt p g o s q : q ≠ p → slice (handle_output env up rt p g o s) q = slice s q.
Proof. intros Hq. unfold handle_output. by slices. Qed.
#[global] Hint Rewrite @handle_output_other using assumption : slices.

Lemma replay_other `{Watching} env up rt p g b early s q : q ≠ p → slice (replay env up rt p g b early s) q = slice s q.
Proof. intros Hq. unfold replay. set (s' := match b with Some _ => _ | None => _ end).
  assert (slice s' q = slice s q) as <-. { unfold s'. by slices. }
  clearbody s'. revert s'. induction early as [|o early IH]; intros s'; [done|]. cbn [foldl]. rewrite IH. by slices. Qed.
#[global] Hint Rewrite @replay_other using assumption : slices.

Lemma handle_respawn_other `{Watching} env p g s q : q ≠ p → slice (handle_respawn env p g s) q = slice s q.
Proof. intros Hq. unfold handle_respawn. by slices. Qed.
#[global] Hint Rewrite @handle_respawn_other using assumption : slices.

Lemma handle_force_stop_other `{Watching} env p sg shg s q : q ≠ p → slice (handle_force_stop env p sg shg s) q = slice s q.
Proof. intros Hq. unfold handle_force_stop. by slices. Qed.
#[global] Hint Rewrite @handle_force_stop_other using assumption : slices.

Lemma install_spawned_other `{Watching} env up rt p g r rs early s q : q ≠ p → slice ((install_spawned env up rt p g r rs early s).2) q = slice s q.
Proof. intros Hq. unfold install_spawned. by slices. Qed.
#[global] Hint Rewrite @install_spawned_other using assumption : slices.

Lemma handle_spawned_other `{Watching} env up rt p g r s q : q ≠ p → slice (handle_spawned env up rt p g r s) q = slice s q.
Proof. intros Hq. unfold handle_spawned. by slices. Qed.
#[global] Hint Rewrite @handle_spawned_other using assumption : slices.

Lemma handle_launch_blocked_other `{Watching} env p g b s q : q ≠ p → slice (handle_launch_blocked env p g b s) q = slice s q.
Proof. intros Hq. unfold handle_launch_blocked. by slices. Qed.
#[global] Hint Rewrite @handle_launch_blocked_other using assumption : slices.

Lemma stop_removed_other `{Watching} env p s q : q ≠ p → slice (stop_removed env p s) q = slice s q.
Proof. intros Hq. unfold stop_removed. by slices. Qed.
#[global] Hint Rewrite @stop_removed_other using assumption : slices.

Lemma install_adopted_other `{Watching} env up rt p g rec h c early s q : q ≠ p → slice (install_adopted env up rt p g rec h c early s) q = slice s q.
Proof. intros Hq. unfold install_adopted. by slices. Qed.
#[global] Hint Rewrite @install_adopted_other using assumption : slices.

Lemma settle_adoption_other `{Watching} env up rt p g rec r s q : q ≠ p → slice (settle_adoption env up rt p g rec r s) q = slice s q.
Proof. intros Hq. unfold settle_adoption. by slices. Qed.
#[global] Hint Rewrite @settle_adoption_other using assumption : slices.

Lemma handle_adopted_other `{Watching} env up rt p g rec r s q : q ≠ p → slice (handle_adopted env up rt p g rec r s) q = slice s q.
Proof. intros Hq. unfold handle_adopted. by slices. Qed.
#[global] Hint Rewrite @handle_adopted_other using assumption : slices.

Lemma settle_superseded_search_other `{Watching} env nfc p rec s q : q ≠ p → slice (settle_superseded_search env nfc p rec s) q = slice s q.
Proof. intros Hq. unfold settle_superseded_search. by slices. Qed.
#[global] Hint Rewrite @settle_superseded_search_other using assumption : slices.

Lemma handle_reconnect_located_other `{Watching} env nfc up p g rec s q : q ≠ p → slice (handle_reconnect_located env nfc up p g rec s) q = slice s q.
Proof. intros Hq. unfold handle_reconnect_located. by slices. Qed.
#[global] Hint Rewrite @handle_reconnect_located_other using assumption : slices.

Lemma begin_retry_adoption_other `{Watching} p rec s q : q ≠ p → slice (begin_retry_adoption p rec s) q = slice s q.
Proof. intros Hq. unfold begin_retry_adoption. by slices. Qed.
#[global] Hint Rewrite @begin_retry_adoption_other using assumption : slices.

Lemma handle_adoption_probed_other `{Watching} env p a k rec s q : q ≠ p → slice (handle_adoption_probed env p a k rec s) q = slice s q.
Proof. intros Hq. unfold handle_adoption_probed. by slices. Qed.
#[global] Hint Rewrite @handle_adoption_probed_other using assumption : slices.

