(* ===== verification/SupOk.v ===== *)
(** * Well-formed panes

    What a supervisor may hold of one pane at a time, and that every handler
    keeps it so. A live handle, a launch in flight and an unsupervised child
    exclude each other, but for the adoption of that very child; whatever is
    held belongs to a row of the workspace; and a live run carries a generation
    that was handed to a worker. *)
From S2P Require Import Prelude RustText RustPath Values Process Config StackSync EventLog Books SupState Lifecycle SupInv SupLocal.

Definition is_spawn (l : PendingLaunch) : bool := match pl_purpose l with Spawn _ => true | Adopt _ => false end.

(** Until a pane's generations wrap around, every one its workers and timers
    carry is at most the current one, and no worker's is a timer's. *)
Record marks_ok (gen : option N) (marks : list Mark) : Prop := {
  mk_bound : ∀ g, gen = Some g → (g <= u64_max)%N;
  mk_current : MWrap ∉ marks → ∀ g, MJob g ∈ marks ∨ MTimer g ∈ marks → (g <= default 0 gen)%N;
  mk_apart : MWrap ∉ marks → ∀ g, MJob g ∈ marks → MTimer g ∉ marks;
}.

Record slice_ok (sl : Slice) : Prop := {
  ok_launch_live : sl_launch sl ≠ None → sl_live sl = None;
  ok_spawn_unsup : ∀ l, sl_launch sl = Some l → is_spawn l = true → sl_unsup sl = None;
  ok_live_unsup : sl_live sl ≠ None → sl_unsup sl = None;
  ok_unsup_pane : sl_unsup sl ≠ None → sl_pane sl = true;
  ok_live_pane : sl_live sl ≠ None → sl_pane sl = true;
  ok_pane_known : sl_pane sl = true → sl_known sl = true;
  ok_launch_known : sl_launch sl ≠ None → sl_known sl = true;
  ok_launch_gen : ∀ l, sl_launch sl = Some l → sl_detaching sl = false → sl_gen sl = Some (pl_generation l);
  ok_launch_job : ∀ l, sl_launch sl = Some l → MJob (pl_generation l) ∈ sl_marks sl;
  ok_live_job : sl_live sl ≠ None → ∃ g, sl_gen sl = Some g ∧ MJob g ∈ sl_marks sl;
  ok_marks : marks_ok (sl_gen sl) (sl_marks sl);
}.

(** A generation no worker and no timer carries yet. *)
Definition fresh_gen (gen : option N) (marks : list Mark) : Prop :=
  MWrap ∉ marks → ∀ g, gen = Some g → MJob g ∉ marks ∧ MTimer g ∉ marks.

Lemma next_marks_ok gen marks :
  marks_ok gen marks →
  let next := wrapping_next (default 0%N gen) in
  let marks' := (if (next =? 0)%N then [MWrap] else []) ++ marks in
  marks_ok (Some next) marks' ∧ fresh_gen (Some next) marks'.
Proof.
  intros [Hb Hc Ha]. cbv zeta. set (old := default 0%N gen) in *.
  assert ((old <= u64_max)%N) as Ho. { unfold old. destruct gen; [by apply Hb|unfold u64_max; cbn; lia]. }
  assert ((wrapping_next old <= u64_max)%N) as Hn. { unfold wrapping_next. pose proof (N.mod_lt (old + 1) (u64_max + 1)). unfold u64_max in *. lia. }
  destruct (N.eqb_spec (wrapping_next old) 0) as [E|E].
  { split; [split|]; [by intros ? [= <-]|intros Hw; destruct Hw; set_solver..]. }
  assert (wrapping_next old = (old + 1)%N) as Hs.
  { unfold wrapping_next in *. destruct (N.lt_ge_cases old u64_max) as [Hlt|Hge]; [apply N.mod_small; lia|].
    assert (old = u64_max) as -> by lia. rewrite N.Div0.mod_same in E. done. }
  cbn [app]. split; [split|].
  - by intros ? [= <-].
  - intros Hw g Hg. cbn [default from_option id]. specialize (Hc Hw g Hg). lia.
  - done.
  - intros Hw g [= <-]. split; intros Hin; assert (wrapping_next old <= old)%N by (apply Hc; auto); lia.
Qed.

(** What settling an exit leaves: nothing held, at a new generation. *)
Definition settled (k e : bool) (sl : Slice) : Slice := with_known k (with_pane None None e (with_next_gen (with_launch None sl))).

(** What a handler of an unsupervised child does to its slice. *)
Inductive calm (sl : Slice) : Slice → Prop :=
| calm_same : calm sl sl
| calm_child c : sl_unsup sl ≠ None → calm sl (with_unsup (Some c) sl)
| calm_settled k e : sl_unsup sl ≠ None → (e = true → k = sl_known sl ∧ sl_pane sl = true) → calm sl (settled k e sl).

(** A pane with neither a live run nor a launch. *)
Lemma quiet_ok sl :
  sl_live sl = None → sl_launch sl = None → (sl_unsup sl ≠ None → sl_pane sl = true) → (sl_pane sl = true → sl_known sl = true) →
  marks_ok (sl_gen sl) (sl_marks sl) → slice_ok sl.
Proof. intros Hl Hla Hu Hk Hm. split; intros; rewrite ?Hl, ?Hla in *; try done; auto. Qed.

Lemma settled_ok k e sl : slice_ok sl → (e = true → k = true) → slice_ok (settled k e sl).
Proof. intros Hok He. apply quiet_ok; try done. by apply next_marks_ok, Hok. Qed.

Lemma calm_ok sl sl' : calm sl sl' → slice_ok sl → slice_ok sl'.
Proof.
  intros [|c Hu|k e Hu He] Hok; [done| |].
  - destruct Hok as [H1 H2 H3 H4 H5 H6 H7 H8 H9 H10 H11]. split; cbn; auto.
    + intros l Hl Hs. destruct Hu. eauto.
    + intros Hl. destruct Hu. auto.
  - apply settled_ok; [done|]. intros ->. destruct He as [-> Hp]; [done|]. by apply (ok_pane_known _ Hok).
Qed.

Lemma calm_no_child sl sl' : calm sl sl' → sl_unsup sl = None → sl' = sl.
Proof. by intros []. Qed.

Lemma calm_trans sl1 sl2 sl3 : calm sl1 sl2 → calm sl2 sl3 → calm sl1 sl3.
Proof.
  intros [|c Hu|k e Hu He] H23; [done| |].
  - inversion H23 as [|c'|k e]; subst.
    + by constructor.
    + by apply (calm_child sl1 c').
    + by apply (calm_settled sl1 k e).
  - apply calm_no_child in H23; [|done]. subst. by constructor.
Qed.

Lemma calm_live_none sl sl' : calm sl sl' → sl_live sl = None → sl_live sl' = None.
Proof. by intros []. Qed.

Lemma calm_launch_none sl sl' : calm sl sl' → sl_launch sl = None → sl_launch sl' = None.
Proof. by intros []. Qed.

(** Recording on a launch keeps a slice well formed. *)
Definition same_kind (f : PendingLaunch → PendingLaunch) : Prop :=
  ∀ l, pl_generation (f l) = pl_generation l ∧ is_spawn (f l) = is_spawn l.

Lemma fmap_launch_ok f sl : same_kind f → slice_ok sl → slice_ok (with_launch (f <$> sl_launch sl) sl).
Proof.
  intros Hf Hok. destruct sl as [h u [l|] g k e d j]; cbn; [|done]. destruct (Hf l) as [Hg Hs].
  destruct Hok as [H1 H2 H3 H4 H5 H6 H7 H8 H9 H10 H11]; cbn in *.
  constructor; cbn; intros; simplify_eq; rewrite ?Hg, ?Hs in *; eauto.
Qed.

Lemma fmap_launch_live f sl : slice_ok sl → sl_live sl ≠ None → with_launch (f <$> sl_launch sl) sl = sl.
Proof.
  intros Hok Hl. destruct sl as [h u [l|] g k e d j]; [|done]. cbn in *. destruct Hl.
  by apply (ok_launch_live _ Hok).
Qed.

Lemma with_launch_none_ok sl : slice_ok sl → slice_ok (with_launch None sl).
Proof. intros [H1 H2 H3 H4 H5 H6 H7 H8 H9 H10 H11]. split; cbn; try done; auto. Qed.

Lemma with_live_none_ok sl : slice_ok sl → slice_ok (with_live None sl).
Proof. intros [H1 H2 H3 H4 H5 H6 H7 H8 H9 H10 H11]. split; cbn; try done; auto. Qed.

(** A new generation, with no launch and no live run. *)
Lemma bumped_ok sl : slice_ok sl → sl_live sl = None → slice_ok (with_next_gen (with_launch None sl)).
Proof. intros Hok Hl. apply quiet_ok; try done; [apply Hok..|by apply next_marks_ok, Hok]. Qed.

Lemma bumped_fresh sl : slice_ok sl → let sl' := with_next_gen (with_launch None sl) in fresh_gen (sl_gen sl') (sl_marks sl').
Proof. intros Hok. by apply next_marks_ok, Hok. Qed.

(** A delayed restart, waiting with a fresh generation. *)
Lemma delayed_ok sl :
  slice_ok sl → sl_live sl = None →
  slice_ok (let sl := with_next_gen (with_launch None sl) in with_mark (MTimer (default 0%N (sl_gen sl))) sl).
Proof.
  intros Hok Hl. cbv zeta. pose proof (bumped_fresh sl Hok) as Hf. pose proof (bumped_ok sl Hok Hl) as Hb.
  set (sl' := with_next_gen (with_launch None sl)) in *. destruct (sl_gen sl') as [g|] eqn:Eg; [|done].
  apply quiet_ok; try done; [apply Hb..|]. destruct (ok_marks _ Hb) as [Hbd Hc Ha].
  change (marks_ok (sl_gen sl') (MTimer g :: sl_marks sl')). rewrite Eg in *. cbv zeta in Hf. rewrite Eg in Hf. split; [done|..].
  - intros Hw g' [Hg|Hg]; [apply Hc; set_solver|]. apply elem_of_cons in Hg as [[= ->]|Hg]; [cbn; lia|]. apply Hc; set_solver.
  - intros Hw g' Hg. apply elem_of_cons in Hg as [|Hg]; [done|]. intros [[= ->]|Ht]%elem_of_cons.
    + destruct (Hf ltac:(set_solver) g eq_refl) as [Hn _]. done.
    + apply (Ha ltac:(set_solver) g'); done.
Qed.

Lemma record_same_kind i : same_kind (Launches.record_intent i).
Proof. by intros []. Qed.
Lemma suspend_same_kind b : same_kind (Launches.record_suspend b).
Proof. by intros []. Qed.
Lemma membership_same_kind m : same_kind (Launches.record_membership m).
Proof. by intros []. Qed.
Lemma restarting_same_kind : same_kind Launches.mark_restarting.
Proof. intros [g st [|] e i u m]; done. Qed.
Lemma keep_same_kind g o : same_kind (λ l, if (pl_generation l =? g)%N then Launches.keep o l else l).
Proof. intros l. by destruct (pl_generation l =? g)%N. Qed.

(** ** Facts any slice of a state has *)
Lemma slice_unsup_pane `{Watching} s p : sl_unsup (slice s p) ≠ None → sl_pane (slice s p) = true.
Proof. cbn. unfold unsupervised. by destruct (s_panes (sup_core s) !! p). Qed.

Lemma slice_no_pane `{Watching} s p : sl_pane (slice s p) = false → sl_live (slice s p) = None ∧ sl_unsup (slice s p) = None.
Proof. cbn. unfold live, unsupervised. by destruct (s_panes (sup_core s) !! p). Qed.

Lemma retire_pane_self `{Watching} p s : ∃ k, slice (retire_pane p s) p = settled k false (slice s p).
Proof.
  unfold retire_pane. set (s' := upd (on_launches _) _).
  destruct (slice_ws_remove p s' p) as [k ->]. exists k. rewrite at_pane_self. unfold s'. by slices.
Qed.

Lemma retire_pane_ok `{Watching} p s : slice_ok (slice s p) → slice_ok (slice (retire_pane p s) p).
Proof. intros Hok. destruct (retire_pane_self p s) as [k ->]. by apply settled_ok. Qed.

Lemma settle_stopped_ok `{Watching} p s : slice_ok (slice s p) → slice_ok (slice (settle_stopped p s) p).
Proof.
  intros Hok. rewrite settle_stopped_slice, at_pane_self.
  assert (with_live None (with_next_gen (with_launch None (slice s p))) =
          with_next_gen (with_launch None (with_live None (slice s p)))) as -> by done.
  by apply bumped_ok; [apply with_live_none_ok|].
Qed.

(** ** Unsupervised children *)
Lemma settle_unsupervised_exit_calm `{Watching} p s :
  sl_unsup (slice s p) ≠ None → calm (slice s p) (slice (settle_unsupervised_exit p s) p).
Proof.
  intros Hu. pose proof (slice_unsup_pane s p Hu) as Hp. unfold settle_unsupervised_exit.
  set (s' := match s_collect_after_stop _ !! p with Some _ => _ | None => _ end).
  assert (slice s' p = slice s p) as Hs'. { unfold s'. by slices. }
  rewrite <-Hs' in *. clearbody s'. destruct (s_panes (sup_core s') !! p) as [t|] eqn:Et; [|by constructor].
  destruct (bool_decide _).
  - destruct (retire_pane_self p (alter_pane (set_unsupervised None) p s')) as [k ->].
    autorewrite with slices. rewrite Hp. by apply (calm_settled (slice s' p) k false).
  - autorewrite with slices. rewrite Hp.
    by apply (calm_settled (slice s' p) (sl_known (slice s' p)) (sl_pane (slice s' p))).
Qed.

Lemma settle_unsupervised_exit_none `{Watching} p s :
  sl_unsup (slice s p) ≠ None → sl_unsup (slice (settle_unsupervised_exit p s) p) = None.
Proof.
  intros Hu. pose proof (slice_unsup_pane s p Hu) as Hp. unfold settle_unsupervised_exit.
  set (s' := match s_collect_after_stop _ !! p with Some _ => _ | None => _ end).
  assert (slice s' p = slice s p) as Hs'. { unfold s'. by slices. }
  rewrite <-Hs' in *. clearbody s'. cbn in Hp. destruct (s_panes (sup_core s') !! p) as [t|] eqn:Et; [|done].
  destruct (bool_decide _).
  - by destruct (retire_pane_self p (alter_pane (set_unsupervised None) p s')) as [k ->].
  - autorewrite with slices. cbn. by rewrite Et.
Qed.

Lemma signal_unsupervised_calm `{Watching} env p g w s : calm (slice s p) (slice (signal_unsupervised env p g w s) p).
Proof.
  unfold signal_unsupervised. change (unsupervised s p) with (sl_unsup (slice s p)).
  destruct (sl_unsup (slice s p)) as [c|] eqn:Hu; [|constructor].
  repeat (split_pair || match goal with |- context [if ?b then _ else _] => destruct b end);
    try (by autorewrite with slices; constructor);
    match goal with |- calm _ (slice (settle_unsupervised_exit p ?t) p) =>
      replace (slice s p) with (slice t p) by (by autorewrite with slices);
      apply settle_unsupervised_exit_calm; autorewrite with slices; by rewrite Hu end.
Qed.

Lemma alter_child_calm `{Watching} f p s : calm (slice s p) (slice (alter_child f p s) p).
Proof.
  autorewrite with slices. destruct (sl_unsup (slice s p)) as [c|] eqn:E; cbn.
  - constructor. by rewrite E.
  - replace (with_unsup None (slice s p)) with (slice s p); [constructor|]. revert E. by destruct (slice s p); cbn; intros ->.
Qed.

Lemma stop_unsupervised_calm `{Watching} env p f s : calm (slice s p) (slice (stop_unsupervised env p f s) p).
Proof.
  unfold stop_unsupervised. destruct (s_panes (sup_core s) !! p) as [t|]; [|constructor].
  destruct (negb f && _); [constructor|]. rewrite (surjective_pairing (match _ with Some _ => _ | None => _ end)).
  eapply calm_trans; [apply alter_child_calm|]. apply signal_unsupervised_calm.
Qed.

Lemma escalate_unsupervised_calm `{Watching} env p s : calm (slice s p) (slice (escalate_unsupervised env p s) p).
Proof.
  unfold escalate_unsupervised. change (unsupervised s p) with (sl_unsup (slice s p)).
  destruct (sl_unsup (slice s p)) as [c|] eqn:Hu; [|constructor].
  assert (∀ t, calm (slice t p) (slice (let s0 := alter_child count_kill p t in
    let '(survived, s1) := if (UNSUPERVISED_KILL_LIMIT <? u32_next (uc_kill_polls c))%N
       then call env (CIsRunning (uc_pid c) (uc_start_token c)) s0 else (false, s0) in
    if survived then notify Error (Some p) (MText (spaced UNSUPERVISED_KILL_GAVE_UP (print_dec (uc_pid c))))
        (give_up_unsupervised_stop p (alter_child (begin_stop None) p s1))
    else signal_unsupervised env p GKill UNSUPERVISED_EXIT_POLL s1) p)) as Hkill.
  { intros t. cbv zeta. eapply calm_trans; [apply (alter_child_calm count_kill)|].
    set (s0 := alter_child count_kill p t).
    destruct (_ <? _)%N; [rewrite (surjective_pairing (call _ _ _)); cbv beta iota; destruct (call _ _ _).1|].
    - rewrite slice_notify, give_up_unsupervised_stop_slice. rewrite <-(slice_call env (CIsRunning (uc_pid c) (uc_start_token c)) s0 p).
      apply alter_child_calm.
    - rewrite <-(slice_call env (CIsRunning (uc_pid c) (uc_start_token c)) s0 p). apply signal_unsupervised_calm.
    - apply signal_unsupervised_calm. }
  destruct (uc_grace_deadline c) as [d|]; [|apply Hkill].
  rewrite (surjective_pairing (call _ _ _)). cbv beta iota.
  rewrite <-(slice_call env (CIsRunning (uc_pid c) (uc_start_token c)) s p).
  destruct (call _ _ _).1.
  - destruct (s_now _ <? d)%N; [autorewrite with slices; constructor|].
    eapply calm_trans; [apply (alter_child_calm end_grace)|apply Hkill].
  - apply settle_unsupervised_exit_calm. autorewrite with slices. by rewrite Hu.
Qed.

(** Leaving a child unsupervised, when it runs. *)
Lemma leave_unsupervised_self `{Watching} env p pid t s :
  let '(left_, s') := leave_unsupervised env p pid t s in
  if left_ then (∃ c, slice s' p = with_pane None (Some c) true (slice s p)) ∧
                (sl_pane (slice s p) = true ∨ sl_known (slice s p) = true)
  else slice s' p = slice s p.
Proof.
  unfold leave_unsupervised. rewrite (surjective_pairing (call _ _ _)). cbv beta iota.
  set (s1 := (call env (CObserve pid t) s).2).
  assert (slice s1 p = slice s p) as <- by apply slice_call. destruct (call _ _ _).1; [|done]. clearbody s1.
  destruct (s_panes (sup_core s1) !! p) as [pn|] eqn:Ep; cbn [is_some].
  - split; [|left; cbn; by rewrite Ep]. autorewrite with slices. eexists.
    unfold with_unsup, with_pane, with_live. cbn. by rewrite Ep.
  - unfold install_terminal. destruct (proc s1 p) as [pr|] eqn:Epr; [|done].
    split; [|right; cbn; by rewrite Epr]. autorewrite with slices. by eexists.
Qed.

Lemma left_unsupervised_ok c sl :
  slice_ok sl → sl_launch sl = None → (sl_pane sl = true ∨ sl_known sl = true) → slice_ok (with_pane None (Some c) true sl).
Proof.
  intros Hok Hl Hk. assert (sl_known sl = true) as Hk'. { destruct Hk; [by apply (ok_pane_known _ Hok)|done]. }
  apply quiet_ok; try done. apply (ok_marks _ Hok).
Qed.

(** ** Launching *)
Lemma current_generation_slice `{Watching} s p : current_generation s p = default 0%N (sl_gen (slice s p)).
Proof. done. Qed.

Lemma refuse_unsupervised_launch_self `{Watching} env p s :
  calm (slice s p) (slice (refuse_unsupervised_launch env p s).2 p) ∧
  ((refuse_unsupervised_launch env p s).1 = false → sl_unsup (slice (refuse_unsupervised_launch env p s).2 p) = None).
Proof.
  unfold refuse_unsupervised_launch, is_unsupervised. change (unsupervised s p) with (sl_unsup (slice s p)).
  destruct (sl_unsup (slice s p)) as [c|] eqn:Hu; cbn [is_some]; [|by split; [constructor|]].
  rewrite (surjective_pairing (running_unsupervised_pid _ _ _)). cbv beta iota.
  set (s1 := (running_unsupervised_pid env p s).2).
  assert (slice s1 p = slice s p) as Hs1 by apply running_unsupervised_pid_slice.
  destruct (running_unsupervised_pid _ _ _).1 as [pid|].
  - rewrite (surjective_pairing (retry_adoption_now _ _ _)). cbn [fst snd]. split; [|done].
    destruct (retry_adoption_now _ _ _).1; autorewrite with slices; rewrite Hs1; constructor.
  - rewrite <-Hs1 in *. clearbody s1. assert (sl_unsup (slice s1 p) ≠ None) as Hu' by (by rewrite Hu).
    pose proof (settle_unsupervised_exit_calm p s1 Hu') as Hc. pose proof (settle_unsupervised_exit_none p s1 Hu') as Hn.
    destruct (proc _ p); cbn [fst snd]; autorewrite with slices; done.
Qed.

(** A launch begun on a pane that holds nothing. *)
Lemma begun_ok (l : PendingLaunch) (g : N) sl :
  slice_ok sl → sl_live sl = None → (is_spawn l = true → sl_unsup sl = None) → sl_known sl = true →
  pl_generation l = g → sl_gen sl = Some g → (MWrap ∉ sl_marks sl → MTimer g ∉ sl_marks sl) →
  slice_ok (with_mark (MJob g) (with_launch (Some l) sl)).
Proof.
  intros [H1 H2 H3 H4 H5 H6 H7 H8 H9 H10 [Hb Hc Ha]] Hl Hu Hk Hg Hgen Hfresh.
  split; cbn; intros; simplify_eq; auto.
  - left.
  - split; [done|..].
    + intros Hw g [Hg|Hg]; [|apply Hc; set_solver]. apply elem_of_cons in Hg as [[= ->]|Hg]; [rewrite Hgen; cbn; lia|].
      apply Hc; set_solver.
    + intros Hw g [[= ->]|Hg]%elem_of_cons [|Ht]%elem_of_cons; try done; [by apply Hfresh; set_solver|].
      apply (Ha ltac:(set_solver) g); done.
Qed.

(** Begun at the generation just advanced to. *)
Lemma launched_ok (l : PendingLaunch) sl :
  slice_ok sl → sl_live sl = None → (is_spawn l = true → sl_unsup sl = None) → sl_known sl = true →
  let sl' := with_next_gen (with_launch None sl) in
  pl_generation l = default 0%N (sl_gen sl') →
  slice_ok (with_mark (MJob (default 0%N (sl_gen sl'))) (with_launch (Some l) sl')).
Proof.
  intros Hok Hl Hu Hk sl' Hg. pose proof (bumped_fresh sl Hok) as Hf. apply begun_ok; try done; [by apply bumped_ok|].
  intros Hw. by apply (Hf Hw).
Qed.

Lemma launch_now_ok `{Watching} p st s :
  slice_ok (slice s p) → sl_live (slice s p) = None → sl_unsup (slice s p) = None → sl_known (slice s p) = true →
  slice_ok (slice (launch_now p st s) p) ∧ sl_live (slice (launch_now p st s) p) = None.
Proof.
  intros Hok Hl Hu Hk. unfold launch_now. destruct (spawn_request s p _) as [rq|]; [|done].
  rewrite !current_generation_slice. autorewrite with slices.
  split; [|done]. by apply launched_ok.
Qed.

Lemma state_of_known `{Watching} s p : is_some (state_of s p) = sl_known (slice s p).
Proof. unfold state_of. cbn. by destruct (proc s p). Qed.

Lemma spawn_with_ok `{Watching} env p e s :
  slice_ok (slice s p) → sl_live (slice s p) = None →
  slice_ok (slice (spawn_with env p e s) p) ∧ sl_live (slice (spawn_with env p e s) p) = None.
Proof.
  intros Hok Hl. unfold spawn_with. rewrite is_starting_slice.
  destruct (is_some (sl_launch (slice s p))) eqn:Hla; [done|].
  destruct (refuse_unsupervised_launch_self env p s) as [Hc Hn].
  rewrite (surjective_pairing (refuse_unsupervised_launch _ _ _)). cbv beta iota.
  set (s1 := (refuse_unsupervised_launch env p s).2) in *.
  assert (slice_ok (slice s1 p)) as Hok1 by (by eapply calm_ok).
  assert (sl_live (slice s1 p) = None) as Hl1 by (by eapply calm_live_none).
  destruct (refuse_unsupervised_launch _ _ _).1; [done|]. specialize (Hn eq_refl). clearbody s1. clear dependent s.
  rewrite (surjective_pairing (refuse_stored_problem _ _)). cbv beta iota.
  destruct (refuse_stored_problem _ _).1; [by autorewrite with slices|].
  rewrite (surjective_pairing (refuse_blocked_launch _ _)). cbv beta iota.
  destruct (refuse_blocked_launch _ _).1; [by autorewrite with slices|].
  set (s2 := (refuse_blocked_launch _ _).2).
  assert (slice s2 p = slice s1 p) as Hs2. { unfold s2. by autorewrite with slices. }
  rewrite <-Hs2 in *. clearbody s2. clear dependent s1.
  destruct (state_of s2 p) as [st|] eqn:Est; [|by autorewrite with slices].
  assert (sl_known (slice s2 p) = true) by (by rewrite <-state_of_known, Est).
  destruct e as [e|]; [|by apply launch_now_ok]. apply launch_now_ok; by autorewrite with slices.
Qed.

(** ** Requests *)
Lemma supersede_ok `{Watching} p s : slice_ok (slice s p) → slice_ok (slice (supersede_retry_adoption p s) p).
Proof.
  intros Hok. autorewrite with slices. destruct (is_some (sl_unsup _) && _) eqn:E; [|done].
  apply bumped_ok; [done|]. apply andb_true_iff in E as [E _].
  destruct (sl_live (slice s p)) eqn:El; [|done]. rewrite (ok_live_unsup _ Hok) in E; [done|by rewrite El].
Qed.

(** What a request leaves of a live run: its whole slice. *)
Lemma supersede_live `{Watching} p s :
  slice_ok (slice s p) → sl_live (slice s p) ≠ None → slice (supersede_retry_adoption p s) p = slice s p.
Proof. intros Hok Hl. autorewrite with slices. by rewrite (ok_live_unsup _ Hok Hl). Qed.

Lemma record_intent_ok `{Watching} p i s : slice_ok (slice s p) → slice_ok (slice (record_intent p i s).2 p).
Proof. intros Hok. autorewrite with slices. apply fmap_launch_ok; [apply record_same_kind|done]. Qed.

Lemma record_intent_live `{Watching} p i s :
  slice_ok (slice s p) → sl_live (slice s p) ≠ None →
  (record_intent p i s).1 = false ∧ slice (record_intent p i s).2 p = slice s p.
Proof.
  intros Hok Hl. rewrite record_intent_starting. autorewrite with slices. split; [|by apply fmap_launch_live].
  destruct (sl_launch _) eqn:E; [|done]. destruct Hl. apply (ok_launch_live _ Hok). by rewrite E.
Qed.

Lemma stop_pane_ok `{Watching} env p s : slice_ok (slice s p) → slice_ok (slice (stop_pane env p s) p).
Proof.
  intros Hok. unfold stop_pane. apply supersede_ok in Hok. set (s1 := supersede_retry_adoption p s) in *. clearbody s1.
  rewrite (surjective_pairing (record_intent _ _ _)). cbv beta iota. apply (record_intent_ok p IStop) in Hok.
  set (s2 := (record_intent p IStop s1).2) in *. destruct (record_intent _ _ _).1; [done|]. clearbody s2. clear dependent s1.
  destruct (is_unsupervised s2 p); [eapply calm_ok; [apply stop_unsupervised_calm|done]|].
  destruct (s_panes _ !! p) as [t|]; [|by apply settle_stopped_ok].
  destruct (_ && _); [done|]. destruct (is_live s2 p); [by autorewrite with slices|by apply settle_stopped_ok].
Qed.

Lemma is_unsupervised_slice `{Watching} s p : is_unsupervised s p = is_some (sl_unsup (slice s p)).
Proof. done. Qed.
Lemma is_live_slice `{Watching} s p : is_live s p = is_some (sl_live (slice s p)).
Proof. done. Qed.
Lemma holds_process_slice `{Watching} s p :
  holds_process s p = is_some (sl_live (slice s p)) || is_some (sl_launch (slice s p)) || is_some (sl_unsup (slice s p)).
Proof. unfold holds_process. by rewrite is_starting_slice. Qed.
Lemma is_some_ne {A} (o : option A) : o ≠ None → is_some o = true.
Proof. by destruct o. Qed.

Lemma stop_pane_live `{Watching} env p s :
  slice_ok (slice s p) → sl_live (slice s p) ≠ None → slice (stop_pane env p s) p = slice s p.
Proof.
  intros Hok Hl. unfold stop_pane. pose proof (supersede_live p s Hok Hl) as Hs.
  set (s1 := supersede_retry_adoption p s) in *. rewrite <-Hs in *. clearbody s1. clear dependent s.
  destruct (record_intent_live p IStop s1 Hok Hl) as [Hf Hs].
  rewrite (surjective_pairing (record_intent _ _ _)). cbv beta iota. rewrite Hf.
  set (s2 := (record_intent p IStop s1).2) in *. rewrite <-Hs in *. clearbody s2. clear dependent s1.
  rewrite is_unsupervised_slice, (ok_live_unsup _ Hok Hl). cbn [is_some].
  pose proof (ok_live_pane _ Hok Hl) as Hp. cbn in Hp. destruct (s_panes _ !! p) as [t|] eqn:Et; [|done].
  destruct (_ && _); [done|]. rewrite is_live_slice, (is_some_ne _ Hl). by autorewrite with slices.
Qed.

Lemma force_kill_pane_ok `{Watching} env p s : slice_ok (slice s p) → slice_ok (slice (force_kill_pane env p s) p).
Proof.
  intros Hok. unfold force_kill_pane. apply supersede_ok in Hok. set (s1 := supersede_retry_adoption p s) in *. clearbody s1.
  rewrite (surjective_pairing (record_intent _ _ _)). cbv beta iota. apply (record_intent_ok p IKill) in Hok.
  set (s2 := (record_intent p IKill s1).2) in *. destruct (record_intent _ _ _).1; [done|]. clearbody s2. clear dependent s1.
  destruct (is_unsupervised s2 p); [eapply calm_ok; [apply stop_unsupervised_calm|done]|].
  destruct (live s2 p) as [h|]; [|by apply settle_stopped_ok]. by slices.
Qed.

Lemma force_kill_pane_live `{Watching} env p s :
  slice_ok (slice s p) → sl_live (slice s p) ≠ None → slice (force_kill_pane env p s) p = slice s p.
Proof.
  intros Hok Hl. unfold force_kill_pane. pose proof (supersede_live p s Hok Hl) as Hs.
  set (s1 := supersede_retry_adoption p s) in *. rewrite <-Hs in *. clearbody s1. clear dependent s.
  destruct (record_intent_live p IKill s1 Hok Hl) as [Hf Hs].
  rewrite (surjective_pairing (record_intent _ _ _)). cbv beta iota. rewrite Hf.
  set (s2 := (record_intent p IKill s1).2) in *. rewrite <-Hs in *. clearbody s2. clear dependent s1.
  rewrite is_unsupervised_slice, (ok_live_unsup _ Hok Hl). cbn [is_some].
  change (live s2 p) with (sl_live (slice s2 p)). destruct (sl_live (slice s2 p)) as [h|] eqn:E; [|done]. by slices.
Qed.

Lemma record_suspend_ok `{Watching} p b s : slice_ok (slice s p) → slice_ok (slice (record_suspend p b s).2 p).
Proof. intros Hok. autorewrite with slices. apply fmap_launch_ok; [apply suspend_same_kind|done]. Qed.

Lemma record_suspend_live `{Watching} p b s :
  slice_ok (slice s p) → sl_live (slice s p) ≠ None → slice (record_suspend p b s).2 p = slice s p.
Proof. intros Hok Hl. autorewrite with slices. by apply fmap_launch_live. Qed.

Lemma pause_pane_slice `{Watching} env p s : slice (pause_pane env p s) p = slice (record_suspend p true s).2 p.
Proof. unfold pause_pane. by repeat (split_pair || split_branch || rewrite signal_pause_slice). Qed.

Lemma resume_pane_slice `{Watching} env p s : slice (resume_pane env p s) p = slice (record_suspend p false s).2 p.
Proof. unfold resume_pane. by repeat (split_pair || split_branch || rewrite signal_pause_slice). Qed.

Lemma start_pane_ok `{Watching} env p e s : slice_ok (slice s p) → slice_ok (slice (start_pane env p e s) p).
Proof.
  intros Hok. unfold start_pane. rewrite is_live_slice. destruct (sl_live (slice s p)) eqn:E; cbn [is_some orb]; [done|].
  destruct (is_starting s p); [done|]. by apply spawn_with_ok; autorewrite with slices.
Qed.

Lemma start_pane_live `{Watching} env p e s : sl_live (slice s p) ≠ None → slice (start_pane env p e s) p = slice s p.
Proof. intros Hl. unfold start_pane. by rewrite is_live_slice, is_some_ne. Qed.

Lemma restart_pane_ok `{Watching} env p e s : slice_ok (slice s p) → slice_ok (slice (restart_pane env p e s) p).
Proof.
  intros Hok. unfold restart_pane. rewrite (surjective_pairing (record_intent _ _ _)). cbv beta iota zeta.
  apply (record_intent_ok p IRestart) in Hok. set (s1 := (record_intent p IRestart s).2) in *.
  destruct (record_intent _ _ _).1; [by destruct e; autorewrite with slices|]. clearbody s1. clear dependent s.
  set (s2 := upd _ s1). assert (slice s2 p = slice s1 p) as Hs by (unfold s2; by autorewrite with slices).
  rewrite <-Hs in *. clearbody s2. clear dependent s1.
  destruct (s_panes (sup_core s2) !! p ≫= _) as [t|] eqn:Et.
  { destruct (negb _); [done|]. by destruct e; autorewrite with slices. }
  assert (sl_live (slice s2 p) = None) as Hl.
  { cbn. unfold live. destruct (s_panes _ !! p) as [t|]; [|done]. cbn in *. by destruct (pn_handle t). }
  destruct (spawn_with_ok env p e s2 Hok Hl) as [Hok' _]. set (s3 := spawn_with env p e s2) in *. clearbody s3.
  destruct (_ || _); [done|]. destruct (is_live s3 p); [by autorewrite with slices|].
  autorewrite with slices. apply fmap_launch_ok; [apply restarting_same_kind|done].
Qed.

Lemma restart_pane_live `{Watching} env p e s :
  slice_ok (slice s p) → sl_live (slice s p) ≠ None → slice (restart_pane env p e s) p = slice s p.
Proof.
  intros Hok Hl. unfold restart_pane. destruct (record_intent_live p IRestart s Hok Hl) as [Hf Hs].
  rewrite (surjective_pairing (record_intent _ _ _)). cbv beta iota zeta. rewrite Hf.
  set (s1 := (record_intent p IRestart s).2) in *. rewrite <-Hs in *. clearbody s1. clear dependent s.
  set (s2 := upd _ s1). assert (slice s2 p = slice s1 p) as Hs by (unfold s2; by autorewrite with slices).
  rewrite <-Hs in *. clearbody s2. clear dependent s1.
  cbn in Hl. unfold live in Hl. destruct (s_panes (sup_core s2) !! p) as [t|]; [|done]. cbn in Hl |- *.
  destruct (pn_handle t) as [h|]; [|done]. cbn. destruct (negb _); [done|]. by destruct e; autorewrite with slices.
Qed.

Lemma apply_pending_ok `{Watching} env p m u i s : slice_ok (slice s p) → slice_ok (slice (apply_pending env p m u i s) p).
Proof.
  intros Hok. unfold apply_pending. cbv zeta.
  set (s1 := match m with Some _ => _ | None => _ end).
  assert (slice s1 p = slice s p) as Hs by (unfold s1; by slices). rewrite <-Hs in Hok. clearbody s1. clear dependent s.
  destruct (_ && _); [by apply retire_pane_ok|].
  set (s2 := match u with Some _ => _ | None => _ end). assert (slice_ok (slice s2 p)) as Hok2.
  { unfold s2. destruct u as [[|]|]; [rewrite pause_pane_slice|rewrite resume_pane_slice|done]; by apply record_suspend_ok. }
  clearbody s2. destruct i as [[| |]|]; [by apply stop_pane_ok|by apply force_kill_pane_ok|by apply restart_pane_ok|done].
Qed.

(** ** Exits *)
Lemma apply_exit_ok `{Watching} env up p o s :
  slice_ok (slice s p) → sl_live (slice s p) = None →
  slice_ok (slice (apply_exit env up p o s).2 p) ∧ sl_live (slice (apply_exit env up p o s).2 p) = None.
Proof.
  intros Hok Hl. unfold apply_exit. destruct (s_panes (sup_core s) !! p) as [t|]; [|done]. cbv zeta.
  set (s1 := upd (on_restarts (Restarts.record_exit p o)) _).
  assert (slice s1 p = slice s p) as Hs. { unfold s1. by autorewrite with slices. }
  rewrite <-Hs in *. clearbody s1.
  destruct (after_exit _ _ _ _); cbn [snd].
  - destruct (retire_pane_self p s1) as [k Hk]. rewrite Hk. by split; [apply settled_ok|].
  - autorewrite with slices. split; [by apply with_live_none_ok|done].
  - apply spawn_with_ok; autorewrite with slices; [by apply with_live_none_ok|done].
  - autorewrite with slices. split; [|done]. by apply delayed_ok; [apply with_live_none_ok|].
  - autorewrite with slices. split; [by apply with_live_none_ok|done].
Qed.

Lemma handle_exit_ok `{Watching} env up p o s : slice_ok (slice s p) → slice_ok (slice (handle_exit env up p o s) p).
Proof.
  intros Hok. unfold handle_exit. destruct (live s p) as [h|] eqn:El; [|by apply apply_exit_ok].
  rewrite (surjective_pairing (apply_exit _ _ _ _ _)). cbv beta iota.
  assert (slice_ok (slice (apply_exit env up p o (alter_pane take_handle p s)).2 p)) as Hok'.
  { apply apply_exit_ok; autorewrite with slices; [by apply with_live_none_ok|done]. }
  set (s1 := (apply_exit _ _ _ _ _).2) in *. clearbody s1. by slices.
Qed.

(** ** Reconnecting *)
Lemma reconnect_failed_ok `{Watching} env up p c f s :
  slice_ok (slice s p) → sl_live (slice s p) = None → sl_launch (slice s p) = None →
  slice_ok (slice (reconnect_failed env up p c f s) p).
Proof.
  intros Hok Hl Hla. unfold reconnect_failed.
  set (r := match cp_pid c with Some _ => _ | None => _ end).
  assert (slice_ok (slice r.2 p) ∧ sl_live (slice r.2 p) = None) as [Hok1 Hl1].
  { unfold r. destruct (cp_pid c) as [pid|]; [|done].
    pose proof (leave_unsupervised_self env p pid (f ≫= λ f, hr_child_start_token f.1) s) as Hlv.
    destruct (leave_unsupervised _ _ _ _ _) as [[|] s']; cbn [snd]; [|by rewrite Hlv].
    destruct Hlv as [[ch ->] Hk]. split; [by apply left_unsupervised_ok|done]. }
  rewrite (surjective_pairing r). cbv beta iota.
  set (s1 := match f with Some _ => _ | None => _ end).
  assert (slice s1 p = slice r.2 p) as Hs1. { unfold s1. destruct f as [[rec e]|]; [destruct r.1|]; by autorewrite with slices. }
  rewrite <-Hs1 in *. destruct r.1.
  - destruct (is_stop _); [|done]. eapply calm_ok; [apply stop_unsupervised_calm|done].
  - by apply apply_exit_ok; autorewrite with slices.
Qed.

Lemma reconnect_ok `{Watching} env up p s : slice_ok (slice s p) → slice_ok (slice (reconnect env up p s) p).
Proof.
  intros Hok. unfold reconnect. destruct (s_panes (sup_core s) !! p ≫= _) as [c|] eqn:Ec; [|done].
  assert (sl_live (slice s p) ≠ None) as Hl.
  { cbn. unfold live, carry_over in *. destruct (s_panes _ !! p) as [t|]; [|done]. cbn in *. by destruct (pn_handle t). }
  assert (sl_known (slice s p) = true) as Hk. { apply (ok_pane_known _ Hok), (ok_live_pane _ Hok Hl). }
  assert (slice_ok (with_next_gen (with_launch None (with_live None (slice s p))))) as Hb.
  { apply bumped_ok; [by apply with_live_none_ok|done]. }
  destruct (cp_pid c) as [pid|].
  - rewrite !current_generation_slice. autorewrite with slices. by apply launched_ok; [apply with_live_none_ok|..].
  - by apply reconnect_failed_ok; autorewrite with slices.
Qed.

(** ** Output *)
Lemma handle_output_ok `{Watching} env up rt p g o s :
  slice_ok (slice s p) → slice_ok (slice (handle_output env up rt p g o s) p).
Proof.
  intros Hok. unfold handle_output. destruct (bool_decide _); [done|].
  rewrite (surjective_pairing (keep_early _ _ _ _)). cbv beta iota.
  assert (slice_ok (slice (keep_early p g o s).2 p)) as Hok1.
  { autorewrite with slices. apply fmap_launch_ok; [apply keep_same_kind|done]. }
  set (s1 := (keep_early p g o s).2) in *. clearbody s1.
  destruct (keep_early p g o s).1 as [[b|a b|b|b z|oc|r|t|n]|]; try (by slices).
  - by apply handle_exit_ok.
  - by apply reconnect_ok; autorewrite with slices.
Qed.

Lemma replay_ok `{Watching} env up rt p g b early s :
  slice_ok (slice s p) → slice_ok (slice (replay env up rt p g b early s) p).
Proof.
  intros Hok. unfold replay. set (s1 := match b with Some _ => _ | None => _ end).
  assert (slice s1 p = slice s p) as Hs. { unfold s1. by slices. } rewrite <-Hs in Hok. clearbody s1. clear dependent s.
  revert s1 Hok. induction early as [|o early IH]; intros s1 Hok; [done|]. cbn [foldl].
  apply IH. by apply handle_output_ok.
Qed.

(** A delayed restart, of a generation no launch was handed out under. *)
Lemma handle_respawn_ok `{Watching} env p g s :
  slice_ok (slice s p) → MJob g ∉ sl_marks (slice s p) → slice_ok (slice (handle_respawn env p g s) p).
Proof.
  intros Hok Hg. unfold handle_respawn. destruct (bool_decide_reflect (generation s p = Some g)) as [E|]; [|done].
  apply spawn_with_ok; [done|]. destruct (sl_live (slice s p)) eqn:El; [|done].
  destruct (ok_live_job _ Hok) as (g' & Hg' & Hin); [by rewrite El|]. cbn in Hg'. rewrite E in Hg'. by injection Hg' as <-.
Qed.

Lemma handle_respawn_live `{Watching} env p g s :
  slice_ok (slice s p) → sl_live (slice s p) ≠ None → MJob g ∉ sl_marks (slice s p) → handle_respawn env p g s = s.
Proof.
  intros Hok Hl Hg. unfold handle_respawn. destruct (bool_decide_reflect (generation s p = Some g)) as [E|]; [|done].
  destruct (ok_live_job _ Hok Hl) as (g' & Hg' & Hin). cbn in Hg'. rewrite E in Hg'. by injection Hg' as <-.
Qed.

Lemma handle_force_stop_calm `{Watching} env p sg shg s : calm (slice s p) (slice (handle_force_stop env p sg shg s) p).
Proof.
  unfold handle_force_stop. destruct (bool_decide _); [constructor|].
  destruct (s_panes _ !! p) as [t|]; [|constructor]. destruct (_ || _); [constructor|]. cbv zeta.
  set (s1 := alter_pane advance_shutdown p s). assert (slice s1 p = slice s p) as <- by (by apply slice_alter_same).
  clearbody s1. destruct (is_some _); [apply escalate_unsupervised_calm|]. by slices; constructor.
Qed.

(** ** Settling a launch *)
Lemma install_pane_self `{Watching} rt p h s :
  sl_known (slice s p) = true → slice (install_pane rt p h s).2 p = with_pane (Some h) None true (slice s p).
Proof.
  intros Hk. unfold install_pane, install_terminal. cbn in Hk. destruct (proc s p) as [pr|] eqn:E; [|done].
  cbv beta iota zeta. cbn [snd]. by slices.
Qed.

Lemma installed_ok h g sl :
  slice_ok sl → sl_launch sl = None → sl_known sl = true → sl_gen sl = Some g → MJob g ∈ sl_marks sl →
  slice_ok (with_pane (Some h) None true sl).
Proof.
  intros Hok Hla Hk Hg Hin. destruct sl as [L U P G K E D J]. cbn in *. subst.
  constructor; cbn; try done; intros; eauto. apply (ok_marks _ Hok).
Qed.

(** What taking a launch at its generation finds and leaves. *)
Record taken (g : N) (l : PendingLaunch) (sl : Slice) : Prop := {
  tk_ok : slice_ok sl;
  tk_launch : sl_launch sl = None;
  tk_live : sl_live sl = None;
  tk_known : sl_known sl = true;
  tk_unsup : is_spawn l = true → sl_unsup sl = None;
  tk_gen : sl_gen sl = Some g;
  tk_job : MJob g ∈ sl_marks sl;
  tk_generation : pl_generation l = g;
}.

Lemma take_launch_taken `{Watching} p g s l :
  slice_ok (slice s p) → (take_launch p g s).1 = Some l → taken g l (slice (take_launch p g s).2 p).
Proof.
  intros Hok Hl. destruct (take_launch_Some _ _ _ _ Hl) as (Hla & Hg & Hgl).
  rewrite take_launch_slice, at_pane_self, Hl. change (sl_launch (slice s p) = Some l) in Hla.
  assert (sl_launch (slice s p) ≠ None) as Hne by (by rewrite Hla).
  split; cbn; try done.
  - by apply with_launch_none_ok.
  - by apply (ok_launch_live _ Hok).
  - by apply (ok_launch_known _ Hok).
  - by apply (ok_spawn_unsup _ Hok).
  - rewrite <-Hgl. by apply (ok_launch_job _ Hok).
Qed.

Lemma take_launch_none `{Watching} p g s : (take_launch p g s).1 = None → slice (take_launch p g s).2 p = slice s p.
Proof. intros E. by rewrite take_launch_slice, at_pane_self, E. Qed.

Lemma stale_release_ok `{Watching} p g s : slice_ok (slice s p) → slice_ok (slice (stale_release p g s).2 p).
Proof.
  intros Hok. autorewrite with slices. destruct (sl_launch (slice s p)) as [l|] eqn:E; cbn; [|by apply with_launch_none_ok].
  destruct (_ =? _)%N; [by apply with_launch_none_ok|].
  replace (with_launch (Some l) (slice s p)) with (slice s p); [done|]. revert E. by destruct (slice s p); cbn; intros ->.
Qed.

Lemma install_spawned_ok `{Watching} env up rt p g l r rs early s :
  taken g l (slice s p) → slice_ok (slice (install_spawned env up rt p g r rs early s).2 p).
Proof.
  intros [Hok Hla Hl Hk Hu Hg Hj Hgl]. unfold install_spawned. destruct r as [h|e].
  - set (s1 := release_held_exit env p _). assert (slice s1 p = slice s p) as Hs1. { unfold s1. by slices. }
    rewrite <-Hs1 in *. clearbody s1. rewrite (surjective_pairing (install_pane _ _ _ _)). cbn [snd].
    apply replay_ok. autorewrite with slices. rewrite install_pane_self by done. by apply (installed_ok h g).
  - rewrite (surjective_pairing (Restarts.spawn_failed _ _)). cbn [snd].
    set (next := if ws_should_restart _ _ _ then _ else _).
    destruct (bool_decide _); destruct (Restarts.spawn_failed _ _).1; autorewrite with slices;
      (by apply delayed_ok; [apply with_live_none_ok|]) || by apply with_live_none_ok.
Qed.

Lemma handle_spawned_ok `{Watching} env up rt p g r s :
  slice_ok (slice s p) → slice_ok (slice (handle_spawned env up rt p g r s) p).
Proof.
  intros Hok. unfold handle_spawned. rewrite (surjective_pairing (take_launch _ _ _)). cbv beta iota.
  destruct (take_launch p g s).1 as [l|] eqn:E.
  - pose proof (take_launch_taken _ _ _ _ Hok E) as Ht. destruct (pl_purpose l).
    + rewrite (surjective_pairing (install_spawned _ _ _ _ _ _ _ _ _)). cbv beta iota.
      apply apply_pending_ok. by eapply install_spawned_ok.
    + set (s1 := (take_launch p g s).2) in *. clearbody s1. destruct r; autorewrite with slices; apply Ht.
  - apply take_launch_none in E. rewrite <-E in Hok. set (s1 := (take_launch p g s).2) in *. clearbody s1.
    rewrite (surjective_pairing (stale_release _ _ _)). cbv beta iota. apply (stale_release_ok p g) in Hok.
    set (s2 := (stale_release p g s1).2) in *. destruct (stale_release p g s1).1, r; clearbody s2; by slices.
Qed.

Lemma handle_launch_blocked_ok `{Watching} env p g b s :
  slice_ok (slice s p) → slice_ok (slice (handle_launch_blocked env p g b s) p).
Proof.
  intros Hok. unfold handle_launch_blocked. rewrite (surjective_pairing (take_launch _ _ _)). cbv beta iota.
  destruct (take_launch p g s).1 as [l|] eqn:E.
  - pose proof (take_launch_taken _ _ _ _ Hok E) as Ht. apply apply_pending_ok. set (s1 := (take_launch p g s).2) in *. clearbody s1.
    autorewrite with slices. apply Ht.
  - apply take_launch_none in E. rewrite <-E in Hok. by apply stale_release_ok.
Qed.

(** ** Adopting *)
Lemma stop_removed_ok `{Watching} env p s : slice_ok (slice s p) → slice_ok (slice (stop_removed env p s) p).
Proof.
  intros Hok. unfold stop_removed. cbv zeta. set (s1 := set_membership _ _ _).
  assert (slice_ok (slice s1 p)) as Hok1.
  { unfold s1. autorewrite with slices. apply fmap_launch_ok; [apply membership_same_kind|done]. }
  clearbody s1. clear dependent s. rewrite (surjective_pairing (record_intent _ _ _)). cbv beta iota.
  apply (record_intent_ok p IStop) in Hok1. set (s2 := (record_intent p IStop s1).2) in *. clearbody s2.
  destruct (record_intent _ _ _).1; [done|]. destruct (holds_process _ _); [by apply stop_pane_ok|by apply retire_pane_ok].
Qed.

Lemma install_adopted_ok `{Watching} env up rt p g l rec h c early s :
  taken g l (slice s p) → slice_ok (slice (install_adopted env up rt p g rec h c early s) p).
Proof.
  intros [Hok Hla Hl Hk Hu Hg Hj Hgl]. unfold install_adopted. cbv zeta.
  set (s1 := tell (WReplays _ _) _). assert (slice s1 p = slice s p) as Hs1. { unfold s1. by autorewrite with slices. }
  rewrite <-Hs1 in *. clearbody s1. rewrite (surjective_pairing (install_pane _ _ _ _)). cbv beta iota.
  apply replay_ok. rewrite slice_tell.
  assert (slice_ok (slice (install_pane rt p h s1).2 p)) as Hi. { rewrite install_pane_self by done. by apply (installed_ok h g). }
  set (s2 := (install_pane rt p h s1).2) in *. clearbody s2. by slices.
Qed.

Lemma settle_adoption_ok `{Watching} env up rt p g rec r s :
  slice_ok (slice s p) → slice_ok (slice (settle_adoption env up rt p g rec r s) p).
Proof.
  intros Hok. unfold settle_adoption. rewrite (surjective_pairing (take_launch _ _ _)). cbv beta iota.
  destruct (take_launch p g s).1 as [l|] eqn:E.
  - pose proof (take_launch_taken _ _ _ _ Hok E) as Ht. set (s1 := (take_launch p g s).2) in *. clearbody s1.
    destruct (pl_purpose l) as [|c]; [destruct r; autorewrite with slices; apply Ht|]. cbv zeta.
    destruct r as [h|e].
    + apply apply_pending_ok. by eapply install_adopted_ok.
    + destruct Ht as [Hok1 Hla Hl _ _ _ _ _]. destruct c as [c|]; cbn [fmap option_fmap option_map].
      * assert (slice_ok (slice (reconnect_failed env up p (with_membership c (pl_membership l)) (Some (rec, e))
                  (set_state p (pl_prior_state l) s1)) p)) as Hr by (by apply reconnect_failed_ok; rewrite slice_set_state).
        destruct (is_some _); [by apply apply_pending_ok|done].
      * pose proof (leave_unsupervised_self env p (hr_child_pid rec) (hr_child_start_token rec) (set_state p (pl_prior_state l) s1)) as Hlv.
        destruct (leave_unsupervised _ _ _ _ _) as [[|] s']; rewrite ?slice_set_state in Hlv; apply apply_pending_ok.
        -- destruct Hlv as [[ch Hch] Hk]. autorewrite with slices. rewrite Hch. by apply left_unsupervised_ok.
        -- autorewrite with slices. by rewrite Hlv.
  - apply take_launch_none in E. rewrite <-E in Hok. set (s1 := (take_launch p g s).2) in *. clearbody s1.
    rewrite (surjective_pairing (Book.take_stopped_adoption _ _ _)). cbv beta iota.
    destruct (Book.take_stopped_adoption _ _ _).1; [destruct r; by autorewrite with slices|].
    rewrite (surjective_pairing (stale_release _ _ _)). cbv beta iota.
    destruct r; [rewrite release_stale_slice|rewrite report_superseded_failure_slice]; apply stale_release_ok; by rewrite take_stopped_slice.
Qed.

Lemma settle_superseded_search_ok `{Watching} env nfc p rec s :
  slice_ok (slice s p) → slice_ok (slice (settle_superseded_search env nfc p rec s) p).
Proof.
  intros Hok. unfold settle_superseded_search. rewrite (surjective_pairing (child_runs_or_collect _ _ _)). cbv beta iota.
  assert (slice (child_runs_or_collect env rec s).2 p = slice s p) as Hs by apply child_runs_or_collect_slice.
  rewrite <-Hs in Hok. set (s1 := (child_runs_or_collect env rec s).2) in *. clearbody s1.
  destruct (child_runs_or_collect _ _ _).1; [|done]. cbv zeta. rewrite holds_process_slice.
  destruct (bool_decide _ && negb _) eqn:Ec; [|by autorewrite with slices]. apply andb_true_iff in Ec as [_ Ec%negb_true_iff].
  pose proof (leave_unsupervised_self env p (hr_child_pid rec) (hr_child_start_token rec) s1) as Hlv.
  destruct (leave_unsupervised _ _ _ _ _) as [[|] s']; [|by rewrite slice_notify_process, Hlv].
  destruct Hlv as [[ch Hch] Hk]. autorewrite with slices. rewrite Hch. apply left_unsupervised_ok; [done| |done].
  by destruct (sl_launch (slice s1 p)); [rewrite orb_true_r in Ec|].
Qed.

Lemma handle_reconnect_located_ok `{Watching} env nfc up p g rec s :
  slice_ok (slice s p) → slice_ok (slice (handle_reconnect_located env nfc up p g rec s) p).
Proof.
  intros Hok. unfold handle_reconnect_located. rewrite (surjective_pairing (take_launch _ _ _)). cbv beta iota zeta.
  destruct (take_launch p g s).1 as [l|] eqn:E.
  - pose proof (take_launch_taken _ _ _ _ Hok E) as Ht. set (s1 := (take_launch p g s).2) in *. clearbody s1.
    destruct (detaching _); [apply Ht|].
    destruct Ht as [Hok1 Hla Hl Hk Hu Hg Hj Hgl]. destruct (pl_purpose l) as [|[c|]] eqn:Ep; [done| |done].
    destruct (rec ≫= _) as [r|].
    + autorewrite with slices. apply begun_ok; try done. intros Hw. by apply (mk_apart _ _ (ok_marks _ Hok1) Hw).
    + assert (slice_ok (slice (reconnect_failed env up p (with_membership c (pl_membership l)) None
                  (set_state p (pl_prior_state l) s1)) p)) as Hr by (by apply reconnect_failed_ok; rewrite slice_set_state).
      destruct (is_some _); [by apply apply_pending_ok|done].
  - apply take_launch_none in E. rewrite <-E in Hok. set (s1 := (take_launch p g s).2) in *. clearbody s1.
    assert (slice_ok (slice (upd (on_launches (λ b, (Book.take p g b).2)) s1) p)) as Hok2.
    { rewrite book_take_slice, <-stale_release_slice. by apply stale_release_ok. }
    destruct (detaching _); [done|]. destruct rec; [by apply settle_superseded_search_ok|done].
Qed.

Lemma retryable_pid_Some `{Watching} env p s pid :
  (retryable_pid env p s).1 = Some pid → sl_launch (slice s p) = None ∧ sl_unsup (slice s p) ≠ None.
Proof.
  unfold retryable_pid. rewrite is_starting_slice. destruct (sl_launch (slice s p)) eqn:El; cbn [is_some negb andb]; [done|].
  destruct (bool_decide _); [|done]. unfold running_unsupervised_pid. change (unsupervised s p) with (sl_unsup (slice s p)).
  by destruct (sl_unsup (slice s p)).
Qed.

Lemma handle_adoption_probed_ok `{Watching} env p a k rec s :
  slice_ok (slice s p) → slice_ok (slice (handle_adoption_probed env p a k rec s) p).
Proof.
  intros Hok. unfold handle_adoption_probed. destruct (Retries.is_current _ _ _); [|done].
  rewrite (surjective_pairing (retryable_pid _ _ _)). cbv beta iota.
  destruct (retryable_pid env p s).1 as [pid|] eqn:E; [|by autorewrite with slices].
  apply retryable_pid_Some in E as [Hla Hu].
  destruct (rec ≫= _) as [r|]; [|destruct k; by autorewrite with slices].
  unfold begin_retry_adoption. cbv zeta. rewrite !current_generation_slice. autorewrite with slices.
  assert (sl_live (slice s p) = None) as Hl.
  { destruct (sl_live (slice s p)) eqn:El; [|done]. destruct Hu. apply (ok_live_unsup _ Hok). by rewrite El. }
  apply launched_ok; try done. apply (ok_pane_known _ Hok), (ok_unsup_pane _ Hok Hu).
Qed.
