(* ===== verification/SupSafe.v ===== *)
(** * What a supervisor runs

    Composes the handlers of Lifecycle.v over the whole supervisor: every event
    a project's supervisor handles, from its start, keeps each pane's slice
    well formed, and leaves a live run alone but for its own end. *)
From S2P Require Import Prelude RustText RustPath Values Process Config StackSync EventLog Books SupState Lifecycle SupInv SupLocal SupOk.

#[local] Arguments ws_process : simpl never.

(** ** Panes under a change *)
Section held.
Context `{Watching}.

(** A change keeps a pane well formed, and leaves it alone while it runs. *)
Definition held (p : N) (s s' : Sup) : Prop :=
  slice_ok (slice s p) → slice_ok (slice s' p) ∧ (sl_live (slice s p) ≠ None → slice s' p = slice s p).

Lemma held_same p s s' : slice s' p = slice s p → held p s s'.
Proof. intros E Hok. by rewrite E. Qed.

Lemma held_trans p s1 s2 s3 : held p s1 s2 → held p s2 s3 → held p s1 s3.
Proof.
  intros H1 H2 Hok. destruct (H1 Hok) as [Hok2 Hl2]. destruct (H2 Hok2) as [Hok3 Hl3]. split; [done|].
  intros Hl. specialize (Hl2 Hl). rewrite Hl3; [done|]. by rewrite Hl2.
Qed.

Lemma held_foldl {A} (f : Sup → A → Sup) l s p : (∀ s a, a ∈ l → held p s (f s a)) → held p s (foldl f s l).
Proof.
  revert s. induction l as [|a l IH]; intros s Hf; [by apply held_same|].
  apply held_trans with (f s a); [apply Hf; left|]. apply IH. intros. apply Hf. by right.
Qed.

(** A pane's own handler. *)
Lemma held_at (p q : N) (f : Sup → Sup) s :
  (q ≠ p → slice (f s) q = slice s q) → held p s (f s) → held q s (f s).
Proof. intros Ho Hp. destruct (decide (q = p)) as [->|Hne]; [done|]. by apply held_same, Ho. Qed.

(** ** Settling launches beside a live run *)
Lemma stale_release_live p g s :
  slice_ok (slice s p) → sl_live (slice s p) ≠ None → slice (stale_release p g s).2 p = slice s p.
Proof.
  intros Hok Hl. autorewrite with slices. destruct (sl_launch (slice s p)) as [l|] eqn:E.
  - destruct Hl. apply (ok_launch_live _ Hok). by rewrite E.
  - cbn. revert E. by destruct (slice s p); cbn; intros ->.
Qed.

Lemma take_launch_live p g s :
  slice_ok (slice s p) → sl_live (slice s p) ≠ None → (take_launch p g s).1 = None ∧ slice (take_launch p g s).2 p = slice s p.
Proof.
  intros Hok Hl. destruct (take_launch p g s).1 as [l|] eqn:E.
  - destruct (take_launch_Some _ _ _ _ E) as (Hla & _). destruct Hl. apply (ok_launch_live _ Hok). change (launch s p ≠ None). by rewrite Hla.
  - split; [done|]. by apply take_launch_none.
Qed.

Lemma handle_spawned_held env up rt p g r s : held p s (handle_spawned env up rt p g r s).
Proof.
  intros Hok. split; [by apply handle_spawned_ok|]. intros Hl. unfold handle_spawned.
  destruct (take_launch_live p g s Hok Hl) as [E Es]. rewrite (surjective_pairing (take_launch _ _ _)). cbv beta iota. rewrite E.
  set (s1 := (take_launch p g s).2) in *. rewrite <-Es in *. clearbody s1. clear dependent s.
  pose proof (stale_release_live p g s1 Hok Hl) as Es. rewrite (surjective_pairing (stale_release _ _ _)). cbv beta iota.
  rewrite <-Es. set (s2 := (stale_release p g s1).2). by destruct (stale_release p g s1).1, r; clearbody s2; slices.
Qed.

Lemma handle_launch_blocked_held env p g b s : held p s (handle_launch_blocked env p g b s).
Proof.
  intros Hok. split; [by apply handle_launch_blocked_ok|]. intros Hl. unfold handle_launch_blocked.
  destruct (take_launch_live p g s Hok Hl) as [E Es]. rewrite (surjective_pairing (take_launch _ _ _)). cbv beta iota. rewrite E.
  rewrite <-Es in *. by apply stale_release_live.
Qed.

Lemma handle_adopted_held env up rt p g rec r s : held p s (handle_adopted env up rt p g rec r s).
Proof.
  intros Hok. unfold handle_adopted. autorewrite with slices. split; [by apply settle_adoption_ok|]. intros Hl. unfold settle_adoption.
  destruct (take_launch_live p g s Hok Hl) as [E Es]. rewrite (surjective_pairing (take_launch _ _ _)). cbv beta iota. rewrite E.
  rewrite <-Es in *. set (s1 := (take_launch p g s).2) in *. clearbody s1. clear dependent s.
  rewrite (surjective_pairing (Book.take_stopped_adoption _ _ _)). cbv beta iota.
  destruct (Book.take_stopped_adoption _ _ _).1; [destruct r; by autorewrite with slices|].
  rewrite (surjective_pairing (stale_release _ _ _)). cbv beta iota.
  destruct r; [rewrite release_stale_slice|rewrite report_superseded_failure_slice];
    rewrite stale_release_live; rewrite ?take_stopped_slice; done.
Qed.

Lemma settle_superseded_search_live env nfc p rec s :
  sl_live (slice s p) ≠ None → slice (settle_superseded_search env nfc p rec s) p = slice s p.
Proof.
  intros Hl. unfold settle_superseded_search. rewrite (surjective_pairing (child_runs_or_collect _ _ _)). cbv beta iota.
  destruct (child_runs_or_collect _ _ _).1; [|by autorewrite with slices]. cbv zeta. rewrite holds_process_slice.
  autorewrite with slices. rewrite (is_some_ne _ Hl). cbn [orb negb]. rewrite andb_false_r. by autorewrite with slices.
Qed.

Lemma handle_reconnect_located_held env nfc up p g rec s : held p s (handle_reconnect_located env nfc up p g rec s).
Proof.
  intros Hok. split; [by apply handle_reconnect_located_ok|]. intros Hl. unfold handle_reconnect_located.
  destruct (take_launch_live p g s Hok Hl) as [E Es]. rewrite (surjective_pairing (take_launch _ _ _)). cbv beta iota zeta. rewrite E.
  set (s1 := (take_launch p g s).2) in *. rewrite <-Es in *. clearbody s1.
  assert (slice (upd (on_launches (λ b, (Book.take p g b).2)) s1) p = slice s1 p) as Es2.
  { rewrite book_take_slice, <-stale_release_slice. by apply stale_release_live. }
  rewrite <-Es2 in *. destruct (detaching _); [done|]. destruct rec; [by apply settle_superseded_search_live|done].
Qed.

Lemma handle_adoption_probed_held env p a k rec s : held p s (handle_adoption_probed env p a k rec s).
Proof.
  intros Hok. split; [by apply handle_adoption_probed_ok|]. intros Hl. unfold handle_adoption_probed.
  destruct (Retries.is_current _ _ _); [|done]. rewrite (surjective_pairing (retryable_pid _ _ _)). cbv beta iota.
  destruct (retryable_pid env p s).1 as [pid|] eqn:E; [|by autorewrite with slices].
  apply retryable_pid_Some in E as [_ Hu]. destruct Hu. by apply (ok_live_unsup _ Hok).
Qed.

Lemma calm_held p s s' : calm (slice s p) (slice s' p) → held p s s'.
Proof.
  intros Hc Hok. split; [by eapply calm_ok|]. intros Hl. apply calm_no_child; [done|]. by apply (ok_live_unsup _ Hok).
Qed.

(** ** Output *)

(** An output that ends a run: its exit, or a stream that broke. *)
Definition ends_run (o : ProcessOutput) : bool := match o with OExited _ | Unreadable_ _ => true | _ => false end.

Lemma handle_output_live env up rt p g o s :
  slice_ok (slice s p) → sl_live (slice s p) ≠ None → ends_run o = false ∨ generation s p ≠ Some g →
  slice (handle_output env up rt p g o s) p = slice s p.
Proof.
  intros Hok Hl He. unfold handle_output. destruct (bool_decide_reflect (generation s p ≠ Some g)); [done|].
  destruct He as [He|]; [|done]. rewrite (surjective_pairing (keep_early _ _ _ _)). cbv beta iota.
  assert (slice (keep_early p g o s).2 p = slice s p) as Hs. { autorewrite with slices. by apply fmap_launch_live. }
  rewrite <-Hs. set (s1 := (keep_early p g o s).2). clearbody s1. destruct (keep_early_back p g o s) as [->|[-> _]]; [done|].
  destruct o; try done; by slices.
Qed.

(** ** Batches *)
Lemma stop_pane_held env p s : held p s (stop_pane env p s).
Proof. intros Hok. split; [by apply stop_pane_ok|]. intros. by apply stop_pane_live. Qed.

Lemma set_membership_held p m s : held p s (set_membership p m s).
Proof.
  intros Hok. autorewrite with slices. split; [apply fmap_launch_ok; [apply membership_same_kind|done]|].
  intros. by apply fmap_launch_live.
Qed.

Lemma spawn_with_held env p e s : sl_live (slice s p) = None → held p s (spawn_with env p e s).
Proof. intros Hl Hok. split; [by apply spawn_with_ok|]. by rewrite Hl. Qed.

Lemma spawn_with_idle env p e s : sl_live (slice s p) = None → sl_live (slice (spawn_with env p e s) p) = None.
Proof.
  intros Hl. unfold spawn_with. destruct (is_starting s p); [done|].
  destruct (refuse_unsupervised_launch_self env p s) as [Hc _].
  rewrite (surjective_pairing (refuse_unsupervised_launch _ _ _)). cbv beta iota.
  set (s1 := (refuse_unsupervised_launch env p s).2) in *. apply (calm_live_none _ _ Hc) in Hl. clearbody s1. clear Hc.
  destruct (refuse_unsupervised_launch _ _ _).1; [done|]. clear s. unfold launch_now. by slices.
Qed.

Lemma down_held env q s : held q s (down env s).2.
Proof.
  unfold down. rewrite (surjective_pairing (finish_batch _ _ _)). cbn [snd].
  apply held_trans with (begin_batch s); [apply held_same, slice_on_refusals|].
  eapply held_trans; [|apply held_same, finish_batch_slice].
  apply held_foldl. intros s1 [p n] _. apply held_at with (p := p); [apply stop_pane_other|apply stop_pane_held].
Qed.

Lemma collect_with_slice {A B} (f : A → Sup → option B * Sup) l s q :
  (∀ a s, slice (f a s).2 q = slice s q) → slice (collect_with f l s).2 q = slice s q.
Proof.
  intros Hf. revert s. induction l as [|a l IH]; intros s; [done|]. cbn.
  rewrite (surjective_pairing (f a s)). cbv beta iota. rewrite (surjective_pairing (collect_with f l _)). cbn [snd].
  by rewrite IH, Hf.
Qed.

Lemma autostart_panes_idle env s :
  (∀ q, slice (autostart_panes env s).2 q = slice s q) ∧ ∀ p, p ∈ (autostart_panes env s).1 → sl_live (slice s p) = None.
Proof.
  unfold autostart_panes. generalize (p_id <$> filter (λ p, p_autostart p = true) (s_workspace (sup_core s))).
  intros l. revert s. induction l as [|a l IH]; intros s; [split; [done|]; by intros ? ?%not_elem_of_nil|].
  cbn [collect_with]. rewrite (surjective_pairing (if _ : bool then _ else _)). cbv beta iota.
  set (r := if is_live s a || is_starting s a then _ else _).
  assert (∀ q, slice r.2 q = slice s q) as Hs. { intros q. unfold r. by slices. }
  destruct (IH r.2) as [IH1 IH2]. rewrite (surjective_pairing (collect_with _ l _)). cbv beta iota. cbn [fst snd].
  split; [intros q; by rewrite IH1|]. intros p Hp.
  assert (p = a ∧ r.1 ≠ None ∨ p ∈ (collect_with (λ pane s, if is_live s pane || is_starting s pane then (None, s)
      else let '(pid, s) := running_unsupervised_pid env pane s in (if is_some pid then None else Some pane, s)) l r.2).1) as [[-> Hr]|Hin].
  { assert (∀ x, r.1 = Some x → x = a) as Ha.
    { intros x. unfold r. destruct (_ || _); [done|]. rewrite (surjective_pairing (running_unsupervised_pid _ _ _)). cbn [fst].
      destruct (is_some _); [done|]. by intros [= <-]. }
    destruct r.1 as [x|]; [|by right]. apply elem_of_cons in Hp as [->|Hp]; [left|by right]. split; [by apply Ha|done]. }
  - unfold r in Hr. rewrite is_live_slice in Hr. destruct (sl_live (slice s a)); done.
  - rewrite <-(Hs p). by apply IH2.
Qed.

Lemma up_held env e q s : held q s (up env e s).2.
Proof.
  unfold up. cbv zeta. destruct (autostart_panes_idle env (begin_batch s)) as [Hsl Hidle].
  rewrite (surjective_pairing (autostart_panes env (begin_batch s))). cbv beta iota.
  set (s1 := (autostart_panes env (begin_batch s)).2) in *. set (panes := (autostart_panes env (begin_batch s)).1) in *.
  assert (∀ p, p ∈ panes → sl_live (slice s1 p) = None) as Hidle1. { intros p Hp. rewrite Hsl. by apply Hidle. }
  assert (slice s1 q = slice s q) as Hs1. { rewrite Hsl. apply slice_on_refusals. }
  rewrite (surjective_pairing (collect_with _ _ _)). cbv beta iota. rewrite (surjective_pairing (finish_batch _ _ _)). cbn [snd].
  apply held_trans with s1; [by apply held_same|]. clearbody s1 panes. clear Hs1 Hsl Hidle.
  eapply held_trans; [|apply held_same; rewrite finish_batch_slice; apply collect_with_slice; intros; apply unsupervised_refusal_slice].
  revert s1 Hidle1. induction panes as [|p panes IH]; intros s1 Hidle; [by apply held_same|]. cbn [foldl].
  set (s2 := upd (on_restarts (Restarts.end_crash_streak p)) s1).
  assert (∀ r, slice s2 r = slice s1 r) as Hs2. { intros r. apply slice_on_restarts. }
  apply held_trans with s2; [by apply held_same|]. apply held_trans with (spawn_with env p (Some e) s2).
  - apply held_at with (p := p); [apply spawn_with_other|]. apply spawn_with_held. rewrite Hs2. apply Hidle. left.
  - intros Hok. apply IH; [|done]. intros r Hr. destruct (decide (r = p)) as [->|Hne].
    + apply spawn_with_idle. rewrite Hs2. apply Hidle. left.
    + rewrite spawn_with_other, Hs2 by done. apply Hidle. by right.
Qed.

(** ** Adopting a holder *)
Lemma ws_process_known ws p : is_some (ws_process ws p) = true ↔ p ∈ p_id <$> ws.
Proof. rewrite ws_process_is_some. by rewrite bool_decide_eq_true. Qed.

Lemma pane_named_known nfc s n p : pane_named nfc s n = Some p → sl_known (slice s p) = true.
Proof.
  unfold pane_named. intros (pr & Hf & ->)%fmap_Some. apply List.find_some in Hf as [Hin%list_elem_of_In _].
  apply ws_process_known, list_elem_of_fmap. by exists pr.
Qed.

Lemma fresh_pane_unknown s : sl_known (slice s (fresh_pane s)) = false.
Proof.
  apply not_true_is_false. intros (pr & Hid & Hin)%ws_process_known%list_elem_of_fmap.
  apply next_id_above in Hin. unfold fresh_pane in Hid. lia.
Qed.

Lemma slice_ws_push pr s q :
  slice (upd (on_workspace (λ w, ws_push w pr)) s) q = at_pane (p_id pr) q (with_known true) (slice s q).
Proof.
  unfold at_pane, slice, proc, ws_push. cbn. destruct (decide (q = p_id pr)) as [->|Hne].
  - unfold with_known. cbn. f_equal. apply ws_process_known. rewrite fmap_app. set_solver.
  - rewrite !ws_process_is_some, fmap_app. f_equal. apply bool_decide_ext. set_solver.
Qed.

(** A pane with no row holds nothing. *)
Lemma unknown_idle sl : slice_ok sl → sl_known sl = false → sl_live sl = None ∧ sl_unsup sl = None ∧ sl_launch sl = None ∧ sl_pane sl = false.
Proof.
  intros Hok Hk. assert (sl_pane sl = false) as Hp. { destruct (sl_pane sl) eqn:E; [|done]. by rewrite (ok_pane_known _ Hok E) in Hk. }
  repeat split; [| | |done].
  - destruct (sl_live sl) eqn:E; [|done]. rewrite (ok_live_pane _ Hok) in Hp; [done|by rewrite E].
  - destruct (sl_unsup sl) eqn:E; [|done]. rewrite (ok_unsup_pane _ Hok) in Hp; [done|by rewrite E].
  - destruct (sl_launch sl) eqn:E; [|done]. rewrite (ok_launch_known _ Hok) in Hk; [done|by rewrite E].
Qed.

Lemma with_known_ok sl : slice_ok sl → slice_ok (with_known true sl).
Proof. intros [H1 H2 H3 H4 H5 H6 H7 H8 H9 H10 H11]. by split; cbn. Qed.

(** Beginning an adoption on a pane that holds nothing. *)
Definition adopt_on (pane : N) (removed : bool) (env : Env) (record : HolderRecord) (s : Sup) : Sup :=
  let s := upd (on_launches (Book.set_environment pane (hr_launch_environment record))) s in
  let s := bump_generation pane s in
  let gen := current_generation s pane in
  let prior := default SPending (state_of s pane) in
  let s := upd (on_launches (Book.begin pane (Launches.new gen prior (Adopt None)))) s in
  let s := set_state pane SStarting s in
  let s := if removed then stop_removed env pane s else s in
  emit (FJob (JAdopt pane gen record None)) s.

Lemma stop_removed_starting env p s l :
  sl_launch (slice s p) = Some l →
  slice (stop_removed env p s) p =
    with_launch (Some (Launches.record_intent IStop (Launches.record_membership RetireOnExit l))) (slice s p).
Proof.
  intros Hl. unfold stop_removed. rewrite (surjective_pairing (record_intent _ _ _)). cbv beta iota zeta.
  rewrite record_intent_starting. autorewrite with slices. rewrite Hl. cbn [fmap option_fmap option_map sl_launch with_launch is_some].
  autorewrite with slices. by rewrite Hl.
Qed.

Lemma adopt_on_ok p removed env rec s :
  slice_ok (slice s p) → sl_live (slice s p) = None → sl_known (slice s p) = true → slice_ok (slice (adopt_on p removed env rec s) p).
Proof.
  intros Hok Hl Hk. unfold adopt_on. cbv zeta. rewrite !current_generation_slice. set (s1 := upd _ s).
  assert (slice s1 p = slice s p) as Hs1 by apply slice_set_environment. rewrite <-Hs1 in *. clearbody s1. clear s Hs1.
  destruct removed; rewrite slice_job_adopt, at_pane_self; [erewrite stop_removed_starting|];
    autorewrite with slices; try done; by apply launched_ok.
Qed.

Lemma adopt_on_other p removed env rec s q : q ≠ p → slice (adopt_on p removed env rec s) q = slice s q.
Proof.
  intros Hne. unfold adopt_on. cbv zeta. rewrite slice_job_adopt, at_pane_other by done.
  destruct removed; [rewrite stop_removed_other by done|]; by autorewrite with slices.
Qed.

Lemma adopt_held env nfc rec q s : held q s (adopt env nfc rec s).
Proof.
  unfold adopt, adoptable_pane. destruct (pane_named nfc s (hr_process rec)) as [p|] eqn:Ep; cbn [is_some negb].
  - destruct (holds_process s p) eqn:Eh.
    + rewrite (surjective_pairing (child_runs_or_collect _ _ _)). cbv beta iota. apply held_same.
      destruct (child_runs_or_collect _ _ _).1; by autorewrite with slices.
    + apply held_at with (p := p) (f := adopt_on p false env rec); [apply adopt_on_other|]. intros Hok.
      rewrite holds_process_slice in Eh. destruct (sl_live (slice s p)) eqn:El; [done|].
      split; [|done]. apply adopt_on_ok; [done|done|]. by eapply pane_named_known.
  - unfold add_removed_pane. cbv zeta. set (p := fresh_pane s). set (s1 := upd _ s).
    assert (∀ r, slice s1 r = at_pane p r (with_known true) (slice s r)) as Hs1. { intros r. apply slice_ws_push. }
    change (held q s (adopt_on p true env rec s1)). intros Hok. destruct (decide (q = p)) as [->|Hne].
    + destruct (unknown_idle _ Hok (fresh_pane_unknown s)) as (Hl & _). split; [|by rewrite Hl].
      apply adopt_on_ok; rewrite Hs1, at_pane_self; [by apply with_known_ok|done..].
    + by rewrite adopt_on_other, Hs1, at_pane_other by done.
Qed.

(** ** Following the stored stack *)
Lemma sync_matched nfc by_key next specs q :
  let '(synced, matched, _) := sync_specs nfc by_key next specs in q ∈ matched → q ∈ p_id <$> synced.
Proof.
  revert by_key next. induction specs as [|sp specs IH]; intros by_key next; [by intros ?%not_elem_of_nil|]. cbn [sync_specs].
  destruct (by_key !! key nfc sp) as [ex|].
  - specialize (IH (delete (key nfc sp) by_key) next). destruct (sync_specs nfc _ next specs) as [[sy ma] ad].
    rewrite fmap_cons. set_solver.
  - specialize (IH (delete (key nfc sp) by_key) (next + 1)%N). destruct (sync_specs nfc _ _ specs) as [[sy ma] ad].
    rewrite fmap_cons. set_solver.
Qed.

(** Every pane keeps its row or is removed, and a removed one ran nothing. *)
Lemma sync_keeps nfc ws specs live q :
  q ∈ p_id <$> ws → q ∈ p_id <$> ss_workspace (apply nfc ws specs live) ∨ q ∈ ss_removed (apply nfc ws specs live).
Proof.
  intros (p & -> & Hp)%list_elem_of_fmap. unfold apply.
  pose proof (sync_matched nfc (by_key_of nfc ws) (next_id_of ws) specs (p_id p)) as Hm.
  destruct (sync_specs _ _ _ _) as [[synced matched] added]. cbn. rewrite fmap_app, elem_of_app.
  destruct (decide (p_id p ∈ matched)) as [Hin|Hni]; [left; left; by apply Hm|].
  destruct (live (p_id p)) eqn:E; [left; right|right]; apply list_elem_of_fmap; exists p; (split; [done|]);
    by rewrite !list_elem_of_filter.
Qed.

Lemma sync_removed nfc ws specs live q : q ∈ ss_removed (apply nfc ws specs live) → live q = false.
Proof.
  unfold apply. destruct (sync_specs _ _ _ _) as [[synced matched] added]. cbn.
  by intros (p & -> & [Hl _]%list_elem_of_filter)%list_elem_of_fmap.
Qed.

Lemma slice_on_workspace f s q :
  slice (upd (on_workspace f) s) q = with_known (is_some (ws_process (f (s_workspace (sup_core s))) q)) (slice s q).
Proof. done. Qed.

(** Rows taken away from panes that are then retired. *)
Lemma retire_all_ok l s q :
  slice_ok (slice s q) ∨ q ∈ l ∧ marks_ok (sl_gen (slice s q)) (sl_marks (slice s q)) →
  slice_ok (slice (foldl (λ s pane, retire_pane pane s) s l) q).
Proof.
  revert s. induction l as [|p l IH]; intros s Hq; cbn [foldl].
  { destruct Hq as [|[?%not_elem_of_nil _]]; done. }
  apply IH. destruct (decide (q = p)) as [->|Hne]; [|rewrite retire_pane_other by done; set_solver].
  left. destruct (retire_pane_self p s) as [k ->]. apply quiet_ok; try done.
  apply next_marks_ok. by destruct Hq as [Hok%ok_marks|[_ Hm]].
Qed.

Lemma retire_all_other l s q : q ∉ l → slice (foldl (λ s pane, retire_pane pane s) s l) q = slice s q.
Proof.
  revert s. induction l as [|p l IH]; intros s Hq; cbn [foldl]; [done|].
  rewrite IH by set_solver. apply retire_pane_other. set_solver.
Qed.

Lemma known_again k sl : sl_known sl = k → with_known k sl = sl.
Proof. by destruct sl; cbn; intros ->. Qed.

Lemma resync_held nfc specs q s :
  let sync := apply nfc (s_workspace (sup_core s)) specs (holds_process s) in
  held q s (foldl (λ s pane, retire_pane pane s) (upd (on_workspace (λ _, ss_workspace sync)) s) (ss_removed sync)).
Proof.
  cbv zeta. set (sync := apply _ _ _ _). set (s1 := upd _ s).
  assert (slice s1 q = with_known (is_some (ws_process (ss_workspace sync) q)) (slice s q)) as Hs1 by done.
  clearbody s1. intros Hok.
  assert (q ∉ ss_removed sync → sl_known (slice s q) = true → is_some (ws_process (ss_workspace sync) q) = true) as Hkeep.
  { intros Hr Hk%ws_process_known. apply ws_process_known. by destruct (sync_keeps nfc _ specs (holds_process s) q Hk). }
  split.
  - apply retire_all_ok. rewrite Hs1. destruct (decide (q ∈ ss_removed sync)) as [Hin|Hni]; [right; split; [done|apply (ok_marks _ Hok)]|left].
    destruct (sl_known (slice s q)) eqn:Hk.
    + rewrite known_again; [done|]. by rewrite Hkeep.
    + destruct (unknown_idle _ Hok Hk) as (Hl & Hu & Hla & Hp). apply quiet_ok;
        [exact Hl|exact Hla|intros Hx; by destruct (Hx Hu)|intros Hx; change (sl_pane (slice s q) = true) in Hx; congruence|exact (ok_marks _ Hok)].
  - intros Hl. assert (q ∉ ss_removed sync) as Hni.
    { intros Hh%sync_removed. rewrite holds_process_slice, (is_some_ne _ Hl) in Hh. done. }
    rewrite retire_all_other, Hs1 by done. apply known_again.
    rewrite Hkeep; [|done|]; apply (ok_pane_known _ Hok), (ok_live_pane _ Hok Hl).
Qed.

Lemma apply_stack_held env nfc stack q s : held q s (apply_stack env nfc stack s).
Proof.
  unfold apply_stack. cbv zeta. set (s1 := upd (on_project _) s).
  apply held_trans with s1; [apply held_same, slice_on_project|]. clearbody s1. clear s.
  pose proof (resync_held nfc (st_processes stack) q s1) as Hr. cbv zeta in Hr. apply (held_trans _ _ _ _ Hr). clear Hr.
  set (s2 := foldl _ _ (ss_removed _)). set (s3 := foldl (λ s pane, set_membership pane Tracked s) s2 _).
  apply held_trans with s3; [unfold s3; clearbody s2; clear s3; apply held_foldl|clearbody s3; clear s2; apply held_foldl]; intros s4 p _.
  - apply held_at with (p := p) (f := set_membership p Tracked); [|apply set_membership_held].
    intros. autorewrite with slices. done.
  - apply held_trans with (set_membership p RetireOnExit s4).
    + apply held_at with (p := p) (f := set_membership p RetireOnExit); [|apply set_membership_held].
      intros. by autorewrite with slices.
    + apply held_at with (p := p) (f := stop_pane env p); [apply stop_pane_other|apply stop_pane_held].
Qed.

(** ** Shutting down *)
Lemma detached_next_ok sl : slice_ok sl → sl_live sl = None → sl_detaching sl = true → slice_ok (with_next_gen sl).
Proof.
  intros [H1 H2 H3 H4 H5 H6 H7 H8 H9 H10 H11] Hl Hd. split; cbn; rewrite ?Hl, ?Hd; try done; auto.
  - intros l Hla. apply elem_of_app. right. by apply H9.
  - by apply next_marks_ok.
Qed.

Lemma shutdown_generations_ok l s q :
  slice_ok (slice s q) → sl_live (slice s q) = None → sl_detaching (slice s q) = true →
  let s' := foldl (λ s pane, advance_generation pane s) s l in
  slice_ok (slice s' q) ∧ sl_live (slice s' q) = None.
Proof.
  cbv zeta. revert s. induction l as [|p l IH]; intros s Hok Hl Hd; [done|]. cbn [foldl].
  apply IH; rewrite slice_advance_generation; unfold at_pane; destruct (decide (q = p)); try done. by apply detached_next_ok.
Qed.

Lemma release_panes_slice l s q :
  slice (foldl (λ s pane, alter_pane take_handle pane (drop_handle pane s)) s l) q =
    if decide (q ∈ l) then with_live None (slice s q) else slice s q.
Proof.
  revert s. induction l as [|p l IH]; intros s; cbn [foldl]; [by rewrite decide_False by set_solver|].
  rewrite IH. autorewrite with slices. unfold at_pane.
  destruct (decide (q ∈ l)), (decide (q = p)), (decide (q ∈ p :: l)); try done; set_solver.
Qed.

Lemma emit_drops_slice (l : list (N * Handle)) s q : slice (foldl (λ s kv, emit (FDrop (h_id kv.2)) s) s l) q = slice s q.
Proof. revert s. induction l as [|kv l IH]; intros s; [done|]. cbn [foldl]. rewrite IH. by autorewrite with slices. Qed.

Lemma shutdown_ok q s : slice_ok (slice s q) → slice_ok (slice (shutdown s) q) ∧ sl_live (slice (shutdown s) q) = None.
Proof.
  intros Hok. unfold shutdown. cbv zeta. set (s1 := upd (on_launches Book.detach_all) s).
  assert (slice s1 q = with_detaching (slice s q)) as Hs1 by done.
  assert (slice_ok (slice s1 q)) as Hok1. { rewrite Hs1. destruct Hok as [H1 H2 H3 H4 H5 H6 H7 H8 H9 H10 H11]. by split; cbn. }
  set (s2 := foldl _ s1 _).
  assert (slice s2 q = with_live None (slice s1 q)) as Hs2.
  { unfold s2. rewrite release_panes_slice. case_decide as Hin; [done|].
    assert (live s1 q = None) as Hl.
    { unfold live. destruct (s_panes (sup_core s1) !! q) as [t|] eqn:E; [|done]. destruct Hin.
      apply list_elem_of_fmap. exists (q, t). split; [done|]. by apply elem_of_map_to_list. }
    unfold with_live. cbn. rewrite <-Hl. done. }
  clearbody s2. set (dropped := filter _ (map_to_list _)). set (s3 := foldl _ s2 dropped).
  assert (slice s3 q = slice s2 q) as Hs3.
  { apply emit_drops_slice. }
  clearbody s3. apply shutdown_generations_ok; rewrite slice_on_attach, Hs3, Hs2; [by apply with_live_none_ok|done|by rewrite Hs1].
Qed.
End held.

(** ** Events *)
Section reach.
Context `{Watching} (env : Env) (nfc to_uppercase : rstr → rstr) (repaint_text : list N → PtySize → rstr).

(** A delayed restart fires for a timer that was set, before the pane's
    generations wrapped around; anything else may reach a supervisor at any
    time, the results of its workers under any generation included. *)
Definition deliverable (s : Sup) (e : Event) : Prop :=
  match e with
  | ERespawn p g => (∃ d, FJob (JRespawn p g d) ∈ sup_trace s) ∧ FGeneration p 0 ∉ sup_trace s
  | _ => True
  end.

(** What a supervisor may come to, from its start on a stack. *)
Inductive reachable : Sup → Prop :=
| reach_new project stack settings port_occupants at_ : reachable (new nfc project stack settings port_occupants at_)
| reach_step s at_ e : reachable s → deliverable s e → reachable (step env nfc to_uppercase repaint_text s (at_, e)).

(** The end of a pane's run, as an event. *)
Definition ends (p : N) (s : Sup) (e : Event) : Prop :=
  match e with
  | EShutdown => True
  | EOutput q g o => q = p ∧ ends_run o = true ∧ generation s p = Some g
  | _ => False
  end.

Lemma timer_apart s p g : slice_ok (slice s p) → deliverable s (ERespawn p g) → MJob g ∉ sl_marks (slice s p).
Proof.
  intros Hok [[d Hd] Hw] Hj.
  assert (MWrap ∉ sl_marks (slice s p)) as Hnw.
  { intros (e & He & Hm)%list_elem_of_omap. destruct e as [[]| | | | | | | | | | |q k|]; cbn in Hm; try (by repeat case_match).
    destruct ((q =? p) && (k =? 0))%N eqn:E; [|done]. apply andb_true_iff in E as [->%N.eqb_eq ->%N.eqb_eq]. done. }
  apply (mk_apart _ _ (ok_marks _ Hok) Hnw g Hj). apply list_elem_of_omap.
  exists (FJob (JRespawn p g d)). split; [done|]. cbn. by rewrite N.eqb_refl.
Qed.

Lemma handle_respawn_held s p g : deliverable s (ERespawn p g) → held p s (handle_respawn env p g s).
Proof.
  intros Hd Hok. pose proof (timer_apart s p g Hok Hd) as Hn. split; [by apply handle_respawn_ok|].
  intros Hl. by rewrite handle_respawn_live.
Qed.

Lemma on_named_held (f : N → Sup → Sup) n s q :
  (∀ p s, held p s (f p s)) → (∀ p s, q ≠ p → slice (f p s) q = slice s q) → held q s (on_named nfc f n s).
Proof.
  intros Hf Ho. unfold on_named. rewrite (surjective_pairing (resolve _ _ _)). cbv beta iota.
  apply held_trans with (resolve nfc n s).2; [apply held_same, resolve_slice|].
  destruct (resolve nfc n s).1 as [p|]; [|by apply held_same]. apply held_at with (p := p) (f := f p); auto.
Qed.

Lemma start_pane_held p e s : held p s (start_pane env p e s).
Proof. intros Hok. split; [by apply start_pane_ok|]. intros. by apply start_pane_live. Qed.
Lemma restart_pane_held p e s : held p s (restart_pane env p e s).
Proof. intros Hok. split; [by apply restart_pane_ok|]. intros. by apply restart_pane_live. Qed.
Lemma pause_pane_held p s : held p s (pause_pane env p s).
Proof. intros Hok. rewrite pause_pane_slice. split; [by apply record_suspend_ok|]. intros. by apply record_suspend_live. Qed.
Lemma resume_pane_held p s : held p s (resume_pane env p s).
Proof. intros Hok. rewrite resume_pane_slice. split; [by apply record_suspend_ok|]. intros. by apply record_suspend_live. Qed.
Lemma force_kill_pane_held p s : held p s (force_kill_pane env p s).
Proof. intros Hok. split; [by apply force_kill_pane_ok|]. intros. by apply force_kill_pane_live. Qed.

Lemma handle_output_held p g o s : ~ ends p s (EOutput p g o) → held p s (handle_output env to_uppercase repaint_text p g o s).
Proof.
  intros Hn Hok. split; [by apply handle_output_ok|]. intros. apply handle_output_live; [done|done|].
  cbn in Hn. destruct (ends_run o); [|by left]. right. tauto.
Qed.

Lemma idle_stop_held at_ q s : held q s (idle_stop_if_due env at_ s).2.
Proof.
  unfold idle_stop_if_due. destruct (idle_deadline s); [|by apply held_same]. destruct (_ <? _)%N; [by apply held_same|]. cbv zeta.
  set (s1 := hold_up s). apply held_trans with s1; [apply held_same, slice_on_left_at|]. clearbody s1. destruct (existsb _ _); [|by apply held_same].
  rewrite (surjective_pairing (down env s1)). cbn [snd]. eapply held_trans; [apply down_held|]. apply held_same, slice_on_idle.
Qed.

Lemma foldl_slice {A} (f : Sup → A → Sup) l s q : (∀ s a, slice (f s a) q = slice s q) → slice (foldl f s l) q = slice s q.
Proof. intros Hf. revert s. induction l as [|a l IH]; intros s; [done|]. cbn. by rewrite IH. Qed.

(** Every event keeps a pane well formed and, unless it ends the pane's run,
    leaves that run alone. *)
Lemma handle_held q s e : deliverable s e → ~ ends q s e → held q s (handle env nfc to_uppercase repaint_text e s).
Proof.
  intros Hd He. destruct e; cbn [handle].
  - apply up_held.
  - apply down_held.
  - apply on_named_held; [intros; apply start_pane_held|intros; by apply start_pane_other].
  - apply on_named_held; [intros; apply stop_pane_held|intros; by apply stop_pane_other].
  - apply on_named_held; [intros; apply restart_pane_held|intros; by apply restart_pane_other].
  - apply on_named_held; [intros; apply pause_pane_held|intros; by apply pause_pane_other].
  - apply on_named_held; [intros; apply resume_pane_held|intros; by apply resume_pane_other].
  - apply on_named_held; [intros; apply force_kill_pane_held|intros; by apply force_kill_pane_other].
  - destruct (decide (q = pane)) as [->|Hne]; [by apply handle_output_held|by apply held_same, handle_output_other].
  - destruct (decide (q = pane)) as [->|Hne]; [by apply handle_respawn_held|by apply held_same, handle_respawn_other].
  - apply held_at with (p := pane) (f := handle_force_stop env pane sg shg); [apply handle_force_stop_other|apply calm_held, handle_force_stop_calm].
  - apply held_at with (p := pane) (f := handle_spawned env to_uppercase repaint_text pane gen r); [apply handle_spawned_other|apply handle_spawned_held].
  - apply held_at with (p := pane) (f := handle_launch_blocked env pane gen block); [apply handle_launch_blocked_other|apply handle_launch_blocked_held].
  - apply adopt_held.
  - apply held_at with (p := pane) (f := handle_adopted env to_uppercase repaint_text pane gen record r); [apply handle_adopted_other|apply handle_adopted_held].
  - apply held_at with (p := pane) (f := handle_reconnect_located env nfc to_uppercase pane gen record);
      [apply handle_reconnect_located_other|apply handle_reconnect_located_held].
  - apply held_at with (p := pane) (f := handle_adoption_probed env pane attempt asked record); [apply handle_adoption_probed_other|apply handle_adoption_probed_held].
  - apply held_same, handle_adoption_retry_due_slice.
  - apply apply_stack_held.
  - apply held_same, slice_on_settings.
  - apply held_same, foldl_slice. intros. apply restore_end_slice.
  - apply held_same, foldl_slice. intros. apply release_held_exit_slice.
  - apply idle_stop_held.
  - apply held_same, slice_on_metrics.
  - apply held_same, settle_holder_read_slice.
  - by destruct He.
Qed.

Lemma handle_ok q s e : deliverable s e → slice_ok (slice s q) → slice_ok (slice (handle env nfc to_uppercase repaint_text e s) q).
Proof.
  intros Hd Hok. destruct e as [| | | | | | | |p g o| | | | | | | | | | | | | | | | |];
    try (by apply handle_held; [done|intros []|done]).
  - cbn [handle]. destruct (decide (q = p)) as [->|Hne]; [by apply handle_output_ok|by rewrite handle_output_other].
  - by apply shutdown_ok.
Qed.

Lemma no_marks_ok : marks_ok None [].
Proof. split; [done|intros _ g [?%not_elem_of_nil|?%not_elem_of_nil]; done|by intros _ g ?%not_elem_of_nil]. Qed.

Lemma reachable_ok s p : reachable s → slice_ok (slice s p).
Proof.
  induction 1 as [project stack settings port at_|s at_ e Hs IH Hd].
  - apply quiet_ok; try done. apply no_marks_ok.
  - unfold step. cbn [fst snd]. by apply handle_ok; [|rewrite slice_on_now].
Qed.


(** C4: a supervisor lets go of a live run only when that run's own output
    says it exited or that its stream broke, or when the service shuts down.
    Every other event, among them starts, stops, restarts, kills, batches,
    changes of the stack, adoptions of other holders and the results of
    superseded workers and timers, leaves the pane its handle and its
    generation. *)
Theorem live_run_kept s p h at_ e :
  reachable s → deliverable s e → live s p = Some h → ~ ends p s e →
  let s' := step env nfc to_uppercase repaint_text s (at_, e) in
  live s' p = Some h ∧ generation s' p = generation s p ∧ proc s' p ≠ None.
Proof.
  intros Hr Hd Hl He. cbv zeta. set (s0 := upd (on_now (λ _, at_)) s). pose proof (reachable_ok s p Hr) as Hok.
  assert (slice s0 p = slice s p) as Hs0 by apply slice_on_now.
  destruct (handle_held p s0 e Hd) as [Hok' Hsame]; [by destruct e|by rewrite Hs0|].
  rewrite Hs0 in Hsame. specialize (Hsame ltac:(cbn; congruence)). unfold step. cbn [fst snd]. fold s0.
  set (s' := handle _ _ _ _ e s0) in *. clearbody s'.
  change (live s' p) with (sl_live (slice s' p)). change (generation s' p) with (sl_gen (slice s' p)). rewrite Hsame.
  split; [done|]. split; [done|]. intros Hk. assert (sl_known (slice s' p) = false) as Hf by (cbn; by rewrite Hk).
  rewrite Hsame, (ok_pane_known _ Hok) in Hf; [done|]. apply (ok_live_pane _ Hok). cbn. congruence.
Qed.

(** *** Shutting down touches no process *)

(** What a shutdown does beyond the supervisor itself: it drops handles,
    which leaves their processes to their holders. *)
Definition lets_go (e : Effect) : Prop := match e with FDrop _ | FGeneration _ _ => True | _ => False end.

(** Steps that only add such effects. *)
Definition releases (s s' : Sup) : Prop := ∃ es, sup_trace s' = es ++ sup_trace s ∧ Forall lets_go es.

Lemma releases_trans s1 s2 s3 : releases s1 s2 → releases s2 s3 → releases s1 s3.
Proof.
  intros (es1 & E1 & H1) (es2 & E2 & H2). exists (es2 ++ es1). rewrite E2, E1, app_assoc. split; [done|]. by apply Forall_app.
Qed.

Lemma releases_foldl {A} (f : Sup → A → Sup) l s : (∀ s a, releases s (f s a)) → releases s (foldl f s l).
Proof.
  intros Hf. revert s. induction l as [|a l IH]; intros s; [by exists []|]. cbn. eapply releases_trans; [apply Hf|apply IH].
Qed.

Lemma releases_drop p s : releases s (alter_pane take_handle p (drop_handle p s)).
Proof.
  unfold drop_handle. destruct (live s p) as [h|]; [exists [FDrop (h_id h)]; split; [done|by repeat constructor]|by exists []].
Qed.

Lemma releases_elem e s s' : releases s s' → e ∈ sup_trace s → e ∈ sup_trace s'.
Proof. intros (es & -> & _) He. apply elem_of_app. by right. Qed.

(** Every live handle among the panes is dropped. *)
Lemma dropped_all l s p h :
  p ∈ l → live s p = Some h → FDrop (h_id h) ∈ sup_trace (foldl (λ s pane, alter_pane take_handle pane (drop_handle pane s)) s l).
Proof.
  revert s. induction l as [|q l IH]; intros s Hin Hl; [by apply not_elem_of_nil in Hin|]. cbn [foldl].
  destruct (decide (p = q)) as [->|Hne].
  - eapply releases_elem; [apply releases_foldl; intros; apply releases_drop|]. unfold drop_handle. rewrite Hl. left.
  - apply IH; [set_solver|].
    change (sl_live (slice (alter_pane take_handle q (drop_handle q s)) p) = Some h).
    rewrite slice_take_handle, at_pane_other, slice_drop_handle by done. done.
Qed.

Lemma shutdown_releases s : releases s (shutdown s).
Proof.
  unfold shutdown. cbv zeta. eapply releases_trans; [|apply releases_foldl; intros s' q; by exists [FGeneration q (wrapping_next (current_generation s' q))]; split; [|repeat constructor]].
  set (s2 := foldl _ (upd _ s) _). apply releases_trans with s2.
  - apply releases_trans with (upd (on_launches Book.detach_all) s); [by exists []|]. apply releases_foldl. intros. apply releases_drop.
  - clearbody s2. change (releases s2 (foldl (λ s kv, emit (FDrop (h_id kv.2)) s) s2
      (filter (λ kv, kv.1 ∉ filter (λ pane, is_spawning s2 pane = true) (Attach.holding (s_attach (sup_core s2)))) (map_to_list (ab_held_exits (s_attach (sup_core s2))))))).
    apply releases_foldl. intros s' [k h]. exists [FDrop (h_id h)]. split; [done|by repeat constructor].
Qed.

Lemma advance_all_generation l s p :
  NoDup l → generation (foldl (λ s pane, advance_generation pane s) s l) p =
    if decide (p ∈ l) then Some (wrapping_next (default 0%N (generation s p))) else generation s p.
Proof.
  revert s. induction l as [|q l IH]; intros s Hnd; [by rewrite decide_False by set_solver|].
  apply NoDup_cons in Hnd as [Hq Hnd]. cbn [foldl]. rewrite IH by done. pose proof (slice_advance_generation q s p) as Hs.
  apply (f_equal sl_gen) in Hs. unfold at_pane in Hs. change (sl_gen (slice ?s ?p)) with (generation s p) in Hs. rewrite Hs.
  destruct (decide (p ∈ l)), (decide (p = q)), (decide (p ∈ q :: l)); subst; try done; set_solver.
Qed.

Lemma wrapping_next_ne g : wrapping_next g ≠ g.
Proof.
  unfold wrapping_next. intros E. assert (g < u64_max + 1)%N as Hg. { rewrite <-E. apply N.mod_lt. by unfold u64_max. }
  destruct (N.eq_dec (g + 1)%N (u64_max + 1)%N) as [E1|E1].
  - rewrite E1, N.Div0.mod_same in E. unfold u64_max in *. lia.
  - rewrite N.mod_small in E by lia. lia.
Qed.

(** A shutdown makes the generation of everything in flight stale. *)
Lemma shutdown_generation_next s p g : generation s p = Some g → generation (shutdown s) p = Some (wrapping_next g).
Proof.
  intros Hg. unfold shutdown. cbv zeta. set (s1 := upd (on_launches _) s). set (s2 := foldl _ s1 _). set (s3 := foldl _ s2 _).
  set (s4 := upd (on_attach _) s3).
  assert (generation s4 p = Some g) as Hg4.
  { change (sl_gen (slice s4 p) = Some g). unfold s4, s3. rewrite slice_on_attach, emit_drops_slice. unfold s2.
    rewrite release_panes_slice. by destruct (decide _). }
  rewrite advance_all_generation by apply NoDup_elements. rewrite Hg4, decide_True; [done|].
  apply elem_of_elements, elem_of_union_l, elem_of_dom. by eexists.
Qed.

Lemma shutdown_launches s : s_launches (sup_core (shutdown s)) = Book.detach_all (s_launches (sup_core s)).
Proof.
  unfold shutdown. cbv zeta.
  assert (∀ l s, s_launches (sup_core (foldl (λ s pane, advance_generation pane s) s l)) = s_launches (sup_core s)) as Ha.
  { intros l. induction l as [|q l IH]; intros s1; [done|]. cbn [foldl]. by rewrite IH. }
  assert (∀ (l : list (N * Handle)) s, s_launches (sup_core (foldl (λ s kv, emit (FDrop (h_id kv.2)) s) s l)) = s_launches (sup_core s)) as Hd.
  { intros l. induction l as [|q l IH]; intros s1; [done|]. cbn [foldl]. by rewrite IH. }
  assert (∀ l s, s_launches (sup_core (foldl (λ s pane, alter_pane take_handle pane (drop_handle pane s)) s l)) = s_launches (sup_core s)) as Ht.
  { intros l. induction l as [|q l IH]; intros s1; [done|]. cbn [foldl]. rewrite IH. unfold drop_handle. by destruct (live s1 q). }
  rewrite Ha. cbn. rewrite Hd, Ht. done.
Qed.

(** C33: shutting the service down lets go of every process without touching
    it: no pane keeps a live handle, every live handle is dropped, and nothing
    else is done, so no signal is sent and no holder is asked anything. *)
Theorem shutdown_lets_go s at_ :
  reachable s →
  let s' := step env nfc to_uppercase repaint_text s (at_, EShutdown) in
  (∀ p, live s' p = None) ∧
  (∃ es, sup_trace s' = es ++ sup_trace s ∧ Forall lets_go es) ∧
  (∀ p h, live s p = Some h → FDrop (h_id h) ∈ sup_trace s').
Proof.
  intros Hr. cbv zeta. unfold step. cbn [fst snd handle]. set (s0 := upd (on_now (λ _, at_)) s). split; [|split].
  - intros p. apply (shutdown_ok p s0). unfold s0. rewrite slice_on_now. by apply reachable_ok.
  - destruct (shutdown_releases s0) as (es & Ht & Hes). by exists es.
  - intros p h Hl. unfold shutdown. cbv zeta. set (s2 := foldl _ (upd _ s0) _).
    assert (FDrop (h_id h) ∈ sup_trace s2) as Hin.
    { apply dropped_all with p; [|done]. unfold live in Hl. destruct (s_panes (sup_core s) !! p) as [t|] eqn:E; [|done].
      apply list_elem_of_fmap. exists (p, t). split; [done|]. by apply elem_of_map_to_list. }
    clearbody s2. eapply releases_elem.
    { apply releases_foldl. intros s' q. by exists [FGeneration q (wrapping_next (current_generation s' q))]; split; [|repeat constructor]. }
    set (l := filter _ (map_to_list _)). change (FDrop (h_id h) ∈ sup_trace (foldl (λ s kv, emit (FDrop (h_id kv.2)) s) s2 l)).
    eapply releases_elem; [|done]. apply releases_foldl. intros s' [k h']. exists [FDrop (h_id h')]. split; [done|by repeat constructor].
Qed.

End reach.

(** ** Witnesses *)
Module Witness.
Import Config.Witness.

(** No waits, and a system that grants every call. *)
#[local] Instance no_watch : Watching :=
  {| watch := unit; watch_new := tt; watch_step := λ _ _ w, (w, []); output_position := λ _ _, 0%N; has_tap := λ _ _, false |}.
Definition granting : Env := {| answers := λ _, true; tokens := λ _, Some 1%N |}.
Definition settings : Settings :=
  {| desktop_notifications := true; default_size := {| rows := 24; cols := 80 |}%N; detach_key := lit "ctrl-\";
     log_max_size := 1048576; scrollback := 1000; color_scheme := Dark; default_autostart := false; default_restart := Never_;
     default_stop_signal := Terminate; default_stop_grace := from_secs 5; mcp_stack_edits := Allow; idle_stop := Never |}.
Definition handle_1 : Handle :=
  {| h_id := 1; h_process_id := Some 77%N; h_started_at := None; h_attached_clients := 0; h_initial_screen := None;
     h_screen_size := None; h_run_start := None; h_output_end := None; h_backlog := None;
     h_screen_served := false |}.
Definition paint (bytes : list N) (size : PtySize) : rstr := bytes.
Notation after := (step granting id id paint).

Definition fresh : Sup := new id (st_project empty_stack) [web] settings false 0.
Definition launching : Sup := after fresh (1%N, EUp ∅).
Definition running : Sup := after launching (2%N, ESpawned 0 1 (Ok handle_1)).

Lemma reachable_launching : reachable granting id id paint launching.
Proof. exact (reach_step granting id id paint fresh 1 (EUp ∅) (reach_new granting id id paint _ _ _ _ _) I). Qed.
Lemma reachable_running : reachable granting id id paint running.
Proof. exact (reach_step granting id id paint launching 2 (ESpawned 0 1 (Ok handle_1)) reachable_launching I). Qed.


Lemma live_run_kept_witness : live (after running (3%N, EForceKill (lit "web"))) 0 = Some handle_1.
Proof.
  assert (live running 0 = Some handle_1) as Hl by (by vm_compute).
  exact (proj1 (live_run_kept granting id id paint running 0 handle_1 3 (EForceKill (lit "web")) reachable_running I Hl (λ x, x))).
Defined.

Lemma shutdown_lets_go_witness : FDrop 1 ∈ sup_trace (after running (3%N, EShutdown)).
Proof.
  destruct (shutdown_lets_go granting id id paint running 3 reachable_running) as (_ & _ & Hd). apply (Hd 0%N handle_1). by vm_compute.
Defined.

End Witness.
