(* ===== verification/WaitsDue.v ===== *)
(** * Nothing is left overdue

    What [settle_waits] of Waits.v leaves: once the deadlines of an instant
    are settled, every deadline still kept is after it, so the service sleeps
    until a later instant and no wait is passed over. *)
From S2P Require Import Prelude RustText RustPath Values Process Config StackSync EventLog Books Tap WaitData SupState Lifecycle Waits WaitsOnce SupInv SupLocal SupOk SupSafe.

(** ** Rechecks of a tap *)
Section rechecks.
Context `{LineRenderer}.

Lemma keep_finished_recheck t : ot_recheck (keep_finished t).2 = ot_recheck t.
Proof.
  unfold keep_finished. destruct (placed_take_lines _) as [texts rd]. cbn [snd].
  change (ot_recheck t) with (ot_recheck (tap_renderer (λ _, rd) t)). generalize (tap_renderer (λ _, rd) t).
  induction (_ <$> texts) as [|line l IH]; intros u; [done|]. cbn [foldl]. rewrite IH. unfold keep_line. by destruct (trim_ring _ _).
Qed.

Lemma feed_recheck at_ bytes t : ot_recheck (feed at_ bytes t).2 = ot_recheck t.
Proof.
  unfold feed. cbv zeta. set (placed := match at_ with Some _ => _ | None => _ end).
  assert (ot_recheck placed.2 = ot_recheck t) as <-.
  { unfold placed. destruct at_ as [a|]; [|done]. destruct (_ <? a)%N; [cbn; by rewrite keep_finished_recheck|]. by destruct (_ <? _)%N. }
  destruct placed as [rest u]. cbn [snd]. generalize (@nil TapLine). revert u.
  induction (split_inclusive rest) as [|piece l IH]; intros u acc; [done|]. cbn [foldl feed_piece].
  rewrite (surjective_pairing (keep_finished _)). cbv beta iota zeta. rewrite IH. destruct (_ || _); cbn; by rewrite keep_finished_recheck.
Qed.

Lemma seed_at_recheck at_ bytes t : ot_recheck (seed_at at_ bytes t) = ot_recheck t.
Proof.
  unfold seed_at. cbn [tap_placed tap_logged_run_start ot_recheck]. rewrite feed_recheck. destruct (_ <=? _)%N; [|done]. cbn. by rewrite keep_finished_recheck.
Qed.

Lemma reports_recheck t : ot_recheck (take_read_fault_report (take_fault_report t).2).2 = ot_recheck t.
Proof.
  unfold take_fault_report. destruct (placed_take_faults _) as [n rd]. destruct (Faults.take_report _) as [report b]. cbn [snd].
  unfold take_read_fault_report. by destruct (Faults.take_report _).
Qed.
End rechecks.

Lemma tally_true {A} (l : list A) : tally (λ _, true) l = length l.
Proof. induction l as [|x l IH]; cbn; [done|]. by rewrite IH. Qed.

Section due.
Context `{LineRenderer} (compile_error : LogPattern → option rstr) (is_match : LogPattern → rstr → bool)
  (show_duration : duration → rstr) (replay_matching : N → list LogPattern → option N).
Context (c : Core) (starting_rows : ∀ p, starting c p = true → is_some (row c p) = true).

Notation now := (s_now c).

(** ** What answering keeps *)

(** Held waits and answers all fall due later. *)
Definition later_held (m : gmap N (list HeldWait)) : Prop := ∀ p l, m !! p = Some l → Forall (λ h, (now < hw_deadline h)%N) l.
Definition later_answers (l : list HeldAnswer) : Prop := Forall (λ h, (now < ha_deadline h)%N) l.

(** Falling due later, kept. *)
Definition later (w w' : Waits) : Prop :=
  (later_held (w_held w) → later_held (w_held w')) ∧ (later_answers (w_answers w) → later_answers (w_answers w')).

Lemma later_at p m : later_held m → Forall (λ h, (now < hw_deadline h)%N) (default [] (m !! p)).
Proof. intros Hl. destruct (m !! p) eqn:E; [by apply (Hl p)|constructor]. Qed.

(** No tap has a recheck it had not. *)
Definition calm (w w' : Waits) : Prop :=
  ∀ p t, w_taps w' !! p = Some t → ot_recheck t = None ∨ ∃ u, w_taps w !! p = Some u ∧ ot_recheck u = ot_recheck t.

#[local] Instance calm_order : PreOrder calm.
Proof.
  split; [intros w p t Ht; right; by exists t|]. intros w1 w2 w3 H1 H2 p t Ht. destruct (H2 p t Ht) as [E|(u & Hu & E)]; [by left|].
  destruct (H1 p u Hu) as [E'|(v & Hv & E')]; [left; congruence|]. right. exists v. split; [done|congruence].
Qed.

(** From one state to another: waits are registered behind those there, at
    most [k] new waits come for [j] that go, and the rest stands. *)
Definition grows (j k : nat) (w w' : Waits) : Prop :=
  tidy w →
  tidy w' ∧ w_readiness w' = w_readiness w ∧ (∃ new, w_waiters w' = w_waiters w ++ new) ∧
  population w' + j ≤ population w + k ∧ later w w' ∧ calm w w'.

Lemma grows_trans j1 k1 j2 k2 w1 w2 w3 : grows j1 k1 w1 w2 → grows j2 k2 w2 w3 → grows (j1 + j2) (k1 + k2) w1 w3.
Proof.
  intros H1 H2 Ht. destruct (H1 Ht) as (Ht2 & Er2 & (n2 & En2) & Hp2 & Hl2 & Hc2).
  destruct (H2 Ht2) as (Ht3 & Er3 & (n3 & En3) & Hp3 & Hl3 & Hc3). split_and!; [done|congruence| |lia|split; firstorder|by transitivity w2].
  exists (n2 ++ n3). by rewrite En3, En2, app_assoc.
Qed.

Lemma grows_same j k w1 w2 w3 : grows 0 0 w1 w2 → grows j k w2 w3 → grows j k w1 w3.
Proof. apply (grows_trans 0 0 j k). Qed.

Lemma grows_weaken j k j' k' w w' : j' + k ≤ j + k' → grows j k w w' → grows j' k' w w'.
Proof. intros Hjk Hg Ht. destruct (Hg Ht) as (? & ? & ? & ? & ? & ?). split_and!; [done..|lia|done|done]. Qed.

(** A change of nothing counted here. *)
Lemma grows_refl w w' :
  w_readiness w' = w_readiness w → w_waiters w' = w_waiters w → w_held w' = w_held w → w_answers w' = w_answers w → w_taps w' = w_taps w →
  w_next_read w' = w_next_read w → (tidy w → tidy w') → grows 0 0 w w'.
Proof.
  intros E1 E2 E3 E4 E5 E6 Hn Ht. split_and!; [by apply Hn|done|exists []; by rewrite app_nil_r| | |].
  - unfold population, held_count. by rewrite E2, E3.
  - unfold later. by rewrite E3, E4.
  - intros p t Hp. right. exists t. by rewrite <-E5.
Qed.

Lemma grows_intro j k w w' : (tidy w → grows j k w w') → grows j k w w'.
Proof. intros Hg Ht. by apply Hg. Qed.

Lemma foldl_grows {A} (f : Waits → A → Waits) (k : nat) l w :
  (∀ w a, a ∈ l → grows 0 k w (f w a)) → grows 0 (length l * k) w (foldl f w l).
Proof.
  revert w. induction l as [|a l IH]; intros w Hf; [by apply grows_refl|]. cbn [length foldl]. apply (grows_trans 0 k 0 (length l * k) w (f w a)).
  - apply Hf. by left.
  - apply IH. intros w' b Hb. apply Hf. by right.
Qed.

Lemma send_grows e w : grows 0 0 w (send e w).
Proof. by apply grows_refl. Qed.

Lemma deliver_grows o x w : grows 0 0 w (deliver o x w).
Proof.
  apply grows_refl; [..|apply deliver_tidy].
  all: destruct x as [y|group slot]; cbn [deliver]; [done|]; destruct (w_groups w !! group); [|done];
       unfold fill; cbv beta iota zeta; by destruct (existsb _ _).
Qed.

Lemma on_tap_grows f p w : (∀ t, ot_recheck (f t) = ot_recheck t) → grows 0 0 w (on_tap f p w).
Proof.
  intros Hf Ht. split_and!; [by apply (tidy_same w)|done|exists []; by rewrite app_nil_r|done|done|].
  intros q t. unfold on_tap. cbn. destruct (decide (p = q)) as [<-|Hne]; [|rewrite lookup_insert_ne by done; right; by exists t].
  rewrite lookup_insert_eq. intros [= <-]. rewrite Hf. unfold tap_of. destruct (w_taps w !! p) as [u|] eqn:E; cbn; [right; by exists u|by left].
Qed.

Lemma report_render_faults_grows p n w : grows 0 0 w (report_render_faults c p n w).
Proof.
  unfold report_render_faults. set (w1 := if (0 <? n)%N then _ else w).
  assert (grows 0 0 w w1) as H1. { unfold w1. destruct (0 <? n)%N; [by apply on_tap_grows|by apply grows_refl]. }
  clearbody w1. eapply grows_same; [exact H1|]. destruct (w_taps w1 !! p) as [t|] eqn:E; [|by apply grows_refl].
  pose proof (reports_recheck t) as Er.
  rewrite (surjective_pairing (take_fault_report t)). cbv beta iota. rewrite (surjective_pairing (take_read_fault_report _)). cbv beta iota zeta.
  set (u := (take_read_fault_report _).2) in *. eapply grows_same; [|eapply grows_weaken; [|apply (foldl_grows _ 0); intros; apply send_grows]; lia].
  replace (w_on_taps (<[p := u]>) w1) with (on_tap (λ t, tap_recheck (λ _, ot_recheck t) u) p w1).
  - by apply on_tap_grows.
  - unfold on_tap, tap_of. rewrite E. cbn. rewrite <-Er. by destruct u.
Qed.

(** Held waits taken out of a pane. *)
Lemma extract_held_grows f p w : grows (length (extract_held f p w).1) 0 w (extract_held f p w).2.
Proof.
  intros Ht. pose proof (extract_held_tidy f p w Ht) as Ht'. revert Ht'. unfold extract_held. destruct (w_held w !! p) as [l|] eqn:E; cbn [fst snd].
  2: { intros _. split_and!; [done|done|exists []; by rewrite app_nil_r|cbn; lia|done|done]. }
  intros Ht'. split_and!; [done|done|exists []; by rewrite app_nil_r| | |].
  - pose proof (tally_split (λ _, true) f l) as Hs. rewrite !tally_true in Hs. unfold population, held_count.
    change (map_fold _ 0 (w_held w)) with (mtally length (w_held w)). cbn.
    destruct (bool_decide_reflect (filter (λ h, f h = false) l = [])) as [Er|Er].
    + pose proof (mtally_delete length p (w_held w)) as Hd. rewrite E in Hd. rewrite Er in Hs. cbn in Hd, Hs. unfold mtally in *. lia.
    + pose proof (mtally_insert length p (filter (λ h, f h = false) l) (w_held w)) as Hd. rewrite E in Hd. cbn in Hd. unfold mtally in *. lia.
  - split; [|done]. intros Hl. cbn. intros q k Hk.
    destruct (bool_decide (filter (λ h, f h = false) l = [])).
    + apply lookup_delete_Some in Hk as [_ Hk]. by apply (Hl q).
    + apply lookup_insert_Some in Hk as [[-> <-]|[_ Hk]]; [|by apply (Hl q)]. apply Forall_filter. by apply (Hl q).
  - intros q t Hq. right. by exists t.
Qed.

Lemma push_held_grows p after q scan w : grows 0 1 w (push_held c p after q scan None w).
Proof.
  intros Ht. split_and!; [by apply push_held_tidy|done|exists []; by rewrite app_nil_r| | |].
  - unfold population, held_count, push_held. cbn. set (h := {| hw_prepared := p |}).
    pose proof (mtally_insert length (pw_pane p) (default [] (w_held w !! pw_pane p) ++ [h]) (w_held w)) as Hi.
    rewrite length_app in Hi. unfold mtally in Hi. cbn [length] in Hi. destruct (w_held w !! pw_pane p); cbn in Hi |- *; lia.
  - split; [|done]. intros Hl. unfold push_held. cbn. intros k l [[-> <-]|[_ Hk]]%lookup_insert_Some; [|by apply (Hl k)].
    apply Forall_app. split; [by apply later_at|].
    constructor; [|done]. cbn. unfold LOG_TAIL_TIMEOUT, from_secs. lia.
  - intros k t Hk. right. by exists t.
Qed.

Section reading.
Context (rl : N → Waits → Waits) (rl_grows : ∀ p w, grows 0 0 w (rl p w)).

Lemma rl_tidy p w : tidy w → tidy (rl p w).
Proof. intros Ht. by destruct (rl_grows p w Ht). Qed.

Lemma answer_with_tail_grows x st m cu tail w : grows 0 0 w (answer_with_tail c rl x st m cu tail w).
Proof.
  unfold answer_with_tail. cbv zeta. destruct (if bool_decide _ then _ else _) as [[from until]|]; [|apply deliver_grows].
  unfold hold_answer. eapply grows_same; [|apply rl_grows]. intros Ht.
  split_and!; [by apply (tidy_same w)|done|exists []; by rewrite app_nil_r|done| |intros k t Hk; right; by exists t].
  split; [done|]. intros Ha. apply Forall_app. split; [done|]. constructor; [|done]. cbn. unfold LOG_TAIL_TIMEOUT, from_secs. lia.
Qed.

Lemma register_held_grows p after x scan w : grows 0 1 w (register_held is_match c rl p after x scan w).
Proof.
  unfold register_held. cbv zeta.
  set (found := match (match pw_since p with Some _ => _ | None => _ end) with Some _ => _ | None => _ end).
  assert (grows 0 0 w found.2) as Hf.
  { unfold found. destruct (match pw_since p with Some _ => _ | None => _ end) as [since|]; [|by apply grows_refl].
    destruct (pw_matcher p); [|by apply grows_refl]. destruct (is_fresh _); [by apply grows_refl|].
    destruct (scan ≫= _) as [[tapped f]|]; cbn; [destruct (ls_matched f); cbn|]; first [by apply grows_refl|by apply on_tap_grows]. }
  destruct found as [[matched scanned] w1]. cbn [snd] in Hf. eapply grows_same; [exact Hf|].
  destruct (match matched with Some _ => _ | None => _ end) as [[st m]|]; [eapply grows_weaken; [|apply answer_with_tail_grows]; lia|].
  set (w2 := match probe_of _ with Some _ => _ | None => _ end).
  assert (grows 0 0 w1 w2) as H2.
  { unfold w2. destruct (probe_of _); [|by apply grows_refl]. destruct (_ && _); [apply send_grows|by apply grows_refl]. }
  clearbody w2. eapply grows_same; [exact H2|]. intros Ht.
  split_and!; [by apply (tidy_same w2)|done|eexists; done| |done|intros k t Hk; right; by exists t].
  unfold population, held_count. cbn. rewrite length_app. cbn. lia.
Qed.

Lemma hold_wait_grows p after q scan w : grows 0 1 w (hold_wait c rl p after q scan w).
Proof. apply (grows_trans 0 1 0 0 _ (push_held c p after q scan None w)); [apply push_held_grows|apply rl_grows]. Qed.

Lemma register_or_scan_grows p after q w :
  starting c (pw_pane p) = false → grows 0 1 w (register_or_scan is_match c rl p after q w).
Proof.
  intros Hs. unfold register_or_scan, adoption_hold. rewrite Hs, andb_false_r. cbn [andb].
  destruct (scan_for _ _ _ _); [apply hold_wait_grows|apply register_held_grows].
Qed.

Lemma begin_wait_grows p after q w : starting c (pw_pane p) = false → grows 0 1 w (begin_wait is_match c rl p after q w).
Proof. intros Hs. unfold begin_wait. destruct (knows_no_output _ _ _); [apply hold_wait_grows|by apply register_or_scan_grows]. Qed.

Lemma begin_after_end_grows w h : starting c (pw_pane (hw_prepared h)) = false → grows 0 1 w (begin_after_end is_match c rl w h).
Proof.
  intros Hs. unfold begin_after_end. destruct (_ ≫= _) as [[since end_]|]; [eapply grows_weaken; [|apply send_grows]; lia|by apply register_or_scan_grows].
Qed.

Lemma extract_held_panes f p w h : tidy w → h ∈ (extract_held f p w).1 → pw_pane (hw_prepared h) = p.
Proof.
  intros [_ Hk]. unfold extract_held. destruct (w_held w !! p) as [l|] eqn:E; cbn [fst]; [|by intros ?%elem_of_nil].
  intros [_ Hh]%list_elem_of_filter. pose proof (Hk p l E) as Hl. rewrite Forall_forall in Hl. by destruct (Hl h Hh).
Qed.

Lemma register_scanned_waits_grows pane id answers w : grows 0 0 w (register_scanned_waits is_match c rl pane id answers w).
Proof.
  unfold register_scanned_waits. rewrite (surjective_pairing (extract_held _ pane w)). cbv beta iota.
  set (f := λ h : HeldWait, is_some (hw_scan h) && _).
  eapply grows_weaken; [|eapply grows_trans; [apply (extract_held_grows f pane w)|apply (foldl_grows _ 1); intros; apply register_held_grows]]. lia.
Qed.

Lemma answer_held_waits_grows pane tail w : starting c pane = false → grows 0 0 w (answer_held_waits is_match c rl pane tail w).
Proof.
  intros Hs. apply grows_intro. intros Ht. unfold answer_held_waits.
  set (f := λ h : HeldWait, negb (is_some (hw_scan h)) && _).
  pose proof (extract_held_grows f pane w) as He. pose proof (λ h, extract_held_panes f pane w h Ht) as Hp.
  destruct (extract_held f pane w) as [held w1]. cbn [fst snd] in He, Hp. cbv zeta.
  set (late := filter (λ h, is_some (hw_timed_out h) = true) held).
  assert (∀ h, h ∈ filter (λ h, is_some (hw_timed_out h) = false) held → starting c (pw_pane (hw_prepared h)) = false) as Hr.
  { intros h [_ Hh]%list_elem_of_filter. by rewrite Hp. }
  pose proof (length_filter (λ h, is_some (hw_timed_out h) = false) held) as Hle.
  set (rest := filter (λ h, is_some (hw_timed_out h) = false) held) in *. clearbody rest.
  set (w2 := match late with [] => w1 | _ => _ end).
  assert (grows 0 0 w1 w2) as H2.
  { unfold w2. clearbody late. destruct late as [|h late]; [by apply grows_refl|]. destruct (match tail with Some _ => _ | None => _ end) as [ll dr].
    eapply grows_same; [apply report_render_faults_grows|]. eapply grows_weaken; [|apply (foldl_grows _ 0); intros; apply answer_with_tail_grows]. lia. }
  clearbody w2. apply (grows_weaken (length held + 0) (0 + length rest)); [lia|]. apply (grows_trans _ _ _ _ _ w1); [exact He|].
  eapply grows_same; [exact H2|]. destruct rest as [|h rest]; [by apply grows_refl|].
  set (w3 := if knows_no_output c w2 pane then _ else w2). assert (grows 0 0 w2 w3) as H3.
  { unfold w3. destruct (knows_no_output _ _ _); [|by apply grows_refl]. eapply grows_same; [|apply report_render_faults_grows].
    apply on_tap_grows. intros t. destruct tail; apply seed_at_recheck. }
  clearbody w3. eapply grows_same; [exact H3|].
  eapply grows_weaken; [|apply (foldl_grows _ 1); intros; by apply begin_after_end_grows, Hr]. lia.
Qed.

Lemma send_held_answers_grows id answers w : grows 0 0 w (send_held_answers id answers w).
Proof.
  unfold send_held_answers, extract_answers. cbv beta iota. eapply grows_same; [|eapply grows_weaken; [|apply (foldl_grows _ 0); intros; apply deliver_grows]; lia].
  intros Ht. split_and!; [by apply (tidy_same w)|done|exists []; by rewrite app_nil_r|done| |intros k t Hk; right; by exists t].
  split; [done|]. intros Ha. by apply Forall_filter.
Qed.

Lemma handle_log_read_grows pane id result w : starting c pane = false → grows 0 0 w (handle_log_read is_match c rl pane id result w).
Proof.
  intros Hs. unfold handle_log_read. cbv zeta. eapply grows_same; [apply (send_held_answers_grows id (lr_answers result))|].
  generalize (send_held_answers id (lr_answers result) w). intros w1. destruct (w_reads w1 !! pane) as [p|]; [|by apply grows_refl].
  destruct (_ =? _)%N; [|by apply grows_refl]. eapply grows_same; [|apply rl_grows].
  set (w2 := report_render_faults c pane _ w1). assert (grows 0 0 w1 w2) as H1 by apply report_render_faults_grows. clearbody w2.
  eapply grows_same; [exact H1|].
  assert (grows 0 0 w2 (if pd_end p then answer_held_waits is_match c rl pane (lr_tail result) w2 else w2)) as H2.
  { destruct (pd_end p); [by apply answer_held_waits_grows|by apply grows_refl]. }
  eapply grows_same; [exact H2|]. eapply grows_same; [apply (register_scanned_waits_grows pane id (lr_answers result))|].
  by apply grows_refl.
Qed.

Lemma asked_deadline id h : hw_deadline (ask_of id h).2 = hw_deadline h.
Proof.
  unfold ask_of. destruct (is_some (hw_adopting h)); [done|]. destruct (hw_scan h) as [scan|]; [|done].
  destruct (is_some (hw_read h)); [done|]. by destruct (scan_ask _ _).
Qed.

(** Marking what a read asks for. *)
Lemma marked_later pane w :
  later w (w_on_answers (fmap (λ h, if asks_lines pane h then mark_read (w_next_read w) h else h))
    (w_on_held (alter (λ _ : list HeldWait, (ask_of (w_next_read w) <$> default [] (w_held w !! pane)).*2) pane) w)).
Proof.
  split; cbn.
  - intros Hl q l. destruct (decide (pane = q)) as [->|Hne]; [|rewrite lookup_alter_ne by done; apply Hl]. rewrite lookup_alter_eq.
    destruct (w_held w !! q) as [k|] eqn:E; [|done]. intros [= <-]. cbn. rewrite <-list_fmap_compose. apply Forall_fmap.
    eapply Forall_impl; [exact (Hl q k E)|]. intros h Hh. unfold compose. cbn beta. by rewrite asked_deadline.
  - intros Ha. apply Forall_fmap. eapply Forall_impl; [exact Ha|]. intros h Hh. cbn. by destruct (asks_lines pane h).
Qed.

Lemma marked_population pane w :
  population (w_on_held (alter (λ _ : list HeldWait, (ask_of (w_next_read w) <$> default [] (w_held w !! pane)).*2) pane) w) = population w.
Proof.
  unfold population, held_count. cbn. f_equal. change (mtally length (alter (λ _ : list HeldWait, (ask_of (w_next_read w) <$> default [] (w_held w !! pane)).*2) pane (w_held w)) = mtally length (w_held w)).
  destruct (w_held w !! pane) as [l|] eqn:E; [|by rewrite alter_id by (intros ?; congruence)]. cbn [default from_option].
  rewrite <-(insert_id (w_held w) pane l E) at 1. rewrite alter_insert_eq.
  pose proof (mtally_insert length pane ((ask_of (w_next_read w) <$> Datatypes.id l).*2) (w_held w)) as Hi. rewrite E in Hi.
  cbn [from_option] in Hi. rewrite !length_fmap in Hi. unfold Datatypes.id in *. lia.
Qed.

Lemma start_read_grows pane w : grows 0 0 w (start_read is_match c rl pane w).
Proof.
  unfold start_read. destruct (is_some _); [by apply grows_refl|]. cbv zeta.
  set (w1 := w_on_answers _ _). set (ends := existsb _ _). set (none := bool_decide _).
  assert (population w1 = population w) as Ep by apply (marked_population pane w).
  assert (later w w1) as El by apply marked_later.
  assert (∀ w', w_held w' = w_held w1 → w_answers w' = w_answers w1 → w_taps w' = w_taps w → w_waiters w' = w_waiters w →
    w_readiness w' = w_readiness w → (tidy w → tidy w') → grows 0 0 w w') as Hg.
  { intros w' E1 E2 E3 E4 E5 E6 Ht. split_and!; [auto|done|exists []; by rewrite app_nil_r| | |intros k t Hk; right; exists t; by rewrite <-E3].
    - unfold population, held_count in *. rewrite E1, E4. change (w_waiters w1) with (w_waiters w) in Ep. lia.
    - unfold later. rewrite E1, E2. apply El. }
  destruct (negb ends && none) eqn:E.
  - apply Hg; try done. intros Ht. apply (tidy_same _ w1 eq_refl eq_refl eq_refl eq_refl (silent_tidy pane w _ E Ht)).
  - set (w2 := w_on_reads _ _). assert (grows 0 0 w w2) as H2.
    { apply Hg; try done. intros Ht. apply (tidy_same _ w2 eq_refl eq_refl eq_refl eq_refl (asked_tidy pane w Ht)). }
    clearbody w2. eapply grows_same; [exact H2|]. destruct (row c pane) eqn:Er; [apply send_grows|]. apply handle_log_read_grows.
    destruct (starting c pane) eqn:Es; [|done]. pose proof (starting_rows pane Es) as Hr. by rewrite Er in Hr.
Qed.
End reading.

Notation read := (read_now is_match c).

Lemma read_grows p w : grows 0 0 w (read p w).
Proof.
  unfold read_now. generalize READ_DEPTH. intros fuel. revert p w. induction fuel as [|fuel IH]; intros p w; cbn [read_log]; [by apply grows_refl|].
  by apply start_read_grows.
Qed.

(** ** Settling *)

(** The same without the waits registered. *)
Definition stays (w w' : Waits) : Prop := tidy w → tidy w' ∧ w_readiness w' = w_readiness w ∧ later w w' ∧ calm w w'.

#[local] Instance stays_order : PreOrder stays.
Proof.
  split; [intros w Ht; split_and!; done|]. intros w1 w2 w3 H1 H2 Ht. destruct (H1 Ht) as (Ht2 & Er2 & [Hl2 Ha2] & Hc2).
  destruct (H2 Ht2) as (Ht3 & Er3 & [Hl3 Ha3] & Hc3). split_and!; [done|congruence|split; auto|by transitivity w2].
Qed.

Lemma grows_stays j k w w' : grows j k w w' → stays w w'.
Proof. intros Hg Ht. by destruct (Hg Ht) as (? & ? & _ & _ & ? & ?). Qed.

Lemma on_waiters_stays f w : stays w (w_on_waiters f w).
Proof. intros Ht. split_and!; [by apply (tidy_same w)|done|done|intros p t Hp; right; by exists t]. Qed.

Lemma answer_grows x st m w : grows 0 0 w (answer c read x st m w).
Proof. apply answer_with_tail_grows, read_grows. Qed.

Section settling.
Context (settled : Waits → Waiter → option (WaitStatus * option MatchedLine)).

Lemma settle_each_stays fuel index w : stays w (settle_each c read settled fuel index w).
Proof.
  revert index w. induction fuel as [|fuel IH]; intros index w; cbn [settle_each]; [done|].
  destruct (w_waiters w !! index) as [x|]; [|done]. destruct (settled w x) as [[st m]|]; [|apply IH].
  etrans; [apply (on_waiters_stays (delete index))|]. etrans; [eapply grows_stays, answer_grows|apply IH].
Qed.

Context (settled_readiness : ∀ w w' x, w_readiness w' = w_readiness w → settled w' x = settled w x).

(** With fuel for every wait there is or may come, the loop ends with none it
    would settle. *)
Lemma settle_each_done fuel index w :
  tidy w → population w ≤ fuel + index → index ≤ length (w_waiters w) →
  Forall (λ x, settled w x = None) (take index (w_waiters w)) →
  let w' := settle_each c read settled fuel index w in Forall (λ x, settled w' x = None) (w_waiters w').
Proof.
  revert index w. induction fuel as [|fuel IH]; intros index w Ht Hp Hi Hf; cbn [settle_each].
  { rewrite take_ge in Hf; [done|]. unfold population in Hp. lia. }
  destruct (w_waiters w !! index) as [x|] eqn:Ex; [|rewrite take_ge in Hf; [done|by apply lookup_ge_None]].
  pose proof (lookup_lt_Some _ _ _ Ex) as Hlt. destruct (settled w x) as [[st m]|] eqn:Es.
  - set (w0 := w_on_waiters (delete index) w). destruct (answer_grows x st m w0) as (Ht1 & Er & (new & En) & Hq & _ & _).
    { by apply (tidy_same w). }
    set (w1 := answer c read x st m w0) in *. clearbody w1. cbn in En. rewrite delete_take_drop in En.
    assert (take index (w_waiters w1) = take index (w_waiters w)) as Etk.
    { rewrite En, <-app_assoc. rewrite take_app_le by (rewrite length_take; lia). apply take_idemp. }
    assert (index ≤ length (w_waiters w1)) as Hle. { rewrite En, !length_app, length_take. lia. }
    apply IH; [done| |done|].
    + unfold population, w0, held_count in *. cbn in Hq. pose proof (length_delete _ _ (mk_is_Some _ _ Ex)) as Hd. lia.
    + rewrite Etk. eapply Forall_impl; [exact Hf|]. intros y Hy. by rewrite (settled_readiness w w1 y Er).
  - apply IH; [done|lia|lia|]. rewrite (take_S_r _ _ _ Ex). apply Forall_app. split; [done|by constructor].
Qed.

Lemma settle_all_done w : tidy w → let w' := settle_all c read settled w in Forall (λ x, settled w' x = None) (w_waiters w').
Proof. intros Ht. apply settle_each_done; [done|lia|lia|constructor]. Qed.
End settling.

Lemma settle_all_stays settled w : stays w (settle_all c read settled w).
Proof. apply settle_each_stays. Qed.

(** ** Rechecks *)
Definition quiets (w w' : Waits) : Prop := tidy w → tidy w' ∧ calm w w'.

#[local] Instance quiets_order : PreOrder quiets.
Proof.
  split; [by intros w|]. intros w1 w2 w3 H1 H2 Ht. destruct (H1 Ht) as (Ht2 & Hc2). destruct (H2 Ht2) as (Ht3 & Hc3).
  split; [done|by transitivity w2].
Qed.

Lemma stays_quiets w w' : stays w w' → quiets w w'.
Proof. intros Hs Ht. by destruct (Hs Ht) as (? & _ & _ & ?). Qed.

Lemma same_quiets w w' : (tidy w → tidy w') → w_taps w' = w_taps w → quiets w w'.
Proof. intros Hn E Ht. split; [auto|]. intros p t Hp. right. exists t. by rewrite <-E. Qed.

Lemma test_lines_quiets p lines w : quiets w (test_lines is_match show_duration c p lines w).
Proof.
  unfold test_lines. destruct lines as [|line lines]; [done|]. cbv zeta.
  etrans; [|apply stays_quiets, settle_all_stays]. destruct (match w_readiness w !! p with Some _ => _ | None => _ end); [|done].
  unfold pass_readiness. destruct (w_readiness w !! p); [|done]. by apply same_quiets.
Qed.

(** The rechecks that are due are those of the panes listed. *)
Definition due_among (l : list N) (w : Waits) : Prop :=
  ∀ p t at_, w_taps w !! p = Some t → ot_recheck t = Some at_ → (at_ ≤ now)%N → p ∈ l.

Lemma calm_due l w w' : calm w w' → due_among l w → due_among l w'.
Proof.
  intros Hc Hd p t at_ Hp Hr Ha. destruct (Hc p t Hp) as [E|(u & Hu & E)]; [congruence|]. apply (Hd p u at_ Hu); [congruence|done].
Qed.

Lemma test_due_partial_due q l w :
  tidy w → due_among (q :: l) w → tidy (test_due_partial is_match show_duration c w q) ∧ due_among l (test_due_partial is_match show_duration c w q).
Proof.
  intros Ht Hd. unfold test_due_partial. destruct (unfinished_due now (tap_of w q)) as [line t] eqn:Eu. cbv zeta.
  set (w1 := w_on_taps (<[q := t]>) w). assert (tidy w1) as Ht1 by by apply (tidy_same w).
  assert (due_among l w1) as Hd1.
  { intros p u at_ Hp Hr Ha. cbn in Hp. apply lookup_insert_Some in Hp as [[<- <-]|[Hne Hp]].
    - exfalso. unfold unfinished_due in Eu. destruct (ot_recheck (tap_of w q)) as [due|] eqn:Er; [|by injection Eu as _ <-; congruence].
      destruct (N.ltb_spec now due); injection Eu as _ <-; [rewrite Hr in Er; injection Er as ->; lia|done].
    - specialize (Hd p u at_ Hp Hr Ha). by apply elem_of_cons in Hd as [->|Hd]. }
  clearbody w1. destruct (awaits_a_pattern _ _ _); [|done].
  destruct (test_lines_quiets q (match line with Some line => [line] | None => [] end) w1 Ht1) as [Ht2 Hc]. split; [done|]. by eapply calm_due.
Qed.

Lemma test_due_partials_due w :
  tidy w → tidy (test_due_partials is_match show_duration c w) ∧ due_among [] (test_due_partials is_match show_duration c w).
Proof.
  intros Ht. unfold test_due_partials. set (l := (filter _ (map_to_list (w_taps w))).*1).
  assert (due_among l w) as Hd.
  { intros p t at_ Hp Hr Ha. apply list_elem_of_fmap. exists (p, t). split; [done|]. apply list_elem_of_filter.
    split; [|by apply elem_of_map_to_list]. cbn. rewrite Hr. by apply N.leb_le. }
  clearbody l. revert w Ht Hd. induction l as [|q l IH]; intros w Ht Hd; [done|]. cbn [foldl].
  destruct (test_due_partial_due q l w Ht Hd) as [Ht1 Hd1]. by apply IH.
Qed.

(** ** Held waits *)
Lemma extract_all_taken f w h : tidy w → h ∈ (extract_all f w).1 → f (pw_pane (hw_prepared h)) h = true.
Proof.
  intros [_ Hk] Hh. unfold extract_all in Hh. cbn [fst] in Hh. apply list_elem_of_In, in_concat in Hh as (l & Hh & Hl). apply list_elem_of_In in Hl, Hh.
  apply list_elem_of_fmap in Hh as ([p k] & -> & Hp). apply list_elem_of_filter in Hl as [Hf Hl]. apply elem_of_map_to_list in Hp. cbn in *.
  pose proof (Hk p k Hp) as Hall. rewrite Forall_forall in Hall. by destruct (Hall h Hl) as [-> _].
Qed.

Lemma extract_all_quiets f w : quiets w (extract_all f w).2.
Proof. apply same_quiets; [apply extract_all_tidy|done]. Qed.

Lemma foldl_quiets {A} (f : Waits → A → Waits) l w : (∀ w a, a ∈ l → quiets w (f w a)) → quiets w (foldl f w l).
Proof.
  revert w. induction l as [|a l IH]; intros w Hf; [done|]. cbn [foldl]. etrans; [apply Hf; by left|]. apply IH. intros. apply Hf. by right.
Qed.

Lemma foldl_stays {A} (f : Waits → A → Waits) l w : (∀ w a, a ∈ l → stays w (f w a)) → stays w (foldl f w l).
Proof.
  revert w. induction l as [|a l IH]; intros w Hf; [done|]. cbn [foldl]. etrans; [apply Hf; by left|]. apply IH. intros. apply Hf. by right.
Qed.

Lemma release_adoption_waits_quiets w : quiets w (release_adoption_waits is_match c w).
Proof.
  intros Ht. revert Ht. unfold release_adoption_waits. set (f := λ p (h : HeldWait), negb (starting c p) && _). intros Ht.
  pose proof (λ h, extract_all_taken f w h Ht) as Hp. pose proof (extract_all_quiets f w) as Hq.
  destruct (extract_all f w) as [released w1]. cbn [fst snd] in Hp, Hq. revert Ht. change (quiets w (foldl (λ w h, begin_wait is_match c read (hw_prepared h) (hw_after h) (hw_reply h) w) w1 released)). etrans; [exact Hq|].
  apply foldl_quiets. intros w2 h Hh. eapply stays_quiets, grows_stays, begin_wait_grows; [apply read_grows|].
  specialize (Hp h Hh). unfold f in Hp. apply andb_prop in Hp as [Hs _]. by apply negb_true_iff.
Qed.

Lemma hold_timed_out_stays h since w : stays w (hold_timed_out is_match c h since w).
Proof.
  unfold hold_timed_out. etrans; [|eapply grows_stays, read_grows]. intros Ht.
  split_and!; [|done| |intros p t Hp; right; by exists t].
  - apply tidy_on_held; [|done]. by apply keyed_push.
  - split; [|done]. intros Hl q l. cbn. intros [[<- <-]|[_ Hq]]%lookup_insert_Some; [|by apply (Hl q)]. apply Forall_app.
    split; [by apply later_at|]. constructor; [|done]. cbn. unfold LOG_TAIL_TIMEOUT, from_secs. lia.
Qed.

Lemma settle_overdue_stays w h : stays w (settle_overdue is_match show_duration c w h).
Proof.
  unfold settle_overdue. cbv zeta. destruct (hw_adopting h) as [since|].
  - destruct (is_some _); [eapply grows_stays, answer_with_tail_grows, read_grows|apply hold_timed_out_stays].
  - destruct (hw_timed_out h); [eapply grows_stays, answer_with_tail_grows, read_grows|eapply grows_stays, send_grows].
Qed.

Lemma settle_overdue_held_waits_later w :
  quiets w (settle_overdue_held_waits is_match show_duration c w) ∧
  (tidy w → later_held (w_held (settle_overdue_held_waits is_match show_duration c w))).
Proof.
  unfold settle_overdue_held_waits. set (f := λ (_ : N) (h : HeldWait), (hw_deadline h <=? now)%N).
  pose proof (extract_all_quiets f w) as Hq. pose proof (extract_all_tidy f w) as Hw.
  assert (later_held (w_held (extract_all f w).2)) as Hl.
  { intros p l Hp. cbn in Hp. rewrite map_lookup_imap in Hp. destruct (w_held w !! p) as [k|]; [|done]. cbn in Hp.
    case_bool_decide; [done|]. injection Hp as <-. apply Forall_forall. intros h [Hh _]%list_elem_of_filter. by apply N.leb_gt. }
  destruct (extract_all f w) as [overdue w1]. cbn [fst snd] in Hq, Hl, Hw.
  assert (stays w1 (foldl (settle_overdue is_match show_duration c) w1 overdue)) as Hs by (apply foldl_stays; intros; apply settle_overdue_stays).
  split; [etrans; [exact Hq|by apply stays_quiets]|]. intros Ht. destruct (Hs (Hw Ht)) as (_ & _ & [Hh _] & _). by apply Hh.
Qed.

Lemma send_overdue_answers_later w :
  stays w (send_overdue_answers c w) ∧ (tidy w → later_answers (w_answers (send_overdue_answers c w))).
Proof.
  unfold send_overdue_answers, extract_answers. cbv beta iota. set (w1 := w_on_answers _ w).
  assert (stays w w1) as H1.
  { intros Ht. split_and!; [by apply (tidy_same w)|done| |intros p t Hp; right; by exists t]. split; [done|]. intros Ha. by apply Forall_filter. }
  assert (later_answers (w_answers w1)) as Ha. { apply Forall_forall. intros h [Hh _]%list_elem_of_filter. by apply N.leb_gt. }
  match goal with |- context [foldl ?f w1 ?l] => assert (stays w1 (foldl f w1 l)) as Hs by (apply foldl_stays; intros; eapply grows_stays, deliver_grows) end.
  split; [by etrans|]. intros Ht. destruct (H1 Ht) as [Ht1 _]. destruct (Hs Ht1) as (_ & _ & [_ Hh] & _). by apply Hh.
Qed.

(** ** Readiness *)
Definition expired_among (l : list N) (w : Waits) : Prop :=
  ∀ p rd, w_readiness w !! p = Some rd → is_waiting (rr_state rd) = true → (rr_deadline rd ≤ now)%N → p ∈ l.

Lemma time_out_readiness_expired q l w :
  expired_among (q :: l) w → expired_among l (time_out_readiness show_duration c w q).
Proof.
  intros He p rd Hp Hw Hd. unfold time_out_readiness in Hp. destruct (w_readiness w !! q) as [rq|] eqn:Eq.
  - cbn in Hp. apply lookup_insert_Some in Hp as [[<- <-]|[Hne Hp]].
    + exfalso. cbn in Hw. by destruct (rr_state rq).
    + specialize (He p rd Hp Hw Hd). by apply elem_of_cons in He as [->|He].
  - specialize (He p rd Hp Hw Hd). apply elem_of_cons in He as [->|He]; [congruence|done].
Qed.

(** What timing a readiness check out keeps. *)
Lemma time_out_readiness_keeps q w :
  let w' := time_out_readiness show_duration c w q in
  (tidy w → tidy w') ∧ w_held w' = w_held w ∧ w_answers w' = w_answers w ∧ w_taps w' = w_taps w.
Proof. unfold time_out_readiness. cbv zeta. destruct (w_readiness w !! q); [|done]. split_and!; [|done..]. by apply tidy_same. Qed.

Lemma time_out_all w :
  let w' := foldl (time_out_readiness show_duration c) w
    (filter (λ kv, is_waiting (rr_state kv.2) && (rr_deadline kv.2 <=? now)%N = true) (map_to_list (w_readiness w))).*1 in
  (tidy w → tidy w') ∧ w_held w' = w_held w ∧ w_answers w' = w_answers w ∧ w_taps w' = w_taps w ∧ expired_among [] w'.
Proof.
  set (l := (filter _ (map_to_list (w_readiness w))).*1). assert (expired_among l w) as He.
  { intros p rd Hp Hw Hd. apply list_elem_of_fmap. exists (p, rd). split; [done|]. apply list_elem_of_filter.
    split; [|by apply elem_of_map_to_list]. cbn. rewrite Hw. by apply N.leb_le. }
  clearbody l. revert w He. induction l as [|q l IH]; intros w He; [done|]. cbn [foldl].
  destruct (time_out_readiness_keeps q w) as (H1 & H2 & H3 & H4). specialize (IH _ (time_out_readiness_expired q l w He)).
  destruct IH as (K1 & K2 & K3 & K4 & K5). split_and!; [auto|congruence..|done].
Qed.

(** ** All together *)
Definition overdue (w : Waits) (x : Waiter) : option (WaitStatus * option MatchedLine) :=
  match check c w x now with
  | Some status => Some (status, None)
  | None => if (wt_deadline x <=? now)%N then Some (WWaiting, None) else None
  end.

Lemma overdue_readiness w w' x : w_readiness w' = w_readiness w → overdue w' x = overdue w x.
Proof. intros E. unfold overdue, check. by rewrite E. Qed.

(** Nothing kept is due. *)
Definition all_later (w : Waits) : Prop :=
  due_among [] w ∧ later_held (w_held w) ∧ later_answers (w_answers w) ∧ expired_among [] w ∧
  Forall (λ x, overdue w x = None) (w_waiters w).

Lemma settle_waits_later w : tidy w → all_later (settle_waits is_match show_duration c w).
Proof.
  intros Ht. unfold settle_waits. cbv zeta. destruct (test_due_partials_due w Ht) as [Ht1 Hd1].
  set (w1 := test_due_partials _ _ _ _) in *. clearbody w1. destruct (release_adoption_waits_quiets w1 Ht1) as [Ht2 Hc2].
  apply (calm_due [] _ _ Hc2) in Hd1. set (w2 := release_adoption_waits _ _ _) in *. clearbody w2.
  destruct (settle_overdue_held_waits_later w2) as [Hq3 Hl3]. destruct (Hq3 Ht2) as [Ht3 Hc3]. specialize (Hl3 Ht2).
  apply (calm_due [] _ _ Hc3) in Hd1. set (w3 := settle_overdue_held_waits _ _ _ _) in *. clearbody w3.
  destruct (send_overdue_answers_later w3) as [Hs4 Ha4]. destruct (Hs4 Ht3) as (Ht4 & _ & [Hh4 _] & Hc4). specialize (Ha4 Ht3). specialize (Hh4 Hl3).
  apply (calm_due [] _ _ Hc4) in Hd1. set (w4 := send_overdue_answers _ _) in *. clearbody w4.
  destruct (time_out_all w4) as (Ht5 & Eh & Ea & Et & He5). specialize (Ht5 Ht4). set (w5 := foldl _ w4 _) in *. clearbody w5.
  fold overdue. destruct (settle_all_stays overdue w5 Ht5) as (Ht6 & Er6 & [Hh6 Ha6] & Hc6). unfold all_later. split_and!.
  - apply (calm_due [] _ _ Hc6). unfold due_among. by rewrite Et.
  - apply Hh6. by rewrite Eh.
  - apply Ha6. by rewrite Ea.
  - unfold expired_among. rewrite Er6. exact He5.
  - apply settle_all_done; [apply overdue_readiness|done].
Qed.

Lemma earliest_elem times t : earliest times = Some t → t ∈ times.
Proof.
  revert t. induction times as [|x l IH]; [done|]. intros t. cbn. fold (earliest l). destruct (earliest l) as [m|]; intros [= <-]; [|by left].
  destruct (N.min_spec x m) as [[_ ->]|[_ ->]]; [by left|right; by apply IH].
Qed.

Lemma overdue_window w x end_ :
  overdue w x = None → wt_until x = UntilState GRunning → counts (wt_pin x) (gen_of c (wt_pane x)) = true →
  p_state <$> row c (wt_pane x) = Some SRunning → quick_exit_end c (wt_pane x) = Some end_ → (now < end_)%N.
Proof.
  unfold overdue, check. intros Ho Hu Hc Hs He. rewrite Hu, Hc in Ho. cbn [negb] in Ho. destruct (row c (wt_pane x)) as [p|]; [|done].
  injection Hs as Hs. rewrite Hs, He in Ho. cbn in Ho. destruct (N.leb_spec end_ now); [done|lia].
Qed.

Lemma next_wait_deadline_later w t : all_later w → next_wait_deadline c w = Some t → (now < t)%N.
Proof.
  intros (Hd & Hh & Ha & He & Hw) Hn%earliest_elem. rewrite Forall_forall in Hw.
  assert (∀ x, x ∈ w_waiters w → (now < wt_deadline x)%N) as Hx.
  { intros x Hx. specialize (Hw x Hx). unfold overdue in Hw. destruct (check c w x now); [done|]. destruct (N.leb_spec (wt_deadline x) now); [done|lia]. }
  rewrite !elem_of_app in Hn. destruct Hn as [Hn|[Hn|[Hn|[Hn|[Hn|Hn]]]]].
  - apply list_elem_of_fmap in Hn as (x & -> & Hin). by apply Hx.
  - apply list_elem_of_fmap in Hn as (rd & -> & [Hr Hin]%list_elem_of_filter). apply list_elem_of_fmap in Hin as ([p k] & -> & Hp%elem_of_map_to_list).
    destruct (N.lt_ge_cases now (rr_deadline k)) as [|Hle]; [done|]. by destruct (not_elem_of_nil p (He p k Hp Hr Hle)).
  - apply list_elem_of_omap in Hn as (x & [Hf Hin]%list_elem_of_filter & Hq). apply andb_prop in Hf as [[Hu Hc]%andb_prop Hs].
    apply bool_decide_eq_true in Hu, Hs. by apply (overdue_window w x t (Hw x Hin)).
  - apply list_elem_of_fmap in Hn as (h & -> & Hin). apply list_elem_of_In, in_concat in Hin as (l & Hl & Hin).
    apply list_elem_of_In in Hl, Hin. apply list_elem_of_fmap in Hl as ([p k] & -> & Hp%elem_of_map_to_list).
    pose proof (Hh p k Hp) as Hall. rewrite Forall_forall in Hall. by apply Hall.
  - apply list_elem_of_fmap in Hn as (h & -> & Hin). unfold later_answers in Ha. rewrite Forall_forall in Ha. by apply Ha.
  - apply list_elem_of_omap in Hn as (tap & Hin & Hr). apply list_elem_of_fmap in Hin as ([p k] & -> & Hp%elem_of_map_to_list).
    destruct (N.lt_ge_cases now t) as [|Hle]; [done|]. by destruct (not_elem_of_nil p (Hd p k t Hp Hr Hle)).
Qed.
End due.

Section settled.
Context `{Watching} (env : Env) (nfc to_uppercase : rstr → rstr) (repaint_text : list N → PtySize → rstr).
Context `{LineRenderer} (compile_error : LogPattern → option rstr) (is_match : LogPattern → rstr → bool)
  (show_duration : duration → rstr) (replay_matching : N → list LogPattern → option N).

(** A launch in flight is of a process with a row. *)
Lemma reachable_starting s p :
  reachable env nfc to_uppercase repaint_text s → starting (sup_core s) p = true → is_some (row (sup_core s) p) = true.
Proof.
  intros Hr Hs. pose proof (reachable_ok env nfc to_uppercase repaint_text s p Hr) as Hok. apply (ok_launch_known _ Hok).
  change (is_starting s p = true) in Hs. rewrite is_starting_slice in Hs. intros E. by rewrite E in Hs.
Qed.

(** C14: once a supervisor settles its waits, after whatever was done to them,
    nothing is left overdue: the instant it next wakes for is a later one, and
    no wait it still keeps has its condition met or its deadline passed. *)
Theorem settling_leaves_nothing_due (s : Sup) (l : list (Core * WaitAct)) :
  reachable env nfc to_uppercase repaint_text s →
  let c := sup_core s in
  let w := settle_waits is_match show_duration c (acts compile_error is_match show_duration replay_matching l waits_new) in
  (∀ t, next_wait_deadline c w = Some t → (s_now c < t)%N) ∧
  (∀ x, x ∈ w_waiters w → (s_now c < wt_deadline x)%N ∧ check c w x (s_now c) = None).
Proof.
  intros Hr c w. assert (all_later c w) as Hl.
  { apply (settle_waits_later compile_error is_match show_duration replay_matching c); [intros p; by apply reachable_starting|]. apply acts_tidy, tidy_new. }
  split; [intros t; by apply next_wait_deadline_later|]. intros x Hx. destruct Hl as (_ & _ & _ & _ & Hw).
  rewrite Forall_forall in Hw. specialize (Hw x Hx). unfold overdue in Hw. destruct (check c w x (s_now c)); [done|].
  destruct (N.leb_spec (wt_deadline x) (s_now c)); [done|]. split; [lia|done].
Qed.
End settled.

(** ** A wait that runs out *)
Module Witness.
Import Tap.Witness SupSafe.Witness.
#[local] Existing Instance plain_lines.
#[local] Existing Instance no_watch.

Definition asked : PreparedWait :=
  {| pw_pane := 0; pw_process := lit "web"; pw_until := UntilState GStopped; pw_matcher := None; pw_since := None; pw_timeout := from_secs 1;
     pw_asked := 2; pw_already_running := false |}.
Definition late : Sup := after running (5000000000%N, EForceKill (lit "web")).
Definition one_wait : list (Core * WaitAct) := [(sup_core launching, ActWait asked None 7)].
Notation settled_late :=
  (settle_waits (λ _ _, false) print_dec (sup_core late) (acts (λ _, None) (λ _ _, false) print_dec (λ _ _, None) one_wait waits_new)).

Lemma settling_leaves_nothing_due_witness :
  length (w_waiters (acts (λ _, None) (λ _ _, false) print_dec (λ _ _, None) one_wait waits_new)) = 1 ∧
  sent 7 settled_late = 1 ∧ ∀ t, next_wait_deadline (sup_core late) settled_late = Some t → (s_now (sup_core late) < t)%N.
Proof.
  split; [by vm_compute|]. split; [by vm_compute|].
  assert (reachable granting id id paint late) as Hr.
  { exact (reach_step granting id id paint running 5000000000 (EForceKill (lit "web")) reachable_running I). }
  exact (proj1 (settling_leaves_nothing_due granting id id paint (λ _, None) (λ _ _, false) print_dec (λ _ _, None) late one_wait Hr)).
Defined.
End Witness.
