(* ===== verification/ServiceLoop.v ===== *)
(** * Turns of the service's loop

    What one turn does: which answers an event asks for, which projects an idle
    stop stops, which projects are let go of, how stored edits are raised, and
    what an exit does to the processes. *)
From S2P Require Import Prelude RustText RustPath Occupancy Values Process Config StackStore StackSync EventLog Books Tap WaitData SupState Lifecycle SupMoves Waits ServiceParts Runtime WaitsOnce Served Serving ServiceSafe SupInv SupLocal SupOk SupSafe.

Section loop.
Context `{Outside}.

(** ** Answers over a run *)

(** Whether a turn brings a request, or a screen read for one, on a reply. *)
Definition brings (r : N) (turn : Turn) : bool :=
  match tu_event turn with Some (VRequest _ reply) | Some (VHolderRead _ _ reply) => (reply =? r)%N | _ => false end.

Lemma asked_brings e flow turn r : tu_event turn = Some e → asked_by e flow r ≤ Nat.b2n (brings r turn).
Proof. intros E. unfold brings. rewrite E. destruct e, flow; unfold asked_by, once; lia. Qed.

Lemma serve_ledger r turns t : sound t → ledger r (serve turns t).2 ≤ ledger r t + tally (brings r) turns.
Proof.
  revert t. induction turns as [|turn turns IH]; intros t Ht; cbn [serve tally snd]; [lia|].
  destruct (tu_event turn) as [e|] eqn:E.
  - destruct (handle_tends (tu_world turn) e t) as [[_ _ _ Hl] Hs]. pose proof (asked_brings e (handle (tu_world turn) e t).1 turn r E) as Ha.
    specialize (Hl r (sound_settled _ Ht)). specialize (Hs Ht). destruct (handle (tu_world turn) e t) as [[|reply] u]; cbn [fst snd] in *.
    + pose proof (IH (tick (tu_tick turn) u) (tick_sound _ _ Hs)). pose proof (tick_ledger (tu_tick turn) u r (sound_settled _ Hs)). lia.
    + lia.
  - pose proof (IH (tick (tu_tick turn) t) (tick_sound _ _ Ht)). pose proof (tick_ledger (tu_tick turn) t r (sound_settled _ Ht)). lia.
Qed.

(** C2: over any run, and for any event next: handling it changes what is sent,
    held for an event and owed by a wait on each reply by exactly the answer
    the event asks for (one for a request unless it ends the service, one for
    a screen a worker read), so a request is answered at once or held once;
    and over the run no more is ever sent on a reply than was asked. *)
Theorem requests_answered_once (wo : World) (epoch : N) (settings : Settings) (turns : list Turn) (w : World) (e : ServiceEvent) (r : N) :
  let t := (serve turns (take_over wo epoch settings)).2 in
  ledger r (handle w e t).2 = ledger r t + asked_by e (handle w e t).1 r ∧
  tally (sends_to r) (rt_out t) ≤ tally (brings r) turns.
Proof.
  intros t. assert (sound t) as Ht by apply serve_sound, take_over_sound. split.
  - destruct (handle_tends w e t) as [[_ _ _ Hl] _]. apply Hl, Ht.
  - pose proof (serve_ledger r turns _ (take_over_sound wo epoch settings)) as Hle. rewrite take_over_ledger in Hle. fold t in Hle.
    unfold ledger in Hle. lia.
Qed.
(** ** Idle stops *)
Lemma on_sup_supervisors {A} wo project (f : Sup → A * Sup) t :
  rt_supervisors (on_sup wo project f t).2 = alter (λ s, (f (upd (on_now (λ _, wo_now wo)) s)).2) project (rt_supervisors t).
Proof.
  unfold on_sup. destruct (rt_supervisors t !! project) as [s|] eqn:E; cbv zeta.
  - rewrite (surjective_pairing (f _)). cbn [snd]. rewrite (told_supervisors _ _ (absorb_told _ _ _ _)). cbn.
    rewrite <-(insert_id _ _ _ E) at 2. by rewrite alter_insert_eq.
  - by rewrite alter_id by (intros ?; congruence).
Qed.

(** One operation on each of some projects, once each. *)
Lemma each_once {A B} wo (f : Sup → A * Sup) (g : B → option A → B) l (b : B) t p :
  NoDup l →
  rt_supervisors (foldl (λ (bt : B * Rt) project, let '(a, t) := on_sup wo project f bt.2 in (g bt.1 a, t)) (b, t) l).2 !! p =
    if decide (p ∈ l) then (λ s, (f (upd (on_now (λ _, wo_now wo)) s)).2) <$> rt_supervisors t !! p else rt_supervisors t !! p.
Proof.
  revert b t. induction l as [|q l IH]; intros b t Hnd; [done|]. apply NoDup_cons in Hnd as [Hq Hnd]. cbn [foldl fst snd].
  pose proof (on_sup_supervisors wo q f t) as Es. destruct (on_sup wo q f t) as [a u]. cbn [fst snd] in *. rewrite IH by done. rewrite Es.
  destruct (decide (p = q)) as [->|Hne].
  - rewrite decide_False by done. rewrite lookup_alter_eq, decide_True by (by left). done.
  - rewrite lookup_alter_ne by done. destruct (decide (p ∈ l)); [rewrite decide_True by (by right)|rewrite decide_False by (intros [?|?]%elem_of_cons; done)]; done.
Qed.

Lemma loaded_NoDup t : NoDup (loaded t).
Proof. apply NoDup_fst_map_to_list. Qed.
Lemma elem_of_loaded t p : p ∈ loaded t ↔ is_Some (rt_supervisors t !! p).
Proof.
  unfold loaded. rewrite list_elem_of_fmap. split.
  - intros ([q s] & -> & Hq%elem_of_map_to_list). by exists s.
  - intros [s Hs]. exists (p, s). by rewrite elem_of_map_to_list.
Qed.

Lemma raise_all_supervisors wo l t : rt_supervisors (foldl (λ t said, raise wo (Some said.1) Warning IdleStopped said.2 t) t l) = rt_supervisors t.
Proof. revert t. induction l as [|said l IH]; intros t; [done|]. cbn [foldl]. by rewrite IH. Qed.

(** Every loaded project is asked once whether its idle stop is due. *)
Lemma stop_idle_supervisors wo t p :
  rt_supervisors (stop_idle wo t) !! p =
    (λ s, (Lifecycle.idle_stop_if_due (wo_env wo) (wo_now wo) (upd (on_now (λ _, wo_now wo)) s)).2) <$> rt_supervisors t !! p.
Proof.
  unfold stop_idle. cbv zeta.
  pose proof (each_once wo (idle_stopped wo) (λ (said : list (path * rstr)) a, match a with Some (Some m) => said ++ [m] | _ => said end) (loaded t) [] t p (loaded_NoDup t)) as He.
  assert (∀ l mt, foldl (λ (mt : list (path * rstr) * Rt) project, match on_sup wo project (idle_stopped wo) mt.2 with
      | (Some (Some said), t) => (mt.1 ++ [said], t) | (_, t) => (mt.1, t) end) mt l =
    foldl (λ mt project, let '(a, t) := on_sup wo project (idle_stopped wo) mt.2 in
      (match a with Some (Some m) => mt.1 ++ [m] | _ => mt.1 end, t)) mt l) as Hext.
  { intros l. induction l as [|q l IH]; intros mt; [done|]. cbn [foldl]. rewrite IH. f_equal. by destruct (on_sup wo q (idle_stopped wo) mt.2) as [[[m|]|] u]. }
  rewrite Hext. destruct (foldl _ ([], t) (loaded t)) as [messages u]. cbn [snd] in He. rewrite raise_all_supervisors, He.
  assert (∀ s, (idle_stopped wo s).2 = (Lifecycle.idle_stop_if_due (wo_env wo) (wo_now wo) s).2) as Hs.
  { intros s. unfold idle_stopped. by destruct (Lifecycle.idle_stop_if_due _ _ s) as [[o|] s']. }
  destruct (decide (p ∈ loaded t)) as [Hin|Hin].
  - destruct (rt_supervisors t !! p); cbn; [by rewrite Hs|done].
  - rewrite elem_of_loaded in Hin. destruct (rt_supervisors t !! p) eqn:E; [|done]. exfalso. apply Hin. by eexists.
Qed.

(** C7: over any run, an idle stop at an instant touches exactly the projects
    due: one whose idle stop has not passed is left as it was, and one whose
    has passed has no shell in it, is disarmed, and is brought down when any of
    its processes may be running. *)
Theorem idle_stop_spares_occupied (wo : World) (epoch : N) (settings : Settings) (turns : list Turn) (w : World) (project : path) (s : Sup) :
  let t := (serve turns (take_over wo epoch settings)).2 in
  let s0 := upd (on_now (λ _, wo_now w)) s in
  rt_supervisors t !! project = Some s →
  ∃ s', rt_supervisors (stop_idle w t) !! project = Some s' ∧
    (s' = s0 ∧ (∀ deadline, Lifecycle.idle_deadline s = Some deadline → (wo_now w < deadline)%N) ∨
     shells_in (rt_occupancy t) project = [] ∧ s_left_at (sup_core s') = None ∧
     (∃ deadline, Lifecycle.idle_deadline s = Some deadline ∧ (deadline ≤ wo_now w)%N) ∧
     (existsb (λ p, may_be_running (p_state p)) (s_workspace (sup_core s)) = true →
      sup_trace s' = sup_trace (Lifecycle.down (wo_env w) (Lifecycle.hold_up s0)).2)).
Proof.
  intros t s0 Hs. rewrite stop_idle_supervisors, Hs. cbn [fmap option_fmap option_map]. eexists. split; [done|]. fold s0.
  assert (sound t) as [Hw _ Hc _ _] by apply serve_sound, take_over_sound. destruct (Hc project s Hs) as [_ Ha].
  change (Lifecycle.idle_deadline s) with (Lifecycle.idle_deadline s0). unfold Lifecycle.idle_stop_if_due.
  destruct (Lifecycle.idle_deadline s0) as [deadline|] eqn:Ed; [|left; by split].
  destruct (N.ltb_spec (wo_now w) deadline) as [Hlt|Hge]; [left; split; [done|by intros ? [= <-]]|]. right.
  assert (is_Some (s_left_at (sup_core s))) as Hsome.
  { unfold Lifecycle.idle_deadline in Ed. destruct (idle_stop_or _ _); [|done]. cbn in Ed. destruct (s_left_at (sup_core s)); [by eexists|done]. }
  cbv zeta. split_and!; [| |by eexists|].
  - specialize (Ha Hsome). rewrite occupants_members, <-length_shells_in in Ha by done. by apply nil_length_inv.
  - destruct (existsb _ _); [|done]. rewrite (surjective_pairing (Lifecycle.down _ _)). cbn [snd fst].
    destruct (served_left_at _ _ _ (serves_with (f := Lifecycle.down (wo_env w)) (Lifecycle.hold_up s0))) as [E|E]; exact E.
  - intros Hr. change (s_workspace (sup_core (Lifecycle.hold_up s0))) with (s_workspace (sup_core s)). rewrite Hr. by rewrite (surjective_pairing (Lifecycle.down _ _)).
Qed.
(** ** Letting go *)
Lemma let_go_all_lookup l t p : rt_supervisors (foldl let_go t l) !! p = if decide (p ∈ l) then None else rt_supervisors t !! p.
Proof.
  revert t. induction l as [|q l IH]; intros t; [done|]. cbn [foldl]. rewrite IH. cbn. destruct (decide (p = q)) as [->|Hne].
  - rewrite lookup_delete_eq. destruct (decide (q ∈ q :: l)) as [|Hn]; [by destruct (decide (q ∈ l))|]. exfalso. apply Hn. by left.
  - rewrite lookup_delete_ne by done. destruct (decide (p ∈ l)), (decide (p ∈ q :: l)); set_solver.
Qed.

Lemma record_idle_stops_supervisors wo t : rt_supervisors (record_idle_stops wo t) = rt_supervisors t.
Proof.
  unfold record_idle_stops. cbv zeta. set (armed := omap _ _). set (arm := λ (t : Rt) (rl : path * N), _). set (clear := λ (t : Rt) (root : path), _).
  assert (∀ l t, rt_supervisors (foldl arm t l) = rt_supervisors t) as Ha.
  { intros l. induction l as [|x l IH]; intros u; [done|]. cbn [foldl]. rewrite IH. unfold arm. by destruct (bool_decide _). }
  assert (∀ l t, rt_supervisors (foldl clear t l) = rt_supervisors t) as Hc.
  { intros l. induction l as [|x l IH]; intros u; [done|]. cbn [foldl]. rewrite IH. unfold clear. by destruct (is_some _). }
  cbn. by rewrite Hc, Ha.
Qed.

(** C11: over any run, handling an event never lets go of a loaded project, and a
    tick does only when the project is no longer registered and its supervisor
    has no process left and no launch in flight. *)
Theorem projects_kept_until_idle (wo : World) (epoch : N) (settings : Settings) (turns : list Turn) (w : World) (project : path) :
  let t := (serve turns (take_over wo epoch settings)).2 in
  is_Some (rt_supervisors t !! project) →
  (∀ e, is_Some (rt_supervisors (handle w e t).2 !! project)) ∧
  (rt_supervisors (tick w t) !! project = None →
   let u := before_letting_go w t in
   project ∈ rt_unregistered u ∧ ∃ s, rt_supervisors u !! project = Some s ∧ SupState.is_idle s = true).
Proof.
  intros t Hs. split.
  - intros e. apply (cons_loaded _ _ _ (tends_conserves _ _ _ (handle_tends w e t)) project Hs).
  - rewrite tick_parts, record_idle_stops_supervisors, let_go_all_lookup. cbv zeta. set (u := before_letting_go w t).
    destruct (goes_loaded _ _ _ (before_letting_go_goes w t) project Hs) as [s Es]. fold u in Es.
    destruct (decide (project ∈ finished u)) as [Hin|]; [intros _|by rewrite Es].
    apply list_elem_of_filter in Hin as [Hidle Hin%elem_of_elements]. split; [done|]. exists s. split; [done|]. by rewrite Es in Hidle.
Qed.

(** ** Leaving *)
Lemma absorb_releases wo s s' t :
  releases s s' →
  ∃ outs, rt_out (absorb wo s s' t) = outs ++ rt_out t ∧ Forall (λ o, ∃ e, o = TSup (root s') e ∧ lets_go e) outs ∧
    rt_event_log (absorb wo s s' t) = rt_event_log t ∧ rt_notices (absorb wo s s' t) = rt_notices t.
Proof.
  intros (es & Ht & Hes). unfold absorb. rewrite (new_effects_app s s' es Ht). apply Forall_rev in Hes. revert t.
  induction (rev es) as [|e l IH]; intros t; [by exists []; split_and!|]. apply Forall_cons in Hes as [He Hl]. cbn [foldl].
  destruct (IH Hl (effect_out wo s s' t e)) as (outs & E & Ho & El & En).
  assert (effect_out wo s s' t e = tell_out (TSup (root s') e) t) as Ee by by destruct e. rewrite Ee in *.
  exists (outs ++ [TSup (root s') e]). rewrite E. split_and!; [cbn; by rewrite <-app_assoc| |done..].
  apply Forall_app. split; [done|]. repeat constructor. by exists e.
Qed.

Lemma shutdown_one wo project t :
  ∃ outs, rt_out (tell_sup wo project Lifecycle.shutdown t) = outs ++ rt_out t ∧
    Forall (λ o, ∃ p e, o = TSup p e ∧ lets_go e) outs ∧
    rt_event_log (tell_sup wo project Lifecycle.shutdown t) = rt_event_log t ∧ rt_notices (tell_sup wo project Lifecycle.shutdown t) = rt_notices t.
Proof.
  unfold tell_sup, on_sup. destruct (rt_supervisors t !! project) as [s0|]; [|by exists []]. cbv zeta. cbn [snd].
  set (s := upd (on_now (λ _, wo_now wo)) s0). destruct (absorb_releases wo s (Lifecycle.shutdown s) (rt_on_supervisors (<[project := Lifecycle.shutdown s]>) t)) as (outs & E & Ho & El & En).
  { apply shutdown_releases. }
  exists outs. split_and!; [done| |done..]. eapply Forall_impl; [exact Ho|]. intros o (e & -> & He). eauto.
Qed.

(** ** Edits *)
Definition edit_draft (project : path) (edit : RecordedEdit) : EventDraft :=
  {| draft_project := Some project; draft_process := re_process edit; draft_kind := Notice_; draft_detail := re_message edit; draft_cursor := None |}.
Definition raise_all (project : path) (edits : list RecordedEdit) (l : EventLog) : EventLog :=
  foldl (λ l edit, (record_at is_format l (edit_draft project edit) (re_at edit)).2) l edits.

(** Raising when the newest raised is known. *)
Lemma raise_edits_log wo project t edits raised :
  wo_edits wo project = Ok edits → rt_raised_edits t !! project = Some raised →
  (raise_edits wo project t).1 = Ok tt ∧
  rt_event_log (raise_edits wo project t).2 = raise_all project (filter (λ e, (raised <? re_id e)%N = true) edits) (rt_event_log t) ∧
  (∀ newest, last edits = Some newest → rt_raised_edits (raise_edits wo project t).2 !! project = Some (re_id newest)).
Proof.
  intros Ee Er. unfold raise_edits, bind, stored, ret, modify. rewrite Ee. cbn [fst snd]. rewrite Er. cbn [fst snd].
  assert (∀ l t, rt_event_log (foldl (λ t edit, rt_on_event_log (λ l, (record_at is_format l (edit_draft project edit) (re_at edit)).2) t) t l)
    = raise_all project l (rt_event_log t)) as Hf.
  { intros l. induction l as [|e l IH]; intros u; [done|]. cbn [foldl]. by rewrite IH. }
  split; [done|]. destruct (last edits) as [newest|]; [destruct (bool_decide _)|]; (split; [apply Hf|]); intros n En; [..|done];
    injection En as <-; apply lookup_insert_eq.
Qed.

Lemma filter_later (mark : N) (l : list RecordedEdit) :
  Forall (λ e, (mark < re_id e)%N) l → filter (λ e, (mark <? re_id e)%N = true) l = l.
Proof. intros Hl. apply filter_all. intros e He. rewrite Forall_forall in Hl. by apply N.ltb_lt, Hl. Qed.

Lemma filter_earlier (mark : N) (l : list RecordedEdit) :
  Forall (λ e, (re_id e ≤ mark)%N) l → filter (λ e, (mark <? re_id e)%N = true) l = [].
Proof. intros Hl. apply filter_none. intros e He. rewrite Forall_forall in Hl. rewrite not_true_iff_false. by apply N.ltb_ge, Hl. Qed.

(** The last of a list in order is the greatest. *)
Lemma last_greatest (l : list RecordedEdit) newest :
  StronglySorted (λ a b, (re_id a < re_id b)%N) l → last l = Some newest → Forall (λ e, (re_id e ≤ re_id newest)%N) l.
Proof.
  induction l as [|e l IH]; intros Hs Hl; [done|]. apply StronglySorted_inv in Hs as [Hs Hf]. destruct l as [|e' l].
  - injection Hl as ->. by repeat constructor.
  - specialize (IH Hs Hl). constructor; [|done]. apply Forall_cons in Hf as [He _]. apply Forall_cons in IH as [He' _]. lia.
Qed.

Lemma later_above (l more : list RecordedEdit) newest :
  StronglySorted (λ a b, (re_id a < re_id b)%N) (l ++ more) → last l = Some newest → Forall (λ e, (re_id newest < re_id e)%N) more.
Proof.
  intros Hs Hl. apply Forall_forall. intros e He. apply (StronglySorted_app_1_elem_of (λ a b, (re_id a < re_id b)%N) l more); [done| |done].
  by apply last_Some_elem_of.
Qed.

End loop.

(** ** Witnesses *)
Module Witness.
Import Tap.Witness SupSafe.Witness Config.Witness Occupancy.Witness.

#[local] Instance outside : Outside :=
  {| line_renderer := plain_lines; compile_error := λ _, None; is_match := λ _ _, false; show_duration := print_dec; replay_matching := λ _ _, None;
     nfc := id; to_uppercase := id; repaint_text := paint; is_format := λ _, false; try_quote := Some; path_display := λ _, [];
     process_log := λ p _, p; version := []; binary := []; samples_ports := false; samples_usage := false; finds_occupants := false |}.

Definition shop : Stack := {| st_project := {| pr_root := root_a; pr_name := lit "shop"; pr_idle_stop := Some (After 30%N) |}; st_processes := [web] |}.
Definition edit (n : N) : RecordedEdit := {| re_id := n; re_at := n; re_process := None; re_message := lit "edited" |}.

(** A world where [shop] is registered and the first shell lives. *)
Definition world (now : N) (edits : list RecordedEdit) : World :=
  {| wo_now := now; wo_wall := now; wo_env := granting; wo_revision := λ _, Ok (Some 1%Z); wo_stack := λ _, Ok (Some shop);
     wo_settings := Ok settings; wo_edits := λ _, Ok edits; wo_raised_through := λ _, Ok None; wo_ended_runs := λ _, Ok [];
     wo_pending_idle := Ok []; wo_live_records := []; wo_unreadable_records := []; wo_legacy_logs := Ok tt; wo_handover_sweep := Ok [];
     wo_shell_records := []; wo_is_live := λ _, true; wo_samples := λ _, ∅ |}.
Definition turn (now : N) (e : ServiceEvent) : Turn := {| tu_event := Some e; tu_world := world now [edit 1]; tu_tick := world now [edit 1] |}.

(** A shell enters and leaves. *)
Definition turns : list Turn :=
  [turn 1 (VRequest (QShellReport (rec sh1 1 (Some root_a)) (Some ∅)) 7); turn 2 (VSpawned root_a 0 1 (Ok handle_1));
   turn 3 (VRequest (QShellReport (rec sh1 2 None) None) 8)].
Definition served_shop : Rt := (serve turns (take_over (world 0 []) 5 settings)).2.

Lemma service_counts_shells_witness :
  ∃ s, rt_supervisors served_shop !! root_a = Some s ∧ is_some (s_left_at (sup_core s)) = true ∧ shells_in (rt_occupancy served_shop) root_a = [].
Proof.
  assert (match rt_supervisors served_shop !! root_a with Some s => is_some (s_left_at (sup_core s)) | None => false end = true) as Ha
    by (vm_compute; reflexivity).
  pose proof (λ s, service_counts_shells (world 0 []) 5 settings turns root_a s) as Hc. fold served_shop in Hc. cbv zeta in Hc.
  destruct (rt_supervisors served_shop !! root_a) as [s|]; [|discriminate Ha]. exists s. specialize (Hc s eq_refl) as [_ Hc].
  refine (conj eq_refl (conj Ha (Hc _))). destruct (s_left_at (sup_core s)); [by eexists|discriminate Ha].
Defined.

Lemma idle_stop_spares_occupied_witness :
  ∃ s s', rt_supervisors served_shop !! root_a = Some s ∧ rt_supervisors (stop_idle (world 50 []) served_shop) !! root_a = Some s'.
Proof.
  assert (is_some (rt_supervisors served_shop !! root_a) = true) as Ha by (by vm_compute).
  pose proof (λ s, idle_stop_spares_occupied (world 0 []) 5 settings turns (world 50 []) root_a s) as Hi. fold served_shop in Hi. cbv zeta in Hi.
  destruct (rt_supervisors served_shop !! root_a) as [s|]; [|discriminate Ha].
  specialize (Hi s eq_refl) as (s' & E' & _). exists s, s'. exact (conj eq_refl E').
Defined.

Lemma projects_kept_until_idle_witness :
  is_Some (rt_supervisors served_shop !! root_a) ∧ is_Some (rt_supervisors (handle (world 9 []) (VRequest QStop 3) served_shop).2 !! root_a).
Proof.
  assert (is_Some (rt_supervisors served_shop !! root_a)) as Hs.
  { assert (is_some (rt_supervisors served_shop !! root_a) = true) as Ha by (vm_compute; reflexivity).
    destruct (rt_supervisors served_shop !! root_a) as [s|]; [exact (mk_is_Some _ s eq_refl)|discriminate Ha]. }
  split; [exact Hs|]. exact (proj1 (projects_kept_until_idle (world 0 []) 5 settings turns (world 9 []) root_a Hs) (VRequest QStop 3)).
Defined.

End Witness.
