(* ===== verification/RunRows.v ===== *)
(** * What the service keeps in the store

    Models muster-store/src/run_rows.rs, pending_idle_stop_rows.rs and the raised
    marks of edit_log_rows.rs: the tables [process_runs], [pending_idle_stops]
    and [raised_edits] with their writes and reads, over the projects and
    processes of a [StackDb]; and muster-service/src/store_record.rs with the
    write of each record in store_recorder.rs. Proves that what a later service
    reads is, for each process and project, what the last record left. *)
From S2P Require Import Prelude RustText RustPath Values Coordination Store Process Config StackRows StackStore Lifecycle Runtime.

Record RunRow := { rn_status : option Z; rn_signal : option rstr; rn_ended_ms : Z }.
Record Kept := { process_runs : gmap Z RunRow; raised_edits : gmap Z Z; pending_idle : gmap Z Z }.
Definition nothing_kept : Kept := {| process_runs := ∅; raised_edits := ∅; pending_idle := ∅ |}.

Definition EXIT_STATUS : rstr := lit "exit_status".
Definition EXIT_SIGNAL : rstr := lit "exit_signal".
Definition ENDED_AT : rstr := lit "run end time".
Definition LEFT_AT : rstr := lit "idle stop leave time".

(** A record the recorder applies, but for [Flush]. *)
Inductive StoreRecord :=
| Ended (project : path) (run : EndedRun)
| Cleared (project : path) (process : rstr)
| EditsRaised (project : path) (through : Z)
| IdleArmed (stop : PendingIdleStop)
| IdleCleared (project : path).

Section rows.
Context (is_format : rchar → bool) (nfc lowercase : rstr → rstr) (root_text : path → rstr) (db : StackDb).

(** The constructor of [SignalName]. *)
Definition signal_name_try_new (raw : rstr) : option rstr := let name := lowercase (trim raw) in if bool_decide (name = []) then None else Some name.

Definition run_from_row (name : rstr) (r : RunRow) : result EndedRun ConfigError :=
  let? outcome :=
    match rn_status r, rn_signal r with
    | Some status, None =>
      if (status =? 0)%Z then Ok Succeeded
      else if (0 <=? status)%Z && (status <=? Z.of_N u32_max)%Z then Ok (Failed (Status (Z.to_N status))) else Err (ECorruptRow EXIT_STATUS)
    | None, Some signal => let? signal := ok_or (signal_name_try_new signal) (ECorruptRow EXIT_SIGNAL) in Ok (Failed (Signal signal))
    | None, None => Ok FAILED_UNKNOWN
    | Some _, Some _ => Err (ECorruptRow EXIT_SIGNAL)
    end in
  let? name := match process_name_try_new is_format name with Ok name => Ok name | Err _ => Err (ECorruptRow (lit "name")) end in
  let? at_ := duration_from_millis ENDED_AT (rn_ended_ms r) in
  Ok {| er_process := name; er_outcome := outcome; er_at := at_ |}.

Definition outcome_columns (o : ExitOutcome) : option N * option rstr :=
  match o with
  | Succeeded => (Some 0%N, None)
  | Failed (Status status) => (Some status, None)
  | Failed (Signal signal) => (None, Some signal)
  | Failed Unknown_ => (None, None)
  end.

Fixpoint runs_from_rows (rows : list (rstr * RunRow)) : result (list EndedRun) ConfigError :=
  match rows with
  | [] => Ok []
  | (name, r) :: rows => let? run := run_from_row name r in let? runs := runs_from_rows rows in Ok (run :: runs)
  end.
(** [process_runs] joined to the processes of a project, by id. *)
Definition ended_runs (k : Kept) (root : path) : result (list EndedRun) ConfigError :=
  let? found := find_project is_format db root in
  match found with
  | None => Ok []
  | Some (project, _) => runs_from_rows (omap (λ r, (λ run, (c_name (ps_columns r), run)) <$> process_runs k !! ps_id r) (rows_of db project))
  end.

Definition with_runs (runs : gmap Z RunRow) (k : Kept) : Kept := {| process_runs := runs; raised_edits := raised_edits k; pending_idle := pending_idle k |}.
Definition with_raised (raised : gmap Z Z) (k : Kept) : Kept := {| process_runs := process_runs k; raised_edits := raised; pending_idle := pending_idle k |}.
Definition with_pending (pending : gmap Z Z) (k : Kept) : Kept := {| process_runs := process_runs k; raised_edits := raised_edits k; pending_idle := pending |}.

(** The ids of the processes under a name's key. *)
Definition ids_named (project : Z) (key : rstr) : list Z := ps_id <$> filter (is_named project key) (processes db).

(** A write keeps what it did on success only. *)
Definition record_end (root : path) (run : EndedRun) (k : Kept) : result Kept ConfigError :=
  let '(status, signal) := outcome_columns (er_outcome run) in
  let? ended_ms := duration_millis ENDED_AT (er_at run) in
  let? found := find_project is_format db root in
  match found with
  | None => Ok k
  | Some (project, _) =>
    let? status := match status with Some status => let? status := column_integer EXIT_STATUS status in Ok (Some status) | None => Ok None end in
    let row := {| rn_status := status; rn_signal := signal; rn_ended_ms := ended_ms |} in
    Ok (with_runs (foldl (λ runs id, <[id := row]> runs) (process_runs k) (ids_named project (name_key nfc (er_process run)))) k)
  end.
Definition clear_end (root : path) (process : rstr) (k : Kept) : result Kept ConfigError :=
  let? found := find_project is_format db root in
  match found with
  | None => Ok k
  | Some (project, _) => Ok (with_runs (foldl (λ runs id, delete id runs) (process_runs k) (ids_named project (name_key nfc process))) k)
  end.

Definition raised_through (k : Kept) (root : path) : result (option Z) ConfigError :=
  let? found := find_project is_format db root in
  match found with None => Ok None | Some (project, _) => Ok (raised_edits k !! project) end.
Definition mark_raised (root : path) (edit : Z) (k : Kept) : result Kept ConfigError :=
  let? found := find_project is_format db root in
  match found with
  | None => Ok k
  | Some (project, _) => Ok (with_raised (<[project := match raised_edits k !! project with Some before => Z.max before edit | None => edit end]> (raised_edits k)) k)
  end.

Definition before_root (a b : path * Z) : Prop := cle (root_text a.1) (root_text b.1).
#[export] Instance before_root_dec a b : Decision (before_root a b).
Proof. unfold before_root. apply _. Defined.
(** The rows of folders that are project folders, read. *)
Fixpoint stops_from_rows (rows : list (path * Z)) : result (list PendingIdleStop) ConfigError :=
  match rows with
  | [] => Ok []
  | (root, left_ms) :: rows =>
    if negb (is_absolute root) then stops_from_rows rows else
    let? left_at := duration_from_millis LEFT_AT left_ms in
    let? stops := stops_from_rows rows in
    Ok ({| pi_project := root; pi_left_at := left_at |} :: stops)
  end.
(** [pending_idle_stops] joined to the projects, by folder. *)
Definition pending_idle_stops (k : Kept) : result (list PendingIdleStop) ConfigError :=
  stops_from_rows (merge_sort before_root (omap (λ r, (λ left_ms, (pj_root r, left_ms)) <$> pending_idle k !! pj_id r) (projects db))).
Definition arm_idle_stop (stop : PendingIdleStop) (k : Kept) : result Kept ConfigError :=
  let? left_ms := duration_millis LEFT_AT (pi_left_at stop) in
  let? found := find_project is_format db (pi_project stop) in
  match found with None => Ok k | Some (project, _) => Ok (with_pending (<[project := left_ms]> (pending_idle k)) k) end.
Definition clear_idle_stop (root : path) (k : Kept) : result Kept ConfigError :=
  let? found := find_project is_format db root in
  match found with None => Ok k | Some (project, _) => Ok (with_pending (delete project (pending_idle k)) k) end.

Definition apply (r : StoreRecord) (k : Kept) : result Kept ConfigError :=
  match r with
  | Ended project run => record_end project run k
  | Cleared project process => clear_end project process k
  | EditsRaised project through => mark_raised project through k
  | IdleArmed stop => arm_idle_stop stop k
  | IdleCleared project => clear_idle_stop project k
  end.
(** Records applied one after another, each of which lands. *)
Fixpoint landing (rs : list StoreRecord) (k : Kept) : option Kept :=
  match rs with
  | [] => Some k
  | r :: rs => match apply r k with Ok k => landing rs k | Err _ => None end
  end.
End rows.

(** ** What the records leave *)
Lemma foldl_insert_lookup {A} (row : A) ids (m : gmap Z A) i :
  foldl (λ m id, <[id := row]> m) m ids !! i = if decide (i ∈ ids) then Some row else m !! i.
Proof.
  revert m. induction ids as [|j ids IH]; intros m; cbn [foldl]; [by rewrite decide_False by apply not_elem_of_nil|]. rewrite IH.
  destruct (decide (i ∈ ids)); [by rewrite decide_True by (by apply list_elem_of_further)|]. destruct (decide (i = j)) as [->|Hne].
  - by rewrite lookup_insert_eq, decide_True by (by left).
  - rewrite lookup_insert_ne by done. by rewrite decide_False by (by apply not_elem_of_cons).
Qed.
Lemma foldl_delete_lookup {A} ids (m : gmap Z A) i : foldl (λ m id, delete id m) m ids !! i = if decide (i ∈ ids) then None else m !! i.
Proof.
  revert m. induction ids as [|j ids IH]; intros m; cbn [foldl]; [by rewrite decide_False by apply not_elem_of_nil|]. rewrite IH.
  destruct (decide (i ∈ ids)); [by rewrite decide_True by (by apply list_elem_of_further)|]. destruct (decide (i = j)) as [->|Hne].
  - by rewrite lookup_delete_eq, decide_True by (by left).
  - rewrite lookup_delete_ne by done. by rewrite decide_False by (by apply not_elem_of_cons).
Qed.

(** Whole milliseconds, rounded up: as a column keeps a time. *)
Definition millis_up (d : duration) : N := ((d + (NANOS_PER_MILLI - 1)) / NANOS_PER_MILLI)%N.
Definition as_kept (d : duration) : duration := (millis_up d * NANOS_PER_MILLI)%N.
Lemma duration_millis_up what d ms : duration_millis what d = Ok ms → ms = Z.of_N (millis_up d).
Proof. unfold duration_millis, column_integer. fold (millis_up d). destruct (_ <=? _)%Z; [|done]. by intros [= <-]. Qed.
Lemma column_integer_value what n z : column_integer what n = Ok z → z = Z.of_N n.
Proof. unfold column_integer. destruct (_ <=? _)%Z; [|done]. by intros [= <-]. Qed.
Lemma from_millis_up what d : duration_from_millis what (Z.of_N (millis_up d)) = Ok (as_kept d).
Proof. unfold duration_from_millis, as_kept. rewrite (proj2 (Z.leb_le 0 _)) by lia. by rewrite N2Z.id. Qed.

Lemma omap_cons {A B} (f : A → option B) x l : omap f (x :: l) = match f x with Some y => y :: omap f l | None => omap f l end.
Proof. done. Qed.

Section laws.
Context (is_format : rchar → bool) (nfc lowercase : rstr → rstr) (root_text : path → rstr) (db : StackDb).
Notation find := (find_project is_format db).
Notation named := (ids_named db).

(** The last record of a process's end, unless a later one cleared it; of a
    project's pending stop; and the newest edit raised. *)
Definition end_after (root : path) (key : rstr) (e : option EndedRun) (r : StoreRecord) : option EndedRun :=
  match r with
  | Ended p run => if bool_decide (p = root ∧ name_key nfc (er_process run) = key) then Some run else e
  | Cleared p n => if bool_decide (p = root ∧ name_key nfc n = key) then None else e
  | _ => e
  end.
Definition end_of (rs : list StoreRecord) (root : path) (key : rstr) : option EndedRun := foldl (end_after root key) None rs.
Definition idle_after_record (root : path) (left_at : option N) (r : StoreRecord) : option N :=
  match r with
  | IdleArmed stop => if bool_decide (pi_project stop = root) then Some (pi_left_at stop) else left_at
  | IdleCleared p => if bool_decide (p = root) then None else left_at
  | _ => left_at
  end.
Definition idle_of (rs : list StoreRecord) (root : path) : option N := foldl (idle_after_record root) None rs.
Definition raised_after (root : path) (raised : option Z) (r : StoreRecord) : option Z :=
  match r with
  | EditsRaised p edit => if bool_decide (p = root) then Some (match raised with Some before => Z.max before edit | None => edit end) else raised
  | _ => raised
  end.
Definition raised_of (rs : list StoreRecord) (root : path) : option Z := foldl (raised_after root) None rs.

(** An end whose values their own constructors accept. *)
Definition outcome_ok (o : ExitOutcome) : Prop :=
  match o with
  | Failed (Status status) => (0 < status <= u32_max)%N
  | Failed (Signal signal) => signal_name_try_new lowercase signal = Some signal
  | _ => True
  end.
Definition record_ok (r : StoreRecord) : Prop := match r with Ended _ run => outcome_ok (er_outcome run) | _ => True end.

Definition stored_row (run : EndedRun) : RunRow :=
  {| rn_status := Z.of_N <$> (outcome_columns (er_outcome run)).1; rn_signal := (outcome_columns (er_outcome run)).2; rn_ended_ms := Z.of_N (millis_up (er_at run)) |}.
Lemma run_read_back name run :
  outcome_ok (er_outcome run) → process_name_try_new is_format name = Ok name →
  run_from_row is_format lowercase name (stored_row run) = Ok {| er_process := name; er_outcome := er_outcome run; er_at := as_kept (er_at run) |}.
Proof.
  intros Ho Hn. unfold run_from_row, stored_row. cbn [rn_status rn_signal rn_ended_ms]. rewrite Hn, from_millis_up. destruct (er_outcome run) as [|[status|signal|]]; cbn in *; [done| | |done].
  - rewrite (proj2 (Z.eqb_neq _ _)) by lia. rewrite (proj2 (Z.leb_le 0 _)), (proj2 (Z.leb_le _ (Z.of_N u32_max))) by lia. cbn. by rewrite N2Z.id.
  - by rewrite Ho.
Qed.

Context (Hwf : wf is_format nfc db) (root : path) (id : Z) (p : Project) (Hfind : find root = Ok (Some (id, p))).

Lemma find_other root' id' p' : find root' = Ok (Some (id', p')) → id' = id ↔ root' = root.
Proof.
  intros Hf. destruct (find_project_Some is_format nfc db _ _ _ Hwf Hf) as (r' & Hr' & <- & <- & _). destruct (find_project_Some is_format nfc db _ _ _ Hwf Hfind) as (r & Hr & <- & <- & _).
  split; intros E; [by rewrite (NoDup_key_inj _ _ _ _ (wf_project_ids _ _ _ Hwf) Hr' Hr E)|by rewrite (NoDup_key_inj _ _ _ _ (wf_roots _ _ _ Hwf) Hr' Hr E)].
Qed.
Lemma named_row r project key : r ∈ processes db → ps_id r ∈ named project key ↔ is_named project key r.
Proof.
  intros Hr. unfold ids_named. rewrite list_elem_of_fmap. split.
  - intros (r' & E & [Hn Hr']%list_elem_of_filter). by rewrite (NoDup_key_inj _ _ _ _ (wf_process_ids _ _ _ Hwf) Hr Hr' E).
  - intros Hn. exists r. split; [done|]. by apply list_elem_of_filter.
Qed.

(** The rows of the project [root] hold what [rs] left. *)
Record reflects (rs : list StoreRecord) (k : Kept) : Prop := {
  rf_ends : ∀ r, r ∈ rows_of db id → process_runs k !! ps_id r = stored_row <$> end_of rs root (c_key (ps_columns r));
  rf_ok : ∀ key run, end_of rs root key = Some run → outcome_ok (er_outcome run);
  rf_raised : raised_edits k !! id = raised_of rs root;
  rf_idle : pending_idle k !! id = (λ left_at, Z.of_N (millis_up left_at)) <$> idle_of rs root;
}.

Lemma named_of_other r root' id' p' key :
  r ∈ rows_of db id → find root' = Ok (Some (id', p')) → ps_id r ∈ named id' key ↔ root' = root ∧ key = c_key (ps_columns r).
Proof.
  intros [Hp Hr]%list_elem_of_filter Hf. rewrite named_row by done. unfold is_named. rewrite <-(find_other _ _ _ Hf). naive_solver.
Qed.

Lemma end_of_snoc rs r key : end_of (rs ++ [r]) root key = end_after root key (end_of rs root key) r.
Proof. unfold end_of. by rewrite foldl_app. Qed.
Lemma raised_of_snoc rs r : raised_of (rs ++ [r]) root = raised_after root (raised_of rs root) r.
Proof. unfold raised_of. by rewrite foldl_app. Qed.
Lemma idle_of_snoc rs r : idle_of (rs ++ [r]) root = idle_after_record root (idle_of rs root) r.
Proof. unfold idle_of. by rewrite foldl_app. Qed.

(** A record of a folder that is no project leaves everything. *)
Lemma reflects_unknown rs r k :
  reflects rs k → (∀ key e, end_after root key e r = e) → (∀ e, raised_after root e r = e) → (∀ e, idle_after_record root e r = e) → reflects (rs ++ [r]) k.
Proof.
  intros [He Ho Hr Hi] H1 H2 H3. split; [intros r' Hr'; by rewrite end_of_snoc, H1, He|intros key run; rewrite end_of_snoc, H1; apply Ho|by rewrite raised_of_snoc, H2|by rewrite idle_of_snoc, H3].
Qed.

Lemma record_end_reflects rs k project run k' :
  outcome_ok (er_outcome run) → reflects rs k → record_end is_format nfc db project run k = Ok k' → reflects (rs ++ [Ended project run]) k'.
Proof.
  intros Hok Hrf. pose proof Hrf as [He Ho Hr Hi]. unfold record_end. destruct (outcome_columns (er_outcome run)) as [status signal] eqn:Ec.
  destruct (duration_millis ENDED_AT (er_at run)) as [ms|] eqn:Em; [|done]. apply duration_millis_up in Em as ->. destruct (find project) as [[[id' p']|]|] eqn:Ef; [| |done].
  - set (row := match status with Some _ => _ | None => _ end). assert (∀ s, row = Ok s → s = Z.of_N <$> status) as Hrow.
    { intros s. unfold row. destruct status as [st|]; [|by intros [= <-]]. destruct (column_integer EXIT_STATUS st) as [z|] eqn:Ez; [|done]. apply column_integer_value in Ez as ->. by intros [= <-]. }
    destruct row as [s|]; [|done]. specialize (Hrow s eq_refl) as ->. intros [= <-].
    assert ({| rn_status := Z.of_N <$> status; rn_signal := signal; rn_ended_ms := Z.of_N (millis_up (er_at run)) |} = stored_row run) as -> by (unfold stored_row; by rewrite Ec).
    split; cbn [with_runs process_runs raised_edits pending_idle]; [| |by rewrite raised_of_snoc|by rewrite idle_of_snoc].
    + intros r Hr'. rewrite foldl_insert_lookup, end_of_snoc, He by done. cbn [end_after]. pose proof (named_of_other r _ _ _ (name_key nfc (er_process run)) Hr' Ef) as Hn.
      destruct (decide (_ ∈ _)) as [Hin|Hni]; [rewrite bool_decide_true by (by apply Hn); done|rewrite bool_decide_false by (by rewrite <-Hn); done].
    + intros key run' . rewrite end_of_snoc. cbn [end_after]. case_bool_decide; [by intros [= <-]|apply Ho].
  - intros [= <-]. apply reflects_unknown; [done| |done|done]. intros key e. cbn. rewrite bool_decide_false; [done|]. intros [-> _]. by rewrite Hfind in Ef.
Qed.
Lemma clear_end_reflects rs k project process k' :
  reflects rs k → clear_end is_format nfc db project process k = Ok k' → reflects (rs ++ [Cleared project process]) k'.
Proof.
  intros Hrf. pose proof Hrf as [He Ho Hr Hi]. unfold clear_end. destruct (find project) as [[[id' p']|]|] eqn:Ef; [| |done]; intros [= <-].
  - split; cbn [with_runs process_runs raised_edits pending_idle]; [| |by rewrite raised_of_snoc|by rewrite idle_of_snoc].
    + intros r Hr'. rewrite foldl_delete_lookup, end_of_snoc, He by done. cbn [end_after]. pose proof (named_of_other r _ _ _ (name_key nfc process) Hr' Ef) as Hn.
      destruct (decide (_ ∈ _)) as [Hin|Hni]; [rewrite bool_decide_true by (by apply Hn); done|rewrite bool_decide_false by (by rewrite <-Hn); done].
    + intros key run'. rewrite end_of_snoc. cbn [end_after]. case_bool_decide; [done|apply Ho].
  - apply reflects_unknown; [done| |done|done]. intros key e. cbn. rewrite bool_decide_false; [done|]. intros [-> _]. by rewrite Hfind in Ef.
Qed.
(** The tables keyed by the project alone. *)
Lemma project_key root' id' p' {A} (m : gmap Z A) v :
  find root' = Ok (Some (id', p')) → <[id' := v]> m !! id = (if bool_decide (root' = root) then Some v else m !! id) ∧ delete id' m !! id = (if bool_decide (root' = root) then None else m !! id).
Proof.
  intros Hf%find_other. case_bool_decide as E; rewrite <-Hf in E; [subst; by rewrite lookup_insert_eq, lookup_delete_eq|by rewrite lookup_insert_ne, lookup_delete_ne].
Qed.
Lemma mark_raised_reflects rs k project edit k' :
  reflects rs k → mark_raised is_format db project edit k = Ok k' → reflects (rs ++ [EditsRaised project edit]) k'.
Proof.
  intros Hrf. pose proof Hrf as [He Ho Hr Hi]. unfold mark_raised. destruct (find project) as [[[id' p']|]|] eqn:Ef; [| |done]; intros [= <-].
  - split; cbn [with_raised process_runs raised_edits pending_idle]; [intros r Hr'; by rewrite end_of_snoc, He|intros key run; rewrite end_of_snoc; apply Ho| |by rewrite idle_of_snoc].
    rewrite raised_of_snoc. cbn [raised_after]. rewrite (proj1 (project_key _ _ _ _ _ Ef)). case_bool_decide as E; [|done].
    apply (find_other _ _ _ Ef) in E as ->. by rewrite Hr.
  - apply reflects_unknown; [done|done| |done]. intros e. cbn. rewrite bool_decide_false; [done|]. intros ->. by rewrite Hfind in Ef.
Qed.
Lemma arm_idle_reflects rs k stop k' :
  reflects rs k → arm_idle_stop is_format db stop k = Ok k' → reflects (rs ++ [IdleArmed stop]) k'.
Proof.
  intros Hrf. pose proof Hrf as [He Ho Hr Hi]. unfold arm_idle_stop. destruct (duration_millis LEFT_AT _) as [ms|] eqn:Em; [|done]. apply duration_millis_up in Em as ->.
  destruct (find (pi_project stop)) as [[[id' p']|]|] eqn:Ef; [| |done]; intros [= <-].
  - split; cbn [with_pending process_runs raised_edits pending_idle]; [intros r Hr'; by rewrite end_of_snoc, He|intros key run; rewrite end_of_snoc; apply Ho|by rewrite raised_of_snoc|].
    rewrite idle_of_snoc. cbn [idle_after_record]. rewrite (proj1 (project_key _ _ _ _ _ Ef)). by case_bool_decide.
  - apply reflects_unknown; [done|done|done|]. intros e. cbn. rewrite bool_decide_false; [done|]. intros E. by rewrite E, Hfind in Ef.
Qed.
Lemma clear_idle_reflects rs k project k' :
  reflects rs k → clear_idle_stop is_format db project k = Ok k' → reflects (rs ++ [IdleCleared project]) k'.
Proof.
  intros Hrf. pose proof Hrf as [He Ho Hr Hi]. unfold clear_idle_stop. destruct (find project) as [[[id' p']|]|] eqn:Ef; [| |done]; intros [= <-].
  - split; cbn [with_pending process_runs raised_edits pending_idle]; [intros r Hr'; by rewrite end_of_snoc, He|intros key run; rewrite end_of_snoc; apply Ho|by rewrite raised_of_snoc|].
    rewrite idle_of_snoc. cbn [idle_after_record]. rewrite (proj2 (project_key _ _ _ _ 0%Z Ef)). by case_bool_decide.
  - apply reflects_unknown; [done|done|done|]. intros e. cbn. rewrite bool_decide_false; [done|]. intros ->. by rewrite Hfind in Ef.
Qed.

Lemma landing_reflects rs rs' k k' :
  Forall record_ok rs' → reflects rs k → landing is_format nfc db rs' k = Some k' → reflects (rs ++ rs') k'.
Proof.
  revert rs k. induction rs' as [|r rs' IH]; intros rs k; cbn [landing]; [intros _ ? [= <-]; by rewrite app_nil_r|]. intros [Hr Hrs]%Forall_cons Hrf.
  destruct (apply is_format nfc db r k) as [k1|] eqn:Ea; [|done]. intros Hl. change (r :: rs') with ([r] ++ rs'). rewrite app_assoc. apply (IH _ k1); [done| |done].
  destruct r; cbn [apply record_ok] in *; [by eapply record_end_reflects|by eapply clear_end_reflects|by eapply mark_raised_reflects|by eapply arm_idle_reflects|by eapply clear_idle_reflects].
Qed.

(** ** What is read back *)
Lemma row_name r : r ∈ processes db → process_name_try_new is_format (c_name (ps_columns r)) = Ok (c_name (ps_columns r)).
Proof.
  intros Hr. pose proof (wf_rows _ _ _ Hwf) as Hrows. rewrite Forall_forall in Hrows. destruct (Hrows r Hr) as [s Hs]. destruct (process_params_key nfc s _ (rh_columns _ _ _ _ _ _ Hs)) as [_ ->].
  apply (ok_name _ _ (rh_ok _ _ _ _ _ _ Hs)).
Qed.
Lemma runs_read_back rs k rows :
  reflects rs k → (∀ r, r ∈ rows → r ∈ rows_of db id) →
  runs_from_rows is_format lowercase (omap (λ r, (λ run, (c_name (ps_columns r), run)) <$> process_runs k !! ps_id r) rows) =
  Ok (omap (λ r, (λ run, {| er_process := c_name (ps_columns r); er_outcome := er_outcome run; er_at := as_kept (er_at run) |}) <$> end_of rs root (c_key (ps_columns r))) rows).
Proof.
  intros Hrf. induction rows as [|r rows IH]; intros Hin; [done|]. specialize (IH (λ r' H', Hin r' (list_elem_of_further _ _ _ H'))).
  assert (r ∈ rows_of db id) as Hr by (apply Hin; by left). rewrite !omap_cons, (rf_ends _ _ Hrf r Hr).
  destruct (end_of rs root (c_key (ps_columns r))) as [run|] eqn:Ee; cbn [fmap option_fmap option_map]; [|exact IH].
  cbn [runs_from_rows]. rewrite run_read_back; [|by eapply rf_ok|apply row_name; by apply list_elem_of_filter in Hr as [_ Hr]]. by rewrite IH.
Qed.

Definition idle_times (k : Kept) : Prop := map_Forall (λ _ left_ms, (0 <= left_ms)%Z) (pending_idle k).
Lemma apply_idle_times r k k' : idle_times k → apply is_format nfc db r k = Ok k' → idle_times k'.
Proof.
  unfold idle_times. intros Hk. destruct r as [project run|project process|project edit|stop|project]; cbn [apply].
  - unfold record_end. destruct (outcome_columns _) as [status signal]. destruct (duration_millis _ _); [|done]. destruct (find project) as [[[id' p']|]|]; [|intros [= <-]; done|done].
    destruct (match status with Some _ => _ | None => _ end); [|done]. intros [= <-]. done.
  - unfold clear_end. destruct (find project) as [[[id' p']|]|]; [by intros [= <-]..|done].
  - unfold mark_raised. destruct (find project) as [[[id' p']|]|]; [by intros [= <-]..|done].
  - unfold arm_idle_stop. destruct (duration_millis _ _) as [ms|] eqn:Em; [|done]. apply duration_millis_up in Em as ->. destruct (find (pi_project stop)) as [[[id' p']|]|]; [|intros [= <-]; done|done].
    intros [= <-]. cbn [with_pending pending_idle]. apply map_Forall_insert_2; [lia|done].
  - unfold clear_idle_stop. destruct (find project) as [[[id' p']|]|]; [|intros [= <-]; done|done]. intros [= <-]. cbn [with_pending pending_idle]. by apply map_Forall_delete.
Qed.
Lemma landing_idle_times rs k k' : idle_times k → landing is_format nfc db rs k = Some k' → idle_times k'.
Proof.
  revert k. induction rs as [|r rs IH]; intros k Hk; cbn [landing]; [by intros [= <-]|]. destruct (apply is_format nfc db r k) as [k1|] eqn:Ea; [|done]. apply IH. by eapply apply_idle_times.
Qed.

Lemma stops_read rows :
  Forall (λ row, (0 <= row.2)%Z) rows →
  ∃ stops, stops_from_rows rows = Ok stops ∧
    ∀ stop, stop ∈ stops ↔ ∃ left_ms, (pi_project stop, left_ms) ∈ rows ∧ is_absolute (pi_project stop) = true ∧ pi_left_at stop = (Z.to_N left_ms * NANOS_PER_MILLI)%N.
Proof.
  induction 1 as [|[at_ ms] rows Hms _ (stops & E & Hs)]; cbn [stops_from_rows]; [exists []; split; [done|]; intros stop; split; [by intros ?%elem_of_nil|by intros (? & ?%elem_of_nil & _)]|].
  destruct (is_absolute at_) eqn:Ea; cbn [negb].
  - cbn [snd] in Hms. unfold duration_from_millis. rewrite (proj2 (Z.leb_le 0 _)), E by done. eexists. split; [done|]. intros [sp sl]. rewrite elem_of_cons, Hs. cbn [pi_project pi_left_at]. split.
    + intros [[= -> ->]|(ms' & Hin & Hr)]; [exists ms; split_and!; [by left|done|done]|exists ms'; split; [by right|done]].
    + intros (ms' & [[= -> ->]|Hin]%elem_of_cons & Hr & ->); [by left|right; by exists ms'].
  - exists stops. split; [done|]. intros [sp sl]. rewrite Hs. cbn [pi_project pi_left_at]. split.
    + intros (ms' & Hin & Hr). exists ms'. split; [by right|done].
    + intros (ms' & [[= -> ->]|Hin]%elem_of_cons & Hr & ->); [congruence|by exists ms'].
Qed.

Lemma pending_read k :
  idle_times k →
  ∃ stops, pending_idle_stops root_text db k = Ok stops ∧
    ∀ left_at, {| pi_project := root; pi_left_at := left_at |} ∈ stops ↔ ∃ left_ms, pending_idle k !! id = Some left_ms ∧ left_at = (Z.to_N left_ms * NANOS_PER_MILLI)%N.
Proof.
  intros Hk. unfold pending_idle_stops. set (rows := omap _ (projects db)).
  assert (∀ row, row ∈ rows ↔ ∃ r, r ∈ projects db ∧ pj_root r = row.1 ∧ pending_idle k !! pj_id r = Some row.2) as Hrows.
  { intros [at_ ms]. unfold rows. rewrite list_elem_of_omap. cbn [fst snd]. split.
    - intros (r & Hr & (ms' & E & Hms)%fmap_Some). injection Hms as -> ->. by exists r.
    - intros (r & Hr & <- & E). exists r. by rewrite E. }
  assert (merge_sort (before_root root_text) rows ≡ₚ rows) as Hp by apply merge_sort_Permutation. revert Hp. set (sorted := merge_sort _ rows). intros Hp.
  edestruct (stops_read sorted) as (stops & -> & Hs).
  { rewrite Hp. apply Forall_forall. intros row (r & _ & _ & E)%Hrows. by eapply Hk. }
  exists stops. split; [done|]. intros left_at. rewrite Hs. cbn [pi_project pi_left_at]. destruct (find_project_Some is_format nfc db _ _ _ Hwf Hfind) as (r0 & Hr0 & Hroot & Hid & _).
  split.
  - intros (ms & Hin & _ & E). rewrite Hp in Hin. apply Hrows in Hin as (r & Hr & Er & Ep). cbn in Er, Ep. exists ms. split; [|done].
    by rewrite <-Hid, <-(NoDup_key_inj _ _ _ _ (wf_roots _ _ _ Hwf) Hr Hr0 ltac:(congruence)).
  - intros (ms & Ep & E). exists ms. rewrite Hp. split_and!; [|clear Hs|done].
    + apply Hrows. exists r0. cbn. by rewrite Hid.
    + pose proof (wf_readable _ _ _ Hwf) as Hrd. rewrite Forall_forall in Hrd. destruct (Hrd r0 Hr0) as (q & Hq & _). unfold project_from_row in Hq. rewrite Hroot in Hq. by destruct (is_absolute root).
Qed.

(** How the processes of the project last ended, as they are read. *)
Definition ends_read (rs : list StoreRecord) : list EndedRun :=
  omap (λ r, (λ run, {| er_process := c_name (ps_columns r); er_outcome := er_outcome run; er_at := as_kept (er_at run) |}) <$> end_of rs root (c_key (ps_columns r))) (rows_of db id).
(** What is read of the project once [rs] landed. *)
Definition reads_as (rs : list StoreRecord) (k : Kept) : Prop :=
  ended_runs is_format lowercase db k root = Ok (ends_read rs) ∧ raised_through is_format db k root = Ok (raised_of rs root) ∧
  ∃ stops, pending_idle_stops root_text db k = Ok stops ∧
    ∀ left_at, {| pi_project := root; pi_left_at := left_at |} ∈ stops ↔ ∃ armed_at, idle_of rs root = Some armed_at ∧ left_at = as_kept armed_at.
Lemma records_read_back (rs : list StoreRecord) (k : Kept) : Forall record_ok rs → landing is_format nfc db rs nothing_kept = Some k → reads_as rs k.
Proof.
  intros Hok Hl. assert (reflects rs k) as Hrf by (apply (landing_reflects [] rs nothing_kept k); [done|by split|done]). split; [|split].
  - unfold ended_runs. rewrite Hfind. by apply runs_read_back.
  - unfold raised_through. rewrite Hfind. f_equal. apply (rf_raised _ _ Hrf).
  - destruct (pending_read k) as (stops & E & Hs); [eapply landing_idle_times, Hl; apply map_Forall_empty|]. exists stops. split; [done|]. intros left_at. rewrite Hs, (rf_idle _ _ Hrf). split.
    + intros (ms & (at_ & -> & ->)%fmap_Some & ->). exists at_. unfold as_kept. by rewrite N2Z.id.
    + intros (at_ & -> & ->). eexists. split; [done|]. unfold as_kept. by rewrite N2Z.id.
Qed.
End laws.
