(* ===== verification/Recorder.v ===== *)
(** * The store recorder

    Models muster-service/src/store_recorder.rs with store_record.rs,
    record_retry.rs and recorder_stores.rs: the thread that writes what the
    service keeps, retries what the store is too busy for and gives up the rest
    with a notice, and the flush that drains it on stop.

    The threads' actions interleave as a list of [Event]s: time passing, a record
    sent, a flush begun or no longer waited for, and the worker's next action. A
    flush sets the drain and sends in one event: the worker reads the channel
    only between records, so nothing tells the two apart. The channel never
    refuses a record, since the thread holds its receiver while a sender lives.
    The store is what [RecordStore] says it is; RunRows.v is one. *)
From S2P Require Import Prelude RustText RustPath Values Coordination Process Config StackRows StackStore StackRefine EventLog Lifecycle Runtime RunRows.

Definition RECORD_FIRST_RETRY : duration := (100 * NANOS_PER_MILLI)%N.
Definition RECORD_MAX_RETRY : duration := from_secs 5.
Definition RECORD_RETRY_BUDGET : duration := from_secs 30.
Definition RECORD_DRAIN_BOUND : duration := from_secs 5.
Definition RECORD_FLUSH_SETTLE : duration := from_secs 10.

Record RecordRetry := { rr_first : duration; rr_max : duration; rr_budget : duration; rr_drain : duration; rr_settle : duration }.
Definition retry_service : RecordRetry :=
  {| rr_first := RECORD_FIRST_RETRY; rr_max := RECORD_MAX_RETRY; rr_budget := RECORD_RETRY_BUDGET; rr_drain := RECORD_DRAIN_BOUND; rr_settle := RECORD_FLUSH_SETTLE |}.

Definition RUN_BUSY_NOTICE : rstr := lit "could not record how the process last ended yet, retrying".
Definition RAISED_BUSY_NOTICE : rstr := lit "could not record which agent edits were raised yet, retrying".
Definition IDLE_BUSY_NOTICE : rstr := lit "could not record the project's pending idle stop yet, retrying".
Definition GAVE_UP_NOTICE : rstr := lit "gave up recording".
Definition REFUSED_NOTICE : rstr := lit "could not record".
Definition STOPPED_NOTICE : rstr := lit "the service stopped before recording".
Definition UNCONFIRMED_NOTICE : rstr := lit "the service stopped before these records were confirmed stored:".
Definition ENDED_RECORD : rstr := lit "how a run ended for".
Definition CLEARED_RECORD : rstr := lit "that a run ended on request for".
Definition RAISED_RECORD : rstr := lit "agent edits raised through".
Definition IDLE_ARMED_RECORD : rstr := lit "the project's pending idle stop".
Definition IDLE_CLEARED_RECORD : rstr := lit "that the project's idle stop is no longer pending".

(** What the recorder writes to: a write that fails leaves it. *)
Class RecordStore (K : Type) := store_apply : StoreRecord → K → result K ConfigError.
Definition kept_store (is_format : rchar → bool) (nfc : rstr → rstr) (db : StackDb) : RecordStore Kept := RunRows.apply is_format nfc db.

(** Why a write failed, as [ConfigError::is_busy] tells them apart, with its text. *)
Inductive Failure := Busy (text : rstr) | Refused (text : rstr).

Inductive Item := IRecord (r : StoreRecord) | IFlush (flush : nat) (drain_by : N).
(** How an item was done with. *)
Inductive Fate := Landed | GivenUp (message : rstr) | Answered.

(** A record in hand: when it was taken up, its next pause, whether its first
    refusal was told, and how many pauses it took. *)
Record Attempt := { at_record : StoreRecord; at_started : N; at_pause : duration; at_told : bool; at_pauses : nat }.
Inductive Phase :=
| Waiting
| Looking (a : Attempt)
| Writing (a : Attempt)
| Failing (a : Attempt) (f : Failure)
| Sleeping (a : Attempt) (until : N)
| Counting.

Section recorder.
Context {K : Type} `{RecordStore K} (retry : RecordRetry) (error_text : ConfigError → rstr) (format_duration : duration → rstr).

(** [rc_pushed] is every notice told, [rc_sent] and [rc_done] every item sent and
    done with. *)
Record Recorder := {
  rc_now : N;
  rc_queue : list Item;
  rc_drain_by : option N;
  rc_pending : nat;
  rc_phase : Phase;
  rc_store : K;
  rc_pushed : list Notice;
  rc_answered : list nat;
  rc_calls : list (option N);
  rc_sent : list Item;
  rc_done : list (Item * Fate);
}.
Definition spawn (store : K) (now : N) : Recorder :=
  {| rc_now := now; rc_queue := []; rc_drain_by := None; rc_pending := 0; rc_phase := Waiting; rc_store := store; rc_pushed := []; rc_answered := []; rc_calls := [];
     rc_sent := []; rc_done := [] |}.

Definition put_phase (phase : Phase) (t : Recorder) : Recorder :=
  {| rc_now := rc_now t; rc_queue := rc_queue t; rc_drain_by := rc_drain_by t; rc_pending := rc_pending t; rc_phase := phase; rc_store := rc_store t; rc_pushed := rc_pushed t;
     rc_answered := rc_answered t; rc_calls := rc_calls t; rc_sent := rc_sent t; rc_done := rc_done t |}.
Definition put_notice (n : Notice) (t : Recorder) : Recorder :=
  {| rc_now := rc_now t; rc_queue := rc_queue t; rc_drain_by := rc_drain_by t; rc_pending := rc_pending t; rc_phase := rc_phase t; rc_store := rc_store t; rc_pushed := rc_pushed t ++ [n];
     rc_answered := rc_answered t; rc_calls := rc_calls t; rc_sent := rc_sent t; rc_done := rc_done t |}.

Definition record_project (r : StoreRecord) : path :=
  match r with Ended project _ | Cleared project _ | EditsRaised project _ | IdleCleared project => project | IdleArmed stop => pi_project stop end.
Definition record_process (r : StoreRecord) : option rstr :=
  match r with Ended _ run => Some (er_process run) | Cleared _ process => Some process | _ => None end.
Definition push (r : StoreRecord) (level : NoticeLevel) (message : rstr) (t : Recorder) : Recorder :=
  put_notice {| n_at := rc_now t; n_project := Some (record_project r); n_process := record_process r; n_level := level; n_message := message |} t.
Definition print_edit (edit : Z) : rstr := if (edit <? 0)%Z then lit "-" ++ print_dec (Z.to_N (- edit)) else print_dec (Z.to_N edit).
Definition what (r : StoreRecord) : rstr :=
  match r with
  | Ended _ run => ENDED_RECORD ++ lit " " ++ er_process run
  | Cleared _ process => CLEARED_RECORD ++ lit " " ++ process
  | EditsRaised _ through => RAISED_RECORD ++ lit " " ++ print_edit through
  | IdleArmed _ => IDLE_ARMED_RECORD
  | IdleCleared _ => IDLE_CLEARED_RECORD
  end.
Definition tell (r : StoreRecord) (error : rstr) (t : Recorder) : Recorder :=
  let busy := match r with Ended _ _ | Cleared _ _ => RUN_BUSY_NOTICE | EditsRaised _ _ => RAISED_BUSY_NOTICE | IdleArmed _ | IdleCleared _ => IDLE_BUSY_NOTICE end in
  push r Warning (busy ++ lit ": " ++ error) t.
Definition report_unconfirmed (count : nat) (t : Recorder) : Recorder :=
  put_notice {| n_at := rc_now t; n_project := None; n_process := None; n_level := Error; n_message := UNCONFIRMED_NOTICE ++ lit " " ++ print_dec (N.of_nat count) |} t.

(** The record is done with: what is left is counting it off. *)
Definition settle (r : StoreRecord) (fate : Fate) (store : K) (t : Recorder) : Recorder :=
  {| rc_now := rc_now t; rc_queue := rc_queue t; rc_drain_by := rc_drain_by t; rc_pending := rc_pending t; rc_phase := Counting; rc_store := store; rc_pushed := rc_pushed t;
     rc_answered := rc_answered t; rc_calls := rc_calls t; rc_sent := rc_sent t; rc_done := rc_done t ++ [(IRecord r, fate)] |}.
(** [report], and the return that follows it. *)
Definition report (r : StoreRecord) (message : rstr) (t : Recorder) : Recorder := settle r (GivenUp message) (rc_store t) (push r Error message t).

Definition drain_passed (t : Recorder) (at_ : N) : bool := match rc_drain_by t with Some deadline => (deadline <=? at_)%N | None => false end.

(** The worker's next action; [fault] is what the store fails a write with. *)
Definition work (fault : option Failure) (t : Recorder) : Recorder :=
  match rc_phase t with
  | Waiting =>
    match rc_queue t with
    | [] => t
    | IFlush flush set :: queue =>
      {| rc_now := rc_now t; rc_queue := queue; rc_drain_by := if bool_decide (rc_drain_by t = Some set) then None else rc_drain_by t; rc_pending := rc_pending t; rc_phase := Waiting;
         rc_store := rc_store t; rc_pushed := rc_pushed t; rc_answered := rc_answered t ++ [flush]; rc_calls := rc_calls t; rc_sent := rc_sent t;
         rc_done := rc_done t ++ [(IFlush flush set, Answered)] |}
    | IRecord r :: queue =>
      {| rc_now := rc_now t; rc_queue := queue; rc_drain_by := rc_drain_by t; rc_pending := rc_pending t;
         rc_phase := Looking {| at_record := r; at_started := rc_now t; at_pause := rr_first retry; at_told := false; at_pauses := 0 |};
         rc_store := rc_store t; rc_pushed := rc_pushed t; rc_answered := rc_answered t; rc_calls := rc_calls t; rc_sent := rc_sent t; rc_done := rc_done t |}
    end
  | Looking a => if drain_passed t (rc_now t) then report (at_record a) (STOPPED_NOTICE ++ lit " " ++ what (at_record a)) t else put_phase (Writing a) t
  | Writing a =>
    match fault with
    | Some f => put_phase (Failing a f) t
    | None =>
      match store_apply (at_record a) (rc_store t) with
      | Ok store => settle (at_record a) Landed store t
      | Err e => put_phase (Failing a (Refused (error_text e))) t
      end
    end
  | Failing a (Refused error) => report (at_record a) (REFUSED_NOTICE ++ lit " " ++ what (at_record a) ++ lit ": " ++ error) t
  | Failing a (Busy error) =>
    let resume := (rc_now t + at_pause a)%N in
    if (rr_budget retry <? resume - at_started a)%N then
      report (at_record a) (GAVE_UP_NOTICE ++ lit " " ++ what (at_record a) ++ lit " after " ++ format_duration (rr_budget retry) ++ lit ": " ++ error) t
    else if drain_passed t resume then report (at_record a) (STOPPED_NOTICE ++ lit " " ++ what (at_record a)) t
    else
      let t := if at_told a then t else tell (at_record a) error t in
      put_phase (Sleeping {| at_record := at_record a; at_started := at_started a; at_pause := N.min (2 * at_pause a) (rr_max retry); at_told := true; at_pauses := S (at_pauses a) |} resume) t
  | Sleeping a until => if (until <=? rc_now t)%N then put_phase (Looking a) t else t
  | Counting =>
    {| rc_now := rc_now t; rc_queue := rc_queue t; rc_drain_by := rc_drain_by t; rc_pending := rc_pending t - 1; rc_phase := Waiting; rc_store := rc_store t; rc_pushed := rc_pushed t;
       rc_answered := rc_answered t; rc_calls := rc_calls t; rc_sent := rc_sent t; rc_done := rc_done t |}
  end.

Inductive Event := Tick (d : duration) | Send (r : StoreRecord) | Flush | FlushWaited (flush : nat) | Work (fault : option Failure).

Definition send (r : StoreRecord) (t : Recorder) : Recorder :=
  {| rc_now := rc_now t; rc_queue := rc_queue t ++ [IRecord r]; rc_drain_by := rc_drain_by t; rc_pending := S (rc_pending t); rc_phase := rc_phase t; rc_store := rc_store t;
     rc_pushed := rc_pushed t; rc_answered := rc_answered t; rc_calls := rc_calls t; rc_sent := rc_sent t ++ [IRecord r]; rc_done := rc_done t |}.
(** [flush], until it waits. *)
Definition flush (t : Recorder) : Recorder :=
  let drain_by := (rc_now t + rr_drain retry)%N in
  let item := IFlush (length (rc_calls t)) drain_by in
  {| rc_now := rc_now t; rc_queue := rc_queue t ++ [item]; rc_drain_by := Some drain_by; rc_pending := rc_pending t; rc_phase := rc_phase t; rc_store := rc_store t;
     rc_pushed := rc_pushed t; rc_answered := rc_answered t; rc_calls := rc_calls t ++ [Some (rc_now t + (rr_drain retry + rr_settle retry))%N]; rc_sent := rc_sent t ++ [item];
     rc_done := rc_done t |}.
(** The end of its wait, once it is answered or its time is up. *)
Definition flush_waited (flush : nat) (t : Recorder) : Recorder :=
  match rc_calls t !! flush with
  | Some (Some until) =>
    let answered := bool_decide (flush ∈ rc_answered t) in
    if negb answered && (rc_now t <? until)%N then t else
    let unconfirmed := rc_pending t in
    let t :=
      {| rc_now := rc_now t; rc_queue := rc_queue t; rc_drain_by := rc_drain_by t; rc_pending := rc_pending t; rc_phase := rc_phase t; rc_store := rc_store t;
         rc_pushed := rc_pushed t; rc_answered := rc_answered t; rc_calls := <[flush := None]> (rc_calls t); rc_sent := rc_sent t; rc_done := rc_done t |} in
    if negb answered && (0 <? unconfirmed) then report_unconfirmed unconfirmed t else t
  | _ => t
  end.

Definition step (t : Recorder) (e : Event) : Recorder :=
  match e with
  | Tick d =>
    {| rc_now := rc_now t + d; rc_queue := rc_queue t; rc_drain_by := rc_drain_by t; rc_pending := rc_pending t; rc_phase := rc_phase t; rc_store := rc_store t;
       rc_pushed := rc_pushed t; rc_answered := rc_answered t; rc_calls := rc_calls t; rc_sent := rc_sent t; rc_done := rc_done t |}
  | Send r => send r t
  | Flush => flush t
  | FlushWaited id => flush_waited id t
  | Work fault => work fault t
  end.
Definition runs (events : list Event) (store : K) (now : N) : Recorder := foldl step (spawn store now) events.

(** ** Every record lands or is reported *)
Definition records (items : list Item) : list StoreRecord := omap (λ i, match i with IRecord r => Some r | IFlush _ _ => None end) items.
Definition sends (events : list Event) : list StoreRecord := omap (λ e, match e with Send r => Some r | _ => None end) events.
Definition attempt (phase : Phase) : option Attempt := match phase with Looking a | Writing a | Failing a _ | Sleeping a _ => Some a | Waiting | Counting => None end.
Definition in_hand (phase : Phase) : list Item := match attempt phase with Some a => [IRecord (at_record a)] | None => [] end.
(** The records that landed; those given up, with what was said. *)
Definition landed (items : list (Item * Fate)) : list StoreRecord := omap (λ it, match it with (IRecord r, Landed) => Some r | _ => None end) items.
Definition given_up (items : list (Item * Fate)) : list (StoreRecord * rstr) := omap (λ it, match it with (IRecord r, GivenUp message) => Some (r, message) | _ => None end) items.
Definition answers (items : list (Item * Fate)) : list nat := omap (λ it, match it with (IFlush flush _, Answered) => Some flush | _ => None end) items.
(** The fates an item may have. *)
Definition fated (it : Item * Fate) : Prop :=
  match it with (IRecord _, Landed) | (IRecord _, GivenUp _) | (IFlush _ _, Answered) => True | _ => False end.
(** The errors told of records, as project, process and message. *)
Definition errors (notices : list Notice) : list (path * option rstr * rstr) :=
  omap (λ n, match n_level n, n_project n with Error, Some project => Some (project, n_process n, n_message n) | _, _ => None end) notices.
Definition error_of (g : StoreRecord * rstr) : path * option rstr * rstr := (record_project g.1, record_process g.1, g.2).
Fixpoint store_all (rs : list StoreRecord) (store : K) : option K :=
  match rs with [] => Some store | r :: rs => match store_apply r store with Ok store => store_all rs store | Err _ => None end end.
(** The shortest pause. *)
Definition least_pause : N := N.min (rr_first retry) (rr_max retry).

Lemma store_all_snoc rs r k k' store : store_all rs k = Some store → store_apply r store = Ok k' → store_all (rs ++ [r]) k = Some k'.
Proof. revert k. induction rs as [|r' rs IH]; intros k; cbn [store_all app]; [by intros [= ->] ->|]. destruct (store_apply r' k); [apply IH|done]. Qed.

Record settled (store : K) (t : Recorder) : Prop := {
  st_order : rc_sent t = (rc_done t).*1 ++ in_hand (rc_phase t) ++ rc_queue t;
  st_pending : rc_pending t = length (records (rc_queue t)) + match rc_phase t with Waiting => 0 | _ => 1 end;
  st_store : store_all (landed (rc_done t)) store = Some (rc_store t);
  st_errors : errors (rc_pushed t) = error_of <$> given_up (rc_done t);
  st_fates : Forall fated (rc_done t);
  st_answers : rc_answered t = answers (rc_done t);
}.

Lemma records_app a b : records (a ++ b) = records a ++ records b.
Proof. unfold records. by rewrite omap_app. Qed.
Lemma landed_app a b : landed (a ++ b) = landed a ++ landed b.
Proof. unfold landed. by rewrite omap_app. Qed.
Lemma given_up_app a b : given_up (a ++ b) = given_up a ++ given_up b.
Proof. unfold given_up. by rewrite omap_app. Qed.
Lemma answers_app a b : answers (a ++ b) = answers a ++ answers b.
Proof. unfold answers. by rewrite omap_app. Qed.
Lemma errors_app a b : errors (a ++ b) = errors a ++ errors b.
Proof. unfold errors. by rewrite omap_app. Qed.

(** The phase moves on with the same record in hand. *)
Lemma put_phase_settled store phase t :
  settled store t → in_hand phase = in_hand (rc_phase t) → (phase = Waiting ↔ rc_phase t = Waiting) → settled store (put_phase phase t).
Proof.
  intros [Ho Hp Hs He Hf Ha] Hh Hw. split; cbn [put_phase rc_sent rc_done rc_phase rc_queue rc_pending rc_store rc_pushed rc_answered]; [by rewrite Hh|rewrite Hp|done..].
  revert Hw. clear. destruct phase, (rc_phase t); naive_solver.
Qed.
(** A record in hand done with. *)
Lemma settle_settled store r fate k t :
  settled store t → in_hand (rc_phase t) = [IRecord r] → fated (IRecord r, fate) →
  store_all (landed (rc_done t ++ [(IRecord r, fate)])) store = Some k → ∀ notices,
  errors notices = error_of <$> given_up (rc_done t ++ [(IRecord r, fate)]) →
  settled store {| rc_now := rc_now t; rc_queue := rc_queue t; rc_drain_by := rc_drain_by t; rc_pending := rc_pending t; rc_phase := Counting; rc_store := k; rc_pushed := notices;
     rc_answered := rc_answered t; rc_calls := rc_calls t; rc_sent := rc_sent t; rc_done := rc_done t ++ [(IRecord r, fate)] |}.
Proof.
  intros [Ho Hp Hs He Hf Ha] Hh Hfate Hk notices Hn. split; cbn [rc_sent rc_done rc_phase rc_queue rc_pending rc_store rc_pushed rc_answered]; [| |done|done| |].
  - rewrite Ho, Hh, fmap_app, <-!app_assoc. done.
  - rewrite Hp. by destruct (rc_phase t).
  - by apply Forall_app_2; [|apply Forall_singleton].
  - rewrite Ha, answers_app. destruct fate; cbn; by rewrite ?app_nil_r.
Qed.
Lemma report_settled store r message t :
  settled store t → in_hand (rc_phase t) = [IRecord r] → settled store (report r message t).
Proof.
  intros Hst Hh. apply (settle_settled store r (GivenUp message) (rc_store t) t Hst Hh I).
  - rewrite landed_app. cbn. rewrite app_nil_r. apply Hst.
  - cbn [push put_notice rc_pushed]. rewrite errors_app, given_up_app, fmap_app, (st_errors _ _ Hst). done.
Qed.
Lemma tell_settled store r error t : settled store t → settled store (tell r error t).
Proof.
  intros [Ho Hp Hs He Hf Ha]. split; [done|done|done| |done|done]. cbn [tell push put_notice rc_pushed rc_done]. rewrite errors_app, He. cbn. by rewrite app_nil_r.
Qed.

Lemma work_settled store fault t : settled store t → settled store (work fault t).
Proof.
  intros Hst. pose proof Hst as [Ho Hp Hs He Hf Ha]. unfold work. destruct (rc_phase t) as [|a|a|a f|a until|] eqn:Eph.
  - destruct (rc_queue t) as [|[r|flush set] queue] eqn:Eq; [done| |]; (split; cbn [rc_sent rc_done rc_phase rc_queue rc_pending rc_store rc_pushed rc_answered]; try done).
    + rewrite Hp. change (records (IRecord r :: queue)) with (r :: records queue). cbn [length]. lia.
    + by rewrite Ho, fmap_app, <-app_assoc.
    + rewrite landed_app. cbn. by rewrite app_nil_r.
    + rewrite given_up_app. cbn. by rewrite app_nil_r.
    + by apply Forall_app_2; [|apply Forall_singleton].
    + rewrite Ha, answers_app. done.
  - destruct (drain_passed t (rc_now t)); [apply report_settled; [done|by rewrite Eph]|]. apply put_phase_settled; [done|by rewrite Eph|by rewrite Eph].
  - destruct fault as [f|]; [apply put_phase_settled; [done|by rewrite Eph|by rewrite Eph]|]. destruct (store_apply (at_record a) (rc_store t)) as [k|e] eqn:Ea.
    + apply (settle_settled store (at_record a) Landed k t Hst); [by rewrite Eph|done| |].
      * rewrite landed_app. by eapply store_all_snoc.
      * rewrite given_up_app. cbn. by rewrite app_nil_r.
    + apply put_phase_settled; [done|by rewrite Eph|by rewrite Eph].
  - destruct f as [error|error]; [|apply report_settled; [done|by rewrite Eph]]. destruct (_ <? _)%N; [apply report_settled; [done|by rewrite Eph]|].
    destruct (drain_passed t _); [apply report_settled; [done|by rewrite Eph]|]. cbv zeta.
    apply put_phase_settled; [destruct (at_told a); [done|by apply tell_settled]|destruct (at_told a); cbn [tell push put_notice rc_phase]; by rewrite Eph..].
  - destruct (_ <=? _)%N; [|done]. apply put_phase_settled; [done|by rewrite Eph|by rewrite Eph].
  - split; cbn [rc_sent rc_done rc_phase rc_queue rc_pending rc_store rc_pushed rc_answered]; try done. rewrite Hp. lia.
Qed.

Lemma step_settled store t e : settled store t → settled store (step t e).
Proof.
  intros Hst. pose proof Hst as [Ho Hp Hs He Hf Ha]. destruct e as [d|r| |id|fault]; cbn [step].
  - by split.
  - split; cbn [send rc_sent rc_done rc_phase rc_queue rc_pending rc_store rc_pushed rc_answered]; try done; [by rewrite Ho, <-!app_assoc|]. rewrite records_app, length_app, Hp. cbn. lia.
  - split; cbn [flush rc_sent rc_done rc_phase rc_queue rc_pending rc_store rc_pushed rc_answered]; try done; [by rewrite Ho, <-!app_assoc|]. rewrite records_app, length_app, Hp. cbn. lia.
  - unfold flush_waited. destruct (rc_calls t !! id) as [[until|]|]; [|done|done]. destruct (_ && (_ <? until)%N); [done|]. cbv zeta. destruct (_ && (0 <? rc_pending t)); [|by split].
    split; [done|done|done| |done|done]. cbn [report_unconfirmed put_notice rc_pushed rc_done]. rewrite errors_app, He. cbn. by rewrite app_nil_r.
  - by apply work_settled.
Qed.
Lemma step_sent t e : records (rc_sent (step t e)) = records (rc_sent t) ++ sends [e].
Proof.
  destruct e as [d|r| |id|fault]; cbn [step]; [by rewrite app_nil_r|cbn [send rc_sent]; by rewrite records_app|cbn [flush rc_sent]; by rewrite records_app| |].
  - unfold flush_waited. destruct (rc_calls t !! id) as [[until|]|]; [|by rewrite app_nil_r..]. destruct (_ && (_ <? until)%N); [by rewrite app_nil_r|]. cbv zeta.
    destruct (_ && (0 <? rc_pending t)); cbn; by rewrite app_nil_r.
  - cbn [sends omap list_omap]. rewrite app_nil_r. unfold work. destruct (rc_phase t) as [|a|a|a [error|error]|a until|]; try done.
    + by destruct (rc_queue t) as [|[]].
    + by destruct (drain_passed _ _).
    + destruct fault; [done|]. by destruct (store_apply _ _).
    + destruct (_ <? _)%N; [done|]. destruct (drain_passed _ _); [done|]. by destruct (at_told a).
    + by destruct (_ <=? _)%N.
Qed.

(** ** Retries are bounded *)
(** Its pauses fit in the budget, and it was taken up that long ago. *)
Definition paced_attempt (a : Attempt) (by_ : N) : Prop :=
  (least_pause <= at_pause a)%N ∧ (N.of_nat (at_pauses a) * least_pause <= rr_budget retry)%N ∧ (at_started a + N.of_nat (at_pauses a) * least_pause <= by_)%N.
Definition paced (t : Recorder) : Prop :=
  match rc_phase t with
  | Looking a | Writing a | Failing a _ => paced_attempt a (rc_now t)
  | Sleeping a until => paced_attempt a until ∧ (until <= at_started a + rr_budget retry)%N
  | Waiting | Counting => True
  end.

Lemma paced_later a n n' : (n <= n')%N → paced_attempt a n → paced_attempt a n'.
Proof. unfold paced_attempt. intros. split_and!; lia. Qed.
Lemma work_paced fault t : paced t → paced (work fault t).
Proof.
  unfold work, paced. destruct (rc_phase t) as [|a|a|a [error|error]|a until|] eqn:Eph; intros Hp.
  - destruct (rc_queue t) as [|[r|flush set] queue]; cbn; [by rewrite Eph| |done]. unfold paced_attempt, least_pause. cbn. lia.
  - by destruct (drain_passed _ _).
  - destruct fault; [done|]. by destruct (store_apply _ _).
  - destruct (N.ltb_spec (rr_budget retry) (rc_now t + at_pause a - at_started a)) as [|Hb]; [done|]. destruct (drain_passed _ _); [done|]. cbn [put_phase rc_phase].
    destruct Hp as (H1 & H2 & H3). unfold paced_attempt. cbn [at_pause at_pauses at_started]. unfold least_pause in *. split_and!; lia.
  - done.
  - destruct (N.leb_spec until (rc_now t)); [|by rewrite Eph]. cbn. destruct Hp as [Hp _]. by eapply paced_later.
  - done.
Qed.
Lemma step_paced t e : paced t → paced (step t e).
Proof.
  intros Hp. destruct e as [d|r| |id|fault]; cbn [step]; [|done|done| |by apply work_paced].
  - revert Hp. unfold paced. cbn. destruct (rc_phase t); try done; apply paced_later; lia.
  - unfold flush_waited. destruct (rc_calls t !! id) as [[until|]|]; [|done|done]. destruct (_ && (_ <? until)%N); [done|]. cbv zeta. by destruct (_ && (0 <? rc_pending t)).
Qed.

Lemma run_settled (events : list Event) (store : K) (now : N) :
  let t := runs events store now in records (rc_sent t) = sends events ∧ settled store t ∧ paced t.
Proof.
  cbv zeta. unfold runs. assert (settled store (spawn store now) ∧ paced (spawn store now)) as Hi by (by split). change (sends events) with (records (rc_sent (spawn store now)) ++ sends events).
  revert Hi. generalize (spawn store now). induction events as [|e events IH]; intros t [Ht Hp]; cbn [foldl]; [by rewrite app_nil_r|].
  destruct (IH (step t e)) as (E & Ht' & Hp'); [split; [by apply step_settled|by apply step_paced]|]. split_and!; [|done|done]. rewrite E, step_sent, <-app_assoc. by destruct e.
Qed.

(** C12: the recorder loses nothing in silence, however its threads interleave: what
    was sent is what is done, in hand and waiting, in the order it was sent;
    what is done landed in the store, in that order and nothing else did, or is
    told of by one error notice that names it, and a flush is answered in its
    turn; as many records count as pending as are not done with, one just done
    apart; and a record in hand is retried no longer than the budget. *)
Theorem recorder_settles (events : list Event) (store : K) (now : N) :
  let t := runs events store now in
  records (rc_sent t) = sends events ∧
  rc_sent t = (rc_done t).*1 ++ in_hand (rc_phase t) ++ rc_queue t ∧ Forall fated (rc_done t) ∧
  store_all (landed (rc_done t)) store = Some (rc_store t) ∧
  errors (rc_pushed t) = error_of <$> given_up (rc_done t) ∧ rc_answered t = answers (rc_done t) ∧
  rc_pending t = length (records (rc_queue t)) + (match rc_phase t with Waiting => 0 | _ => 1 end) ∧
  (∀ a, attempt (rc_phase t) = Some a → (N.of_nat (at_pauses a) * least_pause <= rr_budget retry)%N) ∧
  ∀ a until, rc_phase t = Sleeping a until → (until <= at_started a + rr_budget retry)%N.
Proof.
  cbv zeta. destruct (run_settled events store now) as (E & [H1 H2 H3 H4 H5 H6] & Hp). split_and!; try done.
  - intros a Ha. unfold paced in Hp. destruct (rc_phase (runs events store now)); try done; cbn in Ha; injection Ha as ->; unfold paced_attempt in Hp; naive_solver.
  - intros a until Ea. unfold paced in Hp. rewrite Ea in Hp. apply Hp.
Qed.

(** ** A record in hand is done with *)
(** The worker's next actions, each once a sleep it is in is over. *)
Definition wait_left (t : Recorder) : N := match rc_phase t with Sleeping _ until => until - rc_now t | _ => 0 end.
Definition drive (t : Recorder) (fault : option Failure) : Recorder := work fault (step t (Tick (wait_left t))).
Definition most_pauses : nat := N.to_nat (rr_budget retry / least_pause).
Definition actions_left (phase : Phase) : nat :=
  match phase with
  | Looking a => 4 * (most_pauses - at_pauses a) + 3
  | Writing a => 4 * (most_pauses - at_pauses a) + 2
  | Failing a _ => 4 * (most_pauses - at_pauses a) + 1
  | Sleeping a _ => 4 * (most_pauses - at_pauses a) + 4
  | Waiting | Counting => 0
  end.

Hypothesis pauses_pass : (0 < least_pause)%N.
Lemma pauses_bound n : (N.of_nat n * least_pause <= rr_budget retry)%N → n ≤ most_pauses.
Proof. intros Hn. unfold most_pauses. apply N.div_le_mono with (c := least_pause) in Hn; [|lia]. rewrite N.div_mul in Hn by lia. lia. Qed.
Lemma drive_moves fault t a :
  paced t → attempt (rc_phase t) = Some a →
  let t' := drive t fault in
  paced t' ∧
  ((∃ fate, rc_phase t' = Counting ∧ rc_done t' = rc_done t ++ [(IRecord (at_record a), fate)]) ∨
   (∃ a', attempt (rc_phase t') = Some a' ∧ at_record a' = at_record a ∧ actions_left (rc_phase t') < actions_left (rc_phase t) ∧ rc_done t' = rc_done t)).
Proof.
  intros Hp Ha. cbv zeta. assert (paced (drive t fault)) as Hp' by (by apply work_paced, step_paced). split; [done|]. revert Hp'. unfold drive. set (t1 := step t (Tick (wait_left t))).
  assert (rc_phase t1 = rc_phase t ∧ rc_done t1 = rc_done t ∧ rc_now t1 = (rc_now t + wait_left t)%N) as (Eph & Ed & En) by done. unfold work. rewrite Eph, <-Ed. intros Hp'.
  destruct (rc_phase t) as [|a0|a0|a0 [error|error]|a0 until|] eqn:Et; try done; injection Ha as ->.
  - destruct (drain_passed _ _); [left; by eexists|]. right. exists a. cbn. split_and!; [done|done|lia|done].
  - destruct fault as [f|]; [|destruct (store_apply _ _)]; [|left; by eexists|]; right; exists a; cbn; (split_and!; [done|done|lia|done]).
  - destruct (N.ltb_spec (rr_budget retry) (rc_now t1 + at_pause a - at_started a)); [left; by eexists|]. destruct (drain_passed _ _); [left; by eexists|]. right.
    destruct Hp' as [(_ & Hb%pauses_bound & _) _]. cbn [at_pauses] in Hb. eexists. cbn. split_and!; [done|done| |by destruct (at_told a)]. cbn. lia.
  - left; by eexists.
  - assert (until <=? rc_now t1 = true)%N as -> by (apply N.leb_le; rewrite En; unfold wait_left; rewrite Et; lia). right. exists a. cbn. split_and!; [done|done|lia|done].
Qed.

(** C37: a record the worker takes up is done with: whatever the store answers to
    each write, and whatever was drained, at most four actions for each pause
    that fits in the budget, and four more, land it or give it up. *)
Theorem attempts_end (t : Recorder) (a : Attempt) (faults : list (option Failure)) :
  paced t → attempt (rc_phase t) = Some a → 4 * most_pauses + 4 ≤ length faults →
  ∃ n fate, n ≤ 4 * most_pauses + 4 ∧ rc_phase (foldl drive t (take n faults)) = Counting ∧ rc_done (foldl drive t (take n faults)) = rc_done t ++ [(IRecord (at_record a), fate)].
Proof.
  intros Hp Ha Hl. assert (actions_left (rc_phase t) ≤ 4 * most_pauses + 4) as Hm by (destruct (rc_phase t); cbn; lia).
  cut (∀ m, actions_left (rc_phase t) ≤ m → m ≤ length faults → ∃ n fate, n ≤ m ∧ rc_phase (foldl drive t (take n faults)) = Counting ∧
    rc_done (foldl drive t (take n faults)) = rc_done t ++ [(IRecord (at_record a), fate)]).
  { intros Hcut. destruct (Hcut _ Hm Hl) as (n & fate & ?). by exists n, fate. }
  clear Hm Hl. intros m. revert t a faults Hp Ha. induction m as [|m IH]; intros t a faults Hp Ha Hm Hl; [destruct (rc_phase t); cbn in Hm; try done; lia|].
  destruct faults as [|fault faults]; [cbn in Hl; lia|]. destruct (drive_moves fault t a Hp Ha) as [Hp' [(fate & Ec & Ed)|(a' & Ha' & Er & Hlt & Ed)]].
  - exists 1, fate. cbn. split_and!; [lia|done|done].
  - destruct (IH (drive t fault) a' faults Hp' Ha') as (n & fate & Hn & H1 & H2); [lia|cbn in Hl; lia|]. exists (S n), fate. cbn [take foldl]. split_and!; [lia|done|]. by rewrite H2, Ed, Er.
Qed.
End recorder.

(** ** What a later service reads *)
Section restart.
Context (is_format : rchar → bool) (nfc lowercase : rstr → rstr) (root_text : path → rstr) (db : StackDb).
Context (retry : RecordRetry) (error_text : ConfigError → rstr) (format_duration : duration → rstr).
#[local] Instance its_store : RecordStore Kept := kept_store is_format nfc db.

Lemma store_all_landing rs k : store_all rs k = landing is_format nfc db rs k.
Proof.
  revert k. induction rs as [|r rs IH]; intros k; cbn [store_all landing]; [done|]. unfold store_apply, its_store, kept_store. destruct (RunRows.apply is_format nfc db r k); [apply IH|done].
Qed.
Lemma landed_sent items : landed items `sublist_of` records items.*1.
Proof.
  induction items as [|[[r|flush set] fate] items IH]; [done| |exact IH]. rewrite fmap_cons. cbn [fst]. change (records (IRecord r :: items.*1)) with (r :: records items.*1).
  destruct fate; [by apply sublist_skip|by apply sublist_cons|by apply sublist_cons].
Qed.

(** C25: a service that starts again reads what the one before it recorded: after any
    interleaving of the recorder's threads over a store at first empty, whatever
    it failed on the way, a project's runs read as how each of its processes last
    ended by the records that landed, those that ran again or were stopped on
    request left out, its raised mark as the newest edit raised, and its stop as
    pending just when the last record of it armed one; times are rounded up to
    the millisecond, as the columns keep them. *)
Theorem restart_reads_landed (root : path) (id : Z) (p : Project) (events : list Event) (now : N) :
  wf is_format nfc db → find_project is_format db root = Ok (Some (id, p)) → Forall (record_ok lowercase) (sends events) →
  let t := runs retry error_text format_duration events nothing_kept now in
  reads_as is_format nfc lowercase root_text db root id (landed (rc_done t)) (rc_store t).
Proof.
  intros Hwf Hf Hok. cbv zeta. destruct (run_settled retry error_text format_duration events nothing_kept now) as (E & [H1 _ H3 _ _ _] & _).
  eapply records_read_back; [done|done| |by rewrite <-store_all_landing]. rewrite H1, !records_app in E. pose proof (landed_sent (rc_done (runs retry error_text format_duration events nothing_kept now))) as Hl.
  rewrite <-E in Hok. apply Forall_app in Hok as [Hok _]. rewrite Forall_forall in Hok |- *. intros r Hr. apply Hok. exact (elem_of_sublist _ _ _ Hr Hl).
Qed.
End restart.

Module RecorderWitness.
Import Config.Witness StackRefine.Witness.

Lemma added_wf : wf no_format id added.
Proof.
  refine (proj1 (add_process_refines no_format id rowid no_text rowid_above (λ c _, eq_refl) empty_db root web (Agent (lit "a")) at_
    (add_process no_format id rowid no_text root web (Agent (lit "a")) at_ empty_db).1 added (wf_empty no_format id) _ web_ok _ _ _ _)).
  - by vm_compute.
  - by vm_compute.
  - by vm_compute.
  - left. apply Forall_nil_2.
  - unfold added. by destruct (add_process _ _ _ _ _ _ _ _ _).
Qed.

Definition crash : EndedRun := {| er_process := lit "web"; er_outcome := Failed (Status 3); er_at := (5 * NANOS_PER_MILLI - 1)%N |}.
(** A crash the store is first too busy for, then an idle stop it refuses. *)
Definition its_events : list Event :=
  [Send (Ended root crash); Work None; Work None; Work (Some (Busy (lit "locked"))); Work None; Tick RECORD_FIRST_RETRY; Work None; Work None; Work None; Work None;
   Send (IdleArmed {| pi_project := root; pi_left_at := 7 |}); Work None; Work None; Work (Some (Refused (lit "gone"))); Work None].
Definition its_recorder : Recorder := runs (H := kept_store no_format id added) retry_service (λ _, []) (λ _, []) its_events nothing_kept 0.
Definition its_id : Z := default 0%Z (pj_id <$> head (projects added)).
Definition its_project : Project := {| pr_root := root; pr_name := default [] (pj_name <$> head (projects added)); pr_idle_stop := None |}.

Lemma restart_reads_landed_witness :
  ended_runs no_format id added (rc_store its_recorder) root = Ok [{| er_process := lit "web"; er_outcome := Failed (Status 3); er_at := (5 * NANOS_PER_MILLI)%N |}] ∧
  reads_as no_format id id (λ _, []) added root its_id (landed (rc_done its_recorder)) (rc_store its_recorder).
Proof.
  split; [vm_compute; reflexivity|].
  refine (restart_reads_landed no_format id id (λ _, []) added retry_service (λ _, []) (λ _, []) root its_id its_project its_events 0 added_wf _ _).
  - vm_compute. reflexivity.
  - apply Forall_cons_2; [by vm_compute|]. by apply Forall_singleton.
Defined.
Lemma its_pace : paced retry_service (runs (H := kept_store no_format id added) retry_service (λ _, []) (λ _, []) [Send (Ended root crash); Work None] nothing_kept 0).
Proof. apply run_settled. Qed.
Lemma attempts_end_witness :
  ∃ n fate, n ≤ 4 * most_pauses retry_service + 4 ∧
    rc_done (foldl (drive (H := kept_store no_format id added) retry_service (λ _, []) (λ _, []))
      (runs (H := kept_store no_format id added) retry_service (λ _, []) (λ _, []) [Send (Ended root crash); Work None] nothing_kept 0)
      (take n (replicate (4 * most_pauses retry_service + 4) (Some (Busy (lit "locked")))))) = [(IRecord (Ended root crash), fate)].
Proof.
  edestruct (attempts_end (H := kept_store no_format id added) retry_service (λ _, []) (λ _, []) (ltac:(by vm_compute))
    (runs (H := kept_store no_format id added) retry_service (λ _, []) (λ _, []) [Send (Ended root crash); Work None] nothing_kept 0)
    {| at_record := Ended root crash; at_started := 0; at_pause := RECORD_FIRST_RETRY; at_told := false; at_pauses := 0 |}
    (replicate (4 * most_pauses retry_service + 4) (Some (Busy (lit "locked")))) its_pace) as (n & fate & Hn & _ & Hd).
  - by vm_compute.
  - by rewrite length_replicate.
  - exists n, fate. split; [exact Hn|exact Hd].
Defined.
End RecorderWitness.
